(* ===== verification/_CoqProject ===== *)
-Q . S2P
Prelude.v
Errors.v
Words.v
Lists.v
Identity.v
Bytes.v
Budget.v
Kernels.v
Offsets.v
Positions.v
PositionBlocks.v
Records.v
Dictionary.v
Text.v
Normalize.v
Analysis.v
Query.v
Grammar.v
QueryParse.v
QueryCodec.v
Oracle.v
Candidate.v
Recheck.v
GroupHeader.v
GroupBitmap.v
GroupMembers.v
GroupQuery.v
GroupRetire.v
GroupMerge.v
Pages.v
PageOwners.v
PagePostings.v
PageTerms.v
PageGroups.v
GroupPages.v
PageCheck.v
Store.v
Document.v
Relation.v
Writer.v
