(* ===== verification/Prelude.v ===== *)
(** A verification development for PIN, a full-text index for PostgreSQL written in
    Rust (the crates under [src/crates]).

    * The program

    A document is normalized and split into tokens; a query is parsed to a tree over
    terms and phrases. Postings are kept two ways: in codec records (offset sets,
    position blocks, dictionaries), and in groups, which cover 256 heap blocks with
    one membership record, one liveness bitmap and one posting bitmap per term. A query
    is planned as a cover of candidates, evaluated group by group on page masks and
    offset masks, and rechecked against the text. Every byte that is read back is
    checked, every allocation is charged to a budget, and nothing may panic on corrupt
    input.

    * The files, and the code they model (under [src/crates/pin-core/src] if no crate is named)

    - [Prelude]: outcomes, machine integers, byte strings, binary search, automation.
    - [Errors]: [error.rs] and the errors of [budget.rs], [identity.rs], [codec/mod.rs].
    - [Words], [Lists]: masks of 64-bit words, ordered lists; no code of their own
      beyond the word operations of the standard library.
    - [Identity]: [identity.rs], heap coordinates, their order and their 48-bit keys.
    - [Bytes]: [codec/bytes.rs], the reader, the writer and variable-length integers.
    - [Budget]: [budget.rs] and [memory.rs], memory and work accounting.
    - [Kernels]: the crate [pin-kernels], mask combination (scalar and vector form).
    - [Offsets], [Positions], [PositionBlocks], [Records], [Dictionary]: the records of
      [codec/offsets.rs], [positions.rs], [position_blocks.rs], [records.rs],
      [dictionary.rs].
    - [Text]: the operations of Rust's [str] the code uses; [Normalize]: [normalize.rs];
      [Analysis]: [analysis.rs].
    - [Query], [Grammar], [QueryParse], [QueryCodec]: [query.rs], its abstract grammar,
      and the theorems on the parser and on the encoding of queries.
    - [Oracle]: [oracle.rs]; [Candidate]: [candidate.rs]; [Recheck]: [recheck.rs].
    - [GroupHeader], [GroupBitmap], [GroupMembers], [GroupQuery], [GroupRetire],
      [GroupMerge]: [grouped/mod.rs], [bitmap.rs], [members.rs], [query.rs],
      [retire.rs], [merge.rs].
    - [Pages], [PageOwners], [PagePostings], [PageTerms]: [mutable/page.rs], the 8 KiB
      pages of the store: headers, links, reloading and the metapage; the slots of
      published documents; posting pages, their builder and fragments; the dictionary.
      A page is its buffer, its kind and its used length, as the Rust [struct].
    - [PageGroups], [GroupPages]: [mutable/page_grouped.rs]: the tail of the metapage that
      names the group snapshots, the pages of records and catalog nodes, and the dispatch
      of [Page::validate]. [PageCheck]: validation of a page of any kind, as its clients
      use it.
    - [Store]: [mutable/mod.rs], the interface of the host that keeps the pages (a class of
      operations and a class of laws), the loads and traversals every operation shares,
      and the store in memory of [tests/support/mutable_store.rs], an instance.
    - [Document]: [mutable/document.rs], the payload of a document: preparation, validation,
      phrases and membership.
    - [Relation], [Writer]: [mutable/writer.rs] and the invalidation of
      [mutable/grouped/anchors.rs]: what a disk holds of documents, and their insertion.

    * How the code is modelled

    A fallible function returns a [res]: [Ok], an error, or [Panic]. The release profile
    keeps overflow checks, so an overflow of [+], [-] or [*] and an index out of range
    are [Panic]; only what the code writes with [wrapping_], [saturating_] or a cast
    wraps. Integers are [N] with their width written at each operation; a byte is a
    [Byte.byte]. A method on [&mut self] that checks everything before it writes returns
    the new value, and its failure leaves the old one; where what a failure leaves behind
    matters (a liveness image, the pages of a store) the function is in the monad [Eff] of
    [Errors], whose state survives an error and a panic. A callback [impl FnMut] is a
    function with an explicit state, and its errors propagate with [?]. A writer holds the buffer and what was written; a loop is a fold over what it
    iterates, or a [Fixpoint] with fuel, and running out of fuel is [Panic], so that a
    theorem that excludes [Panic] also shows that the fuel is enough: a bit loop has 64
    rounds, a binary search the size of its interval, a cursor of a merge one round per
    member, the merge itself one per member of any source, and the chain of a dictionary
    bucket one per block up to its tail, as its blocks ascend. Slices are shorter than
    [isize_max] ([small]), as they are in Rust.

    Not under [src] and therefore parameters: the Unicode tables (a class in
    [Normalize], with their documented laws), the word segmentation of [Analysis], the
    sizes of Rust types that the accounting multiplies with, and every callback. The host
    of a store is the class [Store.Host.t]; the laws [Store.HostLaws] state what the
    documentation of [PageStore] promises (a commit is atomic, an extension leaves an
    unused block, any operation may fail), and the store in memory satisfies them.

    * What the theorems show

    - Formats: each record opens exactly when it is the encoding of a well-formed value
      (the [_exact] and [roundtrip] theorems), and no input panics.
    - Search: parsing implements the grammar, the oracle computes the meaning of a
      query, covers lose no match, streaming rechecks agree with the oracle.
    - Groups: against the abstract state (ordered members, the sublist that is alive)
      sealing, opening, retirement of one or of many, evaluation of a program with all
      its pruning, and merging do what they promise; a retired owner never comes back.
    - Pages: each kind of page refines an abstract state (the fields of the metapage,
      the list of slots, of references, of entries): in any run of operations both give
      the same results and errors, the readers return the abstract state, validation
      accepts exactly the images of well-formed states, and nothing panics. The runs
      also give the life cycle of a slot, which only moves forward, and incarnations
      that are never handed out twice.
      Group snapshots stay in the order of their identifiers below the counter of the
      metapage, catalog nodes in the order of their keys.
      [PageTerms.emptied_chain_unreadable] is a negative result: a promoted term of a
      packed dictionary whose chain is emptied makes its page unreadable.
    - Store: whatever fails and wherever, an insertion leaves the relation in order, with
      the old owners and payloads, and a new owner is visible only with its whole payload.
      A condition on the disk at every possible failure is part of the weakest
      precondition of [Store], whose rules carry the proofs.
    - Resources: budgets are never exceeded and a failed charge changes nothing.

    * Not modelled

    - Of [mutable/]: the scans ([reader.rs], [count.rs], [query.rs], [phrase_prefix.rs]) and
      their work sharing ([work.rs]),
      vacuum and compaction ([vacuum.rs], [compact.rs]) and the layout of groups over many
      pages ([grouped/]). They are clients of the pages and of the store modelled here,
      of which they add traversals and multi-step rewriting.
    - Of the writer: that the dictionary chains of a relation agree with its documents;
      the programs that link terms are modelled in full, and what is proved of them is
      that they never panic and disturb neither owners nor payloads.
    - [index.rs], the in-memory segment over dictionaries and offset sets.
    - [rank.rs] computes scores in [f64]; the crate [pin-pg] is glue to a server that is
      not under [src]; [lib.rs] only declares modules. *)
From Stdlib Require Export NArith Lia Strings.Byte.
From stdpp Require Export base numbers list option.

#[global] Set Warnings "-clear-no-such-hyp".

#[global] Open Scope N_scope.

(** ** Outcomes

    Every fallible function of the code returns a [Result]; the release profile
    keeps [overflow-checks = true], so an arithmetic overflow or an index out of
    range is a panic in every build.  [Panic] also stands for a loop that outran
    the fuel the model gives it; the termination theorems rule that out. *)
Inductive res (E A : Type) : Type :=
| Ok (a : A)
| Err (e : E)
| Panic.
Arguments Ok {E A} a.
Arguments Err {E A} e.
Arguments Panic {E A}.

Definition rbind {E A B} (m : res E A) (k : A -> res E B) : res E B :=
  match m with Ok a => k a | Err e => Err e | Panic => Panic end.

(** The [?] operator, when the error type is converted on the way ([From]),
    and [map_err]. *)
Definition map_err {E F A} (f : E -> F) (m : res E A) : res F A :=
  match m with Ok a => Ok a | Err e => Err (f e) | Panic => Panic end.

(** [Option::ok_or]. *)
Definition ok_or {E A} (o : option A) (e : E) : res E A :=
  match o with Some a => Ok a | None => Err e end.

(** An expression that panics on [None] (indexing, unchecked arithmetic). *)
Definition or_panic {E A} (o : option A) : res E A :=
  match o with Some a => Ok a | None => Panic end.

Declare Scope res_scope.
Delimit Scope res_scope with res.
Notation "'let*' x := m 'in' k" := (rbind m (fun x => k))
  (at level 10, x name, k at level 200, format "'let*'  x  :=  m  'in' '//' k") : res_scope.
Notation "'let*' ' p := m 'in' k" := (rbind m (fun x => match x with p => k end))
  (at level 10, p pattern, k at level 200) : res_scope.
#[global] Open Scope res_scope.

(** [for x in l { s = f(s, x)?; }] *)
Fixpoint foldM {E S A} (f : S -> A -> res E S) (s : S) (l : list A) : res E S :=
  match l with
  | [] => Ok s
  | a :: l' => let* s' := f s a in foldM f s' l'
  end.

(** ** Lengths, ranges, slices

    [usize] values are [N]; [len] is [slice::len]. *)
Definition len {A} (l : list A) : N := N.of_nat (length l).

(** [a..b] as the list of its values. *)
Definition range (a b : N) : list N :=
  N.of_nat <$> seq (N.to_nat a) (N.to_nat (b - a)).

(** [l[a..b]]: [None] when out of range, which [get] returns and indexing
    turns into a panic. *)
Definition slice {A} (l : list A) (a b : N) : option (list A) :=
  if (a <=? b) && (b <=? len l)
  then Some (take (N.to_nat (b - a)) (drop (N.to_nat a) l)) else None.

(** [l.get(a..)] *)
Definition slice_from {A} (l : list A) (a : N) : option (list A) :=
  if a <=? len l then Some (drop (N.to_nat a) l) else None.

(** [l.get(i)] *)
Definition index {A} (l : list A) (i : N) : option A := l !! N.to_nat i.

(** [dst[at..at + src.len()].copy_from_slice(src)], when it fits. *)
Definition splice {A} (dst : list A) (at_ : N) (src : list A) : list A :=
  take (N.to_nat at_) dst ++ src ++ drop (N.to_nat (at_ + len src)) dst.

(** ** Machine integers

    A [w]-bit unsigned integer is an [N] below [2 ^ w]. *)
Definition checked_add (w a b : N) : option N := if a + b <? 2 ^ w then Some (a + b) else None.
Definition checked_sub (a b : N) : option N := if b <=? a then Some (a - b) else None.
Definition checked_mul (w a b : N) : option N := if a * b <? 2 ^ w then Some (a * b) else None.
Definition saturating_sub (a b : N) : N := a - b.
Definition saturating_mul (w a b : N) : N := N.min (a * b) (2 ^ w - 1).
(** [!x] at width [w]. *)
Definition not_w (w x : N) : N := N.lxor x (N.ones w).
(** [x as uW] *)
Definition trunc (w x : N) : N := N.land x (N.ones w).
(** [x << n] at width [w]: bits shifted out are lost. *)
Definition shl_w (w x n : N) : N := trunc w (N.shiftl x n).
Definition div_ceil (a b : N) : N := (a + b - 1) / b.

(** Unchecked arithmetic of the code: overflow panics. *)
Definition add_w {E} (w a b : N) : res E N := or_panic (checked_add w a b).
Definition sub_w {E} (a b : N) : res E N := or_panic (checked_sub a b).

(** [usize] has 64 bits on the selected target; no slice is longer than
    [isize::MAX] bytes. *)
Definition usize : N := 64.
Definition isize_max : N := 2 ^ 63 - 1.

(** ** Bytes *)
Abbreviation byte := Byte.byte.
#[global] Instance byte_eq_dec : EqDecision byte := Byte.byte_eq_dec.

Definition byte_val (b : byte) : N := Byte.to_N b.
(** [n as u8] *)
Definition byte_of (n : N) : byte :=
  match Byte.of_N (n mod 256) with Some b => b | None => x00 end.

(** [uN::to_le_bytes] and [uN::from_le_bytes], [n] bytes wide. *)
Fixpoint le_bytes (n : nat) (v : N) : list byte :=
  match n with
  | O => []
  | S n' => byte_of v :: le_bytes n' (v / 256)
  end.
Fixpoint le_val (l : list byte) : N :=
  match l with
  | [] => 0
  | b :: l' => byte_val b + 256 * le_val l'
  end.

(** Byte-lexicographic order: the [Ord] of [str] and of [[u8]]. *)
Fixpoint bytes_cmp (a b : list byte) : comparison :=
  match a, b with
  | [], [] => Eq
  | [], _ :: _ => Lt
  | _ :: _, [] => Gt
  | x :: a', y :: b' =>
      match byte_val x ?= byte_val y with
      | Eq => bytes_cmp a' b'
      | c => c
      end
  end.
Definition bytes_ltb (a b : list byte) : bool := match bytes_cmp a b with Lt => true | _ => false end.
Definition bytes_leb (a b : list byte) : bool := match bytes_cmp a b with Gt => false | _ => true end.
Definition bytes_eqb (a b : list byte) : bool := bool_decide (a = b).

(** [str::starts_with] *)
Fixpoint starts_with (p s : list byte) : bool :=
  match p, s with
  | [], _ => true
  | x :: p', y :: s' => bool_decide (x = y) && starts_with p' s'
  | _ :: _, [] => false
  end.

(** [std::str::from_utf8]: the well-formed sequences of the Unicode standard
    (table 3-7), without overlong forms and surrogates. *)
Definition in_range (lo hi : N) (b : byte) : bool := (lo <=? byte_val b) && (byte_val b <=? hi).
Fixpoint utf8_valid (l : list byte) : bool :=
  match l with
  | [] => true
  | b0 :: l0 =>
      if in_range 0 0x7f b0 then utf8_valid l0 else
      match l0 with
      | [] => false
      | b1 :: l1 =>
          if in_range 0xc2 0xdf b0 && in_range 0x80 0xbf b1 then utf8_valid l1 else
          match l1 with
          | [] => false
          | b2 :: l2 =>
              if in_range 0x80 0xbf b2 &&
                 ((in_range 0xe0 0xe0 b0 && in_range 0xa0 0xbf b1)
                  || (in_range 0xe1 0xec b0 && in_range 0x80 0xbf b1)
                  || (in_range 0xed 0xed b0 && in_range 0x80 0x9f b1)
                  || (in_range 0xee 0xef b0 && in_range 0x80 0xbf b1))
              then utf8_valid l2 else
              match l2 with
              | [] => false
              | b3 :: l3 =>
                  if in_range 0x80 0xbf b2 && in_range 0x80 0xbf b3 &&
                     ((in_range 0xf0 0xf0 b0 && in_range 0x90 0xbf b1)
                      || (in_range 0xf1 0xf3 b0 && in_range 0x80 0xbf b1)
                      || (in_range 0xf4 0xf4 b0 && in_range 0x80 0x8f b1))
                  then utf8_valid l3 else false
              end
          end
      end
  end.

(** ** Binary search

    [while lo < hi { let mid = lo + (hi - lo) / 2; if before(mid)? { lo = mid + 1 }
    else { hi = mid } }], the loop every ordered structure of the code shares. *)
Fixpoint bsearch {E} (fuel : nat) (before : N -> res E bool) (lo hi : N) : res E N :=
  match fuel with
  | O => Panic
  | S fuel' =>
      if lo <? hi then
        let mid := lo + (hi - lo) / 2 in
        let* b := before mid in
        if b then bsearch fuel' before (mid + 1) hi else bsearch fuel' before lo mid
      else Ok lo
  end.
(** The interval halves each time, so one more step than its bit size is enough. *)
Definition lower_bound {E} (before : N -> res E bool) (lo hi : N) : res E N :=
  bsearch (S (N.size_nat (hi - lo))) before lo hi.

(** * Lemmas *)

Create HintDb pin.
Create Rewrite HintDb len.

(** ** Outcomes *)
Lemma Ok_inj {E A} (a b : A) : Ok (E := E) a = Ok b -> a = b.
Proof. congruence. Qed.
Lemma Some_inj' {A} (a b : A) : Some a = Some b -> a = b.
Proof. congruence. Qed.

Lemma rbind_ok {E A B} (m : res E A) (k : A -> res E B) b :
  rbind m k = Ok b <-> exists a, m = Ok a /\ k a = Ok b.
Proof. destruct m; naive_solver. Qed.

Lemma rbind_assoc {E A B C} (m : res E A) (k : A -> res E B) (h : B -> res E C) :
  rbind (rbind m k) h = rbind m (fun a => rbind (k a) h).
Proof. by destruct m. Qed.

#[export] Instance rbind_proper {E A B} :
  Proper (eq ==> pointwise_relation A eq ==> eq) (@rbind E A B).
Proof. intros m ? <- k h Hk. destruct m; [apply Hk|done|done]. Qed.

Lemma map_err_ok {E F A} (f : E -> F) (m : res E A) a : map_err f m = Ok a <-> m = Ok a.
Proof. destruct m; naive_solver. Qed.
Lemma ok_or_ok {E A} (o : option A) (e : E) a : ok_or o e = Ok a <-> o = Some a.
Proof. destruct o; naive_solver. Qed.
Lemma or_panic_ok {E A} (o : option A) a : or_panic (E := E) o = Ok a <-> o = Some a.
Proof. destruct o; naive_solver. Qed.
Lemma if_err_ok {E A} (b : bool) (e : E) (m : res E A) a :
  (if b then Err e else m) = Ok a <-> b = false /\ m = Ok a.
Proof. destruct b; naive_solver. Qed.
Lemma if_ok_err {E A} (b : bool) (e : E) (m : res E A) a :
  (if b then m else Err e) = Ok a <-> b = true /\ m = Ok a.
Proof. destruct b; naive_solver. Qed.

(** Takes apart a computation that returned [Ok]. *)
Ltac inv_ok1 :=
  match goal with
  | H : rbind _ _ = Ok _ |- _ => apply rbind_ok in H as (? & ? & H)
  | H : map_err _ _ = Ok _ |- _ => apply map_err_ok in H
  | H : ok_or _ _ = Ok _ |- _ => apply ok_or_ok in H
  | H : or_panic _ = Ok _ |- _ => apply or_panic_ok in H
  | H : (if _ then Err _ else _) = Ok _ |- _ => apply if_err_ok in H as [? H]
  | H : (if _ then _ else Err _) = Ok _ |- _ => apply if_ok_err in H as [? H]
  | H : Ok _ = Ok _ |- _ => apply Ok_inj in H; simplify_eq
  | H : Ok _ = Err _ |- _ => discriminate H
  | H : Err _ = Ok _ |- _ => discriminate H
  | H : Panic = Ok _ |- _ => discriminate H
  | H : Some _ = Some _ |- _ => apply Some_inj' in H; simplify_eq
  | H : None = Some _ |- _ => discriminate H
  | H : context [match ?p with pair _ _ => _ end] |- _ => is_var p; destruct p
  end.
Ltac inv_ok := repeat (inv_ok1; cbn beta iota in * ).

(** A computation that does not panic. *)
Definition safe {E A} (m : res E A) : Prop := m <> Panic.

Lemma safe_ok {E A} (a : A) : safe (Ok (E := E) a).
Proof. done. Qed.
Lemma safe_err {E A} (e : E) : safe (Err (A := A) e).
Proof. done. Qed.
Lemma safe_bind {E A B} (m : res E A) (k : A -> res E B) :
  safe m -> (forall a, m = Ok a -> safe (k a)) -> safe (rbind m k).
Proof. destruct m; unfold safe; naive_solver. Qed.
Lemma safe_map_err {E F A} (f : E -> F) (m : res E A) : safe m -> safe (map_err f m).
Proof. destruct m; unfold safe; naive_solver. Qed.
Lemma safe_ok_or {E A} (o : option A) (e : E) : safe (ok_or o e).
Proof. by destruct o. Qed.
Lemma safe_if {E A} (b : bool) (m n : res E A) :
  (b = true -> safe m) -> (b = false -> safe n) -> safe (if b then m else n).
Proof. destruct b; naive_solver. Qed.
Lemma safe_or_panic {E A} (o : option A) : is_Some o -> safe (or_panic (E := E) o).
Proof. by intros [? ->]. Qed.
#[export] Hint Resolve safe_ok safe_err safe_map_err safe_ok_or : pin.

(** Walks through a monadic body, leaving the steps that could panic. *)
Ltac safe_step :=
  match goal with
  | |- safe (rbind _ _) => apply safe_bind; [|intros ? ?]
  | |- safe (if _ then _ else _) => apply safe_if; intros ?
  | |- safe (match ?p with pair _ _ => _ end) => destruct p
  | |- safe _ => solve [eauto with pin]
  end.

Lemma foldM_app {E S A} (f : S -> A -> res E S) s l1 l2 :
  foldM f s (l1 ++ l2) = let* s' := foldM f s l1 in foldM f s' l2.
Proof.
  revert s; induction l1 as [|a l1 IH]; intros s; simpl; [done|].
  rewrite rbind_assoc. destruct (f s a); simpl; auto.
Qed.

(** Invariant rule for loops that succeed. *)
Lemma foldM_ok_inv {E S A} (f : S -> A -> res E S) (I : S -> list A -> Prop) s l s' :
  I s l ->
  (forall s a l' s1, I s (a :: l') -> f s a = Ok s1 -> I s1 l') ->
  foldM f s l = Ok s' -> I s' [].
Proof.
  intros HI Hstep; revert s HI; induction l as [|a l IH]; simpl; intros s HI H; inv_ok; eauto.
Qed.

Lemma foldM_safe {E S A} (f : S -> A -> res E S) (I : S -> Prop) s l :
  I s ->
  (forall s a, a ∈ l -> I s -> safe (f s a) /\ forall s', f s a = Ok s' -> I s') ->
  safe (foldM f s l).
Proof.
  revert s; induction l as [|a l IH]; simpl; intros s HI H; [done|].
  destruct (H s a ltac:(left) HI) as [H1 H2].
  apply safe_bind; [done|]. intros s1 Hs1. apply IH; [by apply H2|].
  intros; apply H; [by right|done].
Qed.

Lemma foldM_ext {E S A} (f g : S -> A -> res E S) s l :
  (forall s a, a ∈ l -> f s a = g s a) -> foldM f s l = foldM g s l.
Proof.
  revert s; induction l as [|a l IH]; simpl; intros s H; [done|].
  rewrite H by left. destruct (g s a); simpl; auto. apply IH. intros; apply H; by right.
Qed.

(** [lia] with the equations of [/] and [mod] by a constant. *)
Ltac dlia := zify; Z.to_euclidean_division_equations; lia.

(** ** Lengths *)
Lemma len_nil {A} : len (@nil A) = 0.
Proof. done. Qed.
Lemma len_cons {A} (a : A) l : len (a :: l) = 1 + len l.
Proof. unfold len; simpl; lia. Qed.
Lemma len_app {A} (l1 l2 : list A) : len (l1 ++ l2) = len l1 + len l2.
Proof. unfold len; rewrite length_app; lia. Qed.
Lemma len_take {A} n (l : list A) : len (take n l) = N.min (N.of_nat n) (len l).
Proof. unfold len; rewrite length_take; lia. Qed.
Lemma len_drop {A} n (l : list A) : len (drop n l) = len l - N.of_nat n.
Proof. unfold len; rewrite length_drop; lia. Qed.
Lemma len_fmap {A B} (f : A -> B) l : len (f <$> l) = len l.
Proof. unfold len; by rewrite length_fmap. Qed.
Lemma len_replicate {A} n (x : A) : len (replicate n x) = N.of_nat n.
Proof. unfold len; by rewrite length_replicate. Qed.
Lemma len_reverse {A} (l : list A) : len (reverse l) = len l.
Proof. unfold len; by rewrite length_reverse. Qed.
Lemma len_insert {A} (l : list A) i x : len (<[i:=x]> l) = len l.
Proof. unfold len; by rewrite length_insert. Qed.
Lemma to_nat_len {A} (l : list A) : N.to_nat (len l) = length l.
Proof. unfold len; lia. Qed.
#[export] Hint Rewrite @len_nil @len_cons @len_app @len_take @len_drop @len_fmap
  @len_replicate @len_reverse @len_insert N2Nat.id : len.

(** Arithmetic about lengths. *)
Ltac len_lia := autorewrite with len in *; lia.

Lemma len_zero {A} (l : list A) : len l = 0 -> l = [].
Proof. destruct l; [done|]. rewrite len_cons; lia. Qed.

(** ** Ranges *)
Lemma range_nil a b : b <= a -> range a b = [].
Proof. intros; unfold range. by replace (N.to_nat (b - a)) with O by lia. Qed.
Lemma range_cons a b : a < b -> range a b = a :: range (a + 1) b.
Proof.
  intros; unfold range. replace (N.to_nat (b - a)) with (S (N.to_nat (b - (a + 1)))) by lia.
  simpl. f_equal; [lia|]. do 2 f_equal; lia.
Qed.
Lemma range_app a b c : a <= b -> b <= c -> range a c = range a b ++ range b c.
Proof.
  intros; unfold range. rewrite <- fmap_app. f_equal.
  replace (N.to_nat (c - a)) with (N.to_nat (b - a) + N.to_nat (c - b))%nat by lia.
  rewrite seq_app. do 2 f_equal; lia.
Qed.
Lemma range_snoc a b : a <= b -> range a (b + 1) = range a b ++ [b].
Proof. intros; rewrite (range_app a b) by lia. by rewrite (range_cons b), (range_nil (b + 1)) by lia. Qed.
Lemma elem_of_range a b i : i ∈ range a b <-> a <= i < b.
Proof.
  unfold range. rewrite list_elem_of_fmap. setoid_rewrite elem_of_seq. split.
  - intros (n & -> & ?); lia.
  - intros; exists (N.to_nat i); lia.
Qed.
Lemma len_range a b : len (range a b) = b - a.
Proof. unfold range, len. rewrite length_fmap, length_seq; lia. Qed.
#[export] Hint Rewrite len_range : len.

Lemma range_add a b c : range (a + c) (b + c) = (fun i => i + c) <$> range a b.
Proof.
  unfold range. rewrite <- list_fmap_compose.
  replace (b + c - (a + c)) with (b - a) by lia.
  generalize (N.to_nat (b - a)) as n. intros n; revert a.
  induction n as [|n IH]; intros a; simpl; [done|].
  f_equal; [lia|]. rewrite <- !N2Nat.inj_succ.
  replace (N.succ (a + c)) with (N.succ a + c) by lia. apply IH.
Qed.
Lemma range_offset a b : range a b = (fun i => i + a) <$> range 0 (b - a).
Proof.
  rewrite <- range_add. destruct (decide (a <= b)); [f_equal; lia|].
  rewrite !range_nil by lia; done.
Qed.
Lemma range_lookup a b i : i < b - a -> range a b !! N.to_nat i = Some (a + i).
Proof.
  intros. unfold range. rewrite list_lookup_fmap, lookup_seq_lt by lia. simpl. f_equal; lia.
Qed.

(** ** Slices *)
Lemma slice_ok {A} (l : list A) a b x :
  slice l a b = Some x <-> a <= b /\ b <= len l /\ x = take (N.to_nat (b - a)) (drop (N.to_nat a) l).
Proof.
  unfold slice. destruct (N.leb_spec a b), (N.leb_spec b (len l)); simpl; naive_solver lia.
Qed.
Lemma slice_len {A} (l : list A) a b x : slice l a b = Some x -> len x = b - a.
Proof. intros (? & ? & ->)%slice_ok. len_lia. Qed.
Lemma slice_app {A} (p x s : list A) a b :
  a = len p -> b = len p + len x -> slice (p ++ x ++ s) a b = Some x.
Proof.
  intros -> ->. apply slice_ok. split_and!; [lia|len_lia|].
  rewrite to_nat_len, drop_app_length.
  replace (N.to_nat _) with (length x) by (unfold len; lia). by rewrite take_app_length.
Qed.

Lemma splice_len {A} (l : list A) i x : i + len x <= len l -> len (splice l i x) = len l.
Proof. intros; unfold splice; len_lia. Qed.

Lemma take_drop_split {A} (l : list A) n :
  take (N.to_nat n) l ++ drop (N.to_nat n) l = l.
Proof. apply take_drop. Qed.

(** ** Booleans and machine integers *)
Lemma pow2_pos n : 0 < 2 ^ n.
Proof. by apply N.neq_0_lt_0, N.pow_nonzero. Qed.
Lemma checked_add_some w a b c : checked_add w a b = Some c <-> c = a + b /\ a + b < 2 ^ w.
Proof. unfold checked_add. destruct (N.ltb_spec (a + b) (2 ^ w)); naive_solver lia. Qed.
Lemma checked_add_none w a b : checked_add w a b = None <-> 2 ^ w <= a + b.
Proof. unfold checked_add. destruct (N.ltb_spec (a + b) (2 ^ w)); naive_solver lia. Qed.
Lemma checked_sub_some a b c : checked_sub a b = Some c <-> c = a - b /\ b <= a.
Proof. unfold checked_sub. destruct (N.leb_spec b a); naive_solver lia. Qed.
Lemma checked_sub_none a b : checked_sub a b = None <-> a < b.
Proof. unfold checked_sub. destruct (N.leb_spec b a); naive_solver lia. Qed.
Lemma checked_mul_some w a b c : checked_mul w a b = Some c <-> c = a * b /\ a * b < 2 ^ w.
Proof. unfold checked_mul. destruct (N.ltb_spec (a * b) (2 ^ w)); naive_solver lia. Qed.
Lemma checked_add_fits w a b : a + b < 2 ^ w -> checked_add w a b = Some (a + b).
Proof. intros; by apply checked_add_some. Qed.
Lemma checked_sub_fits a b : b <= a -> checked_sub a b = Some (a - b).
Proof. intros; by apply checked_sub_some. Qed.
Lemma checked_mul_fits w a b : a * b < 2 ^ w -> checked_mul w a b = Some (a * b).
Proof. intros; by apply checked_mul_some. Qed.
Lemma add_w_fits {E} w a b : a + b < 2 ^ w -> add_w (E := E) w a b = Ok (a + b).
Proof. intros; unfold add_w. by rewrite checked_add_fits. Qed.
Lemma sub_w_fits {E} a b : b <= a -> sub_w (E := E) a b = Ok (a - b).
Proof. intros; unfold sub_w. by rewrite checked_sub_fits. Qed.
Lemma add_w_ok {E} w a b c : add_w (E := E) w a b = Ok c <-> c = a + b /\ a + b < 2 ^ w.
Proof. unfold add_w. by rewrite or_panic_ok, checked_add_some. Qed.
Lemma sub_w_ok {E} a b c : sub_w (E := E) a b = Ok c <-> c = a - b /\ b <= a.
Proof. unfold sub_w. by rewrite or_panic_ok, checked_sub_some. Qed.
Lemma trunc_mod w x : trunc w x = x mod 2 ^ w.
Proof. apply N.land_ones. Qed.
Lemma trunc_small w x : x < 2 ^ w -> trunc w x = x.
Proof. intros; rewrite trunc_mod; by apply N.mod_small. Qed.

(** Turns boolean tests of hypotheses and goal into propositions. *)
Ltac bool_to_prop :=
  repeat match goal with
  | H : (_ && _)%bool = true |- _ => apply andb_true_iff in H as [? H]
  | H : (_ || _)%bool = false |- _ => apply orb_false_iff in H as [? H]
  | H : (_ && _)%bool = false |- _ => apply andb_false_iff in H
  | H : (_ || _)%bool = true |- _ => apply orb_true_iff in H
  | H : negb _ = true |- _ => apply negb_true_iff in H
  | H : negb _ = false |- _ => apply negb_false_iff in H
  | H : (_ <=? _) = true |- _ => apply N.leb_le in H
  | H : (_ <=? _) = false |- _ => apply N.leb_gt in H
  | H : (_ <? _) = true |- _ => apply N.ltb_lt in H
  | H : (_ <? _) = false |- _ => apply N.ltb_ge in H
  | H : (_ =? _) = true |- _ => apply N.eqb_eq in H
  | H : (_ =? _) = false |- _ => apply N.eqb_neq in H
  | H : bool_decide _ = true |- _ => apply bool_decide_eq_true in H
  | H : bool_decide _ = false |- _ => apply bool_decide_eq_false in H
  end.

(** ** Bytes *)
Lemma byte_val_lt b : byte_val b < 256.
Proof. unfold byte_val. pose proof (Byte.to_N_bounded b). lia. Qed.
Lemma byte_val_of n : byte_val (byte_of n) = n mod 256.
Proof.
  unfold byte_of. destruct (Byte.of_N (n mod 256)) eqn:E.
  - by apply Byte.to_of_N in E.
  - apply Byte.of_N_None_iff in E. pose proof (N.mod_lt n 256). lia.
Qed.
Lemma byte_of_val b : byte_of (byte_val b) = b.
Proof.
  unfold byte_of. pose proof (byte_val_lt b). rewrite N.mod_small by done.
  unfold byte_val. by rewrite Byte.of_to_N.
Qed.
Lemma byte_val_of_small n : n < 256 -> byte_val (byte_of n) = n.
Proof. intros. rewrite byte_val_of. by apply N.mod_small. Qed.
Lemma byte_val_inj a b : byte_val a = byte_val b -> a = b.
Proof. intros H. rewrite <- (byte_of_val a), <- (byte_of_val b). by f_equal. Qed.
Lemma byte_of_mod n : byte_of (n mod 256) = byte_of n.
Proof. apply byte_val_inj. rewrite !byte_val_of. by apply N.Div0.mod_mod. Qed.

Lemma len_le_bytes n v : len (le_bytes n v) = N.of_nat n.
Proof. revert v; induction n as [|n IH]; intros v; simpl; [done|]. rewrite len_cons, IH. lia. Qed.
Lemma length_le_bytes n v : length (le_bytes n v) = n.
Proof. revert v; induction n; intros; simpl; auto. Qed.
#[export] Hint Rewrite len_le_bytes : len.

Lemma le_val_lt l : le_val l < 2 ^ (8 * len l).
Proof.
  induction l as [|b l IH]; [done|]. rewrite len_cons. cbn [le_val].
  pose proof (byte_val_lt b). replace (8 * (1 + len l)) with (8 + 8 * len l) by lia.
  rewrite N.pow_add_r. change (2 ^ 8) with 256. nia.
Qed.
Lemma le_val_bytes n v : le_val (le_bytes n v) = v mod 2 ^ (8 * N.of_nat n).
Proof.
  revert v; induction n as [|n IH]; intros v.
  - cbn. by rewrite N.mod_1_r.
  - cbn [le_bytes le_val]. rewrite IH, byte_val_of.
    replace (8 * N.of_nat (S n)) with (8 + 8 * N.of_nat n) by lia.
    rewrite N.pow_add_r. change (2 ^ 8) with 256.
    rewrite N.Div0.mod_mul_r. done.
Qed.
Lemma le_val_bytes_small n v : v < 2 ^ (8 * N.of_nat n) -> le_val (le_bytes n v) = v.
Proof. intros; rewrite le_val_bytes. by apply N.mod_small. Qed.
Lemma le_bytes_val l : le_bytes (length l) (le_val l) = l.
Proof.
  induction l as [|b l IH]; [done|]. cbn [length le_bytes le_val].
  pose proof (byte_val_lt b). f_equal.
  - rewrite <- byte_of_mod, N.mul_comm, N.Div0.mod_add, N.mod_small by done. apply byte_of_val.
  - rewrite N.mul_comm, N.div_add, N.div_small, N.add_0_l by lia. done.
Qed.
Lemma le_val_inj l1 l2 : length l1 = length l2 -> le_val l1 = le_val l2 -> l1 = l2.
Proof. intros H1 H2. rewrite <- (le_bytes_val l1), H1, H2. apply le_bytes_val. Qed.

(** ** Byte strings *)
Lemma bytes_cmp_eq a b : bytes_cmp a b = Eq <-> a = b.
Proof.
  revert b; induction a as [|x a IH]; intros [|y b]; simpl; [done..|].
  destruct (N.compare_spec (byte_val x) (byte_val y)) as [H|H|H].
  - apply byte_val_inj in H as ->. rewrite IH. naive_solver.
  - split; [done|]. intros [= -> ->]; lia.
  - split; [done|]. intros [= -> ->]; lia.
Qed.
Lemma bytes_cmp_antisym a b : bytes_cmp b a = CompOpp (bytes_cmp a b).
Proof.
  revert b; induction a as [|x a IH]; intros [|y b]; simpl; [done..|].
  rewrite (N.compare_antisym (byte_val x)). destruct (byte_val x ?= byte_val y); simpl; auto.
Qed.
Lemma bytes_cmp_lt_trans a b c : bytes_cmp a b = Lt -> bytes_cmp b c = Lt -> bytes_cmp a c = Lt.
Proof.
  revert b c; induction a as [|x a IH]; intros [|y b] [|z c]; simpl; try done.
  destruct (N.compare_spec (byte_val x) (byte_val y)) as [H1|H1|H1]; try done;
  destruct (N.compare_spec (byte_val y) (byte_val z)) as [H2|H2|H2]; try done; intros;
  destruct (N.compare_spec (byte_val x) (byte_val z)) as [H3|H3|H3]; try lia; eauto.
Qed.

Definition bytes_lt (a b : list byte) : Prop := bytes_cmp a b = Lt.
Lemma bytes_ltb_lt a b : bytes_ltb a b = true <-> bytes_lt a b.
Proof. unfold bytes_ltb, bytes_lt. destruct (bytes_cmp a b); naive_solver. Qed.
Lemma bytes_leb_le a b : bytes_leb a b = true <-> bytes_lt a b \/ a = b.
Proof. unfold bytes_leb, bytes_lt. rewrite <- bytes_cmp_eq. destruct (bytes_cmp a b); naive_solver. Qed.
Lemma bytes_leb_ltb a b : bytes_leb a b = negb (bytes_ltb b a).
Proof. unfold bytes_leb, bytes_ltb. rewrite bytes_cmp_antisym. by destruct (bytes_cmp b a). Qed.
Lemma bytes_eqb_eq a b : bytes_eqb a b = true <-> a = b.
Proof. apply bool_decide_eq_true. Qed.
Lemma bytes_lt_irrefl a : ~ bytes_lt a a.
Proof. unfold bytes_lt. by rewrite (proj2 (bytes_cmp_eq a a) eq_refl). Qed.
#[export] Instance bytes_lt_trans : Transitive bytes_lt.
Proof. intros a b c; apply bytes_cmp_lt_trans. Qed.
#[export] Instance bytes_lt_strict : StrictOrder bytes_lt.
Proof. split; [intros a; apply bytes_lt_irrefl|apply _]. Qed.
#[export] Instance bytes_lt_dec : RelDecision bytes_lt.
Proof. intros a b. unfold bytes_lt. destruct (bytes_cmp a b); [right|left|right]; done. Defined.
Lemma bytes_lt_total a b : bytes_lt a b \/ a = b \/ bytes_lt b a.
Proof.
  unfold bytes_lt. rewrite (bytes_cmp_antisym a b), <- bytes_cmp_eq.
  destruct (bytes_cmp a b); naive_solver.
Qed.
Lemma bytes_ltb_ge a b : bytes_ltb a b = false <-> bytes_lt b a \/ a = b.
Proof.
  rewrite <- not_true_iff_false, bytes_ltb_lt. split.
  - destruct (bytes_lt_total a b); naive_solver.
  - intros [H| ->] H'; [eapply bytes_lt_irrefl; by etrans|by eapply bytes_lt_irrefl].
Qed.

Lemma starts_with_spec p s : starts_with p s = true <-> exists t, s = p ++ t.
Proof.
  revert s; induction p as [|x p IH]; intros [|y s]; simpl; [naive_solver..|].
  rewrite andb_true_iff, bool_decide_eq_true, IH. naive_solver.
Qed.

(** ** Binary search *)
Lemma bsearch_spec {E} fuel (before : N -> res E bool) (p : N -> bool) lo hi :
  lo <= hi -> hi - lo < 2 ^ N.of_nat (pred fuel) -> (0 < fuel)%nat ->
  (forall i, lo <= i < hi -> before i = Ok (p i)) ->
  (forall i j, lo <= i -> i <= j -> j < hi -> p j = true -> p i = true) ->
  exists k, bsearch fuel before lo hi = Ok k /\ lo <= k <= hi /\
    (forall i, lo <= i < k -> p i = true) /\ (forall i, k <= i < hi -> p i = false).
Proof.
  revert lo hi; induction fuel as [|fuel IH]; intros lo hi Hle Hf Hf0 Hb Hm; [lia|].
  cbn [bsearch]. destruct (N.ltb_spec lo hi) as [Hlt|Hge].
  2:{ exists lo. split_and!; [done|lia|lia|intros; lia|intros; lia]. }
  destruct fuel as [|fuel]; [cbn in Hf; lia|].
  cbn [pred] in Hf, IH. rewrite Nat2N.inj_succ, N.pow_succ_r' in Hf.
  pose proof (N.div_mod' (hi - lo) 2) as Hdiv. pose proof (N.mod_lt (hi - lo) 2 ltac:(lia)) as Hmod.
  set (mid := lo + (hi - lo) / 2). assert (mid = lo + (hi - lo) / 2) as Emid by done. clearbody mid.
  set (q := (hi - lo) / 2) in *. set (r := (hi - lo) mod 2) in *. clearbody q r.
  assert (Hmid : lo <= mid < hi) by lia.
  rewrite Hb by done. cbn [rbind]. destruct (p mid) eqn:Hp.
  - destruct (IH (mid + 1) hi) as (k & -> & ? & ? & ?); [lia|lia|lia| | |].
    { intros; apply Hb; lia. }
    { intros i j ? ? ? ?; apply (Hm i j); lia || done. }
    exists k; split_and!; [done|lia|lia| |done].
    intros i ?. destruct (decide (i <= mid)); [apply (Hm i mid); lia || done|].
    naive_solver lia.
  - destruct (IH lo mid) as (k & -> & ? & ? & ?); [lia|lia|lia| | |].
    { intros; apply Hb; lia. }
    { intros i j ? ? ? ?; apply (Hm i j); lia || done. }
    exists k; split_and!; [done|lia|lia|done|].
    intros i ?. destruct (decide (i < mid)); [naive_solver lia|].
    destruct (p i) eqn:Hpi; [|done]. rewrite (Hm mid i) in Hp; done || lia.
Qed.

Lemma size_nat_gt n : n < 2 ^ N.of_nat (N.size_nat n).
Proof.
  replace (N.of_nat (N.size_nat n)) with (N.size n); [apply N.size_gt|].
  destruct n as [|p]; [done|]. simpl. induction p; simpl; lia.
Qed.

Lemma lower_bound_spec {E} (before : N -> res E bool) (p : N -> bool) lo hi :
  lo <= hi ->
  (forall i, lo <= i < hi -> before i = Ok (p i)) ->
  (forall i j, lo <= i -> i <= j -> j < hi -> p j = true -> p i = true) ->
  exists k, lower_bound before lo hi = Ok k /\ lo <= k <= hi /\
    (forall i, lo <= i < k -> p i = true) /\ (forall i, k <= i < hi -> p i = false).
Proof.
  intros. apply bsearch_spec; [done| |lia|done|done].
  cbn [pred]. apply size_nat_gt.
Qed.

(** The split point is unique: a search result is determined by its predicate. *)
Lemma split_unique (p : N -> bool) lo hi k k' :
  lo <= k <= hi -> (forall i, lo <= i < k -> p i = true) -> (forall i, k <= i < hi -> p i = false) ->
  lo <= k' <= hi -> (forall i, lo <= i < k' -> p i = true) -> (forall i, k' <= i < hi -> p i = false) ->
  k = k'.
Proof.
  intros ? H1 H2 ? H3 H4. destruct (N.lt_trichotomy k k') as [|[|]]; [|done|].
  - specialize (H2 k ltac:(lia)). rewrite H3 in H2; done || lia.
  - specialize (H4 k' ltac:(lia)). rewrite H1 in H4; done || lia.
Qed.

(** Whatever the comparison does, the search stays in its interval and ends. *)
Lemma bsearch_bounds {E} fuel (before : N -> res E bool) lo hi k :
  lo <= hi -> bsearch fuel before lo hi = Ok k -> lo <= k <= hi.
Proof.
  revert lo hi. induction fuel as [|fuel IH]; intros lo hi Hle H; [done|]. cbn [bsearch] in H.
  destruct (N.ltb_spec lo hi) as [Hlt|]; [|inv_ok; lia].
  assert (Hmid : lo <= lo + (hi - lo) / 2 < hi) by dlia.
  apply rbind_ok in H as (b & _ & H). destruct b; apply IH in H; lia.
Qed.
Lemma bsearch_safe {E} fuel (before : N -> res E bool) lo hi :
  hi - lo < 2 ^ N.of_nat (pred fuel) -> (0 < fuel)%nat ->
  (forall i, lo <= i < hi -> safe (before i)) -> safe (bsearch fuel before lo hi).
Proof.
  revert lo hi. induction fuel as [|fuel IH]; intros lo hi Hf H0 Hb; [lia|]. cbn [bsearch].
  destruct (N.ltb_spec lo hi) as [Hlt|]; [|done].
  destruct fuel as [|fuel]; [cbn in Hf; lia|]. cbn [pred] in *. rewrite Nat2N.inj_succ, N.pow_succ_r' in Hf.
  set (mid := lo + (hi - lo) / 2). assert (Hmid : lo <= mid < hi /\ hi - (mid + 1) < 2 ^ N.of_nat fuel /\ mid - lo < 2 ^ N.of_nat fuel).
  { unfold mid. generalize dependent (2 ^ N.of_nat fuel). intros. dlia. }
  clearbody mid. destruct Hmid as (? & ? & ?). apply safe_bind; [by apply Hb|]. intros [] _.
  - apply IH; [done|lia|]. intros; apply Hb; lia.
  - apply IH; [done|lia|]. intros; apply Hb; lia.
Qed.
Lemma lower_bound_safe {E} (before : N -> res E bool) lo hi :
  (forall i, lo <= i < hi -> safe (before i)) -> safe (lower_bound before lo hi).
Proof. intros. apply bsearch_safe; [cbn [pred]; apply size_nat_gt|lia|done]. Qed.
Lemma lower_bound_bounds {E} (before : N -> res E bool) lo hi k :
  lo <= hi -> lower_bound before lo hi = Ok k -> lo <= k <= hi.
Proof. apply bsearch_bounds. Qed.

(** Every iteration of a loop that succeeded did. *)
Lemma foldM_each_ok {E A} (f : A -> res E unit) l u :
  foldM (fun _ x => f x) tt l = Ok u <-> Forall (fun x => f x = Ok tt) l.
Proof.
  destruct u. induction l as [|x l IH]; cbn [foldM]; [split; [constructor|done]|]. rewrite rbind_ok, list.Forall_cons. split.
  - intros ([] & Hx & H). by rewrite <- IH.
  - intros [Hx H]. exists tt. split; [done|]. by apply IH.
Qed.
Lemma foldM_each {E S A} (f : S -> A -> res E S) s l s' a :
  foldM f s l = Ok s' -> a ∈ l -> exists s1 s2, f s1 a = Ok s2.
Proof.
  revert s. induction l as [|x l IH]; intros s H Ha; [by apply elem_of_nil in Ha|]. cbn [foldM] in H.
  apply rbind_ok in H as (s1 & H1 & H). apply elem_of_cons in Ha as [->|Ha]; [eauto|by eapply IH].
Qed.
