(* ===== verification/Errors.v ===== *)
(** The error values of the engine: [src/crates/pin-core/src/error.rs], the
    codec errors of [codec/mod.rs], the accounting errors of [budget.rs] and the
    identity errors of [identity.rs]. *)
From stdpp Require Export strings.
From S2P Require Export Prelude.

#[global] Open Scope N_scope.

(** [budget::BudgetError] *)
Inductive BudgetError : Type :=
| ArithmeticOverflow
| LimitExceeded
| InvalidRelease.

(** [identity::IdentityError] *)
Inductive IdentityError : Type :=
| InvalidBlock
| InvalidOffset
| InvalidLayout
| ZeroIdentifier
| GenerationExhausted.

(** [codec::ErrorKind] and [codec::Error]: what was wrong and where. *)
Module Codec.
Inductive ErrorKind : Type :=
| Truncated
| TrailingBytes
| Overflow
| NonCanonical
| InvalidValue
| InvalidOrder
| InvalidUtf8
| LimitExceeded
| BadMagic
| UnsupportedVersion
| UnsupportedFeatures
| UnknownTag.

Record Error : Type := new { offset : N; kind : ErrorKind }.

Abbreviation Result A := (res Error A).
(** [Err(Error::new(offset, kind))] *)
Abbreviation fail at_ k := (Err (new at_ k)).
End Codec.

(** [error::Error]; [limit what] carries the static message of [Error::Limit]. *)
Inductive Error : Type :=
| Allocation
| Limit (what : string)
| QuerySyntax (offset : N)
| InvalidProfile
| InvalidDocument
| DuplicateDocument
| ForeignRelation
| InvalidParameters
| InvalidState
| InvalidStatistics
| NonFiniteScore
| FromBudget (e : BudgetError)
| FromCodec (e : Codec.Error).

Abbreviation Result A := (res Error A).

(** [?] on a codec or a budget result inside an engine function. *)
Definition lift_codec {A} (m : Codec.Result A) : Result A := map_err FromCodec m.
Definition lift_budget {A} (m : res BudgetError A) : Result A := map_err FromBudget m.

(** * Effects
    A function over state it mutates ([&mut] buffers, a store): the state survives an
    error and a panic, with whatever was written before them. *)
Definition Eff (S A : Type) : Type := S -> Result A * S.
Definition eret {S A} (a : A) : Eff S A := fun s => (Ok a, s).
Definition elift {S A} (r : Result A) : Eff S A := fun s => (r, s).
Definition efail {S A} (e : Error) : Eff S A := elift (Err e).
Definition eget {S} : Eff S S := fun s => (Ok s, s).
Definition eput {S} (s : S) : Eff S unit := fun _ => (Ok tt, s).
Definition ebind {S A B} (m : Eff S A) (k : A -> Eff S B) : Eff S B :=
  fun s => match m s with (Ok a, s) => k a s | (Err e, s) => (Err e, s) | (Panic, s) => (Panic, s) end.
Notation "'let!' x := m 'in' k" := (ebind m (fun x => k)) (at level 10, x name, m at level 100, k at level 200) : res_scope.
Notation "'let!' ' p := m 'in' k" := (ebind m (fun x => match x with p => k end)) (at level 10, p pattern, m at level 100, k at level 200) : res_scope.
(** A loop over the items of an iterator. *)
Fixpoint efold {S T A} (f : T -> A -> Eff S T) (t : T) (l : list A) : Eff S T :=
  match l with [] => eret t | a :: l => let! t := f t a in efold f t l end.
(** What fails leaves the state as it found it. *)
Definition intact {S A} (m : Eff S A) (s : S) : Prop := match m s with (Ok _, _) => True | (_, s') => s' = s end.

Lemma lift_codec_ok {A} (m : Codec.Result A) a : lift_codec m = Ok a <-> m = Ok a.
Proof. apply map_err_ok. Qed.
Lemma lift_budget_ok {A} (m : res BudgetError A) a : lift_budget m = Ok a <-> m = Ok a.
Proof. apply map_err_ok. Qed.

(** ** Effects *)
Lemma ebind_lift {S A B} (r : Result A) (k : A -> Eff S B) s :
  ebind (elift r) k s = match r with Ok a => k a s | Err e => (Err e, s) | Panic => (Panic, s) end.
Proof. reflexivity. Qed.
Lemma ebind_ok {S A B} (a : A) (k : A -> Eff S B) s : ebind (elift (Ok a)) k s = k a s.
Proof. reflexivity. Qed.
Lemma ebind_get {S B} (k : S -> Eff S B) s : ebind eget k s = k s s.
Proof. reflexivity. Qed.
Lemma intact_lift {S A} (r : Result A) (s : S) : intact (elift r) s.
Proof. unfold intact, elift. by destruct r. Qed.
Lemma intact_bind {S A B} (r : Result A) (k : A -> Eff S B) s : (forall a, intact (k a) s) -> intact (ebind (elift r) k) s.
Proof. intros H. unfold intact. rewrite ebind_lift. destruct r; [apply H|done|done]. Qed.
Lemma intact_get {S B} (k : S -> Eff S B) s : intact (k s) s -> intact (ebind eget k) s.
Proof. done. Qed.
Lemma intact_put {S A} (s s' : S) (a : A) : intact (ebind (eput s') (fun _ => eret a)) s.
Proof. done. Qed.
Lemma intact_if {S A} (b : bool) (m1 m2 : Eff S A) s : intact m1 s -> intact m2 s -> intact (if b then m1 else m2) s.
Proof. by destruct b. Qed.
Create HintDb intact.
#[export] Hint Resolve intact_lift intact_bind intact_get intact_put intact_if : intact.
