(* ===== verification/Words.v ===== *)
(** Machine words and fixed arrays of words.

    The counting and scanning primitives the code takes from [u64]
    ([count_ones], [trailing_zeros], [leading_zeros]) and the reading of a
    [[u64; n]] mask as the set of its bit numbers: bit [i] is bit [i % 64] of
    word [i / 64].  Every set operation of the code is proved through
    [mask_bit]. *)
From S2P Require Export Prelude.

(** [u64::count_ones] *)
Fixpoint pos_ones (p : positive) : N :=
  match p with
  | xH => 1
  | xO p' => pos_ones p'
  | xI p' => 1 + pos_ones p'
  end.
Definition count_ones (w : N) : N := match w with N0 => 0 | Npos p => pos_ones p end.

(** [u64::trailing_zeros]; 64 on zero. *)
Fixpoint pos_tz (p : positive) : N :=
  match p with
  | xO p' => 1 + pos_tz p'
  | _ => 0
  end.
Definition trailing_zeros (w : N) : N := match w with N0 => 64 | Npos p => pos_tz p end.

(** [leading_zeros] of a [w]-bit word. *)
Definition leading_zeros (w x : N) : N := w - N.size x.

(** [x & (x - 1)] on a nonzero word. *)
Definition clear_lowest (x : N) : N := N.land x (x - 1).

(** A mask of 64-bit words as a bit vector. *)
Definition mask_bit (m : list N) (i : N) : bool :=
  N.testbit (default 0 (m !! N.to_nat (i / 64))) (i mod 64).
Definition word_wf (w : N) : Prop := w < 2 ^ 64.
Definition mask_wf (n : nat) (m : list N) : Prop := length m = n /\ Forall word_wf m.

(** The set bits of a mask, ascending. *)
Definition mask_bits (m : list N) : list N :=
  filter (fun i => mask_bit m i = true) (range 0 (64 * len m)).

(** ** Bits *)
Lemma testbit_high x n i : x < 2 ^ n -> n <= i -> N.testbit x i = false.
Proof. intros H ?. rewrite <- (N.mod_small _ _ H). by apply N.mod_pow2_bits_high. Qed.
Lemma lt_pow2_testbit x n : x < 2 ^ n <-> forall i, n <= i -> N.testbit x i = false.
Proof.
  split; [intros; by eapply testbit_high|].
  intros H. destruct (decide (x = 0)) as [->|Hx]; [lia|].
  destruct (decide (x < 2 ^ n)) as [|Hge]; [done|].
  assert (n <= N.log2 x) by (apply N.log2_le_pow2; lia).
  pose proof (N.bit_log2 x Hx). rewrite H in *; done.
Qed.
Lemma size_le_pow2 x n : x < 2 ^ n -> N.size x <= n.
Proof.
  intros. destruct (decide (x = 0)) as [->|Hx]; [simpl; lia|].
  rewrite N.size_log2 by done. apply N.le_succ_l. apply N.log2_lt_pow2; [lia|done].
Qed.
Lemma land_shiftl_low a b n : b < 2 ^ n -> N.land (N.shiftl a n) b = 0.
Proof.
  intros. apply N.bits_inj_0; intros i. rewrite N.land_spec.
  destruct (decide (i < n)); [by rewrite N.shiftl_spec_low|].
  rewrite (testbit_high b n) by lia. by rewrite andb_false_r.
Qed.
Lemma lor_shiftl_add a b n : b < 2 ^ n -> N.lor (N.shiftl a n) b = a * 2 ^ n + b.
Proof.
  intros. rewrite <- N.shiftl_mul_pow2.
  rewrite <- N.lxor_lor by by apply land_shiftl_low.
  symmetry; apply N.add_nocarry_lxor. by apply land_shiftl_low.
Qed.
Lemma land_lt_pow2 a b n : a < 2 ^ n -> N.land a b < 2 ^ n.
Proof.
  rewrite !lt_pow2_testbit. intros H i ?. by rewrite N.land_spec, H.
Qed.
Lemma lor_lt_pow2 a b n : a < 2 ^ n -> b < 2 ^ n -> N.lor a b < 2 ^ n.
Proof. rewrite !lt_pow2_testbit. intros H1 H2 i ?. by rewrite N.lor_spec, H1, H2. Qed.
Lemma not_w_testbit w x i : N.testbit (not_w w x) i = xorb (N.testbit x i) (i <? w).
Proof.
  unfold not_w. rewrite N.lxor_spec. f_equal.
  destruct (N.ltb_spec i w); [by apply N.ones_spec_low|by apply N.ones_spec_high].
Qed.
Lemma pow2_testbit k i : N.testbit (N.shiftl 1 k) i = (i =? k).
Proof. rewrite N.shiftl_1_l. rewrite N.eqb_sym. apply N.pow2_bits_eqb. Qed.

(** ** Lowest set bit *)
Lemma trailing_zeros_bit x : x <> 0 -> N.testbit x (trailing_zeros x) = true.
Proof.
  destruct x as [|p]; [done|intros _]. cbn [trailing_zeros].
  induction p as [p IH|p IH|]; [done| |done].
  cbn [pos_tz]. rewrite N.add_1_l. change (N.pos p~0) with (2 * N.pos p).
  by rewrite N.testbit_even_succ'.
Qed.
Lemma trailing_zeros_low x i : x <> 0 -> i < trailing_zeros x -> N.testbit x i = false.
Proof.
  destruct x as [|p]; [done|intros _]. cbn [trailing_zeros].
  revert i; induction p as [p IH|p IH|]; cbn [pos_tz]; intros i Hi; [lia| |lia].
  change (N.pos p~0) with (2 * N.pos p).
  destruct (decide (i = 0)) as [->|]; [apply N.testbit_even_0|].
  rewrite <- (N.succ_pred i) by done. rewrite N.testbit_even_succ'. apply IH. lia.
Qed.
Lemma trailing_zeros_lt x n : x <> 0 -> x < 2 ^ n -> trailing_zeros x < n.
Proof.
  intros H1 H2. pose proof (trailing_zeros_bit x H1) as H.
  destruct (decide (trailing_zeros x < n)); [done|].
  rewrite (testbit_high x n) in H; done || lia.
Qed.
Lemma clear_lowest_testbit x i :
  x <> 0 -> N.testbit (clear_lowest x) i = N.testbit x i && negb (i =? trailing_zeros x).
Proof.
  unfold clear_lowest. destruct x as [|p]; [done|intros _]. cbn [trailing_zeros].
  revert i; induction p as [p IH|p IH|]; intros i; cbn [pos_tz].
  - rewrite N.land_spec. replace (N.pos p~1 - 1) with (2 * N.pos p) by lia.
    change (N.pos p~1) with (2 * N.pos p + 1).
    destruct (decide (i = 0)) as [->|]; [by rewrite N.testbit_odd_0, N.testbit_even_0|].
    rewrite <- (N.succ_pred i) by done. rewrite N.testbit_even_succ', N.testbit_odd_succ'.
    destruct (N.eqb_spec (N.succ (N.pred i)) 0); [lia|]. by rewrite andb_true_r, andb_diag.
  - replace (N.land (N.pos p~0) (N.pos p~0 - 1)) with (2 * N.land (N.pos p) (N.pos p - 1)).
    2:{ apply N.bits_inj; intros j. rewrite N.land_spec.
        change (N.pos p~0) with (2 * N.pos p).
        replace (2 * N.pos p - 1) with (2 * (N.pos p - 1) + 1) by lia.
        destruct (decide (j = 0)) as [->|]; [by rewrite !N.testbit_even_0|].
        rewrite <- (N.succ_pred j) by done.
        by rewrite !N.testbit_even_succ', N.testbit_odd_succ', N.land_spec. }
    change (N.pos p~0) with (2 * N.pos p).
    destruct (decide (i = 0)) as [->|]; [by rewrite !N.testbit_even_0|].
    rewrite <- (N.succ_pred i) by done. rewrite !N.testbit_even_succ', IH.
    do 2 f_equal. destruct (N.eqb_spec (N.pred i) (pos_tz p)), (N.eqb_spec (N.succ (N.pred i)) (1 + pos_tz p)); lia.
  - destruct (decide (i = 0)) as [->|]; [done|].
    rewrite (testbit_high 1 1) by (done || lia). by destruct i.
Qed.
Lemma clear_lowest_lt x n : x < 2 ^ n -> clear_lowest x < 2 ^ n.
Proof. apply land_lt_pow2. Qed.

(** ** Bits of one word as a sorted list *)
Definition word_bits (n x : N) : list N := filter (fun i => N.testbit x i = true) (range 0 n).

Lemma elem_of_word_bits n x i : i ∈ word_bits n x <-> i < n /\ N.testbit x i = true.
Proof. unfold word_bits. rewrite list_elem_of_filter, elem_of_range. naive_solver lia. Qed.

Lemma filter_none {A} (P : A -> Prop) `{!forall x, Decision (P x)} (l : list A) :
  (forall x, x ∈ l -> ~ P x) -> filter P l = [].
Proof.
  induction l as [|a l IH]; intros Hall; [done|].
  rewrite filter_cons_False; [|apply Hall; left]. apply IH. intros; apply Hall; by right.
Qed.
Lemma filter_ext_in {A} (P Q : A -> Prop) `{!forall x, Decision (P x), !forall x, Decision (Q x)} (l : list A) :
  (forall x, x ∈ l -> P x <-> Q x) -> filter P l = filter Q l.
Proof.
  induction l as [|a l IH]; intros Hall; [done|].
  rewrite !filter_cons, IH by (intros; apply Hall; by right).
  specialize (Hall a ltac:(left)). do 2 case_decide; naive_solver.
Qed.

Lemma filter_fmap {A B} (f : A -> B) (P : B -> Prop) `{!forall x, Decision (P x)} (l : list A) :
  filter P (f <$> l) = f <$> filter (fun x => P (f x)) l.
Proof.
  induction l as [|a l IH]; [done|]. rewrite fmap_cons, !filter_cons, IH. by case_decide.
Qed.

Lemma word_bits_zero n : word_bits n 0 = [].
Proof. apply filter_none. intros i _. by rewrite N.bits_0. Qed.

Lemma word_bits_step n x : x <> 0 -> x < 2 ^ n ->
  word_bits n x = trailing_zeros x :: word_bits n (clear_lowest x).
Proof.
  intros Hx Hlt. pose proof (trailing_zeros_lt x n Hx Hlt) as Ht.
  set (t := trailing_zeros x) in *. unfold word_bits.
  rewrite (range_app 0 t n), (range_cons t n), !list.filter_app by lia.
  assert (Hlow : forall y, (forall i, i < t -> N.testbit y i = false) ->
    filter (fun i => N.testbit y i = true) (range 0 t) = []).
  { intros y Hy. apply filter_none. intros i Hi%elem_of_range. rewrite Hy by lia. done. }
  rewrite !Hlow; simpl.
  - rewrite filter_cons_True by by apply trailing_zeros_bit.
    rewrite filter_cons_False.
    + f_equal. apply filter_ext_in. intros i Hi%elem_of_range.
      rewrite clear_lowest_testbit by done. fold t.
      destruct (N.eqb_spec i t); [lia|]. by rewrite andb_true_r.
    + rewrite clear_lowest_testbit by done. fold t. by rewrite N.eqb_refl, andb_false_r.
  - intros i ?. rewrite clear_lowest_testbit, (trailing_zeros_low x i) by done. done.
  - intros i ?. by apply trailing_zeros_low.
Qed.

Lemma count_ones_half x : count_ones x = N.b2n (N.odd x) + count_ones (N.div2 x).
Proof. destruct x as [|[p|p|]]; done. Qed.
Lemma count_ones_bits n x : x < 2 ^ n -> count_ones x = len (word_bits n x).
Proof.
  revert x; induction n as [|n IH] using N.peano_ind; intros x Hx.
  - replace x with 0 by lia. done.
  - assert (Hd : N.div2 x < 2 ^ n).
    { rewrite N.pow_succ_r' in Hx. rewrite N.div2_div. apply N.Div0.div_lt_upper_bound; lia. }
    rewrite count_ones_half, (IH _ Hd).
    unfold word_bits. rewrite (range_cons 0 (N.succ n)) by lia.
    replace (range (0 + 1) (N.succ n)) with ((fun i => i + 1) <$> range 0 n)
      by (rewrite <- range_add; f_equal; lia).
    assert (Hf : len (filter (fun i => N.testbit (N.div2 x) i = true) (range 0 n)) =
      len (filter (fun i => N.testbit x i = true) ((fun i => i + 1) <$> range 0 n))).
    { rewrite filter_fmap, len_fmap. f_equal. apply filter_ext_in. intros i _. simpl.
      by rewrite N.div2_spec, N.shiftr_spec'. }
    rewrite Hf. rewrite filter_cons. rewrite <- N.bit0_odd.
    destruct (N.testbit x 0) eqn:H0; case_decide; try done. by rewrite len_cons.
Qed.

(** ** Masks *)
Lemma mask_bit_cons_low w m i : i < 64 -> mask_bit (w :: m) i = N.testbit w i.
Proof. intros. unfold mask_bit. rewrite N.div_small, N.mod_small by assumption. reflexivity. Qed.
Lemma mask_bit_cons_high w m i : mask_bit (w :: m) (i + 64) = mask_bit m i.
Proof.
  unfold mask_bit. replace (i + 64) with (i + 1 * 64) by lia.
  rewrite N.div_add, N.Div0.mod_add by done.
  replace (N.to_nat (i / 64 + 1)) with (S (N.to_nat (i / 64))) by lia. done.
Qed.
Lemma mask_bits_nil : mask_bits [] = [].
Proof. done. Qed.
Lemma mask_bits_cons w m :
  mask_bits (w :: m) = word_bits 64 w ++ ((fun i => i + 64) <$> mask_bits m).
Proof.
  unfold mask_bits. rewrite len_cons.
  rewrite (range_app 0 64 (64 * (1 + len m))) by lia. rewrite list.filter_app. apply (f_equal2 app).
  - apply filter_ext_in. intros i Hi%elem_of_range. by rewrite mask_bit_cons_low by lia.
  - replace (range 64 (64 * (1 + len m))) with ((fun i => i + 64) <$> range 0 (64 * len m))
      by (rewrite <- range_add; f_equal; lia).
    rewrite filter_fmap. f_equal. apply filter_ext_in. intros i _. simpl.
    by rewrite mask_bit_cons_high.
Qed.
Lemma elem_of_mask_bits m i : i ∈ mask_bits m <-> i < 64 * len m /\ mask_bit m i = true.
Proof. unfold mask_bits. rewrite list_elem_of_filter, elem_of_range. naive_solver lia. Qed.

(** [m.iter().map(|w| w.count_ones()).sum()] *)
Definition mask_count (m : list N) : N := foldr (fun w n => count_ones w + n) 0 m.
Lemma mask_count_bits m : Forall word_wf m -> mask_count m = len (mask_bits m).
Proof.
  induction 1 as [|w m Hw _ IH]; [done|].
  rewrite mask_bits_cons, len_app, len_fmap. cbn [mask_count foldr]. fold (mask_count m).
  by rewrite IH, (count_ones_bits 64).
Qed.

Lemma mask_bit_default m i : 64 * len m <= i -> mask_bit m i = false.
Proof.
  intros. unfold mask_bit. rewrite lookup_ge_None_2; [by rewrite N.bits_0|].
  assert (len m <= i / 64) by (apply N.div_le_lower_bound; lia).
  unfold len in *; lia.
Qed.

(** Masks of the same length are determined by their bits. *)
Lemma mask_ext n m1 m2 : mask_wf n m1 -> mask_wf n m2 ->
  (forall i, i < 64 * N.of_nat n -> mask_bit m1 i = mask_bit m2 i) -> m1 = m2.
Proof.
  revert m1 m2; induction n as [|n IH]; intros m1 m2 [L1 F1] [L2 F2] Heq;
    destruct m1 as [|w1 m1], m2 as [|w2 m2]; simpl in L1, L2; try lia; [done|].
  apply list.Forall_cons_1 in F1 as [Hw1 F1]. apply list.Forall_cons_1 in F2 as [Hw2 F2]. f_equal.
  - apply N.bits_inj. intros i. destruct (decide (i < 64)).
    + specialize (Heq i ltac:(lia)). by rewrite !mask_bit_cons_low in Heq.
    + unfold word_wf in *. by rewrite !(testbit_high _ 64) by (done || lia).
  - apply IH; [split; [lia|done]..|]. intros i ?. specialize (Heq (i + 64) ltac:(lia)).
    by rewrite !mask_bit_cons_high in Heq.
Qed.

(** Bitwise operations word by word. *)
Lemma mask_bit_zip f g (m1 m2 : list N) i :
  length m1 = length m2 -> (forall x y j, j < 64 -> N.testbit (f x y) j = g (N.testbit x j) (N.testbit y j)) ->
  i < 64 * len m1 -> mask_bit (zip_with f m1 m2) i = g (mask_bit m1 i) (mask_bit m2 i).
Proof.
  intros Hl Hf Hi. unfold mask_bit.
  assert (i / 64 < len m1) by (apply N.Div0.div_lt_upper_bound; lia).
  destruct (lookup_lt_is_Some_2 m1 (N.to_nat (i / 64))) as [x Hx]; [unfold len in *; lia|].
  destruct (lookup_lt_is_Some_2 m2 (N.to_nat (i / 64))) as [y Hy]; [unfold len in *; lia|].
  rewrite lookup_zip_with, Hx, Hy. simpl. apply Hf. by apply N.mod_lt.
Qed.
Lemma mask_wf_zip n f m1 m2 : mask_wf n m1 -> mask_wf n m2 ->
  (forall x y, word_wf x -> word_wf y -> word_wf (f x y)) -> mask_wf n (zip_with f m1 m2).
Proof.
  intros [H1 F1] [H2 F2] Hf. split; [rewrite length_zip_with; lia|].
  rewrite Forall_lookup. intros i w. rewrite lookup_zip_with. intros Hw.
  destruct (m1 !! i) eqn:E1; [|done]. destruct (m2 !! i) eqn:E2; [|done]. simplify_eq/=.
  apply Hf; [by eapply (Forall_lookup_1 _ m1)|by eapply (Forall_lookup_1 _ m2)].
Qed.

(** Setting one bit: [m[i / 64] |= 1 << (i % 64)]. *)
Definition mask_set (m : list N) (i : N) : list N :=
  alter (fun w => N.lor w (N.shiftl 1 (i mod 64))) (N.to_nat (i / 64)) m.
Lemma mask_set_bit m i j : i < 64 * len m -> mask_bit (mask_set m i) j = mask_bit m j || (j =? i).
Proof.
  intros Hi. unfold mask_bit, mask_set.
  assert (i / 64 < len m) by (apply N.Div0.div_lt_upper_bound; lia).
  destruct (lookup_lt_is_Some_2 m (N.to_nat (i / 64))) as [x Hx]; [unfold len in *; lia|].
  destruct (decide (j / 64 = i / 64)) as [Hd|Hd].
  - rewrite Hd, list_lookup_alter_eq, Hx. simpl. rewrite N.lor_spec, pow2_testbit. f_equal.
    pose proof (N.div_mod' i 64). pose proof (N.div_mod' j 64).
    destruct (N.eqb_spec (j mod 64) (i mod 64)), (N.eqb_spec j i); lia || congruence.
  - rewrite list_lookup_alter_ne by lia. destruct (N.eqb_spec j i); [congruence|].
    by rewrite orb_false_r.
Qed.
Lemma mask_set_wf n m i : mask_wf n m -> mask_wf n (mask_set m i).
Proof.
  intros [H1 H2]. split; [by rewrite <- H1; apply length_alter|].
  apply Forall_alter; [done|]. intros x _ Hx. unfold word_wf in *. apply lor_lt_pow2; [done|].
  rewrite N.shiftl_1_l. apply N.pow_lt_mono_r; [lia|]. by apply N.mod_lt.
Qed.
Lemma mask_wf_replicate n : mask_wf n (replicate n 0).
Proof. split; [apply length_replicate|]. apply Forall_replicate. done. Qed.
Lemma mask_bit_zero n i : mask_bit (replicate n 0) i = false.
Proof.
  unfold mask_bit. destruct (replicate n 0 !! N.to_nat (i / 64)) eqn:E; [|by rewrite N.bits_0].
  apply lookup_replicate in E as [-> _]. by rewrite N.bits_0.
Qed.

(** ** Arrays by index *)

(** [core::array::from_fn] and the indexing of a fixed-size array. *)
Definition from_fn {A} (n : nat) (f : nat -> A) : list A := f <$> seq 0 n.
Definition word (m : list N) (i : nat) : N := default 0 (m !! i).

Lemma word_wf_lookup n m i : mask_wf n m -> word_wf (word m i).
Proof.
  intros [_ H]. unfold word. destruct (m !! i) eqn:E; [by eapply (Forall_lookup_1 _ m)|done].
Qed.
Lemma from_fn_wf n f : (forall i, (i < n)%nat -> word_wf (f i)) -> mask_wf n (from_fn n f).
Proof.
  intros H. unfold from_fn. split; [by rewrite length_fmap, length_seq|].
  apply list.Forall_fmap, list.Forall_forall. intros i [_ ?]%elem_of_seq. apply H. lia.
Qed.
Lemma from_fn_bit n f i : i < 64 * N.of_nat n ->
  mask_bit (from_fn n f) i = N.testbit (f (N.to_nat (i / 64))) (i mod 64).
Proof.
  intros. unfold mask_bit, from_fn. rewrite list_lookup_fmap.
  assert (i / 64 < N.of_nat n) by (apply N.Div0.div_lt_upper_bound; lia).
  by rewrite lookup_seq_lt by lia.
Qed.
Lemma word_bit m i : N.testbit (word m (N.to_nat (i / 64))) (i mod 64) = mask_bit m i.
Proof. done. Qed.
Lemma mod_64 i : i mod 64 < 64.
Proof. by apply N.mod_lt. Qed.
Lemma and_not_testbit w x y i : i < w -> N.testbit (N.land x (not_w w y)) i = N.testbit x i && negb (N.testbit y i).
Proof.
  intros. rewrite N.land_spec, not_w_testbit, (proj2 (N.ltb_lt i w)) by done. by rewrite xorb_true_r.
Qed.

