(* ===== verification/Lists.v ===== *)
(** Ascending lists of integers and their maximal runs.

    Offsets, positions, page members and postings are all strictly ascending lists
    in the code; [asc lo l] says so with a lower bound, the form in which the
    decoders check it.  [runs_of] groups consecutive values, the run encodings'
    reading of such a list. *)
From S2P Require Export Words.

(** Strictly ascending, all values at least [lo]. *)
Fixpoint asc (lo : N) (l : list N) : Prop :=
  match l with
  | [] => True
  | x :: l' => lo <= x /\ asc (x + 1) l'
  end.
Definition ascb (lo : N) : list N -> bool :=
  (fix go lo l := match l with [] => true | x :: l' => (lo <=? x) && go (x + 1) l' end) lo.

Lemma ascb_spec lo l : ascb lo l = true <-> asc lo l.
Proof.
  revert lo; induction l as [|x l IH]; intros lo; [done|]. cbn.
  rewrite andb_true_iff, N.leb_le. by rewrite <- IH.
Qed.
#[export] Instance asc_dec lo l : Decision (asc lo l).
Proof. destruct (ascb lo l) eqn:E; [left|right]; rewrite <- ascb_spec; congruence. Defined.

Lemma asc_weaken lo lo' l : lo' <= lo -> asc lo l -> asc lo' l.
Proof. destruct l; simpl; [done|]. intros ? []; split; [lia|done]. Qed.
Lemma asc_ge lo l x : asc lo l -> x ∈ l -> lo <= x.
Proof.
  revert lo; induction l as [|y l IH]; intros lo; simpl; [by intros _ ?%elem_of_nil|].
  intros [? Hl] [->|Hx]%elem_of_cons; [done|]. specialize (IH _ Hl Hx). lia.
Qed.
Lemma asc_app lo l1 l2 mid : asc lo l1 -> (forall x, x ∈ l1 -> x < mid) -> lo <= mid -> asc mid l2 -> asc lo (l1 ++ l2).
Proof.
  revert lo; induction l1 as [|x l1 IH]; intros lo H1 H2 H3 H4; simpl in *.
  - by eapply asc_weaken.
  - destruct H1 as [? H1]. split; [done|]. apply IH; [done| |pose proof (H2 x ltac:(left)); lia|done].
    intros; apply H2; by right.
Qed.
Lemma asc_app_inv lo l1 l2 : asc lo (l1 ++ l2) ->
  asc lo l1 /\ asc lo l2 /\ (forall x y, x ∈ l1 -> y ∈ l2 -> x < y).
Proof.
  revert lo; induction l1 as [|x l1 IH]; intros lo H; simpl in *.
  - split_and!; [done|done|]. by intros x y ?%elem_of_nil.
  - destruct H as [? H]. destruct (IH _ H) as (H1 & H2 & H3). split_and!; [done|done| |].
    + eapply asc_weaken; [|done]. lia.
    + intros a b [->|Ha]%elem_of_cons Hb; [|by apply H3].
      pose proof (asc_ge _ _ _ H2 Hb). lia.
Qed.
Lemma asc_range lo a b : lo <= a -> asc lo (range a b).
Proof.
  intros. remember (N.to_nat (b - a)) as n. revert lo a b Heqn H.
  induction n as [|n IH]; intros lo a b ? ?; [by rewrite range_nil by lia|].
  rewrite range_cons by lia. split; [lia|]. apply IH; lia.
Qed.
Lemma asc_filter lo (P : N -> Prop) `{!forall x, Decision (P x)} l : asc lo l -> asc lo (filter P l).
Proof.
  revert lo; induction l as [|x l IH]; intros lo; [done|]. simpl. intros [? Hl].
  rewrite filter_cons. case_decide; [split; [done|by apply IH]|].
  apply IH. eapply asc_weaken; [|done]. lia.
Qed.
Lemma asc_shift lo k l : asc (lo + k) ((fun x => x + k) <$> l) <-> asc lo l.
Proof.
  revert lo; induction l as [|x l IH]; intros lo; [done|]. simpl.
  replace (x + k + 1) with (x + 1 + k) by lia. rewrite IH. split; intros []; split; done || lia.
Qed.
Lemma asc_unique lo l1 l2 : asc lo l1 -> asc lo l2 -> (forall x, x ∈ l1 <-> x ∈ l2) -> l1 = l2.
Proof.
  revert lo l2; induction l1 as [|x l1 IH]; intros lo l2 H1 H2 H.
  - destruct l2 as [|y l2]; [done|]. pose proof (proj2 (H y) ltac:(left)) as He.
    by apply elem_of_nil in He.
  - destruct l2 as [|y l2]; [pose proof (proj1 (H x) ltac:(left)) as He; by apply elem_of_nil in He|].
    simpl in H1, H2. destruct H1 as [? H1], H2 as [? H2].
    assert (x = y) as ->.
    { destruct (proj1 (elem_of_cons _ _ _) (proj1 (H x) ltac:(left))) as [|Hx]; [done|].
      destruct (proj1 (elem_of_cons _ _ _) (proj2 (H y) ltac:(left))) as [|Hy]; [done|].
      pose proof (asc_ge _ _ _ H1 Hy). pose proof (asc_ge _ _ _ H2 Hx). lia. }
    f_equal. apply (IH (y + 1)); [done|done|]. intros z. specialize (H z).
    rewrite !elem_of_cons in H. split; intros Hz.
    + pose proof (asc_ge _ _ _ H1 Hz). destruct (proj1 H ltac:(by right)); [lia|done].
    + pose proof (asc_ge _ _ _ H2 Hz). destruct (proj2 H ltac:(by right)); [lia|done].
Qed.
Lemma asc_len lo hi l : asc lo l -> (forall x, x ∈ l -> x < hi) -> lo <= hi -> len l <= hi - lo.
Proof.
  revert lo; induction l as [|x l IH]; intros lo; [intros; len_lia|]. simpl. intros [? Hl] Hx ?.
  rewrite len_cons. pose proof (Hx x ltac:(left)).
  assert (len l <= hi - (x + 1)); [|lia]. apply IH; [done| |lia]. intros; apply Hx; by right.
Qed.
Lemma asc_mask_bits lo m : lo = 0 -> asc lo (mask_bits m).
Proof. intros ->. apply asc_filter. by apply asc_range. Qed.

(** ** Runs of consecutive values *)
Fixpoint runs_of (l : list N) : list (N * N) :=
  match l with
  | [] => []
  | x :: l' =>
      match runs_of l' with
      | (s, n) :: rest => if s =? x + 1 then (x, n + 1) :: rest else (x, 1) :: (s, n) :: rest
      | [] => [(x, 1)]
      end
  end.
Definition of_runs (rs : list (N * N)) : list N := rs ≫= (fun '(s, n) => range s (s + n)).

(** Separated runs: nonempty, with a gap between neighbours. *)
Fixpoint runs_wf (lo : N) (rs : list (N * N)) : Prop :=
  match rs with
  | [] => True
  | (s, n) :: rs' => lo <= s /\ 1 <= n /\ runs_wf (s + n + 1) rs'
  end.

Lemma of_runs_cons s n rs : of_runs ((s, n) :: rs) = range s (s + n) ++ of_runs rs.
Proof. done. Qed.
Lemma runs_of_cons x l : runs_of (x :: l) =
  match runs_of l with
  | (s, n) :: rest => if s =? x + 1 then (x, n + 1) :: rest else (x, 1) :: (s, n) :: rest
  | [] => [(x, 1)]
  end.
Proof. done. Qed.
Lemma runs_of_head x l : exists n rest, runs_of (x :: l) = (x, n) :: rest.
Proof. simpl. destruct (runs_of l) as [|[s n] rest]; [eauto|]. destruct (s =? x + 1); eauto. Qed.
Lemma of_runs_of l : of_runs (runs_of l) = l.
Proof.
  induction l as [|x l IH]; [done|]. rewrite runs_of_cons.
  destruct (runs_of l) as [|[s n] rest] eqn:E.
  - rewrite of_runs_cons, (range_cons x), range_nil by lia. simpl. by rewrite <- IH.
  - destruct (N.eqb_spec s (x + 1)) as [->|].
    + rewrite of_runs_cons, (range_cons x) by lia. cbn [app]. rewrite <- IH, of_runs_cons.
      by replace (x + (n + 1)) with (x + 1 + n) by lia.
    + rewrite of_runs_cons, (range_cons x), range_nil by lia. cbn [app]. by rewrite IH.
Qed.
Lemma runs_of_wf lo l : asc lo l -> runs_wf lo (runs_of l).
Proof.
  revert lo; induction l as [|x l IH]; intros lo; [done|]. intros [? Hl].
  specialize (IH _ Hl). rewrite runs_of_cons. destruct (runs_of l) as [|[s n] rest]; simpl in *.
  - split_and!; [done|lia|done].
  - destruct IH as (? & ? & ?). destruct (N.eqb_spec s (x + 1)) as [->|]; simpl.
    + split_and!; [done|lia|]. by replace (x + (n + 1) + 1) with (x + 1 + n + 1) by lia.
    + split_and!; [done|lia|lia|done|done].
Qed.
Lemma runs_of_range s n rs : 1 <= n -> runs_wf (s + n + 1) rs -> runs_of (of_runs rs) = rs ->
  runs_of (range s (s + n) ++ of_runs rs) = (s, n) :: rs.
Proof.
  intros Hn Hw Hrs. remember (N.to_nat (n - 1)) as k. revert s n Hn Hw Heqk.
  induction k as [|k IH]; intros s n Hn Hw Hk.
  - replace n with 1 in * by lia. rewrite (range_cons s), range_nil by lia. cbn [app].
    rewrite runs_of_cons, Hrs. destruct rs as [|[s' n'] rs]; [done|]. simpl in Hw.
    destruct (N.eqb_spec s' (s + 1)); [lia|done].
  - rewrite (range_cons s) by lia. cbn [app]. rewrite runs_of_cons.
    replace (s + n) with (s + 1 + (n - 1)) by lia. rewrite IH; [|lia| |lia].
    + rewrite N.eqb_refl. do 2 f_equal. lia.
    + by replace (s + 1 + (n - 1) + 1) with (s + n + 1) by lia.
Qed.
Lemma runs_of_of_runs lo rs : runs_wf lo rs -> runs_of (of_runs rs) = rs.
Proof.
  revert lo; induction rs as [|[s n] rs IH]; intros lo; [done|]. cbn [runs_wf]. intros (? & ? & Hw).
  rewrite of_runs_cons. apply runs_of_range; [done|done|by eapply IH].
Qed.
Lemma of_runs_asc lo rs : runs_wf lo rs -> asc lo (of_runs rs).
Proof.
  revert lo; induction rs as [|[s n] rs IH]; intros lo; [done|]. cbn [runs_wf]. intros (? & ? & Hw).
  rewrite of_runs_cons. apply (asc_app _ _ _ (s + n)); [by apply asc_range| |lia|].
  - intros x ?%elem_of_range. lia.
  - eapply asc_weaken; [|by apply IH]. lia.
Qed.
Lemma runs_of_len l : len (runs_of l) <= len l.
Proof.
  induction l as [|x l IH]; [done|]. rewrite runs_of_cons, len_cons.
  destruct (runs_of l) as [|[s n] rest]; [by rewrite len_cons; len_lia|].
  destruct (s =? x + 1); rewrite !len_cons in *; lia.
Qed.

(** The number of runs of a bit vector counted at their starts: bit [i] set, bit
    [i - 1] clear ([c] stands for the bit before [a]). *)
Definition starts (f : N -> bool) (c : bool) (a b : N) : list N :=
  filter (fun i => (f i && negb (if i =? a then c else f (i - 1))) = true) (range a b).
Definition bit_n (b : bool) : N := if b then 1 else 0.

Lemma starts_cons f c a b : a < b -> len (starts f c a b) = bit_n (f a && negb c) + len (starts f (f a) (a + 1) b).
Proof.
  intros. unfold starts at 1. rewrite range_cons, filter_cons by done. rewrite N.eqb_refl.
  assert (E : filter (fun i => (f i && negb (if i =? a then c else f (i - 1))) = true) (range (a + 1) b)
            = starts f (f a) (a + 1) b).
  { apply filter_ext_in. intros i Hi%elem_of_range. destruct (N.eqb_spec i a); [lia|].
    destruct (N.eqb_spec i (a + 1)) as [->|]; [|done]. by replace (a + 1 - 1) with a by lia. }
  rewrite E. destruct (f a && negb c) eqn:Eb; case_decide; try done. by rewrite len_cons.
Qed.
Definition bits_of (f : N -> bool) (a b : N) : list N := filter (fun i => f i = true) (range a b).
Lemma bits_of_cons f a b : a < b -> bits_of f a b = if f a then a :: bits_of f (a + 1) b else bits_of f (a + 1) b.
Proof. intros. unfold bits_of. rewrite range_cons, filter_cons by done. destruct (f a); by case_decide. Qed.
Lemma len_runs_bits f a b : a < b ->
  len (runs_of (bits_of f a b)) =
    len (runs_of (bits_of f (a + 1) b)) + bit_n (f a && negb (f (a + 1) && (a + 1 <? b))).
Proof.
  intros. rewrite (bits_of_cons f a) by done. destruct (f a) eqn:Ea; simpl; [|lia].
  destruct (N.ltb_spec (a + 1) b).
  - rewrite (bits_of_cons f (a + 1)) by done. destruct (f (a + 1)) eqn:Ea1; simpl bit_n.
    + destruct (runs_of_head (a + 1) (bits_of f (a + 1 + 1) b)) as (n & rest & ->).
      rewrite N.eqb_refl, !len_cons. lia.
    + destruct (runs_of _) as [|[s n] rest] eqn:E; [done|].
      destruct (N.eqb_spec s (a + 1)) as [->|]; [|rewrite !len_cons; lia]. exfalso.
      assert (Hin : a + 1 ∈ bits_of f (a + 1 + 1) b).
      { rewrite <- (of_runs_of (bits_of f (a + 1 + 1) b)), E, of_runs_cons.
        pose proof (runs_of_wf (a + 2) (bits_of f (a + 1 + 1) b)) as Hw. rewrite E in Hw. simpl in Hw.
        assert (a + 2 <= a + 1); [|lia]. apply Hw. apply asc_filter, asc_range. lia. }
      unfold bits_of in Hin. apply list_elem_of_filter in Hin as [_ ?%elem_of_range]. lia.
  - unfold bits_of. rewrite range_nil by lia. simpl. by rewrite andb_false_r.
Qed.
Lemma count_starts f c a b : a <= b ->
  len (runs_of (bits_of f a b)) = len (starts f c a b) + bit_n (c && f a && (a <? b)).
Proof.
  intros Hab. remember (N.to_nat (b - a)) as n. revert a c Hab Heqn.
  induction n as [|n IH]; intros a c Hab Hn.
  - unfold bits_of, starts. rewrite range_nil by lia. destruct (N.ltb_spec a b); [lia|]. by rewrite andb_false_r.
  - rewrite len_runs_bits, starts_cons, (IH (a + 1) (f a)) by lia.
    rewrite (proj2 (N.ltb_lt a b)), andb_true_r by lia.
    destruct (f a), c, (f (a + 1)), (a + 1 <? b); simpl; lia.
Qed.
Lemma len_runs_starts f b : len (runs_of (bits_of f 0 b)) = len (starts f false 0 b).
Proof. rewrite (count_starts f false) by lia. simpl. lia. Qed.

(** [slice::windows(2)] and [slice::chunks(n)]. *)
Definition windows2 (l : list N) : list (N * N) := zip l (tail l).
Fixpoint chunks_fuel (fuel n : nat) (l : list N) : list (list N) :=
  match fuel with
  | O => []
  | S fuel' =>
      match l with
      | [] => []
      | _ => take n l :: chunks_fuel fuel' n (drop n l)
      end
  end.
Definition chunks (n : nat) (l : list N) : list (list N) := chunks_fuel (length l) n l.
(** The [i]-th chunk. *)
Definition chunk (n : N) (l : list N) (i : N) : list N := take (N.to_nat n) (drop (N.to_nat (n * i)) l).

Lemma div_ceil_bounds a b : 0 < b -> b * div_ceil a b < a + b /\ a <= b * div_ceil a b.
Proof.
  intros. unfold div_ceil. pose proof (N.div_mod' (a + b - 1) b). pose proof (N.mod_lt (a + b - 1) b ltac:(lia)).
  generalize dependent (b * ((a + b - 1) / b)). generalize dependent ((a + b - 1) mod b). lia.
Qed.
Lemma div_ceil_lt a b i : 0 < b -> i < div_ceil a b <-> b * i < a.
Proof. intros Hb. pose proof (div_ceil_bounds a b Hb). nia. Qed.
Lemma len_chunk n l i : len (chunk n l i) = N.min n (len l - n * i).
Proof. unfold chunk. len_lia. Qed.
Lemma chunk_drop n l i : chunk n (drop (N.to_nat n) l) i = chunk n l (i + 1).
Proof. unfold chunk. rewrite drop_drop. do 2 f_equal. lia. Qed.
Lemma chunks_fuel_spec fuel n l : 0 < n -> (length l <= fuel)%nat ->
  chunks_fuel fuel (N.to_nat n) l = chunk n l <$> range 0 (div_ceil (len l) n).
Proof.
  intros Hn. revert l. induction fuel as [|fuel IH]; intros l Hf.
  - destruct l; [|simpl in Hf; lia]. rewrite range_nil; [done|].
    pose proof (div_ceil_lt (len (@nil N)) n 0 Hn). rewrite len_nil in *. lia.
  - destruct l as [|x l'] eqn:El; [|rewrite <- El in *].
    { rewrite range_nil; [done|]. pose proof (div_ceil_lt (len (@nil N)) n 0 Hn). rewrite len_nil in *. lia. }
    assert (Hl : 0 < len l) by (rewrite El, len_cons; lia).
    rewrite (range_cons 0) by (apply div_ceil_lt; lia). cbn [chunks_fuel]. rewrite El at 1. rewrite fmap_cons. f_equal.
    { unfold chunk. by rewrite N.mul_0_r. }
    rewrite IH by (rewrite length_drop; unfold len in Hl; lia).
    assert (Hr : div_ceil (len l) n = div_ceil (len (drop (N.to_nat n) l)) n + 1).
    { rewrite len_drop, N2Nat.id. destruct (N.lt_trichotomy (div_ceil (len l) n) (div_ceil (len l - n) n + 1)) as [H|[H|H]]; [|done|].
      - exfalso. set (q := div_ceil (len l - n) n) in *. assert (0 < div_ceil (len l) n) by (apply div_ceil_lt; lia).
        assert (Hq : q - 1 < q) by lia. apply div_ceil_lt in Hq; [|done].
        assert (q < div_ceil (len l) n) by (apply div_ceil_lt; [done|nia]). lia.
      - exfalso. apply div_ceil_lt in H; [|done].
        assert (div_ceil (len l - n) n < div_ceil (len l - n) n); [|lia]. apply div_ceil_lt; [done|nia]. }
    rewrite Hr, <- (N.add_0_l 1) at 1. rewrite range_add, <- list_fmap_compose.
    apply list_fmap_ext. intros ? i _. simpl. apply chunk_drop.
Qed.
Lemma chunks_spec n l : 0 < n -> chunks (N.to_nat n) l = chunk n l <$> range 0 (div_ceil (len l) n).
Proof. intros. by apply chunks_fuel_spec. Qed.

Lemma bind_range_snoc {A} (f : N -> list A) i : range 0 (i + 1) ≫= f = (range 0 i ≫= f) ++ f i.
Proof. rewrite range_snoc by lia. rewrite bind_app. simpl. by rewrite app_nil_r. Qed.
Lemma bind_range_split {A} (f : N -> list A) i k : i < k ->
  range 0 k ≫= f = (range 0 i ≫= f) ++ f i ++ (range (i + 1) k ≫= f).
Proof. intros. rewrite (range_app 0 i k), (range_cons i) by lia. by rewrite bind_app, bind_cons. Qed.
Lemma bind_chunks n l k : 0 < n -> n * k <= len l -> range 0 k ≫= chunk n l = take (N.to_nat (n * k)) l.
Proof.
  intros Hn. induction k as [|k IH] using N.peano_ind; intros Hk.
  - rewrite N.mul_0_r. done.
  - rewrite <- N.add_1_r, bind_range_snoc, IH by nia. unfold chunk.
    rewrite take_take_drop. f_equal. lia.
Qed.
Lemma take_chunk n l i : take (N.to_nat (n * i)) l ++ chunk n l i ++ drop (N.to_nat (n * (i + 1))) l = l.
Proof.
  unfold chunk. rewrite app_assoc, take_take_drop.
  replace (N.to_nat (n * i) + N.to_nat n)%nat with (N.to_nat (n * (i + 1))) by lia. apply take_drop.
Qed.

Lemma asc_lookup lo l i j x y : asc lo l -> l !! i = Some x -> l !! j = Some y -> (i < j)%nat -> x < y.
Proof.
  revert lo i j. induction l as [|z l IH]; intros lo i j; [by rewrite lookup_nil|]. simpl. intros [_ Hl] Hi Hj Hlt.
  destruct j as [|j]; [lia|]. destruct i as [|i]; simpl in Hi, Hj.
  - simplify_eq. assert (x + 1 <= y); [|lia]. eapply asc_ge; [done|]. by eapply list_elem_of_lookup_2.
  - eapply IH; eauto with lia.
Qed.
Lemma elem_of_chunk n l i x : x ∈ chunk n l i <-> exists k, k < n /\ l !! N.to_nat (n * i + k) = Some x.
Proof.
  unfold chunk. rewrite list_elem_of_lookup. split.
  - intros [k Hk]. apply lookup_take_Some in Hk as [Hk Hlt]. rewrite lookup_drop in Hk.
    exists (N.of_nat k). split; [lia|]. rewrite <- Hk. f_equal. lia.
  - intros (k & Hk & Hx). exists (N.to_nat k). apply lookup_take_Some. split; [|lia].
    rewrite lookup_drop, <- Hx. f_equal. lia.
Qed.
Lemma chunk_lt lo n l i j x y : asc lo l -> x ∈ chunk n l i -> y ∈ chunk n l j -> i < j -> x < y.
Proof.
  intros Ha (k & Hk & Hx)%elem_of_chunk (k' & _ & Hy)%elem_of_chunk Hij.
  eapply asc_lookup; [done|done|done|]. nia.
Qed.
Lemma asc_take lo n l : asc lo l -> asc lo (take n l).
Proof. intros H. rewrite <- (take_drop n l) in H. apply asc_app_inv in H as (? & ? & _). done. Qed.
Lemma asc_drop lo n l : asc lo l -> asc lo (drop n l).
Proof. intros H. rewrite <- (take_drop n l) in H. apply asc_app_inv in H as (? & ? & _). done. Qed.
Lemma asc_chunk lo n l i : asc lo l -> asc lo (chunk n l i).
Proof. intros. by apply asc_take, asc_drop. Qed.

Definition first_of (l : list N) : N := match l with [] => 0 | x :: _ => x end.
Definition last_of (l : list N) : N := match l with [] => 0 | x :: r => foldl (fun _ y => y) x r end.
Lemma last_of_max lo l x : asc lo l -> x ∈ l -> x <= last_of l.
Proof.
  destruct l as [|y l]; [by intros _ ?%elem_of_nil|]. simpl. intros [_ Ha]. clear lo. revert x y Ha.
  induction l as [|z l IH]; intros x y Ha Hx; simpl in *.
  - apply elem_of_cons in Hx as [->|Hx]; [lia|by apply elem_of_nil in Hx].
  - destruct Ha as [? Ha]. apply elem_of_cons in Hx as [->|Hx]; [|by apply IH].
    specialize (IH z z Ha ltac:(left)). lia.
Qed.
Lemma last_of_in x r : last_of (x :: r) ∈ x :: r.
Proof.
  simpl. revert x. induction r as [|y r IH]; intros x; simpl; [left|]. right. apply IH.
Qed.

(** The first element at or above a target. *)
Definition first_ge (target : N) (l : list N) : option N := head (filter (fun x => target <= x) l).
Lemma first_ge_app target l1 l2 : (forall x, x ∈ l1 -> x < target) -> first_ge target (l1 ++ l2) = first_ge target l2.
Proof.
  intros H. unfold first_ge. rewrite list.filter_app, (filter_none _ l1); [done|].
  intros x Hx. specialize (H x Hx). lia.
Qed.
Lemma first_ge_front target l1 l2 x : x ∈ l1 -> target <= x -> first_ge target (l1 ++ l2) = first_ge target l1.
Proof.
  intros H Hx. unfold first_ge. rewrite list.filter_app.
  assert (Hin : x ∈ filter (fun x => target <= x) l1) by (apply list_elem_of_filter; by split).
  destruct (filter _ l1) as [|y l]; [by apply elem_of_nil in Hin|done].
Qed.
Lemma first_ge_none target l : (forall x, x ∈ l -> x < target) -> first_ge target l = None.
Proof. intros H. rewrite <- (app_nil_r l). by rewrite first_ge_app. Qed.
Lemma slice_bind_range {A} (f : N -> list A) n k i :
  (forall j, len (f j) = n) -> i < k -> slice (range 0 k ≫= f) (i * n) ((i + 1) * n) = Some (f i).
Proof.
  intros Hf Hi. rewrite (bind_range_split f i k) by done.
  assert (Hl : len (range 0 i ≫= f) = i * n).
  { clear Hi. induction i as [|i IH] using N.peano_ind; [done|]. rewrite <- N.add_1_r, bind_range_snoc, len_app, Hf, IH. lia. }
  apply slice_app; rewrite ?Hf, Hl; lia.
Qed.
