(* ===== verification/Identity.v ===== *)
(** Physical coordinates: [src/crates/pin-core/src/identity.rs].

    [HeapLayout] and [RootTid] are validated integers, the three [identifier!]
    types are nonzero 64-bit counters, and [DocumentRef] is the identity of one
    document incarnation.  The theorems: constructors accept exactly their
    documented domain, [key] orders coordinates, counters never wrap. *)
From S2P Require Export Errors Words.

(** [HeapLayout { max_offset: NonZeroU16 }] *)
Record HeapLayout : Type := mkHeapLayout { max_offset : N }.

(** [HeapLayout::new] *)
Definition HeapLayout_new (max_offset : N) : res IdentityError HeapLayout :=
  if 512 <? max_offset then Err InvalidLayout
  else if max_offset =? 0 then Err InvalidLayout
  else Ok (mkHeapLayout max_offset).

(** [RootTid { block: u32, offset: NonZeroU16 }] *)
Record RootTid : Type := mkRootTid { block : N; root_offset : N }.

#[export] Instance HeapLayout_eq_dec : EqDecision HeapLayout.
Proof. solve_decision. Defined.
#[export] Instance RootTid_eq_dec : EqDecision RootTid.
Proof. solve_decision. Defined.

Definition u32_max : N := 2 ^ 32 - 1.
Definition u64_max : N := 2 ^ 64 - 1.

(** [RootTid::new] *)
Definition RootTid_new (block offset : N) (layout : HeapLayout) : res IdentityError RootTid :=
  if block =? u32_max then Err InvalidBlock
  else if max_offset layout <? offset then Err InvalidOffset
  else if offset =? 0 then Err InvalidOffset
  else Ok (mkRootTid block offset).

(** [RootTid::key] *)
Definition key (r : RootTid) : N := N.lor (N.shiftl (block r) 16) (root_offset r).

(** The derived [Ord] of [RootTid]: block first, then offset. *)
Definition root_cmp (a b : RootTid) : comparison :=
  match block a ?= block b with
  | Eq => root_offset a ?= root_offset b
  | c => c
  end.
Definition root_ltb (a b : RootTid) : bool := match root_cmp a b with Lt => true | _ => false end.
Definition root_leb (a b : RootTid) : bool := match root_cmp a b with Gt => false | _ => true end.

(** [VisibleTid(RootTid)] *)
Record VisibleTid : Type := mkVisibleTid { visible : RootTid }.
Definition VisibleTid_new (block offset : N) (layout : HeapLayout) : res IdentityError VisibleTid :=
  match RootTid_new block offset layout with
  | Ok tid => Ok (mkVisibleTid tid)
  | Err error => Err error
  | Panic => Panic
  end.

(** The types of the [identifier!] macro: [SegmentId], [Incarnation] and
    [Generation] are a [NonZeroU64] each. *)
Definition SegmentId : Type := N.
Definition Incarnation : Type := N.
Definition Generation : Type := N.
#[export] Instance SegmentId_eq_dec : EqDecision SegmentId := N.eq_dec.
#[export] Instance Incarnation_eq_dec : EqDecision Incarnation := N.eq_dec.
#[export] Instance Generation_eq_dec : EqDecision Generation := N.eq_dec.

Definition identifier_new (value : N) : res IdentityError N :=
  if value =? 0 then Err ZeroIdentifier else Ok value.
Definition identifier_next (self : N) : res IdentityError N :=
  match checked_add 64 self 1 with
  | Some next => identifier_new next
  | None => Err GenerationExhausted
  end.

(** [RelationGeneration] and its constructor. *)
Record RelationGeneration : Type := mkRelationGeneration {
  database : N; tablespace : N; relfilenumber : N; generation : Generation }.
Definition RelationGeneration_new (database tablespace relfilenumber : N) (generation : Generation)
  : res IdentityError RelationGeneration :=
  if (database =? 0) || (tablespace =? 0) || (relfilenumber =? 0) then Err ZeroIdentifier
  else Ok (mkRelationGeneration database tablespace relfilenumber generation).

(** [DocumentRef] *)
Record DocumentRef : Type := mkDocumentRef {
  relation : RelationGeneration; segment : SegmentId; incarnation : Incarnation; root : RootTid }.

(** ** Well-formed values *)
Definition layout_wf (l : HeapLayout) : Prop := 1 <= max_offset l <= 512.
Definition root_wf (l : HeapLayout) (r : RootTid) : Prop :=
  block r < u32_max /\ 1 <= root_offset r <= max_offset l.
Definition identifier_wf (n : N) : Prop := 1 <= n < 2 ^ 64.

Lemma HeapLayout_new_ok n l : HeapLayout_new n = Ok l <-> l = mkHeapLayout n /\ 1 <= n <= 512.
Proof.
  unfold HeapLayout_new. destruct (N.ltb_spec 512 n), (N.eqb_spec n 0); naive_solver lia.
Qed.
Lemma RootTid_new_ok b o l r :
  RootTid_new b o l = Ok r <-> r = mkRootTid b o /\ b <> u32_max /\ 1 <= o <= max_offset l.
Proof.
  unfold RootTid_new.
  destruct (N.eqb_spec b u32_max), (N.ltb_spec (max_offset l) o), (N.eqb_spec o 0); naive_solver lia.
Qed.
Lemma RootTid_new_wf b o l r : b < 2 ^ 32 -> RootTid_new b o l = Ok r -> root_wf l r.
Proof. intros ? (-> & ? & ?)%RootTid_new_ok. unfold root_wf, u32_max in *; simpl; lia. Qed.
Lemma RootTid_new_of_wf l r : root_wf l r -> RootTid_new (block r) (root_offset r) l = Ok r.
Proof.
  intros []. apply RootTid_new_ok. split_and!; [by destruct r|unfold u32_max in *; lia|lia|lia].
Qed.
Lemma RootTid_new_safe b o l : safe (RootTid_new b o l).
Proof. unfold RootTid_new. repeat safe_step. Qed.
Lemma identifier_new_ok n m : identifier_new n = Ok m <-> m = n /\ n <> 0.
Proof. unfold identifier_new. destruct (N.eqb_spec n 0); naive_solver. Qed.
Lemma identifier_new_safe n : safe (identifier_new n).
Proof. unfold identifier_new. repeat safe_step. Qed.
#[export] Hint Resolve RootTid_new_safe identifier_new_safe : pin.

(** [key] packs the offset below bit 16. *)
Lemma key_eq r : root_offset r < 2 ^ 16 -> key r = block r * 2 ^ 16 + root_offset r.
Proof. apply lor_shiftl_add. Qed.
Lemma key_cmp a b : root_offset a < 2 ^ 16 -> root_offset b < 2 ^ 16 -> (key a ?= key b) = root_cmp a b.
Proof.
  intros Ha Hb. rewrite !key_eq by done. unfold root_cmp.
  destruct (N.compare_spec (block a) (block b)) as [->|?|?].
  - destruct (N.compare_spec (root_offset a) (root_offset b)) as [->|?|?];
      [by apply N.compare_eq_iff|apply N.compare_lt_iff; lia|apply N.compare_gt_iff; lia].
  - apply N.compare_lt_iff. nia.
  - apply N.compare_gt_iff. nia.
Qed.
Lemma key_inj a b : root_offset a < 2 ^ 16 -> root_offset b < 2 ^ 16 -> key a = key b -> a = b.
Proof.
  intros Ha Hb. rewrite !key_eq by done. intros E. destruct a as [b1 o1], b as [b2 o2]. cbn in *.
  assert (b1 = b2) by nia. f_equal; lia.
Qed.
Lemma root_ltb_key a b : root_offset a < 2 ^ 16 -> root_offset b < 2 ^ 16 -> root_ltb a b = (key a <? key b).
Proof. intros. unfold root_ltb. rewrite <- key_cmp by done. unfold N.ltb. by destruct (_ ?= _). Qed.
Lemma key_lt r : block r < 2 ^ 32 -> root_offset r < 2 ^ 16 -> key r < 2 ^ 48.
Proof. intros. rewrite key_eq by done. change (2 ^ 48) with (2 ^ 32 * 2 ^ 16). nia. Qed.

Lemma identifier_next_ok n m : identifier_wf n ->
  identifier_next n = Ok m <-> m = n + 1 /\ n <> u64_max.
Proof.
  unfold identifier_wf, identifier_next, u64_max. intros Hn.
  destruct (checked_add 64 n 1) as [k|] eqn:E.
  - apply checked_add_some in E as [-> ?]. rewrite identifier_new_ok. naive_solver lia.
  - apply checked_add_none in E. split; [done|lia].
Qed.
Lemma identifier_next_exhausted n : identifier_wf n ->
  identifier_next n = Err GenerationExhausted <-> n = u64_max.
Proof.
  unfold identifier_wf, identifier_next, u64_max. intros Hn.
  destruct (checked_add 64 n 1) as [k|] eqn:E.
  - apply checked_add_some in E as [-> ?]. unfold identifier_new.
    destruct (N.eqb_spec (n + 1) 0); [lia|]. split; [done|lia].
  - apply checked_add_none in E. split; [lia|done].
Qed.

(** [RootTid::new] accepts exactly the coordinates of the layout, and the
    packed [key] of two accepted coordinates compares like the coordinates
    themselves (block first), stays below bit 48 and identifies its coordinate. *)
Theorem root_key_order layout b1 o1 b2 o2 t1 t2 :
  layout_wf layout -> b1 < 2 ^ 32 -> b2 < 2 ^ 32 ->
  RootTid_new b1 o1 layout = Ok t1 -> RootTid_new b2 o2 layout = Ok t2 ->
  (b1 <> u32_max /\ 1 <= o1 <= max_offset layout) /\
  key t1 < 2 ^ 48 /\ (key t1 ?= key t2) = root_cmp t1 t2 /\ (key t1 = key t2 <-> t1 = t2).
Proof.
  unfold layout_wf. intros Hl ? ? (-> & ? & ?)%RootTid_new_ok (-> & ? & ?)%RootTid_new_ok.
  assert (Hs : forall o, o <= max_offset layout -> o < 2 ^ 16) by (intros; change (2 ^ 16) with 65536; lia).
  pose proof (Hs o1 ltac:(lia)). pose proof (Hs o2 ltac:(lia)).
  split_and!; [done|lia|lia|by apply key_lt|by apply key_cmp|].
  split; [|by intros [= -> ->]]. by apply key_inj.
Qed.
Lemma root_key_order_witness : (key (mkRootTid 7 3) ?= key (mkRootTid 7 200)) = Lt.
Proof.
  apply (root_key_order (mkHeapLayout 291) 7 3 7 200 (mkRootTid 7 3) (mkRootTid 7 200));
    solve [reflexivity|split; [vm_compute; discriminate|vm_compute; discriminate]].
Defined.
