(* ===== verification/Bytes.v ===== *)
(** Little-endian fields and canonical varints over byte slices:
    [src/crates/pin-core/src/codec/bytes.rs].

    [Reader] is the borrowed slice and the cursor; a read returns the value and
    the advanced reader.  [Writer] is the caller's output slice and the number of
    bytes written; a failed write loses the buffer, whose contents the code leaves
    unspecified.  The theorems: fixed-width fields and varints round-trip, the
    varint reader accepts exactly the canonical encoding, no read or write panics. *)
From S2P Require Export Words Errors.
Import Codec.

Module Reader.
Record t : Type := mk { bytes : list byte; cursor : N }.

(** [Reader::new], [offset], [remaining] *)
Definition new (bytes : list byte) : t := mk bytes 0.
Definition offset (r : t) : N := cursor r.
Definition remaining (r : t) : N := len (bytes r) - cursor r.

(** [Reader::take]: the next [n] bytes. *)
Definition take (r : t) (n : N) : Result (list byte * t) :=
  let* end_ := ok_or (checked_add usize (cursor r) n) (Codec.new (cursor r) Overflow) in
  let* value := ok_or (slice (bytes r) (cursor r) end_) (Codec.new (cursor r) Truncated) in
  Ok (value, mk (bytes r) end_).

(** [Reader::array]: the length test of [try_into] cannot fail after [take]. *)
Definition array (n : N) (r : t) : Result (list byte * t) :=
  let* '(value, r') := take r n in
  if len value =? n then Ok (value, r') else fail (cursor r') Truncated.

Definition u8 (r : t) : Result (N * t) :=
  let* '(a, r') := array 1 r in
  let* b := or_panic (index a 0) in
  Ok (byte_val b, r').
Definition u16 (r : t) : Result (N * t) :=
  let* '(a, r') := array 2 r in Ok (le_val a, r').
Definition u32 (r : t) : Result (N * t) :=
  let* '(a, r') := array 4 r in Ok (le_val a, r').
Definition u64 (r : t) : Result (N * t) :=
  let* '(a, r') := array 8 r in Ok (le_val a, r').

(** The body of [for group in 0..n] of the varint readers: [w] is the width,
    [last] the largest byte the final group may hold. *)
Fixpoint var_groups (w n last start : N) (groups : list N) (value : N) (input : t) : Result (N * t) :=
  match groups with
  | [] => fail start Overflow
  | group :: groups' =>
      let* '(byte, input) := u8 input in
      if (group =? n - 1) && (last <? byte) then fail start Overflow else
      let value := N.lor value (shl_w w (N.land byte 127) (group * 7)) in
      if N.land byte 128 =? 0 then
        if negb (group =? 0) && (byte =? 0) then fail start NonCanonical
        else Ok (value, input)
      else var_groups w n last start groups' value input
  end.
Definition var_u32 (r : t) : Result (N * t) := var_groups 32 5 15 (cursor r) (range 0 5) 0 r.
Definition var_u64 (r : t) : Result (N * t) := var_groups 64 10 1 (cursor r) (range 0 10) 0 r.

(** [Reader::finish] *)
Definition finish (r : t) : Result unit :=
  if negb (remaining r =? 0) then fail (cursor r) TrailingBytes else Ok tt.
End Reader.

Module Writer.
Record t : Type := mk { bytes : list byte; cursor : N }.

Definition new (bytes : list byte) : t := mk bytes 0.
(** [Writer::len] *)
Definition written (w : t) : N := cursor w.

(** [Writer::put] *)
Definition put (w : t) (value : list byte) : Result t :=
  let* end_ := ok_or (checked_add usize (cursor w) (len value)) (Codec.new (cursor w) Overflow) in
  if end_ <=? len (bytes w) then Ok (mk (splice (bytes w) (cursor w) value) end_)
  else fail (cursor w) Truncated.

Definition u8 (w : t) (v : N) : Result t := put w [byte_of v].
Definition u16 (w : t) (v : N) : Result t := put w (le_bytes 2 v).
Definition u32 (w : t) (v : N) : Result t := put w (le_bytes 4 v).
Definition u64 (w : t) (v : N) : Result t := put w (le_bytes 8 v).

(** The loop of [var_u32] and [var_u64] over an [n]-byte scratch array: one more
    group than it holds is an index panic. *)
Fixpoint var_bytes {E} (n : nat) (value : N) : res E (list byte) :=
  match n with
  | O => Panic
  | S n' =>
      let low := N.land value 127 in
      let value := N.shiftr value 7 in
      let byte := byte_of (N.lor low (if value =? 0 then 0 else 128)) in
      if value =? 0 then Ok [byte]
      else let* rest := var_bytes n' value in Ok (byte :: rest)
  end.
Definition var_u32 (w : t) (value : N) : Result t :=
  let* bytes := var_bytes 5 value in put w bytes.
Definition var_u64 (w : t) (value : N) : Result t :=
  let* bytes := var_bytes 10 value in put w bytes.
End Writer.

(** [var_u32_len] *)
Definition var_u32_len (value : N) : N :=
  if value =? 0 then 1 else div_ceil (32 - leading_zeros 32 value) 7.

(** * Reading *)

(** A reader that has consumed [pre] and has [s] ahead. *)
Definition reading (pre s : list byte) : Reader.t := Reader.mk (pre ++ s) (len pre).
(** Rust slices hold at most [isize::MAX] bytes. *)
Definition small {A} (l : list A) : Prop := len l <= isize_max.
Definition reader_wf (r : Reader.t) : Prop := Reader.cursor r <= len (Reader.bytes r).
Definition ahead (r : Reader.t) : list byte := drop (N.to_nat (Reader.cursor r)) (Reader.bytes r).

Lemma reading_new s : Reader.new s = reading [] s.
Proof. done. Qed.
Lemma small_lt {A} (l : list A) : small l -> len l < 2 ^ usize.
Proof. unfold small, isize_max, usize. lia. Qed.

Lemma take_reading pre v s n :
  n = len v -> small (pre ++ v ++ s) ->
  Reader.take (reading pre (v ++ s)) n = Ok (v, reading (pre ++ v) s).
Proof.
  intros -> Hs%small_lt. unfold Reader.take, reading; cbn [Reader.cursor Reader.bytes].
  rewrite !len_app in Hs. rewrite checked_add_fits by lia. cbn [ok_or rbind].
  rewrite (slice_app pre v s) by lia. cbn [ok_or rbind]. by rewrite len_app, <- app_assoc.
Qed.
Lemma array_reading pre v s n :
  n = len v -> small (pre ++ v ++ s) ->
  Reader.array n (reading pre (v ++ s)) = Ok (v, reading (pre ++ v) s).
Proof.
  intros -> ?. unfold Reader.array. rewrite take_reading by done. cbn [rbind].
  by rewrite N.eqb_refl.
Qed.

(** A successful [take] in full. *)
Lemma take_ok r n v r' :
  Reader.take r n = Ok (v, r') ->
  len v = n /\ Reader.bytes r' = Reader.bytes r /\ Reader.cursor r' = Reader.cursor r + n /\
  Reader.cursor r' <= len (Reader.bytes r) /\ ahead r = v ++ ahead r' /\
  slice (Reader.bytes r) (Reader.cursor r) (Reader.cursor r + n) = Some v.
Proof.
  unfold Reader.take. intros H. inv_ok.
  match goal with H : checked_add _ _ _ = _ |- _ => apply checked_add_some in H as [-> ?] end.
  match goal with H : slice _ _ _ = Some _ |- _ => pose proof H as Hs; apply slice_ok in H as (? & ? & Hv) end.
  unfold ahead; cbn [Reader.cursor Reader.bytes].
  split_and!; [| done | done | lia | | done].
  - subst; len_lia.
  - subst. replace (N.to_nat (Reader.cursor r + n)) with (N.to_nat (Reader.cursor r) + N.to_nat n)%nat by lia.
    rewrite <- drop_drop. replace (Reader.cursor r + n - Reader.cursor r) with n by lia.
    by rewrite take_drop.
Qed.
Lemma array_ok r n v r' : Reader.array n r = Ok (v, r') -> Reader.take r n = Ok (v, r').
Proof. unfold Reader.array. intros H. inv_ok. by subst. Qed.

Lemma reader_split r : reader_wf r ->
  r = reading (take (N.to_nat (Reader.cursor r)) (Reader.bytes r)) (ahead r).
Proof.
  intros H. destruct r as [bs c]. unfold reader_wf, reading, ahead in *; cbn in *.
  f_equal; [by rewrite take_drop|len_lia].
Qed.
Lemma ahead_reading pre s : ahead (reading pre s) = s.
Proof.
  unfold ahead, reading; cbn. by rewrite to_nat_len, drop_app_length.
Qed.
Lemma reading_wf pre s : reader_wf (reading pre s).
Proof. unfold reader_wf, reading; cbn. len_lia. Qed.
Lemma remaining_reading pre s : Reader.remaining (reading pre s) = len s.
Proof. unfold Reader.remaining, reading; cbn. len_lia. Qed.
Lemma finish_reading pre : Reader.finish (reading pre []) = Ok tt.
Proof. unfold Reader.finish. rewrite remaining_reading. done. Qed.
Lemma finish_ok r u : reader_wf r -> Reader.finish r = Ok u -> ahead r = [].
Proof.
  unfold Reader.finish, Reader.remaining, reader_wf, ahead. intros Hw H. inv_ok. bool_to_prop.
  apply drop_ge. unfold len in *; lia.
Qed.
Lemma offset_reading pre s : Reader.offset (reading pre s) = len pre.
Proof. done. Qed.

(** ** Fixed-width fields *)
Lemma u8_reading pre b s : small (pre ++ b :: s) ->
  Reader.u8 (reading pre (b :: s)) = Ok (byte_val b, reading (pre ++ [b]) s).
Proof.
  intros. unfold Reader.u8. by rewrite (array_reading pre [b] s) by done.
Qed.
Lemma u16_reading pre v s : v < 2 ^ 16 -> small (pre ++ le_bytes 2 v ++ s) ->
  Reader.u16 (reading pre (le_bytes 2 v ++ s)) = Ok (v, reading (pre ++ le_bytes 2 v) s).
Proof.
  intros. unfold Reader.u16. rewrite array_reading by (done || len_lia). cbn [rbind].
  by rewrite le_val_bytes_small.
Qed.
Lemma u32_reading pre v s : v < 2 ^ 32 -> small (pre ++ le_bytes 4 v ++ s) ->
  Reader.u32 (reading pre (le_bytes 4 v ++ s)) = Ok (v, reading (pre ++ le_bytes 4 v) s).
Proof.
  intros. unfold Reader.u32. rewrite array_reading by (done || len_lia). cbn [rbind].
  by rewrite le_val_bytes_small.
Qed.
Lemma u64_reading pre v s : v < 2 ^ 64 -> small (pre ++ le_bytes 8 v ++ s) ->
  Reader.u64 (reading pre (le_bytes 8 v ++ s)) = Ok (v, reading (pre ++ le_bytes 8 v) s).
Proof.
  intros. unfold Reader.u64. rewrite array_reading by (done || len_lia). cbn [rbind].
  by rewrite le_val_bytes_small.
Qed.

(** What a successful fixed-width read says about the bytes ahead. *)
Definition read_field (n : nat) (r : Reader.t) (v : N) (r' : Reader.t) : Prop :=
  v < 2 ^ (8 * N.of_nat n) /\ Reader.bytes r' = Reader.bytes r /\
  Reader.cursor r' = Reader.cursor r + N.of_nat n /\
  Reader.cursor r' <= len (Reader.bytes r) /\ ahead r = le_bytes n v ++ ahead r'.

Lemma array_field n r a r' : Reader.array (N.of_nat n) r = Ok (a, r') -> read_field n r (le_val a) r'.
Proof.
  intros (Hl & ? & ? & ? & Ha & _)%array_ok%take_ok. unfold read_field. split_and!; [|done..|].
  - rewrite <- Hl. apply le_val_lt.
  - rewrite Ha. f_equal. replace n with (length a) by (unfold len in *; lia). by rewrite le_bytes_val.
Qed.
Lemma u8_ok r v r' : Reader.u8 r = Ok (v, r') -> read_field 1 r v r'.
Proof.
  unfold Reader.u8. intros H. inv_ok.
  match goal with H : Reader.array 1 _ = Ok (?l, _) |- _ =>
    pose proof (array_field 1 _ _ _ H) as Hf; apply array_ok, take_ok in H as (Hlen & _) end.
  destruct l as [|b [|c l]]; rewrite ?len_cons, ?len_nil in Hlen; try lia.
  unfold index in *; simplify_eq/=. by rewrite N.mul_0_r, N.add_0_r in Hf.
Qed.
Lemma u16_ok r v r' : Reader.u16 r = Ok (v, r') -> read_field 2 r v r'.
Proof. unfold Reader.u16. intros H. inv_ok. by eapply (array_field 2). Qed.
Lemma u32_ok r v r' : Reader.u32 r = Ok (v, r') -> read_field 4 r v r'.
Proof. unfold Reader.u32. intros H. inv_ok. by eapply (array_field 4). Qed.
Lemma u64_ok r v r' : Reader.u64 r = Ok (v, r') -> read_field 8 r v r'.
Proof. unfold Reader.u64. intros H. inv_ok. by eapply (array_field 8). Qed.

(** ** No read panics *)
Lemma take_safe r n : safe (Reader.take r n).
Proof. unfold Reader.take. repeat safe_step. Qed.
#[export] Hint Resolve take_safe : pin.
Lemma array_safe n r : safe (Reader.array n r).
Proof. unfold Reader.array. repeat safe_step. Qed.
#[export] Hint Resolve array_safe : pin.
Lemma u8_safe r : safe (Reader.u8 r).
Proof.
  unfold Reader.u8. apply safe_bind; [auto with pin|]. intros [a r'] H%array_ok%take_ok.
  destruct H as (Hl & _). destruct a; [done|]. apply safe_bind; [done|auto with pin].
Qed.
Lemma u16_safe r : safe (Reader.u16 r).
Proof. unfold Reader.u16. repeat safe_step. Qed.
Lemma u32_safe r : safe (Reader.u32 r).
Proof. unfold Reader.u32. repeat safe_step. Qed.
Lemma u64_safe r : safe (Reader.u64 r).
Proof. unfold Reader.u64. repeat safe_step. Qed.
Lemma finish_safe r : safe (Reader.finish r).
Proof. unfold Reader.finish. repeat safe_step. Qed.
#[export] Hint Resolve u8_safe u16_safe u32_safe u64_safe finish_safe : pin.
Lemma var_groups_safe w n last start groups v r : safe (Reader.var_groups w n last start groups v r).
Proof.
  revert v r; induction groups as [|g gs IH]; intros v r; cbn [Reader.var_groups]; [done|].
  repeat safe_step; auto.
Qed.
Lemma var_u32_safe r : safe (Reader.var_u32 r).
Proof. apply var_groups_safe. Qed.
Lemma var_u64_safe r : safe (Reader.var_u64 r).
Proof. apply var_groups_safe. Qed.
#[export] Hint Resolve var_u32_safe var_u64_safe : pin.

(** * Writing *)

(** A writer over [out] that has written [pre]. *)
Definition writing (out pre : list byte) : Writer.t :=
  Writer.mk (pre ++ drop (length pre) out) (len pre).

Lemma writing_new out : Writer.new out = writing out [].
Proof. done. Qed.
Lemma written_writing out pre : Writer.written (writing out pre) = len pre.
Proof. done. Qed.
Lemma put_writing out pre v :
  small out -> len pre + len v <= len out -> Writer.put (writing out pre) v = Ok (writing out (pre ++ v)).
Proof.
  intros Hs%small_lt ?. unfold Writer.put, writing; cbn [Writer.cursor Writer.bytes].
  rewrite checked_add_fits by lia. cbn [ok_or rbind].
  destruct (N.leb_spec (len pre + len v) (len (pre ++ drop (length pre) out))) as [_|Hgt].
  2:{ exfalso. unfold len in *. rewrite length_app, length_drop in Hgt. lia. }
  unfold splice. rewrite len_app, <- app_assoc, length_app.
  replace (N.to_nat (len pre)) with (length pre) by (unfold len; lia).
  replace (N.to_nat (len pre + len v)) with (length pre + length v)%nat by (unfold len; lia).
  rewrite take_app_length, <- (drop_drop (_ ++ _)), drop_app_length, drop_drop. done.
Qed.
Lemma put_full out pre v :
  small out -> small v -> len pre <= len out -> len out < len pre + len v ->
  Writer.put (writing out pre) v = fail (len pre) Truncated.
Proof.
  unfold small, isize_max. intros ? ? ? ?. unfold Writer.put, writing; cbn [Writer.cursor Writer.bytes].
  rewrite checked_add_fits by (unfold usize; lia). cbn [ok_or rbind].
  destruct (N.leb_spec (len pre + len v) (len (pre ++ drop (length pre) out))) as [Hle|_]; [|done].
  exfalso. unfold len in *. rewrite length_app, length_drop in Hle. lia.
Qed.
Lemma put_safe w v : safe (Writer.put w v).
Proof. unfold Writer.put. repeat safe_step. Qed.
#[export] Hint Resolve put_safe : pin.

(** Runs a chain of writes: every step appends, the final buffer is the output
    with its prefix overwritten. *)
Ltac wrote :=
  repeat (rewrite put_writing by (assumption || len_lia); cbn [rbind]).

(** ** Varints *)

(** The canonical encoding: base-128 digits, least significant first, the last
    one nonzero unless the value is zero. *)
Definition varint (n : nat) (v : N) : list byte :=
  match Writer.var_bytes (E := unit) n v with Ok l => l | _ => [] end.
Abbreviation varint32 v := (varint 5 v).
Abbreviation varint64 v := (varint 10 v).

Lemma land_127 b : N.land b 127 = b mod 128.
Proof. change 127 with (N.ones 7). apply N.land_ones. Qed.
Lemma land_128 b : b < 256 -> (N.land b 128 =? 0) = (b <? 128).
Proof.
  intros. destruct (N.ltb_spec b 128) as [Hb|Hb].
  - apply N.eqb_eq. apply N.bits_inj_0; intros i. rewrite N.land_spec.
    change 128 with (2 ^ 7). rewrite N.pow2_bits_eqb.
    destruct (N.eqb_spec 7 i) as [<-|]; [|by rewrite andb_false_r].
    by rewrite (testbit_high b 7) by (done || lia).
  - apply N.eqb_neq. intros H0. assert (N.testbit (N.land b 128) 7 = false) as H1 by by rewrite H0.
    rewrite N.land_spec in H1. change 128 with (2 ^ 7) in H1.
    rewrite N.pow2_bits_true, andb_true_r in H1.
    assert (b < 2 ^ 7); [|lia]. apply lt_pow2_testbit. intros i Hi.
    destruct (decide (i = 7)) as [->|]; [done|]. apply (testbit_high b 8); done || lia.
Qed.
Lemma shiftr_7 v : N.shiftr v 7 = v / 128.
Proof. by rewrite N.shiftr_div_pow2. Qed.

Lemma var_digit v (more : bool) :
  byte_val (byte_of (N.lor (N.land v 127) (if more then 128 else 0))) = v mod 128 + (if more then 128 else 0).
Proof.
  rewrite land_127. pose proof (N.mod_lt v 128 ltac:(done)).
  rewrite byte_val_of. destruct more; [|rewrite N.lor_0_r, N.mod_small by lia; lia].
  rewrite N.lor_comm. change 128 with (N.shiftl 1 7) at 1.
  rewrite lor_shiftl_add by (change (2 ^ 7) with 128; lia).
  change (1 * 2 ^ 7) with 128. rewrite N.mod_small by lia. lia.
Qed.
Lemma digit_low d : d < 128 -> N.land d 127 = d.
Proof. intros; rewrite land_127. by apply N.mod_small. Qed.
Lemma digit_high d : d < 128 -> N.land (d + 128) 127 = d.
Proof.
  intros; rewrite land_127. replace (d + 128) with (d + 1 * 128) by lia.
  rewrite N.Div0.mod_add. by apply N.mod_small.
Qed.

Lemma var_half n v : v < 2 ^ (7 * N.of_nat (S n)) -> v / 128 < 2 ^ (7 * N.of_nat n).
Proof.
  intros. apply N.Div0.div_lt_upper_bound. change 128 with (2 ^ 7). rewrite <- N.pow_add_r.
  by replace (7 + 7 * N.of_nat n) with (7 * N.of_nat (S n)) by lia.
Qed.

(** [n] groups suffice for a value of at most [7 n] bits. *)
Lemma var_bytes_ok {E} n v : (0 < n)%nat -> v < 2 ^ (7 * N.of_nat n) ->
  Writer.var_bytes (E := E) n v = Ok (varint n v).
Proof.
  intros Hn Hv. unfold varint.
  assert (exists l, forall E', Writer.var_bytes (E := E') n v = Ok l) as [l Hl]; [|by rewrite !Hl].
  revert v Hv; induction n as [|n IH]; intros v Hv; [lia|].
  cbn [Writer.var_bytes]. rewrite shiftr_7.
  destruct (N.eqb_spec (v / 128) 0) as [|Hnz]; [by eexists|].
  pose proof (var_half _ _ Hv) as Hd.
  destruct n as [|n]; [change (2 ^ (7 * N.of_nat 0)) with 1 in Hd; dlia|].
  destruct (IH ltac:(lia) (v / 128)) as [l Hl]; [done|].
  eexists. intros E'. rewrite Hl. done.
Qed.
Lemma varint_step n v : v < 2 ^ (7 * N.of_nat (S n)) ->
  varint (S n) v = if v <? 128 then [byte_of v] else byte_of (v mod 128 + 128) :: varint n (v / 128).
Proof.
  intros Hv. unfold varint at 1. cbn [Writer.var_bytes]. rewrite shiftr_7.
  destruct (N.ltb_spec v 128) as [Hlt|Hge].
  - rewrite N.div_small by done. change (0 =? 0) with true. cbn match.
    rewrite N.lor_0_r, land_127, N.mod_small by done. done.
  - assert (v / 128 <> 0) by (intros ?%N.div_small_iff; lia).
    destruct (N.eqb_spec (v / 128) 0); [done|].
    pose proof (var_half _ _ Hv) as Hd.
    destruct n as [|n]; [change (2 ^ (7 * N.of_nat 0)) with 1 in Hd; dlia|].
    rewrite var_bytes_ok by (done || lia). cbn [rbind]. f_equal.
    apply byte_val_inj. rewrite (var_digit v true), byte_val_of_small; [done|].
    pose proof (N.mod_lt v 128 ltac:(done)). lia.
Qed.
Lemma varint_len n v : (0 < n)%nat -> v < 2 ^ (7 * N.of_nat n) -> 1 <= len (varint n v) <= N.of_nat n.
Proof.
  revert v; induction n as [|n IH]; intros v ? Hv; [lia|]. rewrite varint_step by done.
  destruct (N.ltb_spec v 128) as [|Hge]; [len_lia|].
  rewrite len_cons. pose proof (var_half _ _ Hv) as Hd.
  destruct n as [|n].
  { change (2 ^ (7 * N.of_nat 0)) with 1 in Hd. dlia. }
  specialize (IH (v / 128) ltac:(lia) Hd). lia.
Qed.

(** The varint readers' parameters: [n] groups of 7 bits cover the [w] bits, the
    last group holds the remaining ones. *)
Record var_params (w n last : N) : Prop := {
  vp_pos : 0 < n;
  vp_width : 7 * (n - 1) < w <= 7 * n;
  vp_last : last + 1 = 2 ^ (w - 7 * (n - 1));
}.
Lemma var_params32 : var_params 32 5 15.
Proof. by split. Qed.
Lemma var_params64 : var_params 64 10 1.
Proof. by split. Qed.

Lemma pow2_split a b : 2 ^ (a + b) = 2 ^ a * 2 ^ b.
Proof. apply N.pow_add_r. Qed.

(** One accepted group extends the value by its seven bits. *)
Lemma group_value w value d g :
  value < 2 ^ (g * 7) -> d * 2 ^ (g * 7) < 2 ^ w ->
  N.lor value (shl_w w d (g * 7)) = value + d * 2 ^ (g * 7).
Proof.
  intros Hv Hd. unfold shl_w. rewrite trunc_small by (by rewrite N.shiftl_mul_pow2).
  rewrite N.lor_comm, lor_shiftl_add by done. lia.
Qed.
Lemma group_fits w n last g d :
  var_params w n last -> g < n -> d < 128 -> (g = n - 1 -> d <= last) -> d * 2 ^ (g * 7) < 2 ^ w.
Proof.
  intros [] ? ? Hl. destruct (decide (g = n - 1)) as [->|].
  - replace w with ((w - 7 * (n - 1)) + (n - 1) * 7) at 1 by lia. rewrite pow2_split.
    rewrite <- vp_last0. apply N.mul_lt_mono_pos_r; [apply pow2_pos|].
    specialize (Hl eq_refl). lia.
  - replace w with (7 + g * 7 + (w - (7 + g * 7))) by lia. rewrite !pow2_split.
    change (2 ^ 7) with 128. pose proof (pow2_pos (w - (7 + g * 7))).
    pose proof (pow2_pos (g * 7)). nia.
Qed.
Lemma value_extend value d g :
  value < 2 ^ (g * 7) -> d < 128 -> value + d * 2 ^ (g * 7) < 2 ^ ((g + 1) * 7).
Proof.
  intros. replace ((g + 1) * 7) with (7 + g * 7) by lia. rewrite pow2_split. change (2 ^ 7) with 128. nia.
Qed.

Lemma var_groups_reading n w tot last start g value v pre s :
  var_params w tot last -> tot = g + N.of_nat n -> g < tot ->
  value < 2 ^ (g * 7) -> v < 2 ^ (w - g * 7) -> g = 0 \/ v <> 0 ->
  small (pre ++ varint n v ++ s) ->
  Reader.var_groups w tot last start (range g tot) value (reading pre (varint n v ++ s)) =
  Ok (value + v * 2 ^ (g * 7), reading (pre ++ varint n v) s).
Proof.
  intros Hp Htot. revert g value v pre Htot.
  induction n as [|n IH]; intros g value v pre Htot Hg Hval Hv Hz Hs; [lia|].
  assert (Hv' : v < 2 ^ (7 * N.of_nat (S n))).
  { eapply N.lt_le_trans; [exact Hv|]. apply N.pow_le_mono_r; [done|]. destruct Hp; lia. }
  rewrite (varint_step n v Hv') in Hs |- *. rewrite (range_cons g tot) by lia. cbn [Reader.var_groups].
  destruct (N.ltb_spec v 128) as [Hlt|Hge].
  - cbn [app] in *. rewrite u8_reading by done. cbn [rbind].
    rewrite byte_val_of_small, digit_low, land_128, (proj2 (N.ltb_lt v 128)) by lia.
    assert (Hl : g = tot - 1 -> v <= last).
    { intros ->. destruct Hp. replace ((tot - 1) * 7) with (7 * (tot - 1)) in Hv by lia. lia. }
    rewrite group_value; [|done|by apply (group_fits w tot last g v)].
    replace ((g =? tot - 1) && (last <? v)) with false.
    2:{ symmetry. destruct (N.eqb_spec g (tot - 1)); [|done]. apply N.ltb_ge. auto. }
    replace (negb (g =? 0) && (v =? 0)) with false; [done|].
    symmetry. destruct (N.eqb_spec g 0), (N.eqb_spec v 0); naive_solver.
  - cbn [app] in *. rewrite u8_reading by done. cbn [rbind].
    pose proof (N.mod_lt v 128 ltac:(done)) as Hm.
    rewrite byte_val_of_small, digit_high, land_128 by lia.
    replace (v mod 128 + 128 <? 128) with false by (symmetry; apply N.ltb_ge; dlia).
    assert (Hg1 : g <> tot - 1).
    { intros ->. destruct Hp. replace ((tot - 1) * 7) with (7 * (tot - 1)) in Hv by lia.
      assert (2 ^ (w - 7 * (tot - 1)) <= 2 ^ 7) by (apply N.pow_le_mono_r; lia).
      change (2 ^ 7) with 128 in *. lia. }
    destruct (N.eqb_spec g (tot - 1)) as [|_]; [done|]. cbn [andb].
    rewrite group_value; [|done|apply (group_fits w tot last); done || lia].
    assert (Hhalf : v / 128 < 2 ^ (w - (g + 1) * 7)).
    { apply N.Div0.div_lt_upper_bound. change 128 with (2 ^ 7). rewrite <- pow2_split.
      replace (7 + (w - (g + 1) * 7)) with (w - g * 7) by (destruct Hp; lia). done. }
    rewrite IH; [| lia | lia | by apply value_extend | done | right; dlia |].
    2:{ revert Hs. rewrite (cons_middle _ pre), app_assoc. done. }
    do 2 f_equal.
    + replace ((g + 1) * 7) with (7 + g * 7) by lia. rewrite pow2_split. change (2 ^ 7) with 128.
      pose proof (N.div_mod' v 128) as Hd. rewrite Hd at 3. ring.
    + by rewrite <- app_assoc.
Qed.

Lemma var_groups_ok n w tot last start g value r x r' :
  var_params w tot last -> tot - g = N.of_nat n -> value < 2 ^ (g * 7) ->
  Reader.var_groups w tot last start (range g tot) value r = Ok (x, r') ->
  exists v, x = value + v * 2 ^ (g * 7) /\ v < 2 ^ (w - g * 7) /\ (g = 0 \/ v <> 0) /\
    ahead r = varint n v ++ ahead r' /\ Reader.bytes r' = Reader.bytes r /\
    Reader.cursor r' = Reader.cursor r + len (varint n v) /\
    Reader.cursor r' <= len (Reader.bytes r).
Proof.
  intros Hp. revert g value r. induction n as [|n IH]; intros g value r Htot Hval H.
  { rewrite range_nil in H by lia. done. }
  rewrite (range_cons g tot) in H by lia. cbn [Reader.var_groups] in H. inv_ok.
  match goal with H : Reader.u8 _ = Ok (?b, _) |- _ => rename b into d; apply u8_ok in H as (Hd & Hb & Hc & Hle & Ha) end.
  change (2 ^ (8 * N.of_nat 1)) with 256 in Hd. change (N.of_nat 1) with 1 in Hc.
  cbn [le_bytes app] in Ha. rewrite land_128 in H by done.
  match goal with H : (g =? _) && _ = false |- _ => rename H into Hlast end.
  assert (Hlast' : g = tot - 1 -> d <= last).
  { intros ->. rewrite N.eqb_refl in Hlast. by apply N.ltb_ge in Hlast. }
  assert (Hw : g * 7 < w) by (destruct Hp; lia).
  destruct (N.ltb_spec d 128) as [Hd1|Hd1].
  - rewrite digit_low in H by done. inv_ok.
    match goal with H : negb _ && _ = false |- _ => rename H into Hz end.
    exists d. pose proof (group_fits w tot last g d Hp ltac:(lia) Hd1 Hlast') as Hfit.
    assert (Hdw : d < 2 ^ (w - g * 7)).
    { replace w with ((w - g * 7) + g * 7) in Hfit at 1 by lia. rewrite pow2_split in Hfit.
      apply N.mul_lt_mono_pos_r in Hfit; [done|]. apply pow2_pos. }
    rewrite varint_step, (proj2 (N.ltb_lt d 128)) by
      (done || (change 128 with (2 ^ 7) in Hd1; eapply N.lt_le_trans; [exact Hd1|apply N.pow_le_mono_r; lia])).
    split_and!; [by apply group_value| done | | done | done | by rewrite Hc | by rewrite Hb in * ].
    destruct (N.eqb_spec g 0), (N.eqb_spec d 0); naive_solver.
  - assert (exists d', d = d' + 128) as [d' ->] by (exists (d - 128); lia). rewrite digit_high in H by lia.
    assert (Hg1 : g <> tot - 1).
    { intros Hg1. specialize (Hlast' Hg1). destruct Hp.
      assert (2 ^ (w - 7 * (tot - 1)) <= 2 ^ 7) by (apply N.pow_le_mono_r; lia).
      change (2 ^ 7) with 128 in *. lia. }
    assert (Hfit : d' * 2 ^ (g * 7) < 2 ^ w) by (apply (group_fits w tot last); done || lia).
    rewrite group_value in H by done.
    apply IH in H as (v & -> & Hv & Hz & Hrest & Hb' & Hc' & Hle'); [|lia|apply value_extend; lia].
    assert (Hv2 : d' + v * 128 < 2 ^ (w - g * 7)).
    { replace (w - g * 7) with (7 + (w - (g + 1) * 7)) by (destruct Hp; lia).
      rewrite pow2_split. change (2 ^ 7) with 128. lia. }
    assert (Hvz : v <> 0) by lia.
    exists (d' + v * 128).
    assert (Hstep : varint (S n) (d' + v * 128) = byte_of (d' + 128) :: varint n v).
    { rewrite varint_step.
      2:{ eapply N.lt_le_trans; [exact Hv2|]. apply N.pow_le_mono_r; [done|]. destruct Hp; lia. }
      replace (d' + v * 128 <? 128) with false by (symmetry; apply N.ltb_ge; lia).
      rewrite N.Div0.mod_add, N.mod_small, N.div_add, N.div_small, N.add_0_l by lia. done. }
    rewrite Hstep, len_cons. split_and!; [| done | by right; lia | | congruence | lia | congruence].
    + replace ((g + 1) * 7) with (7 + g * 7) by lia. rewrite pow2_split. change (2 ^ 7) with 128. ring.
    + rewrite Ha, Hrest. done.
Qed.

Lemma var_u32_reading pre v s : v < 2 ^ 32 -> small (pre ++ varint32 v ++ s) ->
  Reader.var_u32 (reading pre (varint32 v ++ s)) = Ok (v, reading (pre ++ varint32 v) s).
Proof.
  intros. unfold Reader.var_u32.
  rewrite (var_groups_reading 5 32 5 15 _ 0 0 v) by (apply var_params32 || done || lia || by left).
  do 3 f_equal. change (2 ^ (0 * 7)) with 1. lia.
Qed.
Lemma var_u64_reading pre v s : v < 2 ^ 64 -> small (pre ++ varint64 v ++ s) ->
  Reader.var_u64 (reading pre (varint64 v ++ s)) = Ok (v, reading (pre ++ varint64 v) s).
Proof.
  intros. unfold Reader.var_u64.
  rewrite (var_groups_reading 10 64 10 1 _ 0 0 v) by (apply var_params64 || done || lia || by left).
  do 3 f_equal. change (2 ^ (0 * 7)) with 1. lia.
Qed.

(** What a successful varint read says about the bytes ahead. *)
Definition read_var (w : N) (n : nat) (r : Reader.t) (v : N) (r' : Reader.t) : Prop :=
  v < 2 ^ w /\ Reader.bytes r' = Reader.bytes r /\
  Reader.cursor r' = Reader.cursor r + len (varint n v) /\
  Reader.cursor r' <= len (Reader.bytes r) /\ ahead r = varint n v ++ ahead r'.
Lemma var_u32_ok r v r' : Reader.var_u32 r = Ok (v, r') -> read_var 32 5 r v r'.
Proof.
  intros H. apply (var_groups_ok 5) in H as (x & -> & ? & _ & ? & ? & ? & ?);
    [|apply var_params32|done|done].
  unfold read_var. change (2 ^ (0 * 7)) with 1. by rewrite N.mul_1_r, N.add_0_l.
Qed.
Lemma var_u64_ok r v r' : Reader.var_u64 r = Ok (v, r') -> read_var 64 10 r v r'.
Proof.
  intros H. apply (var_groups_ok 10) in H as (x & -> & ? & _ & ? & ? & ? & ?);
    [|apply var_params64|done|done].
  unfold read_var. change (2 ^ (0 * 7)) with 1. by rewrite N.mul_1_r, N.add_0_l.
Qed.

Lemma pow32_le_35 v : v < 2 ^ 32 -> v < 2 ^ (7 * N.of_nat 5).
Proof. intros. eapply N.lt_le_trans; [done|]. by apply N.pow_le_mono_r. Qed.
Lemma pow64_le_70 v : v < 2 ^ 64 -> v < 2 ^ (7 * N.of_nat 10).
Proof. intros. eapply N.lt_le_trans; [done|]. by apply N.pow_le_mono_r. Qed.
#[export] Hint Resolve pow32_le_35 pow64_le_70 : pin.

Lemma var_u32_writing out pre v :
  v < 2 ^ 32 -> small out -> len pre + len (varint32 v) <= len out ->
  Writer.var_u32 (writing out pre) v = Ok (writing out (pre ++ varint32 v)).
Proof.
  intros. unfold Writer.var_u32. rewrite var_bytes_ok by (lia || auto with pin). cbn [rbind].
  by apply put_writing.
Qed.
Lemma var_u64_writing out pre v :
  v < 2 ^ 64 -> small out -> len pre + len (varint64 v) <= len out ->
  Writer.var_u64 (writing out pre) v = Ok (writing out (pre ++ varint64 v)).
Proof.
  intros. unfold Writer.var_u64. rewrite var_bytes_ok by (lia || auto with pin). cbn [rbind].
  by apply put_writing.
Qed.

Lemma size_half v : 128 <= v -> N.size v = N.size (v / 128) + 7.
Proof.
  intros. assert (v / 128 <> 0) by dlia.
  rewrite !N.size_log2 by lia. change 128 with (2 ^ 7). rewrite <- N.shiftr_div_pow2, N.log2_shiftr.
  assert (7 <= N.log2 v) by (apply N.log2_le_pow2; [lia|done]). lia.
Qed.
Lemma varint_len_size n v : (0 < n)%nat -> v < 2 ^ (7 * N.of_nat n) ->
  len (varint n v) = N.max 1 (div_ceil (N.size v) 7).
Proof.
  revert v; induction n as [|n IH]; intros v ? Hv; [lia|]. rewrite varint_step by done.
  destruct (N.ltb_spec v 128) as [Hlt|Hge].
  - assert (N.size v <= 7) by by apply size_le_pow2.
    rewrite len_cons, len_nil. unfold div_ceil. dlia.
  - rewrite len_cons. pose proof (var_half _ _ Hv) as Hd.
    destruct n as [|n]; [change (2 ^ (7 * N.of_nat 0)) with 1 in Hd; dlia|].
    rewrite IH, (size_half v) by (lia || done). unfold div_ceil.
    assert (1 <= N.size (v / 128)).
    { assert (v / 128 <> 0) by dlia. rewrite N.size_log2 by done. lia. }
    generalize dependent (N.size (v / 128)). intros. dlia.
Qed.
Lemma var_u32_len_varint v : v < 2 ^ 32 -> var_u32_len v = len (varint32 v).
Proof.
  intros Hv. rewrite varint_len_size by (lia || auto with pin). unfold var_u32_len, leading_zeros.
  assert (Hs : N.size v <= 32) by by apply size_le_pow2.
  destruct (N.eqb_spec v 0) as [->|Hz]; [done|].
  rewrite N.size_log2 in * by done. replace (32 - (32 - N.succ (N.log2 v))) with (N.succ (N.log2 v)) by lia.
  unfold div_ceil. generalize dependent (N.log2 v). intros. dlia.
Qed.

(** ** Formats

    [format m enc P]: the reader [m] returns a value exactly when the bytes ahead
    start with the encoding of a value of the domain [P], and stops after it.  The
    parsers of the payloads are sequences of such readers, so a parser's theorem in
    both directions (round trip and soundness) is a chain of [format_bind]. *)
Definition format {A} (m : Reader.t -> Result (A * Reader.t)) (enc : A -> list byte) (P : A -> Prop) : Prop :=
  forall pre s v r', small (pre ++ s) ->
    m (reading pre s) = Ok (v, r') <-> P v /\ exists tl, s = enc v ++ tl /\ r' = reading (pre ++ enc v) tl.

Ltac small_lia := unfold small, Datatypes.id in *; len_lia.

Lemma format_bind {A B} m enc P (k : A -> Reader.t -> Result B) pre s x :
  format m enc P -> small (pre ++ s) ->
  (let* '(v, r) := m (reading pre s) in k v r) = Ok x <->
  exists v tl, P v /\ s = enc v ++ tl /\ k v (reading (pre ++ enc v) tl) = Ok x.
Proof.
  intros Hf Hs. rewrite rbind_ok. split.
  - intros ([v r] & Hm & Hk). apply Hf in Hm as (Hv & tl & -> & ->); [|done]. eauto.
  - intros (v & tl & Hv & -> & Hk). exists (v, reading (pre ++ enc v) tl). split; [|done].
    apply Hf; eauto.
Qed.

Lemma reader_at pre s v n r' :
  Reader.bytes r' = pre ++ s -> Reader.cursor r' = len pre + n -> n = len v -> s = v ++ ahead r' ->
  exists tl, s = v ++ tl /\ r' = reading (pre ++ v) tl.
Proof.
  intros Hb Hc -> Hs. exists (ahead r'). split; [done|]. destruct r' as [b c]. cbn in *. subst.
  unfold reading. rewrite Hs at 1. rewrite app_assoc. f_equal. by rewrite len_app.
Qed.
Lemma field_format m n :
  (forall r v r', m r = Ok (v, r') -> read_field n r v r') ->
  (forall pre v s, v < 2 ^ (8 * N.of_nat n) -> small (pre ++ le_bytes n v ++ s) ->
     m (reading pre (le_bytes n v ++ s)) = Ok (v, reading (pre ++ le_bytes n v) s)) ->
  format m (le_bytes n) (fun v => v < 2 ^ (8 * N.of_nat n)).
Proof.
  intros H1 H2 pre s v r' Hs. split.
  - intros (Hv & Hb & Hc & _ & Ha)%H1. rewrite ahead_reading in Ha. split; [done|].
    eapply reader_at; [done|done|by rewrite len_le_bytes|done].
  - intros (Hv & tl & -> & ->). by apply H2.
Qed.
Lemma u8_format : format Reader.u8 (fun v => [byte_of v]) (fun v => v < 2 ^ 8).
Proof.
  apply (field_format _ 1 u8_ok). intros pre v s Hv ?. cbn [le_bytes app].
  rewrite u8_reading by done. by rewrite byte_val_of_small.
Qed.
Lemma u16_format : format Reader.u16 (le_bytes 2) (fun v => v < 2 ^ 16).
Proof. apply (field_format _ 2 u16_ok). intros; by apply u16_reading. Qed.
Lemma u32_format : format Reader.u32 (le_bytes 4) (fun v => v < 2 ^ 32).
Proof. apply (field_format _ 4 u32_ok). intros; by apply u32_reading. Qed.
Lemma u64_format : format Reader.u64 (le_bytes 8) (fun v => v < 2 ^ 64).
Proof. apply (field_format _ 8 u64_ok). intros; by apply u64_reading. Qed.
Lemma take_format n : format (fun r => Reader.take r n) id (fun v => len v = n).
Proof.
  intros pre s v r' Hs. split.
  - intros (Hl & Hb & Hc & _ & Ha & _)%take_ok. rewrite ahead_reading in Ha. split; [done|].
    by eapply reader_at.
  - intros (Hl & tl & -> & ->). by apply take_reading.
Qed.
Lemma array_format n : format (Reader.array n) id (fun v => len v = n).
Proof.
  intros pre s v r' Hs. split.
  - intros (Hl & Hb & Hc & _ & Ha & _)%array_ok%take_ok. rewrite ahead_reading in Ha. split; [done|].
    by eapply reader_at.
  - intros (Hl & tl & -> & ->). by apply array_reading.
Qed.
Lemma var_format m w n :
  (forall r v r', m r = Ok (v, r') -> read_var w n r v r') ->
  (forall pre v s, v < 2 ^ w -> small (pre ++ varint n v ++ s) ->
     m (reading pre (varint n v ++ s)) = Ok (v, reading (pre ++ varint n v) s)) ->
  format m (varint n) (fun v => v < 2 ^ w).
Proof.
  intros H1 H2 pre s v r' Hs. split.
  - intros (Hv & Hb & Hc & _ & Ha)%H1. rewrite ahead_reading in Ha. split; [done|].
    by eapply reader_at.
  - intros (Hv & tl & -> & ->). by apply H2.
Qed.
Lemma var_u32_format : format Reader.var_u32 (varint 5) (fun v => v < 2 ^ 32).
Proof. apply (var_format _ _ _ var_u32_ok). intros; by apply var_u32_reading. Qed.
Lemma var_u64_format : format Reader.var_u64 (varint 10) (fun v => v < 2 ^ 64).
Proof. apply (var_format _ _ _ var_u64_ok). intros; by apply var_u64_reading. Qed.

Lemma finish_reading_iff pre s u : Reader.finish (reading pre s) = Ok u <-> s = [].
Proof.
  split.
  - intros H. apply finish_ok in H; [|apply reading_wf]. by rewrite ahead_reading in H.
  - intros ->. destruct u. apply finish_reading.
Qed.

(** Takes the next field off a successful parse [H]; [F] is its format. *)
Tactic Notation "next_field" hyp(H) uconstr(F) "as" simple_intropattern(v) simple_intropattern(tl) simple_intropattern(Hv) :=
  apply (format_bind _ _ _ _ _ _ _ F) in H as (v & tl & Hv & -> & H); [|small_lia].
(** The same on the goal: supplies the field. *)
Tactic Notation "give_field" uconstr(F) constr(v) "before" uconstr(tl) :=
  apply (format_bind _ _ _ _ _ _ _ F); [small_lia|]; exists v, tl; split_and!.
Tactic Notation "give_field" uconstr(F) constr(v) :=
  apply (format_bind _ _ _ _ _ _ _ F); [small_lia|]; exists v; eexists; split_and!; [|reflexivity|].

(** [format_bind] through [?] on a codec error. *)
Lemma format_lift {A B} m enc P (k : A -> Reader.t -> Errors.Result B) pre s x :
  format m enc P -> small (pre ++ s) ->
  (let* '(v, r) := lift_codec (m (reading pre s)) in k v r) = Ok x <->
  exists v tl, P v /\ s = enc v ++ tl /\ k v (reading (pre ++ enc v) tl) = Ok x.
Proof.
  intros Hf Hs. rewrite rbind_ok. split.
  - intros ([v r] & Hm & Hk). apply lift_codec_ok, Hf in Hm as (Hv & tl & -> & ->); [|done]. eauto.
  - intros (v & tl & Hv & -> & Hk). exists (v, reading (pre ++ enc v) tl). split; [|done].
    apply lift_codec_ok, Hf; eauto.
Qed.
Tactic Notation "next_lifted" hyp(H) uconstr(F) "as" simple_intropattern(v) simple_intropattern(tl) simple_intropattern(Hv) :=
  apply (format_lift _ _ _ _ _ _ _ F) in H as (v & tl & Hv & -> & H); [|small_lia].
Tactic Notation "give_lifted" uconstr(F) constr(v) :=
  apply (format_lift _ _ _ _ _ _ _ F); [small_lia|]; exists v; eexists; split_and!; [|reflexivity|].
Tactic Notation "give_lifted" uconstr(F) constr(v) "before" uconstr(tl) :=
  apply (format_lift _ _ _ _ _ _ _ F); [small_lia|]; exists v, tl; split_and!.

(** ** Writing a list of fields *)
Lemma foldM_put {A} (f : Writer.t -> A -> Result Writer.t) (g : A -> list byte) l out pre :
  (forall w x, x ∈ l -> f w x = Writer.put w (g x)) -> small out ->
  len pre + len (l ≫= g) <= len out ->
  foldM f (writing out pre) l = Ok (writing out (pre ++ (l ≫= g))).
Proof.
  intros Hf Hs. revert pre. induction l as [|x l IH]; intros pre Hl.
  - simpl. by rewrite app_nil_r.
  - cbn [foldM]. rewrite Hf by left. rewrite bind_cons in *.
    rewrite len_app in Hl. rewrite put_writing by (done || lia). cbn [rbind].
    rewrite IH; [by rewrite <- app_assoc|intros; apply Hf; by right|len_lia].
Qed.
Lemma len_bind_const {A} (g : A -> list byte) n l :
  (forall x, x ∈ l -> len (g x) = n) -> len (l ≫= g) = n * len l.
Proof.
  induction l as [|x l IH]; intros H; [rewrite (len_nil (A := A)), N.mul_0_r; done|].
  rewrite bind_cons, len_app, len_cons, IH, (H x); [lia|left|].
  intros; apply H; by right.
Qed.
(** * Properties *)

(** a 64-bit varint written anywhere in a buffer with room for it is read back
    as the same value, by a reader that stops where the writer stopped. *)
Theorem var_u64_roundtrip out pre v :
  v < 2 ^ 64 -> small out -> len pre + len (varint64 v) <= len out ->
  exists w, Writer.var_u64 (writing out pre) v = Ok w /\
    Reader.var_u64 (Reader.mk (Writer.bytes w) (len pre)) =
      Ok (v, Reader.mk (Writer.bytes w) (Writer.written w)).
Proof.
  intros Hv Hs Hl. exists (writing out (pre ++ varint64 v)). split; [by apply var_u64_writing|].
  set (s := drop (length (pre ++ varint64 v)) out).
  assert (E : Writer.bytes (writing out (pre ++ varint64 v)) = pre ++ varint64 v ++ s).
  { unfold writing; cbn. by rewrite <- app_assoc. }
  rewrite E. change (Reader.mk _ (len pre)) with (reading pre (varint64 v ++ s)).
  rewrite var_u64_reading; [|done|].
  - unfold reading. by rewrite <- app_assoc.
  - unfold small, s in *. rewrite !len_app, len_drop. unfold len in *; rewrite length_app. lia.
Qed.
Lemma var_u64_roundtrip_witness :
  exists w, Writer.var_u64 (writing (replicate 12 x00) [x07]) 624485 = Ok w /\
    Reader.var_u64 (Reader.mk (Writer.bytes w) 1) = Ok (624485, Reader.mk (Writer.bytes w) (Writer.written w)).
Proof. apply (var_u64_roundtrip (replicate 12 x00) [x07] 624485); vm_compute; done. Defined.

(** the 32-bit varint reader accepts exactly the canonical encodings: it
    returns [v] if and only if the bytes ahead start with the encoding of [v], and
    it then stops right after it. *)
Theorem var_u32_canonical pre s v r' : small (pre ++ s) ->
  Reader.var_u32 (reading pre s) = Ok (v, r') <->
  v < 2 ^ 32 /\ exists tl, s = varint32 v ++ tl /\ r' = reading (pre ++ varint32 v) tl.
Proof. apply var_u32_format. Qed.
Lemma var_u32_canonical_witness :
  Reader.var_u32 (reading [x01] [xac; x02; xff]) = Ok (300, reading [x01; xac; x02] [xff]).
Proof.
  apply (var_u32_canonical [x01] [xac; x02; xff] 300); [vm_compute; done|].
  split; [done|]. exists [xff]. split; vm_compute; reflexivity.
Defined.

(** [var_u32_len] is the exact size of the encoding, at most five bytes; the
    encoders size their output with it. *)
Theorem var_u32_len_exact v : v < 2 ^ 32 ->
  Writer.var_bytes (E := Codec.Error) 5 v = Ok (varint32 v) /\
  len (varint32 v) = var_u32_len v /\ 1 <= var_u32_len v <= 5.
Proof.
  intros Hv. rewrite var_u32_len_varint by done. split_and!; [|done|..].
  - apply var_bytes_ok; [lia|auto with pin].
  - apply varint_len; [lia|auto with pin].
  - apply (varint_len 5); [lia|auto with pin].
Qed.
Lemma var_u32_len_exact_witness : var_u32_len 300 = 2 /\ 1 <= var_u32_len (2 ^ 32 - 1) <= 5.
Proof. split; [done|]. apply (var_u32_len_exact (2 ^ 32 - 1)). done. Defined.
