(* ===== verification/Budget.v ===== *)
(** Memory and work accounting: [src/crates/pin-core/src/budget.rs] and
    [src/crates/pin-core/src/memory.rs].

    [MemoryBudget] counts bytes against a fixed limit; an operation returns the new
    counter together with its result, so that a failure's effect on the counter is
    part of the model.  [Vec] is a vector with its capacity; the allocator is the
    parameter [grow] (the capacity [try_reserve_exact] ends with, or a failure).
    The theorems: no sequence of operations breaks [used <= peak <= limit], failures
    are atomic, and [reserve] charges exactly the capacity it adds. *)
From S2P Require Export Errors.

Record MemoryBudget : Type := mkBudget { limit : N; used : N; peak : N }.

(** [MemoryBudget::new], [remaining] *)
Definition budget_new (limit : N) : MemoryBudget := mkBudget limit 0 0.
Definition remaining (b : MemoryBudget) : N := limit b - used b.

(** [MemoryBudget::charge] *)
Definition charge (self : MemoryBudget) (bytes : N) : MemoryBudget * res BudgetError unit :=
  match checked_add usize (used self) bytes with
  | None => (self, Err ArithmeticOverflow)
  | Some next =>
      if limit self <? next then (self, Err LimitExceeded)
      else (mkBudget (limit self) next (N.max (peak self) next), Ok tt)
  end.

(** [MemoryBudget::charge_array], [size] being [size_of::<T>()]. *)
Definition charge_array (size : N) (self : MemoryBudget) (count : N)
  : MemoryBudget * res BudgetError unit :=
  match checked_mul usize count size with
  | None => (self, Err ArithmeticOverflow)
  | Some bytes => charge self bytes
  end.

(** [MemoryBudget::release] *)
Definition release (self : MemoryBudget) (bytes : N) : MemoryBudget * res BudgetError unit :=
  match checked_sub (used self) bytes with
  | None => (self, Err InvalidRelease)
  | Some next => (mkBudget (limit self) next (peak self), Ok tt)
  end.

(** [budget.op(..)?] inside an engine function. *)
Definition try_budget (m : MemoryBudget * res BudgetError unit) : Result MemoryBudget :=
  let* _ := lift_budget (snd m) in Ok (fst m).

(** [Vec<T>]: the elements and the allocated capacity. *)
Record Vec (A : Type) : Type := mkVec { items : list A; capacity : N }.
Arguments mkVec {A}.
Arguments items {A}.
Arguments capacity {A}.
Definition vec_new {A} : Vec A := mkVec [] 0.
(** [Vec::push] and [extend_from_slice] within the capacity reserved before. *)
Definition vec_push {A} (v : Vec A) (x : A) : Vec A := mkVec (items v ++ [x]) (capacity v).
Definition vec_extend {A} (v : Vec A) (l : list A) : Vec A := mkVec (items v ++ l) (capacity v).

Section Memory.
(** The allocator: the capacity obtained when at least [n] elements are asked for. *)
Context (grow : N -> option N).

(** [memory::reserve] *)
Definition reserve {A} (size : N) (values : Vec A) (additional lim : N) (budget : MemoryBudget)
  : Result (Vec A * MemoryBudget) :=
  let* required := ok_or (checked_add usize (len (items values)) additional) (Limit "element count") in
  if lim <? required then Err (Limit "element count") else
  let old := capacity values in
  if required <=? old then Ok (values, budget) else
  let target := N.min (N.max (saturating_mul usize old 2) required) lim in
  (* both candidates exceed [old], so the closure's subtraction cannot wrap *)
  let over capacity :=
    match checked_mul usize (capacity - old) size with
    | None => true
    | Some n => remaining budget <? n
    end in
  let target := if over target then required else target in
  if over target then Err (FromBudget LimitExceeded) else
  let* obtained := ok_or (grow target) Allocation in
  let* budget := try_budget (charge_array size budget (obtained - old)) in
  Ok (mkVec (items values) obtained, budget).

(** [memory::vector] *)
Definition vector {A} (size capacity : N) (budget : MemoryBudget) : Result (Vec A * MemoryBudget) :=
  reserve size vec_new capacity capacity budget.

(** [memory::release] *)
Definition release_vec {A} (size : N) (values : Vec A) (budget : MemoryBudget) : Result MemoryBudget :=
  let* bytes := ok_or (checked_mul usize (capacity values) size) (Limit "allocation bytes") in
  try_budget (release budget bytes).

(** [memory::copy_text]: the copied bytes of a [str] are valid UTF-8. *)
Definition copy_text (text : list byte) (budget : MemoryBudget) : Result (Vec byte * MemoryBudget) :=
  let* '(bytes, budget) := vector 1 (len text) budget in
  let bytes := vec_extend bytes text in
  if utf8_valid (items bytes) then Ok (bytes, budget) else Err InvalidDocument.
End Memory.

(** [memory::Work] *)
Definition Work : Type := N.
Definition work_charge (self : Work) (units : N) : Result Work :=
  ok_or (checked_sub self units) (Limit "search work").

(** ** Invariant of the counter *)
Definition budget_wf (b : MemoryBudget) : Prop :=
  used b <= peak b /\ peak b <= limit b /\ limit b < 2 ^ usize.

(** The operations as data, and a run that ignores results the way a caller that
    handles errors may. *)
Inductive BudgetOp : Type :=
| Charge (bytes : N)
| ChargeArray (size count : N)
| Release (bytes : N).
Definition budget_step (b : MemoryBudget) (op : BudgetOp) : MemoryBudget * res BudgetError unit :=
  match op with
  | Charge n => charge b n
  | ChargeArray size n => charge_array size b n
  | Release n => release b n
  end.
Definition budget_run (b : MemoryBudget) (ops : list BudgetOp) : MemoryBudget :=
  foldl (fun b op => fst (budget_step b op)) b ops.

Lemma charge_cases b n :
  (exists next, next = used b + n /\ next < 2 ^ usize /\ next <= limit b /\
     charge b n = (mkBudget (limit b) next (N.max (peak b) next), Ok tt)) \/
  (exists e, charge b n = (b, Err e) /\ (limit b < used b + n \/ 2 ^ usize <= used b + n)).
Proof.
  unfold charge. destruct (checked_add usize (used b) n) as [next|] eqn:E.
  - apply checked_add_some in E as [-> ?]. destruct (N.ltb_spec (limit b) (used b + n)).
    + right. eexists. split; [done|]. by left.
    + left. eexists. split_and!; done || lia.
  - right. apply checked_add_none in E. eexists. split; [done|]. by right.
Qed.
Lemma charge_array_cases size b n :
  charge_array size b n = charge b (n * size) \/
  (charge_array size b n = (b, Err ArithmeticOverflow) /\ 2 ^ usize <= n * size).
Proof.
  unfold charge_array. destruct (checked_mul usize n size) as [m|] eqn:E.
  - apply checked_mul_some in E as [-> _]. by left.
  - right. split; [done|]. unfold checked_mul in E. destruct (N.ltb_spec (n * size) (2 ^ usize)); done.
Qed.
Lemma budget_step_wf b op : budget_wf b ->
  budget_wf (fst (budget_step b op)) /\ limit (fst (budget_step b op)) = limit b /\
  peak b <= peak (fst (budget_step b op)) /\
  (forall e, snd (budget_step b op) = Err e -> fst (budget_step b op) = b) /\
  safe (snd (budget_step b op)).
Proof.
  intros Hwf. assert (Hc : forall n, budget_wf (fst (charge b n)) /\ limit (fst (charge b n)) = limit b /\
    peak b <= peak (fst (charge b n)) /\
    (forall e, snd (charge b n) = Err e -> fst (charge b n) = b) /\ safe (snd (charge b n))).
  { intros n. destruct Hwf as (? & ? & ?).
    destruct (charge_cases b n) as [(next & -> & ? & ? & ->)|(e & -> & _)];
      unfold budget_wf; cbn; split_and!; done || lia. }
  destruct op as [n|size n|n]; cbn [budget_step]; [done| |].
  - destruct (charge_array_cases size b n) as [->|[-> _]]; [done|]. cbn. split_and!; done || lia.
  - unfold release. destruct (checked_sub (used b) n) eqn:E; cbn.
    + apply checked_sub_some in E as [-> ?]. unfold budget_wf in *; cbn. split_and!; done || lia.
    + split_and!; done || lia.
Qed.

(** The counter before and after every operation of a run. *)
Fixpoint budget_states (b : MemoryBudget) (ops : list BudgetOp) : list MemoryBudget :=
  b :: match ops with [] => [] | op :: ops => budget_states (fst (budget_step b op)) ops end.
Lemma budget_peak b ops : budget_wf b -> peak (budget_run b ops) = N.max (peak b) (foldr N.max 0 (used <$> budget_states b ops)).
Proof.
  revert b. induction ops as [|op ops IH]; intros b Hwf.
  - cbn. unfold budget_wf in Hwf. lia.
  - pose proof (budget_step_wf b op Hwf) as (Hwf' & _ & _). change (budget_run b (op :: ops)) with (budget_run (fst (budget_step b op)) ops).
    rewrite (IH _ Hwf'). cbn [budget_states fmap list_fmap foldr].
    assert (Hp : peak (fst (budget_step b op)) = N.max (peak b) (used (fst (budget_step b op))) ).
    { destruct Hwf as (? & ? & ?). assert (Hc : forall n, peak (fst (charge b n)) = N.max (peak b) (used (fst (charge b n)))).
      { intros n. destruct (charge_cases b n) as [(? & -> & ? & ? & ->)|(e & -> & ?)]; cbn; lia. }
      destruct op as [n|size n|n]; cbn [budget_step]; [apply Hc| |].
      - destruct (charge_array_cases size b n) as [->|[-> ?]]; [apply Hc|]. cbn. lia.
      - unfold release. destruct (checked_sub (used b) n) eqn:E; cbn; [apply checked_sub_some in E|]; lia. }
    rewrite Hp. destruct ops; cbn [budget_states fmap list_fmap foldr]; unfold budget_wf in *; lia.
Qed.
(** whatever sequence of charges and releases runs, successful or not, the counter
    stays within its limit, which never changes, and the peak is the largest total that
    was reached. *)
Theorem budget_run_invariant lim ops : lim < 2 ^ usize ->
  let b := budget_run (budget_new lim) ops in
  used b <= peak b <= lim /\ limit b = lim /\ used b + remaining b = lim /\
  peak b = foldr N.max 0 (used <$> budget_states (budget_new lim) ops).
Proof.
  intros Hl. assert (H0 : budget_wf (budget_new lim)) by (unfold budget_wf; cbn; lia).
  assert (H : budget_wf (budget_run (budget_new lim) ops) /\ limit (budget_run (budget_new lim) ops) = lim).
  { change lim with (limit (budget_new lim)) at 3. revert H0. generalize (budget_new lim) as b. clear.
    induction ops as [|op ops IH]; intros b Hwf; [done|]. cbn.
    destruct (budget_step_wf b op Hwf) as (? & <- & _). by apply IH. }
  cbn zeta. pose proof (budget_peak _ ops H0) as Hp. cbn [peak budget_new] in Hp. unfold remaining. unfold budget_wf in H. lia.
Qed.
Lemma budget_run_invariant_witness :
  used (budget_run (budget_new 64) [ChargeArray 8 8; Charge 1; Release 65; Release 64; Charge 7]) = 7 /\
  peak (budget_run (budget_new 64) [ChargeArray 8 8; Charge 1; Release 65; Release 64; Charge 7]) = 64.
Proof. split; [done|]. destruct (budget_run_invariant 64 [ChargeArray 8 8; Charge 1; Release 65; Release 64; Charge 7] eq_refl) as (_ & _ & _ & H). exact H. Defined.

(** a rejected accounting operation changes nothing, and the error says why:
    a charge fails exactly when the total would overflow or exceed the limit, a
    release exactly when it exceeds the current total. *)
Theorem budget_failure_atomic b op : budget_wf b ->
  (forall e, snd (budget_step b op) = Err e -> fst (budget_step b op) = b) /\
  (snd (budget_step b op) = Ok tt <->
   match op with
   | Charge n => used b + n <= limit b
   | ChargeArray size n => used b + n * size <= limit b
   | Release n => n <= used b
   end).
Proof.
  intros Hwf. split; [apply budget_step_wf, Hwf|]. destruct Hwf as (? & ? & ?).
  assert (Hc : forall n, snd (charge b n) = Ok tt <-> used b + n <= limit b).
  { intros n. destruct (charge_cases b n) as [(? & -> & ? & ? & ->)|(e & -> & ?)]; cbn; split; done || lia. }
  destruct op as [n|size n|n]; cbn [budget_step]; [done| |].
  - destruct (charge_array_cases size b n) as [->|[-> ?]]; [done|]. cbn. split; [done|lia].
  - unfold release. destruct (checked_sub (used b) n) eqn:E; cbn.
    + apply checked_sub_some in E. naive_solver.
    + apply checked_sub_none in E. split; [done|lia].
Qed.
Lemma budget_failure_atomic_witness :
  snd (budget_step (mkBudget 64 64 64) (Charge 1)) = Err LimitExceeded /\
  fst (budget_step (mkBudget 64 64 64) (Charge 1)) = mkBudget 64 64 64.
Proof.
  split; [done|]. apply (proj1 (budget_failure_atomic (mkBudget 64 64 64) (Charge 1) ltac:(split_and!; done))) with LimitExceeded.
  done.
Defined.

Lemma try_budget_ok m b : try_budget m = Ok b <-> snd m = Ok tt /\ b = fst m.
Proof. unfold try_budget, lift_budget. destruct m as [b' [[]|e|]]; naive_solver. Qed.
Lemma try_budget_safe m : safe (snd m) -> safe (try_budget m).
Proof. intros. unfold try_budget, lift_budget. repeat safe_step. Qed.
Lemma charge_array_ok size b n b' : budget_wf b -> try_budget (charge_array size b n) = Ok b' ->
  budget_wf b' /\ limit b' = limit b /\ used b' = used b + n * size /\ peak b <= peak b'.
Proof.
  intros Hwf [H ->]%try_budget_ok.
  destruct (charge_array_cases size b n) as [E|[E _]]; rewrite E in *; [|done].
  destruct Hwf as (? & ? & ?). destruct (charge_cases b (n * size)) as [(? & -> & ? & ? & E')|(e & E' & _)];
    rewrite E' in *; [|done]. unfold budget_wf; cbn. split_and!; lia || done.
Qed.
Lemma charge_array_safe size b n : budget_wf b -> safe (try_budget (charge_array size b n)).
Proof. intros. apply try_budget_safe, (budget_step_wf b (ChargeArray size n)); done. Qed.

Lemma charge_ok b n b' : budget_wf b -> try_budget (charge b n) = Ok b' ->
  budget_wf b' /\ limit b' = limit b /\ used b' = used b + n.
Proof.
  intros Hwf [H ->]%try_budget_ok. destruct Hwf as (? & ? & ?).
  destruct (charge_cases b n) as [(? & -> & ? & ? & E')|(e & E' & _)]; rewrite E' in *; [|done].
  unfold budget_wf; cbn. split_and!; lia || done.
Qed.
Lemma charge_safe b n : budget_wf b -> safe (try_budget (charge b n)).
Proof. intros. apply try_budget_safe, (budget_step_wf b (Charge n)); done. Qed.
Lemma release_ok b n : budget_wf b -> n <= used b ->
  exists b', try_budget (release b n) = Ok b' /\ budget_wf b' /\ limit b' = limit b /\ used b' + n = used b.
Proof.
  intros (? & ? & ?) Hn. unfold try_budget, release. rewrite checked_sub_fits by lia. cbn.
  eexists. split; [done|]. unfold budget_wf; cbn. lia.
Qed.

Definition vec_wf {A} (v : Vec A) : Prop := len (items v) <= capacity v.

Section MemoryLemmas.
Context (grow : N -> option N).
(** [try_reserve_exact]: "capacity will be greater than or equal to
    [self.len() + additional] if it returns [Ok(())]". *)
Hypothesis grow_ge : forall n c, grow n = Some c -> n <= c.

Lemma reserve_safe {A} size (v : Vec A) additional lim b :
  budget_wf b -> safe (reserve grow size v additional lim b).
Proof.
  intros Hwf. unfold reserve. apply safe_bind; [auto with pin|]. intros required _.
  cbn zeta. repeat (apply safe_if; intros _; [done|]).
  apply safe_bind; [auto with pin|]. intros obtained _.
  apply safe_bind; [by apply charge_array_safe|]. done.
Qed.

Lemma reserve_ok {A} size (v : Vec A) additional lim b v' b' :
  budget_wf b -> reserve grow size v additional lim b = Ok (v', b') ->
  items v' = items v /\ len (items v) + additional <= capacity v' /\ capacity v <= capacity v' /\
  len (items v) + additional <= lim /\
  used b' = used b + (capacity v' - capacity v) * size /\ limit b' = limit b /\ budget_wf b' /\
  peak b <= peak b'.
Proof.
  intros Hwf H. unfold reserve in H. apply rbind_ok in H as (required & Hr & H).
  apply ok_or_ok, checked_add_some in Hr as [-> _]. cbn zeta in H.
  apply if_err_ok in H as [Hlim H]. apply N.ltb_ge in Hlim.
  destruct (N.leb_spec (len (items v) + additional) (capacity v)) as [|Hgt].
  { inv_ok. split_and!; done || lia. }
  set (first := N.min _ _) in H.
  destruct (match checked_mul usize (first - capacity v) size with Some n => remaining b <? n | None => true end);
    cbv match in H; apply if_err_ok in H as [_ H]; apply rbind_ok in H as (obtained & Ho & H);
    apply ok_or_ok, grow_ge in Ho; apply rbind_ok in H as (b1 & Hb & H); inv_ok;
    apply charge_array_ok in Hb as (? & ? & ? & ?); try done; cbn [items capacity]; unfold first in *;
    split_and!; done || lia.
Qed.
End MemoryLemmas.

(** A fresh vector that fits the budget is allocated. *)
Lemma vector_fits {A} (grow : N -> option N) size n lim :
  grow n = Some n -> n * size <= lim -> n < 2 ^ usize -> lim < 2 ^ usize ->
  exists x, vector (A := A) grow size n (budget_new lim) = Ok x.
Proof.
  intros Hg Hn Hw Hl. unfold vector, reserve. cbn [vec_new items capacity]. rewrite len_nil.
  rewrite checked_add_fits by lia. cbn [ok_or rbind]. rewrite N.add_0_l, N.ltb_irrefl.
  destruct (N.leb_spec n 0); [by eexists|]. cbv zeta.
  replace (N.min (N.max (saturating_mul usize 0 2) n) n) with n by (unfold saturating_mul; lia).
  rewrite !N.sub_0_r, (checked_mul_fits usize n size) by lia.
  unfold remaining, budget_new. cbn [limit used]. rewrite N.sub_0_r, (proj2 (N.ltb_ge _ _)) by done.
  rewrite (checked_mul_fits usize n size), (proj2 (N.ltb_ge _ _)) by lia.
  rewrite Hg. cbn [ok_or rbind]. unfold try_budget, charge_array. rewrite N.sub_0_r, checked_mul_fits by lia.
  unfold charge. cbn [limit used]. rewrite checked_add_fits by lia. rewrite (proj2 (N.ltb_ge _ _)) by lia. by eexists.
Qed.

(** growing a vector keeps its elements, leaves room for the elements asked for,
    never exceeds the element limit and charges the budget for exactly the capacity
    added; the charge is within the limit, and no input makes it panic. *)
Theorem reserve_accounts {A} grow size (v : Vec A) additional lim b :
  (forall n c, grow n = Some c -> n <= c) -> budget_wf b ->
  safe (reserve grow size v additional lim b) /\
  forall v' b', reserve grow size v additional lim b = Ok (v', b') ->
    items v' = items v /\ len (items v) + additional <= capacity v' /\
    len (items v) + additional <= lim /\
    used b' = used b + (capacity v' - capacity v) * size /\ used b' <= limit b.
Proof.
  intros Hg Hwf. split; [by apply reserve_safe|]. intros v' b' H.
  apply reserve_ok in H as (? & ? & ? & ? & ? & ? & (? & ? & ?) & ?); [|done..].
  split_and!; done || lia.
Qed.
Lemma reserve_accounts_witness :
  reserve Some 8 (mkVec [1] 1) 1 100 (budget_new 64) = Ok (mkVec [1] 2, mkBudget 64 8 8) /\
  items (mkVec [1] 2) = [1] /\ used (mkBudget 64 8 8) <= 64.
Proof.
  assert (H : reserve Some 8 (mkVec [1] 1) 1 100 (budget_new 64) = Ok (mkVec [1] 2, mkBudget 64 8 8)) by done.
  destruct (reserve_accounts Some 8 (mkVec [1] 1) 1 100 (budget_new 64)) as [_ Hs];
    [intros n c [=]; lia|split_and!; done|].
  split; [done|]. destruct (Hs _ _ H) as (? & _ & _ & _ & ?). done.
Defined.

(** a scratch vector that is allocated, filled within its capacity and released
    gives back exactly what it charged: the counter returns to its previous total and
    only the peak remembers it. *)
Theorem scratch_roundtrip {A} grow size cap b (v : Vec A) b1 l :
  (forall n c, grow n = Some c -> n <= c) -> budget_wf b -> size < 2 ^ usize ->
  vector grow size cap b = Ok (v, b1) ->
  exists b2, release_vec size (vec_extend v l) b1 = Ok b2 /\
    used b2 = used b /\ limit b2 = limit b /\ peak b <= peak b2.
Proof.
  intros Hg Hwf Hsz H. unfold vector in H.
  apply reserve_ok in H as (_ & _ & _ & _ & Hu & Hl & (? & ? & ?) & Hp); [|done..].
  cbn [vec_new capacity] in Hu. rewrite N.sub_0_r in Hu.
  unfold release_vec, vec_extend; cbn [capacity].
  rewrite checked_mul_fits by lia. cbn [ok_or rbind].
  unfold try_budget, release. rewrite checked_sub_fits by lia. cbn.
  eexists. split; [done|]. cbn. split_and!; lia.
Qed.
Lemma scratch_roundtrip_witness :
  exists b2, release_vec 8 (vec_extend (mkVec [] 16) [1; 2]) (mkBudget 4096 128 128) = Ok b2 /\
    used b2 = 0 /\ limit b2 = 4096 /\ 0 <= peak b2.
Proof.
  apply (scratch_roundtrip Some 8 16 (budget_new 4096) (mkVec [] 16) (mkBudget 4096 128 128) [1; 2]).
  - intros n c [=]; lia.
  - by split_and!.
  - done.
  - vm_compute. reflexivity.
Defined.
