(* ===== verification/Kernels.v ===== *)
(** Bitmap kernels: the crate [src/crates/pin-kernels] ([src/lib.rs],
    [src/scalar.rs], [src/x86_avx2.rs], [src/grouped.rs]).

    [combine] dispatches word-wise set operations to a portable or a 256-bit
    backend; the latter is modelled on 256-bit integers with its three intrinsics.
    [grouped.rs] computes candidate pages and live offsets, and [Pages] iterates a
    page mask.  The theorems: both backends compute the same words, the operations
    are the set operations bit by bit, and [Pages] yields exactly the set bits in
    ascending order. *)
From S2P Require Export Words.

Inductive CpuMode : Type := Scalar | Auto | Avx2.
Inductive BitmapOp : Type := Intersection | Union | Difference.
Inductive KernelError : Type := UnsupportedCpu | LengthMismatch.
Inductive Backend : Type := ScalarBackend | Avx2Backend.
#[export] Instance CpuMode_eq_dec : EqDecision CpuMode.
Proof. solve_decision. Defined.

(** [Kernels { backend }] *)
Record Kernels : Type := mkKernels { backend : Backend }.
Definition kernels_scalar : Kernels := mkKernels ScalarBackend.

(** [Kernels::select]; [detected] is the answer of the runtime feature test. *)
Definition kernels_select (detected : bool) (mode : CpuMode) : res KernelError Kernels :=
  if bool_decide (mode = Scalar) then Ok kernels_scalar
  else if detected then Ok (mkKernels Avx2Backend)
  else if bool_decide (mode = Avx2) then Err UnsupportedCpu
  else Ok kernels_scalar.

(** [Kernels::mode] *)
Definition kernels_mode (k : Kernels) : CpuMode :=
  match backend k with ScalarBackend => Scalar | Avx2Backend => Avx2 end.

(** [scalar::combine::<UNION, DIFFERENCE>] *)
Fixpoint scalar_combine (union difference : bool) (left right output : list N) : list N :=
  match left, right, output with
  | l :: left', r :: right', _ :: output' =>
      (if union then N.lor l r else if difference then N.land l (not_w 64 r) else N.land l r)
      :: scalar_combine union difference left' right' output'
  | _, _, _ => output
  end.

(** [_mm256_loadu_si256] and [_mm256_storeu_si256] on four little-endian words. *)
Definition loadu (c : list N) : N := foldr (fun w v => w + 2 ^ 64 * v) 0 c.
Fixpoint storeu (n : nat) (v : N) : list N :=
  match n with O => [] | S n' => v mod 2 ^ 64 :: storeu n' (v / 2 ^ 64) end.
(** [_mm256_andnot_si256(a, b)] is [!a & b]. *)
Definition andnot256 (a b : N) : N := N.land (not_w 256 a) b.

(** [as_chunks::<4>] and [x86_avx2::combine]: whole chunks, then the scalar tail. *)
Fixpoint avx2_chunks (chunks : nat) (union difference : bool) (left right output : list N) : list N :=
  match chunks with
  | O => scalar_combine union difference left right output
  | S chunks' =>
      let l := loadu (take 4 left) in
      let r := loadu (take 4 right) in
      let value :=
        if union then N.lor l r else if difference then andnot256 r l else N.land l r in
      storeu 4 value ++ avx2_chunks chunks' union difference (drop 4 left) (drop 4 right) (drop 4 output)
  end.
Definition avx2_combine (union difference : bool) (left right output : list N) : list N :=
  avx2_chunks (length left / 4) union difference left right output.

(** [Kernels::apply] and [Kernels::combine] *)
Definition kernels_apply (k : Kernels) (union difference : bool) (left right output : list N) : list N :=
  match backend k with
  | ScalarBackend => scalar_combine union difference left right output
  | Avx2Backend => avx2_combine union difference left right output
  end.
Definition kernels_combine (k : Kernels) (operation : BitmapOp) (left right output : list N)
  : res KernelError (list N) :=
  if negb (len left =? len right) || negb (len left =? len output) then Err LengthMismatch
  else Ok match operation with
    | Intersection => kernels_apply k false false left right output
    | Union => kernels_apply k true false left right output
    | Difference => kernels_apply k false true left right output
    end.

(** ** [grouped.rs] *)

(** [PageMask = [u64; 4]], [OffsetMask = [u64; 8]] *)
Definition PAGE_WORDS : nat := 4.
Definition OFFSET_WORDS : nat := 8.

(** [grouped::candidates] *)
Definition candidates (operation : BitmapOp) (left right live : list N) : list N :=
  from_fn PAGE_WORDS (fun index =>
    let value :=
      match operation with
      | Intersection => N.land (word left index) (word right index)
      | Union => N.lor (word left index) (word right index)
      | Difference => word left index
      end in
    N.land value (word live index)).

(** [grouped::offsets] *)
Definition offsets (operation : BitmapOp) (left right live : list N) : list N :=
  from_fn OFFSET_WORDS (fun index =>
    let value :=
      match operation with
      | Intersection => N.land (word left index) (word right index)
      | Union => N.lor (word left index) (word right index)
      | Difference => N.land (word left index) (not_w 64 (word right index))
      end in
    N.land value (word live index)).

(** [Pages] and its [Iterator::next]; [fuel] counts words, of which there are four. *)
Record Pages : Type := mkPages { mask : list N; page_word : nat }.
Definition Pages_new (mask : list N) : Pages := mkPages mask 0.
Fixpoint Pages_scan (fuel : nat) (self : Pages) : option N * Pages :=
  match fuel with
  | O => (None, self)
  | S fuel' =>
      if (page_word self <? PAGE_WORDS)%nat then
        let pending := word (mask self) (page_word self) in
        if negb (pending =? 0) then
          let bit := trailing_zeros pending in
          (Some (trunc 8 (N.of_nat (page_word self) * 64 + bit)),
           mkPages (<[page_word self := clear_lowest pending]> (mask self)) (page_word self))
        else Pages_scan fuel' (mkPages (mask self) (S (page_word self)))
      else (None, self)
  end.
Definition Pages_next (self : Pages) : option N * Pages := Pages_scan (S PAGE_WORDS) self.

(** [for page in Pages::new(mask)]: the values of the iterator until it ends. *)
Fixpoint Pages_collect (fuel : nat) (self : Pages) : list N :=
  match fuel with
  | O => []
  | S fuel' =>
      match Pages_next self with
      | (Some page, self') => page :: Pages_collect fuel' self'
      | (None, _) => []
      end
  end.
(** A page mask has at most 256 set bits. *)
Definition pages (mask : list N) : list N := Pages_collect 257 (Pages_new mask).

(** * Lemmas *)

(** The word function of an operation, and its bits. *)
Definition op_word (union difference : bool) (l r : N) : N :=
  if union then N.lor l r else if difference then N.land l (not_w 64 r) else N.land l r.
Definition op_flags (operation : BitmapOp) : bool * bool :=
  match operation with Intersection => (false, false) | Union => (true, false) | Difference => (false, true) end.
Definition op_bit (operation : BitmapOp) (l r : bool) : bool :=
  match operation with Intersection => l && r | Union => l || r | Difference => l && negb r end.

Lemma op_word_wf union difference l r : word_wf l -> word_wf r -> word_wf (op_word union difference l r).
Proof.
  intros. unfold op_word, word_wf. destruct union; [by apply lor_lt_pow2|].
  destruct difference; by apply land_lt_pow2.
Qed.
Lemma op_word_bit operation l r i : i < 64 ->
  N.testbit (op_word (op_flags operation).1 (op_flags operation).2 l r) i
    = op_bit operation (N.testbit l i) (N.testbit r i).
Proof.
  intros. destruct operation; simpl; unfold op_word; [apply N.land_spec|apply N.lor_spec|].
  by apply and_not_testbit.
Qed.

Lemma scalar_combine_zip union difference left right output :
  length left = length right -> length left = length output ->
  scalar_combine union difference left right output = zip_with (op_word union difference) left right.
Proof.
  revert right output. induction left as [|l left IH]; intros [|r right] [|o output] H1 H2;
    simpl in *; try done. by rewrite IH by lia.
Qed.

(** Loading and storing four words keeps their bits. *)
Lemma split_bit w v i : word_wf w ->
  N.testbit (w + 2 ^ 64 * v) i = if i <? 64 then N.testbit w i else N.testbit v (i - 64).
Proof.
  intros Hw. rewrite (N.mul_comm (2 ^ 64)), N.add_comm, <- lor_shiftl_add by done.
  rewrite N.lor_spec. destruct (N.ltb_spec i 64).
  - by rewrite N.shiftl_spec_low.
  - by rewrite N.shiftl_spec_high', (testbit_high w 64), orb_false_r by (done || lia).
Qed.
Lemma mask_bit_cons w l i :
  mask_bit (w :: l) i = if i <? 64 then N.testbit w i else mask_bit l (i - 64).
Proof.
  destruct (N.ltb_spec i 64); [by apply mask_bit_cons_low|].
  rewrite <- (mask_bit_cons_high w l). by replace (i - 64 + 64) with i by lia.
Qed.
Lemma loadu_bit l i : Forall word_wf l -> N.testbit (loadu l) i = mask_bit l i.
Proof.
  intros H; revert i. induction H as [|w l Hw _ IH]; intros i.
  - cbn [loadu foldr]. unfold mask_bit. by rewrite lookup_nil, !N.bits_0.
  - cbn [loadu foldr]. fold (loadu l). by rewrite split_bit, mask_bit_cons, IH.
Qed.
Lemma storeu_bits l x : Forall word_wf l ->
  (forall i, i < 64 * len l -> N.testbit x i = mask_bit l i) -> storeu (length l) x = l.
Proof.
  intros H; revert x. induction H as [|w l Hw _ IH]; intros x Hx; [done|].
  rewrite len_cons in Hx. cbn [length storeu]. f_equal.
  - apply N.bits_inj. intros i. destruct (decide (i < 64)).
    + by rewrite N.mod_pow2_bits_low, Hx, mask_bit_cons_low by lia.
    + by rewrite N.mod_pow2_bits_high, (testbit_high w 64) by (done || lia).
  - apply IH. intros i ?. rewrite N.div_pow2_bits, Hx by lia. by rewrite mask_bit_cons_high.
Qed.

(** One 256-bit step computes four scalar steps. *)
Lemma avx2_step operation l r :
  length l = 4%nat -> length r = 4%nat -> Forall word_wf l -> Forall word_wf r ->
  let '(union, difference) := op_flags operation in
  storeu 4 (if union then N.lor (loadu l) (loadu r)
            else if difference then andnot256 (loadu r) (loadu l) else N.land (loadu l) (loadu r))
    = zip_with (op_word union difference) l r.
Proof.
  intros Hl Hr Fl Fr. destruct (op_flags operation) as [union difference] eqn:E.
  assert (Hz : mask_wf 4 (zip_with (op_word union difference) l r)).
  { apply mask_wf_zip; [by split..|]. intros; by apply op_word_wf. }
  destruct Hz as [Lz Fz]. rewrite <- Lz at 1. apply storeu_bits; [done|].
  replace (len _) with 4 by (unfold len; by rewrite Lz). intros i Hi.
  assert (64 * len l = 256) by (unfold len; by rewrite Hl).
  rewrite (mask_bit_zip _ (op_bit operation)); [|congruence| |lia].
  - destruct operation; simpl in E; simplify_eq; simpl.
    + by rewrite N.land_spec, !loadu_bit.
    + by rewrite N.lor_spec, !loadu_bit.
    + unfold andnot256. rewrite N.land_comm, and_not_testbit by lia. by rewrite !loadu_bit.
  - intros x y j Hj. replace union with (op_flags operation).1 by by rewrite E.
    replace difference with (op_flags operation).2 by by rewrite E. by apply op_word_bit.
Qed.

Lemma avx2_chunks_zip operation chunks left right output :
  (chunks * 4 <= length left)%nat ->
  length left = length right -> length left = length output ->
  Forall word_wf left -> Forall word_wf right ->
  let '(union, difference) := op_flags operation in
  avx2_chunks chunks union difference left right output = zip_with (op_word union difference) left right.
Proof.
  revert left right output. induction chunks as [|chunks IH]; intros left right output H H1 H2 F1 F2;
    destruct (op_flags operation) as [union difference] eqn:E.
  - by apply scalar_combine_zip.
  - cbn [avx2_chunks].
    transitivity (zip_with (op_word union difference) (take 4 left) (take 4 right) ++
                  zip_with (op_word union difference) (drop 4 left) (drop 4 right)).
    2:{ rewrite <- zip_with_app by (rewrite !length_take; lia). by rewrite !take_drop. }
    pose proof (avx2_step operation (take 4 left) (take 4 right)) as Hs. rewrite E in Hs. rewrite Hs.
    + f_equal. specialize (IH (drop 4 left) (drop 4 right) (drop 4 output)).
      apply IH; rewrite ?length_drop; try lia; by apply Forall_drop.
    + rewrite length_take; lia.
    + rewrite length_take; lia.
    + by apply Forall_take.
    + by apply Forall_take.
Qed.

Lemma kernels_combine_zip k operation left right output :
  length left = length right -> length left = length output ->
  Forall word_wf left -> Forall word_wf right ->
  kernels_combine k operation left right output =
    Ok (zip_with (op_word (op_flags operation).1 (op_flags operation).2) left right).
Proof.
  intros H1 H2 F1 F2. unfold kernels_combine, len. rewrite <- H1, <- H2, N.eqb_refl. simpl.
  pose proof (avx2_chunks_zip operation (length left / 4) left right output) as Hc.
  f_equal. destruct k as [[]], operation; unfold kernels_apply; cbn [backend op_flags fst snd] in *;
    first [by apply scalar_combine_zip
          |unfold avx2_combine; apply Hc; try done; rewrite Nat.mul_comm; by apply Nat.Div0.mul_div_le].
Qed.

(** ** Candidate masks *)
Lemma candidates_wf operation left right live :
  mask_wf PAGE_WORDS live -> mask_wf PAGE_WORDS (candidates operation left right live).
Proof.
  intros H. apply from_fn_wf. intros i _. unfold word_wf. rewrite N.land_comm.
  apply land_lt_pow2. by eapply word_wf_lookup.
Qed.
Lemma offsets_wf operation left right live :
  mask_wf OFFSET_WORDS live -> mask_wf OFFSET_WORDS (offsets operation left right live).
Proof.
  intros H. apply from_fn_wf. intros i _. unfold word_wf. rewrite N.land_comm.
  apply land_lt_pow2. by eapply word_wf_lookup.
Qed.
Lemma offsets_bit operation left right live i : i < 512 ->
  mask_bit (offsets operation left right live) i =
    op_bit operation (mask_bit left i) (mask_bit right i) && mask_bit live i.
Proof.
  intros. unfold offsets. rewrite from_fn_bit by done. rewrite N.land_spec, word_bit. f_equal.
  pose proof (mod_64 i). destruct operation;
    [rewrite N.land_spec|rewrite N.lor_spec|rewrite and_not_testbit by done]; by rewrite !word_bit.
Qed.
Lemma candidates_bit operation left right live i : i < 256 ->
  mask_bit (candidates operation left right live) i =
    match operation with
    | Intersection => mask_bit left i && mask_bit right i
    | Union => mask_bit left i || mask_bit right i
    | Difference => mask_bit left i
    end && mask_bit live i.
Proof.
  intros. unfold candidates. rewrite from_fn_bit by done. rewrite N.land_spec, word_bit. f_equal.
  destruct operation; by rewrite ?N.land_spec, ?N.lor_spec, ?word_bit.
Qed.

(** ** Iterating a page mask *)
Lemma mask_bits_split m k : Forall word_wf m ->
  (forall j, (j < k)%nat -> word m j = 0) -> (k < length m)%nat -> word m k <> 0 ->
  mask_bits m = (N.of_nat k * 64 + trailing_zeros (word m k))
                :: mask_bits (<[k := clear_lowest (word m k)]> m).
Proof.
  intros H; revert k. induction H as [|w m Hw _ IH]; intros k Hz Hk Hn; [simpl in Hk; lia|].
  destruct k as [|k]; simpl in Hk.
  - change (word (w :: m) 0) with w in *.
    cbn [list_insert insert]. rewrite !mask_bits_cons, (word_bits_step 64 w) by done.
    simpl. f_equal.
  - change (word (w :: m) (S k)) with (word m k) in *.
    cbn [list_insert insert]. rewrite !mask_bits_cons.
    assert (w = 0) as -> by apply (Hz O ltac:(lia)). rewrite word_bits_zero. simpl.
    erewrite (IH k); [|intros j ?; apply (Hz (S j)); lia|lia|done]. simpl. f_equal. lia.
Qed.
Lemma mask_bits_zero m : (forall j, (j < length m)%nat -> word m j = 0) -> mask_bits m = [].
Proof.
  induction m as [|w m IH]; intros Hz; [done|].
  rewrite mask_bits_cons, IH by (intros j ?; apply (Hz (S j)); simpl; lia).
  assert (w = 0) as -> by (apply (Hz O); simpl; lia). by rewrite word_bits_zero.
Qed.
Lemma mask_insert_wf n m k x : mask_wf n m -> word_wf x -> mask_wf n (<[k := x]> m).
Proof. intros [H1 H2] H. split; [by rewrite length_insert|by apply Forall_insert]. Qed.

Definition pages_wf (self : Pages) : Prop :=
  mask_wf PAGE_WORDS (mask self) /\ forall j, (j < page_word self)%nat -> word (mask self) j = 0.

Lemma Pages_scan_spec fuel self : pages_wf self -> (PAGE_WORDS < page_word self + fuel)%nat ->
  match Pages_scan fuel self with
  | (Some page, self') => mask_bits (mask self) = page :: mask_bits (mask self') /\ pages_wf self'
  | (None, _) => mask_bits (mask self) = []
  end.
Proof.
  revert self. induction fuel as [|fuel IH]; intros [m k] [Hm Hz] Hf; simpl in *.
  - apply mask_bits_zero. destruct Hm as [-> _]. intros; apply Hz; lia.
  - destruct (Nat.ltb_spec k PAGE_WORDS) as [Hk|Hk].
    2:{ apply mask_bits_zero. destruct Hm as [-> _]. intros; apply Hz; lia. }
    destruct (N.eqb_spec (word m k) 0) as [H0|H0]; simpl.
    + apply (IH (mkPages m (S k))); [split; [done|]|simpl; lia].
      simpl. intros j ?. destruct (decide (j = k)) as [->|]; [done|]. apply Hz; lia.
    + pose proof (word_wf_lookup _ _ k Hm) as Hw.
      pose proof (trailing_zeros_lt _ 64 H0 Hw) as Ht. unfold PAGE_WORDS in *.
      split; [|split]; simpl.
      * rewrite trunc_small by (change (2 ^ 8) with 256; lia).
        apply mask_bits_split; [apply Hm|done| |done]. destruct Hm as [-> _]. done.
      * apply mask_insert_wf; [done|]. by apply clear_lowest_lt.
      * intros j ?. unfold word. rewrite list_lookup_insert_ne by lia. by apply Hz.
Qed.

Lemma Pages_collect_spec fuel self : pages_wf self ->
  (length (mask_bits (mask self)) < fuel)%nat -> Pages_collect fuel self = mask_bits (mask self).
Proof.
  revert self. induction fuel as [|fuel IH]; intros self Hw Hf; [lia|]. cbn [Pages_collect].
  pose proof (Pages_scan_spec (S PAGE_WORDS) self Hw ltac:(lia)) as Hs. unfold Pages_next.
  destruct (Pages_scan _ _) as [[page|] self']; [|done].
  destruct Hs as [Hs Hw']. rewrite Hs in *. f_equal. simpl in Hf. apply IH; [done|lia].
Qed.

Lemma mask_bits_length n m : mask_wf n m -> (length (mask_bits m) <= 64 * n)%nat.
Proof.
  intros [H _]. unfold mask_bits. etrans; [apply length_filter|].
  unfold range, len. rewrite length_fmap, length_seq, H. lia.
Qed.

Lemma pages_bits mask : mask_wf PAGE_WORDS mask -> pages mask = mask_bits mask.
Proof.
  intros H. unfold pages. apply (Pages_collect_spec 257 (Pages_new mask)).
  - split; [done|]. simpl; lia.
  - pose proof (mask_bits_length _ _ H). simpl. unfold PAGE_WORDS in *. lia.
Qed.

(** * Properties *)

(** whatever backend was selected, [combine] rejects slices of different
    lengths, computes the same words as the portable backend, and its output is the
    bitwise intersection, union or difference of the inputs. *)
Theorem kernels_combine_exact k operation left right output :
  Forall word_wf left -> Forall word_wf right ->
  kernels_combine k operation left right output = kernels_combine kernels_scalar operation left right output /\
  (kernels_combine k operation left right output = Err LengthMismatch <->
     ~ (len left = len right /\ len left = len output)) /\
  (forall out, kernels_combine k operation left right output = Ok out ->
     mask_wf (length left) out /\
     forall i, i < 64 * len left -> mask_bit out i = op_bit operation (mask_bit left i) (mask_bit right i)).
Proof.
  intros F1 F2.
  destruct (decide (len left = len right /\ len left = len output)) as [[H1 H2]|Hne].
  - unfold len in H1, H2. rewrite !(kernels_combine_zip _ operation) by (done || lia).
    split_and!; [done|split; [done|intros Hn; exfalso; apply Hn; unfold len; lia]|]. intros out [= <-]. split.
    + apply mask_wf_zip; [done|split; [lia|done]|]. intros; by apply op_word_wf.
    + intros i ?. apply mask_bit_zip; [lia| |done]. intros; by apply op_word_bit.
  - assert (He : forall k', kernels_combine k' operation left right output = Err LengthMismatch).
    { intros k'. unfold kernels_combine.
      destruct (N.eqb_spec (len left) (len right)), (N.eqb_spec (len left) (len output));
        try reflexivity. exfalso; by apply Hne. }
    rewrite !He. split_and!; [done|by split|]. intros ? [=].
Qed.
Lemma kernels_combine_exact_witness :
  mask_wf 5 [4; 0; 0; 0; 5] /\
  kernels_combine (mkKernels Avx2Backend) Difference [6; 0; 0; 0; 7] [2; 1; 1; 1; 2] [0; 0; 0; 0; 0] = Ok [4; 0; 0; 0; 5].
Proof.
  assert (H : kernels_combine (mkKernels Avx2Backend) Difference [6; 0; 0; 0; 7] [2; 1; 1; 1; 2] [0; 0; 0; 0; 0]
    = Ok [4; 0; 0; 0; 5]) by (vm_compute; reflexivity).
  split; [|exact H].
  apply (kernels_combine_exact (mkKernels Avx2Backend) Difference [6; 0; 0; 0; 7] [2; 1; 1; 1; 2] [0; 0; 0; 0; 0]);
    [repeat constructor..|exact H].
Defined.

(** [Pages::new(mask)] yields exactly the set bits of the mask, in ascending
    order, and then ends. *)
Theorem pages_exact mask : mask_wf PAGE_WORDS mask ->
  pages mask = mask_bits mask /\ (forall i, i ∈ pages mask <-> i < 256 /\ mask_bit mask i = true).
Proof.
  intros H. pose proof (pages_bits mask H) as E.
  split; [done|]. intros i. rewrite E, elem_of_mask_bits. unfold len. destruct H as [-> _]. done.
Qed.
Lemma pages_exact_witness : pages [5; 0; 2 ^ 63; 1] = [0; 2; 191; 192].
Proof.
  rewrite (proj1 (pages_exact [5; 0; 2 ^ 63; 1] ltac:(split; [reflexivity|repeat constructor]))).
  vm_compute. reflexivity.
Defined.

(** page pruning loses nothing: when the page masks mark every page that holds
    an offset, a page with a surviving offset is one of the candidate pages.  For
    [Difference] this is why the right page mask must not be subtracted. *)
Theorem candidates_cover operation (left right live : list N) (L R V : N -> list N) page offset :
  page < 256 -> offset < 512 ->
  (forall p o, mask_bit (L p) o = true -> mask_bit left p = true) ->
  (forall p o, mask_bit (R p) o = true -> mask_bit right p = true) ->
  (forall p o, mask_bit (V p) o = true -> mask_bit live p = true) ->
  mask_bit (offsets operation (L page) (R page) (V page)) offset = true ->
  mask_bit (candidates operation left right live) page = true.
Proof.
  intros Hp Ho HL HR HV H. rewrite offsets_bit in H by done. rewrite candidates_bit by done.
  apply andb_true_iff in H as [H1 H2]. rewrite (HV _ _ H2), andb_true_r.
  destruct operation; simpl in H1; bool_to_prop.
  - by rewrite (HL page offset), (HR page offset).
  - destruct H1 as [H1|H1]; [by rewrite (HL _ _ H1)|by rewrite (HR _ _ H1), orb_true_r].
  - by eapply HL.
Qed.
Lemma candidates_cover_witness :
  mask_bit (candidates Difference [1; 0; 0; 0] [1; 0; 0; 0] [1; 0; 0; 0]) 0 = true.
Proof.
  assert (Hone : forall w p o, mask_bit (if p =? 0 then [w] else []) o = true -> mask_bit [1; 0; 0; 0] p = true).
  { intros w p o H. destruct (N.eqb_spec p 0) as [->|]; [reflexivity|].
    unfold mask_bit in H. rewrite lookup_nil, N.bits_0 in H. discriminate. }
  apply (candidates_cover Difference [1; 0; 0; 0] [1; 0; 0; 0] [1; 0; 0; 0]
    (fun p => if p =? 0 then [6] else []) (fun p => if p =? 0 then [2] else [])
    (fun p => if p =? 0 then [7] else []) 0 2); [lia|lia|apply Hone..|]. reflexivity.
Defined.
