(* ===== verification/Offsets.v ===== *)
(** Offset sets of one heap page: [src/crates/pin-core/src/codec/offsets.rs].

    An [OffsetSet] is a 512-bit mask with the offset domain of the relation;
    offset [o] is bit [o - 1].  Three encodings (sorted list, bitmap, runs) share a
    six-byte header.  The theorems: [parse] accepts exactly the canonical encodings
    of the well-formed sets, every encoding round-trips, iteration is the sorted
    list of members, the set operations are the operations on membership whatever
    kernel runs them, and the preferred encoding is a shortest one. *)
From S2P Require Export Identity Bytes Lists Kernels.

Inductive Encoding : Type := Sparse | Bitmap | Runs.
Record OffsetSet : Type := mkOffsetSet { words : list N; domain : N }.
#[export] Instance OffsetSet_eq_dec : EqDecision OffsetSet.
Proof. solve_decision. Defined.

Module OffsetSet.
Import Codec.

(** [OffsetSet::new] *)
Definition new (layout : HeapLayout) : OffsetSet := mkOffsetSet (replicate 8 0) (max_offset layout).

(** [OffsetSet::len], [is_empty]; 512 bits at most, so the [u16] sum fits. *)
Definition card (self : OffsetSet) : N := mask_count (words self).
Definition is_empty (self : OffsetSet) : bool := forallb (fun word => word =? 0) (words self).

(** [OffsetSet::contains] *)
Definition contains (self : OffsetSet) (offset : N) : bool :=
  if (offset =? 0) || (domain self <? offset) then false
  else
    let bit := offset - 1 in
    negb (N.land (word (words self) (N.to_nat (bit / 64))) (N.shiftl 1 (bit mod 64)) =? 0).

(** [OffsetSet::insert]: whether the offset is fresh, and the new set. *)
Definition insert (self : OffsetSet) (offset : N) : Codec.Result (bool * OffsetSet) :=
  if (offset =? 0) || (domain self <? offset) then fail 0 InvalidValue
  else
    let bit := offset - 1 in
    let mask := N.shiftl 1 (bit mod 64) in
    let* word := or_panic (words self !! N.to_nat (bit / 64)) in
    let fresh := N.land word mask =? 0 in
    Ok (fresh, mkOffsetSet (<[N.to_nat (bit / 64) := N.lor word mask]> (words self)) (domain self)).

(** [OffsetIter] and its [next]; the scan crosses at most eight words. *)
Record OffsetIter : Type := mkOffsetIter { iter_words : list N; iter_word : nat; pending : N }.
Definition iter (self : OffsetSet) : OffsetIter := mkOffsetIter (words self) 0 (word (words self) 0).
Fixpoint OffsetIter_scan (fuel : nat) (self : OffsetIter) : option N * OffsetIter :=
  match fuel with
  | O => (None, self)
  | S fuel' =>
      if pending self =? 0 then
        let self := mkOffsetIter (iter_words self) (S (iter_word self)) (pending self) in
        match iter_words self !! iter_word self with
        | Some next => OffsetIter_scan fuel' (mkOffsetIter (iter_words self) (iter_word self) next)
        | None => (None, self)
        end
      else
        let bit := trailing_zeros (pending self) in
        (Some (trunc 16 (N.of_nat (iter_word self) * 64 + bit + 1)),
         mkOffsetIter (iter_words self) (iter_word self) (clear_lowest (pending self)))
  end.
Definition OffsetIter_next (self : OffsetIter) : option N * OffsetIter :=
  if (length (iter_words self) <=? iter_word self)%nat then (None, self)
  else OffsetIter_scan 9 self.
Fixpoint OffsetIter_collect (fuel : nat) (self : OffsetIter) : list N :=
  match fuel with
  | O => []
  | S fuel' =>
      match OffsetIter_next self with
      | (Some offset, self') => offset :: OffsetIter_collect fuel' self'
      | (None, _) => []
      end
  end.
(** The values of [self.iter()]. *)
Definition iterate (self : OffsetSet) : list N := OffsetIter_collect 513 (iter self).

(** [OffsetSet::combine] and the three operations built on it. *)
Definition combine (self other : OffsetSet) (op : N -> N -> N) : Codec.Result OffsetSet :=
  if negb (domain self =? domain other) then fail 0 InvalidValue
  else Ok (mkOffsetSet (zip_with op (words self) (words other)) (domain self)).
Definition intersection (self other : OffsetSet) := combine self other N.land.
Definition union (self other : OffsetSet) := combine self other N.lor.
Definition difference (self other : OffsetSet) :=
  combine self other (fun left right => N.land left (not_w 64 right)).

(** [OffsetSet::combine_with] *)
Definition combine_with (self other : OffsetSet) (operation : BitmapOp) (kernels : Kernels)
  : Codec.Result OffsetSet :=
  if negb (domain self =? domain other) then fail 0 InvalidValue
  else
    let* words := map_err (fun _ => Codec.new 0 InvalidValue)
      (kernels_combine kernels operation (words self) (words other) (replicate 8 0)) in
    Ok (mkOffsetSet words (domain self)).

(** [OffsetSet::run_count]: the loop over words with its carry. *)
Fixpoint run_starts (words : list N) (carry : N) : list N :=
  match words with
  | [] => []
  | word :: words' =>
      N.land word (not_w 64 (N.lor (shl_w 64 word 1) carry)) :: run_starts words' (N.shiftr word 63)
  end.
Definition run_count (self : OffsetSet) : N := mask_count (run_starts (words self) 0).

(** [OffsetSet::encoded_len] and [preferred_encoding] *)
Definition encoded_len (self : OffsetSet) (encoding : Encoding) : N :=
  match encoding with
  | Sparse => 6 + card self * 2
  | Bitmap => 6 + div_ceil (domain self) 8
  | Runs => 8 + run_count self * 4
  end.
Definition preferred_encoding (self : OffsetSet) : Encoding :=
  let sparse := encoded_len self Sparse in
  let bitmap := encoded_len self Bitmap in
  let runs := encoded_len self Runs in
  if (sparse <=? bitmap) && (sparse <=? runs) then Sparse
  else if bitmap <=? runs then Bitmap
  else Runs.

Definition tag (encoding : Encoding) : N :=
  match encoding with Sparse => 0 | Bitmap => 1 | Runs => 2 end.

(** The inner [while offsets.peek() == Some(end + 1)]. *)
Fixpoint extend_run (end_ : N) (offsets : list N) : N * list N :=
  match offsets with
  | next :: offsets' => if next =? end_ + 1 then extend_run (end_ + 1) offsets' else (end_, offsets)
  | [] => (end_, [])
  end.
(** The outer [while let Some(start) = offsets.next()]; each turn takes an offset. *)
Fixpoint write_runs (fuel : nat) (writer : Writer.t) (offsets : list N) : Codec.Result Writer.t :=
  match offsets with
  | [] => Ok writer
  | start :: offsets' =>
      match fuel with
      | O => Panic
      | S fuel' =>
          let '(end_, rest) := extend_run start offsets' in
          let* writer := Writer.u16 writer start in
          let* writer := Writer.u16 writer (end_ - start + 1) in
          write_runs fuel' writer rest
      end
  end.

(** [OffsetSet::encode_as] and [encode]: the bytes written and the output. *)
Definition encode_as (self : OffsetSet) (encoding : Encoding) (output : list byte)
  : Codec.Result (N * list byte) :=
  if len output <? encoded_len self encoding then fail 0 Truncated
  else
    let writer := Writer.new output in
    let* writer := Writer.u16 writer (domain self) in
    let* writer := Writer.u16 writer (card self) in
    let* writer := Writer.u8 writer (tag encoding) in
    let* writer := Writer.u8 writer 0 in
    let* writer :=
      match encoding with
      | Sparse => foldM Writer.u16 writer (iterate self)
      | Bitmap =>
          foldM (fun writer byte =>
            let* word := or_panic (words self !! N.to_nat (byte / 8)) in
            Writer.u8 writer (trunc 8 (N.shiftr word ((byte mod 8) * 8))))
            writer (range 0 (div_ceil (domain self) 8))
      | Runs =>
          let* writer := Writer.u16 writer (run_count self) in
          write_runs (length (iterate self)) writer (iterate self)
      end in
    Ok (Writer.written writer, Writer.bytes writer).
Definition encode (self : OffsetSet) (output : list byte) : Codec.Result (N * list byte) :=
  encode_as self (preferred_encoding self) output.

(** The three loops of [OffsetSet::parse]. *)
Fixpoint parse_sparse (count : nat) (reader : Reader.t) (previous : N) (result : OffsetSet)
  : Codec.Result (Reader.t * OffsetSet) :=
  match count with
  | O => Ok (reader, result)
  | S count' =>
      let* '(offset, reader) := Reader.u16 reader in
      if offset <=? previous then fail (Reader.offset reader - 2) InvalidOrder
      else
        let* '(_, result) := insert result offset in
        parse_sparse count' reader offset result
  end.
(** [result.words[index / 8] |= u64::from(byte) << ((index % 8) * 8)] *)
Fixpoint parse_bitmap (index : nat) (bytes : list byte) (words : list N) : list N :=
  match bytes with
  | [] => words
  | byte :: bytes' =>
      parse_bitmap (S index) bytes'
        (alter (fun word => N.lor word (shl_w 64 (byte_val byte) (N.of_nat (index mod 8) * 8)))
               (index / 8)%nat words)
  end.
Fixpoint parse_runs (runs : nat) (reader : Reader.t) (previous : N) (result : OffsetSet)
  : Codec.Result (Reader.t * OffsetSet) :=
  match runs with
  | O => Ok (reader, result)
  | S runs' =>
      let* '(start, reader) := Reader.u16 reader in
      let* '(len, reader) := Reader.u16 reader in
      if (start =? 0) || (len =? 0) || (negb (previous =? 0) && (start <=? previous + 1))
      then fail (Reader.offset reader - 4) InvalidOrder
      else
        let* end_ := ok_or (checked_add 16 start (len - 1))
          (Codec.new (Reader.offset reader - 4) Overflow) in
        if domain result <? end_ then fail (Reader.offset reader - 4) InvalidValue
        else
          let* result := foldM (fun result offset =>
            let* '(_, result) := insert result offset in Ok result) result (range start (end_ + 1)) in
          parse_runs runs' reader end_ result
  end.

(** [OffsetSet::parse] *)
Definition parse (bytes : list byte) (layout : HeapLayout) : Codec.Result OffsetSet :=
  let reader := Reader.new bytes in
  let* '(domain_, reader) := Reader.u16 reader in
  if negb (domain_ =? max_offset layout) then fail 0 InvalidValue
  else
  let* '(count, reader) := Reader.u16 reader in
  if max_offset layout <? count then fail 2 InvalidValue
  else
  let* '(tag, reader) := Reader.u8 reader in
  let* '(flags, reader) := Reader.u8 reader in
  if negb (flags =? 0) then fail 5 NonCanonical
  else
  let result := new layout in
  let* '(reader, result) :=
    match tag with
    | 0 => parse_sparse (N.to_nat count) reader 0 result
    | 1 =>
        let* '(bytes, reader) := Reader.take reader (div_ceil (domain result) 8) in
        let result := mkOffsetSet (parse_bitmap 0 bytes (words result)) (domain result) in
        let tail := domain result mod 8 in
        if negb (tail =? 0) &&
           match index bytes (len bytes - 1) with
           | Some byte => negb (N.shiftr (byte_val byte) tail =? 0)
           | None => false
           end
        then fail (Reader.offset reader - 1) NonCanonical
        else Ok (reader, result)
    | 2 =>
        let* '(runs, reader) := Reader.u16 reader in
        if count <? runs then fail 6 InvalidValue
        else parse_runs (N.to_nat runs) reader 0 result
    | _ => fail 4 UnknownTag
    end in
  let* _ := Reader.finish reader in
  if negb (card result =? count) then fail 2 InvalidValue
  else Ok result.

(** * Lemmas *)

(** The members, ascending: bit [o - 1] is offset [o]. *)
Definition members (self : OffsetSet) : list N := (fun i => i + 1) <$> mask_bits (words self).

Record wf (layout : HeapLayout) (self : OffsetSet) : Prop := {
  wf_layout : layout_wf layout;
  wf_domain : domain self = max_offset layout;
  wf_words : mask_wf 8 (words self);
  wf_tail : forall i, mask_bit (words self) i = true -> i < domain self;
}.
Lemma wf_domain_le layout s : wf layout s -> 1 <= domain s <= 512.
Proof. intros [[? ?] -> _ _]. done. Qed.
Lemma wf_len layout s : wf layout s -> len (words s) = 8.
Proof. intros [_ _ [Hl _] _]. unfold len. by rewrite Hl. Qed.

Lemma land_bit_zero w k : (N.land w (N.shiftl 1 k) =? 0) = negb (N.testbit w k).
Proof.
  destruct (N.testbit w k) eqn:E; simpl.
  - apply N.eqb_neq. intros H. assert (Hb : N.testbit (N.land w (N.shiftl 1 k)) k = false) by (rewrite H; apply N.bits_0).
    by rewrite N.land_spec, pow2_testbit, N.eqb_refl, E in Hb.
  - apply N.eqb_eq, N.bits_inj_0. intros i. rewrite N.land_spec, pow2_testbit.
    destruct (N.eqb_spec i k) as [->|]; [by rewrite E|by rewrite andb_false_r].
Qed.

Lemma elem_of_members layout s o : wf layout s ->
  o ∈ members s <-> 1 <= o <= domain s /\ mask_bit (words s) (o - 1) = true.
Proof.
  intros Hw. unfold members. rewrite list_elem_of_fmap. setoid_rewrite elem_of_mask_bits.
  rewrite (wf_len _ _ Hw). pose proof (wf_domain_le _ _ Hw). split.
  - intros (i & -> & _ & Hb). pose proof (wf_tail _ _ Hw _ Hb). replace (i + 1 - 1) with i by lia.
    split; [lia|done].
  - intros [? Hb]. exists (o - 1). split_and!; [lia|lia|done].
Qed.
Lemma members_asc s : asc 1 (members s).
Proof. unfold members. change 1 with (0 + 1). by apply asc_shift, asc_mask_bits. Qed.
Lemma members_small layout s o : wf layout s -> o ∈ members s -> o < 2 ^ 16.
Proof. intros Hw [? _]%(elem_of_members layout); [|done]. pose proof (wf_domain_le _ _ Hw). lia. Qed.

Lemma contains_bit s o :
  contains s o = negb ((o =? 0) || (domain s <? o)) && mask_bit (words s) (o - 1).
Proof. unfold contains. destruct (_ || _); [done|]. by rewrite land_bit_zero, negb_involutive. Qed.
Lemma contains_members layout s o : wf layout s -> contains s o = true <-> o ∈ members s.
Proof.
  intros Hw. rewrite (elem_of_members layout), contains_bit, andb_true_iff, negb_true_iff, orb_false_iff by done.
  rewrite N.eqb_neq, N.ltb_ge. naive_solver lia.
Qed.

Lemma card_members layout s : wf layout s -> card s = len (members s).
Proof. intros Hw. unfold card, members. rewrite len_fmap. apply mask_count_bits, Hw. Qed.
Lemma card_le layout s : wf layout s -> card s <= domain s.
Proof.
  intros Hw. rewrite (card_members layout) by done. pose proof (wf_domain_le _ _ Hw).
  assert (len (members s) <= domain s + 1 - 1); [|lia]. apply (asc_len 1); [apply members_asc| |lia].
  intros x [? _]%(elem_of_members layout); [lia|done].
Qed.

(** Sets are determined by their members. *)
Lemma set_ext layout s1 s2 : wf layout s1 -> wf layout s2 ->
  (forall o, o ∈ members s1 <-> o ∈ members s2) -> s1 = s2.
Proof.
  intros H1 H2 H. destruct s1 as [w1 d1] eqn:E1, s2 as [w2 d2] eqn:E2. rewrite <- E1, <- E2 in *.
  assert (Hd : domain s1 = domain s2) by (by rewrite (wf_domain _ _ H1), (wf_domain _ _ H2)).
  assert (Hm : words s1 = words s2).
  { apply (mask_ext 8); [apply H1|apply H2|]. intros i _.
    pose proof (wf_tail _ _ H1 i) as T1. pose proof (wf_tail _ _ H2 i) as T2.
    specialize (H (i + 1)). rewrite (elem_of_members layout s1), (elem_of_members layout s2) in H by done.
    replace (i + 1 - 1) with i in H by lia.
    destruct (mask_bit (words s1) i), (mask_bit (words s2) i); [done| | |done].
    - specialize (T1 eq_refl). destruct (proj1 H ltac:(split; [lia|done])). done.
    - specialize (T2 eq_refl). destruct (proj2 H ltac:(split; [lia|done])). done. }
  subst s1 s2. simpl in *. congruence.
Qed.

(** ** Inserting *)
Definition add (s : OffsetSet) (o : N) : OffsetSet := mkOffsetSet (mask_set (words s) (o - 1)) (domain s).

Lemma insert_add layout s o : wf layout s -> 1 <= o <= domain s ->
  insert s o = Ok (negb (contains s o), add s o).
Proof.
  intros Hw Ho. unfold insert. rewrite contains_bit.
  rewrite (proj2 (N.eqb_neq o 0)), (proj2 (N.ltb_ge (domain s) o)) by lia. simpl.
  pose proof (wf_domain_le _ _ Hw). pose proof (wf_len _ _ Hw).
  destruct (lookup_lt_is_Some_2 (words s) (N.to_nat ((o - 1) / 64))) as [w Hwd].
  { assert ((o - 1) / 64 < 8) by (apply N.Div0.div_lt_upper_bound; lia). unfold len in *; lia. }
  rewrite Hwd. simpl. rewrite land_bit_zero. do 2 f_equal.
  - unfold mask_bit. by rewrite Hwd.
  - unfold add, mask_set. f_equal. apply list_eq. intros i.
    destruct (decide (i = N.to_nat ((o - 1) / 64))) as [->|Hi].
    + rewrite list_lookup_alter_eq, list_lookup_insert_eq, Hwd; [done|by eapply lookup_lt_Some].
    + by rewrite list_lookup_alter_ne, list_lookup_insert_ne by done.
Qed.
Lemma insert_out s o : ~ 1 <= o <= domain s -> insert s o = fail 0 InvalidValue.
Proof.
  intros Ho. unfold insert. destruct (N.eqb_spec o 0); [done|].
  destruct (N.ltb_spec (domain s) o); [done|]. lia.
Qed.
Lemma insert_ok layout s o b s' : wf layout s -> insert s o = Ok (b, s') -> 1 <= o <= domain s /\ s' = add s o.
Proof.
  intros Hw H. destruct (decide (1 <= o <= domain s)) as [Ho|Ho].
  - rewrite (insert_add layout) in H by done. naive_solver.
  - by rewrite insert_out in H.
Qed.
Lemma add_bit layout s o i : wf layout s -> 1 <= o <= domain s ->
  mask_bit (words (add s o)) i = mask_bit (words s) i || (i =? o - 1).
Proof.
  intros Hw Ho. apply mask_set_bit. rewrite (wf_len _ _ Hw). pose proof (wf_domain_le _ _ Hw). lia.
Qed.
Lemma add_wf layout s o : wf layout s -> 1 <= o <= domain s -> wf layout (add s o).
Proof.
  intros Hw Ho. split; [apply Hw|apply Hw|apply mask_set_wf, Hw|].
  intros i Hb. rewrite (add_bit layout), orb_true_iff, N.eqb_eq in Hb by done.
  destruct Hb as [?| ->]; [by apply (wf_tail _ _ Hw)|]. simpl. lia.
Qed.
Lemma elem_of_add layout s o x : wf layout s -> 1 <= o <= domain s ->
  x ∈ members (add s o) <-> x ∈ members s \/ x = o.
Proof.
  intros Hw Ho. rewrite !(elem_of_members layout) by (done || by apply add_wf).
  rewrite (add_bit layout), orb_true_iff, N.eqb_eq by done. simpl. naive_solver lia.
Qed.

(** The set holding a list of offsets. *)
Definition add_list (s : OffsetSet) (l : list N) : OffsetSet := foldl add s l.
Definition of_list (layout : HeapLayout) (l : list N) : OffsetSet := add_list (new layout) l.

Lemma new_wf layout : layout_wf layout -> wf layout (new layout).
Proof.
  intros. split; [done|done|apply (mask_wf_replicate 8)|]. intros i. simpl.
  by rewrite (mask_bit_zero 8).
Qed.
Lemma members_new layout x : layout_wf layout -> x ∉ members (new layout).
Proof. intros Hl [_ Hb]%(elem_of_members layout); [by rewrite (mask_bit_zero 8) in Hb|by apply new_wf]. Qed.
Lemma add_list_spec layout s l : wf layout s -> (forall x, x ∈ l -> 1 <= x <= domain s) ->
  wf layout (add_list s l) /\ domain (add_list s l) = domain s /\
  forall x, x ∈ members (add_list s l) <-> x ∈ members s \/ x ∈ l.
Proof.
  revert s. induction l as [|o l IH]; intros s Hw Hl; simpl.
  - split_and!; [done|done|]. intros x. rewrite elem_of_nil. naive_solver.
  - pose proof (Hl o ltac:(left)). destruct (IH (add s o)) as (H1 & H2 & H3).
    + by apply add_wf.
    + intros; apply Hl; by right.
    + split_and!; [done|done|]. intros x. rewrite H3, (elem_of_add layout), elem_of_cons by done. naive_solver.
Qed.
Lemma of_list_spec layout l : layout_wf layout -> (forall x, x ∈ l -> 1 <= x <= max_offset layout) ->
  wf layout (of_list layout l) /\ forall x, x ∈ members (of_list layout l) <-> x ∈ l.
Proof.
  intros Hl H. destruct (add_list_spec layout (new layout) l) as (H1 & _ & H2); [by apply new_wf|done|].
  split; [done|]. intros x. rewrite H2. pose proof (members_new layout x Hl). naive_solver.
Qed.
Lemma of_list_members layout s : wf layout s -> of_list layout (members s) = s.
Proof.
  intros Hw. destruct (of_list_spec layout (members s)) as [H1 H2]; [apply Hw| |].
  - intros x [? _]%(elem_of_members layout); [|done]. by rewrite <- (wf_domain _ _ Hw).
  - by apply (set_ext layout).
Qed.
Lemma members_of_list layout l : layout_wf layout -> asc 1 l -> (forall x, x ∈ l -> x <= max_offset layout) ->
  members (of_list layout l) = l.
Proof.
  intros Hl Ha H. assert (Hb : forall x, x ∈ l -> 1 <= x <= max_offset layout).
  { intros x Hx. split; [by eapply asc_ge|by apply H]. }
  destruct (of_list_spec layout l) as [H1 H2]; [done|done|].
  apply (asc_unique 1); [apply members_asc|done|done].
Qed.
Lemma insert_all layout s l : wf layout s -> (forall x, x ∈ l -> 1 <= x <= domain s) ->
  foldM (fun result offset => let* '(_, result) := insert result offset in Ok result) s l = Ok (add_list s l).
Proof.
  revert s; induction l as [|o l IH]; intros s Hw Hl; [done|]. cbn [foldM].
  pose proof (Hl o ltac:(left)). rewrite (insert_add layout) by done. cbn [rbind].
  apply IH; [by apply add_wf|]. intros; apply Hl; by right.
Qed.
Lemma add_list_app s l1 l2 : add_list s (l1 ++ l2) = add_list (add_list s l1) l2.
Proof. apply foldl_app. Qed.

(** ** Iteration *)

(** The mask of what an iterator has still to yield. *)
Definition iter_mask (it : OffsetIter) : list N :=
  replicate (iter_word it) 0 ++ pending it :: drop (S (iter_word it)) (iter_words it).
Definition iter_wf (it : OffsetIter) : Prop :=
  mask_wf 8 (iter_words it) /\ (iter_word it < 8)%nat /\ word_wf (pending it).

Lemma iter_mask_wf it : iter_wf it -> mask_wf 8 (iter_mask it).
Proof.
  intros ([Hl Hf] & Hw & Hp). split.
  - unfold iter_mask. rewrite length_app, length_cons, length_replicate, length_drop. lia.
  - apply Forall_app. split; [by apply Forall_replicate|]. constructor; [done|by apply Forall_drop].
Qed.
Lemma iter_mask_word it : word (iter_mask it) (iter_word it) = pending it.
Proof.
  unfold word, iter_mask. rewrite lookup_app_r by (rewrite length_replicate; lia).
  by rewrite length_replicate, Nat.sub_diag.
Qed.
Lemma iter_mask_low it j : (j < iter_word it)%nat -> word (iter_mask it) j = 0.
Proof.
  intros. unfold word, iter_mask. rewrite lookup_app_l by (rewrite length_replicate; lia).
  by rewrite lookup_replicate_2.
Qed.
Lemma iter_mask_clear it x :
  <[iter_word it := x]> (iter_mask it) = iter_mask (mkOffsetIter (iter_words it) (iter_word it) x).
Proof.
  unfold iter_mask; cbn [iter_word iter_words pending].
  rewrite insert_app_r_alt by (rewrite length_replicate; lia).
  by rewrite length_replicate, Nat.sub_diag.
Qed.
Lemma iter_mask_skip it w : pending it = 0 -> iter_words it !! S (iter_word it) = Some w ->
  iter_mask it = iter_mask (mkOffsetIter (iter_words it) (S (iter_word it)) w).
Proof.
  intros Hp Hw. unfold iter_mask; cbn [iter_word iter_words pending]. rewrite Hp, (drop_S _ w) by done.
  rewrite replicate_S_end, <- app_assoc. done.
Qed.
Lemma iter_mask_end it : pending it = 0 -> iter_words it !! S (iter_word it) = None -> mask_bits (iter_mask it) = [].
Proof.
  intros Hp Hn%lookup_ge_None_1. apply mask_bits_zero. unfold iter_mask.
  rewrite Hp, drop_ge by lia. rewrite <- replicate_S_end, length_replicate. intros j ?.
  unfold word. by rewrite lookup_replicate_2.
Qed.

Lemma OffsetIter_scan_spec fuel it : iter_wf it -> (8 < iter_word it + fuel)%nat ->
  match OffsetIter_scan fuel it with
  | (Some o, it') => iter_wf it' /\
      ((fun i => i + 1) <$> mask_bits (iter_mask it)) = o :: ((fun i => i + 1) <$> mask_bits (iter_mask it'))
  | (None, _) => mask_bits (iter_mask it) = []
  end.
Proof.
  revert it. induction fuel as [|fuel IH]; intros it Hw Hf; [destruct Hw as (_ & ? & _); lia|].
  cbn [OffsetIter_scan]. destruct (N.eqb_spec (pending it) 0) as [Hp|Hp]; cbn [iter_word iter_words].
  - destruct (iter_words it !! S (iter_word it)) as [w|] eqn:E; [|by apply iter_mask_end].
    rewrite (iter_mask_skip _ w) by done. apply IH; [|cbn; lia].
    destruct Hw as ([Hl Hm] & ? & ?). split_and!; [done|cbn|by eapply (Forall_lookup_1 _ _ _ _ Hm)].
    apply lookup_lt_Some in E. lia.
  - pose proof (iter_mask_wf _ Hw) as [Ml Mf]. destruct Hw as (Hm & Hi & Hpw).
    pose proof (trailing_zeros_lt _ 64 Hp Hpw). split; [split_and!; [done|done|by apply clear_lowest_lt]|].
    rewrite (mask_bits_split _ (iter_word it)), iter_mask_clear, iter_mask_word;
      [|done|by apply iter_mask_low|lia|by rewrite iter_mask_word].
    rewrite fmap_cons. f_equal. rewrite trunc_small by (change (2 ^ 16) with 65536; lia). done.
Qed.
Lemma OffsetIter_collect_spec fuel it : iter_wf it ->
  (length (mask_bits (iter_mask it)) < fuel)%nat ->
  OffsetIter_collect fuel it = (fun i => i + 1) <$> mask_bits (iter_mask it).
Proof.
  revert it. induction fuel as [|fuel IH]; intros it Hw Hf; [lia|]. cbn [OffsetIter_collect].
  unfold OffsetIter_next. pose proof Hw as ([Hl _] & ? & _).
  rewrite (proj2 (Nat.leb_gt _ _)) by lia.
  pose proof (OffsetIter_scan_spec 9 it Hw ltac:(lia)) as Hs.
  destruct (OffsetIter_scan 9 it) as [[o|] it']; [|by rewrite Hs].
  destruct Hs as [Hw' Hs]. rewrite Hs. f_equal. apply IH; [done|].
  apply (f_equal length) in Hs. rewrite length_cons, !length_fmap in Hs. lia.
Qed.
Lemma iterate_members layout s : wf layout s -> iterate s = members s.
Proof.
  intros Hw. pose proof (wf_words _ _ Hw) as Hm.
  assert (Hi : iter_wf (iter s)) by (split_and!; [done|cbn; lia|by eapply word_wf_lookup]).
  assert (Em : iter_mask (iter s) = words s).
  { unfold iter_mask, iter; cbn. destruct Hm as [Hl _]. by destruct (words s). }
  unfold iterate. rewrite OffsetIter_collect_spec, Em; [done|done|].
  rewrite Em. pose proof (mask_bits_length _ _ Hm). lia.
Qed.

(** ** Counting runs *)
Lemma shl_1_bit w i : i < 64 -> N.testbit (shl_w 64 w 1) i = negb (i =? 0) && N.testbit w (i - 1).
Proof.
  intros. unfold shl_w, trunc. rewrite N.land_spec, N.ones_spec_low, andb_true_r by done.
  destruct (N.eqb_spec i 0) as [->|]; [by rewrite N.shiftl_spec_low|].
  by rewrite N.shiftl_spec_high' by lia.
Qed.
Lemma shiftr_63_bit w j : word_wf w -> N.testbit (N.shiftr w 63) j = (j =? 0) && N.testbit w 63.
Proof.
  intros. rewrite N.shiftr_spec'. destruct (N.eqb_spec j 0) as [->|]; [done|].
  by rewrite (testbit_high w 64) by (done || lia).
Qed.
Lemma run_starts_bit ws c i : Forall word_wf ws -> c < 2 -> i < 64 * len ws ->
  mask_bit (run_starts ws c) i =
    mask_bit ws i && negb (if i =? 0 then N.testbit c 0 else mask_bit ws (i - 1)).
Proof.
  intros H; revert c i. induction H as [|w ws Hw _ IH]; intros c i Hc Hi; [len_lia|].
  cbn [run_starts]. rewrite !mask_bit_cons. destruct (N.ltb_spec i 64) as [Hl|Hl].
  - rewrite and_not_testbit, N.lor_spec, shl_1_bit by done.
    destruct (N.eqb_spec i 0) as [->|]; [done|].
    rewrite (testbit_high c 1), orb_false_r by (done || lia). simpl.
    by rewrite (proj2 (N.ltb_lt (i - 1) 64)) by lia.
  - rewrite len_cons in Hi. assert (Hc' : N.shiftr w 63 < 2).
    { apply (lt_pow2_testbit _ 1). intros j ?. rewrite shiftr_63_bit by done. by destruct (N.eqb_spec j 0); [lia|]. }
    rewrite IH by (done || lia).
    do 2 f_equal. destruct (N.eqb_spec i 0); [lia|].
    destruct (N.eqb_spec (i - 64) 0).
    + rewrite shiftr_63_bit by done. replace (i - 1) with 63 by lia. done.
    + rewrite (proj2 (N.ltb_ge (i - 1) 64)) by lia. f_equal; lia.
Qed.
Lemma run_starts_wf n ws c : mask_wf n ws -> mask_wf n (run_starts ws c).
Proof.
  intros [Hl Hf]. split.
  - rewrite <- Hl. clear. revert c; induction ws as [|w ws IH]; intros c; simpl; [done|by rewrite IH].
  - clear Hl. revert c. induction Hf as [|w ws Hw _ IH]; intros c; simpl; constructor; [|done].
    by apply land_lt_pow2.
Qed.
Lemma runs_shift k l : runs_of ((fun i => i + k) <$> l) = (fun '(s, n) => (s + k, n)) <$> runs_of l.
Proof.
  induction l as [|x l IH]; [done|]. rewrite fmap_cons, !runs_of_cons, IH.
  destruct (runs_of l) as [|[s n] rest]; [done|]. cbn [fmap list_fmap].
  destruct (N.eqb_spec (s + k) (x + k + 1)), (N.eqb_spec s (x + 1)); done || lia.
Qed.
Lemma run_count_runs layout s : wf layout s -> run_count s = len (runs_of (members s)).
Proof.
  intros Hw. unfold run_count, members. rewrite runs_shift, len_fmap.
  pose proof (run_starts_wf 8 _ 0 (wf_words _ _ Hw)) as [Rl Rf].
  rewrite mask_count_bits by done. unfold mask_bits at 2. fold (bits_of (mask_bit (words s)) 0 (64 * len (words s))).
  rewrite len_runs_starts. unfold mask_bits, starts.
  assert (El : len (run_starts (words s) 0) = len (words s)) by (unfold len; by rewrite Rl, (proj1 (wf_words _ _ Hw))).
  rewrite El. f_equal. apply filter_ext_in. intros i Hi%elem_of_range.
  rewrite run_starts_bit by (apply Hw || lia). done.
Qed.

(** ** The encodings as byte strings *)
Definition bitmap_byte (s : OffsetSet) (j : N) : byte :=
  byte_of (trunc 8 (N.shiftr (word (words s) (N.to_nat (j / 8))) ((j mod 8) * 8))).
Definition run_bytes (r : N * N) : list byte := le_bytes 2 r.1 ++ le_bytes 2 r.2.
Definition body (s : OffsetSet) (e : Encoding) : list byte :=
  match e with
  | Sparse => members s ≫= le_bytes 2
  | Bitmap => bitmap_byte s <$> range 0 (div_ceil (domain s) 8)
  | Runs => le_bytes 2 (len (runs_of (members s))) ++ (runs_of (members s) ≫= run_bytes)
  end.
Definition payload (s : OffsetSet) (e : Encoding) : list byte :=
  le_bytes 2 (domain s) ++ le_bytes 2 (card s) ++ [byte_of (tag e)] ++ [byte_of 0] ++ body s e.

Lemma bind_single {A B} (f : A -> B) l : l ≫= (fun x => [f x]) = f <$> l.
Proof. induction l as [|x l IH]; [done|]. by rewrite bind_cons, IH. Qed.

Lemma len_body layout s e : wf layout s -> 6 + len (body s e) = encoded_len s e.
Proof.
  intros Hw. destruct e; cbn [body encoded_len].
  - rewrite (len_bind_const _ 2) by (intros; by rewrite len_le_bytes). rewrite (card_members layout) by done. lia.
  - rewrite len_fmap, len_range. lia.
  - rewrite len_app, len_le_bytes, (len_bind_const _ 4) by (intros; unfold run_bytes; by rewrite len_app, !len_le_bytes).
    rewrite (run_count_runs layout) by done. lia.
Qed.
Lemma len_payload layout s e : wf layout s -> len (payload s e) = encoded_len s e.
Proof. intros Hw. rewrite <- (len_body layout) by done. unfold payload. len_lia. Qed.

(** ** Encoding *)
Lemma extend_run_runs x l : let '(e, rest) := extend_run x l in
  x <= e /\ (length rest <= length l)%nat /\ runs_of (x :: l) = (x, e - x + 1) :: runs_of rest.
Proof.
  revert x; induction l as [|y l IH]; intros x; cbn [extend_run].
  - split_and!; [lia|done|]. rewrite runs_of_cons. simpl. by rewrite N.sub_diag.
  - destruct (N.eqb_spec y (x + 1)) as [->|Hne].
    + specialize (IH (x + 1)). destruct (extend_run (x + 1) l) as [e rest]. destruct IH as (? & ? & IH).
      split_and!; [lia|simpl; lia|]. rewrite (runs_of_cons x), IH, N.eqb_refl. do 2 f_equal. lia.
    + split_and!; [lia|done|]. rewrite (runs_of_cons x), N.sub_diag.
      destruct (runs_of_head y l) as (n & rest & ->). rewrite (proj2 (N.eqb_neq _ _)) by done. done.
Qed.
Lemma write_runs_writing fuel l out pre : (length l <= fuel)%nat -> small out ->
  len pre + len (runs_of l ≫= run_bytes) <= len out ->
  write_runs fuel (writing out pre) l = Ok (writing out (pre ++ (runs_of l ≫= run_bytes))).
Proof.
  revert l pre; induction fuel as [|fuel IH]; intros [|x l] pre Hf Hs Hl;
    [cbn; by rewrite app_nil_r|simpl in Hf; lia|cbn; by rewrite app_nil_r|].
  cbn [write_runs]. pose proof (extend_run_runs x l) as Hr. destruct (extend_run x l) as [e rest].
  destruct Hr as (? & ? & Hr). rewrite Hr, bind_cons in *. unfold run_bytes at 1 in Hl. unfold run_bytes at 1.
  cbn [fst snd] in *. unfold Writer.u16. rewrite !len_app in Hl. wrote. rewrite IH; [|simpl in Hf; lia|done|len_lia].
  by rewrite !app_assoc.
Qed.

Lemma words_lookup layout s j : wf layout s -> j < div_ceil (domain s) 8 ->
  words s !! N.to_nat (j / 8) = Some (word (words s) (N.to_nat (j / 8))).
Proof.
  intros Hw Hj. pose proof (wf_domain_le _ _ Hw). pose proof (wf_len _ _ Hw) as Hl. unfold div_ceil, len in *.
  destruct (lookup_lt_is_Some_2 (words s) (N.to_nat (j / 8))) as [w E]; [dlia|].
  unfold word. by rewrite E.
Qed.

Lemma encode_as_payload layout s e output : wf layout s -> small output ->
  encoded_len s e <= len output ->
  encode_as s e output = Ok (len (payload s e), payload s e ++ drop (length (payload s e)) output).
Proof.
  intros Hw Hs Hl. unfold encode_as. rewrite (proj2 (N.ltb_ge _ _)) by done.
  pose proof (len_body _ _ e Hw) as Hb.
  rewrite writing_new. unfold Writer.u16, Writer.u8. wrote. cbn [app].
  set (pre := _ ++ [byte_of 0]).
  assert (Ep : payload s e = pre ++ body s e) by reflexivity.
  assert (Lp : len pre = 6) by (unfold pre; len_lia).
  enough (Hm : match e with
      | Sparse => foldM (fun w v => Writer.put w (le_bytes 2 v)) (writing output pre) (iterate s)
      | Bitmap => foldM (fun writer byte =>
            let* word := or_panic (words s !! N.to_nat (byte / 8)) in
            Writer.put writer [byte_of (trunc 8 (N.shiftr word ((byte mod 8) * 8)))])
            (writing output pre) (range 0 (div_ceil (domain s) 8))
      | Runs => let* writer := Writer.put (writing output pre) (le_bytes 2 (run_count s)) in
          write_runs (length (iterate s)) writer (iterate s)
      end = Ok (writing output (payload s e))).
  { unfold Writer.u16, Writer.u8 in Hm. rewrite Hm. done. }
  rewrite Ep, (iterate_members layout) by done. destruct e; cbn [body] in *.
  - apply (foldM_put _ (le_bytes 2)); [done|done|lia].
  - rewrite <- bind_single in *. apply (foldM_put _ (fun j => [bitmap_byte s j])); [|done|lia].
    intros w j Hj%elem_of_range. rewrite (words_lookup layout) by (done || lia). done.
  - rewrite len_app, len_le_bytes in Hb. rewrite (run_count_runs layout) by done. wrote.
    rewrite write_runs_writing by (done || len_lia). by rewrite <- app_assoc.
Qed.

(** ** Parsing: the three loops, in both directions *)
Lemma parse_sparse_iff layout n prev r0 pre s r' res : wf layout r0 -> small (pre ++ s) ->
  parse_sparse n (reading pre s) prev r0 = Ok (r', res) <->
  exists l tl, length l = n /\ asc (prev + 1) l /\ (forall x, x ∈ l -> x <= domain r0) /\
    s = (l ≫= le_bytes 2) ++ tl /\ r' = reading (pre ++ (l ≫= le_bytes 2)) tl /\ res = add_list r0 l.
Proof.
  intros Hw. revert prev r0 pre s Hw. induction n as [|n IH]; intros prev r0 pre s Hw Hs; cbn [parse_sparse].
  - split.
    + intros H. simplify_eq. exists [], s. cbn. rewrite app_nil_r. split_and!; try done. by intros x ?%elem_of_nil.
    + intros (l & tl & Hl%nil_length_inv & _ & _ & -> & -> & ->). subst l. cbn. by rewrite app_nil_r.
  - rewrite (format_bind _ _ _ _ _ _ _ u16_format) by done. split.
    + intros (o & tl & Ho & -> & H). destruct (N.leb_spec o prev); [done|].
      apply rbind_ok in H as ([b r1] & H1 & H). apply (insert_ok layout) in H1 as [Hin ->]; [|done].
      apply IH in H as (l & tl' & Hl & Ha & Hd & -> & -> & ->); [|by apply add_wf|small_lia].
      exists (o :: l), tl'. rewrite bind_cons, <- !app_assoc. split_and!; try done; [simpl; lia|simpl; split; [lia|done]|].
      intros x [->|Hx]%elem_of_cons; [lia|by apply Hd].
    + intros ([|o l] & tl & Hl & Ha & Hd & -> & -> & ->); [done|]. simpl in Ha. destruct Ha as [? Ha].
      pose proof (Hd o ltac:(left)). pose proof (wf_domain_le _ _ Hw). rewrite bind_cons, <- !app_assoc in *.
      exists o, ((l ≫= le_bytes 2) ++ tl). split_and!; [lia|done|].
      destruct (N.leb_spec o prev); [lia|]. rewrite (insert_add layout) by (done || lia). cbn [rbind].
      apply IH; [apply add_wf; done || lia|small_lia|]. exists l, tl. rewrite <- app_assoc.
      split_and!; try done; [simpl in Hl; lia|]. intros x Hx. apply Hd. by right.
Qed.

(** A run list inside the domain. *)
Definition runs_in (d : N) (rs : list (N * N)) : Prop := forall x, x ∈ of_runs rs -> x <= d.
Lemma runs_in_cons d s n rs : 1 <= n -> runs_in d ((s, n) :: rs) <-> s + n - 1 <= d /\ runs_in d rs.
Proof.
  intros Hn. unfold runs_in. rewrite of_runs_cons. split.
  - intros H. split; [apply H, elem_of_app; left; apply elem_of_range; lia|].
    intros x Hx. apply H, elem_of_app. by right.
  - intros [H1 H2] x [Hx%elem_of_range|Hx]%elem_of_app; [lia|by apply H2].
Qed.
Lemma gap_test prev start : (negb (prev =? 0) && (start <=? prev + 1)) = false <-> prev = 0 \/ prev + 2 <= start.
Proof. destruct (N.eqb_spec prev 0), (N.leb_spec start (prev + 1)); simpl; naive_solver lia. Qed.
(** The next run starts at 1 at least, and two past the previous end. *)
Definition run_lo (prev : N) : N := if prev =? 0 then 1 else prev + 2.

Lemma parse_runs_iff layout n prev r0 pre s r' res : wf layout r0 -> small (pre ++ s) ->
  parse_runs n (reading pre s) prev r0 = Ok (r', res) <->
  exists rs tl, length rs = n /\ runs_wf (run_lo prev) rs /\ runs_in (domain r0) rs /\
    s = (rs ≫= run_bytes) ++ tl /\ r' = reading (pre ++ (rs ≫= run_bytes)) tl /\ res = add_list r0 (of_runs rs).
Proof.
  intros Hw. revert prev r0 pre s Hw. induction n as [|n IH]; intros prev r0 pre s Hw Hs; cbn [parse_runs].
  - split.
    + intros H. simplify_eq. exists [], s. cbn. rewrite app_nil_r. split_and!; try done. by intros x ?%elem_of_nil.
    + intros (l & tl & Hl%nil_length_inv & _ & _ & -> & -> & ->). subst l. cbn. by rewrite app_nil_r.
  - pose proof (wf_domain_le _ _ Hw) as Hd512. rewrite (format_bind _ _ _ _ _ _ _ u16_format) by done. split.
    + intros (a & tl1 & Hav & -> & H). next_field H u16_format as k tl Hkv.
      destruct (_ || _) eqn:Ec in H; [done|]. apply orb_false_iff in Ec as [Ec Eg]. apply gap_test in Eg.
      bool_to_prop.
      apply rbind_ok in H as (e & [-> He]%ok_or_ok%checked_add_some & H).
      destruct (N.ltb_spec (domain r0) (a + (k - 1))); [done|].
      replace (a + (k - 1) + 1) with (a + k) in H by lia.
      assert (Hin : forall x, x ∈ range a (a + k) -> 1 <= x <= domain r0) by (intros x ?%elem_of_range; lia).
      rewrite (insert_all layout) in H by done. cbn [rbind] in H.
      destruct (add_list_spec layout r0 (range a (a + k))) as (Hw' & Hd' & _); [done|done|].
      apply IH in H as (rs & tl' & Hl & Hrw & Hri & -> & -> & ->); [|done|small_lia].
      rewrite Hd' in Hri. exists ((a, k) :: rs), tl'. rewrite bind_cons, of_runs_cons, add_list_app.
      unfold run_bytes at 1 3; cbn [fst snd]. rewrite <- !app_assoc. split_and!; try done; [simpl; lia| |].
      * unfold run_lo in *. destruct (N.eqb_spec (a + (k - 1)) 0); [lia|]. cbn [runs_wf].
        replace (a + k + 1) with (a + (k - 1) + 2) by lia.
        split_and!; [destruct (N.eqb_spec prev 0); lia|lia|done].
      * apply runs_in_cons; [lia|]. split; [lia|done].
    + intros ([|[a k] rs] & tl & Hl & Hrw & Hri & -> & -> & ->); [done|]. cbn [runs_wf] in Hrw.
      destruct Hrw as (Ha & Hk & Hrw). apply runs_in_cons in Hri as [Hri1 Hri]; [|done].
      assert (Ha1 : 1 <= a /\ (prev = 0 \/ prev + 2 <= a)) by (unfold run_lo in Ha; destruct (N.eqb_spec prev 0); lia).
      rewrite bind_cons, of_runs_cons, add_list_app in *. unfold run_bytes at 1 in Hs. unfold run_bytes at 1 3.
      cbn [fst snd] in *. rewrite <- !app_assoc in *.
      exists a, (le_bytes 2 k ++ (rs ≫= run_bytes) ++ tl). split_and!; [lia|done|].
      give_field u16_format k; [lia|].
      destruct (_ || _) eqn:Ec.
      { exfalso. apply orb_true_iff in Ec as [Ec|Ec]; [apply orb_true_iff in Ec as [Ec|Ec]; bool_to_prop; lia|].
        by rewrite (proj2 (gap_test _ _) (proj2 Ha1)) in Ec. }
      rewrite checked_add_fits by (change (2 ^ 16) with 65536; lia). cbn [ok_or rbind].
      destruct (N.ltb_spec (domain r0) (a + (k - 1))); [lia|].
      replace (a + (k - 1) + 1) with (a + k) by lia.
      assert (Hin : forall x, x ∈ range a (a + k) -> 1 <= x <= domain r0) by (intros x ?%elem_of_range; lia).
      rewrite (insert_all layout) by done. cbn [rbind].
      destruct (add_list_spec layout r0 (range a (a + k))) as (Hw' & Hd' & _); [done|done|].
      apply IH; [done|small_lia|]. exists rs, tl. rewrite <- !app_assoc, Hd'. split_and!; try done; [simpl in Hl; lia|].
      unfold run_lo. destruct (N.eqb_spec (a + (k - 1)) 0); [lia|].
      by replace (a + (k - 1) + 2) with (a + k + 1) by lia.
Qed.

(** ** Bitmaps *)
Definition byte_bit (bs : list byte) (i : N) : bool :=
  match bs !! N.to_nat (i / 8) with Some b => N.testbit (byte_val b) (i mod 8) | None => false end.

Lemma byte_bit_cons b bs i : byte_bit (b :: bs) i = if i <? 8 then N.testbit (byte_val b) i else byte_bit bs (i - 8).
Proof.
  unfold byte_bit. destruct (N.ltb_spec i 8) as [|Hi].
  - by rewrite N.div_small, N.mod_small by done.
  - replace (N.to_nat (i / 8)) with (S (N.to_nat ((i - 8) / 8))) by dlia. simpl.
    replace (i mod 8) with ((i - 8) mod 8) by dlia. done.
Qed.
Lemma byte_bit_high b j : 8 <= j -> N.testbit (byte_val b) j = false.
Proof. intros. apply (testbit_high _ 8); [apply byte_val_lt|done]. Qed.

Lemma alter_lor_bit k b ws i : i < 64 * len ws -> N.of_nat k < 8 * len ws ->
  mask_bit (alter (fun word => N.lor word (shl_w 64 (byte_val b) (N.of_nat (k mod 8) * 8))) (k / 8)%nat ws) i =
    mask_bit ws i || (i / 8 =? N.of_nat k) && N.testbit (byte_val b) (i mod 8).
Proof.
  intros Hi Hk. unfold mask_bit.
  assert (Hkd : N.of_nat (k / 8) = N.of_nat k / 8) by (rewrite Nat2N.inj_div; done).
  assert (Hkm : N.of_nat (k mod 8) = N.of_nat k mod 8) by (rewrite Nat2N.inj_mod; done).
  rewrite Hkm.
  destruct (decide (i / 64 = N.of_nat k / 8)) as [He|He].
  - replace (N.to_nat (i / 64)) with (k / 8)%nat by lia. rewrite list_lookup_alter_eq.
    destruct (lookup_lt_is_Some_2 ws (k / 8)) as [w Hwk]; [unfold len in *; dlia|]. rewrite Hwk. simpl.
    rewrite N.lor_spec. f_equal. unfold shl_w, trunc.
    rewrite N.land_spec, N.ones_spec_low, andb_true_r by apply mod_64.
    destruct (N.eqb_spec (i / 8) (N.of_nat k)) as [E|E].
    + rewrite N.shiftl_spec_high' by dlia. simpl. f_equal. dlia.
    + simpl. destruct (decide (i mod 64 < (N.of_nat k mod 8) * 8)).
      * by rewrite N.shiftl_spec_low.
      * rewrite N.shiftl_spec_high' by lia. apply byte_bit_high. dlia.
  - rewrite list_lookup_alter_ne by lia.
    destruct (N.eqb_spec (i / 8) (N.of_nat k)) as [E|E]; [exfalso; apply He; dlia|].
    by rewrite orb_false_r.
Qed.
Lemma alter_lor_wf n k b ws : mask_wf n ws ->
  mask_wf n (alter (fun word => N.lor word (shl_w 64 (byte_val b) (N.of_nat (k mod 8) * 8))) (k / 8)%nat ws).
Proof.
  intros [Hl Hf]. split; [by rewrite length_alter|]. apply Forall_alter; [done|].
  intros w _ Hw. unfold word_wf in *. apply lor_lt_pow2; [done|]. unfold shl_w. rewrite trunc_mod.
  by apply N.mod_lt.
Qed.
Lemma parse_bitmap_spec n k bs ws i : mask_wf n ws -> (k + length bs <= 8 * n)%nat -> i < 64 * len ws ->
  mask_wf n (parse_bitmap k bs ws) /\
  mask_bit (parse_bitmap k bs ws) i =
    mask_bit ws i || (if i <? 8 * N.of_nat k then false else byte_bit bs (i - 8 * N.of_nat k)).
Proof.
  revert k ws; induction bs as [|b bs IH]; intros k ws Hm Hk Hi; cbn [parse_bitmap].
  - split; [done|]. unfold byte_bit. rewrite lookup_nil. destruct (i <? _); by rewrite orb_false_r.
  - simpl in Hk. assert (Hlen : len ws = N.of_nat n) by (unfold len; by rewrite (proj1 Hm)).
    destruct (IH (S k) (alter (fun word => N.lor word (shl_w 64 (byte_val b) (N.of_nat (k mod 8) * 8))) (k / 8)%nat ws))
      as [H1 H2]; [by apply alter_lor_wf|lia|unfold len in *; by rewrite length_alter|].
    split; [done|]. rewrite H2, alter_lor_bit by lia. rewrite <- orb_assoc. f_equal.
    rewrite byte_bit_cons.
    destruct (N.ltb_spec i (8 * N.of_nat k)).
    + destruct (N.eqb_spec (i / 8) (N.of_nat k)); [dlia|].
      destruct (N.ltb_spec i (8 * N.of_nat (S k))); [done|lia].
    + destruct (N.ltb_spec (i - 8 * N.of_nat k) 8), (N.ltb_spec i (8 * N.of_nat (S k))); try lia.
      * destruct (N.eqb_spec (i / 8) (N.of_nat k)); [|dlia]. simpl. rewrite orb_false_r. f_equal. dlia.
      * destruct (N.eqb_spec (i / 8) (N.of_nat k)); [dlia|]. simpl. f_equal. lia.
Qed.
Lemma parse_bitmap_wf bs : (length bs <= 64)%nat -> mask_wf 8 (parse_bitmap 0 bs (replicate 8 0)).
Proof. intros. apply (parse_bitmap_spec 8 0 bs (replicate 8 0) 0); [apply mask_wf_replicate|lia|done]. Qed.
Lemma parse_bitmap_bit bs i : (length bs <= 64)%nat -> i < 512 ->
  mask_bit (parse_bitmap 0 bs (replicate 8 0)) i = byte_bit bs i.
Proof.
  intros. destruct (parse_bitmap_spec 8 0 bs (replicate 8 0) i) as [_ ->]; [apply mask_wf_replicate|lia|done|].
  rewrite mask_bit_zero. change (8 * N.of_nat 0) with 0.
  destruct (N.ltb_spec i 0); [lia|]. by rewrite N.sub_0_r.
Qed.

(** The tail test of [parse]: no bit at or above the domain. *)
Definition tail_bad (d : N) (bs : list byte) : bool :=
  negb (d mod 8 =? 0) &&
  match index bs (len bs - 1) with
  | Some byte => negb (N.shiftr (byte_val byte) (d mod 8) =? 0)
  | None => false
  end.
Lemma tail_bad_spec d bs : 1 <= d -> len bs = div_ceil d 8 ->
  tail_bad d bs = false <-> forall i, byte_bit bs i = true -> i < d.
Proof.
  intros Hd Hl. unfold tail_bad, div_ceil in *.
  destruct (N.eqb_spec (d mod 8) 0) as [Ht|Ht]; simpl.
  - split; [intros _ i Hb|done]. unfold byte_bit in Hb.
    destruct (bs !! N.to_nat (i / 8)) eqn:E; [|done]. apply lookup_lt_Some in E. unfold len in *. dlia.
  - unfold index. rewrite Hl. destruct (lookup_lt_is_Some_2 bs (N.to_nat ((d + 8 - 1) / 8 - 1))) as [b Eb];
      [unfold len in *; dlia|]. rewrite Eb, negb_false_iff, N.eqb_eq. split.
    + intros H i Hb. unfold byte_bit in Hb. destruct (bs !! N.to_nat (i / 8)) as [b'|] eqn:E; [|done].
      pose proof (lookup_lt_Some _ _ _ E).
      destruct (decide (i / 8 = (d + 8 - 1) / 8 - 1)) as [Hq|Hq]; [|unfold len in *; dlia].
      rewrite Hq, Eb in E. injection E as <-. destruct (decide (i mod 8 < d mod 8)); [dlia|].
      assert (N.testbit (N.shiftr (byte_val b) (d mod 8)) (i mod 8 - d mod 8) = true) as Hs.
      { rewrite N.shiftr_spec'. by replace (i mod 8 - d mod 8 + d mod 8) with (i mod 8) by lia. }
      by rewrite H, N.bits_0 in Hs.
    + intros H. apply N.bits_inj_0. intros j. rewrite N.shiftr_spec'.
      destruct (decide (j + d mod 8 < 8)) as [Hj|Hj]; [|apply byte_bit_high; lia].
      specialize (H (((d + 8 - 1) / 8 - 1) * 8 + (j + d mod 8))). unfold byte_bit in H.
      rewrite (N.add_comm (_ * 8)), N.div_add, N.Div0.mod_add, N.div_small, N.mod_small, N.add_0_l, Eb in H by lia.
      destruct (N.testbit _ _); [|done]. specialize (H eq_refl). dlia.
Qed.

Lemma bitmap_byte_bit layout s j k : wf layout s -> j < 64 -> k < 8 ->
  N.testbit (byte_val (bitmap_byte s j)) k = mask_bit (words s) (8 * j + k).
Proof.
  intros Hw Hj Hk. unfold bitmap_byte. rewrite byte_val_of_small.
  2:{ rewrite trunc_mod. by apply N.mod_lt. }
  rewrite trunc_mod, N.mod_pow2_bits_low, N.shiftr_spec' by done. unfold mask_bit, word.
  replace ((8 * j + k) / 64) with (j / 8) by dlia. f_equal. dlia.
Qed.
Lemma byte_bit_body layout s i : wf layout s -> i < 512 -> byte_bit (body s Bitmap) i = mask_bit (words s) i.
Proof.
  intros Hw Hi. pose proof (wf_domain_le _ _ Hw). unfold byte_bit, body. rewrite list_lookup_fmap.
  destruct (decide (i / 8 < div_ceil (domain s) 8)) as [Hlt|Hge].
  - rewrite range_lookup by lia. simpl. rewrite (bitmap_byte_bit layout) by (done || dlia). f_equal. dlia.
  - rewrite lookup_ge_None_2.
    + simpl. destruct (mask_bit (words s) i) eqn:E; [|done]. apply (wf_tail _ _ Hw) in E. unfold div_ceil in *. dlia.
    + unfold range. rewrite length_fmap, length_seq. lia.
Qed.
Lemma parse_bitmap_body layout s : wf layout s -> parse_bitmap 0 (body s Bitmap) (replicate 8 0) = words s.
Proof.
  intros Hw. pose proof (wf_domain_le _ _ Hw).
  assert (Hl : (length (body s Bitmap) <= 64)%nat).
  { unfold body, range, div_ceil. rewrite !length_fmap, length_seq. dlia. }
  apply (mask_ext 8); [by apply parse_bitmap_wf|apply Hw|]. intros i Hi.
  by rewrite parse_bitmap_bit, (byte_bit_body layout) by (done || lia).
Qed.
Lemma body_parse_bitmap layout bs : layout_wf layout -> len bs = div_ceil (max_offset layout) 8 ->
  let s := mkOffsetSet (parse_bitmap 0 bs (replicate 8 0)) (max_offset layout) in
  tail_bad (max_offset layout) bs = false -> wf layout s /\ body s Bitmap = bs.
Proof.
  intros Hl Hb s Ht. assert (Hd : 1 <= max_offset layout <= 512) by done.
  assert (Hl64 : (length bs <= 64)%nat) by (unfold len, div_ceil in *; dlia).
  rewrite tail_bad_spec in Ht by (done || lia).
  assert (Hw : wf layout s).
  { split; [done|done|by apply parse_bitmap_wf|]. intros i Hi. destruct (decide (i < 512)).
    - apply Ht. unfold s in Hi; cbn in Hi. by rewrite parse_bitmap_bit in Hi.
    - assert (Hlw : len (words s) = 8) by (unfold len; by rewrite (proj1 (parse_bitmap_wf bs Hl64) : length (words s) = 8%nat)).
      rewrite mask_bit_default in Hi; [done|lia]. }
  split; [done|]. unfold body. apply list_eq. intros j. rewrite list_lookup_fmap.
  destruct (decide (N.of_nat j < div_ceil (max_offset layout) 8)) as [Hj|Hj].
  - replace j with (N.to_nat (N.of_nat j)) by lia. change (domain s) with (max_offset layout).
    rewrite range_lookup by lia. rewrite Nat2N.id. simpl.
    destruct (lookup_lt_is_Some_2 bs j) as [b Eb]; [unfold len in *; lia|]. rewrite Eb. f_equal.
    apply byte_val_inj, N.bits_inj. intros k. destruct (decide (k < 8)) as [Hk|Hk]; [|by rewrite !byte_bit_high by lia].
    assert (N.of_nat j < 64) by (unfold div_ceil in *; dlia).
    rewrite N.add_0_l, (bitmap_byte_bit layout) by done. unfold s; cbn [words].
    rewrite parse_bitmap_bit by (done || lia). unfold byte_bit.
    replace ((8 * N.of_nat j + k) / 8) with (N.of_nat j) by dlia. rewrite Nat2N.id, Eb. f_equal. dlia.
  - rewrite (lookup_ge_None_2 bs) by (unfold len in *; lia). rewrite lookup_ge_None_2; [done|].
    unfold range. rewrite length_fmap, length_seq. cbn [domain s]. unfold s; cbn. lia.
Qed.

(** ** The whole payload *)
Lemma members_in layout s x : wf layout s -> x ∈ members s -> x <= domain s.
Proof. intros Hw [? _]%(elem_of_members layout); [lia|done]. Qed.
Lemma runs_members_len layout s : wf layout s -> len (runs_of (members s)) <= card s.
Proof. intros Hw. rewrite (card_members layout) by done. apply runs_of_len. Qed.

Lemma parse_payload layout s e : wf layout s -> small (payload s e) -> parse (payload s e) layout = Ok s.
Proof.
  intros Hw Hs. pose proof (wf_domain_le _ _ Hw) as Hd. pose proof (card_le _ _ Hw) as Hc.
  pose proof (wf_layout _ _ Hw) as Hlw. pose proof (wf_domain _ _ Hw) as Ed.
  unfold parse, payload in *. rewrite reading_new.
  give_field u16_format (domain s); [lia|]. rewrite Ed, N.eqb_refl. cbn [negb].
  give_field u16_format (card s); [lia|]. rewrite (proj2 (N.ltb_ge _ _)) by lia.
  give_field u8_format (tag e); [by destruct e|].
  give_field u8_format 0; [done|]. cbn [N.eqb negb]. rewrite <- !app_assoc.
  set (pre := [] ++ _) in *. assert (Hs' : small (pre ++ body s e)) by (unfold pre; small_lia). clearbody pre.
  apply rbind_ok. exists (reading (pre ++ body s e) [], s). split.
  2:{ rewrite finish_reading. cbn [rbind]. by rewrite N.eqb_refl. }
  pose proof (new_wf _ Hlw) as Hn. pose proof (members_asc s) as Ha.
  destruct e; cbn [tag body] in *.
  - apply (parse_sparse_iff layout); [done|done|]. exists (members s), []. rewrite app_nil_r.
    split_and!; [rewrite (card_members layout) by done; by rewrite to_nat_len|done| |done|done|].
    + intros x Hx. simpl. rewrite <- Ed. by eapply members_in.
    + symmetry. by apply (of_list_members layout).
  - give_field (take_format _) (body s Bitmap) before (@nil byte);
      [cbn [body]; rewrite len_fmap, len_range, Ed; cbn; lia|by rewrite app_nil_r|].
    cbn [domain new words]. rewrite parse_bitmap_body with (1 := Hw).
    pose proof (proj2 (tail_bad_spec (max_offset layout) (body s Bitmap) ltac:(lia)
      ltac:(cbn [body]; rewrite len_fmap, len_range, Ed; lia))) as Ht. unfold tail_bad in Ht. rewrite Ht.
    + cbn [id body]. rewrite <- Ed. by destruct s.
    + intros i Hi. rewrite <- Ed. apply (wf_tail _ _ Hw). rewrite <- (byte_bit_body layout) by
        (done || (unfold byte_bit in Hi; destruct (body s Bitmap !! N.to_nat (i / 8)) eqn:E; [|done];
          apply lookup_lt_Some in E; cbn [body] in E; rewrite length_fmap in E; unfold range in E;
          rewrite length_fmap, length_seq in E; unfold div_ceil in E; dlia)). done.
  - pose proof (runs_members_len _ _ Hw).
    give_field u16_format (len (runs_of (members s))); [lia|].
    rewrite (proj2 (N.ltb_ge _ _)) by lia.
    apply (parse_runs_iff layout); [done|small_lia|]. exists (runs_of (members s)), []. rewrite !app_nil_r, <- app_assoc.
    split_and!; [by rewrite to_nat_len|by apply runs_of_wf| |done|done|].
    + intros x. rewrite of_runs_of. simpl. rewrite <- Ed. by apply (members_in layout).
    + rewrite of_runs_of. symmetry. by apply (of_list_members layout).
Qed.

Lemma parse_sound layout bs s : layout_wf layout -> small bs ->
  parse bs layout = Ok s -> wf layout s /\ exists e, bs = payload s e.
Proof.
  intros Hl Hs H. pose proof (new_wf _ Hl) as Hn. unfold parse in H. rewrite reading_new in H.
  next_field H u16_format as d tl1 Hd. apply if_err_ok in H as [->%negb_false_iff%N.eqb_eq H].
  next_field H u16_format as c tl2 Hc. apply if_err_ok in H as [Hcl H].
  next_field H u8_format as t tl3 Ht. next_field H u8_format as fl tl Hf.
  apply if_err_ok in H as [->%negb_false_iff%N.eqb_eq H].
  rewrite <- !app_assoc in H. set (pre := [] ++ _) in H. assert (Hs' : small (pre ++ tl)) by (unfold pre; small_lia).
  clearbody pre. apply rbind_ok in H as ([r res] & Hm & H). apply rbind_ok in H as (u & Hfin & H).
  apply if_err_ok in H as [<-%negb_false_iff%N.eqb_eq H]. injection H as ->.
  enough (He : wf layout s /\ exists e, byte_of t = byte_of (tag e) /\ tl = body s e).
  { destruct He as (Hw & e & -> & ->). split; [done|]. exists e. unfold payload. by rewrite (wf_domain _ _ Hw). }
  assert (Hcase : t = 0 \/ t = 1 \/ t = 2) by (destruct t as [|[?|[?|?|]|]]; try done; tauto).
  destruct Hcase as [-> | [-> | ->]].
  - apply (parse_sparse_iff layout) in Hm as (l & tl' & Hll & Ha & Hd' & -> & -> & ->); [|done|done].
    apply finish_reading_iff in Hfin as ->. destruct (of_list_spec layout l) as [Hw _]; [done| |].
    { intros x Hx. split; [by eapply asc_ge in Ha|by apply Hd']. }
    split; [done|]. exists Sparse. split; [done|]. cbn [body].
    change (add_list (new layout) l) with (of_list layout l). by rewrite (members_of_list layout), app_nil_r.
  - next_field Hm (take_format _) as bs tl' Hb. cbv zeta in Hm. apply if_err_ok in Hm as [Htl Hm].
    injection Hm as <- <-. apply finish_reading_iff in Hfin as ->. cbn [domain words new id] in *.
    destruct (body_parse_bitmap layout bs) as [Hw Hbody]; [done|done|exact Htl|].
    split; [done|]. exists Bitmap. split; [done|]. etrans; [apply app_nil_r|]. symmetry. exact Hbody.
  - next_field Hm u16_format as k tl' Hk. apply if_err_ok in Hm as [Hkc Hm].
    apply (parse_runs_iff layout) in Hm as (rs & tl'' & Hrl & Hrw & Hri & -> & -> & ->); [|done|small_lia].
    apply finish_reading_iff in Hfin as ->. pose proof (of_runs_asc _ _ Hrw) as Ha. cbn [run_lo N.eqb] in Ha.
    destruct (of_list_spec layout (of_runs rs)) as [Hw _]; [done| |].
    { intros x Hx. split; [by eapply asc_ge in Ha|by apply Hri]. }
    split; [done|]. exists Runs. split; [done|]. cbn [body].
    change (add_list (new layout) (of_runs rs)) with (of_list layout (of_runs rs)).
    rewrite (members_of_list layout), (runs_of_of_runs _ _ Hrw), app_nil_r by done.
    do 2 f_equal. unfold len. lia.
Qed.

(** ** Set operations *)
Lemma kernel_words layout s1 s2 k operation : wf layout s1 -> wf layout s2 ->
  kernels_combine k operation (words s1) (words s2) (replicate 8 0) =
    Ok (zip_with (op_word (op_flags operation).1 (op_flags operation).2) (words s1) (words s2)).
Proof.
  intros [_ _ [L1 F1] _] [_ _ [L2 F2] _]. apply kernels_combine_zip; [lia|by rewrite length_replicate|done|done].
Qed.
Lemma zip_wf layout s1 s2 operation : wf layout s1 -> wf layout s2 ->
  let s := mkOffsetSet (zip_with (op_word (op_flags operation).1 (op_flags operation).2) (words s1) (words s2)) (domain s1) in
  wf layout s /\ forall o, contains s o = op_bit operation (contains s1 o) (contains s2 o).
Proof.
  intros H1 H2 s. pose proof (wf_len _ _ H1). pose proof (wf_domain_le _ _ H1).
  assert (Hd : domain s1 = domain s2) by by rewrite (wf_domain _ _ H1), (wf_domain _ _ H2).
  assert (Hb : forall i, i < 512 -> mask_bit (words s) i = op_bit operation (mask_bit (words s1) i) (mask_bit (words s2) i)).
  { intros i ?. apply mask_bit_zip; [|intros; by apply op_word_bit|lia].
    by rewrite (proj1 (wf_words _ _ H1)), (proj1 (wf_words _ _ H2)). }
  assert (Hm : mask_wf 8 (words s)).
  { apply mask_wf_zip; [apply H1|apply H2|]. intros; by apply op_word_wf. }
  split.
  - split; [apply H1|apply H1|done|]. intros i Hi. destruct (decide (i < 512)).
    + rewrite Hb in Hi by done. pose proof (wf_tail _ _ H1 i). pose proof (wf_tail _ _ H2 i). cbn.
      destruct operation, (mask_bit (words s1) i), (mask_bit (words s2) i); simpl in Hi; try done; auto; rewrite Hd; auto.
    + rewrite mask_bit_default in Hi; [done|]. unfold len. rewrite (proj1 Hm). lia.
  - intros o. rewrite !contains_bit. change (domain s) with (domain s1). rewrite <- Hd.
    destruct (N.eqb_spec o 0), (N.ltb_spec (domain s1) o); simpl; try by destruct operation.
    apply Hb. lia.
Qed.

(** * Properties *)

(** C39: [parse] accepts exactly the encodings of the well-formed offset sets of the
    layout, in each of the three formats: it returns [s] if and only if the bytes are
    the canonical sparse, bitmap or run encoding of [s].  So every encoding
    round-trips, and no two byte strings of one format denote the same set. *)
Theorem offsets_parse_exact layout bs s : layout_wf layout -> small bs ->
  parse bs layout = Ok s <-> wf layout s /\ exists e, bs = payload s e.
Proof.
  intros Hl Hs. split; [by apply parse_sound|]. intros (Hw & e & ->). by apply parse_payload.
Qed.
Lemma offsets_parse_exact_witness :
  exists s, wf (mkHeapLayout 20) s /\ members s = [1; 2; 3; 7] /\
    exists e, map byte_of [20; 0; 4; 0; 2; 0; 2; 0; 1; 0; 3; 0; 7; 0; 1; 0] = payload s e.
Proof.
  exists (mkOffsetSet [0x47; 0; 0; 0; 0; 0; 0; 0] 20).
  destruct (proj1 (offsets_parse_exact (mkHeapLayout 20)
    (map byte_of [20; 0; 4; 0; 2; 0; 2; 0; 1; 0; 3; 0; 7; 0; 1; 0])
    (mkOffsetSet [0x47; 0; 0; 0; 0; 0; 0; 0] 20) ltac:(by split) ltac:(by vm_compute)) ltac:(vm_compute; reflexivity)) as [H1 H2].
  split; [exact H1|]. split; [vm_compute; reflexivity|exact H2].
Defined.

(** [encode] into a large enough buffer succeeds, writes exactly the announced
    number of bytes, leaves the rest of the buffer alone, picks a shortest of the
    three encodings, and [parse] returns the set; into a shorter buffer it fails
    with [Truncated]. *)
Theorem offsets_encode_shortest layout s output : wf layout s -> small output ->
  (forall e, encoded_len s (preferred_encoding s) <= encoded_len s e) /\
  (len output < encoded_len s (preferred_encoding s) -> encode s output = Err (Codec.new 0 Codec.Truncated)) /\
  (encoded_len s (preferred_encoding s) <= len output ->
   exists bytes, encode s output = Ok (len bytes, bytes ++ drop (length bytes) output) /\
     len bytes = encoded_len s (preferred_encoding s) /\ parse bytes layout = Ok s).
Proof.
  intros Hw Hs. split_and!.
  - unfold preferred_encoding.
    destruct (N.leb_spec (encoded_len s Sparse) (encoded_len s Bitmap)), (N.leb_spec (encoded_len s Sparse) (encoded_len s Runs)),
      (N.leb_spec (encoded_len s Bitmap) (encoded_len s Runs)); cbn [andb]; intros []; lia.
  - intros Hl. unfold encode, encode_as. by rewrite (proj2 (N.ltb_lt _ _) Hl).
  - intros Hl. exists (payload s (preferred_encoding s)).
    pose proof (len_payload _ _ (preferred_encoding s) Hw) as Hp.
    split_and!; [by apply (encode_as_payload layout)|done|]. apply parse_payload; [done|small_lia].
Qed.
Lemma offsets_encode_shortest_witness :
  exists bytes, encode (mkOffsetSet [0x47; 0; 0; 0; 0; 0; 0; 0] 20) (replicate 32 xff) = Ok (len bytes, bytes ++ drop (length bytes) (replicate 32 xff)) /\
    len bytes = 9 /\ parse bytes (mkHeapLayout 20) = Ok (mkOffsetSet [0x47; 0; 0; 0; 0; 0; 0; 0] 20).
Proof.
  assert (Hw : wf (mkHeapLayout 20) (mkOffsetSet [0x47; 0; 0; 0; 0; 0; 0; 0] 20)).
  { apply (parse_sound (mkHeapLayout 20) (map byte_of [20; 0; 4; 0; 1; 0; 0x47; 0; 0])); by vm_compute. }
  apply (offsets_encode_shortest (mkHeapLayout 20) _ (replicate 32 xff) Hw); by vm_compute.
Defined.

(** on sets of one layout the three operations never fail, whatever kernel
    computes them: the default path and every selected kernel give the same
    well-formed set, and membership in it is the boolean operation on membership. *)
Theorem offsets_combine_members layout s1 s2 operation k : wf layout s1 -> wf layout s2 ->
  exists s, combine_with s1 s2 operation k = Ok s /\
    match operation with
    | Intersection => intersection s1 s2
    | Union => union s1 s2
    | Difference => difference s1 s2
    end = Ok s /\
    wf layout s /\ forall o, contains s o = op_bit operation (contains s1 o) (contains s2 o).
Proof.
  intros H1 H2. assert (Hd : domain s1 = domain s2) by by rewrite (wf_domain _ _ H1), (wf_domain _ _ H2).
  eexists. split_and!; [| |apply (zip_wf layout s1 s2 operation H1 H2)..].
  - unfold combine_with. by rewrite Hd, N.eqb_refl, (kernel_words layout) by done.
  - destruct operation; unfold intersection, union, difference, combine; by rewrite Hd, N.eqb_refl.
Qed.
Lemma offsets_combine_members_witness :
  exists s, difference (mkOffsetSet [0x47; 0; 0; 0; 0; 0; 0; 0] 20) (mkOffsetSet [0x3; 0; 0; 0; 0; 0; 0; 0] 20) = Ok s /\
    contains s 3 = true /\ contains s 1 = false.
Proof.
  assert (H1 : wf (mkHeapLayout 20) (mkOffsetSet [0x47; 0; 0; 0; 0; 0; 0; 0] 20)).
  { apply (parse_sound (mkHeapLayout 20) (map byte_of [20; 0; 4; 0; 1; 0; 0x47; 0; 0])); by vm_compute. }
  assert (H2 : wf (mkHeapLayout 20) (mkOffsetSet [0x3; 0; 0; 0; 0; 0; 0; 0] 20)).
  { apply (parse_sound (mkHeapLayout 20) (map byte_of [20; 0; 2; 0; 1; 0; 0x3; 0; 0])); by vm_compute. }
  destruct (offsets_combine_members (mkHeapLayout 20) (mkOffsetSet [0x47; 0; 0; 0; 0; 0; 0; 0] 20) (mkOffsetSet [0x3; 0; 0; 0; 0; 0; 0; 0] 20)
    Difference (mkKernels Avx2Backend) H1 H2) as (s & _ & Hs & _ & Hc).
  exists s. split; [exact Hs|]. rewrite !Hc. split; reflexivity.
Defined.

(** iterating a set yields its members in strictly ascending order, each once;
    [len] counts them, and inserting an offset of the domain adds exactly that
    offset and reports whether it was absent. *)
Theorem offsets_iterate_insert layout s o : wf layout s ->
  asc 1 (iterate s) /\ (forall x, x ∈ iterate s <-> contains s x = true) /\ card s = len (iterate s) /\
  (1 <= o <= domain s -> exists s', insert s o = Ok (negb (contains s o), s') /\ wf layout s' /\
     forall x, contains s' x = contains s x || (x =? o)) /\
  (~ 1 <= o <= domain s -> insert s o = Err (Codec.new 0 Codec.InvalidValue)).
Proof.
  intros Hw. rewrite (iterate_members layout) by done. split_and!.
  - apply members_asc.
  - intros x. by rewrite (contains_members layout).
  - by apply (card_members layout).
  - intros Ho. exists (add s o). split_and!; [by apply (insert_add layout)|by apply add_wf|].
    intros x. apply eq_true_iff_eq. rewrite orb_true_iff, N.eqb_eq, !(contains_members layout) by (done || by apply add_wf).
    by apply (elem_of_add layout).
  - apply insert_out.
Qed.
Lemma offsets_iterate_insert_witness :
  iterate (mkOffsetSet [0x47; 0; 0; 0; 0; 0; 0; 0] 20) = [1; 2; 3; 7] /\ asc 1 [1; 2; 3; 7].
Proof.
  assert (Hw : wf (mkHeapLayout 20) (mkOffsetSet [0x47; 0; 0; 0; 0; 0; 0; 0] 20)).
  { apply (parse_sound (mkHeapLayout 20) (map byte_of [20; 0; 4; 0; 1; 0; 0x47; 0; 0])); by vm_compute. }
  split; [vm_compute; reflexivity|]. apply (offsets_iterate_insert (mkHeapLayout 20) _ 5 Hw).
Defined.
End OffsetSet.
