(* ===== verification/Positions.v ===== *)
(** Position streams: [src/crates/pin-core/src/codec/positions.rs].

    The positions of one term in one document as a count and canonical deltas,
    iterated without allocation.  The theorems: [parse] accepts exactly the
    encodings of strictly ascending lists within the caller's limit, the iterator of
    a parsed view yields that list, and [encode] is its inverse; neither panics. *)
From S2P Require Export Bytes Lists.

Record Positions : Type := mkPositions { payload : list byte; count : N }.
Record PositionIter : Type := mkPositionIter {
  reader : Reader.t; remaining : N; previous : N; first : bool }.

Module Positions.
Import Codec.

(** [Positions::iter] *)
Definition iter (self : Positions) : PositionIter :=
  mkPositionIter (Reader.new (payload self)) (count self) 0 true.

(** [PositionIter::next]; after an error the iterator only ends, so its reader is
    left where it was. *)
Definition next (self : PositionIter) : option (Codec.Result N) * PositionIter :=
  if remaining self =? 0 then (None, self)
  else
    let offset := Reader.offset (reader self) in
    let next :=
      let* '(delta, reader) := Reader.var_u32 (reader self) in
      if negb (first self) && (delta =? 0) then fail offset InvalidOrder
      else
        let* value := ok_or (checked_add 32 (previous self) delta) (Codec.new offset Overflow) in
        Ok (value, reader) in
    match next with
    | Ok (value, reader) => (Some (Ok value), mkPositionIter reader (remaining self - 1) value false)
    | Err e => (Some (Err e), mkPositionIter (reader self) 0 (previous self) (first self))
    | Panic => (Some Panic, self)
    end.

(** [for position in iter { position? }], with the positions it went through. *)
Fixpoint drain (fuel : nat) (self : PositionIter) : Codec.Result (list N * PositionIter) :=
  match fuel with
  | O => Panic
  | S fuel' =>
      match next self with
      | (None, self) => Ok ([], self)
      | (Some position, self) =>
          let* position := position in
          let* '(rest, self) := drain fuel' self in
          Ok (position :: rest, self)
      end
  end.

(** [Positions::parse] *)
Definition parse (bytes : list byte) (max_positions : N) : Codec.Result Positions :=
  let reader0 := Reader.new bytes in
  let* '(count, reader0) := Reader.u32 reader0 in
  if max_positions <? count then fail 0 LimitExceeded
  else if Reader.remaining reader0 <? count then fail 4 Truncated
  else
    let* '(payload, _) := Reader.take reader0 (Reader.remaining reader0) in
    let view := mkPositions payload count in
    let* '(_, iter) := drain (S (N.to_nat count)) (iter view) in
    let* _ := Reader.finish (reader iter) in
    Ok view.

(** The two loops of [encode]. *)
Definition measure (state : N * N * N) (position : N) : Codec.Result (N * N * N) :=
  let '(index, bytes, previous) := state in
  if negb (index =? 0) && (position <=? previous) then fail index InvalidOrder
  else
    let* delta := sub_w position previous in
    let* bytes := ok_or (checked_add usize bytes (var_u32_len delta)) (Codec.new index Overflow) in
    Ok (index + 1, bytes, position).
Definition emit (state : Writer.t * N) (position : N) : Codec.Result (Writer.t * N) :=
  let '(writer, previous) := state in
  let* delta := sub_w position previous in
  let* writer := Writer.var_u32 writer delta in
  Ok (writer, position).

(** [encode]: the bytes written and the output. *)
Definition encode (positions : list N) (output : list byte) (max_positions : N)
  : Codec.Result (N * list byte) :=
  if 2 ^ 32 <=? len positions then fail 0 LimitExceeded
  else
    let count := len positions in
    if max_positions <? count then fail 0 LimitExceeded
    else
      let* '(_, bytes, _) := foldM measure (0, 4, 0) positions in
      if len output <? bytes then fail 0 Truncated
      else
        let writer := Writer.new output in
        let* writer := Writer.u32 writer count in
        let* '(writer, _) := foldM emit (writer, 0) positions in
        Ok (Writer.written writer, Writer.bytes writer).

(** * Lemmas *)

(** The delta encoding of a list after [prev]. *)
Fixpoint deltas (prev : N) (l : list N) : list byte :=
  match l with
  | [] => []
  | x :: l' => varint32 (x - prev) ++ deltas x l'
  end.
Definition u32s (l : list N) : Prop := Forall (fun x => x < 2 ^ 32) l.
Definition encoding (l : list N) : list byte := le_bytes 4 (len l) ++ deltas 0 l.

(** The bound the next position has to reach. *)
Definition lo (first : bool) (prev : N) : N := if first then prev else prev + 1.

Lemma varint32_len v : v < 2 ^ 32 -> 1 <= len (varint32 v) <= 5.
Proof. intros. apply (varint_len 5); [lia|auto with pin]. Qed.
Lemma deltas_len prev l : u32s l -> len l <= len (deltas prev l) <= 5 * len l.
Proof.
  intros H; revert prev. induction H as [|x l Hx _ IH]; intros prev; [done|]. cbn [deltas].
  rewrite len_app, len_cons. specialize (IH x). pose proof (varint32_len (x - prev) ltac:(lia)). lia.
Qed.

Lemma drain_iff fuel n pre s prev fresh l r' :
  N.of_nat fuel = n + 1 -> small (pre ++ s) -> prev < 2 ^ 32 -> (fresh = true -> prev = 0) ->
  (exists it', drain fuel (mkPositionIter (reading pre s) n prev fresh) = Ok (l, it') /\ reader it' = r') <->
  len l = n /\ asc (lo fresh prev) l /\ u32s l /\
  exists tl, s = deltas prev l ++ tl /\ r' = reading (pre ++ deltas prev l) tl.
Proof.
  revert n pre s prev fresh l. induction fuel as [|fuel IH]; intros n pre s prev fresh l Hf Hs Hp Hfp; [lia|].
  cbn [drain]. unfold next; cbn [remaining reader previous first].
  destruct (N.eqb_spec n 0) as [->|Hn].
  - split.
    + intros (it & [= <- <-] & <-). do 3 (split; [done || constructor|]). exists s. cbn. by rewrite app_nil_r.
    + intros (->%len_zero & _ & _ & tl & -> & ->). eexists. split; [done|]. cbn. by rewrite app_nil_r.
  - set (m := rbind _ _). assert (Hm : forall v r, m = Ok (v, r) <->
      lo fresh prev <= v /\ v < 2 ^ 32 /\ exists tl, s = varint32 (v - prev) ++ tl /\ r = reading (pre ++ varint32 (v - prev)) tl).
    { intros v r. unfold m. rewrite (format_bind _ _ _ _ _ _ _ var_u32_format) by done. split.
      - intros (d & tl & Hd & -> & H). apply if_err_ok in H as [Hz H].
        apply rbind_ok in H as (v' & [-> Hv]%ok_or_ok%checked_add_some & [= <- <-]).
        replace (prev + d - prev) with d by lia. split_and!; [|done|eauto].
        unfold lo. destruct fresh; [lia|]. simpl in Hz. bool_to_prop. lia.
      - intros (Hlo & Hv & tl & -> & ->). exists (v - prev), tl. split_and!; [lia|done|].
        rewrite (checked_add_fits 32) by (unfold lo in Hlo; destruct fresh; lia). cbn [ok_or rbind].
        replace (prev + (v - prev)) with v by (unfold lo in Hlo; destruct fresh; lia).
        destruct fresh; [done|]. unfold lo in Hlo. simpl. by rewrite (proj2 (N.eqb_neq _ _)) by lia. }
    assert (Hnone : (forall v r, m <> Ok (v, r)) -> ~ (len l = n /\ asc (lo fresh prev) l /\ u32s l /\
      exists tl, s = deltas prev l ++ tl /\ r' = reading (pre ++ deltas prev l) tl)).
    { intros Hno (Hl & Ha & Hu & tl' & -> & _). destruct l as [|x l]; [by rewrite len_nil in Hl|].
      apply list.Forall_cons_1 in Hu as [Hx Hu]. simpl in Ha. destruct Ha as [Hx' Ha]. cbn [deltas] in Hm.
      eapply Hno, (Hm x). split_and!; [done|done|]. rewrite <- app_assoc. eauto. }
    clearbody m. destruct m as [[v r]|e|]; cbn [rbind].
    + clear Hnone. destruct (proj1 (Hm v r) eq_refl) as (Hlo & Hv & tl & -> & ->). split.
      * intros (it & H & <-). apply rbind_ok in H as ([rest it1] & H & [= <- <-]).
        destruct (proj1 (IH (n - 1) (pre ++ varint32 (v - prev)) tl v false rest ltac:(lia) ltac:(small_lia) Hv ltac:(done))
          ltac:(eauto)) as (Hl & Ha & Hu & tl' & -> & ->).
        do 3 (split; [first [done | by constructor | rewrite len_cons; lia]|]). exists tl'. cbn [deltas].
        by rewrite <- !app_assoc.
      * intros (Hl & Ha & Hu & tl' & E & Hr). destruct l as [|x l]; [by rewrite len_nil in Hl|].
        cbn [deltas] in E, Hr. apply list.Forall_cons_1 in Hu as [Hx Hu]. simpl in Ha. destruct Ha as [Hx' Ha].
        rewrite <- app_assoc in E.
        pose proof (proj2 (Hm x (reading (pre ++ varint32 (x - prev)) (deltas x l ++ tl')))
          ltac:(split_and!; [done|done|eauto])) as Hq. injection Hq as -> Hpos.
        assert (Htl : tl = deltas x l ++ tl') by by apply app_inv_head in E. subst tl.
        destruct (proj2 (IH (n - 1) (pre ++ varint32 (x - prev)) (deltas x l ++ tl') x false l ltac:(lia) ltac:(small_lia) Hx ltac:(done)))
          as (it & Hd & Hit).
        { rewrite len_cons in Hl. split; [lia|]. split; [done|]. split; [done|].
          exists tl'. split; [done|]. by rewrite <- app_assoc. }
        exists it. rewrite Hd. cbn [rbind]. by split.
    + split; [intros (? & ? & _); done|]. intros H. exfalso. by apply Hnone.
    + split; [intros (? & ? & _); done|]. intros H. exfalso. by apply Hnone.
Qed.

(** The list behind a parsed view. *)
Definition denotes (view : Positions) (l : list N) : Prop :=
  asc 0 l /\ u32s l /\ len l < 2 ^ 32 /\ view = mkPositions (deltas 0 l) (len l).

Lemma positions_len_encoding l : len (encoding l) = 4 + len (deltas 0 l).
Proof. unfold encoding. len_lia. Qed.

Lemma drain_view view l : denotes view l -> small (payload view) ->
  exists it, drain (S (N.to_nat (count view))) (iter view) = Ok (l, it) /\ reader it = reading (payload view) [].
Proof.
  intros (Ha & Hu & Hl & ->) Hs. unfold iter; cbn [payload count] in *. rewrite reading_new.
  apply (drain_iff _ (len l)); [lia|done|done|done|]. split; [done|]. split; [done|]. split; [done|].
  exists []. by rewrite app_nil_r.
Qed.

Lemma positions_parse_iff bs max v : small bs ->
  parse bs max = Ok v <-> exists l, denotes v l /\ len l <= max /\ bs = encoding l.
Proof.
  intros Hs. unfold parse. rewrite reading_new. split.
  - intros H. next_field H u32_format as c tl Hc. apply if_err_ok in H as [Hm H]. apply if_err_ok in H as [Hr H].
    next_field H (take_format _) as p tl' Hp. rewrite remaining_reading in Hp. unfold id in *.
    apply rbind_ok in H as ([l it] & Hd & H). apply rbind_ok in H as (u & Hf & [= <-]).
    assert (tl' = []) as -> by (apply len_zero; len_lia). unfold iter in Hd. rewrite reading_new in Hd. cbn [payload count] in Hd.
    bool_to_prop. rewrite !app_nil_r in *.
    destruct (proj1 (drain_iff (S (N.to_nat c)) c [] p 0 true l (reader it) ltac:(lia) ltac:(unfold small in *; len_lia) ltac:(done) ltac:(done))
      ltac:(eauto)) as (Hl & Ha & Hu & tl & -> & Hrd). rewrite Hrd in Hf. apply finish_reading_iff in Hf as ->.
    rewrite app_nil_r. exists l. unfold denotes. rewrite Hl. split; [|split; [done|by unfold encoding; rewrite Hl]].
    done.
  - intros (l & Hv & Hm & ->). pose proof Hv as (Ha & Hu & Hl & ->). pose proof (deltas_len 0 l Hu).
    unfold encoding in *. give_field u32_format (len l); [done|].
    rewrite (proj2 (N.ltb_ge max _)), remaining_reading, (proj2 (N.ltb_ge _ (len l))) by lia.
    give_field (take_format _) (deltas 0 l) before (@nil byte); [done|by rewrite app_nil_r|].
    destruct (drain_view _ _ Hv) as (it & Hd & Hr); [cbn; small_lia|]. cbn [count] in Hd. unfold id.
    rewrite Hd. cbn [rbind]. by rewrite Hr, finish_reading.
Qed.

(** ** Encoding *)
Lemma measure_ok i b prev l : (i = 0 -> prev = 0) -> asc (lo (i =? 0) prev) l -> u32s l ->
  b + 5 * len l < 2 ^ 64 ->
  foldM measure (i, b, prev) l = Ok (i + len l, b + len (deltas prev l), foldl (fun _ x => x) prev l).
Proof.
  intros Hi Ha Hu. revert i b prev Hi Ha. induction Hu as [|x l Hx Hu IH]; intros i b prev Hi Ha Hb.
  - cbn. by rewrite !N.add_0_r.
  - simpl in Ha. destruct Ha as [Hlo Ha]. rewrite len_cons in *.
    pose proof (varint32_len (x - prev) ltac:(lia)). pose proof (deltas_len x l ltac:(done)).
    assert (Hge : prev <= x) by (unfold lo in Hlo; destruct (i =? 0); lia).
    assert (Hord : negb (i =? 0) && (x <=? prev) = false).
    { unfold lo in Hlo. destruct (N.eqb_spec i 0); [done|]. simpl. apply N.leb_gt. lia. }
    cbn [foldM]. unfold measure at 1. rewrite Hord, sub_w_fits by done. cbn [rbind].
    rewrite var_u32_len_varint, checked_add_fits by (unfold usize; lia). cbn [ok_or rbind].
    rewrite IH; [|lia|rewrite (proj2 (N.eqb_neq (i + 1) 0)) by lia; done|lia].
    cbn [deltas]. rewrite len_app. do 2 f_equal; f_equal; lia.
Qed.
Lemma measure_fails i b prev l s : (i = 0 -> prev = 0) -> foldM measure (i, b, prev) l = Ok s -> asc (lo (i =? 0) prev) l.
Proof.
  revert i b prev. induction l as [|x l IH]; intros i b prev Hi H; [done|]. cbn [foldM] in H.
  apply rbind_ok in H as ([[i' b'] p'] & Hm & H). unfold measure in Hm.
  apply if_err_ok in Hm as [Hord Hm]. apply rbind_ok in Hm as (d & [-> Hd]%sub_w_ok & Hm).
  apply rbind_ok in Hm as (b2 & _ & [= <- <- <-]). apply IH in H; [|lia].
  rewrite (proj2 (N.eqb_neq (i + 1) 0)) in H by lia. split; [|done].
  unfold lo. destruct (N.eqb_spec i 0); [done|]. simpl in Hord. bool_to_prop. lia.
Qed.
Lemma emit_ok prev l out pre : asc prev l -> u32s l -> small out -> len pre + len (deltas prev l) <= len out ->
  foldM emit (writing out pre, prev) l = Ok (writing out (pre ++ deltas prev l), foldl (fun _ x => x) prev l).
Proof.
  intros Ha Hu Hs. revert prev pre Ha. induction Hu as [|x l Hx _ IH]; intros prev pre Ha Hl.
  - cbn. by rewrite app_nil_r.
  - simpl in Ha. destruct Ha as [Hlo Ha]. cbn [deltas] in *. rewrite len_app in Hl.
    cbn [foldM emit]. rewrite sub_w_fits by done. cbn [rbind].
    rewrite var_u32_writing by (lia || done). cbn [rbind].
    rewrite IH; [|eapply asc_weaken; [|done]; lia|len_lia]. rewrite <- app_assoc.
    done.
Qed.

Lemma positions_encode_ok l out max : asc 0 l -> u32s l -> len l < 2 ^ 32 -> len l <= max -> small out ->
  encode l out max =
    if len out <? len (encoding l) then Err (Codec.new 0 Truncated)
    else Ok (len (encoding l), encoding l ++ drop (length (encoding l)) out).
Proof.
  intros Ha Hu Hl Hm Hs. pose proof (deltas_len 0 l Hu). unfold encode.
  rewrite (proj2 (N.leb_gt _ _)), (proj2 (N.ltb_ge max _)) by done.
  rewrite measure_ok by (done || lia). cbn [rbind]. rewrite positions_len_encoding.
  destruct (N.ltb_spec (len out) (4 + len (deltas 0 l))) as [|Hge]; [done|].
  rewrite writing_new. unfold Writer.u32. wrote. rewrite emit_ok by (done || len_lia). cbn [rbind app].
  rewrite written_writing. do 2 f_equal. unfold encoding. len_lia.
Qed.

(** * Properties *)

(** [Positions::parse] accepts exactly the encodings of strictly ascending
    lists of at most [max_positions] positions, and the iterator of the view it
    returns yields that list and consumes the payload. *)
Theorem positions_parse_exact bs max v : small bs ->
  parse bs max = Ok v <->
  exists l, (asc 0 l /\ u32s l /\ len l < 2 ^ 32 /\ len l <= max) /\ bs = encoding l /\
    v = mkPositions (deltas 0 l) (len l) /\
    exists it, drain (S (N.to_nat (count v))) (iter v) = Ok (l, it) /\ Reader.remaining (reader it) = 0.
Proof.
  intros Hs. rewrite positions_parse_iff by done. split.
  - intros (l & Hv & Hm & ->). exists l. pose proof Hv as (Ha & Hu & Hl & E). split_and!; try done.
    destruct (drain_view _ _ Hv) as (it & Hd & Hr); [rewrite E; cbn; unfold encoding in Hs; small_lia|].
    exists it. split; [done|]. by rewrite Hr, remaining_reading.
  - intros (l & (Ha & Hu & Hl & Hm) & -> & -> & _). exists l. by split_and!.
Qed.
Lemma positions_parse_exact_witness :
  exists l, map byte_of [3; 0; 0; 0; 5; 1; 172; 2] = encoding l /\ l = [5; 6; 306].
Proof.
  destruct (proj1 (positions_parse_exact (map byte_of [3; 0; 0; 0; 5; 1; 172; 2]) 10
    (mkPositions (map byte_of [5; 1; 172; 2]) 3) ltac:(by vm_compute)) ltac:(vm_compute; reflexivity))
    as (l & _ & He & _ & it & Hd & _).
  exists l. split; [exact He|]. vm_compute in Hd. injection Hd as <- _. reflexivity.
Defined.

(** [encode] never panics; it succeeds exactly when the list is strictly
    ascending, within the limit and fits the buffer, and then [parse] of the bytes
    it wrote returns a view of that list. *)
Theorem positions_encode_exact l output max : u32s l -> small output -> max < 2 ^ 32 ->
  encode l output max <> Panic /\
  ((exists r, encode l output max = Ok r) <-> asc 0 l /\ len l <= max /\ len (encoding l) <= len output) /\
  (forall n out', encode l output max = Ok (n, out') ->
     n = len (encoding l) /\ out' = encoding l ++ drop (N.to_nat n) output /\
     parse (take (N.to_nat n) out') max = Ok (mkPositions (deltas 0 l) (len l))).
Proof.
  intros Hu Hs Hmax. destruct (decide (asc 0 l /\ len l <= max)) as [[Ha Hl]|Hno].
  - rewrite positions_encode_ok by (done || lia).
    destruct (N.ltb_spec (len output) (len (encoding l))) as [|Hge].
    + split_and!; [done| |done]. split; [intros [? [=]]|intros (_ & _ & ?); lia].
    + split_and!; [done| |].
      * split; [done|]. intros _. eauto.
      * intros n out' [<- <-]%Ok_inj%pair_equal_spec. rewrite to_nat_len. split_and!; [done|done|]. rewrite take_app_length.
        apply positions_parse_iff; [small_lia|]. exists l. split_and!; [|done|done]. split_and!; done || lia.
  - assert (Hf : exists e, encode l output max = Err e).
    { unfold encode. destruct (N.leb_spec (2 ^ 32) (len l)); [eauto|]. destruct (N.ltb_spec max (len l)); [eauto|].
      destruct (foldM measure (0, 4, 0) l) as [[[i b] q]|e|] eqn:E.
      - apply measure_fails in E; [|done]. exfalso. apply Hno. split; [done|lia].
      - cbn. eauto.
      - exfalso. revert E. apply (foldM_safe measure (fun '(i, b, p) => i = 0 -> p = 0)); [done|].
        intros [[i b] q] x _ Hi. unfold measure. split.
        + safe_step; [done|]. apply safe_bind.
          * unfold sub_w. apply safe_or_panic. rewrite checked_sub_fits; [eauto|].
            destruct (N.eqb_spec i 0); [lia|]. simpl in *. bool_to_prop. lia.
          * intros; repeat safe_step.
        + intros [[i' b'] q'] Hm. apply if_err_ok in Hm as [_ Hm]. inv_ok. lia. }
    destruct Hf as [e ->]. split_and!; [done| |done]. split; [intros [? [=]]|intros (? & ? & _); exfalso; by apply Hno].
Qed.
Lemma positions_encode_exact_witness :
  (exists r, encode [5; 6; 306] (replicate 9 xff) 10 = Ok r) /\ ~ (exists r, encode [5; 5] (replicate 9 xff) 10 = Ok r).
Proof.
  assert (Hu : u32s [5; 6; 306]) by (repeat constructor). assert (Hu' : u32s [5; 5]) by (repeat constructor).
  split.
  - apply (positions_encode_exact [5; 6; 306] (replicate 9 xff) 10 Hu); [by vm_compute|done|].
    split_and!; by vm_compute.
  - rewrite (proj1 (proj2 (positions_encode_exact [5; 5] (replicate 9 xff) 10 Hu' ltac:(by vm_compute) ltac:(done)))).
    intros ([_ [H _]] & _). vm_compute in H. by apply H.
Defined.
End Positions.
