(* ===== verification/PositionBlocks.v ===== *)
(** Position blocks: [src/crates/pin-core/src/codec/position_blocks.rs].

    A seekable form of a position list: a directory of 16-byte entries (first and
    last position, payload extent), one per 128 positions, and the deltas of each
    block.  The theorems: what [encode] writes, [open] accepts and [validate_all]
    certifies; [seek_ge] returns the first position at or above the target while
    decoding at most one block; a view that [open] accepted never panics, whatever
    its payload holds. *)
From S2P Require Export Bytes Lists.
From S2P Require Import Positions.

Module PositionBlocks.
Import Codec.

Definition BLOCK_POSITIONS : N := 128.
Definition HEADER : N := 8.
Definition ENTRY : N := 16.
(** [b"PB01"] *)
Definition MAGIC : list byte := [x50; x42; x30; x31].

Record t : Type := mk { directory : list byte; payload : list byte; count : N }.
Record Block : Type := mkBlock { first : N; last : N; start : N; end_ : N }.
Record SeekResult : Type := mkSeekResult {
  position : option N; decoded_positions : N; decoded_bytes : N }.

(** [blocks], [block_len] and [block] *)
Definition blocks (self : t) : N := len (directory self) / ENTRY.
Definition block_len (self : t) (index : N) : Codec.Result N :=
  let* rest := sub_w (count self) (index * BLOCK_POSITIONS) in
  Ok (N.min rest BLOCK_POSITIONS).
Definition block (self : t) (index : N) : Codec.Result Block :=
  let* entry := or_panic (slice (directory self) (index * ENTRY) ((index + 1) * ENTRY)) in
  let reader := Reader.new entry in
  let* '(first, reader) := Reader.u32 reader in
  let* '(last, reader) := Reader.u32 reader in
  let* '(start, reader) := Reader.u32 reader in
  let* '(end_, reader) := Reader.u32 reader in
  Ok (mkBlock first last start end_).

(** The checks [open] makes on one directory entry, in their order. *)
Definition check_block (view : t) (state : N * option N) (index : N) : Codec.Result (N * option N) :=
  let '(end_0, previous_last) := state in
  let* block := block view index in
  let* n := block_len view index in
  let* length := ok_or (checked_sub (end_ block) (start block))
    (Codec.new (HEADER + index * ENTRY) InvalidValue) in
  if negb (start block =? end_0) || (len (payload view) <? end_ block)
  then fail (HEADER + index * ENTRY) InvalidValue
  else
  let* n1 := sub_w n 1 in
  if (length <? n1) || (n1 * 5 <? length) || (last block <? first block)
     || ((n =? 1) && negb (first block =? last block)) || (last block - first block <? n1)
  then fail (HEADER + index * ENTRY) InvalidValue
  else if match previous_last with Some last => first block <=? last | None => false end
  then fail (HEADER + index * ENTRY) InvalidOrder
  else Ok (end_ block, Some (last block)).

(** [PositionBlocks::open] *)
Definition open (bytes : list byte) (max_positions : N) : Codec.Result t :=
  let reader := Reader.new bytes in
  let* '(magic, reader) := Reader.take reader 4 in
  if negb (bytes_eqb magic MAGIC) then fail 0 BadMagic
  else
  let* '(count, reader) := Reader.u32 reader in
  if max_positions <? count then fail 4 LimitExceeded
  else
  let blocks := div_ceil count BLOCK_POSITIONS in
  let* directory_len := ok_or (checked_mul usize blocks ENTRY) (Codec.new 4 Overflow) in
  let* '(directory, reader) := Reader.take reader directory_len in
  let* '(payload, reader) := Reader.take reader (Reader.remaining reader) in
  let view := mk directory payload count in
  let* '(end_0, _) := foldM (check_block view) (0, None) (range 0 blocks) in
  if negb (end_0 =? len payload) then fail (HEADER + directory_len + end_0) TrailingBytes
  else Ok view.

(** One turn of the loop of [decode]: reader, position, answer so far. *)
Definition decode_step (target : N) (state : Reader.t * N * option N) (_ : N)
  : Codec.Result (Reader.t * N * option N) :=
  let '(reader, position, found) := state in
  let offset := Reader.offset reader in
  let* '(delta, reader) := Reader.var_u32 reader in
  if delta =? 0 then fail offset InvalidOrder
  else
    let* position := ok_or (checked_add 32 position delta) (Codec.new offset Overflow) in
    let found :=
      match found with
      | None => if target <=? position then Some position else None
      | Some _ => found
      end in
    Ok (reader, position, found).

(** [PositionBlocks::decode] *)
Definition decode (self : t) (index target : N) : Codec.Result SeekResult :=
  let* block := block self index in
  let* bytes := or_panic (slice (payload self) (start block) (end_ block)) in
  let found := if target <=? first block then Some (first block) else None in
  let* n := block_len self index in
  let* '(reader, position, found) :=
    foldM (decode_step target) (Reader.new bytes, first block, found) (range 1 n) in
  let* _ := Reader.finish reader in
  if negb (position =? last block) then fail (start block) InvalidValue
  else
    let* bytes := sub_w (end_ block) (start block) in
    Ok (mkSeekResult found n bytes).

(** [PositionBlocks::seek_ge] and [validate_all] *)
Definition seek_ge (self : t) (target : N) : Codec.Result SeekResult :=
  let* lo := lower_bound (fun mid =>
    let* block := block self mid in Ok (last block <? target)) 0 (blocks self) in
  if lo =? blocks self then Ok (mkSeekResult None 0 0) else decode self lo target.
Definition validate_all (self : t) : Codec.Result unit :=
  foldM (fun _ index => let* _ := decode self index 0 in Ok tt) tt (range 0 (blocks self)).

(** The loops of [encode]. *)
Definition check_pair (index : N) (pair : N * N) : Codec.Result N :=
  if pair.2 <=? pair.1 then fail index InvalidOrder else Ok (index + 1).
Definition measure_pair (payload_len : N) (pair : N * N) : Codec.Result N :=
  let* delta := sub_w pair.2 pair.1 in
  ok_or (checked_add usize payload_len (var_u32_len delta)) (Codec.new 0 Overflow).
Definition write_pair (data : Writer.t) (pair : N * N) : Codec.Result Writer.t :=
  let* delta := sub_w pair.2 pair.1 in Writer.var_u32 data delta.
Definition write_block (state : Writer.t * Writer.t) (block : list N) : Codec.Result (Writer.t * Writer.t) :=
  let '(header, data) := state in
  let* first := or_panic (index block 0) in
  let* header := Writer.u32 header first in
  let* at_ := sub_w (len block) 1 in
  let* last := or_panic (index block at_) in
  let* header := Writer.u32 header last in
  let* header := Writer.u32 header (trunc 32 (Writer.written data)) in
  let* data := foldM write_pair data (windows2 block) in
  let* header := Writer.u32 header (trunc 32 (Writer.written data)) in
  Ok (header, data).

(** [encode]: the bytes written and the output. *)
Definition encode (positions : list N) (output : list byte) (max_positions : N)
  : Codec.Result (N * list byte) :=
  if 2 ^ 32 <=? len positions then fail 0 LimitExceeded
  else
  let count := len positions in
  if max_positions <? count then fail 0 LimitExceeded
  else
  let* _ := foldM check_pair 0 (windows2 positions) in
  let blocks := div_ceil (len positions) BLOCK_POSITIONS in
  let* n := ok_or (checked_mul usize blocks ENTRY) (Codec.new 0 Overflow) in
  let* directory_len := ok_or (checked_add usize n HEADER) (Codec.new 0 Overflow) in
  let* payload_len := foldM (fun payload_len block => foldM measure_pair payload_len (windows2 block))
    0 (chunks (N.to_nat BLOCK_POSITIONS) positions) in
  if 2 ^ 32 <=? payload_len then fail 0 LimitExceeded
  else
  let* total := ok_or (checked_add usize directory_len payload_len) (Codec.new 0 Overflow) in
  if len output <? total then fail 0 Truncated
  else
  let* head := or_panic (slice output 0 total) in
  let directory := take (N.to_nat directory_len) head in
  let payload := drop (N.to_nat directory_len) head in
  let header := Writer.new directory in
  let data := Writer.new payload in
  let* header := Writer.put header MAGIC in
  let* header := Writer.u32 header count in
  let* '(header, data) := foldM write_block (header, data) (chunks (N.to_nat BLOCK_POSITIONS) positions) in
  Ok (total, Writer.bytes header ++ Writer.bytes data ++ drop (N.to_nat total) output).

(** * Lemmas *)

Lemma decode_loop target x r found pre tl (ks : list N) :
  asc (x + 1) r -> Positions.u32s r -> len ks = len r -> small (pre ++ Positions.deltas x r ++ tl) ->
  foldM (decode_step target) (reading pre (Positions.deltas x r ++ tl), x, found) ks =
  Ok (reading (pre ++ Positions.deltas x r) tl, last_of (x :: r),
      match found with None => first_ge target r | Some _ => found end).
Proof.
  intros Ha Hu. revert x found pre ks Ha. induction Hu as [|y r Hy Hu IH]; intros x found pre ks Ha Hl Hs.
  - rewrite (len_zero ks) by done. cbn. rewrite app_nil_r. by destruct found.
  - destruct ks as [|i ks]; [rewrite len_nil, len_cons in Hl; lia|]. rewrite !len_cons in Hl.
    simpl in Ha. destruct Ha as [Hxy Ha]. cbn [Positions.deltas foldM] in *.
    rewrite <- app_assoc in *. unfold decode_step at 1. rewrite var_u32_reading by (lia || done). cbn [rbind].
    rewrite (proj2 (N.eqb_neq _ _)) by lia. rewrite checked_add_fits by lia. cbn [ok_or rbind].
    replace (x + (y - x)) with y by lia. rewrite IH; [|done|lia|small_lia].
    rewrite <- app_assoc. f_equal. f_equal. unfold first_ge. rewrite filter_cons.
    destruct found; [done|]. destruct (N.leb_spec target y); case_decide; done || lia.
Qed.

Lemma windows2_cons x y r : windows2 (x :: y :: r) = (x, y) :: windows2 (y :: r).
Proof. done. Qed.
Lemma check_pairs i x r : (exists n, foldM check_pair i (windows2 (x :: r)) = Ok n) <-> asc (x + 1) r.
Proof.
  revert i x. induction r as [|y r IH]; intros i x; [split; [done|]; intros; exists i; done|].
  rewrite windows2_cons. cbn [foldM asc]. unfold check_pair at 1; cbn [fst snd].
  destruct (N.leb_spec y x); cbn [rbind].
  - split; [intros [? [=]]|lia].
  - rewrite IH. split; [|tauto]. intros; split; [lia|done].
Qed.
Lemma check_pairs_safe i l : safe (foldM check_pair i (windows2 l)).
Proof.
  apply (foldM_safe _ (fun _ => True)); [done|]. intros s [a b] _ _. split; [|done].
  unfold check_pair. by destruct (_ <=? _).
Qed.
Lemma measure_pairs b x r : asc (x + 1) r -> Positions.u32s r -> b + 5 * len r < 2 ^ 64 ->
  foldM measure_pair b (windows2 (x :: r)) = Ok (b + len (Positions.deltas x r)).
Proof.
  intros Ha Hu. revert b x Ha. induction Hu as [|y r Hy Hu IH]; intros b x Ha Hb; [cbn; by rewrite N.add_0_r|].
  rewrite windows2_cons, len_cons in *. simpl in Ha. destruct Ha as [? Ha]. cbn [foldM].
  unfold measure_pair at 1; cbn [fst snd]. rewrite sub_w_fits by lia. cbn [rbind].
  pose proof (Positions.varint32_len (y - x) ltac:(lia)).
  rewrite var_u32_len_varint, checked_add_fits by (unfold usize; lia). cbn [ok_or rbind].
  rewrite IH by (done || lia). cbn [Positions.deltas]. rewrite len_app. f_equal. lia.
Qed.
Lemma write_pairs out pre x r : asc (x + 1) r -> Positions.u32s r -> small out ->
  len pre + len (Positions.deltas x r) <= len out ->
  foldM write_pair (writing out pre) (windows2 (x :: r)) = Ok (writing out (pre ++ Positions.deltas x r)).
Proof.
  intros Ha Hu Hs. revert pre x Ha. induction Hu as [|y r Hy Hu IH]; intros pre x Ha Hl; [cbn; by rewrite app_nil_r|].
  rewrite windows2_cons in *. simpl in Ha. destruct Ha as [? Ha]. cbn [foldM Positions.deltas] in *. rewrite len_app in Hl.
  unfold write_pair at 1; cbn [fst snd]. rewrite sub_w_fits by lia. cbn [rbind].
  rewrite var_u32_writing by (lia || done). cbn [rbind]. rewrite IH by (done || len_lia). by rewrite <- app_assoc.
Qed.

(** The representation of a list [l]: blocks [c], their payloads and extents. *)
Section Layout.
Context (l : list N).
Abbreviation c i := (chunk 128 l i).
Definition block_payload (b : list N) : list byte :=
  match b with [] => [] | x :: r => Positions.deltas x r end.
Definition block_count : N := div_ceil (len l) 128.
Definition payloads (k : N) : list byte := range 0 k ≫= (fun j => block_payload (c j)).
Definition entry (i : N) : list byte :=
  le_bytes 4 (first_of (c i)) ++ le_bytes 4 (last_of (c i)) ++
  le_bytes 4 (len (payloads i)) ++ le_bytes 4 (len (payloads (i + 1))).
Definition entries (k : N) : list byte := range 0 k ≫= entry.
Definition view : t := mk (entries block_count) (payloads block_count) (len l).
Definition encoding : list byte := MAGIC ++ le_bytes 4 (len l) ++ entries block_count ++ payloads block_count.

Record valid : Prop := {
  valid_asc : asc 0 l;
  valid_u32 : Positions.u32s l;
  valid_len : len l < 2 ^ 32;
  valid_payload : len (payloads block_count) < 2 ^ 32;
}.
Context (Hv : valid).

Lemma len_entry i : len (entry i) = 16.
Proof. unfold entry. by rewrite !len_app, !len_le_bytes. Qed.
Lemma len_entries k : len (entries k) = 16 * k.
Proof. unfold entries. rewrite (len_bind_const _ 16) by (intros; apply len_entry). by rewrite len_range, N.sub_0_r. Qed.
Lemma payloads_snoc k : payloads (k + 1) = payloads k ++ block_payload (c k).
Proof. unfold payloads. by rewrite bind_range_snoc. Qed.
Lemma entries_snoc k : entries (k + 1) = entries k ++ entry k.
Proof. unfold entries. by rewrite bind_range_snoc. Qed.
Lemma payloads_le i k : i <= k -> len (payloads i) <= len (payloads k).
Proof.
  intros. unfold payloads. rewrite (range_app 0 i k), bind_app, len_app by lia. lia.
Qed.

Lemma c_nonempty i : i < block_count -> exists x r, c i = x :: r.
Proof.
  intros Hi. apply div_ceil_lt in Hi; [|done]. pose proof (len_chunk 128 l i) as Hl.
  destruct (c i) as [|x r]; [rewrite len_nil in Hl; lia|eauto].
Qed.
Lemma c_asc i : asc 0 (c i).
Proof. apply asc_chunk, Hv. Qed.
Lemma c_u32 i : Positions.u32s (c i).
Proof. apply Forall_take, Forall_drop, Hv. Qed.
Lemma c_bounds i x : x ∈ c i -> first_of (c i) <= x <= last_of (c i) /\ x < 2 ^ 32.
Proof.
  intros Hx. pose proof (c_asc i) as Ha. pose proof (c_u32 i) as Hu. split_and!.
  - destruct (c i) as [|y r]; [by apply elem_of_nil in Hx|]. simpl in Ha. destruct Ha as [_ Ha].
    apply elem_of_cons in Hx as [->|Hx]; [done|]. pose proof (asc_ge _ _ _ Ha Hx). simpl. lia.
  - by eapply last_of_max.
  - unfold Positions.u32s in Hu. rewrite list.Forall_forall in Hu. by apply Hu.
Qed.
Lemma c_last_in i : i < block_count -> last_of (c i) ∈ c i /\ first_of (c i) ∈ c i.
Proof. intros (x & r & ->)%c_nonempty. split; [apply last_of_in|left]. Qed.
Lemma payload_bounds i : i < block_count ->
  len (c i) - 1 <= len (block_payload (c i)) <= (len (c i) - 1) * 5.
Proof.
  intros Hi. pose proof (c_u32 i) as Hu. destruct (c_nonempty i Hi) as (x & r & E). rewrite E in *.
  apply list.Forall_cons_1 in Hu as [_ Hu]. pose proof (Positions.deltas_len x r Hu). simpl block_payload. rewrite len_cons. lia.
Qed.

Lemma block_view i : i < block_count ->
  block view i = Ok (mkBlock (first_of (c i)) (last_of (c i)) (len (payloads i)) (len (payloads (i + 1)))).
Proof.
  intros Hi. unfold block, view; cbn [directory]. unfold entries.
  rewrite (slice_bind_range entry 16) by (done || apply len_entry). cbn [or_panic rbind].
  rewrite reading_new. destruct (c_last_in i Hi) as [H1%c_bounds H2%c_bounds].
  pose proof (payloads_le (i + 1) block_count ltac:(lia)). pose proof (payloads_le i (i + 1) ltac:(lia)).
  pose proof (valid_payload Hv).
  assert (Hs : small (entry i)) by (unfold small; rewrite len_entry; done). unfold entry in *.
  rewrite u32_reading by (lia || done). cbn [rbind]. rewrite u32_reading by (lia || small_lia). cbn [rbind].
  rewrite u32_reading by (lia || small_lia). cbn [rbind].
  rewrite <- (app_nil_r (le_bytes 4 (len (payloads (i + 1))))). rewrite u32_reading by (lia || small_lia). done.
Qed.
Lemma block_len_view i : i < block_count -> block_len view i = Ok (len (c i)).
Proof.
  intros Hi. apply div_ceil_lt in Hi; [|done]. unfold block_len, view, BLOCK_POSITIONS; cbn [count].
  rewrite sub_w_fits by lia. cbn [rbind]. rewrite len_chunk. f_equal. lia.
Qed.
Lemma blocks_view : blocks view = block_count.
Proof. unfold blocks, view, ENTRY; cbn [directory]. rewrite len_entries, N.mul_comm. by apply N.div_mul. Qed.

(** ** Decoding and seeking *)
Lemma payload_slice i : i < block_count ->
  slice (payloads block_count) (len (payloads i)) (len (payloads (i + 1))) = Some (block_payload (c i)).
Proof.
  intros Hi. rewrite payloads_snoc. unfold payloads at 1. rewrite (bind_range_split _ i) by done.
  apply slice_app; [done|]. by rewrite len_app.
Qed.
Lemma small_payloads i : i <= block_count -> small (payloads i).
Proof.
  intros Hi. pose proof (payloads_le i block_count Hi). pose proof (valid_payload Hv). unfold small, isize_max. lia.
Qed.
Lemma decode_view i target : i < block_count ->
  decode view i target = Ok (mkSeekResult (first_ge target (c i)) (len (c i)) (len (block_payload (c i)))).
Proof.
  intros Hi. unfold decode. rewrite block_view by done. cbn [rbind start end_ first last view payload].
  rewrite payload_slice by done. cbn [or_panic rbind]. rewrite block_len_view by done. cbn [rbind].
  pose proof (small_payloads (i + 1) ltac:(lia)) as Hs. rewrite payloads_snoc in Hs.
  pose proof (c_asc i) as Ha. pose proof (c_u32 i) as Hu. destruct (c_nonempty i Hi) as (x & r & E). rewrite E in *.
  cbn [block_payload first_of] in *. apply list.Forall_cons_1 in Hu as [_ Hu].
  rewrite reading_new, <- (app_nil_r (Positions.deltas x r)).
  rewrite decode_loop; [|apply Ha|done|rewrite len_range, len_cons; lia|small_lia]. cbn [rbind app].
  rewrite finish_reading. cbn [rbind]. rewrite N.eqb_refl. cbn [negb].
  rewrite sub_w_fits by (apply payloads_le; lia). cbn [rbind]. do 2 f_equal.
  - unfold first_ge at 2. rewrite filter_cons. destruct (N.leb_spec target x); case_decide; done || lia.
  - rewrite payloads_snoc, E. cbn [block_payload]. len_lia.
Qed.

Lemma before_block target k : k <= block_count -> (forall i, i < k -> last_of (c i) < target) ->
  forall x, x ∈ take (N.to_nat (128 * k)) l -> x < target.
Proof.
  intros Hk H x Hx. apply list_elem_of_lookup in Hx as [n Hn]. apply lookup_take_Some in Hn as [Hn Hlt].
  assert (Hin : x ∈ c (N.of_nat n / 128)).
  { apply elem_of_chunk. exists (N.of_nat n mod 128). split; [by apply N.mod_lt|]. rewrite <- Hn. f_equal. dlia. }
  apply c_bounds in Hin as [[_ Hle] _]. specialize (H (N.of_nat n / 128)). dlia.
Qed.
Lemma seek_view target : exists r, seek_ge view target = Ok r /\ position r = first_ge target l /\
  decoded_positions r <= 128 /\ decoded_bytes r <= 635.
Proof.
  destruct (lower_bound_spec (E := Codec.Error)
    (fun mid => let* block := block view mid in Ok (last block <? target))
    (fun mid => last_of (c mid) <? target) 0 block_count) as (k & Hk & Hle & Hlo & Hhi); [lia| | |].
  - intros i Hi. rewrite block_view by lia. done.
  - intros i j _ Hij Hj Hlt. apply N.ltb_lt in Hlt. apply N.ltb_lt. destruct (decide (i = j)) as [->|]; [done|].
    destruct (c_last_in i ltac:(lia)) as [Hi1 _]. destruct (c_last_in j ltac:(lia)) as [Hj1 _].
    pose proof (chunk_lt 0 128 l i j _ _ (valid_asc Hv) Hi1 Hj1 ltac:(lia)). lia.
  - assert (Hb : forall x, x ∈ take (N.to_nat (128 * k)) l -> x < target).
    { apply before_block; [lia|]. intros i Hi. apply N.ltb_lt, Hlo. lia. }
    unfold seek_ge. rewrite blocks_view, Hk. cbn [rbind]. destruct (N.eqb_spec k block_count) as [->|Hne].
    + eexists. split; [done|]. cbn. split_and!; [|lia|lia]. symmetry. apply first_ge_none.
      intros x Hx. apply Hb. rewrite take_ge; [done|]. pose proof (div_ceil_bounds (len l) 128 ltac:(lia)).
      unfold block_count, len in *. lia.
    + rewrite decode_view by lia. eexists. split; [done|]. cbn. destruct (c_last_in k ltac:(lia)) as [Hin _].
      pose proof (payload_bounds k ltac:(lia)). pose proof (len_chunk 128 l k). split_and!; [|lia|lia].
      rewrite <- (take_chunk 128 l k) at 2. rewrite first_ge_app by done. symmetry. eapply first_ge_front; [done|].
      apply N.ltb_ge, Hhi. lia.
Qed.
Lemma validate_view : validate_all view = Ok tt.
Proof.
  unfold validate_all. rewrite blocks_view. assert (H : forall k, k <= block_count ->
    foldM (fun _ index => let* _ := decode view index 0 in Ok tt) tt (range 0 k) = Ok tt); [|by apply H].
  intros k. induction k as [|k IH] using N.peano_ind; intros Hk; [done|].
  rewrite <- N.add_1_r, range_snoc, foldM_app, IH by lia. cbn. by rewrite decode_view by lia.
Qed.

(** ** Opening *)
Definition prev_last (k : N) : option N := if k =? 0 then None else Some (last_of (c (k - 1))).
Lemma pb_check_view k : k < block_count ->
  check_block view (len (payloads k), prev_last k) k = Ok (len (payloads (k + 1)), prev_last (k + 1)).
Proof.
  intros Hk. unfold check_block. rewrite block_view, block_len_view by done.
  cbn [rbind start end_ first last view payload]. pose proof (payloads_le k (k + 1) ltac:(lia)).
  pose proof (payloads_le (k + 1) block_count ltac:(lia)). rewrite checked_sub_fits by done. cbn [ok_or rbind].
  rewrite N.eqb_refl, (proj2 (N.ltb_ge _ _)) by done. cbn [negb orb].
  pose proof (payload_bounds k Hk). destruct (c_last_in k Hk) as [Hl Hf].
  assert (Hn : 1 <= len (c k)) by (destruct (c_nonempty k Hk) as (x & r & ->); len_lia).
  rewrite sub_w_fits by done. cbn [rbind].
  assert (Hd : len (payloads (k + 1)) - len (payloads k) = len (block_payload (c k))) by (rewrite payloads_snoc; len_lia).
  rewrite Hd. pose proof (proj1 (c_bounds _ _ Hl)).
  assert (Hsp : len (c k) - 1 <= last_of (c k) - first_of (c k)).
  { pose proof (asc_len (first_of (c k)) (last_of (c k) + 1) (c k)) as Hal.
    pose proof (c_asc k) as Ha. destruct (c_nonempty k Hk) as (x & r & E). rewrite E in *. simpl first_of in *.
    assert (len (x :: r) <= last_of (x :: r) + 1 - x); [|lia]. apply Hal; [|intros y Hy; apply (last_of_max 0) in Hy; [lia|done]|lia].
    split; [lia|apply Ha]. }
  rewrite !(proj2 (N.ltb_ge _ _)) by lia. cbn [orb].
  assert (Hone : (len (c k) =? 1) && negb (first_of (c k) =? last_of (c k)) = false).
  { destruct (N.eqb_spec (len (c k)) 1) as [E1|]; [|done]. destruct (c_nonempty k Hk) as (x & r & E). rewrite E in *.
    rewrite len_cons in E1. rewrite (len_zero r) by lia. simpl. by rewrite N.eqb_refl. }
  rewrite Hone. unfold prev_last at 1. destruct (N.eqb_spec k 0) as [->|Hk0].
  - f_equal.
  - destruct (c_last_in (k - 1) ltac:(lia)) as [Hp _].
    pose proof (chunk_lt 0 128 l (k - 1) k _ _ (valid_asc Hv) Hp Hf ltac:(lia)).
    rewrite (proj2 (N.leb_gt _ _)) by done. unfold prev_last.
    rewrite (proj2 (N.eqb_neq (k + 1) 0)) by lia. by replace (k + 1 - 1) with k by lia.
Qed.
Lemma open_view max : len l <= max -> open encoding max = Ok view.
Proof.
  intros Hm. pose proof (valid_len Hv). pose proof (valid_payload Hv).
  pose proof (div_ceil_bounds (len l) 128 ltac:(lia)) as Hc. fold block_count in Hc.
  assert (Hs : small encoding).
  { unfold small, encoding, isize_max. rewrite !len_app, len_entries, len_le_bytes. change (len MAGIC) with 4. lia. }
  unfold open, encoding in *. rewrite reading_new. change (MAGIC ++ ?s) with (MAGIC ++ s).
  rewrite take_reading by (done || small_lia). cbn [rbind]. unfold bytes_eqb. rewrite bool_decide_eq_true_2 by done. cbn [negb].
  rewrite u32_reading by (done || small_lia). cbn [rbind]. rewrite (proj2 (N.ltb_ge _ _)) by done.
  unfold BLOCK_POSITIONS, ENTRY. fold block_count. rewrite checked_mul_fits by (unfold usize; lia). cbn [ok_or rbind].
  rewrite take_reading by (rewrite ?len_entries; small_lia || lia). cbn [rbind].
  rewrite <- (app_nil_r (payloads block_count)). rewrite remaining_reading, take_reading by (rewrite ?app_nil_r; small_lia || done). cbn [rbind].
  fold view.
  assert (H1 : forall k, k <= block_count -> foldM (check_block view) (0, None) (range 0 k) = Ok (len (payloads k), prev_last k)).
  { intros k. induction k as [|k IH] using N.peano_ind; intros Hk; [done|].
    rewrite <- N.add_1_r, range_snoc, foldM_app, IH by lia. cbn [rbind foldM]. by rewrite pb_check_view by lia. }
  rewrite H1 by lia. cbn [rbind]. by rewrite N.eqb_refl.
Qed.

(** ** Encoding *)
Lemma len_payloads k : k <= block_count -> len (payloads k) <= 640 * k.
Proof.
  induction k as [|k IH] using N.peano_ind; intros Hk; [done|]. rewrite <- N.add_1_r, payloads_snoc, len_app in *.
  pose proof (payload_bounds k ltac:(lia)). pose proof (len_chunk 128 l k). lia.
Qed.
Lemma block_count_bounds : 128 * block_count < len l + 128 /\ len l <= 128 * block_count.
Proof. apply div_ceil_bounds. lia. Qed.
Lemma measure_blocks k : k <= block_count ->
  foldM (fun payload_len block => foldM measure_pair payload_len (windows2 block)) 0 (chunk 128 l <$> range 0 k)
    = Ok (len (payloads k)).
Proof.
  pose proof block_count_bounds. pose proof (valid_len Hv).
  induction k as [|k IH] using N.peano_ind; intros Hk; [done|].
  rewrite <- N.add_1_r, range_snoc, fmap_app, foldM_app, IH by lia. cbn [rbind foldM fmap list_fmap].
  rewrite payloads_snoc, len_app. pose proof (len_payloads k ltac:(lia)). pose proof (len_chunk 128 l k).
  pose proof (c_asc k) as Ha. pose proof (c_u32 k) as Hu. destruct (c_nonempty k ltac:(lia)) as (x & r & E). rewrite E in *.
  apply list.Forall_cons_1 in Hu as [_ Hu]. rewrite measure_pairs; [done|apply Ha|done|rewrite len_cons in *; lia].
Qed.
Lemma write_blocks D P k : k <= block_count -> small D -> small P ->
  8 + 16 * k <= len D -> len (payloads k) <= len P ->
  foldM write_block (writing D (MAGIC ++ le_bytes 4 (len l)), writing P []) (chunk 128 l <$> range 0 k)
    = Ok (writing D ((MAGIC ++ le_bytes 4 (len l)) ++ entries k), writing P (payloads k)).
Proof.
  intros Hk HsD HsP. induction k as [|k IH] using N.peano_ind; intros HD HP; [by rewrite app_nil_r|].
  rewrite <- N.add_1_r in *. pose proof (payloads_le k (k + 1) ltac:(lia)).
  rewrite range_snoc, fmap_app, foldM_app, IH by lia. cbn [rbind foldM fmap list_fmap].
  pose proof (payloads_le (k + 1) block_count ltac:(lia)). pose proof (valid_payload Hv).
  pose proof (len_entries k) as Hle. change (len MAGIC) with 4 in *.
  rewrite payloads_snoc, len_app in HP. unfold write_block.
  pose proof (c_asc k) as Ha. pose proof (c_u32 k) as Hu. destruct (c_nonempty k ltac:(lia)) as (x & r & E).
  assert (Hi0 : index (c k) 0 = Some (first_of (c k))) by by rewrite E.
  assert (Hil : index (c k) (len (c k) - 1) = Some (last_of (c k))).
  { rewrite E. unfold index, len. replace (N.to_nat (N.of_nat (length (x :: r)) - 1)) with (length r) by (simpl; lia).
    clear. revert x. induction r as [|y r IH]; intros x; [done|]. apply IH. }
  rewrite Hi0, sub_w_fits by (rewrite E; len_lia). cbn [or_panic rbind]. rewrite Hil. cbn [or_panic rbind].
  unfold Writer.u32. assert (Hm : len MAGIC = 4) by done. wrote. rewrite !written_writing, trunc_small by lia.
  wrote.
  rewrite E in *. apply list.Forall_cons_1 in Hu as [_ Hu]. cbn [block_payload] in HP.
  rewrite write_pairs; [|apply Ha|done|done|lia]. cbn [rbind]. rewrite written_writing, trunc_small.
  2:{ rewrite payloads_snoc, E in *. cbn [block_payload] in *. lia. }
  wrote. rewrite payloads_snoc, E. cbn [block_payload]. do 3 f_equal.
  rewrite entries_snoc. unfold entry. rewrite payloads_snoc, E. cbn [block_payload]. by rewrite !app_assoc.
Qed.
Lemma pb_len_encoding : len encoding = 8 + 16 * block_count + len (payloads block_count).
Proof. unfold encoding. rewrite !len_app, len_entries, len_le_bytes. change (len MAGIC) with 4. lia. Qed.
Lemma pb_encode_view out max : len l <= max -> small out ->
  encode l out max =
    if len out <? len encoding then Err (Codec.new 0 Truncated)
    else Ok (len encoding, encoding ++ drop (length encoding) out).
Proof.
  intros Hm Hs. pose proof block_count_bounds. pose proof (valid_len Hv). pose proof (valid_payload Hv). unfold encode.
  rewrite (proj2 (N.leb_gt _ _)), (proj2 (N.ltb_ge max _)) by done.
  assert (Hc : exists n, foldM check_pair 0 (windows2 l) = Ok n).
  { pose proof (valid_asc Hv) as Ha. destruct l as [|x r]; [by exists 0|]. apply check_pairs. apply Ha. }
  destruct Hc as [n ->]. cbn [rbind]. unfold BLOCK_POSITIONS, ENTRY, HEADER. fold block_count.
  rewrite checked_mul_fits by (unfold usize; lia). cbn [ok_or rbind].
  rewrite checked_add_fits by (unfold usize; lia). cbn [ok_or rbind].
  rewrite chunks_spec by done. fold block_count. rewrite measure_blocks by lia. cbn [rbind].
  rewrite (proj2 (N.leb_gt _ _)) by done. rewrite checked_add_fits by (unfold usize; lia). cbn [ok_or rbind].
  pose proof pb_len_encoding as Hl. replace (block_count * 16 + 8 + len (payloads block_count)) with (len encoding) by lia.
  destruct (N.ltb_spec (len out) (len encoding)) as [|Hge]; [done|].
  assert (Hh : slice out 0 (len encoding) = Some (take (length encoding) out)).
  { apply slice_ok. split_and!; [lia|done|]. rewrite N.sub_0_r, drop_0. by rewrite to_nat_len. }
  rewrite Hh. cbn [or_panic rbind]. set (head := take (length encoding) out).
  assert (Lh : len head = len encoding) by (unfold head; rewrite len_take; unfold len in *; lia).
  rewrite !writing_new. unfold Writer.u32. set (D := take _ head). set (P := drop _ head).
  assert (LD : len D = 8 + 16 * block_count) by (unfold D; rewrite len_take; lia).
  assert (LP : len P = len (payloads block_count)) by (unfold P; rewrite len_drop; lia).
  assert (Hm4 : len MAGIC = 4) by done.
  assert (HsD : small D) by (unfold small in *; lia). assert (HsP : small P) by (unfold small in *; lia).
  clearbody D P. wrote. cbn [app]. change (x50 :: _) with (MAGIC ++ le_bytes 4 (len l)).
  rewrite write_blocks by (done || lia). cbn [rbind]. do 2 f_equal. unfold writing; cbn [Writer.bytes].
  pose proof (len_entries block_count). pose proof (len_le_bytes 4 (len l)).
  rewrite (drop_ge D) by (unfold len in *; rewrite !length_app; lia). rewrite (drop_ge P) by (unfold len in *; lia).
  rewrite !app_nil_r, to_nat_len. unfold encoding. by rewrite <- !app_assoc.
Qed.
End Layout.

(** ** Views of untrusted bytes *)
Section Opened.
Context (v : t) (nb : N).
Context (Hdir : len (directory v) = nb * 16) (Hnb : nb = div_ceil (count v) 128).

Lemma block_safe i : i < nb -> safe (block v i).
Proof.
  intros Hi. unfold block, ENTRY. apply safe_bind; [|intros; repeat safe_step].
  apply safe_or_panic. destruct (slice _ _ _) eqn:E; [eauto|]. exfalso.
  unfold slice in E. rewrite (proj2 (N.leb_le _ _)), (proj2 (N.leb_le _ _)) in E by nia. done.
Qed.
Lemma block_len_pos i : i < nb -> exists n, block_len v i = Ok n /\ 1 <= n.
Proof.
  intros Hi. rewrite Hnb in Hi. apply div_ceil_lt in Hi; [|done]. unfold block_len, BLOCK_POSITIONS.
  rewrite sub_w_fits by lia. cbn [rbind]. eexists. split; [done|]. lia.
Qed.
Lemma check_block_safe state i : i < nb -> safe (check_block v state i).
Proof.
  intros Hi. unfold check_block. destruct state as [e p]. destruct (block_len_pos i Hi) as (n & -> & Hn).
  apply safe_bind; [by apply block_safe|]. intros b _. cbn [rbind]. apply safe_bind; [auto with pin|]. intros k _.
  apply safe_if; [done|]. intros _. rewrite sub_w_fits by done. cbn [rbind]. repeat (apply safe_if; intros _); done.
Qed.
Lemma blocks_opened : blocks v = nb.
Proof. unfold blocks, ENTRY. rewrite Hdir. by apply N.div_mul. Qed.

(** The directory was checked. *)
Context (st : N * option N) (Hchecked : foldM (check_block v) (0, None) (range 0 nb) = Ok st).

Lemma block_extent i b : i < nb -> block v i = Ok b -> start b <= end_ b /\ end_ b <= len (payload v).
Proof.
  intros Hi Hb. destruct (foldM_each _ _ _ _ i Hchecked) as ([e p] & s2 & H); [apply elem_of_range; lia|].
  unfold check_block in H. rewrite Hb in H. cbn [rbind] in H. destruct (block_len_pos i Hi) as (n & En & _).
  rewrite En in H. cbn [rbind] in H. apply rbind_ok in H as (k & [_ Hk]%ok_or_ok%checked_sub_some & H).
  apply if_err_ok in H as [H _]. bool_to_prop. done.
Qed.
Lemma decode_step_safe target s i : safe (decode_step target s i).
Proof. unfold decode_step. destruct s as [[r p] f]. repeat safe_step. Qed.
Lemma decode_safe i target : i < nb -> safe (decode v i target).
Proof.
  intros Hi. unfold decode. apply safe_bind; [by apply block_safe|]. intros b Hb.
  destruct (block_extent i b Hi Hb) as [H1 H2]. destruct (block_len_pos i Hi) as (n & -> & _).
  apply safe_bind.
  - apply safe_or_panic. unfold slice. rewrite (proj2 (N.leb_le _ _) H1), (proj2 (N.leb_le _ _) H2). eauto.
  - intros bytes _. cbn [rbind]. apply safe_bind.
    + apply (foldM_safe _ (fun _ => True)); [done|]. intros s x _ _. split; [apply decode_step_safe|done].
    + intros [[r p] f] _. apply safe_bind; [auto with pin|]. intros _ _. apply safe_if; [done|]. intros _.
      rewrite sub_w_fits by done. done.
Qed.
Lemma seek_safe target : safe (seek_ge v target).
Proof.
  unfold seek_ge. rewrite blocks_opened. apply safe_bind.
  - apply lower_bound_safe. intros i Hi. apply safe_bind; [apply block_safe; lia|]. done.
  - intros k Hk%lower_bound_bounds; [|lia]. apply safe_if; [done|]. intros Hne. bool_to_prop. apply decode_safe. lia.
Qed.
Lemma validate_safe : safe (validate_all v).
Proof.
  unfold validate_all. rewrite blocks_opened. apply (foldM_safe _ (fun _ => True)); [done|].
  intros s i Hi%elem_of_range _. split; [|done]. apply safe_bind; [apply decode_safe; lia|done].
Qed.
End Opened.

Lemma open_inv bs max : small bs -> match open bs max with
  | Ok v => len (directory v) = div_ceil (count v) 128 * 16 /\
      exists st, foldM (check_block v) (0, None) (range 0 (div_ceil (count v) 128)) = Ok st
  | Err _ => True
  | Panic => False
  end.
Proof.
  intros Hs. unfold open. rewrite reading_new.
  destruct (Reader.take (reading [] bs) 4) as [[magic r1]|e|] eqn:E1; [|done|by apply take_safe in E1]. cbn [rbind].
  destruct (negb _); [done|].
  destruct (Reader.u32 r1) as [[c r2]|e|] eqn:E2; [|done|by apply u32_safe in E2]. cbn [rbind].
  destruct (max <? c); [done|]. unfold BLOCK_POSITIONS, ENTRY.
  destruct (checked_mul usize (div_ceil c 128) 16) as [d|] eqn:E3; [|done]. cbn [ok_or rbind].
  apply checked_mul_some in E3 as [-> _].
  destruct (Reader.take r2 _) as [[dir r3]|e|] eqn:E4; [|done|by apply take_safe in E4]. cbn [rbind].
  apply take_ok in E4 as (Hd & _).
  destruct (Reader.take r3 _) as [[p r4]|e|] eqn:E5; [|done|by apply take_safe in E5]. cbn [rbind].
  destruct (foldM _ _ _) as [[e0 pl]|e|] eqn:E6; cbn [rbind].
  - destruct (negb _); [done|]. cbn [directory count]. split; [done|eauto].
  - done.
  - apply (foldM_safe _ (fun _ => True)) in E6; [done|done|]. intros s i Hi%elem_of_range _. split; [|done].
    apply (check_block_safe _ (div_ceil c 128)); [done|done|lia].
Qed.

(** * Properties *)

(** the block encoding of a strictly ascending list is written in full, opened
    and certified by [validate_all]; on the opened view [seek_ge] returns the first
    position of the list at or above the target ([None] when there is none), and
    decodes at most one block of 128 positions and 635 payload bytes for it. *)
Theorem position_blocks_seek l output max : valid l -> len l <= max -> small output ->
  len (encoding l) <= len output ->
  exists bytes v, encode l output max = Ok (len bytes, bytes ++ drop (length bytes) output) /\
    open bytes max = Ok v /\ validate_all v = Ok tt /\
    forall target, exists r, seek_ge v target = Ok r /\
      position r = head (filter (fun x => target <= x) l) /\
      decoded_positions r <= 128 /\ decoded_bytes r <= 635.
Proof.
  intros Hv Hm Hs Hl. exists (encoding l), (view l). split_and!.
  - rewrite pb_encode_view by done. by rewrite (proj2 (N.ltb_ge _ _) Hl).
  - by apply open_view.
  - by apply validate_view.
  - intros target. by apply seek_view.
Qed.
Lemma position_blocks_seek_witness :
  exists bytes v, encode (range 10 300) (replicate 400 x00) 1000 = Ok (len bytes, bytes ++ drop (length bytes) (replicate 400 x00)) /\
    open bytes 1000 = Ok v /\ exists r, seek_ge v 200 = Ok r /\ position r = Some 200.
Proof.
  assert (Hv : valid (range 10 300)).
  { split; [by apply asc_range| |done|vm_compute; done]. apply list.Forall_forall. intros x ?%elem_of_range. lia. }
  destruct (position_blocks_seek (range 10 300) (replicate 400 x00) 1000 Hv ltac:(vm_compute; discriminate)
    ltac:(vm_compute; discriminate) ltac:(vm_compute; discriminate)) as (bytes & v & H1 & H2 & _ & H3).
  exists bytes, v. split; [exact H1|]. split; [exact H2|]. destruct (H3 200) as (r & Hr & Hp & _).
  exists r. split; [exact Hr|]. rewrite Hp. vm_compute. reflexivity.
Defined.

(** on arbitrary bytes [open] returns a view or an error; a view it returned
    may have a corrupt payload, and then [seek_ge] and [validate_all] may report an
    error but no slice, subtraction or loop in them can panic. *)
Theorem position_blocks_never_panic bs max : small bs ->
  open bs max <> Panic /\
  forall v, open bs max = Ok v -> validate_all v <> Panic /\ forall target, seek_ge v target <> Panic.
Proof.
  intros Hs. pose proof (open_inv bs max Hs) as H. destruct (open bs max) as [v|e|]; [|done|done].
  split; [done|]. intros v' [= <-]. destruct H as (Hd & st & Hc). split.
  - by apply (validate_safe v _ Hd eq_refl st).
  - intros target. by apply (seek_safe v _ Hd eq_refl st).
Qed.
Lemma position_blocks_never_panic_witness :
  seek_ge (mk (le_bytes 4 5 ++ le_bytes 4 9 ++ le_bytes 4 0 ++ le_bytes 4 2) [x80; x80] 2) 7 <> Panic.
Proof.
  apply (proj2 (position_blocks_never_panic
    (MAGIC ++ le_bytes 4 2 ++ (le_bytes 4 5 ++ le_bytes 4 9 ++ le_bytes 4 0 ++ le_bytes 4 2) ++ [x80; x80]) 9
    ltac:(vm_compute; discriminate))).
  vm_compute. reflexivity.
Defined.
End PositionBlocks.
