(* ===== verification/Records.v ===== *)
(** Framed records: [src/crates/pin-core/src/codec/records.rs].

    The 16-byte frame every record shares, and its three payloads of fixed shape:
    document records, nullable text values and source manifests.  For each the
    theorem is exactness: the parser returns a value if and only if the bytes are
    the encoding of that (valid) value, so encoding and parsing are mutually inverse
    and nothing else is accepted. *)
From S2P Require Export Bytes Lists Identity.

Import Codec.

Definition HEADER_BYTES : N := 16.
Definition FORMAT_VERSION : N := 1.
(** [b"PIN1"] *)
Definition PIN1 : list byte := [x50; x49; x4e; x31].

(** [payload]: unwraps a frame of the expected kind. *)
Definition payload (bytes : list byte) (kind max_bytes : N) : Codec.Result (list byte) :=
  if max_bytes <? len bytes then fail 0 LimitExceeded
  else
  let reader := Reader.new bytes in
  let* '(magic, reader) := Reader.take reader 4 in
  if negb (bytes_eqb magic PIN1) then fail 0 BadMagic
  else
  let* '(found, reader) := Reader.u8 reader in
  if negb (found =? kind) then fail 4 UnknownTag
  else
  let* '(reserved, reader) := Reader.u8 reader in
  if negb (reserved =? 0) then fail 5 NonCanonical
  else
  let* '(version, reader) := Reader.u16 reader in
  if negb (version =? FORMAT_VERSION) then fail 6 UnsupportedVersion
  else
  let* '(features, reader) := Reader.u32 reader in
  if negb (features =? 0) then fail 8 UnsupportedFeatures
  else
  let* '(len, reader) := Reader.u32 reader in
  let* '(result, reader) := Reader.take reader len in
  let* _ := Reader.finish reader in
  Ok result.

(** [start]: writes a frame header and returns the writer after it. *)
Definition start (output : list byte) (kind len_ : N) : Codec.Result Writer.t :=
  let* total := ok_or (checked_add usize len_ HEADER_BYTES) (Codec.new 0 Overflow) in
  if 2 ^ 32 <=? len_ then fail 0 Overflow
  else if len output <? total then fail 0 Truncated
  else
  let writer := Writer.new output in
  let* writer := Writer.put writer PIN1 in
  let* writer := Writer.u8 writer kind in
  let* writer := Writer.u8 writer 0 in
  let* writer := Writer.u16 writer FORMAT_VERSION in
  let* writer := Writer.u32 writer 0 in
  Writer.u32 writer len_.

(** What an encoder returns: the number of bytes written and the output. *)
Definition written (writer : Writer.t) : N * list byte := (Writer.written writer, Writer.bytes writer).

(** ** Document records *)
Inductive Publication : Type := Allocated | FragmentsWritten | Published | Abandoned.
#[export] Instance Publication_eq_dec : EqDecision Publication.
Proof. solve_decision. Defined.

Record DocumentRecord : Type := mkDocumentRecord {
  segment : SegmentId; incarnation : Incarnation; root : RootTid;
  token_count : N; profile : N; publication : Publication; live : bool }.

Module DocumentRecord.
Definition ENCODED_BYTES : N := HEADER_BYTES + 36.

(** [DocumentRecord::validate] *)
Definition validate (self : DocumentRecord) : Codec.Result unit :=
  if (profile self =? 0) || (live self && negb (bool_decide (publication self = Published)))
  then fail 0 InvalidValue else Ok tt.

Definition publication_tag (p : Publication) : N :=
  match p with Allocated => 0 | FragmentsWritten => 1 | Published => 2 | Abandoned => 3 end.
Definition bool_u8 (b : bool) : N := if b then 1 else 0.

(** [DocumentRecord::encode] *)
Definition encode (self : DocumentRecord) (output : list byte) : Codec.Result (N * list byte) :=
  let* _ := validate self in
  let* writer := start output 1 36 in
  let* writer := Writer.u64 writer (segment self) in
  let* writer := Writer.u64 writer (incarnation self) in
  let* writer := Writer.u32 writer (block (root self)) in
  let* writer := Writer.u16 writer (root_offset (root self)) in
  let* writer := Writer.u16 writer 0 in
  let* writer := Writer.u32 writer (token_count self) in
  let* writer := Writer.u32 writer (profile self) in
  let* writer := Writer.u8 writer (publication_tag (publication self)) in
  let* writer := Writer.u8 writer (bool_u8 (live self)) in
  let* writer := Writer.u16 writer 0 in
  Ok (written writer).

(** [DocumentRecord::parse] *)
Definition parse (bytes : list byte) (layout : HeapLayout) : Codec.Result DocumentRecord :=
  let* p := payload bytes 1 ENCODED_BYTES in
  let reader := Reader.new p in
  let* '(segment, reader) := Reader.u64 reader in
  let* segment := map_err (fun _ => Codec.new 0 InvalidValue) (identifier_new segment) in
  let* '(incarnation, reader) := Reader.u64 reader in
  let* incarnation := map_err (fun _ => Codec.new 8 InvalidValue) (identifier_new incarnation) in
  let* '(block, reader) := Reader.u32 reader in
  let* '(offset, reader) := Reader.u16 reader in
  let* root := map_err (fun _ => Codec.new 16 InvalidValue) (RootTid_new block offset layout) in
  let* '(reserved, reader) := Reader.u16 reader in
  if negb (reserved =? 0) then fail 22 NonCanonical
  else
  let* '(token_count, reader) := Reader.u32 reader in
  let* '(profile, reader) := Reader.u32 reader in
  let* '(tag, reader) := Reader.u8 reader in
  let* publication :=
    match tag with
    | 0 => Ok Allocated
    | 1 => Ok FragmentsWritten
    | 2 => Ok Published
    | 3 => Ok Abandoned
    | _ => fail 32 UnknownTag
    end in
  let* '(flag, reader) := Reader.u8 reader in
  let* live :=
    match flag with
    | 0 => Ok false
    | 1 => Ok true
    | _ => fail 33 InvalidValue
    end in
  let* '(reserved, reader) := Reader.u16 reader in
  if negb (reserved =? 0) then fail 34 NonCanonical
  else
  let* _ := Reader.finish reader in
  let record := mkDocumentRecord segment incarnation root token_count profile publication live in
  let* _ := validate record in
  Ok record.
End DocumentRecord.

(** ** Nullable text *)

(** [decode_value] *)
Definition decode_value (bytes : list byte) (max_bytes : N) : Codec.Result (option (list byte)) :=
  let* p := payload bytes 2 max_bytes in
  let reader := Reader.new p in
  let* '(tag, reader) := Reader.u8 reader in
  let* '(result, reader) :=
    match tag with
    | 0 => Ok (None, reader)
    | 1 =>
        let* '(len, reader) := Reader.u32 reader in
        let* '(text, reader) := Reader.take reader len in
        if utf8_valid text then Ok (Some text, reader) else fail 5 InvalidUtf8
    | _ => fail 0 UnknownTag
    end in
  let* _ := Reader.finish reader in
  Ok result.

(** [encode_value] *)
Definition encode_value (value : option (list byte)) (output : list byte) (max_bytes : N)
  : Codec.Result (N * list byte) :=
  let* len_ :=
    match value with
    | None => Ok 1
    | Some text => ok_or (checked_add usize (len text) 5) (Codec.new 0 Overflow)
    end in
  if match checked_add usize len_ HEADER_BYTES with None => true | Some total => max_bytes <? total end
  then fail 0 LimitExceeded
  else
  let* writer := start output 2 len_ in
  let* writer :=
    match value with
    | None => Writer.u8 writer 0
    | Some text =>
        let* writer := Writer.u8 writer 1 in
        if 2 ^ 32 <=? len text then fail 0 Overflow
        else
        let* writer := Writer.u32 writer (len text) in
        Writer.put writer text
    end in
  Ok (written writer).

(** ** Source manifests *)
Record Source : Type := mkSource { id : SegmentId; sealed : bool }.
Record Manifest : Type := mkManifest { generation : Generation; entries : list byte; count : N }.

Module Manifest.
(** [Manifest::source] *)
Definition source (self : Manifest) (index : N) : Codec.Result Source :=
  if count self <=? index then fail 0 InvalidValue
  else
  let* offset := ok_or (checked_mul usize index 16) (Codec.new 0 Overflow) in
  let* entry := or_panic (slice (entries self) offset (offset + 16)) in
  let reader := Reader.new entry in
  let* '(id, reader) := Reader.u64 reader in
  let* id := map_err (fun _ => Codec.new offset InvalidValue) (identifier_new id) in
  let* '(flag, reader) := Reader.u8 reader in
  let* sealed :=
    match flag with
    | 0 => Ok false
    | 1 => Ok true
    | _ => fail (offset + 8) UnknownTag
    end in
  let* '(reserved, reader) := Reader.take reader 7 in
  if existsb (fun byte => negb (byte_val byte =? 0)) reserved then fail (offset + 9) NonCanonical
  else Ok (mkSource id sealed).

(** [Manifest::parse] *)
Definition parse (bytes : list byte) (max_sources max_bytes : N) : Codec.Result Manifest :=
  let* p := payload bytes 4 max_bytes in
  let reader := Reader.new p in
  let* '(generation, reader) := Reader.u64 reader in
  let* generation := map_err (fun _ => Codec.new 0 InvalidValue) (identifier_new generation) in
  let* '(count, reader) := Reader.u32 reader in
  if max_sources <? count then fail 8 LimitExceeded
  else
  let* '(entries, reader) := Reader.take reader (Reader.remaining reader) in
  if negb (len entries =? count * 16) then fail 12 InvalidValue
  else
  let view := mkManifest generation entries count in
  let* _ := foldM (fun previous index =>
    let* source := source view index in
    if id source <=? previous then fail 12 InvalidOrder else Ok (id source)) 0 (range 0 count) in
  Ok view.

(** [encode_manifest] *)
Definition encode (generation : Generation) (sources : list Source) (output : list byte) (max_sources : N)
  : Codec.Result (N * list byte) :=
  if 2 ^ 32 <=? len sources then fail 0 LimitExceeded
  else
  let count := len sources in
  if max_sources <? count then fail 0 LimitExceeded
  else
  let* _ := foldM (fun previous source =>
    if id source <=? previous then fail 0 InvalidOrder else Ok (id source)) 0 sources in
  let* n := ok_or (checked_mul usize (len sources) 16) (Codec.new 0 Overflow) in
  let* len_ := ok_or (checked_add usize n 12) (Codec.new 0 Overflow) in
  let* writer := start output 4 len_ in
  let* writer := Writer.u64 writer generation in
  let* writer := Writer.u32 writer count in
  let* writer := foldM (fun writer source =>
    let* writer := Writer.u64 writer (id source) in
    let* writer := Writer.u8 writer (if sealed source then 1 else 0) in
    Writer.put writer (replicate 7 x00)) writer sources in
  Ok (written writer).
End Manifest.

(** * Lemmas *)

(** ** Frames *)
Definition frame_header (kind n : N) : list byte :=
  PIN1 ++ [byte_of kind] ++ [byte_of 0] ++ le_bytes 2 FORMAT_VERSION ++ le_bytes 4 0 ++ le_bytes 4 n.
Definition frame (kind : N) (p : list byte) : list byte := frame_header kind (len p) ++ p.

Lemma len_frame_header kind n : len (frame_header kind n) = 16.
Proof. reflexivity. Qed.
Lemma len_frame kind p : len (frame kind p) = 16 + len p.
Proof. unfold frame. by rewrite len_app, len_frame_header. Qed.

Lemma payload_iff bs kind max p : kind < 256 -> small bs ->
  payload bs kind max = Ok p <-> len bs <= max /\ len p < 2 ^ 32 /\ bs = frame kind p.
Proof.
  intros Hk Hs. unfold payload. rewrite reading_new. split.
  - intros H. apply if_err_ok in H as [Hm%N.ltb_ge H].
    next_field H (take_format _) as magic tl Hmag.
    apply if_err_ok in H as [Hpin%negb_false_iff%bytes_eqb_eq H]. subst magic.
    next_field H u8_format as k tl1 Hkv. apply if_err_ok in H as [->%negb_false_iff%N.eqb_eq H].
    next_field H u8_format as r tl2 Hr. apply if_err_ok in H as [->%negb_false_iff%N.eqb_eq H].
    next_field H u16_format as ver tl3 Hver. apply if_err_ok in H as [->%negb_false_iff%N.eqb_eq H].
    next_field H u32_format as ft tl4 Hft. apply if_err_ok in H as [->%negb_false_iff%N.eqb_eq H].
    next_field H u32_format as n tl5 Hn. next_field H (take_format _) as q tl6 Hq.
    apply rbind_ok in H as (u & ->%finish_reading_iff & [= <-]). split; [done|]. split; [lia|].
    unfold frame. rewrite Hq. unfold frame_header, Datatypes.id. by rewrite app_nil_r, <- !app_assoc.
  - intros (Hm & Hl & ->). rewrite (proj2 (N.ltb_ge _ _)) by done.
    unfold frame, frame_header in *. rewrite <- !app_assoc in *.
    give_field (take_format _) PIN1; [done|]. unfold bytes_eqb. rewrite bool_decide_eq_true_2 by done. cbn [negb].
    give_field u8_format kind; [done|]. rewrite N.eqb_refl. cbn [negb].
    give_field u8_format 0; [done|]. rewrite N.eqb_refl. cbn [negb].
    give_field u16_format FORMAT_VERSION; [done|]. rewrite N.eqb_refl. cbn [negb].
    give_field u32_format 0; [done|]. rewrite N.eqb_refl. cbn [negb].
    give_field u32_format (len p); [done|].
    give_field (take_format _) p before (@nil byte); [done|by rewrite app_nil_r|].
    by rewrite finish_reading.
Qed.
Lemma payload_safe bs kind max : safe (payload bs kind max).
Proof. unfold payload. repeat safe_step. Qed.
#[export] Hint Resolve payload_safe : pin.

Lemma start_writing out kind n : small out -> n < 2 ^ 32 -> n + 16 <= len out ->
  start out kind n = Ok (writing out (frame_header kind n)).
Proof.
  intros Hs Hn Hl. unfold start, HEADER_BYTES. rewrite checked_add_fits by (unfold usize; lia). cbn [ok_or rbind].
  rewrite (proj2 (N.leb_gt _ _)), (proj2 (N.ltb_ge _ _)) by done.
  rewrite writing_new. unfold Writer.u32, Writer.u16, Writer.u8.
  assert (H4 : len PIN1 = 4) by done. wrote. done.
Qed.
Lemma start_safe out kind n : safe (start out kind n).
Proof. unfold start, Writer.u32, Writer.u16, Writer.u8. repeat safe_step. Qed.
#[export] Hint Resolve start_safe : pin.

(** The output of an encoder that filled [bytes]. *)
Lemma written_out out bytes : written (writing out bytes) = (len bytes, bytes ++ drop (length bytes) out).
Proof. done. Qed.

(** ** Document records *)
Module DocumentRecordSpec.
Import DocumentRecord.

Definition body (r : DocumentRecord) : list byte :=
  le_bytes 8 (segment r) ++ le_bytes 8 (incarnation r) ++ le_bytes 4 (block (root r)) ++
  le_bytes 2 (root_offset (root r)) ++ le_bytes 2 0 ++ le_bytes 4 (token_count r) ++ le_bytes 4 (profile r) ++
  [byte_of (publication_tag (publication r))] ++ [byte_of (bool_u8 (live r))] ++ le_bytes 2 0.

Record wf (layout : HeapLayout) (r : DocumentRecord) : Prop := {
  wf_segment : identifier_wf (segment r);
  wf_incarnation : identifier_wf (incarnation r);
  wf_root : root_wf layout (root r);
  wf_tokens : token_count r < 2 ^ 32;
  wf_profile : 1 <= profile r < 2 ^ 32;
  wf_live : live r = true -> publication r = Published;
}.

Lemma document_len_body r : len (body r) = 36.
Proof. reflexivity. Qed.
Lemma validate_iff r u : validate r = Ok u <-> profile r <> 0 /\ (live r = true -> publication r = Published).
Proof.
  destruct u. unfold validate. destruct (N.eqb_spec (profile r) 0) as [Hz|Hz]; simpl.
  { split; [done|]. by intros [? _]. }
  destruct (live r); simpl; [|by split].
  case_bool_decide as Hb; simpl; [by split|]. split; [done|]. intros [_ Hc]. by specialize (Hc eq_refl).
Qed.

Lemma document_parse_iff bs layout r : layout_wf layout -> small bs ->
  parse bs layout = Ok r <-> wf layout r /\ bs = frame 1 (body r).
Proof.
  intros Hlay Hs. unfold layout_wf in Hlay. unfold parse. rewrite rbind_ok. split.
  - intros (p & Hp & H). apply payload_iff in Hp as (_ & Hl & ->); [|done|done].
    assert (Hsp : small p) by (unfold small, isize_max; lia). rewrite reading_new in H.
    next_field H u64_format as seg t1 Hseg. apply rbind_ok in H as (s' & [-> Hs0]%map_err_ok%identifier_new_ok & H).
    next_field H u64_format as inc t2 Hinc. apply rbind_ok in H as (i' & [-> Hi0]%map_err_ok%identifier_new_ok & H).
    next_field H u32_format as blk t3 Hblk. next_field H u16_format as off t4 Hoff.
    apply rbind_ok in H as (rt & Hrt%map_err_ok & H). pose proof Hrt as (-> & _)%RootTid_new_ok.
    apply RootTid_new_wf in Hrt; [|done].
    next_field H u16_format as z t5 Hz. apply if_err_ok in H as [->%negb_false_iff%N.eqb_eq H].
    next_field H u32_format as tok t6 Htok. next_field H u32_format as prof t7 Hprof.
    next_field H u8_format as tag t8 Htag. apply rbind_ok in H as (pub & Hpub & H).
    next_field H u8_format as flag t9 Hflag. apply rbind_ok in H as (lv & Hlv & H).
    next_field H u16_format as z t10 Hz'. apply if_err_ok in H as [->%negb_false_iff%N.eqb_eq H].
    apply rbind_ok in H as (u & ->%finish_reading_iff & H). apply rbind_ok in H as (u' & [Hp0 Hpl]%validate_iff & [= <-]).
    assert (Et : tag = publication_tag pub).
    { destruct tag as [|[[?|?|]|[?|?|]|]]; try discriminate Hpub; by injection Hpub as <-. }
    assert (Ef : flag = bool_u8 lv) by (destruct flag as [|[?|?|]]; try discriminate Hlv; by injection Hlv as <-).
    subst tag flag. cbn [profile live publication] in *. split.
    + split; cbn; try done; unfold identifier_wf; lia.
    + unfold body; cbn. done.
  - intros (Hw & ->). exists (body r). split.
    { apply payload_iff; [done|done|]. split; [rewrite len_frame, document_len_body; done|]. split; [by rewrite document_len_body|done]. }
    assert (Hsb : small (body r)) by (unfold small; by rewrite document_len_body). clear Hs. destruct Hw as [[Hs1 Hs2] [Hi1 Hi2] Hr Ht [Hp1 Hp2] Hlv].
    pose proof Hr as [Hb Ho]. unfold u32_max in Hb.
    rewrite reading_new. unfold body in *.
    give_field u64_format (segment r); [done|]. unfold identifier_new at 1. rewrite (proj2 (N.eqb_neq _ _)) by lia. cbn [map_err rbind].
    give_field u64_format (incarnation r); [done|]. unfold identifier_new. rewrite (proj2 (N.eqb_neq _ _)) by lia. cbn [map_err rbind].
    give_field u32_format (block (root r)); [lia|]. give_field u16_format (root_offset (root r)); [lia|].
    rewrite RootTid_new_of_wf by done. cbn [map_err rbind].
    give_field u16_format 0; [done|]. rewrite N.eqb_refl. cbn [negb].
    give_field u32_format (token_count r); [done|]. give_field u32_format (profile r); [done|].
    give_field u8_format (publication_tag (publication r)); [by destruct (publication r)|].
    apply rbind_ok. exists (publication r). split; [by destruct (publication r)|].
    give_field u8_format (bool_u8 (live r)); [by destruct (live r)|].
    apply rbind_ok. exists (live r). split; [by destruct (live r)|].
    give_field u16_format 0 before (@nil byte); [done|done|]. rewrite N.eqb_refl. cbn [negb].
    rewrite finish_reading. cbn [rbind]. apply rbind_ok. exists tt. split; [|by destruct r].
    apply validate_iff. cbn. split; [lia|done].
Qed.

Lemma document_encode_ok layout r out : wf layout r -> small out -> 52 <= len out ->
  encode r out = Ok (52, frame 1 (body r) ++ drop 52 out).
Proof.
  intros Hw Hs Hl. unfold encode. rewrite (proj2 (validate_iff r tt)) by (split; [apply N.neq_0_lt_0; destruct Hw; lia|apply Hw]).
  cbn [rbind]. rewrite start_writing by (done || lia). cbn [rbind].
  unfold Writer.u64, Writer.u32, Writer.u16, Writer.u8. pose proof (len_frame_header 1 36).
  wrote. done.
Qed.
End DocumentRecordSpec.

(** ** Text values *)
Definition value_body (v : option (list byte)) : list byte :=
  match v with None => [byte_of 0] | Some text => [byte_of 1] ++ le_bytes 4 (len text) ++ text end.
Definition value_wf (v : option (list byte)) : Prop :=
  match v with None => True | Some text => utf8_valid text = true /\ 5 + len text < 2 ^ 32 end.
Lemma len_value_body v : len (value_body v) = match v with None => 1 | Some text => 5 + len text end.
Proof. destruct v; [|done]. unfold value_body. len_lia. Qed.

Lemma decode_value_iff bs max v : small bs ->
  decode_value bs max = Ok v <-> len bs <= max /\ value_wf v /\ bs = frame 2 (value_body v).
Proof.
  intros Hs. unfold decode_value. rewrite rbind_ok. split.
  - intros (p & Hp & H). apply payload_iff in Hp as (Hm & Hl & ->); [|done|done]. split; [done|].
    assert (Hsp : small p) by (unfold small, isize_max; lia). rewrite reading_new in H.
    next_field H u8_format as t t1 Ht. apply rbind_ok in H as ([x r] & Hx & H). apply rbind_ok in H as (u & Hf & [= <-]).
    assert (Hcase : t = 0 \/ t = 1) by (destruct t as [|[?|?|]]; try done; tauto). destruct Hcase as [-> | ->].
    + injection Hx as <- <-. apply finish_reading_iff in Hf as ->. done.
    + next_field Hx u32_format as n t2 Hn. next_field Hx (take_format _) as text t3 Htx.
      apply if_ok_err in Hx as [Hu [= <- <-]]. apply finish_reading_iff in Hf as ->.
      unfold Datatypes.id in *. unfold value_wf, value_body. rewrite Htx, app_nil_r in *.
      split; [|done]. split; [done|]. rewrite !len_app, len_le_bytes, len_cons, len_nil in Hl. lia.
  - intros (Hm & Hv & ->). exists (value_body v). rewrite len_frame in Hm.
    assert (Hb : len (value_body v) < 2 ^ 32) by (rewrite len_value_body; destruct v; [apply Hv|done]).
    split; [apply payload_iff; [done|done|]; rewrite len_frame; done|].
    assert (Hsb : small (value_body v)) by (unfold small, isize_max; lia). rewrite reading_new.
    destruct v as [text|]; unfold value_body in *.
    + destruct Hv as [Hu Hl]. give_field u8_format 1; [done|]. apply rbind_ok. exists (Some text, reading ([] ++ [byte_of 1] ++ le_bytes 4 (len text) ++ text) []).
      split; [|by rewrite finish_reading].
      give_field u32_format (len text); [lia|]. give_field (take_format _) text before (@nil byte); [done|by rewrite app_nil_r|].
      rewrite Hu. unfold Datatypes.id. by rewrite <- !app_assoc.
    + give_field u8_format 0 before (@nil byte); [done|done|]. cbn [rbind]. by rewrite finish_reading.
Qed.
Lemma encode_value_ok v out max : value_wf v -> small out -> len (frame 2 (value_body v)) <= max ->
  len (frame 2 (value_body v)) <= len out ->
  encode_value v out max = Ok (len (frame 2 (value_body v)),
    frame 2 (value_body v) ++ drop (length (frame 2 (value_body v))) out).
Proof.
  intros Hv Hs Hm Hl. unfold encode_value. rewrite len_frame in Hm, Hl.
  pose proof (len_frame_header 2 (len (value_body v))) as Hh.
  assert (Hb : len (value_body v) < 2 ^ 32) by (rewrite len_value_body; destruct v; [apply Hv|done]).
  assert (E : match v with None => Ok 1 | Some text => ok_or (checked_add usize (len text) 5) (Codec.new 0 Overflow) end
    = Ok (len (value_body v))).
  { rewrite len_value_body. destruct v as [text|]; [|done]. destruct Hv. rewrite checked_add_fits by (unfold usize; lia).
    simpl. f_equal. lia. }
  rewrite E. cbn [rbind]. unfold HEADER_BYTES. rewrite checked_add_fits by (unfold usize; lia).
  rewrite (proj2 (N.ltb_ge _ _)) by lia. rewrite start_writing by (done || lia). cbn [rbind].
  destruct v as [text|]; unfold value_body in *; unfold Writer.u8, Writer.u32; rewrite ?len_app, ?len_le_bytes in Hl.
  - destruct Hv. wrote. rewrite (proj2 (N.leb_gt _ _)) by lia. wrote. unfold frame. rewrite !app_assoc. done.
  - wrote. done.
Qed.

(** ** Source manifests *)
Module ManifestSpec.
Import Manifest.

Definition source_bytes (s : Source) : list byte :=
  le_bytes 8 (id s) ++ [byte_of (if sealed s then 1 else 0)] ++ replicate 7 x00.
Definition body (g : Generation) (sources : list Source) : list byte :=
  le_bytes 8 g ++ le_bytes 4 (len sources) ++ (sources ≫= source_bytes).
Definition sources_wf (sources : list Source) : Prop :=
  asc 1 (id <$> sources) /\ Forall (fun s => id s < 2 ^ 64) sources.

Lemma len_source s : len (source_bytes s) = 16.
Proof. reflexivity. Qed.
Lemma len_sources ss : len (ss ≫= source_bytes) = 16 * len ss.
Proof. apply len_bind_const. intros; apply len_source. Qed.
Lemma manifest_len_body g ss : len (body g ss) = 12 + 16 * len ss.
Proof. unfold body. rewrite !len_app, !len_le_bytes, len_sources. lia. Qed.

Lemma zeros_iff l : existsb (fun byte => negb (byte_val byte =? 0)) l = false <-> l = replicate (length l) x00.
Proof.
  induction l as [|b l IH]; [done|]. simpl. rewrite orb_false_iff, IH, negb_false_iff, N.eqb_eq. split.
  - intros [Hb Hl]. assert (b = x00) as -> by by apply byte_val_inj. by f_equal.
  - intros [= -> Hl]. done.
Qed.

Lemma source_iff m i s : count m < 2 ^ 32 -> len (entries m) = 16 * count m ->
  source m i = Ok s <->
  i < count m /\ 1 <= id s < 2 ^ 64 /\ slice (entries m) (i * 16) (i * 16 + 16) = Some (source_bytes s).
Proof.
  intros Hc He. unfold source. destruct (N.leb_spec (count m) i) as [|Hi]; [split; [done|lia]|].
  rewrite checked_mul_fits by (unfold usize; lia). cbn [ok_or rbind].
  destruct (slice (entries m) (i * 16) (i * 16 + 16)) as [e|] eqn:Esl; cbn [or_panic rbind]; [|split; [done|naive_solver]].
  pose proof (slice_len _ _ _ _ Esl) as Hl16. assert (Hs : small e) by (unfold small, isize_max; lia).
  rewrite reading_new. split.
  - intros H. next_field H u64_format as n t1 Hn. apply rbind_ok in H as (n' & [-> Hn0]%map_err_ok%identifier_new_ok & H).
    next_field H u8_format as f t2 Hf. apply rbind_ok in H as (b & Hb & H).
    next_field H (take_format _) as z t3 Hz. apply if_err_ok in H as [Hz0%zeros_iff [= <-]]. cbn [id sealed].
    split_and!; [done|lia|done|]. f_equal. unfold source_bytes; cbn [id sealed]. unfold Datatypes.id in *.
    assert (t3 = []) as -> by (apply len_zero; len_lia). rewrite app_nil_r.
    replace (length z) with 7%nat in Hz0 by (unfold len in Hz; lia). rewrite Hz0.
    assert (Ef : f = if b then 1 else 0) by (destruct f as [|[?|?|]]; try discriminate Hb; by injection Hb as <-).
    by rewrite Ef.
  - intros (_ & Hid & [= ->]). unfold source_bytes in *.
    give_field u64_format (id s); [lia|]. unfold identifier_new. rewrite (proj2 (N.eqb_neq _ _)) by lia. cbn [map_err rbind].
    give_field u8_format (if sealed s then 1 else 0); [by destruct (sealed s)|].
    apply rbind_ok. exists (sealed s). split; [by destruct (sealed s)|].
    give_field (take_format _) (replicate 7 x00) before (@nil byte); [done|done|]. cbn. by destruct s.
Qed.
Lemma source_safe m i : count m < 2 ^ 32 -> len (entries m) = 16 * count m -> safe (source m i).
Proof.
  intros Hc He. unfold source. apply safe_if; [done|]. intros Hi. bool_to_prop.
  rewrite checked_mul_fits by (unfold usize; lia). cbn [ok_or rbind]. apply safe_bind.
  - apply safe_or_panic. unfold slice. rewrite (proj2 (N.leb_le _ _)), (proj2 (N.leb_le _ _)) by lia. eauto.
  - intros e _. apply safe_bind; [auto with pin|]. intros [n r] _. apply safe_bind; [auto with pin|]. intros n' _.
    apply safe_bind; [auto with pin|]. intros [f r'] _. apply safe_bind; [by destruct f as [|[?|?|]]|]. intros b _.
    repeat safe_step.
Qed.

Definition last_id (ss : list Source) : N := foldl (fun _ s => id s) 0 ss.
Lemma last_id_snoc ss s : last_id (ss ++ [s]) = id s.
Proof. unfold last_id. by rewrite foldl_app. Qed.
Lemma last_id_max ss s : sources_wf ss -> s ∈ ss -> id s <= last_id ss.
Proof.
  intros [Ha _] Hs. destruct ss as [|s' ss _] using rev_ind; [by apply elem_of_nil in Hs|].
  rewrite last_id_snoc. rewrite fmap_app in Ha. apply asc_app_inv in Ha as (_ & _ & Hlt).
  apply elem_of_app in Hs as [Hs|Hs].
  - specialize (Hlt (id s) (id s') ltac:(by apply list_elem_of_fmap_2) ltac:(left)). lia.
  - apply list_elem_of_singleton in Hs as ->. done.
Qed.
Lemma sources_snoc ss s : sources_wf ss -> 1 <= id s < 2 ^ 64 -> last_id ss < id s -> sources_wf (ss ++ [s]).
Proof.
  intros Hw Hid Hlt. pose proof Hw as [Ha Hf]. split.
  - rewrite fmap_app. apply (asc_app _ _ _ (id s)); [done| |lia|simpl; lia].
    intros x (t & -> & Ht)%list_elem_of_fmap. pose proof (last_id_max ss t Hw Ht). lia.
  - apply Forall_app. split; [done|]. constructor; [lia|done].
Qed.

(** The checking loop of [parse]. *)
Definition check (m : Manifest) (previous index : N) : Codec.Result N :=
  let* source := source m index in
  if id source <=? previous then fail 12 InvalidOrder else Ok (id source).

Lemma check_loop m k prev : count m < 2 ^ 32 -> len (entries m) = 16 * count m -> k <= count m ->
  foldM (check m) 0 (range 0 k) = Ok prev <->
  exists ss, len ss = k /\ sources_wf ss /\ prev = last_id ss /\
    take (N.to_nat (16 * k)) (entries m) = ss ≫= source_bytes.
Proof.
  intros Hc He. revert prev. induction k as [|k IH] using N.peano_ind; intros prev Hk.
  - split.
    + intros [= <-]. exists []. split_and!; try done.
    + intros (ss & ->%len_zero & _ & -> & _). done.
  - rewrite <- N.add_1_r in *. rewrite range_snoc, foldM_app, rbind_ok by lia.
    assert (Htk : take (N.to_nat (16 * (k + 1))) (entries m) =
      take (N.to_nat (16 * k)) (entries m) ++ take 16 (drop (N.to_nat (16 * k)) (entries m))).
    { rewrite take_take_drop. f_equal. lia. }
    assert (Hsl : slice (entries m) (k * 16) (k * 16 + 16) = Some (take 16 (drop (N.to_nat (16 * k)) (entries m)))).
    { apply slice_ok. split_and!; [lia|lia|]. f_equal; [lia|]. f_equal. lia. }
    split.
    + intros (p & H1 & H2). apply IH in H1 as (ss & Hl & Hw & -> & Ht); [|lia]. cbn [foldM] in H2.
      unfold check in H2. apply rbind_ok in H2 as (p2 & H2 & [= <-]). apply rbind_ok in H2 as (s & Hs & H2).
      apply if_err_ok in H2 as [Ho%N.leb_gt [= <-]]. apply source_iff in Hs as (_ & Hid & Hsb); [|done|done].
      exists (ss ++ [s]). rewrite len_app, last_id_snoc, bind_app, <- Ht, Htk. rewrite Hsl in Hsb.
      split_and!; [len_lia|by apply sources_snoc|done|]. f_equal. apply Some_inj' in Hsb as ->. reflexivity.
    + intros (ss & Hl & Hw & -> & Ht). destruct ss as [|s ss _] using rev_ind; [rewrite len_nil in Hl; lia|].
      rewrite len_app in Hl. change (len [s]) with 1 in Hl. pose proof Hw as [Ha Hf].
      rewrite fmap_app in Ha. apply asc_app_inv in Ha as (Ha & Has & Hlt). apply Forall_app in Hf as [Hf Hfs].
      rewrite bind_app, Htk in Ht. apply app_inj_1 in Ht as [Ht1 Ht2].
      2:{ pose proof (len_sources ss) as Hls. unfold len in *. rewrite length_take. lia. }
      change ([s] ≫= source_bytes) with (source_bytes s) in Ht2. exists (last_id ss). split; [apply IH; [lia|]; exists ss; by split_and!; [lia| | |]|].
      cbn [foldM]. rewrite last_id_snoc. unfold check. rewrite (proj2 (source_iff m k s Hc He)).
      * cbn [rbind]. rewrite (proj2 (N.leb_gt _ _)); [done|].
        destruct ss as [|s' ss' _] using rev_ind; [simpl in Has; cbn; lia|].
        rewrite last_id_snoc. apply Hlt; [|left]. rewrite fmap_app. apply elem_of_app. right. left.
      * apply list.Forall_cons_1 in Hfs as [? _]. simpl in Has. split; [lia|]. split; [lia|]. by rewrite Hsl, Ht2.
Qed.

Definition view_of (g : Generation) (ss : list Source) : Manifest := mkManifest g (ss ≫= source_bytes) (len ss).

Lemma manifest_parse_iff bs ms mb m : small bs ->
  parse bs ms mb = Ok m <->
  exists g ss, identifier_wf g /\ sources_wf ss /\ len ss <= ms /\ len ss < 2 ^ 32 /\
    len bs <= mb /\ len (body g ss) < 2 ^ 32 /\ bs = frame 4 (body g ss) /\ m = view_of g ss.
Proof.
  intros Hs. unfold parse. rewrite rbind_ok. split.
  - intros (p & Hp & H). apply payload_iff in Hp as (Hm & Hl & ->); [|done|done].
    assert (Hsp : small p) by (unfold small, isize_max; lia). rewrite reading_new in H.
    next_field H u64_format as g t1 Hg. apply rbind_ok in H as (g' & [-> Hg0]%map_err_ok%identifier_new_ok & H).
    next_field H u32_format as c t2 Hc. apply if_err_ok in H as [Hcm%N.ltb_ge H].
    next_field H (take_format _) as e t3 He. rewrite remaining_reading in He. unfold Datatypes.id in *.
    assert (t3 = []) as -> by (apply len_zero; len_lia). rewrite app_nil_r in *.
    apply if_err_ok in H as [Hec%negb_false_iff%N.eqb_eq H]. apply rbind_ok in H as (prev & Hck & [= <-]).
    fold (check (mkManifest g e c)) in Hck.
    apply (check_loop (mkManifest g e c) c prev) in Hck; cbn [count entries]; [|done|lia|lia].
    destruct Hck as (ss & Hls & Hw & _ & Ht). cbn [entries] in Ht. rewrite take_ge in Ht by (unfold len in Hec; lia). subst e c.
    exists g, ss. unfold identifier_wf. split_and!; try done. lia.
  - intros (g & ss & [Hg1 Hg2] & Hw & Hms & Hc & Hm & Hb & -> & ->). exists (body g ss).
    split; [by apply payload_iff|]. assert (Hsb : small (body g ss)) by (unfold small, isize_max; lia).
    rewrite reading_new. unfold body in *.
    give_field u64_format g; [done|]. unfold identifier_new. rewrite (proj2 (N.eqb_neq _ _)) by lia. cbn [map_err rbind].
    give_field u32_format (len ss); [done|]. rewrite (proj2 (N.ltb_ge _ _)), remaining_reading by done.
    give_field (take_format _) (ss ≫= source_bytes) before (@nil byte); [done|by rewrite app_nil_r|].
    unfold Datatypes.id. rewrite len_sources, (N.mul_comm 16), N.eqb_refl. cbn [negb]. apply rbind_ok. exists (last_id ss).
    split; [|done]. fold (check (mkManifest g (ss ≫= source_bytes) (len ss))).
    apply check_loop; cbn [count entries]; [done|by rewrite len_sources|lia|].
    exists ss. split_and!; [done|done|done|]. apply take_ge. pose proof (len_sources ss). unfold len in *. lia.
Qed.

Lemma source_view g ss i s : len ss < 2 ^ 32 -> sources_wf ss -> index ss i = Some s -> source (view_of g ss) i = Ok s.
Proof.
  intros Hl [Ha Hf] Hi. unfold index in Hi. pose proof (lookup_lt_Some _ _ _ Hi) as Hlt.
  apply source_iff; cbn [count entries view_of]; [done|by apply len_sources|]. split; [unfold len; lia|]. split.
  - split; [|rewrite list.Forall_forall in Hf; apply Hf; by eapply list_elem_of_lookup_2].
    eapply asc_ge; [done|]. apply list_elem_of_fmap_2. by eapply list_elem_of_lookup_2.
  - rewrite <- (take_drop_middle ss _ _ Hi), bind_app, bind_cons.
    apply slice_app; rewrite ?len_source, len_sources, len_take, N2Nat.id; unfold len; lia.
Qed.
Lemma order_loop ss : sources_wf ss ->
  foldM (fun previous source => if id source <=? previous then fail 0 InvalidOrder else Ok (id source)) 0 ss = Ok (last_id ss).
Proof.
  intros [Ha _]. unfold last_id. assert (H : forall p, asc (p + 1) (id <$> ss) ->
    foldM (fun previous source => if id source <=? previous then fail 0 InvalidOrder else Ok (id source)) p ss
      = Ok (foldl (fun _ s => id s) p ss)); [|by apply H].
  clear Ha. induction ss as [|s ss IH]; intros p Ha; [done|]. cbn in Ha. cbn [foldM foldl].
  rewrite (proj2 (N.leb_gt _ _)) by lia. cbn [rbind]. apply IH, Ha.
Qed.
Lemma manifest_encode_ok g ss out ms : sources_wf ss -> len ss <= ms -> len (body g ss) < 2 ^ 32 -> small out ->
  len (frame 4 (body g ss)) <= len out ->
  encode g ss out ms = Ok (len (frame 4 (body g ss)), frame 4 (body g ss) ++ drop (length (frame 4 (body g ss))) out).
Proof.
  intros Hw Hm Hb Hs Hl. rewrite len_frame in Hl. pose proof (manifest_len_body g ss) as Hlb. unfold encode.
  rewrite (proj2 (N.leb_gt _ _)), (proj2 (N.ltb_ge _ _)) by lia. rewrite order_loop by done. cbn [rbind].
  rewrite checked_mul_fits by (unfold usize; lia). cbn [ok_or rbind].
  rewrite checked_add_fits by (unfold usize; lia). cbn [ok_or rbind].
  replace (len ss * 16 + 12) with (len (body g ss)) by lia. pose proof (len_frame_header 4 (len (body g ss))).
  rewrite start_writing by (done || lia). cbn [rbind]. unfold Writer.u64, Writer.u32. wrote.
  assert (Hf : forall l pre, len pre + 16 * len l <= len out -> foldM (fun writer source =>
      let* writer := Writer.put writer (le_bytes 8 (id source)) in
      let* writer := Writer.u8 writer (if sealed source then 1 else 0) in
      Writer.put writer (replicate 7 x00)) (writing out pre) l = Ok (writing out (pre ++ (l ≫= source_bytes)))).
  { clear -Hs. intros l. induction l as [|s l IH]; intros pre Hl; [cbn; by rewrite app_nil_r|].
    cbn [foldM]. rewrite len_cons in Hl. unfold Writer.u8 at 1.
    assert (H7 : len (replicate 7 x00) = 7) by done. wrote. rewrite IH by len_lia.
    rewrite bind_cons, <- !app_assoc. done. }
  rewrite Hf by len_lia. cbn [rbind]. rewrite written_out. unfold frame, body. by rewrite <- !app_assoc.
Qed.
End ManifestSpec.

(** * Properties *)

(** a document record is parsed if and only if the bytes are the frame of a
    valid record (identifiers nonzero, coordinate inside the layout, profile
    nonzero, live only when published), and [encode] produces exactly those bytes,
    52 of them, whenever the buffer has room. *)
Theorem document_record_exact layout r bs output : layout_wf layout -> small bs -> small output ->
  (DocumentRecord.parse bs layout = Ok r <->
     DocumentRecordSpec.wf layout r /\ bs = frame 1 (DocumentRecordSpec.body r)) /\
  (DocumentRecordSpec.wf layout r -> 52 <= len output ->
     DocumentRecord.encode r output = Ok (52, frame 1 (DocumentRecordSpec.body r) ++ drop 52 output)).
Proof.
  intros Hl Hb Ho. split; [by apply DocumentRecordSpec.document_parse_iff|]. intros Hw Hlen.
  by apply (DocumentRecordSpec.document_encode_ok layout).
Qed.
Lemma document_record_exact_witness :
  DocumentRecord.parse (frame 1 (DocumentRecordSpec.body (mkDocumentRecord 7 9 (mkRootTid 3 4) 11 1 Published true))) (mkHeapLayout 291)
    = Ok (mkDocumentRecord 7 9 (mkRootTid 3 4) 11 1 Published true).
Proof.
  apply (document_record_exact (mkHeapLayout 291) (mkDocumentRecord 7 9 (mkRootTid 3 4) 11 1 Published true)
    (frame 1 (DocumentRecordSpec.body (mkDocumentRecord 7 9 (mkRootTid 3 4) 11 1 Published true))) []);
    [split; vm_compute; discriminate|vm_compute; discriminate|vm_compute; discriminate|].
  split; [|reflexivity]. split; try done; split; vm_compute; done.
Defined.

(** nullable text: [decode_value] returns exactly the values whose frame the
    bytes are, keeping NULL apart from the empty string and rejecting invalid UTF-8;
    what [encode_value] writes decodes to the same value. *)
Theorem value_roundtrip bs v max output : small bs -> small output ->
  (decode_value bs max = Ok v <-> len bs <= max /\ value_wf v /\ bs = frame 2 (value_body v)) /\
  (value_wf v -> len (frame 2 (value_body v)) <= max -> len (frame 2 (value_body v)) <= len output ->
   exists n out', encode_value v output max = Ok (n, out') /\ decode_value (take (N.to_nat n) out') max = Ok v).
Proof.
  intros Hb Ho. split; [by apply decode_value_iff|]. intros Hv Hm Hl. eexists _, _. split; [by apply encode_value_ok|].
  rewrite to_nat_len, take_app_length. apply decode_value_iff; [small_lia|done].
Qed.
Lemma value_roundtrip_witness :
  (exists n out', encode_value (Some []) (replicate 32 xff) 64 = Ok (n, out') /\ decode_value (take (N.to_nat n) out') 64 = Ok (Some [])) /\
  (exists n out', encode_value None (replicate 32 xff) 64 = Ok (n, out') /\ decode_value (take (N.to_nat n) out') 64 = Ok None).
Proof.
  split; apply (value_roundtrip [] _ 64 (replicate 32 xff)); try (vm_compute; discriminate); split; reflexivity.
Defined.

(** a manifest is accepted if and only if it is the frame of a nonzero
    generation and a strictly ascending list of at most [max_sources] sources; the
    accepted view gives back that list by [source], and [encode_manifest] writes
    exactly the accepted bytes. *)
Theorem manifest_exact bs max_sources max_bytes m : small bs ->
  Manifest.parse bs max_sources max_bytes = Ok m <->
  exists g ss, identifier_wf g /\ ManifestSpec.sources_wf ss /\ len ss <= max_sources /\ len ss < 2 ^ 32 /\
    len bs <= max_bytes /\ len (ManifestSpec.body g ss) < 2 ^ 32 /\ m = ManifestSpec.view_of g ss /\
    (forall i s, index ss i = Some s -> Manifest.source m i = Ok s) /\
    forall output, small output -> len bs <= len output ->
      Manifest.encode g ss output max_sources = Ok (len bs, bs ++ drop (length bs) output) /\
      bs = frame 4 (ManifestSpec.body g ss).
Proof.
  intros Hs. rewrite ManifestSpec.manifest_parse_iff by done. split.
  - intros (g & ss & Hg & Hw & Hms & Hc & Hm & Hb & -> & ->). exists g, ss. split_and!; try done; try apply Hg; try apply Hw.
    + intros i s Hi. by apply ManifestSpec.source_view.
    + intros output Ho Hl. split; [by apply ManifestSpec.manifest_encode_ok|done].
  - intros (g & ss & Hg & Hw & Hms & Hc & Hm & Hb & -> & _ & He). exists g, ss.
    destruct (He bs Hs ltac:(lia)) as [_ E]. by split_and!; try apply Hg; try apply Hw.
Qed.
Lemma manifest_exact_witness :
  exists m, Manifest.parse (frame 4 (ManifestSpec.body 5 [mkSource 2 true; mkSource 9 false])) 4 200 = Ok m /\
    Manifest.source m 1 = Ok (mkSource 9 false).
Proof.
  exists (ManifestSpec.view_of 5 [mkSource 2 true; mkSource 9 false]).
  assert (H : Manifest.parse (frame 4 (ManifestSpec.body 5 [mkSource 2 true; mkSource 9 false])) 4 200 =
    Ok (ManifestSpec.view_of 5 [mkSource 2 true; mkSource 9 false])) by (vm_compute; reflexivity).
  split; [exact H|].
  destruct (proj1 (manifest_exact (frame 4 (ManifestSpec.body 5 [mkSource 2 true; mkSource 9 false])) 4 200 _
    ltac:(vm_compute; discriminate)) H) as (g & ss & _ & _ & _ & _ & _ & _ & _ & _ & _).
  vm_compute. reflexivity.
Defined.
