(* ===== verification/Dictionary.v ===== *)
(** The term dictionary: [src/crates/pin-core/src/codec/dictionary.rs].

    Sorted terms behind an offset table, looked up by binary search on the encoded
    bytes.  The theorems: [parse] accepts exactly the frames of strictly sorted,
    nonempty, valid UTF-8 terms within the limits; on an accepted dictionary
    [term], [lookup] and [prefix] compute on the bytes what they mean on the list of
    terms; [encode] writes what [parse] accepts. *)
From stdpp Require Import sorting.
From S2P Require Export Records.

Record DictionaryLimits : Type := mkDictionaryLimits {
  max_bytes : N; max_terms : N; max_term_bytes : N }.
Definition TermId : Type := N.

Module Dictionary.
Import Codec.

Record t : Type := mk { profile : N; offsets : list byte; terms : list byte; count : N }.

(** [Dictionary::offset] *)
Definition offset (self : t) (index : N) : Codec.Result N :=
  let* offset := ok_or (checked_mul usize index 4) (Codec.new 8 Overflow) in
  let* bytes := ok_or (slice_from (offsets self) offset) (Codec.new 8 Truncated) in
  let* '(value, _) := Reader.u32 (Reader.new bytes) in
  Ok value.

(** [Dictionary::term] *)
Definition term (self : t) (id : TermId) : Codec.Result (list byte) :=
  if count self <=? id then fail 8 InvalidValue
  else
  let* start := offset self id in
  let* next := add_w 32 id 1 in
  let* end_ := offset self next in
  let* bytes := ok_or (slice (terms self) start end_) (Codec.new 8 InvalidValue) in
  if utf8_valid bytes then Ok bytes else fail start InvalidUtf8.

(** The ordering loop of [parse]. *)
Definition check_term (view : t) (limits : DictionaryLimits) (previous : list byte) (index : N)
  : Codec.Result (list byte) :=
  let* term := term view index in
  if (len term =? 0) || (max_term_bytes limits <? len term) then fail 8 LimitExceeded
  else if bytes_leb term previous then fail 8 InvalidOrder
  else Ok term.

(** [Dictionary::parse] *)
Definition parse (bytes : list byte) (limits : DictionaryLimits) : Codec.Result t :=
  let* p := payload bytes 3 (max_bytes limits) in
  let reader := Reader.new p in
  let* '(profile, reader) := Reader.u32 reader in
  if profile =? 0 then fail 0 InvalidValue
  else
  let* '(count, reader) := Reader.u32 reader in
  if max_terms limits <? count then fail 4 LimitExceeded
  else
  let* n := ok_or (checked_add usize count 1) (Codec.new 8 Overflow) in
  let* offset_bytes := ok_or (checked_mul usize n 4) (Codec.new 8 Overflow) in
  let* '(offsets, reader) := Reader.take reader offset_bytes in
  let* '(terms, reader) := Reader.take reader (Reader.remaining reader) in
  let view := mk profile offsets terms count in
  let* first := offset view 0 in
  let* last := if negb (first =? 0) then Ok 0 else offset view count in
  if negb (first =? 0) || negb (last =? len terms) then fail 8 InvalidValue
  else
  let* _ := foldM (check_term view limits) [] (range 0 count) in
  Ok view.

(** [Dictionary::lower_bound] *)
Definition lower_bound (self : t) (key : list byte) : Codec.Result N :=
  Prelude.lower_bound (fun middle =>
    let* term := term self middle in Ok (bytes_ltb term key)) 0 (count self).

(** [Dictionary::lookup] *)
Definition lookup (self : t) (key : list byte) : Codec.Result (option TermId) :=
  let* index := lower_bound self key in
  if index <? count self then
    let* found := term self index in
    if bytes_eqb found key then Ok (Some index) else Ok None
  else Ok None.

(** [Dictionary::prefix]: the range [begin..low] *)
Definition prefix (self : t) (key : list byte) (max_expanded : N) : Codec.Result (N * N) :=
  let* begin := lower_bound self key in
  let* low := Prelude.lower_bound (fun middle =>
    let* term := term self middle in Ok (starts_with key term)) begin (count self) in
  let* expanded := sub_w low begin in
  if max_expanded <? expanded then fail 0 LimitExceeded
  else Ok (begin, low).

(** The checking loop of [encode]. *)
Definition measure_term (limits : DictionaryLimits) (state : N * list byte) (term : list byte)
  : Codec.Result (N * list byte) :=
  let '(data_bytes, previous) := state in
  if (len term =? 0) || (max_term_bytes limits <? len term) then fail 0 LimitExceeded
  else if bytes_leb term previous then fail 0 InvalidOrder
  else
    let* data_bytes := ok_or (checked_add usize data_bytes (len term)) (Codec.new 0 Overflow) in
    Ok (data_bytes, term).

(** [encode] *)
Definition encode (profile : N) (terms : list (list byte)) (output : list byte) (limits : DictionaryLimits)
  : Codec.Result (N * list byte) :=
  if profile =? 0 then fail 0 InvalidValue
  else if 2 ^ 32 <=? len terms then fail 4 LimitExceeded
  else
  let count := len terms in
  if max_terms limits <? count then fail 4 LimitExceeded
  else
  let* '(data_bytes, _) := foldM (measure_term limits) (0, []) terms in
  if 2 ^ 32 <=? data_bytes then fail 0 Overflow
  else
  let* n := ok_or (checked_add usize (len terms) 1) (Codec.new 0 Overflow) in
  let* n := ok_or (checked_mul usize n 4) (Codec.new 0 Overflow) in
  let* n := ok_or (checked_add usize n 8) (Codec.new 0 Overflow) in
  let* len_ := ok_or (checked_add usize n data_bytes) (Codec.new 0 Overflow) in
  if match checked_add usize len_ HEADER_BYTES with None => true | Some total => max_bytes limits <? total end
  then fail 0 LimitExceeded
  else
  let* writer := start output 3 len_ in
  let* writer := Writer.u32 writer profile in
  let* writer := Writer.u32 writer count in
  let* writer := Writer.u32 writer 0 in
  let* '(writer, _) := foldM (fun '(writer, offset) term =>
    let* offset := add_w 32 offset (trunc 32 (len term)) in
    let* writer := Writer.u32 writer offset in
    Ok (writer, offset)) (writer, 0) terms in
  let* writer := foldM Writer.put writer terms in
  Ok (written writer).

(** * Lemmas *)

(** ** Orders on byte strings *)
Lemma bytes_lt_nil s : bytes_lt [] s <-> s <> [].
Proof. destruct s; unfold bytes_lt; simpl; naive_solver. Qed.
Lemma prefix_convex p a b : bytes_ltb a p = false -> bytes_lt a b -> starts_with p b = true -> starts_with p a = true.
Proof.
  unfold bytes_lt. revert a b. induction p as [|x p IH]; intros a b H1 H2 H3; [done|].
  destruct a as [|y a], b as [|z b]; simpl in *; try done. unfold bytes_ltb in H1. simpl in H1.
  apply andb_true_iff in H3 as [->%bool_decide_eq_true H3].
  revert H1 H2. destruct (N.compare_spec (byte_val y) (byte_val z)) as [E|E|E]; intros H1 H2; try done.
  apply byte_val_inj in E as ->. rewrite bool_decide_eq_true_2 by done. simpl. by eapply IH.
Qed.
Lemma starts_with_ge p a : starts_with p a = true -> bytes_ltb a p = false.
Proof.
  revert a. induction p as [|x p IH]; intros a H; [by destruct a|]. destruct a as [|y a]; [done|]. simpl in H.
  apply andb_true_iff in H as [->%bool_decide_eq_true H]. unfold bytes_ltb; simpl. rewrite N.compare_refl. by apply IH.
Qed.

(** ** The representation of a list of terms *)
Definition psum (ts : list (list byte)) (i : N) : N := len (concat (take (N.to_nat i) ts)).
Definition table (ts : list (list byte)) (n : N) : list byte := range 0 n ≫= (fun i => le_bytes 4 (psum ts i)).
Definition body (profile : N) (ts : list (list byte)) : list byte :=
  le_bytes 4 profile ++ le_bytes 4 (len ts) ++ table ts (len ts + 1) ++ concat ts.
Definition view_of (profile : N) (ts : list (list byte)) : t :=
  mk profile (table ts (len ts + 1)) (concat ts) (len ts).
Record terms_wf (limits : DictionaryLimits) (ts : list (list byte)) : Prop := {
  wf_sorted : StronglySorted bytes_lt ts;
  wf_each : Forall (fun t => t <> [] /\ len t <= max_term_bytes limits /\ utf8_valid t = true) ts;
}.

Lemma len_table ts n : len (table ts n) = 4 * n.
Proof. unfold table. rewrite (len_bind_const _ 4) by (intros; by rewrite len_le_bytes). by rewrite len_range, N.sub_0_r. Qed.
Lemma psum_0 ts : psum ts 0 = 0.
Proof. done. Qed.
Lemma psum_all ts : psum ts (len ts) = len (concat ts).
Proof. unfold psum. by rewrite to_nat_len, firstn_all. Qed.
Lemma psum_step ts i x : index ts i = Some x -> psum ts (i + 1) = psum ts i + len x.
Proof.
  unfold index, psum. intros Hi. replace (N.to_nat (i + 1)) with (S (N.to_nat i)) by lia.
  rewrite (take_S_r _ _ _ Hi), concat_app, len_app. simpl. by rewrite app_nil_r.
Qed.
Lemma psum_app ts x i : i <= len ts -> psum (ts ++ [x]) i = psum ts i.
Proof. intros. unfold psum. rewrite take_app_le; [done|]. unfold len in *; lia. Qed.
Lemma concat_slice ts i x : index ts i = Some x -> slice (concat ts) (psum ts i) (psum ts i + len x) = Some x.
Proof.
  unfold index. intros Hi. rewrite <- (take_drop_middle ts _ _ Hi) at 1. rewrite concat_app. simpl.
  by apply slice_app.
Qed.
Lemma psum_le ts i : psum ts i <= len (concat ts).
Proof. unfold psum. rewrite <- (take_drop (N.to_nat i) ts) at 2. rewrite concat_app, len_app. lia. Qed.

Section View.
Context (profile : N) (ts : list (list byte)) (Hn : len ts < 2 ^ 32) (Hb : len (concat ts) < 2 ^ 32).
Abbreviation view := (view_of profile ts).

Lemma offset_view i : i <= len ts -> offset view i = Ok (psum ts i).
Proof.
  intros Hi. unfold offset. rewrite checked_mul_fits by (unfold usize; lia). cbn [ok_or rbind view_of offsets].
  unfold slice_from. rewrite len_table, (proj2 (N.leb_le _ _)) by lia. cbn [ok_or rbind].
  unfold table. rewrite (bind_range_split _ i) by lia.
  assert (Hl : length (range 0 i ≫= (fun i => le_bytes 4 (psum ts i))) = N.to_nat (i * 4)).
  { pose proof (len_table ts i). unfold table, len in *. lia. }
  rewrite <- Hl, drop_app_length, reading_new. rewrite u32_reading; [done|pose proof (psum_le ts i); lia|].
  pose proof (len_table ts (len ts + 1)) as Hs. unfold table in Hs. rewrite (bind_range_split _ i) in Hs by lia.
  unfold small, isize_max. rewrite len_app in Hs. cbn [app]. lia.
Qed.
Lemma term_view i x : Forall (fun t => utf8_valid t = true) ts -> index ts i = Some x -> term view i = Ok x.
Proof.
  intros Hu Hi. assert (Hlt : i < len ts) by (unfold index in Hi; apply lookup_lt_Some in Hi; unfold len; lia).
  unfold term; cbn [count view_of]. rewrite (proj2 (N.leb_gt _ _)) by done. fold view.
  rewrite offset_view by lia. cbn [rbind]. rewrite add_w_fits by lia. cbn [rbind].
  rewrite offset_view by lia. cbn [rbind terms view_of]. rewrite (psum_step _ _ _ Hi), (concat_slice _ _ _ Hi). cbn [ok_or rbind].
  rewrite list.Forall_forall in Hu. rewrite Hu; [done|]. by eapply list_elem_of_lookup_2.
Qed.
End View.

(** ** Parsing *)
Definition last_term (ts : list (list byte)) : list byte := foldl (fun _ t => t) [] ts.
Lemma last_term_snoc ts t : last_term (ts ++ [t]) = t.
Proof. unfold last_term. by rewrite foldl_app. Qed.
Lemma last_term_max ts t : StronglySorted bytes_lt ts -> t ∈ ts -> bytes_lt t (last_term ts) \/ t = last_term ts.
Proof.
  intros Hs Ht. destruct ts as [|u ts _] using rev_ind; [by apply elem_of_nil in Ht|]. rewrite last_term_snoc.
  apply elem_of_app in Ht as [Ht|Ht%list_elem_of_singleton]; [left|by right].
  apply StronglySorted_app in Hs as (Hlt & _ & _). apply Hlt; [done|left].
Qed.
Lemma terms_snoc limits ts t : terms_wf limits ts -> bytes_lt (last_term ts) t ->
  len t <= max_term_bytes limits -> utf8_valid t = true -> terms_wf limits (ts ++ [t]).
Proof.
  intros [Hs He] Hlt Hl Hu. split.
  - apply StronglySorted_app_2; [|done|repeat constructor]. intros x y Hx ->%list_elem_of_singleton.
    destruct (last_term_max ts x Hs Hx) as [H| ->]; [by etrans|done].
  - apply Forall_app. split; [done|]. constructor; [|done]. split_and!; [|done|done].
    intros ->. unfold bytes_lt in Hlt. by destruct (last_term ts).
Qed.
Lemma terms_wf_app limits ts t : terms_wf limits (ts ++ [t]) ->
  terms_wf limits ts /\ bytes_lt (last_term ts) t /\ t <> [] /\ len t <= max_term_bytes limits /\ utf8_valid t = true.
Proof.
  intros [Hs He]. apply StronglySorted_app in Hs as (Hlt & Hs & _). apply Forall_app in He as [He Ht].
  apply list.Forall_cons_1 in Ht as [(Hne & Hl & Hu) _]. split_and!; try done.
  destruct ts as [|u ts _] using rev_ind; [by apply bytes_lt_nil|]. rewrite last_term_snoc.
  apply Hlt; [|left]. apply elem_of_app. right. left.
Qed.
Lemma utf8_all limits ts : terms_wf limits ts -> Forall (fun t => utf8_valid t = true) ts.
Proof. intros [_ He]. eapply list.Forall_impl; [exact He|]. intros t (_ & _ & Hu). exact Hu. Qed.

Lemma offset_total v i : len (offsets v) = 4 * (count v + 1) -> count v < 2 ^ 32 -> i <= count v ->
  exists o, offset v i = Ok o /\ o < 2 ^ 32 /\
    take (N.to_nat (4 * (i + 1))) (offsets v) = take (N.to_nat (4 * i)) (offsets v) ++ le_bytes 4 o.
Proof.
  intros Hl Hc Hi. unfold offset. rewrite checked_mul_fits by (unfold usize; lia). cbn [ok_or rbind].
  unfold slice_from. rewrite (proj2 (N.leb_le _ _)) by lia. cbn [ok_or rbind].
  set (rest := drop (N.to_nat (i * 4)) (offsets v)).
  assert (Hr : rest = take 4 rest ++ drop 4 rest) by by rewrite take_drop.
  assert (H4 : length (take 4 rest) = 4%nat) by (unfold rest; rewrite length_take, length_drop; unfold len in *; lia).
  exists (le_val (take 4 rest)). pose proof (le_val_lt (take 4 rest)) as Hlt. unfold len in Hlt. rewrite H4 in Hlt.
  assert (Hb : le_bytes 4 (le_val (take 4 rest)) = take 4 rest) by (rewrite <- H4 at 1; apply le_bytes_val).
  split_and!; [|done|].
  - rewrite Hr at 1. rewrite <- Hb at 1. rewrite reading_new, u32_reading; [done|done|].
    rewrite Hb. cbn [app]. rewrite <- Hr. unfold small, isize_max, rest. rewrite len_drop. lia.
  - rewrite Hb. unfold rest. replace (N.to_nat (i * 4)) with (N.to_nat (4 * i)) by lia.
    rewrite take_take_drop. f_equal. lia.
Qed.

Lemma term_inv v i t : term v i = Ok t ->
  i < count v /\ utf8_valid t = true /\
  exists o o', offset v i = Ok o /\ offset v (i + 1) = Ok o' /\ slice (terms v) o o' = Some t.
Proof.
  unfold term. intros H. apply if_err_ok in H as [Hi%N.leb_gt H]. apply rbind_ok in H as (o & Ho & H).
  apply rbind_ok in H as (n & [-> _]%add_w_ok & H). apply rbind_ok in H as (o' & Ho' & H).
  apply rbind_ok in H as (x & Hx%ok_or_ok & H). apply if_ok_err in H as [Hu [= ->]]. eauto 10.
Qed.

Lemma index_total {A} (ts : list A) i : i < len ts -> exists x, index ts i = Some x.
Proof. intros. apply lookup_lt_is_Some_2. unfold len in *; lia. Qed.

Section Parsed.
Context (v : t) (ts : list (list byte)).
Context (Hlen : len (offsets v) = 4 * (count v + 1)) (Hcount : count v < 2 ^ 32) (Hts : len ts = count v).
Context (H0 : offset v 0 = Ok 0) (Hterm : forall i x, index ts i = Some x -> term v i = Ok x).

Lemma offsets_psum i : i <= len ts -> offset v i = Ok (psum ts i) /\ take (N.to_nat (psum ts i)) (terms v) = concat (take (N.to_nat i) ts).
Proof.
  induction i as [|i IH] using N.peano_ind; intros Hi; [by split|]. rewrite <- N.add_1_r in *.
  destruct (index_total ts i ltac:(lia)) as [x Hx]. destruct (IH ltac:(lia)) as [Ho Ht].
  pose proof (Hterm i x Hx) as (_ & _ & o & o' & Ho1 & Ho2 & Hsl)%term_inv. rewrite Ho in Ho1. injection Ho1 as <-.
  pose proof (slice_len _ _ _ _ Hsl) as Hlx. apply slice_ok in Hsl as (Hle & Hle2 & Ex).
  rewrite (psum_step _ _ _ Hx). split; [rewrite Ho2; f_equal; lia|].
  replace (N.to_nat (i + 1)) with (S (N.to_nat i)) by lia. unfold index in Hx. rewrite (take_S_r _ _ _ Hx), concat_app, <- Ht.
  simpl. rewrite app_nil_r. rewrite Ex at 2. rewrite take_take_drop. f_equal. lia.
Qed.
Lemma offsets_table : offsets v = table ts (len ts + 1).
Proof.
  assert (H : forall k, k <= len ts + 1 -> take (N.to_nat (4 * k)) (offsets v) = table ts k).
  { intros k. induction k as [|k IH] using N.peano_ind; intros Hk; [done|]. rewrite <- N.add_1_r in *.
    destruct (offset_total v k Hlen Hcount ltac:(lia)) as (o & Ho & _ & ->).
    destruct (offsets_psum k ltac:(lia)) as [Hp _]. rewrite Hp in Ho. injection Ho as <-.
    rewrite IH by lia. unfold table. by rewrite bind_range_snoc. }
  rewrite <- H by done. symmetry. apply take_ge. unfold len in *; lia.
Qed.
Lemma terms_concat : offset v (count v) = Ok (len (terms v)) -> terms v = concat ts.
Proof.
  intros He. destruct (offsets_psum (len ts) ltac:(lia)) as [Hp Ht]. rewrite Hts, He in Hp. injection Hp as Hp.
  rewrite Hts, <- Hp, <- Hts, !to_nat_len, !firstn_all in Ht. done.
Qed.
End Parsed.

(** The checking loop collects the terms. *)
Lemma check_terms limits v k prev : foldM (check_term v limits) [] (range 0 k) = Ok prev ->
  exists ts, len ts = k /\ terms_wf limits ts /\ prev = last_term ts /\ forall i x, index ts i = Some x -> term v i = Ok x.
Proof.
  revert prev. induction k as [|k IH] using N.peano_ind; intros prev H.
  - injection H as <-. exists []. split_and!; [done|by repeat constructor|done|]. intros i x. unfold index. by rewrite lookup_nil.
  - rewrite <- N.add_1_r in *. rewrite range_snoc, foldM_app, rbind_ok in H by lia. destruct H as (p & H1 & H2).
    apply IH in H1 as (ts & Hl & Hw & -> & Ht). cbn [foldM] in H2. apply rbind_ok in H2 as (p2 & H2 & [= <-]).
    unfold check_term in H2. apply rbind_ok in H2 as (t & Hterm & H2).
    apply if_err_ok in H2 as [Hlen H2]. apply if_err_ok in H2 as [Hord [= <-]]. bool_to_prop.
    pose proof Hterm as (_ & Hu & _)%term_inv. exists (ts ++ [t]). rewrite last_term_snoc. split_and!; [len_lia| |done|].
    + apply terms_snoc; [done| |lia|done]. rewrite bytes_leb_ltb, negb_false_iff in Hord. by apply bytes_ltb_lt.
    + intros i x. unfold index. intros [Hi|[Hi Hx]]%lookup_app_Some; [by apply Ht|].
      apply list_lookup_singleton_Some in Hx as [Hx <-]. replace i with k; [done|]. unfold len in Hl. lia.
Qed.
Lemma dict_check_view limits profile ts k : len ts < 2 ^ 32 -> len (concat ts) < 2 ^ 32 -> terms_wf limits ts -> k <= len ts ->
  foldM (check_term (view_of profile ts) limits) [] (range 0 k) = Ok (last_term (take (N.to_nat k) ts)).
Proof.
  intros Hn Hb Hw. induction k as [|k IH] using N.peano_ind; intros Hk; [done|]. rewrite <- N.add_1_r in *.
  rewrite range_snoc, foldM_app, IH by lia. cbn [rbind foldM].
  destruct (index_total ts k ltac:(lia)) as [x Hx].
  pose proof Hx as Hx'. unfold index in Hx'. replace (N.to_nat (k + 1)) with (S (N.to_nat k)) by lia.
  rewrite (take_S_r _ _ _ Hx'), last_term_snoc.
  assert (Hw' : terms_wf limits (take (N.to_nat k) ts ++ [x])).
  { rewrite <- (take_S_r _ _ _ Hx'). destruct Hw as [Hs He]. split; [|by apply Forall_take].
    rewrite <- (take_drop (S (N.to_nat k)) ts) in Hs. by apply StronglySorted_app_1_l in Hs. }
  apply terms_wf_app in Hw' as (_ & Hlt & Hne & Hl & Hu).
  unfold check_term. rewrite (term_view profile ts Hn Hb k x (utf8_all _ _ Hw) Hx). cbn [rbind].
  rewrite (proj2 (N.eqb_neq _ _)), (proj2 (N.ltb_ge _ _)); [|done|by intros ?%len_zero]. cbn [orb].
  rewrite bytes_leb_ltb. by rewrite (proj2 (bytes_ltb_lt _ _) Hlt).
Qed.

Lemma dict_parse_iff bs limits v : small bs ->
  parse bs limits = Ok v <->
  exists profile ts, 1 <= profile < 2 ^ 32 /\ terms_wf limits ts /\ len ts <= max_terms limits /\ len ts < 2 ^ 32 /\
    len (body profile ts) < 2 ^ 32 /\ len bs <= max_bytes limits /\ bs = frame 3 (body profile ts) /\ v = view_of profile ts.
Proof.
  intros Hs. unfold parse. rewrite rbind_ok. split.
  - intros (p & Hp & H). apply payload_iff in Hp as (Hm & Hl & ->); [|done|done].
    assert (Hsp : small p) by (unfold small, isize_max; lia). rewrite reading_new in H.
    next_field H u32_format as pr t1 Hpr. apply if_err_ok in H as [Hpr0%N.eqb_neq H].
    next_field H u32_format as c t2 Hc. apply if_err_ok in H as [Hcm%N.ltb_ge H].
    apply rbind_ok in H as (n & [-> _]%ok_or_ok%checked_add_some & H).
    apply rbind_ok in H as (ob & [-> _]%ok_or_ok%checked_mul_some & H).
    next_field H (take_format _) as offs t3 Hoffs. next_field H (take_format _) as tms t4 Htms.
    rewrite remaining_reading in Htms. unfold Datatypes.id in *. assert (t4 = []) as -> by (apply len_zero; len_lia).
    rewrite app_nil_r in *. set (v0 := mk pr offs tms c) in *.
    apply rbind_ok in H as (f & Hf & H). apply rbind_ok in H as (l & Hlst & H). apply if_err_ok in H as [Hfl H].
    apply orb_false_iff in Hfl as [->%negb_false_iff%N.eqb_eq ->%negb_false_iff%N.eqb_eq]. cbn in Hlst.
    apply rbind_ok in H as (prev & Hck & [= <-]). apply check_terms in Hck as (ts & Hlts & Hw & _ & Ht).
    assert (Ho : offs = table ts (len ts + 1)) by (apply (offsets_table v0 ts); cbn [count offsets v0]; done || lia).
    assert (Htm : tms = concat ts) by (apply (terms_concat v0 ts); cbn [count offsets v0]; done || lia).
    exists pr, ts. unfold v0. rewrite Ho, Htm in *. unfold body in *. rewrite Hlts in *.
    split_and!; try done; try lia. unfold view_of. by rewrite Hlts.
  - intros (pr & ts & [Hp1 Hp2] & Hw & Hmt & Hc & Hb & Hm & -> & ->). exists (body pr ts).
    split; [by apply payload_iff|]. assert (Hsb : small (body pr ts)) by (unfold small, isize_max; lia).
    pose proof (len_table ts (len ts + 1)) as Hlt.
    assert (Hcc : len (concat ts) < 2 ^ 32) by (unfold body in Hb; rewrite !len_app in Hb; lia).
    rewrite reading_new. unfold body in *.
    give_field u32_format pr; [done|]. rewrite (proj2 (N.eqb_neq _ _)) by lia.
    give_field u32_format (len ts); [done|]. rewrite (proj2 (N.ltb_ge _ _)) by done.
    rewrite checked_add_fits by (unfold usize; lia). cbn [ok_or rbind].
    rewrite checked_mul_fits by (unfold usize; lia). cbn [ok_or rbind].
    give_field (take_format _) (table ts (len ts + 1)); [lia|].
    give_field (take_format _) (concat ts) before (@nil byte); [by rewrite remaining_reading|by rewrite app_nil_r|].
    unfold Datatypes.id. cbv zeta. change (mk pr (table ts (len ts + 1)) (concat ts) (len ts)) with (view_of pr ts). rewrite !(offset_view pr ts Hc Hcc) by lia. cbn [rbind].
    rewrite psum_0. cbn [N.eqb negb orb rbind].
    rewrite psum_all, N.eqb_refl. cbn [negb]. by rewrite (dict_check_view limits) by done.
Qed.

(** ** Searching *)
Section Search.
Context (limits : DictionaryLimits) (profile : N) (ts : list (list byte)).
Context (Hw : terms_wf limits ts) (Hn : len ts < 2 ^ 32) (Hb : len (concat ts) < 2 ^ 32).
Abbreviation view := (view_of profile ts).

Definition term_at (i : N) : list byte := default [] (index ts i).
Lemma term_at_view i : i < len ts -> term view i = Ok (term_at i).
Proof.
  intros Hi. destruct (index_total ts i Hi) as [x Hx]. unfold term_at. rewrite Hx.
  apply term_view; [done|done|by apply (utf8_all limits)|done].
Qed.
Lemma term_at_lt i j : i < j -> j < len ts -> bytes_lt (term_at i) (term_at j).
Proof.
  intros Hij Hj. destruct (index_total ts i ltac:(lia)) as [x Hx]. destruct (index_total ts j Hj) as [y Hy].
  unfold term_at. rewrite Hx, Hy. unfold index in *. destruct Hw as [Hs _].
  rewrite <- (take_drop (N.to_nat j) ts) in Hs. eapply StronglySorted_app_1_elem_of; [done| |].
  - apply list_elem_of_lookup. exists (N.to_nat i). rewrite lookup_take_lt by lia. done.
  - apply list_elem_of_lookup. exists 0%nat. rewrite lookup_drop. by rewrite Nat.add_0_r.
Qed.
Lemma lower_bound_view key : exists k, lower_bound view key = Ok k /\ k <= len ts /\
  (forall i, i < k -> bytes_lt (term_at i) key) /\ (forall i, k <= i < len ts -> bytes_ltb (term_at i) key = false).
Proof.
  destruct (lower_bound_spec (E := Codec.Error)
    (fun middle => let* term := term view middle in Ok (bytes_ltb term key))
    (fun i => bytes_ltb (term_at i) key) 0 (len ts)) as (k & Hk & Hle & H1 & H2); [lia| | |].
  - intros i Hi. by rewrite term_at_view by lia.
  - intros i j _ Hij Hj Hlt. destruct (decide (i = j)) as [->|]; [done|]. apply bytes_ltb_lt.
    apply bytes_ltb_lt in Hlt. etrans; [apply term_at_lt|done]; lia.
  - exists k. split_and!; [exact Hk|lia| |].
    + intros i Hi. apply bytes_ltb_lt, H1. lia.
    + intros i Hi. apply H2. lia.
Qed.
Lemma lookup_view key : exists r, lookup view key = Ok r /\ forall i, r = Some i <-> index ts i = Some key.
Proof.
  destruct (lower_bound_view key) as (k & Hk & Hle & H1 & H2). unfold lookup. rewrite Hk. cbn [rbind count view_of].
  assert (Hat : forall i, index ts i = Some key -> i < len ts /\ term_at i = key).
  { intros i Hi. split; [unfold index in Hi; apply lookup_lt_Some in Hi; unfold len; lia|]. unfold term_at. by rewrite Hi. }
  assert (Hnot : forall i, index ts i = Some key -> k <= i).
  { intros i Hi. destruct (Hat i Hi) as [Hlt Hkey]. destruct (decide (k <= i)); [done|].
    specialize (H1 i ltac:(lia)). rewrite Hkey in H1. by apply bytes_lt_irrefl in H1. }
  destruct (N.ltb_spec k (len ts)) as [Hlt|Hge].
  - rewrite term_at_view by done. cbn [rbind]. destruct (bytes_eqb (term_at k) key) eqn:E.
    + apply bytes_eqb_eq in E. exists (Some k). split; [done|]. intros i. split.
      * intros [= <-]. destruct (index_total ts k Hlt) as [x Hx]. unfold term_at in E. rewrite Hx in E. simpl in E. by subst.
      * intros Hi. destruct (Hat i Hi) as [Hi' Hkey]. specialize (Hnot i Hi). destruct (decide (i = k)) as [->|]; [done|].
        pose proof (term_at_lt k i ltac:(lia) Hi') as Hbad. rewrite E, Hkey in Hbad. by apply bytes_lt_irrefl in Hbad.
    + exists None. split; [done|]. intros i. split; [done|]. intros Hi. exfalso.
      destruct (Hat i Hi) as [Hi' Hkey]. specialize (Hnot i Hi). destruct (decide (i = k)) as [->|].
      * apply (proj2 (bytes_eqb_eq _ _)) in Hkey. congruence.
      * pose proof (term_at_lt k i ltac:(lia) Hi') as Hbad. specialize (H2 k ltac:(lia)). apply bytes_ltb_ge in H2.
        rewrite Hkey in Hbad. destruct H2 as [H2|H2]; [|rewrite H2 in Hbad; by apply bytes_lt_irrefl in Hbad].
        eapply bytes_lt_irrefl. by etrans.
  - exists None. split; [done|]. intros i. split; [done|]. intros Hi. destruct (Hat i Hi). specialize (Hnot i Hi). lia.
Qed.
Lemma prefix_view key max : exists b l, b <= l <= len ts /\
  prefix view key max = (if max <? l - b then Err (Codec.new 0 LimitExceeded) else Ok (b, l)) /\
  forall i, i < len ts -> starts_with key (term_at i) = true <-> b <= i < l.
Proof.
  destruct (lower_bound_view key) as (b & Hb' & Hle & H1 & H2). unfold prefix. rewrite Hb'. cbn [rbind count view_of].
  destruct (lower_bound_spec (E := Codec.Error)
    (fun middle => let* term := term view middle in Ok (starts_with key term))
    (fun i => starts_with key (term_at i)) b (len ts)) as (l & Hl & Hlb & H3 & H4); [done| | |].
  - intros i Hi. by rewrite term_at_view by lia.
  - intros i j Hbi Hij Hj Hst. destruct (decide (i = j)) as [->|]; [done|].
    eapply prefix_convex; [apply H2; lia|apply (term_at_lt i j); lia|done].
  - exists b, l. split; [lia|]. rewrite Hl. cbn [rbind]. rewrite sub_w_fits by lia. cbn [rbind]. split; [done|].
    intros i Hi. split.
    + intros Hst. split.
      * destruct (decide (b <= i)); [done|]. specialize (H1 i ltac:(lia)). apply starts_with_ge in Hst.
        apply bytes_ltb_lt in H1. congruence.
      * destruct (decide (i < l)); [done|]. rewrite H4 in Hst; [done|]. destruct (decide (b <= i)); lia.
    + intros ?. apply H3. lia.
Qed.
End Search.

(** ** Encoding *)
Lemma measure_view limits ts : terms_wf limits ts -> len (concat ts) < 2 ^ 32 ->
  foldM (measure_term limits) (0, []) ts = Ok (len (concat ts), last_term ts).
Proof.
  induction ts as [|t ts IH] using rev_ind; intros Hw Hb; [done|].
  apply terms_wf_app in Hw as (Hw & Hlt & Hne & Hl & Hu). rewrite concat_app, len_app in *. cbn [concat] in *.
  rewrite app_nil_r in *. rewrite foldM_app, IH by (done || lia). cbn [rbind foldM]. unfold measure_term.
  rewrite (proj2 (N.eqb_neq _ _)), (proj2 (N.ltb_ge _ _)); [|done|by intros ?%len_zero]. cbn [orb].
  rewrite bytes_leb_ltb, (proj2 (bytes_ltb_lt _ _) Hlt). cbn [negb].
  rewrite checked_add_fits by (unfold usize; lia). cbn [ok_or rbind]. by rewrite last_term_snoc.
Qed.
Lemma offsets_writing ts out pre k : k <= len ts -> len (concat ts) < 2 ^ 32 -> small out -> len pre + 4 * k <= len out ->
  foldM (fun '(writer, offset) term =>
    let* offset := add_w 32 offset (trunc 32 (len term)) in
    let* writer := Writer.put writer (le_bytes 4 offset) in
    Ok (writer, offset)) (writing out pre, 0) (take (N.to_nat k) ts) =
  Ok (writing out (pre ++ (range 1 (k + 1) ≫= (fun i => le_bytes 4 (psum ts i)))), psum ts k).
Proof.
  intros Hk Hb Hs. induction k as [|k IH] using N.peano_ind; intros Hl.
  - rewrite range_nil by lia. cbn. by rewrite app_nil_r.
  - rewrite <- N.add_1_r in *. destruct (index_total ts k ltac:(lia)) as [x Hx]. pose proof Hx as Hx'. unfold index in Hx'.
    replace (N.to_nat (k + 1)) with (S (N.to_nat k)) by lia. rewrite (take_S_r _ _ _ Hx'), foldM_app, IH by lia.
    cbn [rbind foldM]. pose proof (psum_step _ _ _ Hx) as Hp. pose proof (psum_le ts (k + 1)).
    rewrite trunc_small, add_w_fits by lia. cbn [rbind]. rewrite <- Hp.
    assert (Hlr : len (range 1 (k + 1) ≫= (fun i => le_bytes 4 (psum ts i))) = 4 * k).
    { rewrite (len_bind_const _ 4) by (intros; by rewrite len_le_bytes). rewrite len_range. lia. }
    wrote. rewrite (range_snoc 1 (k + 1)), bind_app by lia. do 2 f_equal. simpl. by rewrite <- !app_assoc.
Qed.
Lemma dict_encode_view limits profile ts out : 1 <= profile < 2 ^ 32 -> terms_wf limits ts -> len ts <= max_terms limits ->
  len ts < 2 ^ 32 -> len (body profile ts) < 2 ^ 32 -> len (frame 3 (body profile ts)) <= max_bytes limits ->
  small out -> len (frame 3 (body profile ts)) <= len out ->
  encode profile ts out limits = Ok (len (frame 3 (body profile ts)),
    frame 3 (body profile ts) ++ drop (length (frame 3 (body profile ts))) out).
Proof.
  intros Hp Hw Hmt Hn Hb Hm Hs Hl. rewrite len_frame in Hm, Hl.
  assert (Hlb : len (body profile ts) = 4 * (len ts + 1) + 8 + len (concat ts)).
  { unfold body. rewrite !len_app, !len_le_bytes, len_table. lia. }
  unfold encode. rewrite (proj2 (N.eqb_neq _ _)), (proj2 (N.leb_gt _ _)), (proj2 (N.ltb_ge _ _)) by lia.
  rewrite measure_view by (done || lia). cbn [rbind]. rewrite (proj2 (N.leb_gt _ _)) by lia.
  rewrite checked_add_fits by (unfold usize; lia). cbn [ok_or rbind].
  rewrite checked_mul_fits by (unfold usize; lia). cbn [ok_or rbind].
  rewrite checked_add_fits by (unfold usize; lia). cbn [ok_or rbind].
  rewrite checked_add_fits by (unfold usize; lia). cbn [ok_or rbind]. unfold HEADER_BYTES.
  rewrite checked_add_fits by (unfold usize; lia). cbn [ok_or rbind]. rewrite (proj2 (N.ltb_ge _ _)) by lia.
  replace ((len ts + 1) * 4 + 8 + len (concat ts)) with (len (body profile ts)) by lia.
  pose proof (len_frame_header 3 (len (body profile ts))). rewrite start_writing by (done || lia). cbn [rbind].
  unfold Writer.u32. wrote.
  assert (Htk : take (N.to_nat (len ts)) ts = ts) by (apply take_ge; unfold len; lia).
  pose proof (fun pre => offsets_writing ts out pre (len ts)) as Ho. rewrite Htk in Ho.
  rewrite Ho by (done || lia || len_lia). cbn [rbind].
  assert (Hlr : len (range 1 (len ts + 1) ≫= (fun i => le_bytes 4 (psum ts i))) = 4 * len ts).
  { rewrite (len_bind_const _ 4) by (intros; by rewrite len_le_bytes). rewrite len_range. lia. }
  assert (Hcat : ts ≫= Datatypes.id = concat ts) by (clear; induction ts as [|t ts IH]; [done|]; rewrite bind_cons, IH; done).
  rewrite (foldM_put _ Datatypes.id) by (done || (rewrite Hcat; len_lia)). cbn [rbind].
  rewrite written_out, Hcat. unfold frame, body, table. rewrite (range_cons 0) by lia. rewrite bind_cons.
  change (psum ts 0) with 0. by rewrite <- !app_assoc.
Qed.

(** What both sides agree on: the terms and the sizes that may be in a dictionary. *)
Record admitted (limits : DictionaryLimits) (profile : N) (ts : list (list byte)) : Prop := {
  ad_profile : 1 <= profile < 2 ^ 32;
  ad_terms : terms_wf limits ts;
  ad_count : len ts <= max_terms limits;
  ad_count32 : len ts < 2 ^ 32;
  ad_body : len (body profile ts) < 2 ^ 32;
  ad_bytes : len (frame 3 (body profile ts)) <= max_bytes limits }.
Lemma measured_terms limits ts n last : Forall (fun t => utf8_valid t = true) ts -> foldM (measure_term limits) (0, []) ts = Ok (n, last) ->
  terms_wf limits ts /\ n = len (concat ts) /\ last = last_term ts.
Proof.
  revert n last. induction ts as [|t ts IH] using rev_ind; intros n last Hu H.
  - apply Ok_inj in H. injection H as <- <-. by repeat constructor.
  - apply Forall_app in Hu as [Hu Ht]. apply list.Forall_cons_1 in Ht as [Ht _]. rewrite foldM_app in H. apply rbind_ok in H as ([m prev] & Hm & H).
    destruct (IH _ _ Hu Hm) as (Hw & -> & ->). cbn [foldM] in H. unfold measure_term in H.
    destruct (N.eqb_spec (len t) 0) as [|Hne]; cbn [orb] in H; [done|]. destruct (N.ltb_spec (max_term_bytes limits) (len t)) as [|Hl]; [done|].
    rewrite bytes_leb_ltb in H. destruct (bytes_ltb (last_term ts) t) eqn:Hlt; cbn [negb] in H; [|done].
    destruct (checked_add usize _ _) as [k|] eqn:Hk; cbn [ok_or rbind] in H; [|done]. apply checked_add_some in Hk as [-> _].
    apply Ok_inj in H. injection H as <- <-. split; [apply terms_snoc; [exact Hw|by apply bytes_ltb_lt|exact Hl|exact Ht]|]. split; [|by rewrite last_term_snoc].
    rewrite concat_app, len_app. cbn [concat]. by rewrite app_nil_r.
Qed.
Lemma start_inv out kind n w : start out kind n = Ok w -> n < 2 ^ 32 /\ n + 16 <= len out.
Proof.
  unfold start. destruct (checked_add usize n HEADER_BYTES) as [total|] eqn:Et; cbn [ok_or rbind]; [|discriminate]. apply checked_add_some in Et as [-> _].
  destruct (N.leb_spec (2 ^ 32) n); [discriminate|]. destruct (N.ltb_spec (len out) (n + HEADER_BYTES)); [discriminate|]. intros _. by split.
Qed.
Lemma encode_inv limits profile ts out r : profile < 2 ^ 32 -> Forall (fun t => utf8_valid t = true) ts ->
  encode profile ts out limits = Ok r -> admitted limits profile ts /\ len (frame 3 (body profile ts)) <= len out.
Proof.
  intros Hp Hu H. unfold encode in H. destruct (N.eqb_spec profile 0) as [|Hp0]; [done|]. destruct (N.leb_spec (2 ^ 32) (len ts)) as [|Hc]; [done|].
  destruct (N.ltb_spec (max_terms limits) (len ts)) as [|Hm]; [done|]. apply rbind_ok in H as ([n last] & Hms & H).
  apply measured_terms in Hms as (Hw & -> & _); [|done]. destruct (N.leb_spec (2 ^ 32) (len (concat ts))) as [|Hb]; [done|].
  rewrite checked_add_fits in H by (unfold usize; lia). cbn [ok_or rbind] in H. rewrite checked_mul_fits in H by (unfold usize; lia). cbn [ok_or rbind] in H.
  do 2 (rewrite checked_add_fits in H by (unfold usize; lia); cbn [ok_or rbind] in H).
  rewrite checked_add_fits in H by (unfold usize, HEADER_BYTES; lia).
  assert (Hlb : len (body profile ts) = (len ts + 1) * 4 + 8 + len (concat ts)) by (unfold body; rewrite !len_app, !len_le_bytes, len_table; lia).
  rewrite <- Hlb in H. destruct (N.ltb_spec (max_bytes limits) (len (body profile ts) + HEADER_BYTES)) as [|Hmb]; [done|].
  apply rbind_ok in H as (w & Hst & _). apply start_inv in Hst as [Hb32 Ho].
  unfold HEADER_BYTES in *. rewrite len_frame. split; [|lia]. split; [lia|exact Hw|exact Hm|exact Hc|exact Hb32|]. rewrite len_frame. lia.
Qed.

(** * Properties *)

(** C40: a dictionary is accepted if and only if the bytes are the frame of a nonzero
    profile and a strictly sorted list of nonempty, valid UTF-8 terms within the limits;
    and, of any list of texts, [encode] succeeds exactly when that list is within the
    same limits and the buffer holds its frame, and then it writes the frame over the
    front of the buffer and leaves the rest. *)
Theorem dictionary_exact bs limits v : small bs ->
  (parse bs limits = Ok v <-> exists profile ts, admitted limits profile ts /\ bs = frame 3 (body profile ts) /\ v = view_of profile ts) /\
  (forall profile ts output r, profile < 2 ^ 32 -> Forall (fun t => utf8_valid t = true) ts -> small output ->
     encode profile ts output limits = Ok r <->
     admitted limits profile ts /\ len (frame 3 (body profile ts)) <= len output /\
     r = (len (frame 3 (body profile ts)), frame 3 (body profile ts) ++ drop (length (frame 3 (body profile ts))) output)).
Proof.
  intros Hs. split.
  - rewrite dict_parse_iff by done. split.
    + intros (pr & ts & Hp & Hw & Hmt & Hc & Hb & Hm & -> & ->). exists pr, ts. by repeat split; try apply Hp; try apply Hw.
    + intros (pr & ts & [Hp Hw Hmt Hc Hb Hm] & -> & ->). exists pr, ts. by split_and!; try apply Hp.
  - intros profile ts output r Hp Hu Ho. split.
    + intros E. destruct (encode_inv _ _ _ _ _ Hp Hu E) as [Ha Hl]. split; [done|]. split; [done|]. destruct Ha.
      rewrite dict_encode_view in E by done. by apply Ok_inj in E.
    + intros ([? ? ? ? ? ?] & Hl & ->). by apply dict_encode_view.
Qed.
Lemma dictionary_exact_witness :
  (exists v, parse (frame 3 (body 7 [[x61]; [x61; x62]; [x62]])) (mkDictionaryLimits 100 10 8) = Ok v /\
    exists profile ts, v = view_of profile ts /\ terms_wf (mkDictionaryLimits 100 10 8) ts) /\
  admitted (mkDictionaryLimits 100 10 8) 7 [[x61]; [x61; x62]; [x62]].
Proof.
  assert (Hs : small (frame 3 (body 7 [[x61]; [x61; x62]; [x62]]))) by (vm_compute; discriminate).
  destruct (dictionary_exact _ (mkDictionaryLimits 100 10 8) (view_of 7 [[x61]; [x61; x62]; [x62]]) Hs) as [Hp He]. split.
  - exists (view_of 7 [[x61]; [x61; x62]; [x62]]).
    assert (H : parse (frame 3 (body 7 [[x61]; [x61; x62]; [x62]])) (mkDictionaryLimits 100 10 8) =
      Ok (view_of 7 [[x61]; [x61; x62]; [x62]])) by (vm_compute; reflexivity). split; [exact H|].
    destruct (proj1 Hp H) as (p & ts & [_ Hw _ _ _ _] & _ & Hv). exists p, ts. split; [exact Hv|exact Hw].
  - assert (Hr : exists r, encode 7 [[x61]; [x61; x62]; [x62]] (replicate 60 x00) (mkDictionaryLimits 100 10 8) = Ok r) by (eexists; vm_compute; reflexivity).
    destruct Hr as [r Hr]. apply (He 7 [[x61]; [x61; x62]; [x62]] (replicate 60 x00) r) in Hr; [exact (proj1 Hr)|reflexivity| |vm_compute; discriminate].
    repeat constructor.
Defined.

(** on an accepted dictionary the searches over the encoded bytes mean what they
    mean on the list of terms: [term] returns the term of an id and fails beyond the
    count, [lookup] finds exactly the id of a term, and [prefix] returns the complete
    interval of the terms that start with the prefix, or [LimitExceeded] when the
    interval is longer than the caller allows. *)
Theorem dictionary_search bs limits v : small bs -> parse bs limits = Ok v ->
  exists ts, terms_wf limits ts /\ count v = len ts /\
    (forall i, term v i = match index ts i with Some t => Ok t | None => Err (Codec.new 8 InvalidValue) end) /\
    (forall key, exists r, lookup v key = Ok r /\ forall i, r = Some i <-> index ts i = Some key) /\
    (forall key max, exists b l, b <= l <= len ts /\
       prefix v key max = (if max <? l - b then Err (Codec.new 0 LimitExceeded) else Ok (b, l)) /\
       forall i t, index ts i = Some t -> starts_with key t = true <-> b <= i < l).
Proof.
  intros Hs H. apply dict_parse_iff in H as (pr & ts & Hp & Hw & Hmt & Hc & Hb & Hm & -> & ->); [|done].
  assert (Hcc : len (concat ts) < 2 ^ 32) by (unfold body in Hb; rewrite !len_app in Hb; lia).
  exists ts. split_and!; [done|done| | |].
  - intros i. destruct (index ts i) as [t|] eqn:E.
    + apply term_view; [done|done|by apply (utf8_all limits)|done].
    + unfold term. cbn [count view_of]. unfold index in E. apply lookup_ge_None_1 in E.
      by rewrite (proj2 (N.leb_le _ _)) by (unfold len; lia).
  - intros key. by apply (lookup_view limits).
  - intros key max. destruct (prefix_view limits pr ts Hw Hc Hcc key max) as (b & l & Hbl & Hpre & Hall).
    exists b, l. split; [done|]. split; [done|]. intros i t Hi.
    assert (Hlt : i < len ts) by (unfold index in Hi; apply lookup_lt_Some in Hi; unfold len; lia).
    rewrite <- (Hall i Hlt). unfold term_at. by rewrite Hi.
Qed.
Lemma dictionary_search_witness :
  lookup (view_of 7 [[x61]; [x61; x62]; [x62]]) [x61; x62] = Ok (Some 1) /\
  exists ts, terms_wf (mkDictionaryLimits 100 10 8) ts /\ 3 = len ts.
Proof.
  split; [vm_compute; reflexivity|].
  destruct (dictionary_search (frame 3 (body 7 [[x61]; [x61; x62]; [x62]])) (mkDictionaryLimits 100 10 8)
    (view_of 7 [[x61]; [x61; x62]; [x62]]) ltac:(vm_compute; discriminate) ltac:(vm_compute; reflexivity))
    as (ts & Hw & Hc & _). exists ts. split; [exact Hw|exact Hc].
Defined.
End Dictionary.
