(* ===== verification/Text.v ===== *)
(** Text: what the code takes from [str], [char] and the Unicode crates.

    A [str] is its bytes ([utf8_valid] holds of every value of the type), a [char]
    its scalar value.  The class [Unicode] is the interface to the third-party
    tables and algorithms (crates unicode-normalization, unicode-case-mapping and
    unicode-segmentation): the engine's definitions take an instance, and the few
    documented facts about ASCII a theorem relies on are the class [UnicodeAscii]. *)
From S2P Require Export Prelude.

(** ** Characters *)

(** [char::encode_utf8] *)
Definition encode_utf8 (c : N) : list byte :=
  if c <? 0x80 then [byte_of c]
  else if c <? 0x800 then [byte_of (0xc0 + c / 64); byte_of (0x80 + c mod 64)]
  else if c <? 0x10000 then
    [byte_of (0xe0 + c / 4096); byte_of (0x80 + (c / 64) mod 64); byte_of (0x80 + c mod 64)]
  else
    [byte_of (0xf0 + c / 262144); byte_of (0x80 + (c / 4096) mod 64);
     byte_of (0x80 + (c / 64) mod 64); byte_of (0x80 + c mod 64)].
(** A Unicode scalar value. *)
Definition scalar (c : N) : Prop := c < 0xd800 \/ 0xe000 <= c < 0x110000.
(** [char::from_u32] *)
Definition char_from_u32 (c : N) : option N :=
  if (c <? 0xd800) || ((0xe000 <=? c) && (c <? 0x110000)) then Some c else None.

(** [str::chars] *)
Fixpoint chars (l : list byte) : list N :=
  match l with
  | [] => []
  | b0 :: l0 =>
      if byte_val b0 <? 0x80 then byte_val b0 :: chars l0 else
      match l0 with
      | [] => []
      | b1 :: l1 =>
          if byte_val b0 <? 0xe0
          then (byte_val b0 mod 32) * 64 + byte_val b1 mod 64 :: chars l1 else
          match l1 with
          | [] => []
          | b2 :: l2 =>
              if byte_val b0 <? 0xf0
              then (byte_val b0 mod 16) * 4096 + (byte_val b1 mod 64) * 64 + byte_val b2 mod 64 :: chars l2 else
              match l2 with
              | [] => []
              | b3 :: l3 =>
                  (byte_val b0 mod 8) * 262144 + (byte_val b1 mod 64) * 4096
                    + (byte_val b2 mod 64) * 64 + byte_val b3 mod 64 :: chars l3
              end
          end
      end
  end.

(** [char::len_utf8] of the character that starts with this byte. *)
Definition utf8_width (b : byte) : N :=
  if byte_val b <? 0x80 then 1 else if byte_val b <? 0xe0 then 2
  else if byte_val b <? 0xf0 then 3 else 4.
(** [str::is_char_boundary] *)
Definition is_boundary (l : list byte) (i : N) : bool :=
  match index l i with
  | Some b => (byte_val b <? 0x80) || (0xc0 <=? byte_val b)
  | None => i =? len l
  end.
(** [&s[a..b]] on a [str] panics off a boundary. *)
Definition str_slice (l : list byte) (a b : N) : option (list byte) :=
  if is_boundary l a && is_boundary l b then slice l a b else None.

(** ** ASCII *)
Definition is_ascii_byte (b : byte) : bool := byte_val b <? 0x80.
Definition is_ascii (l : list byte) : bool := forallb is_ascii_byte l.
Definition to_ascii_lowercase (b : byte) : byte :=
  if (0x41 <=? byte_val b) && (byte_val b <=? 0x5a) then byte_of (byte_val b + 32) else b.
Definition ascii_lower (l : list byte) : list byte := to_ascii_lowercase <$> l.
Definition eq_ignore_ascii_case (a b : list byte) : bool := bool_decide (ascii_lower a = ascii_lower b).
(** [u8::is_ascii_whitespace] *)
Definition is_ascii_whitespace (b : byte) : bool :=
  let v := byte_val b in (v =? 0x20) || (v =? 0x09) || (v =? 0x0a) || (v =? 0x0c) || (v =? 0x0d).

(** ** The Unicode crates *)
Class Unicode : Type := {
  (** [canonical_combining_class], [compose], [decompose_canonical] *)
  combining_class : N -> N;
  compose_pair : N -> N -> option N;
  decompose_canonical : N -> list N;
  (** [unicode_case_mapping::case_folded] *)
  case_folded : N -> option N;
  (** [UnicodeSegmentation::unicode_word_indices]: byte offset and word *)
  word_indices : list byte -> list (N * list byte);
  (** whether all three crates report Unicode 16.0.0 *)
  unicode_16 : bool;
}.
(** [UnicodeSegmentation::unicode_words] *)
Definition unicode_words `{Unicode} (text : list byte) : list (list byte) := snd <$> word_indices text.

(** What the standard fixes for ASCII characters: they are starters that decompose
    to themselves and never compose with each other, fold to lower case, and word
    boundaries ignore case. *)
Class UnicodeAscii `{Unicode} : Prop := {
  ascii_class : forall c, c < 128 -> combining_class c = 0;
  ascii_compose : forall a b, a < 128 -> b < 128 -> compose_pair a b = None;
  ascii_decompose : forall c, c < 128 -> decompose_canonical c = [c];
  ascii_fold : forall c, c < 128 ->
    default c (case_folded c) = if (0x41 <=? c) && (c <=? 0x5a) then c + 32 else c;
  ascii_words : forall l, is_ascii l = true ->
    word_indices (ascii_lower l) = (fun '(i, w) => (i, ascii_lower w)) <$> word_indices l;
}.
(** Words are slices of the text at their offset. *)
Class UnicodeWords `{Unicode} : Prop := {
  words_slice : forall l i w, utf8_valid l = true -> (i, w) ∈ word_indices l ->
    str_slice l i (i + len w) = Some w;
}.
(** What the character tables guarantee beyond ASCII: they map characters to
    characters, and a starter composes to a starter. *)
Class UnicodeTables `{Unicode} : Prop := {
  decompose_scalar : forall c, scalar c -> Forall scalar (decompose_canonical c);
  compose_scalar : forall a b c, compose_pair a b = Some c -> scalar c;
  compose_starter : forall a b c,
    combining_class a = 0 -> compose_pair a b = Some c -> combining_class c = 0;
}.

(** * Lemmas *)

Lemma char_from_u32_some c c' : char_from_u32 c = Some c' <-> c' = c /\ scalar c.
Proof.
  unfold char_from_u32, scalar.
  destruct (N.ltb_spec c 0xd800), (N.leb_spec 0xe000 c), (N.ltb_spec c 0x110000); simpl; naive_solver lia.
Qed.

Lemma in_range_of lo hi n : n < 256 -> in_range lo hi (byte_of n) = (lo <=? n) && (n <=? hi).
Proof. intros. unfold in_range. by rewrite byte_val_of_small. Qed.
Ltac range_tac :=
  repeat match goal with
  | |- context [in_range ?a ?b (byte_of ?n)] => rewrite (in_range_of a b n) by lia
  end;
  repeat match goal with
  | |- context [?a <=? ?b] =>
      first [rewrite (proj2 (N.leb_le a b)) by lia | rewrite (proj2 (N.leb_gt a b)) by lia]
  end.

(** Base-64 digits, as [encode_utf8] splits a character. *)
Lemma digits64 c : exists q1 q2 q3 r0 r1 r2,
  c / 64 = q1 /\ c / 4096 = q2 /\ c / 262144 = q3 /\
  c mod 64 = r0 /\ (c / 64) mod 64 = r1 /\ (c / 4096) mod 64 = r2 /\
  c = q1 * 64 + r0 /\ q1 = q2 * 64 + r1 /\ q2 = q3 * 64 + r2 /\ r0 < 64 /\ r1 < 64 /\ r2 < 64.
Proof.
  assert (E1 : c / 4096 = c / 64 / 64) by by rewrite N.Div0.div_div.
  assert (E2 : c / 262144 = c / 4096 / 64) by by rewrite N.Div0.div_div.
  do 6 eexists. do 6 (split; [reflexivity|]).
  rewrite E2, E1. pose proof (N.div_mod' c 64). pose proof (N.div_mod' (c / 64) 64).
  pose proof (N.div_mod' (c / 64 / 64) 64).
  split_and!; try lia; by apply N.mod_lt.
Qed.
Ltac split_digits c :=
  destruct (digits64 c) as (q1 & q2 & q3 & r0 & r1 & r2 & -> & -> & -> & -> & -> & -> & ? & ? & ? & ? & ? & ?).

Lemma encode_utf8_valid c l : scalar c -> utf8_valid (encode_utf8 c ++ l) = utf8_valid l.
Proof.
  unfold scalar, encode_utf8. intros Hc. split_digits c.
  destruct (N.ltb_spec c 0x80); [|destruct (N.ltb_spec c 0x800)];
    [| |destruct (N.ltb_spec c 0x10000)]; cbn [app utf8_valid].
  - by range_tac.
  - range_tac. done.
  - assert (q2 < 16 /\ (q2 = 0 -> 32 <= r1) /\ (q2 = 13 -> r1 < 32)) as (? & ? & ?) by lia.
    clear dependent c.
    destruct (decide (q2 = 0)), (decide (q2 = 13)), (decide (q2 < 13)); try lia; range_tac; done.
  - assert (q3 < 5 /\ (q3 = 0 -> 16 <= r2) /\ (q3 = 4 -> r2 < 16)) as (? & ? & ?) by lia.
    clear dependent c.
    destruct (decide (q3 = 0)), (decide (q3 = 4)); try lia; range_tac; done.
Qed.

(** A string is read back character by character. *)
Lemma mod_off m b k : b mod m = 0 -> k < m -> (b + k) mod m = k.
Proof. intros Hb Hk. rewrite N.Div0.add_mod, Hb, N.add_0_l, N.Div0.mod_mod. by apply N.mod_small. Qed.
Lemma chars_encode c l : scalar c -> chars (encode_utf8 c ++ l) = c :: chars l.
Proof.
  unfold scalar, encode_utf8. intros Hc. split_digits c.
  destruct (N.ltb_spec c 0x80); [|destruct (N.ltb_spec c 0x800)];
    [| |destruct (N.ltb_spec c 0x10000)]; cbn [app chars]; rewrite !byte_val_of_small by lia;
    repeat match goal with
    | |- context [?a <? ?b] =>
        first [rewrite (proj2 (N.ltb_lt a b)) by lia | rewrite (proj2 (N.ltb_ge a b)) by lia]
    end; [done|f_equal..].
  - rewrite (mod_off 32 0xc0), (mod_off 64 0x80) by done || lia. lia.
  - rewrite (mod_off 16 0xe0), !(mod_off 64 0x80) by done || lia. lia.
  - rewrite (mod_off 8 0xf0), !(mod_off 64 0x80) by done || lia. lia.
Qed.

Lemma in_range_spec lo hi b : in_range lo hi b = true <-> lo <= byte_val b <= hi.
Proof. unfold in_range. rewrite andb_true_iff, !N.leb_le. done. Qed.
Lemma byte_split lo b : lo <= byte_val b -> exists k, b = byte_of (lo + k) /\ byte_val b = lo + k.
Proof.
  intros. exists (byte_val b - lo). split; [|lia].
  replace (lo + (byte_val b - lo)) with (byte_val b) by lia. by rewrite byte_of_val.
Qed.

Lemma encode2 k0 k1 : 2 <= k0 < 32 -> k1 < 64 ->
  encode_utf8 (k0 * 64 + k1) = [byte_of (0xc0 + k0); byte_of (0x80 + k1)].
Proof.
  intros. unfold encode_utf8. split_digits (k0 * 64 + k1).
  destruct (N.ltb_spec (k0 * 64 + k1) 0x80); [lia|]. destruct (N.ltb_spec (k0 * 64 + k1) 0x800); [|lia].
  assert (q1 = k0) as -> by lia. assert (r0 = k1) as -> by lia. done.
Qed.
Lemma encode3 k0 k1 k2 : k0 < 16 -> k1 < 64 -> k2 < 64 -> 32 <= k0 * 64 + k1 ->
  encode_utf8 ((k0 * 64 + k1) * 64 + k2) = [byte_of (0xe0 + k0); byte_of (0x80 + k1); byte_of (0x80 + k2)].
Proof.
  intros. unfold encode_utf8. set (c := (k0 * 64 + k1) * 64 + k2). assert (c = (k0 * 64 + k1) * 64 + k2) by done.
  clearbody c. split_digits c.
  destruct (N.ltb_spec c 0x80); [lia|]. destruct (N.ltb_spec c 0x800); [lia|].
  destruct (N.ltb_spec c 0x10000); [|lia].
  assert (q1 = k0 * 64 + k1) by lia. assert (r0 = k2) as -> by lia. assert (q2 = k0) as -> by lia.
  assert (r1 = k1) as -> by lia. done.
Qed.
Lemma encode4 k0 k1 k2 k3 : k0 < 8 -> k1 < 64 -> k2 < 64 -> k3 < 64 -> 16 <= k0 * 64 + k1 ->
  encode_utf8 (((k0 * 64 + k1) * 64 + k2) * 64 + k3)
    = [byte_of (0xf0 + k0); byte_of (0x80 + k1); byte_of (0x80 + k2); byte_of (0x80 + k3)].
Proof.
  intros. unfold encode_utf8. set (c := ((k0 * 64 + k1) * 64 + k2) * 64 + k3).
  assert (c = ((k0 * 64 + k1) * 64 + k2) * 64 + k3) by done.
  clearbody c. split_digits c.
  destruct (N.ltb_spec c 0x80); [lia|]. destruct (N.ltb_spec c 0x800); [lia|].
  destruct (N.ltb_spec c 0x10000); [lia|].
  assert (q1 = (k0 * 64 + k1) * 64 + k2) by lia. assert (r0 = k3) as -> by lia.
  assert (q2 = k0 * 64 + k1) by lia. assert (r1 = k2) as -> by lia.
  assert (q3 = k0) as -> by lia. assert (r2 = k1) as -> by lia. done.
Qed.

Lemma utf8_uncons l : utf8_valid l = true -> l = [] \/
  exists c l', scalar c /\ l = encode_utf8 c ++ l' /\ utf8_valid l' = true.
Proof.
  destruct l as [|b0 l0]; [by left|]. right. revert H. cbn [utf8_valid].
  destruct (in_range 0 0x7f b0) eqn:E0.
  { intros Hv. apply in_range_spec in E0. exists (byte_val b0), l0. unfold scalar, encode_utf8.
    rewrite (proj2 (N.ltb_lt _ 0x80)) by lia. rewrite byte_of_val. split_and!; done || lia. }
  destruct l0 as [|b1 l1]; [done|].
  destruct (in_range 0xc2 0xdf b0 && in_range 0x80 0xbf b1) eqn:E1.
  { intros Hv. rewrite andb_true_iff, !in_range_spec in E1. destruct E1.
    destruct (byte_split 0xc0 b0) as (k0 & -> & ?); [lia|]. destruct (byte_split 0x80 b1) as (k1 & -> & ?); [lia|].
    exists (k0 * 64 + k1), l1. rewrite encode2 by lia. unfold scalar. split_and!; done || lia. }
  destruct l1 as [|b2 l2]; [done|]. destruct (in_range 0x80 0xbf b2 && _) eqn:E2.
  { intros Hv. rewrite andb_true_iff, !orb_true_iff, !andb_true_iff, !in_range_spec in E2.
    destruct (byte_split 0xe0 b0) as (k0 & -> & ?); [lia|]. destruct (byte_split 0x80 b1) as (k1 & -> & ?); [lia|].
    destruct (byte_split 0x80 b2) as (k2 & -> & ?); [lia|].
    exists ((k0 * 64 + k1) * 64 + k2), l2. rewrite encode3 by lia. unfold scalar. split_and!; done || lia. }
  destruct l2 as [|b3 l3]; [done|]. destruct (in_range 0x80 0xbf b2 && in_range 0x80 0xbf b3 && _) eqn:E3; [|done].
  intros Hv. rewrite !andb_true_iff, !orb_true_iff, !andb_true_iff, !in_range_spec in E3.
  destruct (byte_split 0xf0 b0) as (k0 & -> & ?); [lia|]. destruct (byte_split 0x80 b1) as (k1 & -> & ?); [lia|].
  destruct (byte_split 0x80 b2) as (k2 & -> & ?); [lia|]. destruct (byte_split 0x80 b3) as (k3 & -> & ?); [lia|].
  exists (((k0 * 64 + k1) * 64 + k2) * 64 + k3), l3. rewrite encode4 by lia. unfold scalar.
  split_and!; done || lia.
Qed.

Lemma encode_utf8_len c : 1 <= len (encode_utf8 c) <= 4.
Proof. unfold encode_utf8. repeat destruct (_ <? _); by vm_compute. Qed.

(** Induction over the characters of a string. *)
Lemma utf8_ind (P : list byte -> Prop) :
  P [] -> (forall c l, scalar c -> utf8_valid l = true -> P l -> P (encode_utf8 c ++ l)) ->
  forall l, utf8_valid l = true -> P l.
Proof.
  intros H0 Hs l. remember (length l) as n eqn:En. revert l En.
  induction (lt_wf n) as [n _ IH]. intros l -> Hv.
  destruct (utf8_uncons l Hv) as [->|(c & l' & Hc & -> & Hv')]; [done|].
  apply Hs; [done..|]. eapply IH; [|reflexivity|done].
  rewrite length_app. pose proof (encode_utf8_len c). unfold len in *. lia.
Qed.
Lemma chars_scalar l : utf8_valid l = true -> Forall scalar (chars l).
Proof.
  intros Hv. pattern l. revert l Hv. apply utf8_ind; [constructor|].
  intros c l Hc _ IH. rewrite chars_encode by done. by constructor.
Qed.
Lemma chars_concat l : utf8_valid l = true -> chars l ≫= encode_utf8 = l.
Proof.
  intros Hv. pattern l. revert l Hv. apply utf8_ind; [done|].
  intros c l Hc _ IH. rewrite chars_encode by done. rewrite bind_cons. by f_equal.
Qed.
Lemma encode_all_valid l : Forall scalar l -> utf8_valid (l ≫= encode_utf8) = true.
Proof.
  induction 1 as [|c l Hc _ IH]; [done|]. rewrite bind_cons. by rewrite encode_utf8_valid.
Qed.
Lemma utf8_valid_app l1 l2 : utf8_valid l1 = true -> utf8_valid (l1 ++ l2) = utf8_valid l2.
Proof.
  revert l1. apply utf8_ind; [done|]. intros c l Hc _ IH. by rewrite <- app_assoc, encode_utf8_valid.
Qed.

(** ASCII text: one byte per character. *)
Lemma is_ascii_cons b l : is_ascii (b :: l) = true <-> byte_val b < 0x80 /\ is_ascii l = true.
Proof. unfold is_ascii, is_ascii_byte. cbn [forallb]. by rewrite andb_true_iff, N.ltb_lt. Qed.
Lemma ascii_valid l : is_ascii l = true -> utf8_valid l = true.
Proof.
  induction l as [|b l IH]; [done|]. intros [Hb Hl]%is_ascii_cons. cbn [utf8_valid]. unfold in_range.
  destruct (N.leb_spec 0 (byte_val b)), (N.leb_spec (byte_val b) 0x7f); try lia. by apply IH.
Qed.
Lemma ascii_chars l : is_ascii l = true -> chars l = byte_val <$> l.
Proof.
  induction l as [|b l IH]; [done|]. intros [Hb Hl]%is_ascii_cons. cbn [chars fmap list_fmap].
  rewrite (proj2 (N.ltb_lt _ _)) by done. f_equal. by apply IH.
Qed.
Lemma ascii_encode l : Forall (fun c => c < 0x80) l -> l ≫= encode_utf8 = byte_of <$> l.
Proof.
  induction 1 as [|c l Hc _ IH]; [done|]. rewrite bind_cons, IH. unfold encode_utf8.
  by rewrite (proj2 (N.ltb_lt _ _)).
Qed.
Lemma len_ascii_lower l : len (ascii_lower l) = len l.
Proof. by unfold ascii_lower; rewrite len_fmap. Qed.
Lemma is_ascii_lower l : is_ascii l = true -> is_ascii (ascii_lower l) = true.
Proof.
  induction l as [|b l IH]; [done|]. intros [Hb Hl]%is_ascii_cons. apply is_ascii_cons. split; [|by apply IH].
  unfold to_ascii_lowercase. destruct (_ && _) eqn:E; [|done].
  apply andb_true_iff in E as [?%N.leb_le ?%N.leb_le]. rewrite byte_val_of_small; lia.
Qed.

(** ** Slices on character boundaries *)
Lemma encode_utf8_first c : scalar c -> exists b l, encode_utf8 c = b :: l /\
  ((byte_val b <? 0x80) || (0xc0 <=? byte_val b)) = true.
Proof.
  unfold scalar, encode_utf8. intros Hc. split_digits c.
  destruct (N.ltb_spec c 0x80); [|destruct (N.ltb_spec c 0x800)];
    [| |destruct (N.ltb_spec c 0x10000)]; eexists _, _; (split; [reflexivity|]);
    apply orb_true_iff; rewrite byte_val_of_small by lia.
  - left. by apply N.ltb_lt.
  - right. apply N.leb_le. lia.
  - right. apply N.leb_le. lia.
  - right. apply N.leb_le. lia.
Qed.
Lemma is_boundary_app l1 l2 : utf8_valid l2 = true -> is_boundary (l1 ++ l2) (len l1) = true.
Proof.
  intros Hv. unfold is_boundary, index. rewrite to_nat_len, lookup_app_r, Nat.sub_diag by lia.
  destruct (utf8_uncons l2 Hv) as [->|(c & l' & Hc & -> & _)].
  - cbn. rewrite len_app, len_nil. by apply N.eqb_eq; lia.
  - destruct (encode_utf8_first c Hc) as (b & r & -> & Hb). done.
Qed.
Lemma str_slice_app l1 l2 l3 : utf8_valid l2 = true -> utf8_valid l3 = true ->
  str_slice (l1 ++ l2 ++ l3) (len l1) (len l1 + len l2) = Some l2.
Proof.
  intros H2 H3. unfold str_slice. rewrite is_boundary_app by by rewrite utf8_valid_app.
  rewrite app_assoc, <- len_app, is_boundary_app by done. cbn [andb].
  apply slice_ok. rewrite !len_app. split_and!; [lia..|]. rewrite <- app_assoc, to_nat_len, drop_app_length.
  replace (N.to_nat (len l1 + len l2 - len l1)) with (length l2) by (unfold len; lia).
  by rewrite take_app_length.
Qed.
(** A boundary splits a string into two strings. *)
Lemma encode_utf8_tail c i b : 0 < i -> index (encode_utf8 c) i = Some b ->
  ((byte_val b <? 0x80) || (0xc0 <=? byte_val b)) = false.
Proof.
  unfold encode_utf8, index. split_digits c. intros Hi.
  assert (Hc : forall k, k < 64 -> ((byte_val (byte_of (0x80 + k)) <? 0x80)
    || (0xc0 <=? byte_val (byte_of (0x80 + k)))) = false).
  { intros k Hk. rewrite byte_val_of_small by lia. apply orb_false_iff. split; [apply N.ltb_ge|apply N.leb_gt]; lia. }
  destruct (N.to_nat i) as [|[|[|[|n]]]] eqn:E; [lia|..];
    destruct (c <? 0x80), (c <? 0x800), (c <? 0x10000); cbn; intros [= <-]; by apply Hc.
Qed.
Lemma boundary_split l i : utf8_valid l = true -> is_boundary l i = true ->
  exists l1 l2, l = l1 ++ l2 /\ len l1 = i /\ utf8_valid l1 = true /\ utf8_valid l2 = true.
Proof.
  intros Hv. revert i. pattern l. revert l Hv. apply utf8_ind.
  - intros i Hb. exists [], []. split_and!; try done. unfold is_boundary in Hb. cbn in Hb.
    by apply N.eqb_eq in Hb.
  - intros c l Hc Hl IH i Hb. destruct (decide (i = 0)) as [->|Hi].
    { exists [], (encode_utf8 c ++ l). split_and!; try done. by rewrite encode_utf8_valid. }
    destruct (decide (i < len (encode_utf8 c))) as [Hlt|Hge].
    + exfalso. unfold is_boundary, index in Hb. rewrite lookup_app_l in Hb by (unfold len in Hlt; lia).
      destruct (encode_utf8 c !! N.to_nat i) as [b|] eqn:E.
      * by rewrite (encode_utf8_tail c i b) in Hb by done || lia.
      * apply lookup_ge_None in E. unfold len in Hlt. lia.
    + destruct (IH (i - len (encode_utf8 c))) as (l1 & l2 & -> & El & H1 & H2).
      { unfold is_boundary, index in *. rewrite lookup_app_r in Hb by (unfold len in Hge; lia).
        replace (N.to_nat (i - len (encode_utf8 c))) with (N.to_nat i - length (encode_utf8 c))%nat by (unfold len; lia).
        destruct (l !! _); [done|]. apply N.eqb_eq in Hb. apply N.eqb_eq. rewrite len_app in Hb. lia. }
      exists (encode_utf8 c ++ l1), l2. rewrite <- app_assoc. split_and!; try done; [rewrite len_app; lia|].
      by rewrite encode_utf8_valid.
Qed.
(** An ASCII byte is always on a boundary. *)
Lemma valid_app_ascii l1 b l2 : utf8_valid (l1 ++ b :: l2) = true -> byte_val b < 0x80 ->
  utf8_valid l1 = true /\ utf8_valid l2 = true.
Proof.
  intros Hv Hb. destruct (boundary_split (l1 ++ b :: l2) (len l1)) as (p & q & E & El & Hp & Hq); [done| |].
  { unfold is_boundary, index. rewrite to_nat_len, list_lookup_middle by done.
    by rewrite (proj2 (N.ltb_lt _ _)). }
  apply app_inj_1 in E as [-> <-]; [|unfold len in El; lia].
  split; [done|]. cbn [utf8_valid] in Hq. unfold in_range in Hq.
  destruct (N.leb_spec 0 (byte_val b)), (N.leb_spec (byte_val b) 0x7f); try lia. done.
Qed.
Lemma str_slice_slice l a b w : str_slice l a b = Some w -> slice l a b = Some w.
Proof. unfold str_slice. by destruct (_ && _). Qed.

(** ** A sample instance, for the examples

    Two accents and their compositions, ASCII folding and the fold of [É]; a word
    is a run of letters, digits and characters beyond ASCII. *)
Module Sample.
Definition word_char (c : N) : bool :=
  (0x80 <=? c) || ((0x30 <=? c) && (c <=? 0x39)) || ((0x41 <=? c) && (c <=? 0x5a))
  || ((0x61 <=? c) && (c <=? 0x7a)).
Definition flush (at_ : N) (word : list N) : list (N * list byte) :=
  match word with [] => [] | _ => [(at_, word ≫= encode_utf8)] end.
(** [at_]: where the word read so far starts. *)
Fixpoint words_from (at_ : N) (word text : list N) : list (N * list byte) :=
  match text with
  | [] => flush at_ word
  | c :: text' =>
      if word_char c then words_from at_ (word ++ [c]) text'
      else flush at_ word ++ words_from (at_ + len ((word ++ [c]) ≫= encode_utf8)) [] text'
  end.
Definition lower (c : N) : N := if (0x41 <=? c) && (c <=? 0x5a) then c + 32 else c.

#[export] Instance sample : Unicode := {
  combining_class c := if c =? 0x301 then 230 else if c =? 0x323 then 220 else 0;
  compose_pair a b :=
    if b =? 0x301 then (if a =? 0x65 then Some 0xe9 else if a =? 0x45 then Some 0xc9 else None) else None;
  decompose_canonical c := if c =? 0xe9 then [0x65; 0x301] else if c =? 0xc9 then [0x45; 0x301] else [c];
  case_folded c := if c =? 0xc9 then Some 0xe9 else if (0x41 <=? c) && (c <=? 0x5a) then Some (c + 32) else None;
  word_indices l := words_from 0 [] (chars l);
  unicode_16 := true;
}.

#[export] Instance sample_tables : UnicodeTables.
Proof.
  split.
  - intros c Hc. cbn. unfold scalar in *. repeat case_match; repeat first [apply Forall_nil_2 | apply Forall_cons_2; [lia|]].
  - intros a b c. cbn. unfold scalar. repeat case_match; intros [=]; lia.
  - intros a b c. cbn. intros _. repeat case_match; intros [=]; subst; done.
Qed.

Lemma words_from_slices pre word text i w :
  Forall scalar word -> Forall scalar text -> (i, w) ∈ words_from (len pre) word text ->
  exists l1 l2 l3, pre ++ (word ≫= encode_utf8) ++ (text ≫= encode_utf8) = l1 ++ l2 ++ l3 /\
    i = len l1 /\ w = l2 /\ utf8_valid l2 = true /\ utf8_valid l3 = true.
Proof.
  assert (Hflush : forall pre word rest, Forall scalar word -> utf8_valid rest = true ->
    (i, w) ∈ flush (len pre) word -> exists l1 l2 l3, pre ++ (word ≫= encode_utf8) ++ rest = l1 ++ l2 ++ l3 /\
    i = len l1 /\ w = l2 /\ utf8_valid l2 = true /\ utf8_valid l3 = true).
  { intros p [|c word0] rest Hw Hr Hi; [by apply elem_of_nil in Hi|].
    apply list_elem_of_singleton in Hi. injection Hi as -> ->. eexists p, _, rest.
    split_and!; try done. by apply encode_all_valid. }
  revert pre word; induction text as [|c text IH]; intros pre word Hw Ht Hi.
  - by apply Hflush.
  - pose proof Ht as [Hc Ht']%list.Forall_cons_1. cbn [words_from] in Hi. destruct (word_char c).
    + apply IH in Hi as (l1 & l2 & l3 & E & ?); [|by apply Forall_app_2; [|constructor]|done].
      exists l1, l2, l3. split; [|done]. rewrite <- E, bind_app, !bind_cons. cbn. by rewrite app_nil_r, <- !app_assoc.
    + apply elem_of_app in Hi as [Hi|Hi].
      * apply Hflush; try done. by apply encode_all_valid.
      * rewrite <- len_app in Hi. apply IH in Hi as (l1 & l2 & l3 & E & ?); [|constructor|done].
        exists l1, l2, l3. split; [|done]. rewrite <- E, bind_app, !bind_cons. cbn. by rewrite app_nil_r, <- !app_assoc.
Qed.
#[export] Instance sample_words : UnicodeWords.
Proof.
  split. intros l i w Hv Hi. cbn in Hi. change 0 with (len (@nil byte)) in Hi.
  apply words_from_slices in Hi as (l1 & l2 & l3 & E & Ei & -> & H2 & H3); [|constructor|by apply chars_scalar].
  cbn [app] in E. rewrite chars_concat in E by done. cbn in E. rewrite E, Ei. by apply str_slice_app.
Qed.

Lemma lower_ascii l : Forall (fun c => c < 0x80) l ->
  (lower <$> l) ≫= encode_utf8 = ascii_lower (l ≫= encode_utf8).
Proof.
  intros Hl. rewrite !ascii_encode; [|done|].
  - unfold ascii_lower. rewrite <- !list_fmap_compose. apply list_fmap_ext. intros j c Hi.
    apply list_elem_of_lookup_2 in Hi. assert (c < 0x80) by exact (proj1 (list.Forall_forall _ _) Hl c Hi).
    unfold compose, lower, to_ascii_lowercase. rewrite byte_val_of_small by lia. by destruct (_ && _).
  - rewrite list.Forall_fmap. eapply list.Forall_impl; [done|]. intros c Hc. unfold compose, lower. cbn beta in *.
    destruct (N.leb_spec 0x41 c), (N.leb_spec c 0x5a); cbn [andb]; lia.
Qed.
Lemma word_char_lower c : word_char (lower c) = word_char c.
Proof.
  unfold lower. destruct ((0x41 <=? c) && (c <=? 0x5a)) eqn:E; [|done].
  apply andb_true_iff in E as [?%N.leb_le ?%N.leb_le].
  assert (H1 : (0x61 <=? c + 32) = true) by (apply N.leb_le; lia).
  assert (H2 : (c + 32 <=? 0x7a) = true) by (apply N.leb_le; lia).
  assert (H3 : (0x41 <=? c) = true) by by apply N.leb_le.
  assert (H4 : (c <=? 0x5a) = true) by by apply N.leb_le.
  unfold word_char. rewrite H1, H2, H3, H4. cbn [andb]. by rewrite !orb_true_r.
Qed.
Lemma words_from_lower at_ word text :
  Forall (fun c => c < 0x80) word -> Forall (fun c => c < 0x80) text ->
  words_from at_ (lower <$> word) (lower <$> text)
    = (fun '(i, w) => (i, ascii_lower w)) <$> words_from at_ word text.
Proof.
  assert (Hflush : forall at_ word, Forall (fun c => c < 0x80) word ->
    flush at_ (lower <$> word) = (fun '(i, w) => (i, ascii_lower w)) <$> flush at_ word).
  { intros a [|c w] Hw; [done|]. cbn [fmap list_fmap flush].
    rewrite <- fmap_cons, lower_ascii by done. done. }
  revert at_ word; induction text as [|c text IH]; intros at_ word Hw Ht; [by apply Hflush|].
  pose proof Ht as [Hc Ht']%list.Forall_cons_1. rewrite fmap_cons. cbn [words_from]. rewrite word_char_lower.
  assert (Hwc : Forall (fun c => c < 0x80) (word ++ [c])) by (by apply Forall_app_2; [|constructor]).
  assert (E : (lower <$> word) ++ [lower c] = lower <$> (word ++ [c])) by by rewrite fmap_app.
  rewrite E. destruct (word_char c); [by apply IH|].
  rewrite lower_ascii, len_ascii_lower by done. rewrite fmap_app, <- Hflush by done. f_equal.
  by apply (IH _ []).
Qed.
Ltac eqb_lia := repeat match goal with H : (_ =? _) = true |- _ => apply N.eqb_eq in H end; lia || done.
#[export] Instance sample_ascii : UnicodeAscii.
Proof.
  split.
  - intros c Hc. cbn. repeat case_match; eqb_lia.
  - intros a b Ha Hb. cbn. repeat case_match; eqb_lia.
  - intros c Hc. cbn. repeat case_match; eqb_lia.
  - intros c Hc. cbn. destruct (N.eqb_spec c 0xc9); [lia|]. by destruct (_ && _).
  - intros l Hl. cbn. pose proof (is_ascii_lower l Hl). rewrite !ascii_chars by done.
    assert (Hb : Forall (fun c => c < 0x80) (byte_val <$> l)).
    { clear H. induction l as [|b l IH]; [constructor|]. apply is_ascii_cons in Hl as [? ?].
      constructor; [done|by apply IH]. }
    rewrite <- words_from_lower by done. cbn. f_equal. unfold ascii_lower.
    rewrite <- !list_fmap_compose. apply list_fmap_ext. intros _ b _. unfold compose, lower, to_ascii_lowercase.
    destruct (_ && _) eqn:E; [|done]. apply andb_true_iff in E as [?%N.leb_le ?%N.leb_le].
    by rewrite byte_val_of_small by lia.
Qed.
End Sample.
