(* ===== verification/Normalize.v ===== *)
(** Streaming normalization: [src/crates/pin-core/src/normalize.rs].

    [Nfc] is the streaming composer, one pending sequence (a starter and its marks)
    at a time; [emit] is the closure the code passes on, here a function on the state
    [S] it captures and the memory budget.  [profile_text] chains two composers around
    simple case folding.  The specification is the textbook form of UAX #15, on whole
    texts: decompose everything, reorder marks, compose left to right.  The theorems:
    the streaming text is the specified one on both paths, its memory is accounted
    for, nothing panics, and enough memory gives a result. *)
From S2P Require Export Budget Text.

Section Normalize.
Context `{Unicode} (grow : N -> option N).

Record Scalar : Type := mkScalar { value : N; order : N }.
(** [size_of::<Scalar>()]: a [char] and a [u32]. *)
Definition scalar_size : N := 8.
Definition u32_max : N := 2 ^ 32 - 1.

(** [Nfc]: its field [pending]. *)
Definition Nfc : Type := Vec Scalar.
Definition class (s : Scalar) : N := combining_class (value s).

(** The key [(class, order)] and the sort by it; keys are distinct, so an unstable
    sort has one result. *)
Definition key_le (a b : Scalar) : bool :=
  (class a <? class b) || ((class a =? class b) && (order a <=? order b)).
Fixpoint sort_insert (s : Scalar) (l : list Scalar) : list Scalar :=
  match l with
  | [] => [s]
  | t :: l' => if key_le s t then s :: l else t :: sort_insert s l'
  end.
Definition sort_by_key (l : list Scalar) : list Scalar := foldr sort_insert [] l.

(** One step of the loop of [Nfc::compose]: [pending[0]], [pending[1..write]] and
    [previous]. *)
Definition compose_step (st : Scalar * list Scalar * N) (scalar : Scalar) : Scalar * list Scalar * N :=
  let '(first, kept, previous) := st in
  let current := class scalar in
  match (if (previous =? 0) || (previous <? current)
         then compose_pair (value first) (value scalar) else None) with
  | Some joined => (mkScalar joined (order first), kept, previous)
  | None => (first, kept ++ [scalar], current)
  end.
(** [Nfc::compose] *)
Definition compose (pending : list Scalar) : list Scalar :=
  match pending with
  | [] => []
  | first :: rest =>
      if class first =? 0 then
        let '(first, kept, _) := foldl compose_step (first, [], 0) (sort_by_key rest) in
        first :: kept
      else sort_by_key pending
  end.

Section Emit.
Context {S : Type} (emit : N -> S -> MemoryBudget -> Result (S * MemoryBudget)).

(** [Nfc::emit] *)
Definition emit_all (pending : list Scalar) (s : S) (budget : MemoryBudget) : Result (S * MemoryBudget) :=
  foldM (fun '(s, budget) scalar => emit (value scalar) s budget) (s, budget) pending.

(** The end of [Nfc::decomposed]: append to the pending sequence. *)
Definition append (self : Nfc) (v : N) (s : S) (budget : MemoryBudget) : Result (Nfc * S * MemoryBudget) :=
  let order := len (items self) in
  if u32_max <? order then Err (Limit "combining sequence") else
  let* '(self, budget) := reserve grow scalar_size self 1 u32_max budget in
  Ok (vec_push self (mkScalar v order), s, budget).

(** [Nfc::decomposed] *)
Definition decomposed (self : Nfc) (v : N) (s : S) (budget : MemoryBudget) : Result (Nfc * S * MemoryBudget) :=
  if (combining_class v =? 0) && negb (bool_decide (items self = [])) then
    let pending := compose (items self) in
    let joined :=
      match pending with
      | [first] => if class first =? 0 then (fun j => mkScalar j (order first)) <$> compose_pair (value first) v else None
      | _ => None
      end in
    match joined with
    | Some joined => Ok (mkVec [joined] (capacity self), s, budget)
    | None =>
        let* '(s, budget) := emit_all pending s budget in
        append (mkVec [] (capacity self)) v s budget
    end
  else append self v s budget.

(** [Nfc::push]: the closure stops at the first error. *)
Definition push (self : Nfc) (v : N) (s : S) (budget : MemoryBudget) : Result (Nfc * S * MemoryBudget) :=
  foldM (fun '(self, s, budget) v => decomposed self v s budget) (self, s, budget) (decompose_canonical v).

(** [Nfc::finish] *)
Definition finish (self : Nfc) (s : S) (budget : MemoryBudget) : Result (Nfc * S * MemoryBudget) :=
  let* '(s, budget) := emit_all (compose (items self)) s budget in
  Ok (mkVec [] (capacity self), s, budget).
End Emit.

(** [Nfc::release] *)
Definition nfc_release (self : Nfc) (budget : MemoryBudget) : Result MemoryBudget :=
  let* bytes := or_panic (checked_mul usize (capacity self) scalar_size) in
  try_budget (release budget bytes).

(** [fold] *)
Definition fold (v : N) : Result N :=
  match case_folded v with
  | None => Ok v
  | Some mapped => ok_or (char_from_u32 mapped) InvalidProfile
  end.

Section Profile.
Context (lim : N).

(** the closure [output] *)
Definition output (v : N) (bytes : Vec byte) (budget : MemoryBudget) : Result (Vec byte * MemoryBudget) :=
  let encoded := encode_utf8 v in
  let* '(bytes, budget) := reserve grow 1 bytes (len encoded) lim budget in
  Ok (vec_extend bytes encoded, budget).
(** the closure [folded], with the state it captures: [second] and [bytes] *)
Definition folded (v : N) (s : Nfc * Vec byte) (budget : MemoryBudget)
  : Result (Nfc * Vec byte * MemoryBudget) :=
  let* v := fold v in
  push output (fst s) v (snd s) budget.

(** [profile_text] *)
Definition profile_text (text : list byte) (budget : MemoryBudget)
  : Result (Vec byte * N * MemoryBudget) :=
  let* '(bytes, budget) := reserve grow 1 vec_new (N.min (len text) lim) lim budget in
  if is_ascii text then
    if lim <? len text then Err (Limit "normalized bytes") else
    let bytes := vec_extend bytes (ascii_lower text) in
    let peak := used budget in
    if utf8_valid (items bytes) then Ok (bytes, peak, budget) else Err InvalidDocument
  else
  let* '(first, s, budget) :=
    foldM (fun '(first, s, budget) v => push folded first v s budget)
      (vec_new, (vec_new, bytes), budget) (chars text) in
  let* '(first, s, budget) := finish folded first s budget in
  let '(second, bytes) := s in
  let* '(second, bytes, budget) := finish output second bytes budget in
  let peak := used budget in
  let* budget := nfc_release first budget in
  let* budget := nfc_release second budget in
  if utf8_valid (items bytes) then Ok (bytes, peak, budget) else Err InvalidDocument.
End Profile.

(** ** Specification (UAX #15) *)

(** Canonical ordering: a mark moves before the marks of a smaller class, never past
    a starter. *)
Fixpoint reorder_insert (c : N) (l : list N) : list N :=
  match l with
  | [] => [c]
  | d :: l' =>
      if (0 <? combining_class d) && (combining_class d <? combining_class c)
      then d :: reorder_insert c l' else c :: l
  end.
Definition reorder (l : list N) : list N := foldr reorder_insert [] l.

(** Canonical composition: what precedes the last starter, the starter, the marks
    kept after it. A character is blocked by a kept mark of its class or higher. *)
Definition Composition : Type := list N * option N * list N.
Definition blocked (kept : list N) (c : N) : bool :=
  match list.last kept with Some m => combining_class c <=? combining_class m | None => false end.
Definition composition_step (st : Composition) (c : N) : Composition :=
  let '(before, starter, kept) := st in
  match (if blocked kept c then None else s ← starter; compose_pair s c) with
  | Some joined => (before, Some joined, kept)
  | None =>
      if combining_class c =? 0
      then (before ++ option_list starter ++ kept, Some c, [])
      else (before, starter, kept ++ [c])
  end.
Definition composition_text (st : Composition) : list N :=
  let '(before, starter, kept) := st in before ++ option_list starter ++ kept.

Definition nfc (text : list N) : list N :=
  composition_text (foldl composition_step ([], None, []) (reorder (text ≫= decompose_canonical))).
Definition simple_fold (c : N) : N := default c (case_folded c).

(** The profile of a text: NFC, simple case folding, NFC. *)
Definition profile_spec (text : list byte) : list byte :=
  nfc (simple_fold <$> nfc (chars text)) ≫= encode_utf8.
End Normalize.

(** * The composer *)
Section Composer.
Context `{HU : Unicode}.

(** Sorting by (class, order of arrival) is the canonical ordering. *)
Lemma sort_insert_values s l :
  Forall (fun t => 0 < class t) l -> Forall (fun t => order s < order t) l ->
  value <$> sort_insert s l = reorder_insert (value s) (value <$> l).
Proof.
  induction l as [|t l IH]; intros Hm Ho; [done|]. apply list.Forall_cons_1 in Hm as [? ?].
  apply list.Forall_cons_1 in Ho as [? ?]. cbn [sort_insert fmap list_fmap reorder_insert].
  unfold key_le. fold (class t) (class s).
  destruct (N.ltb_spec 0 (class t)); [|lia]. cbn [andb].
  destruct (N.ltb_spec (class t) (class s)), (N.ltb_spec (class s) (class t)); try lia; cbn [orb andb].
  - destruct (N.eqb_spec (class s) (class t)); [lia|]. cbn [andb]. rewrite fmap_cons. by f_equal; apply IH.
  - done.
  - destruct (N.eqb_spec (class s) (class t)); [|lia]. destruct (N.leb_spec (order s) (order t)); [done|lia].
Qed.
Lemma sort_insert_perm s l : sort_insert s l ≡ₚ s :: l.
Proof.
  induction l as [|t l IH]; [done|]. cbn. destruct (key_le s t); [done|].
  rewrite IH. by apply Permutation_swap.
Qed.
Lemma sort_by_key_perm l : sort_by_key l ≡ₚ l.
Proof. induction l as [|s l IH]; [done|]. cbn. by rewrite sort_insert_perm, IH. Qed.

(** The pending marks, numbered in order of arrival. *)
Fixpoint numbered (n : N) (l : list Scalar) : Prop :=
  match l with [] => True | s :: l' => order s = n /\ numbered (n + 1) l' end.
Lemma numbered_ge n l : numbered n l -> Forall (fun s => n <= order s) l.
Proof.
  revert n; induction l as [|s l IH]; intros n Hn; constructor; destruct Hn as [? Hn]; [lia|].
  eapply list.Forall_impl; [by apply IH|]. cbn; lia.
Qed.
Lemma numbered_snoc n l s : numbered n (l ++ [s]) <-> numbered n l /\ order s = n + len l.
Proof.
  revert n; induction l as [|t l IH]; intros n; cbn [app numbered].
  - rewrite len_nil, N.add_0_r. naive_solver.
  - rewrite IH, len_cons. replace (n + 1 + len l) with (n + (1 + len l)) by lia. naive_solver.
Qed.
Lemma sort_by_key_values n l : numbered n l -> Forall (fun t => 0 < class t) l ->
  value <$> sort_by_key l = reorder (value <$> l).
Proof.
  revert n; induction l as [|s l IH]; intros n Hn Hm; [done|]. destruct Hn as [? Hn].
  apply list.Forall_cons_1 in Hm as [? Hm]. cbn [sort_by_key foldr fmap list_fmap reorder].
  fold (sort_by_key l) (reorder (value <$> l)).
  rewrite sort_insert_values.
  - f_equal. by eapply IH.
  - by rewrite sort_by_key_perm.
  - rewrite sort_by_key_perm. eapply list.Forall_impl; [by apply numbered_ge|]. cbn; lia.
Qed.

(** ** Canonical ordering, by segments *)
Lemma reorder_insert_starter c d l : combining_class d = 0 -> reorder_insert c (d :: l) = c :: d :: l.
Proof. intros E. cbn. by rewrite E. Qed.
Lemma reorder_insert_zero c l : combining_class c = 0 -> reorder_insert c l = c :: l.
Proof.
  intros E. destruct l as [|d l]; [done|]. cbn. rewrite E.
  destruct (N.ltb_spec (combining_class d) 0); [lia|]. by rewrite andb_false_r.
Qed.
Lemma reorder_insert_app c l1 d l2 : combining_class d = 0 ->
  reorder_insert c (l1 ++ d :: l2) = reorder_insert c l1 ++ d :: l2.
Proof.
  intros E. induction l1 as [|x l1 IH]; [by apply reorder_insert_starter|].
  cbn. destruct (_ && _); [|done]. cbn. by rewrite IH.
Qed.
(** Nothing moves across a starter. *)
Lemma reorder_starter l1 d l2 : combining_class d = 0 ->
  reorder (l1 ++ d :: l2) = reorder l1 ++ d :: reorder l2.
Proof.
  intros E. induction l1 as [|x l1 IH]; cbn; [by apply reorder_insert_zero|].
  fold (reorder (l1 ++ d :: l2)) (reorder l1). by rewrite IH, reorder_insert_app.
Qed.
Lemma reorder_insert_perm c l : reorder_insert c l ≡ₚ c :: l.
Proof.
  induction l as [|d l IH]; [done|]. cbn. destruct (_ && _); [|done].
  rewrite IH. by apply Permutation_swap.
Qed.
Lemma reorder_perm l : reorder l ≡ₚ l.
Proof. induction l as [|c l IH]; [done|]. cbn. fold (reorder l). by rewrite reorder_insert_perm, IH. Qed.

(** ** Composition of one segment *)
Definition prev_class (kept : list N) : N := from_option combining_class 0 (list.last kept).
Lemma composition_marks b st : let '(first, kept, previous) := st in
  previous = prev_class (value <$> kept) -> Forall (fun t => 0 < class t) kept ->
  forall l, Forall (fun t => 0 < class t) l ->
  let '(first', kept', _) := foldl compose_step (first, kept, previous) l in
  foldl composition_step (b, Some (value first), value <$> kept) (value <$> l)
    = (b, Some (value first'), value <$> kept').
Proof.
  destruct st as [[first kept] previous]. intros Hp Hk l. revert first kept previous Hp Hk.
  induction l as [|c l IH]; intros first kept previous Hp Hk Hm; [done|].
  apply list.Forall_cons_1 in Hm as [Hc Hm]. cbn [foldl compose_step fmap list_fmap].
  change (foldl composition_step ?s (value c :: ?r)) with (foldl composition_step (composition_step s (value c)) r).
  assert (Hb : blocked (value <$> kept) (value c) = negb ((previous =? 0) || (previous <? class c))).
  { unfold blocked. subst previous. unfold prev_class.
    destruct (list.last (value <$> kept)) as [m|] eqn:El; cbn [from_option]; [|done].
    assert (0 < combining_class m).
    { rewrite fmap_last in El. destruct (list.last kept) as [t|] eqn:Et; [|done]. injection El as <-.
      apply last_Some_elem_of in Et. by apply (proj1 (list.Forall_forall _ _) Hk). }
    destruct (N.eqb_spec (combining_class m) 0); [lia|]. cbn.
    unfold class. destruct (N.leb_spec (combining_class (value c)) (combining_class m)),
      (N.ltb_spec (combining_class m) (combining_class (value c))); done || lia. }
  unfold composition_step at 2. rewrite Hb.
  assert (Hkc : (combining_class (value c) =? 0) = false) by (apply N.eqb_neq; unfold class in Hc; lia).
  assert (E : prev_class (value <$> kept ++ [c]) = class c).
  { unfold prev_class. rewrite fmap_app. exact (f_equal (from_option combining_class 0) (list.last_snoc (value c) (value <$> kept))). }
  destruct ((previous =? 0) || (previous <? class c)); cbn [negb mbind option_bind].
  - destruct (compose_pair (value first) (value c)) as [j|].
    + apply (IH (mkScalar j (order first)) kept previous); done.
    + rewrite Hkc. specialize (IH first (kept ++ [c]) (class c)).
      rewrite fmap_app in IH. cbn [fmap list_fmap] in IH. apply IH; try done.
      { by rewrite <- E, fmap_app. } by apply Forall_app_2; [|constructor].
  - rewrite Hkc. specialize (IH first (kept ++ [c]) (class c)).
    rewrite fmap_app in IH. cbn [fmap list_fmap] in IH. apply IH; try done.
    { by rewrite <- E, fmap_app. } by apply Forall_app_2; [|constructor].
Qed.

(** ** The stream, without its effects: what a character emits and leaves pending *)
Definition joined_with (pending : list Scalar) (v : N) : option Scalar :=
  match pending with
  | [first] => if class first =? 0 then (fun j => mkScalar j (order first)) <$> compose_pair (value first) v else None
  | _ => None
  end.
Definition machine_step (p : list Scalar) (v : N) : list N * list Scalar :=
  if (combining_class v =? 0) && negb (bool_decide (p = [])) then
    match joined_with (compose p) v with
    | Some j => ([], [j])
    | None => (value <$> compose p, [mkScalar v 0])
    end
  else ([], p ++ [mkScalar v (len p)]).

Abbreviation start := (([], None, []) : Composition).
(** [o] was emitted and [p] is pending after the decomposed characters [l]. *)
Definition streamed (l o : list N) (p : list Scalar) : Prop :=
  numbered 0 p /\
  ((o = [] /\ l = value <$> p /\ Forall (fun s => 0 < class s) p) \/
   exists l1 h m, p = h :: m /\ l = l1 ++ (value <$> m) /\ class h = 0 /\ Forall (fun s => 0 < class s) m /\
     (forall l2, reorder (l1 ++ l2) = reorder l1 ++ reorder l2) /\
     foldl composition_step start (reorder l1) = (o, Some (value h), [])).

Lemma composition_no_starter b kept l : Forall (fun c => 0 < combining_class c) l ->
  foldl composition_step (b, None, kept) l = (b, None, kept ++ l).
Proof.
  revert kept; induction l as [|c l IH]; intros kept Hm; [by rewrite app_nil_r|].
  apply list.Forall_cons_1 in Hm as [Hc Hm]. cbn [foldl composition_step mbind option_bind].
  replace (if blocked kept c then None else None) with (@None N) by by destruct (blocked _ _).
  replace (combining_class c =? 0) with false by (symmetry; apply N.eqb_neq; lia).
  rewrite IH by done. by rewrite <- app_assoc.
Qed.

Hypothesis compose_starter' : forall a b c,
  combining_class a = 0 -> compose_pair a b = Some c -> combining_class c = 0.

Lemma compose_loop_first st l : let '(first, kept, previous) := st in
  class first = 0 ->
  class (fst (fst (foldl compose_step st l))) = 0 /\
  order (fst (fst (foldl compose_step st l))) = order first.
Proof.
  revert st; induction l as [|c l IH]; intros [[first kept] previous] Hc; [done|].
  cbn [foldl compose_step]. destruct (if _ || _ then _ else _) as [j|] eqn:E.
  - apply (IH (mkScalar j (order first), kept, previous)). unfold class; cbn [value].
    destruct (_ || _); [|done]. by apply compose_starter' in E.
  - by apply (IH (first, kept ++ [c], class c)).
Qed.

(** What composing the pending sequence does to the specification's state. *)
Lemma compose_streamed l o p : streamed l o p -> p <> [] ->
  (exists s w, compose p = s :: w /\ class s = 0 /\ order s = 0 /\
     foldl composition_step start (reorder l) = (o, Some (value s), value <$> w)) \/
  (o = [] /\ foldl composition_step start (reorder l) = ([], None, value <$> compose p) /\
   joined_with (compose p) = fun _ => None).
Proof.
  intros [Hn [(-> & -> & Hm)|(l1 & h & m & -> & -> & Hh & Hm & Hsplit & Hrun)]] Hp.
  - right. destruct p as [|f p]; [done|]. pose proof Hm as [Hf _]%list.Forall_cons_1. cbn [compose].
    destruct (N.eqb_spec (class f) 0); [lia|]. rewrite <- (sort_by_key_values 0) by done.
    assert (Hs : Forall (fun t => 0 < class t) (sort_by_key (f :: p))) by by rewrite sort_by_key_perm.
    split_and!; [done| |].
    + rewrite composition_no_starter; [done|]. by rewrite list.Forall_fmap.
    + unfold joined_with. destruct (sort_by_key (f :: p)) as [|s [|? ?]]; try done.
      apply list.Forall_cons_1 in Hs as [? _]. destruct (N.eqb_spec (class s) 0); [lia|done].
  - left. destruct Hn as [Hh0 Hn]. cbn [compose]. rewrite Hh, N.eqb_refl.
    pose proof (composition_marks o (h, [], 0) eq_refl (Forall_nil_2 _) (sort_by_key m)) as Hc.
    pose proof (compose_loop_first (h, [], 0) (sort_by_key m) Hh) as Hfirst.
    rewrite (sort_by_key_values 1) in Hc by done. specialize (Hc ltac:(by rewrite sort_by_key_perm)).
    destruct (foldl compose_step (h, [], 0) (sort_by_key m)) as [[f w] q]. exists f, w. cbn in Hfirst.
    destruct Hfirst as [? E]. rewrite E. split_and!; try done.
    rewrite Hsplit, foldl_app, Hrun. exact Hc.
Qed.

Lemma streamed_step l o p v : streamed l o p ->
  streamed (l ++ [v]) (o ++ fst (machine_step p v)) (snd (machine_step p v)).
Proof.
  intros Hs. unfold machine_step. destruct (N.eqb_spec (combining_class v) 0) as [Hv|Hv]; cbn [andb].
  - assert (Hr : forall l2, reorder ((l ++ [v]) ++ l2) = reorder (l ++ [v]) ++ reorder l2).
    { intros l2. rewrite <- app_assoc. cbn [app]. rewrite !reorder_starter by done.
      cbn [reorder foldr reorder_insert]. by rewrite <- app_assoc. }
    assert (Hlast : foldl composition_step start (reorder (l ++ [v]))
      = composition_step (foldl composition_step start (reorder l)) v).
    { rewrite reorder_starter by done. by rewrite foldl_app. }
    destruct (decide (p = [])) as [->|Hp].
    + rewrite bool_decide_eq_true_2 by done. cbn. destruct Hs as [_ [(-> & -> & _)|(? & ? & ? & ? & _)]]; [|done].
      split; [done|]. right. exists [v], (mkScalar v 0), []. cbn. rewrite Hv. by split_and!.
    + rewrite bool_decide_eq_false_2 by done. cbn [negb].
      destruct (compose_streamed _ _ _ Hs Hp) as [(s & w & E & Hc & Ho & Hrun)|(-> & Hrun & Hj)].
      * rewrite E. rewrite Hrun in Hlast.
        destruct w as [|x w]; cbn [joined_with].
        -- rewrite Hc, N.eqb_refl.
           destruct (compose_pair (value s) v) as [j|] eqn:Ej; cbn [fmap option_fmap option_map fst snd].
           ++ split; [by split|]. right. exists (l ++ [v]), (mkScalar j (order s)), [].
              rewrite !app_nil_r. split_and!; try done; [by apply compose_starter' in Ej|].
              rewrite Hlast. cbn. by rewrite Ej.
           ++ split; [done|]. right. exists (l ++ [v]), (mkScalar v 0), [].
              rewrite app_nil_r. split_and!; try done. rewrite Hlast. cbn. by rewrite Ej, Hv.
        -- cbn [fst snd]. split; [done|]. right. exists (l ++ [v]), (mkScalar v 0), [].
           rewrite app_nil_r. split_and!; try done. rewrite Hlast. unfold composition_step, blocked. rewrite Hv.
           replace (match list.last (value <$> x :: w) with Some m => 0 <=? combining_class m | None => false end)
             with true; [done|]. destruct (list.last (value <$> x :: w)) as [m|] eqn:El.
           ++ by destruct (combining_class m).
           ++ by apply last_None in El.
      * rewrite Hj. cbn [fst snd]. split; [done|]. right. exists (l ++ [v]), (mkScalar v 0), [].
        rewrite app_nil_r. split_and!; try done. rewrite Hlast, Hrun. unfold composition_step. rewrite Hv.
        cbn [mbind option_bind]. by destruct (blocked _ _).
  - cbn [fst snd]. rewrite app_nil_r. destruct Hs as [Hn [(-> & -> & Hm)|(l1 & h & m & -> & -> & Hh & Hm & Hsplit & Hrun)]].
    + split; [by apply numbered_snoc|]. left. rewrite fmap_app. split_and!; try done.
      apply Forall_app_2; [done|]. constructor; [|done]. unfold class; cbn. lia.
    + split; [by apply (numbered_snoc 0 (h :: m))|]. right. exists l1, h, (m ++ [mkScalar v (len (h :: m))]).
      rewrite fmap_app, app_assoc. split_and!; try done.
      apply Forall_app_2; [done|]. constructor; [|done]. unfold class; cbn. lia.
Qed.

Lemma streamed_finish l o p : streamed l o p ->
  o ++ (value <$> compose p) = composition_text (foldl composition_step start (reorder l)).
Proof.
  intros Hs. destruct (decide (p = [])) as [->|Hp].
  - destruct Hs as [_ [(-> & -> & _)|(? & ? & ? & ? & _)]]; done.
  - destruct (compose_streamed _ _ _ Hs Hp) as [(s & w & E & _ & _ & Hrun)|(-> & Hrun & _)].
    + by rewrite E, Hrun.
    + by rewrite Hrun.
Qed.
End Composer.

(** * The effects around the stream *)
Section Effects.
Context `{HU : Unicode} {HT : UnicodeTables} (grow : N -> option N).
Hypothesis grow_ge : forall n c, grow n = Some c -> n <= c.

(** A computation that neither panics nor reports an invalid document. *)
Definition clean {A} (m : Result A) : Prop := m <> Panic /\ m <> Err InvalidDocument.
Lemma clean_ok {A} (a : A) : clean (Ok a).
Proof. done. Qed.
Lemma clean_bind {A B} (m : Result A) (k : A -> Result B) :
  clean m -> (forall a, m = Ok a -> clean (k a)) -> clean (rbind m k).
Proof. destruct m; unfold clean; naive_solver. Qed.
Lemma clean_if {A} (c : bool) (m n : Result A) :
  (c = true -> clean m) -> (c = false -> clean n) -> clean (if c then m else n).
Proof. destruct c; naive_solver. Qed.
Lemma clean_err {A B} e : clean (Err (A := A) e) -> clean (Err (A := B) e).
Proof. unfold clean. naive_solver. Qed.
Lemma ok_or_clean {A} (o : option A) e : e <> InvalidDocument -> clean (ok_or o e).
Proof. destruct o; unfold clean; cbn; naive_solver. Qed.
Lemma reserve_clean {A} size (v : Vec A) additional l b :
  budget_wf b -> clean (reserve grow size v additional l b).
Proof.
  intros Hwf. split; [by apply reserve_safe|]. unfold reserve. intros H.
  destruct (checked_add _ _ _); cbn in H; [|done].
  repeat (case_match; cbn in H; try done);
    destruct (grow _); cbn in H; try done; unfold try_budget, lift_budget in H;
    by destruct (snd (charge_array _ _ _)).
Qed.

(** A closure that takes characters: it is [clean], keeps [inv], charges for
    what it holds ([held]) and acts on the abstract state like [stp]. *)
Definition emits {S T} (emit : N -> S -> MemoryBudget -> Result (S * MemoryBudget))
  (inv : S -> Prop) (abs : S -> T) (stp : T -> N -> T) (held : S -> N) : Prop :=
  forall c s b, scalar c -> inv s -> budget_wf b -> held s <= used b ->
    clean (emit c s b) /\
    forall s' b', emit c s b = Ok (s', b') ->
      inv s' /\ budget_wf b' /\ limit b' = limit b /\ held s <= held s' /\
      used b' + held s = used b + held s' /\ abs s' = stp (abs s) c.

Lemma emits_foldM {S T} emit (inv : S -> Prop) (abs : S -> T) stp held l s b :
  emits emit inv abs stp held -> Forall scalar l -> inv s -> budget_wf b -> held s <= used b ->
  clean (foldM (fun '(s, b) c => emit c s b) (s, b) l) /\
  forall s' b', foldM (fun '(s, b) c => emit c s b) (s, b) l = Ok (s', b') ->
    inv s' /\ budget_wf b' /\ limit b' = limit b /\ held s <= held s' /\
    used b' + held s = used b + held s' /\ abs s' = foldl stp (abs s) l.
Proof.
  intros He. revert s b; induction l as [|c l IH]; intros s b Hl Hi Hb Hh.
  - split; [done|]. intros s' b' [= <- <-]. by split_and!.
  - apply list.Forall_cons_1 in Hl as [Hc Hl]. destruct (He c s b Hc Hi Hb Hh) as [Hs Hok]. split.
    + cbn. apply clean_bind; [done|]. intros [s1 b1] H1. destruct (Hok _ _ H1) as (? & ? & ? & ? & ? & _).
      apply IH; done || lia.
    + intros s' b' H. cbn in H. apply rbind_ok in H as ([s1 b1] & H1 & H).
      destruct (Hok _ _ H1) as (? & ? & ? & ? & ? & E). destruct (IH s1 b1) as [_ IH1]; try done; [lia|].
      destruct (IH1 _ _ H) as (? & ? & ? & ? & ? & ->). rewrite E. split_and!; try done; lia || congruence.
Qed.
Definition nfc_inv (self : Nfc) : Prop := Forall (fun s => scalar (value s)) (items self).
Definition nfc_held (self : Nfc) : N := capacity self * scalar_size.

Lemma compose_loop_scalar st l : let '(first, kept, _) := st in
  scalar (value first) -> Forall (fun s => scalar (value s)) kept -> Forall (fun s => scalar (value s)) l ->
  let '(first', kept', _) := foldl compose_step st l in
  Forall (fun s => scalar (value s)) (first' :: kept').
Proof.
  revert st; induction l as [|c l IH]; intros [[first kept] previous] Hf Hk Hl; [by constructor|].
  apply list.Forall_cons_1 in Hl as [Hc Hl]. cbn [foldl compose_step].
  destruct (if _ || _ then _ else _) as [j|] eqn:E.
  - apply (IH (mkScalar j (order first), kept, previous)); try done. cbn.
    destruct (_ || _); [|done]. by eapply compose_scalar.
  - apply (IH (first, kept ++ [c], class c)); try done. apply Forall_app_2; [done|by constructor].
Qed.
Lemma compose_scalars p :
  Forall (fun s => scalar (value s)) p -> Forall (fun s => scalar (value s)) (compose p).
Proof.
  intros Hp. destruct p as [|f p]; [done|]. cbn [compose].
  destruct (class f =? 0); [|by rewrite sort_by_key_perm].
  apply list.Forall_cons_1 in Hp as [Hf Hp].
  pose proof (compose_loop_scalar (f, [], 0) (sort_by_key p) Hf (Forall_nil_2 _)
    ltac:(by rewrite sort_by_key_perm)) as Hc.
  by destruct (foldl compose_step (f, [], 0) (sort_by_key p)) as [[f' k] q].
Qed.

Section Stage.
Context {S T : Type} (emit : N -> S -> MemoryBudget -> Result (S * MemoryBudget)).
Context (inv : S -> Prop) (abs : S -> T) (stp : T -> N -> T) (held : S -> N).
Hypothesis Hemit : emits emit inv abs stp held.

Definition stage_inv (st : Nfc * S) : Prop := nfc_inv (fst st) /\ inv (snd st).
Definition stage_held (st : Nfc * S) : N := nfc_held (fst st) + held (snd st).
Definition stage_abs (st : Nfc * S) : list Scalar * T := (items (fst st), abs (snd st)).
Definition stage_step (st : list Scalar * T) (v : N) : list Scalar * T :=
  (snd (machine_step (fst st) v), foldl stp (snd st) (fst (machine_step (fst st) v))).

Lemma emit_all_emits p s b : Forall (fun s => scalar (value s)) p -> inv s -> budget_wf b -> held s <= used b ->
  clean (emit_all emit p s b) /\
  forall s' b', emit_all emit p s b = Ok (s', b') ->
    inv s' /\ budget_wf b' /\ limit b' = limit b /\ held s <= held s' /\
    used b' + held s = used b + held s' /\ abs s' = foldl stp (abs s) (value <$> p).
Proof.
  intros Hp Hi Hb Hh.
  assert (E : emit_all emit p s b = foldM (fun '(s, b) c => emit c s b) (s, b) (value <$> p)).
  { unfold emit_all. clear. revert s b; induction p as [|c p IH]; intros s b; [done|]. cbn.
    destruct (emit (value c) s b) as [[s1 b1]| |]; cbn; [apply IH|done|done]. }
  rewrite E. apply emits_foldM; try done. by rewrite list.Forall_fmap.
Qed.

Lemma append_emits self v s b : scalar v -> nfc_inv self -> inv s -> budget_wf b ->
  clean (append grow self v s b) /\
  forall self' s' b', append grow self v s b = Ok (self', s', b') ->
    nfc_inv self' /\ s' = s /\ budget_wf b' /\ limit b' = limit b /\ nfc_held self <= nfc_held self' /\
    used b' + nfc_held self = used b + nfc_held self' /\
    items self' = items self ++ [mkScalar v (len (items self))].
Proof.
  intros Hv Hn Hi Hb. unfold append. split.
  - apply clean_if; [done|]. intros _. apply clean_bind; [by apply reserve_clean|]. intros [? ?] _. done.
  - intros self' s' b' H. apply if_err_ok in H as [_ H]. apply rbind_ok in H as ([w b1] & Hr & H).
    apply Ok_inj in H. injection H as <- <- <-.
    apply reserve_ok in Hr as (E & _ & ? & _ & Hu & ? & ? & _); [|done..].
    unfold nfc_inv, nfc_held, vec_push. cbn [items capacity]. rewrite E, Hu. split_and!; try done; try nia.
    apply Forall_app_2; [done|by constructor].
Qed.

Lemma decomposed_emits :
  emits (fun v st b => decomposed grow emit (fst st) v (snd st) b) stage_inv stage_abs stage_step stage_held.
Proof.
  intros v [self s] b Hv [Hn Hi] Hb Hh. cbn [fst snd] in *. unfold stage_held in Hh. cbn [fst snd] in Hh.
  unfold decomposed, stage_inv, stage_abs, stage_step, stage_held, machine_step. cbn [fst snd].
  destruct (_ && _) eqn:Ec.
  - change (match compose (items self) with
            | [first] => if class first =? 0 then (fun j => mkScalar j (order first)) <$> compose_pair (value first) v else None
            | _ => None end) with (joined_with (compose (items self)) v).
    destruct (joined_with (compose (items self)) v) as [j|] eqn:Ej.
    + split; [done|]. intros [self' s'] b' [= <- <- <-]. cbn [fst snd items foldl]. split_and!; try done.
      unfold nfc_inv. cbn. constructor; [|done]. unfold joined_with in Ej.
      destruct (compose (items self)) as [|f [|? ?]]; try done. destruct (class f =? 0); [|done].
      destruct (compose_pair (value f) v) eqn:Ep; [|done]. injection Ej as <-. by eapply compose_scalar.
    + assert (Hp : Forall (fun s => scalar (value s)) (compose (items self))) by (by apply compose_scalars).
      destruct (emit_all_emits (compose (items self)) s b) as [Hs Hok]; try done; [lia|]. split.
      * apply clean_bind; [done|]. intros [s1 b1] H1. destruct (Hok _ _ H1) as (? & ? & _).
        apply append_emits; done || constructor.
      * intros [self' s'] b' H. apply rbind_ok in H as ([s1 b1] & H1 & H).
        destruct (Hok _ _ H1) as (? & ? & ? & ? & ? & E).
        apply (append_emits (mkVec [] (capacity self))) in H as (? & -> & ? & ? & Hc & Hu & E'); [|done || constructor..].
        unfold nfc_held in *. cbn [fst snd capacity items] in *. rewrite E, E'. cbn.
        split_and!; try done; lia || congruence.
  - destruct (append_emits self v s b) as [Hs Hok]; try done. split; [done|].
    intros [self' s'] b' H. destruct (Hok _ _ _ H) as (? & -> & ? & ? & ? & ? & E). cbn [fst snd foldl].
    rewrite E. split_and!; try done; lia.
Qed.

Definition push_step (st : list Scalar * T) (v : N) : list Scalar * T :=
  foldl stage_step st (decompose_canonical v).
Lemma push_emits :
  emits (fun v st b => push grow emit (fst st) v (snd st) b) stage_inv stage_abs push_step stage_held.
Proof.
  intros v st b Hv Hi Hb Hh.
  assert (E : push grow emit (fst st) v (snd st) b
    = foldM (fun '(st, b) v => decomposed grow emit (fst st) v (snd st) b) (st, b) (decompose_canonical v)).
  { unfold push. destruct st as [self s]. cbn [fst snd]. clear.
    generalize (decompose_canonical v) as l. intros l. revert self s b.
    induction l as [|c l IH]; intros; [done|]. cbn.
    destruct (decomposed grow emit self c s b) as [[[self1 s1] b1]| |]; cbn; [apply IH|done|done]. }
  rewrite E. apply emits_foldM; try done; [apply decomposed_emits|by apply decompose_scalar].
Qed.

Lemma finish_emits self s b : nfc_inv self -> inv s -> budget_wf b -> nfc_held self + held s <= used b ->
  clean (finish emit self s b) /\
  forall self' s' b', finish emit self s b = Ok (self', s', b') ->
    inv s' /\ budget_wf b' /\ limit b' = limit b /\ held s <= held s' /\ capacity self' = capacity self /\
    used b' + held s = used b + held s' /\ abs s' = foldl stp (abs s) (value <$> compose (items self)).
Proof.
  intros Hn Hi Hb Hh. unfold finish.
  assert (Hp : Forall (fun s => scalar (value s)) (compose (items self))) by (by apply compose_scalars).
  destruct (emit_all_emits (compose (items self)) s b) as [Hs Hok]; try done; [lia|]. split.
  - apply clean_bind; [done|]. intros [? ?] _. done.
  - intros self' s' b' H. apply rbind_ok in H as ([s1 b1] & H1 & H). apply Ok_inj in H. injection H as <- <- <-.
    destruct (Hok _ _ H1) as (? & ? & ? & ? & ? & ->). by split_and!.
Qed.

(** A stage emits the NFC of the text it was given. *)
Lemma stage_nfc t text :
  let '(p, t') := foldl push_step ([], t) text in
  foldl stp t' (value <$> compose p) = foldl stp t (nfc text).
Proof.
  assert (Hc : forall l st, foldl push_step st l = foldl stage_step st (l ≫= decompose_canonical)).
  { induction l as [|c l IH]; intros st; [done|]. rewrite bind_cons, foldl_app. cbn [foldl]. by rewrite IH. }
  rewrite Hc. unfold nfc. generalize (text ≫= decompose_canonical) as l. intros l.
  assert (Hs : exists o, streamed l o (fst (foldl stage_step ([], t) l)) /\
    snd (foldl stage_step ([], t) l) = foldl stp t o).
  { induction l as [|c l IH] using rev_ind.
    - exists []. split; [|done]. split; [done|]. by left.
    - destruct IH as (o & Ho & Hs). rewrite foldl_app. cbn [foldl].
      destruct (foldl stage_step ([], t) l) as [p t']. cbn [fst snd] in *. unfold stage_step; cbn [fst snd].
      exists (o ++ fst (machine_step p c)). split; [apply streamed_step; [apply compose_starter|done]|].
      by rewrite Hs, foldl_app. }
  destruct Hs as (o & Ho & Hs). destruct (foldl stage_step ([], t) l) as [p t']. cbn [fst snd] in *.
  rewrite <- (streamed_finish compose_starter _ _ _ Ho), foldl_app. by rewrite Hs.
Qed.
End Stage.

(** ** The two stages of [profile_text] *)
Variable lim : N.
Definition text_inv (bytes : Vec byte) : Prop := utf8_valid (items bytes) = true /\ len (items bytes) <= lim.
Definition text_step (bytes : list byte) (c : N) : list byte := bytes ++ encode_utf8 c.
Lemma output_emits : emits (output grow lim) text_inv items text_step capacity.
Proof.
  intros c bytes b Hc [Hv Hl] Hb Hh. unfold output. split.
  - apply clean_bind; [by apply reserve_clean|]. intros [? ?] _. done.
  - intros s' b' H. apply rbind_ok in H as ([w b1] & Hr & H). apply Ok_inj in H. injection H as <- <-.
    apply reserve_ok in Hr as (E & _ & ? & ? & Hu & ? & ? & _); [|done..].
    unfold text_inv, text_step, vec_extend. cbn [items capacity]. rewrite E, len_app.
    split_and!; try done; [|lia]. rewrite utf8_valid_app by done. by rewrite <- (app_nil_r (encode_utf8 c)), encode_utf8_valid.
Qed.
Lemma text_steps bytes l : foldl text_step bytes l = bytes ++ (l ≫= encode_utf8).
Proof.
  revert bytes; induction l as [|c l IH]; intros bytes; cbn [foldl]; [by rewrite app_nil_r|].
  rewrite IH. unfold text_step. rewrite bind_cons. by rewrite app_assoc.
Qed.

Lemma fold_ok v : clean (fold v) /\
  forall v', fold v = Ok v' -> scalar v -> v' = simple_fold v /\ scalar v'.
Proof.
  unfold fold, simple_fold. destruct (case_folded v) as [m|]; cbn [default from_option].
  - split; [by apply ok_or_clean|]. intros v' H _. apply ok_or_ok, char_from_u32_some in H. naive_solver.
  - split; [done|]. naive_solver.
Qed.
Definition folded_step (st : list Scalar * list byte) (c : N) : list Scalar * list byte :=
  push_step text_step st (simple_fold c).
Lemma folded_emits :
  emits (folded grow lim) (stage_inv text_inv) (stage_abs items) folded_step (stage_held capacity).
Proof.
  intros c st b Hc Hi Hb Hh. unfold folded. destruct (fold_ok c) as [Hs Hok]. split.
  - apply clean_bind; [done|]. intros v Hv. destruct (Hok v Hv Hc) as [-> ?].
    by apply (push_emits _ _ _ _ _ output_emits).
  - intros s' b' H. apply rbind_ok in H as (v & Hv & H). destruct (Hok v Hv Hc) as [-> ?].
    by apply (push_emits _ _ _ _ _ output_emits) in H.
Qed.
Lemma folded_steps st l : foldl folded_step st l = foldl (push_step text_step) st (simple_fold <$> l).
Proof. revert st; induction l as [|c l IH]; intros st; [done|]. cbn. by rewrite IH. Qed.

Lemma release_emits (self : Nfc) b : budget_wf b -> nfc_held self <= used b ->
  exists b', nfc_release self b = Ok b' /\ budget_wf b' /\ limit b' = limit b /\
    used b' + nfc_held self = used b.
Proof.
  intros (? & ? & ?) Hh. unfold nfc_release, nfc_held in *.
  rewrite checked_mul_fits by lia. cbn [or_panic rbind]. unfold try_budget, release.
  rewrite checked_sub_fits by lia. cbn. eexists. split; [done|]. unfold budget_wf; cbn. lia.
Qed.

Lemma profile_text_general text b bytes0 b0 : utf8_valid text = true -> is_ascii text = false ->
  budget_wf b -> reserve grow 1 (vec_new (A := byte)) (N.min (len text) lim) lim b = Ok (bytes0, b0) ->
  let m := profile_text grow lim text b in
  clean m /\
  forall out peak b', m = Ok (out, peak, b') ->
    items out = profile_spec text /\ len (items out) <= lim /\ utf8_valid (items out) = true /\
    used b' = used b + capacity out /\ used b' <= peak <= limit b /\ limit b' = limit b /\ budget_wf b'.
Proof.
  intros Htext Hascii Hwf Hr. cbn zeta. unfold profile_text. rewrite Hr, Hascii. cbn [rbind].
  apply reserve_ok in Hr as (E0 & _ & _ & _ & Hu0 & Hl0 & Hwf0 & _); [|done..].
  cbn [vec_new items capacity] in E0, Hu0. rewrite N.sub_0_r, N.mul_1_r in Hu0.
  assert (Hti : text_inv bytes0) by (unfold text_inv; rewrite E0; split; done || apply N.le_0_l).
  assert (E : forall st b, foldM (fun '(first, s, budget) v => push grow (folded grow lim) first v s budget) (st, b) (chars text)
    = foldM (fun '(st, b) v => push grow (folded grow lim) (fst st) v (snd st) b) (st, b) (chars text)).
  { intros. apply foldM_ext. by intros [[? ?] ?] ? _. }
  rewrite E. clear E.
  destruct (emits_foldM _ _ _ _ _ (chars text) (vec_new, (vec_new, bytes0)) b0
    (push_emits _ _ _ _ _ folded_emits)) as [Hs1 Hok1]; try done.
  { by apply chars_scalar. }
  { split; [constructor|]. by split; [constructor|]. }
  { unfold stage_held, nfc_held. cbn. lia. }
  destruct (foldM _ _ _) as [[[first s1] b1]|e|] eqn:H1;
    [|split; [by apply (clean_err e Hs1)|done]|by destruct Hs1]. clear Hs1. cbn [rbind].
  destruct (Hok1 _ _ eq_refl) as ([Hn1 Hi1] & Hw1 & Hl1 & _ & Hu1 & Habs1). clear Hok1 H1.
  unfold stage_held in Hu1. cbn [fst snd] in *.
  destruct (finish_emits _ _ _ _ _ folded_emits first s1 b1) as [Hs2 Hok2]; try done.
  { unfold stage_held, nfc_held in *. cbn in *. lia. }
  destruct (finish (folded grow lim) first s1 b1) as [[[first2 [second bytes]] b2]|e|] eqn:H2;
    [|split; [by apply (clean_err e Hs2)|done]|by destruct Hs2].
  clear Hs2. cbn [rbind].
  destruct (Hok2 _ _ _ eq_refl) as ([Hn2 Hi2] & Hw2 & Hl2 & _ & Hc2 & Hu2 & Habs2). clear Hok2 H2.
  unfold stage_held in Hu2. cbn [fst snd] in *.
  destruct (finish_emits _ _ _ _ _ output_emits second bytes b2) as [Hs3 Hok3]; try done.
  { unfold stage_held, nfc_held in *. cbn in *. lia. }
  destruct (finish (output grow lim) second bytes b2) as [[[second3 bytes3] b3]|e|] eqn:H3;
    [|split; [by apply (clean_err e Hs3)|done]|by destruct Hs3].
  clear Hs3. cbn [rbind].
  destruct (Hok3 _ _ _ eq_refl) as ([Hv3 Hlen3] & Hw3 & Hl3 & _ & Hc3 & Hu3 & Habs3). clear Hok3 H3.
  destruct (release_emits first2 b3) as (b4 & -> & Hw4 & Hl4 & Hu4); [done| |].
  { unfold stage_held, nfc_held in *. cbn in *. lia. }
  cbn [rbind]. destruct (release_emits second3 b4) as (b5 & -> & Hw5 & Hl5 & Hu5); [done| |].
  { unfold stage_held, nfc_held in *. cbn in *. lia. }
  cbn [rbind]. rewrite Hv3. split; [done|].
  intros out peak b' [= <- <- <-].
  unfold stage_held, nfc_held in *. cbn [fst snd vec_new capacity] in *.
  assert (Htxt : items bytes3 = profile_spec text).
  { rewrite Habs3. unfold stage_abs in *. cbn [fst snd vec_new items] in *.
    pose proof (stage_nfc folded_step ([], items bytes0) (chars text)) as F1.
    rewrite <- Habs1 in F1. rewrite <- Habs2 in F1. rewrite folded_steps in F1.
    pose proof (stage_nfc text_step (items bytes0) (simple_fold <$> nfc (chars text))) as F2.
    rewrite <- F1 in F2. rewrite F2, text_steps, E0. done. }
  pose proof Hw3 as (? & ? & ?). split_and!; try done; lia.
Qed.
End Effects.

(** * The profile of a text *)
Section Ascii.
Context `{HU : Unicode} {HA : UnicodeAscii}.
Abbreviation ascii := (Forall (fun c => c < 128)).

Lemma reorder_ascii l : ascii l -> reorder l = l.
Proof.
  induction 1 as [|c l Hc _ IH]; [done|]. cbn. fold (reorder l). rewrite IH.
  apply reorder_insert_zero. by apply ascii_class.
Qed.
Lemma decompose_ascii l : ascii l -> l ≫= decompose_canonical = l.
Proof. induction 1 as [|c l Hc _ IH]; [done|]. by rewrite bind_cons, ascii_decompose, IH by done. Qed.
Lemma composition_ascii l before s : ascii l -> s < 128 ->
  composition_text (foldl composition_step (before, Some s, []) l) = before ++ s :: l.
Proof.
  intros Hl. revert before s. induction Hl as [|c l Hc _ IH]; intros before s Hs; [done|]. cbn.
  rewrite ascii_compose, ascii_class by done. cbn. rewrite IH by done. by rewrite <- app_assoc.
Qed.
Lemma nfc_ascii l : ascii l -> nfc l = l.
Proof.
  intros Hl. unfold nfc. rewrite decompose_ascii, reorder_ascii by done. destruct Hl as [|c l Hc Hl]; [done|].
  cbn. rewrite ascii_class by done. cbn. by apply (composition_ascii l []).
Qed.
Lemma profile_ascii text : is_ascii text = true -> profile_spec text = ascii_lower text.
Proof.
  intros Ht. unfold profile_spec. rewrite ascii_chars by done.
  assert (Hb : ascii (byte_val <$> text)).
  { induction text as [|b l IH]; [constructor|]. apply is_ascii_cons in Ht as [? ?].
    constructor; [done|by apply IH]. }
  assert (Hf : simple_fold <$> (byte_val <$> text) = byte_val <$> ascii_lower text).
  { unfold ascii_lower. rewrite <- !list_fmap_compose. apply list_fmap_ext. intros i b Hi.
    assert (byte_val b < 128).
    { rewrite list.Forall_fmap in Hb. apply list_elem_of_lookup_2 in Hi.
      exact (proj1 (list.Forall_forall _ _) Hb b Hi). }
    cbn. unfold simple_fold, to_ascii_lowercase. rewrite ascii_fold by done.
    destruct (_ && _) eqn:E; [|done]. apply andb_true_iff in E as [?%N.leb_le ?%N.leb_le].
    by rewrite byte_val_of_small by lia. }
  assert (Hb' : ascii (byte_val <$> ascii_lower text)).
  { pose proof (is_ascii_lower text Ht) as Hl. clear Hf Hb Ht. induction (ascii_lower text) as [|b l IH]; [constructor|].
    apply is_ascii_cons in Hl as [? ?]. constructor; [done|by apply IH]. }
  rewrite (nfc_ascii (byte_val <$> text)) by done. rewrite Hf, nfc_ascii, ascii_encode by done.
  clear. rewrite <- list_fmap_compose. induction (ascii_lower text) as [|b l IH]; [done|]. cbn.
  rewrite byte_of_val. by f_equal.
Qed.
End Ascii.

Section Properties.
Context `{HU : Unicode} {HT : UnicodeTables} {HA : UnicodeAscii} (grow : N -> option N).

Lemma profile_text_cases (Hg : forall n c, grow n = Some c -> n <= c) lim text b :
  utf8_valid text = true -> budget_wf b ->
  clean (profile_text grow lim text b) /\
  forall out peak b', profile_text grow lim text b = Ok (out, peak, b') ->
    items out = profile_spec text /\ len (items out) <= lim /\ utf8_valid (items out) = true /\
    used b' = used b + capacity out /\ used b' <= peak <= limit b /\ limit b' = limit b /\ budget_wf b'.
Proof.
  intros Ht Hb.
  destruct (reserve grow 1 (vec_new (A := byte)) (N.min (len text) lim) lim b) as [[bytes b0]|e|] eqn:Hr.
  - destruct (is_ascii text) eqn:Ea; [|by apply (profile_text_general grow Hg lim text b bytes b0)].
    unfold profile_text. rewrite Hr, Ea. cbn [rbind].
    apply reserve_ok in Hr as (E0 & _ & _ & _ & Hu & Hl & Hw & _); [|done..].
    cbn [vec_new items capacity] in *. destruct (N.ltb_spec lim (len text)); [done|].
    unfold vec_extend. cbn [items capacity]. rewrite E0. cbn [app].
    rewrite ascii_valid by by apply is_ascii_lower. split; [done|].
    intros out peak b' [= <- <- <-]. cbn [items capacity]. rewrite profile_ascii, len_ascii_lower by done.
    rewrite ascii_valid by by apply is_ascii_lower.
    pose proof Hw as (? & ? & ?). split_and!; done || lia.
  - unfold profile_text. rewrite Hr. cbn [rbind]. split; [|done].
    pose proof (reserve_clean grow 1 (vec_new (A := byte)) (N.min (len text) lim) lim b Hb) as Hc.
    rewrite Hr in Hc. by apply (clean_err e Hc).
  - pose proof (reserve_clean grow 1 (vec_new (A := byte)) (N.min (len text) lim) lim b Hb) as Hc.
    rewrite Hr in Hc. by destruct Hc.
Qed.
End Properties.

(** the streaming two-pass normalizer computes the profile of UAX #15: whatever
    the text, a result is NFC of the simple case folding of NFC, as whole-text
    decomposition, mark reordering and left-to-right composition define it, on the
    borrowed ASCII path as on the general one; it is valid UTF-8 within its limit. *)
Theorem profile_text_exact `{UnicodeTables} `{!UnicodeAscii} grow lim text b out peak b' :
  (forall n c, grow n = Some c -> n <= c) -> utf8_valid text = true -> budget_wf b ->
  profile_text grow lim text b = Ok (out, peak, b') ->
  items out = profile_spec text /\ utf8_valid (items out) = true /\ len (items out) <= lim.
Proof. intros Hg Ht Hb Hr. by apply (profile_text_cases grow Hg lim text b) in Hr as (? & ? & ? & _). Qed.
(** normalization accounts for its memory and has no hidden failure: it never
    panics, its own text is never an invalid document, the scratch of both passes is
    given back so that only the capacity of the result stays charged, and the
    reported peak bounds it and stays within the budget. *)
Theorem profile_text_accounts `{UnicodeTables} `{!UnicodeAscii} grow lim text b :
  (forall n c, grow n = Some c -> n <= c) -> utf8_valid text = true -> budget_wf b ->
  profile_text grow lim text b <> Panic /\ profile_text grow lim text b <> Err InvalidDocument /\
  forall out peak b', profile_text grow lim text b = Ok (out, peak, b') ->
    used b' = used b + capacity out /\ used b' <= peak <= limit b /\ limit b' = limit b.
Proof.
  intros Hg Ht Hb. destruct (profile_text_cases grow Hg lim text b Ht Hb) as [[? ?] Hok].
  split_and!; [done..|]. intros out peak b' Hr. by apply Hok in Hr as (_ & _ & _ & ? & ? & ? & _).
Qed.
(** ** At concrete inputs, with the sample tables *)
Import Sample.
(** "Cafe" with a dot below and an acute accent in the wrong order, and "E" + acute. *)
Definition sample_text : list byte :=
  [0x43; 0x61; 0x66; 0x65; 0x301; 0x323; 0x45; 0x301] ≫= encode_utf8.
Definition sample_profile : list byte := [0x63; 0x61; 0x66; 0xe9; 0x323; 0xe9] ≫= encode_utf8.
Lemma profile_text_exact_witness :
  items (mkVec sample_profile 11) = profile_spec sample_text /\
  utf8_valid (items (mkVec sample_profile 11)) = true /\ len (items (mkVec sample_profile 11)) <= 64.
Proof.
  apply (profile_text_exact Some 64 sample_text (budget_new 4096) (mkVec sample_profile 11) 75 (mkBudget 4096 11 75)).
  - intros n c [=]; lia.
  - by vm_compute.
  - by split_and!.
  - vm_compute. reflexivity.
Defined.
Lemma profile_text_accounts_witness :
  profile_text Some 64 sample_text (budget_new 4096) = Ok (mkVec sample_profile 11, 75, mkBudget 4096 11 75) /\
  used (mkBudget 4096 11 75) = used (budget_new 4096) + capacity (mkVec sample_profile 11).
Proof.
  assert (E : profile_text Some 64 sample_text (budget_new 4096) = Ok (mkVec sample_profile 11, 75, mkBudget 4096 11 75))
    by (vm_compute; reflexivity).
  split; [exact E|].
  destruct (profile_text_accounts Some 64 sample_text (budget_new 4096)) as (_ & _ & H).
  - intros n c [=]; lia.
  - by vm_compute.
  - by split_and!.
  - exact (proj1 (H _ _ _ E)).
Defined.
