(* ===== verification/Analysis.v ===== *)
(** Documents as tokens: [src/crates/pin-core/src/analysis.rs].

    [analyze] normalizes a text and records the byte range of every word; [token] and
    [tokens] slice the normalized text again, which would panic off a character
    boundary.  The theorem [analyze_exact] says an analyzed document is the word list
    of the text's profile, and that nothing on the way panics. *)
From S2P Require Export Normalize.

Definition PROFILE_ID : N := 1.

Record AnalysisLimits : Type := mkAnalysisLimits {
  input_bytes : N;
  normalized_bytes : N;
  tokens_limit : N;
  term_bytes : N;
  memory_bytes : N;
}.
(** [AnalysisLimits::default] *)
Definition default_limits : AnalysisLimits :=
  mkAnalysisLimits (2 ^ 20) (2 * 2 ^ 20) 262144 1024 (8 * 2 ^ 20).

Record TokenRange : Type := mkTokenRange { start : N; end_ : N }.
Definition token_range_size : N := 8.
Record Token : Type := mkToken { term : list byte; position : N }.
Record Analyzed : Type := mkAnalyzed {
  normalized : Vec byte;
  ranges : Vec TokenRange;
  retained_bytes : N;
  peak_bytes : N;
}.

Section Analysis.
Context `{Unicode} (grow : N -> option N).

(** [check_input] *)
Definition check_input (text : list byte) (limits : AnalysisLimits) : Result unit :=
  if negb unicode_16 then Err InvalidProfile else
  if input_bytes limits <? len text then Err (Limit "document bytes") else Ok tt.

(** [u32::try_from(n).map_err(|_| Error::Limit(what))] *)
Definition check_u32 (n : N) (what : string) : Result unit :=
  if u32_max <? n then Err (Limit what) else Ok tt.

(** The loop body of [analyze]. *)
Definition push_token (limits : AnalysisLimits) (st : Vec TokenRange * MemoryBudget) (word : N * list byte)
  : Result (Vec TokenRange * MemoryBudget) :=
  let '(tokens, budget) := st in
  let '(start, term) := word in
  if term_bytes limits <? len term then Err (Limit "term bytes") else
  let* '(tokens, budget) := reserve grow token_range_size tokens 1 (tokens_limit limits) budget in
  let* end_ := add_w usize start (len term) in
  Ok (vec_push tokens (mkTokenRange (trunc 32 start) (trunc 32 end_)), budget).

(** [Analyzed::analyze] *)
Definition analyze (text : list byte) (limits : AnalysisLimits) : Result Analyzed :=
  let* _ := check_input text limits in
  let budget := budget_new (memory_bytes limits) in
  let* '(normalized, peak, budget) := profile_text grow (normalized_bytes limits) text budget in
  let* _ := check_u32 (len (items normalized)) "normalized bytes" in
  let* '(tokens, budget) := foldM (push_token limits) (vec_new, budget) (word_indices (items normalized)) in
  Ok (mkAnalyzed normalized tokens (used budget) (N.max peak (used budget))).
End Analysis.

(** [Analyzed::profile], [len], [is_empty] *)
Definition profile (self : Analyzed) : N := PROFILE_ID.
Definition token_count (self : Analyzed) : N := trunc 32 (len (items (ranges self))).
Definition no_tokens (self : Analyzed) : bool := bool_decide (items (ranges self) = []).

(** The closure of [token] and [tokens]: slicing the [str] can panic. *)
Definition token_at {E} (self : Analyzed) (index : N) (range : TokenRange) : res E Token :=
  let* term := or_panic (str_slice (items (normalized self)) (start range) (end_ range)) in
  Ok (mkToken term (trunc 32 index)).
(** [Analyzed::token] *)
Definition token {E} (self : Analyzed) (i : N) : res E (option Token) :=
  match index (items (ranges self)) i with
  | Some range => let* t := token_at self i range in Ok (Some t)
  | None => Ok None
  end.
(** [Analyzed::tokens]: what each step of the iterator yields. *)
Definition tokens {E} (self : Analyzed) : list (res E Token) :=
  imap (fun i range => token_at self (N.of_nat i) range) (items (ranges self)).

(** ** Specification: the words of the text's profile *)
Definition document_words `{Unicode} (text : list byte) : list (list byte) := unicode_words (profile_spec text).
(** [a] is the analyzed form of the word list [ws]. *)
Definition analyzed_words (a : Analyzed) (ws : list (list byte)) : Prop :=
  len ws < 2 ^ 32 /\ len (items (ranges a)) = len ws /\
  forall i w, ws !! i = Some w -> exists r, items (ranges a) !! i = Some r /\
    str_slice (items (normalized a)) (start r) (end_ r) = Some w.

Section AnalyzedLemmas.
Context (a : Analyzed) (ws : list (list byte)) (Ha : analyzed_words a ws).

Lemma token_count_words : token_count a = len ws.
Proof. destruct Ha as (? & E & _). unfold token_count. rewrite E. by apply trunc_small. Qed.
Lemma token_words {E} i : token (E := E) a i = Ok ((fun w => mkToken w i) <$> index ws i).
Proof.
  destruct Ha as (Hl & El & Hw). unfold token, index.
  destruct (ws !! N.to_nat i) as [w|] eqn:Ew.
  - destruct (Hw _ _ Ew) as (r & -> & Hs). unfold token_at. rewrite Hs. cbn.
    apply lookup_lt_Some in Ew. rewrite trunc_small; [done|]. unfold len in Hl. lia.
  - apply lookup_ge_None in Ew. rewrite (proj2 (lookup_ge_None _ _)); [done|]. unfold len in El. lia.
Qed.
Lemma tokens_words {E} : tokens (E := E) a = imap (fun i w => Ok (mkToken w (N.of_nat i))) ws.
Proof.
  destruct Ha as (Hl & El & Hw). apply list_eq. intros i. unfold tokens. rewrite !list_lookup_imap.
  destruct (ws !! i) as [w|] eqn:Ew; cbn.
  - destruct (Hw _ _ Ew) as (r & -> & Hs). cbn. unfold token_at. rewrite Hs. cbn.
    apply lookup_lt_Some in Ew. rewrite trunc_small; [done|]. unfold len in Hl. lia.
  - apply lookup_ge_None in Ew. rewrite (proj2 (lookup_ge_None _ _)); [done|]. unfold len in El. lia.
Qed.
End AnalyzedLemmas.

Lemma str_slice_bounds l a b w : str_slice l a b = Some w -> a <= b /\ b <= len l.
Proof. intros Hs. apply str_slice_slice, slice_ok in Hs. naive_solver. Qed.

Section AnalyzeLemmas.
Context `{HU : Unicode} (grow : N -> option N).
Context (Hg : forall n c, grow n = Some c -> n <= c).

Definition word_range (word : N * list byte) : TokenRange := mkTokenRange (fst word) (fst word + len (snd word)).

Lemma push_token_safe limits v b i w : budget_wf b -> i + len w < 2 ^ usize ->
  safe (push_token grow limits (v, b) (i, w)).
Proof.
  intros Hb Hi. unfold push_token. apply safe_if; [done|]. intros _.
  apply safe_bind; [by apply reserve_safe|]. intros [v1 b1] _.
  unfold add_w. rewrite checked_add_fits by done. done.
Qed.
Lemma push_token_ok limits v b i w v' b' : budget_wf b -> i + len w < 2 ^ 32 ->
  push_token grow limits (v, b) (i, w) = Ok (v', b') ->
  items v' = items v ++ [word_range (i, w)] /\ len w <= term_bytes limits /\
  len (items v) + 1 <= tokens_limit limits /\ capacity v <= capacity v' /\
  used b' = used b + (capacity v' - capacity v) * token_range_size /\ limit b' = limit b /\ budget_wf b'.
Proof.
  intros Hb Hi H. unfold push_token in H. apply if_err_ok in H as [Ht H]. apply N.ltb_ge in Ht.
  apply rbind_ok in H as ([v1 b1] & Hr & H). unfold add_w in H.
  apply rbind_ok in H as (e & He & H). apply or_panic_ok, checked_add_some in He as [-> _].
  apply Ok_inj in H. injection H as <- <-.
  apply reserve_ok in Hr as (E & _ & ? & ? & ? & ? & ? & _); [|done..].
  unfold vec_push, word_range. cbn [items capacity fst snd]. rewrite !trunc_small, E by lia. by split_and!.
Qed.

Definition words_in (text : list byte) (wi : list (N * list byte)) : Prop :=
  forall i w, (i, w) ∈ wi -> str_slice text i (i + len w) = Some w.
Lemma words_in_lt text wi i w : words_in text wi -> len text < 2 ^ 32 -> (i, w) ∈ wi -> i + len w < 2 ^ 32.
Proof. intros Hw Hl Hi. apply Hw, str_slice_bounds in Hi. lia. Qed.

Lemma push_tokens_ok limits text wi v b :
  words_in text wi -> len text < 2 ^ 32 -> budget_wf b ->
  safe (foldM (push_token grow limits) (v, b) wi) /\
  forall v' b', foldM (push_token grow limits) (v, b) wi = Ok (v', b') ->
    items v' = items v ++ (word_range <$> wi) /\ Forall (fun iw => len (snd iw) <= term_bytes limits) wi /\
    (len (items v) <= tokens_limit limits -> len (items v') <= tokens_limit limits) /\
    capacity v <= capacity v' /\
    used b' = used b + (capacity v' - capacity v) * token_range_size /\ limit b' = limit b /\ budget_wf b'.
Proof.
  revert v b; induction wi as [|[i w] wi IH]; intros v b Hw Hl Hb.
  - split; [done|]. intros v' b' [= <- <-]. cbn. rewrite app_nil_r. split_and!; try done; lia.
  - pose proof (words_in_lt text _ i w Hw Hl (list_elem_of_here _ _)) as Hi.
    assert (Hw' : words_in text wi) by (intros ? ? ?; apply Hw; by right).
    cbn [foldM]. split.
    + apply safe_bind; [apply push_token_safe; [done|]; eapply N.lt_trans; [apply Hi|done]|]. intros [v1 b1] H1.
      apply push_token_ok in H1 as (_ & _ & _ & _ & _ & _ & ?); [|done..]. by apply IH.
    + intros v' b' H. apply rbind_ok in H as ([v1 b1] & H1 & H).
      apply push_token_ok in H1 as (E1 & ? & ? & ? & ? & ? & ?); [|done..].
      destruct (IH v1 b1) as [_ IH']; [done..|]. apply IH' in H as (E & ? & Hlim & ? & ? & ? & ?).
      rewrite E, E1, <- app_assoc. split_and!; try done; [by constructor| |lia|nia|congruence].
      intros _. rewrite E, E1, <- app_assoc, (len_app (items v)) in Hlim.
      rewrite len_cons, len_nil in Hlim. apply Hlim. lia.
Qed.
End AnalyzeLemmas.

(** The types of [AnalysisLimits]. *)
Definition limits_wf (l : AnalysisLimits) : Prop := tokens_limit l < 2 ^ 32 /\ memory_bytes l < 2 ^ usize.

Section Analyze.
Context `{HU : Unicode} {HT : UnicodeTables} {HA : UnicodeAscii} {HW : UnicodeWords} (grow : N -> option N).
Context (Hg : forall n c, grow n = Some c -> n <= c).

Lemma budget_new_wf n : n < 2 ^ usize -> budget_wf (budget_new n).
Proof. intros. unfold budget_wf; cbn. lia. Qed.

Lemma words_in_indices l : utf8_valid l = true -> words_in l (word_indices l).
Proof. intros Hv i w Hi. by apply words_slice. Qed.

Lemma analyze_safe text limits : utf8_valid text = true -> limits_wf limits -> safe (analyze grow text limits).
Proof.
  intros Ht [_ Hm]. pose proof (budget_new_wf _ Hm) as Hb. unfold analyze, check_input, check_u32.
  apply safe_bind; [by repeat safe_step|]. intros _ _.
  destruct (profile_text_cases grow Hg (normalized_bytes limits) text _ Ht Hb) as [[Hs _] Hok].
  apply safe_bind; [done|]. intros [[norm peak] b1] H1.
  destruct (Hok _ _ _ H1) as (_ & _ & Hv & _ & _ & _ & Hb1).
  apply safe_bind; [by repeat safe_step|]. intros u H2. apply if_err_ok in H2 as [H2 _]. apply N.ltb_ge in H2.
  unfold u32_max in H2. apply safe_bind; [|by intros [? ?]].
  apply (push_tokens_ok grow Hg limits (items norm)); [by apply words_in_indices|lia|done].
Qed.

Lemma analyze_cases text limits a : utf8_valid text = true -> limits_wf limits ->
  analyze grow text limits = Ok a ->
  unicode_16 = true /\ len text <= input_bytes limits /\
  items (normalized a) = profile_spec text /\ analyzed_words a (document_words text) /\
  Forall (fun w => len w <= term_bytes limits) (document_words text) /\
  len (document_words text) <= tokens_limit limits /\ len (items (normalized a)) < 2 ^ 32 /\
  retained_bytes a = capacity (normalized a) + capacity (ranges a) * token_range_size /\
  retained_bytes a <= peak_bytes a <= memory_bytes limits.
Proof.
  intros Ht [Hl Hm] H. pose proof (budget_new_wf _ Hm) as Hb. unfold analyze, check_input, check_u32 in H.
  apply rbind_ok in H as (u & Hc & H). apply if_err_ok in Hc as [Hu Hc]. apply if_err_ok in Hc as [Hin _].
  apply negb_false_iff in Hu. apply N.ltb_ge in Hin.
  apply rbind_ok in H as ([[norm peak] b1] & H1 & H).
  apply (profile_text_cases grow Hg) in H1 as (E & _ & Hv & Hu1 & Hp & Hlim & Hb1); [|done..].
  apply rbind_ok in H as (u2 & H2 & H). apply if_err_ok in H2 as [H2 _]. apply N.ltb_ge in H2. unfold u32_max in H2.
  apply rbind_ok in H as ([toks b2] & H3 & H). apply Ok_inj in H. subst a.
  destruct (push_tokens_ok grow Hg limits (items norm) (word_indices (items norm)) vec_new b1) as [_ Hok];
    [by apply words_in_indices|lia|done|].
  apply Hok in H3 as (Er & Hterm & Hcount & _ & Hu2 & Hlim2 & Hb2).
  cbn [vec_new items capacity app normalized ranges retained_bytes peak_bytes budget_new used limit] in *.
  assert (Ews : document_words text = snd <$> word_indices (items norm)) by by unfold document_words, unicode_words; rewrite E.
  assert (Elen : len (items toks) = len (document_words text)) by (by rewrite Er, Ews, !len_fmap).
  specialize (Hcount ltac:(apply N.le_0_l)). rewrite Elen in Hcount. pose proof Hb2 as (? & ? & ?).
  split_and!; try done; try lia.
  - split_and!; [lia|done|]. intros i w Hw. rewrite Ews, list_lookup_fmap in Hw. cbn [ranges normalized].
    destruct (word_indices (items norm) !! i) as [[at_ w']|] eqn:Ei; [|done]. cbn in Hw. injection Hw as <-.
    exists (word_range (at_, w')). rewrite Er, list_lookup_fmap, Ei. split; [done|]. cbn.
    apply words_slice; [done|]. by eapply list_elem_of_lookup_2.
  - rewrite Ews, list.Forall_fmap. exact Hterm.
Qed.
End Analyze.

(** C38: an analyzed document is the word list of its text: the normalized text is the
    profile of the input, [tokens] yields its UAX #29 words in order at positions
    0, 1, ..., [len] counts them, and every word, the count and the memory retained
    respect the limits; no input makes the analysis or a later slice of a token panic. *)
Theorem analyze_exact `{UnicodeTables} `{!UnicodeAscii} `{!UnicodeWords} grow text limits :
  (forall n c, grow n = Some c -> n <= c) -> utf8_valid text = true -> limits_wf limits ->
  analyze grow text limits <> Panic /\
  forall a, analyze grow text limits = Ok a ->
    items (normalized a) = profile_spec text /\
    tokens (E := Error) a = imap (fun i w => Ok (mkToken w (N.of_nat i))) (document_words text) /\
    token_count a = len (document_words text) /\
    Forall (fun w => len w <= term_bytes limits) (document_words text) /\
    token_count a <= tokens_limit limits /\
    retained_bytes a <= peak_bytes a <= memory_bytes limits.
Proof.
  intros Hg Ht Hl. split; [by apply analyze_safe|]. intros a Ha.
  destruct (analyze_cases grow Hg text limits a Ht Hl Ha) as (_ & _ & ? & Hw & ? & ? & _ & _ & ?).
  rewrite (token_count_words _ _ Hw). split_and!; try done; [by apply tokens_words|lia..].
Qed.

Import Sample.
(** "Big big CAT", with a fullwidth character: two spaces, three words. *)
Definition sample_document : list byte :=
  [0x42; 0x69; 0x67; 0x20; 0x62; 0x69; 0x67; 0x20; 0x43; 0x41; 0x54; 0xff01] ≫= encode_utf8.
Definition sample_limits : AnalysisLimits := mkAnalysisLimits 1024 2048 16 64 4096.
Definition sample_analyzed : Analyzed :=
  match analyze Some sample_document sample_limits with Ok a => a | _ => mkAnalyzed vec_new vec_new 0 0 end.
Lemma analyze_exact_witness :
  analyze Some sample_document sample_limits = Ok sample_analyzed /\
  token_count sample_analyzed = len (document_words sample_document) /\
  token_count sample_analyzed = 3.
Proof.
  assert (E : analyze Some sample_document sample_limits = Ok sample_analyzed) by (vm_compute; reflexivity).
  split; [exact E|].
  destruct (analyze_exact Some sample_document sample_limits) as [_ H].
  - intros n c [=]; lia.
  - by vm_compute.
  - by split.
  - destruct (H _ E) as (_ & _ & Hc & _). split; [exact Hc|]. vm_compute. reflexivity.
Defined.
