(* ===== verification/Query.v ===== *)
(** Query parsing: [src/crates/pin-core/src/query.rs].

    [parse] is an operator-precedence parser without recursion: a stack of operators,
    a stack of node indices and a flat array of nodes.  The specification is a lexer on
    the rest of the input ([lex]) and a stratified grammar ([expr]).  The model keeps
    the stacks, the depth and memory limits and every early return; the sizes of the
    Rust types are parameters ([node_size], [operator_size], [string_size]). *)
From S2P Require Export Records Analysis.

Record QueryLimits : Type := mkQueryLimits {
  q_bytes : N;
  q_nodes : N;
  q_depth : N;
  q_terms : N;
  q_term_bytes : N;
  q_memory_bytes : N;
}.
(** [QueryLimits::default] *)
Definition default_query_limits : QueryLimits := mkQueryLimits 16384 1024 64 256 1024 (2 ^ 20).

Module Kind.
Inductive t : Type :=
| None
| Term (term : list byte)
| Prefix (prefix : list byte)
| Phrase (terms : list (list byte))
| Not (child : N)
| And (left right : N)
| Or (left right : N).
End Kind.

Record Node : Type := mkNode { kind : Kind.t; depth : N }.
Record Query : Type := mkQuery {
  nodes : Vec Node;
  root : N;
  source : list byte;
  terms : N;
  query_retained : N;
}.

Module OperatorKind.
Inductive t : Type := Open | Not | And | Or.
End OperatorKind.
#[export] Instance operator_kind_eq_dec : EqDecision OperatorKind.t.
Proof. solve_decision. Defined.
Record Operator : Type := mkOperator { op_kind : OperatorKind.t; op_offset : N }.

(** [Operator::precedence] *)
Definition precedence (self : Operator) : N :=
  match op_kind self with
  | OperatorKind.Open => 0
  | OperatorKind.Or => 1
  | OperatorKind.And => 2
  | OperatorKind.Not => 3
  end.

Record Builder : Type := mkBuilder {
  b_budget : MemoryBudget;
  b_nodes : Vec Node;
  b_values : Vec N;
  b_operators : Vec Operator;
  b_terms : N;
}.
Definition set_operators (self : Builder) (ops : Vec Operator) : Builder :=
  mkBuilder (b_budget self) (b_nodes self) (b_values self) ops (b_terms self).
Definition set_values (self : Builder) (values : Vec N) : Builder :=
  mkBuilder (b_budget self) (b_nodes self) values (b_operators self) (b_terms self).
Definition set_budget (self : Builder) (budget : MemoryBudget) : Builder :=
  mkBuilder budget (b_nodes self) (b_values self) (b_operators self) (b_terms self).
Definition set_terms (self : Builder) (terms : N) : Builder :=
  mkBuilder (b_budget self) (b_nodes self) (b_values self) (b_operators self) terms.

(** [Vec::pop] and [slice::last] *)
Definition vec_pop {A} (v : Vec A) : option (A * Vec A) :=
  match reverse (items v) with
  | [] => None
  | x :: rest => Some (x, mkVec (reverse rest) (capacity v))
  end.
Definition vec_last {A} (v : Vec A) : option A := fst <$> vec_pop v.

Section Query.
Context `{Unicode} (grow : N -> option N).
(** [size_of] of [Node], [Operator] and [String]. *)
Context (node_size operator_size string_size : N).
Definition usize_size : N := 8.
Context (limits : QueryLimits).

(** [Builder::add_node] *)
Definition add_node (self : Builder) (kind : Kind.t) : Result Builder :=
  let depth_of i := let* node := or_panic (index (items (b_nodes self)) i) in Ok (depth node) in
  let* depth :=
    match kind with
    | Kind.Not child => let* d := depth_of child in Ok (checked_add 16 d 1)
    | Kind.And lhs rhs | Kind.Or lhs rhs =>
        let* l := depth_of lhs in
        let* r := depth_of rhs in
        Ok (checked_add 16 (N.max l r) 1)
    | _ => Ok (Some 1)
    end in
  let* depth := ok_or depth (Limit "query depth") in
  if q_depth limits <? depth then Err (Limit "query depth") else
  let* '(nodes, budget) := reserve grow node_size (b_nodes self) 1 (q_nodes limits) (b_budget self) in
  let* '(values, budget) := reserve grow usize_size (b_values self) 1 (q_nodes limits) budget in
  let values := vec_push values (len (items nodes)) in
  let nodes := vec_push nodes (mkNode kind depth) in
  Ok (mkBuilder budget nodes values (b_operators self) (b_terms self)).

(** [self.values.pop().ok_or(error)?] *)
Definition pop_value (self : Builder) (error : Error) : Result (N * Builder) :=
  match vec_pop (b_values self) with
  | Some (value, values) => Ok (value, set_values self values)
  | None => Err error
  end.
(** [Builder::reduce] *)
Definition reduce (self : Builder) (operator : Operator) : Result Builder :=
  let error := QuerySyntax (op_offset operator) in
  let* '(rhs, self) := pop_value self error in
  match op_kind operator with
  | OperatorKind.Not => add_node self (Kind.Not rhs)
  | OperatorKind.And => let* '(lhs, self) := pop_value self error in add_node self (Kind.And lhs rhs)
  | OperatorKind.Or => let* '(lhs, self) := pop_value self error in add_node self (Kind.Or lhs rhs)
  | OperatorKind.Open => Err error
  end.

(** [while self.operators.last().is_some_and(..) { pop; self.reduce(top)? }]; each turn
    removes an operator, so their number bounds the turns. *)
Fixpoint reduce_while (fuel : nat) (again : Operator -> bool) (self : Builder) : Result Builder :=
  match fuel with
  | O => Panic
  | S fuel =>
      match vec_pop (b_operators self) with
      | Some (top, rest) =>
          if again top then
            let* self := reduce (set_operators self rest) top in
            reduce_while fuel again self
          else Ok self
      | None => Ok self
      end
  end.
Definition operators_fuel (self : Builder) : nat := S (length (items (b_operators self))).

(** [Builder::operator] *)
Definition operator (self : Builder) (op : Operator) : Result Builder :=
  let* self :=
    match op_kind op with
    | OperatorKind.And | OperatorKind.Or =>
        reduce_while (operators_fuel self) (fun top => precedence op <=? precedence top) self
    | _ => Ok self
    end in
  let* '(ops, budget) := reserve grow operator_size (b_operators self) 1 (q_nodes limits) (b_budget self) in
  Ok (set_operators (set_budget self budget) (vec_push ops op)).

(** [Builder::close]: stop after removing the matching parenthesis. *)
Definition is_open (op : Operator) : bool := bool_decide (op_kind op = OperatorKind.Open).
Definition close (self : Builder) (offset : N) : Result Builder :=
  let* self := reduce_while (operators_fuel self) (fun top => negb (is_open top)) self in
  match vec_pop (b_operators self) with
  | Some (_, rest) => Ok (set_operators self rest)
  | None => Err (QuerySyntax offset)
  end.

(** [terms.push(copy_text(token.term, budget)?)] for every token of a phrase *)
Definition copy_terms (tokens : list (res Error Token)) (budget : MemoryBudget)
  : Result (list (list byte) * MemoryBudget) :=
  foldM (fun '(terms, budget) token =>
    let* token := token in
    let* '(text, budget) := copy_text grow (term token) budget in
    Ok (terms ++ [items text], budget)) ([], budget) tokens.

(** [Builder::literal] *)
Definition literal (self : Builder) (text : list byte) (quoted prefix : bool) (offset : N) : Result Builder :=
  let* normalized := ok_or (checked_mul usize (q_bytes limits) 4) (Limit "query bytes") in
  let* _ := check_u32 (q_terms limits) "query terms" in
  let* analyzed := analyze grow text
    (mkAnalysisLimits (q_bytes limits) normalized (q_terms limits) (q_term_bytes limits)
       (remaining (b_budget self))) in
  let count := token_count analyzed in
  if negb quoted && negb (count =? 1) then Err (QuerySyntax offset) else
  let* terms := ok_or (checked_add usize (b_terms self) count) (Limit "query terms") in
  if q_terms limits <? terms then Err (Limit "query terms") else
  let bytes := retained_bytes analyzed in
  let* budget := try_budget (charge (b_budget self) bytes) in
  let* '(kind, budget) :=
    if quoted then
      if count =? 0 then Ok (Kind.None, budget) else
      let* '(_, budget) := vector (A := list byte) grow string_size count budget in
      let* '(terms, budget) := copy_terms (tokens analyzed) budget in
      Ok (Kind.Phrase terms, budget)
    else
      let* token := token analyzed 0 in
      let* token := ok_or token (QuerySyntax offset) in
      let* '(term, budget) := copy_text grow (term token) budget in
      Ok (if prefix then Kind.Prefix (items term) else Kind.Term (items term), budget) in
  let* budget := try_budget (release budget bytes) in
  add_node (set_terms (set_budget self budget) terms) kind.

(** The bytes of a double quote, a backslash, a star and parentheses. *)
Definition quote : byte := byte_of 0x22.
Definition backslash : byte := byte_of 0x5c.
Definition star : byte := byte_of 0x2a.
Definition open_paren : byte := byte_of 0x28.
Definition close_paren : byte := byte_of 0x29.

(** The loop of [quoted]: the cursor advances in every turn. A cursor is at most the
    length of a slice, so its increments do not overflow. *)
Fixpoint quoted_loop (fuel : nat) (input : list byte) (begin cursor : N) (lim : N)
  (bytes : Vec byte) (budget : MemoryBudget) : Result (Vec byte * N * MemoryBudget) :=
  match fuel with
  | O => Panic
  | S fuel =>
      if cursor <? len input then
        let* byte := or_panic (index input cursor) in
        if bool_decide (byte = quote) then
          if utf8_valid (items bytes) then Ok (bytes, cursor + 1, budget) else Err InvalidDocument
        else if bool_decide (byte = backslash) then
          let cursor := cursor + 1 in
          let* next := ok_or (index input cursor) (QuerySyntax begin) in
          if negb (bool_decide (next = quote) || bool_decide (next = backslash))
          then Err (QuerySyntax cursor) else
          let* '(bytes, budget) := reserve grow 1 bytes 1 lim budget in
          quoted_loop fuel input begin (cursor + 1) lim (vec_push bytes next) budget
        else
          let* rest := or_panic (str_slice input cursor (len input)) in
          let* scalar := ok_or (head (chars rest)) (QuerySyntax cursor) in
          let width := len (encode_utf8 scalar) in
          let end_ := cursor + width in
          let* '(bytes, budget) := reserve grow 1 bytes width lim budget in
          let* piece := or_panic (slice input cursor end_) in
          quoted_loop fuel input begin end_ lim (vec_extend bytes piece) budget
      else Err (QuerySyntax begin)
  end.
(** [quoted] *)
Definition quoted (input : list byte) (cursor : N) (lim : N) (budget : MemoryBudget)
  : Result (Vec byte * N * MemoryBudget) :=
  quoted_loop (S (length input)) input cursor (cursor + 1) lim vec_new budget.

(** The delimiters of a bare word. *)
Definition is_delimiter (b : byte) : bool :=
  is_ascii_whitespace b || bool_decide (b = open_paren) || bool_decide (b = close_paren)
  || bool_decide (b = quote).
(** The scan of [parse] for the end of a bare word, from the rest of the input. *)
Fixpoint word_end (rest : list byte) (cursor : N) : N :=
  match rest with
  | [] => cursor
  | b :: rest' => if is_delimiter b then cursor else word_end rest' (cursor + 1)
  end.

(** The words NOT, AND and OR. *)
Definition keyword (raw : list byte) : option OperatorKind.t :=
  if bool_decide (raw = byte_of <$> [0x4e; 0x4f; 0x54]) then Some OperatorKind.Not
  else if bool_decide (raw = byte_of <$> [0x41; 0x4e; 0x44]) then Some OperatorKind.And
  else if bool_decide (raw = byte_of <$> [0x4f; 0x52]) then Some OperatorKind.Or
  else None.
(** [raw.strip_suffix('*').map_or((raw, false), |text| (text, true))] *)
Definition strip_star (raw : list byte) : list byte * bool :=
  match reverse raw with
  | b :: rest => if bool_decide (b = star) then (reverse rest, true) else (raw, false)
  | [] => (raw, false)
  end.

(** The variables of [parse]'s loop. *)
Record ParseState : Type := mkParseState {
  builder : Builder;
  cursor : N;
  need_operand : bool;
  parentheses : N;
}.

(** The bare-word part of [parse]'s loop. *)
Definition parse_word (input : list byte) (st : ParseState) : Result ParseState :=
  let '(mkParseState builder offset need_operand parentheses) := st in
  let cursor := word_end (drop (N.to_nat offset) input) offset in
  let* raw := or_panic (str_slice input offset cursor) in
  match keyword raw with
  | Some kind =>
      if negb (Bool.eqb (bool_decide (kind = OperatorKind.Not)) need_operand)
      then Err (QuerySyntax offset) else
      let* builder := operator builder (mkOperator kind offset) in
      Ok (mkParseState builder cursor true parentheses)
  | None =>
      if negb need_operand then Err (QuerySyntax offset) else
      let '(text, prefix) := strip_star raw in
      if bool_decide (text = []) || existsb (fun b => bool_decide (b = star) || bool_decide (b = backslash)) text
      then Err (QuerySyntax offset) else
      let* builder := literal builder text false prefix offset in
      Ok (mkParseState builder cursor false parentheses)
  end.

(** One turn of [parse]'s loop. *)
Definition parse_step (input : list byte) (st : ParseState) : Result ParseState :=
  let '(mkParseState builder cursor need_operand parentheses) := st in
  let offset := cursor in
  let* byte := or_panic (index input cursor) in
  if is_ascii_whitespace byte then Ok (mkParseState builder (cursor + 1) need_operand parentheses)
  else if bool_decide (byte = open_paren) then
    if negb need_operand then Err (QuerySyntax offset) else
    let* parentheses := ok_or (checked_add 16 parentheses 1) (Limit "query depth") in
    if q_depth limits <? parentheses then Err (Limit "query depth") else
    let* builder := operator builder (mkOperator OperatorKind.Open offset) in
    Ok (mkParseState builder (cursor + 1) need_operand parentheses)
  else if bool_decide (byte = close_paren) then
    if need_operand then Err (QuerySyntax offset) else
    let* builder := close builder offset in
    let* parentheses := ok_or (checked_sub parentheses 1) (QuerySyntax offset) in
    Ok (mkParseState builder (cursor + 1) need_operand parentheses)
  else if bool_decide (byte = quote) then
    if negb need_operand then Err (QuerySyntax offset) else
    let* '(text, cursor, budget) := quoted input cursor (q_bytes limits) (b_budget builder) in
    let* builder := literal (set_budget builder budget) (items text) true false offset in
    let* budget := try_budget (release (b_budget builder) (capacity text)) in
    Ok (mkParseState (set_budget builder budget) cursor false parentheses)
  else parse_word input st.

(** [while cursor < input.len() { .. }]: every turn advances the cursor. *)
Fixpoint parse_loop (fuel : nat) (input : list byte) (st : ParseState) : Result ParseState :=
  match fuel with
  | O => Panic
  | S fuel =>
      if cursor st <? len input then
        let* st := parse_step input st in
        parse_loop fuel input st
      else Ok st
  end.

(** What [parse] does after its loop. *)
Definition parse_finish (input : list byte) (st : ParseState) : Result Query :=
  let '(mkParseState builder _ need_operand parentheses) := st in
  let* builder :=
    if bool_decide (items (b_nodes builder) = []) && bool_decide (items (b_operators builder) = [])
    then add_node builder Kind.None
    else if need_operand then Err (QuerySyntax (len input)) else Ok builder in
  let* builder := reduce_while (operators_fuel builder) (fun _ => true) builder in
  if negb (len (items (b_values builder)) =? 1) || negb (parentheses =? 0)
  then Err (QuerySyntax (len input)) else
  let* root := or_panic (index (items (b_values builder)) 0) in
  let* values_bytes := or_panic (checked_mul usize (capacity (b_values builder)) usize_size) in
  let* operators_bytes := or_panic (checked_mul usize (capacity (b_operators builder)) operator_size) in
  let* scratch := add_w usize values_bytes operators_bytes in
  let* budget := try_budget (release (b_budget builder) scratch) in
  let* '(source, budget) := copy_text grow input budget in
  Ok (mkQuery (b_nodes builder) root (items source) (b_terms builder) (used budget)).

(** [Query::parse] *)
Definition parse (input : list byte) : Result Query :=
  if q_bytes limits <? len input then Err (Limit "query bytes") else
  let builder := mkBuilder (budget_new (q_memory_bytes limits)) vec_new vec_new vec_new 0 in
  let* st := parse_loop (S (length input)) input (mkParseState builder 0 true 0) in
  parse_finish input st.

(** [Query::decode] *)
Definition decode (bytes : list byte) : Result Query :=
  let* max_bytes := ok_or (checked_add usize (q_bytes limits) 28) (Limit "query bytes") in
  let* body := lift_codec (Records.payload bytes 5 max_bytes) in
  let reader := Reader.new body in
  let* '(profile, reader) := lift_codec (Reader.u32 reader) in
  if negb (profile =? PROFILE_ID) then Err InvalidProfile else
  let* '(version, reader) := lift_codec (Reader.u16 reader) in
  if negb (version =? 1) then Err (FromCodec (Codec.new 4 Codec.UnsupportedVersion)) else
  let* '(flags, reader) := lift_codec (Reader.u16 reader) in
  if negb (flags =? 0) then Err (FromCodec (Codec.new 6 Codec.NonCanonical)) else
  let* '(length, reader) := lift_codec (Reader.u32 reader) in
  let* '(text, reader) := lift_codec (Reader.take reader length) in
  if negb (utf8_valid text) then Err (FromCodec (Codec.new 12 Codec.InvalidUtf8)) else
  let* _ := lift_codec (Reader.finish reader) in
  parse text.
End Query.

(** [Query::node_count], [depth], [is_single_term] *)
Definition node_count (self : Query) : N := len (items (nodes self)).
Definition query_depth {E} (self : Query) : res E N :=
  let* node := or_panic (index (items (nodes self)) (root self)) in Ok (depth node).
Definition is_single_term {E} (self : Query) : res E bool :=
  let* node := or_panic (index (items (nodes self)) (root self)) in
  Ok match kind node with Kind.Term _ => true | _ => false end.

(** [Query::encode]: versioned source text; the result is the written buffer. *)
Definition encode (self : Query) (output : list byte) (max_bytes : N) : Result (N * list byte) :=
  let* length := ok_or (checked_add usize (len (source self)) 12) (Limit "query bytes") in
  if match checked_add usize length HEADER_BYTES with Some total => max_bytes <? total | None => true end
  then Err (Limit "query bytes") else
  let* _ := check_u32 (len (source self)) "query bytes" in
  let* writer := lift_codec (Records.start output 5 length) in
  let* writer := lift_codec (Writer.u32 writer PROFILE_ID) in
  let* writer := lift_codec (Writer.u16 writer 1) in
  let* writer := lift_codec (Writer.u16 writer 0) in
  let* writer := lift_codec (Writer.u32 writer (len (source self))) in
  let* writer := lift_codec (Writer.put writer (source self)) in
  Ok (Records.written writer).
