(* ===== verification/Grammar.v ===== *)
(** What a query means and how it is written: the trees behind the flat node arrays of
    [Query], the tokens of the surface syntax, the grammar, and the matching of a tree
    against the words of a document. *)
From S2P Require Export Query.

(** ** Trees *)
Inductive Tree : Type :=
| TreeNone
| TreeTerm (term : list byte)
| TreePrefix (prefix : list byte)
| TreePhrase (terms : list (list byte))
| TreeNot (t : Tree)
| TreeAnd (a b : Tree)
| TreeOr (a b : Tree).

(** The depth the code limits, and the words its [terms] counts. *)
Fixpoint tree_depth (t : Tree) : N :=
  match t with
  | TreeNot t => 1 + tree_depth t
  | TreeAnd a b | TreeOr a b => 1 + N.max (tree_depth a) (tree_depth b)
  | _ => 1
  end.
Fixpoint tree_words (t : Tree) : N :=
  match t with
  | TreeNone => 0
  | TreeTerm _ | TreePrefix _ => 1
  | TreePhrase ws => len ws
  | TreeNot t => tree_words t
  | TreeAnd a b | TreeOr a b => tree_words a + tree_words b
  end.

(** A document is the list of its words; a phrase matches a window of it. *)
Definition window_at (ws : list (list byte)) (phrase : list (list byte)) (i : nat) : bool :=
  bool_decide (take (length phrase) (drop i ws) = phrase).
Fixpoint holds (ws : list (list byte)) (t : Tree) : bool :=
  match t with
  | TreeNone => false
  | TreeTerm w => existsb (fun x => bool_decide (x = w)) ws
  | TreePrefix p => existsb (starts_with p) ws
  | TreePhrase ps => existsb (window_at ws ps) (seq 0 (length ws))
  | TreeNot t => negb (holds ws t)
  | TreeAnd a b => holds ws a && holds ws b
  | TreeOr a b => holds ws a || holds ws b
  end.

(** The tree of every node, from the trees of the nodes before it. *)
Definition tree_at (ts : list Tree) (i : N) : Tree := default TreeNone (index ts i).
Definition shape (f : N -> Tree) (k : Kind.t) : Tree :=
  match k with
  | Kind.None => TreeNone
  | Kind.Term w => TreeTerm w
  | Kind.Prefix w => TreePrefix w
  | Kind.Phrase ws => TreePhrase ws
  | Kind.Not c => TreeNot (f c)
  | Kind.And a b => TreeAnd (f a) (f b)
  | Kind.Or a b => TreeOr (f a) (f b)
  end.
Definition trees (ns : list Node) : list Tree :=
  foldl (fun ts n => ts ++ [shape (tree_at ts) (kind n)]) [] ns.
Definition node_tree (ns : list Node) (i : N) : Tree := tree_at (trees ns) i.
Definition query_tree (q : Query) : Tree := node_tree (items (nodes q)) (root q).

(** Nodes refer to earlier nodes only and record the depth of their tree. *)
Definition children (k : Kind.t) : list N :=
  match k with
  | Kind.Not c => [c]
  | Kind.And a b | Kind.Or a b => [a; b]
  | _ => []
  end.
Inductive nodes_wf : list Node -> Prop :=
| nodes_wf_nil : nodes_wf []
| nodes_wf_snoc ns n : nodes_wf ns -> Forall (fun c => c < len ns) (children (kind n)) ->
    depth n = tree_depth (shape (node_tree ns) (kind n)) -> nodes_wf (ns ++ [n]).
Definition query_wf (q : Query) : Prop := nodes_wf (items (nodes q)) /\ root q < node_count q.

Lemma trees_snoc ns n : trees (ns ++ [n]) = trees ns ++ [shape (node_tree ns) (kind n)].
Proof. unfold trees. by rewrite foldl_app. Qed.
Lemma len_trees ns : len (trees ns) = len ns.
Proof.
  induction ns as [|n ns IH] using rev_ind; [done|]. rewrite trees_snoc, !len_app, IH. done.
Qed.
Lemma tree_at_app ts us i : i < len ts -> tree_at (ts ++ us) i = tree_at ts i.
Proof. intros. unfold tree_at, index. rewrite lookup_app_l; [done|]. unfold len in *. lia. Qed.
Lemma node_tree_snoc ns n i : i < len ns -> node_tree (ns ++ [n]) i = node_tree ns i.
Proof. intros. unfold node_tree. rewrite trees_snoc. apply tree_at_app. by rewrite len_trees. Qed.
Lemma node_tree_last ns n : node_tree (ns ++ [n]) (len ns) = shape (node_tree ns) (kind n).
Proof.
  unfold node_tree, tree_at, index. rewrite trees_snoc, <- (len_trees ns), to_nat_len.
  by rewrite lookup_app_r, Nat.sub_diag by lia.
Qed.
Lemma nodes_wf_snoc_inv ns n : nodes_wf (ns ++ [n]) ->
  nodes_wf ns /\ Forall (fun c => c < len ns) (children (kind n)) /\
  depth n = tree_depth (shape (node_tree ns) (kind n)).
Proof.
  inversion 1 as [E|ns' n' Hw Hc Hd E]; [by destruct ns|]. apply app_inj_tail in E as [-> ->]. done.
Qed.
Lemma node_depth ns i : nodes_wf ns -> i < len ns ->
  exists n, index ns i = Some n /\ depth n = tree_depth (node_tree ns i).
Proof.
  intros Hw. revert i. induction Hw as [|ns n Hw IH Hc Hd]; intros i Hi; [len_lia|].
  rewrite len_app, len_cons, len_nil in Hi. destruct (decide (i < len ns)) as [Hlt|].
  - destruct (IH i Hlt) as (m & Hm & Hmd). exists m. rewrite node_tree_snoc by done. split; [|done].
    unfold index in *. by apply lookup_app_l_Some.
  - assert (i = len ns) as -> by lia. exists n. rewrite node_tree_last. split; [|done].
    unfold index. rewrite to_nat_len, lookup_app_r, Nat.sub_diag by lia. done.
Qed.

Lemma shape_ext f g k : Forall (fun c => f c = g c) (children k) -> shape f k = shape g k.
Proof. destruct k; cbn; rewrite ?list.Forall_cons; intros; f_equal; naive_solver. Qed.
Lemma node_shape ns i n : nodes_wf ns -> index ns i = Some n ->
  i < len ns /\ node_tree ns i = shape (node_tree ns) (kind n) /\ Forall (fun c => c < i) (children (kind n)).
Proof.
  intros Hw. revert i n. induction Hw as [|ns m Hw IH Hc Hd]; intros i n Hi; [done|].
  assert (Hlt : i < len (ns ++ [m])) by (apply lookup_lt_Some in Hi; unfold len; lia).
  pose proof Hlt as Hlt'. rewrite len_app, len_cons, len_nil in Hlt'.
  assert (Hext : forall l, Forall (fun c => c < len ns) l -> Forall (fun c => node_tree ns c = node_tree (ns ++ [m]) c) l).
  { intros l Hl. eapply list.Forall_impl; [exact Hl|]. intros c Hlc. symmetry. by apply node_tree_snoc. }
  split; [done|]. destruct (decide (i < len ns)) as [Hlt2|].
  - unfold index in *. rewrite lookup_app_l in Hi by (unfold len in Hlt2; lia).
    destruct (IH i n Hi) as (_ & E & Hc'). rewrite node_tree_snoc by done. split; [|done].
    rewrite E. apply shape_ext, Hext. eapply list.Forall_impl; [exact Hc'|]. cbn; lia.
  - assert (i = len ns) as -> by lia. unfold index in Hi. rewrite to_nat_len, lookup_app_r, Nat.sub_diag in Hi by lia.
    injection Hi as <-. rewrite node_tree_last. split; [|done]. by apply shape_ext, Hext.
Qed.

(** ** Tokens *)
Inductive Tok : Type :=
| TOpen
| TClose
| TNot
| TAnd
| TOr
| TLit (quoted prefix : bool) (text : list byte).

(** The text of a quoted phrase and what follows it; the opening quote is read. *)
Fixpoint lex_quoted (l : list byte) : option (list byte * list byte) :=
  match l with
  | [] => None
  | b :: l' =>
      if bool_decide (b = quote) then Some ([], l')
      else if bool_decide (b = backslash) then
        match l' with
        | c :: l'' =>
            if bool_decide (c = quote) || bool_decide (c = backslash)
            then (fun '(t, r) => (c :: t, r)) <$> lex_quoted l'' else None
        | [] => None
        end
      else (fun '(t, r) => (b :: t, r)) <$> lex_quoted l'
  end.
(** A bare word and what follows it. *)
Fixpoint lex_word (l : list byte) : list byte * list byte :=
  match l with
  | [] => ([], [])
  | b :: l' => if is_delimiter b then ([], l) else let '(w, r) := lex_word l' in (b :: w, r)
  end.
Definition operator_token (k : OperatorKind.t) : Tok :=
  match k with
  | OperatorKind.Open => TOpen
  | OperatorKind.Not => TNot
  | OperatorKind.And => TAnd
  | OperatorKind.Or => TOr
  end.
Definition word_token (w : list byte) : option Tok :=
  match keyword w with
  | Some k => Some (operator_token k)
  | None =>
      let '(text, prefix) := strip_star w in
      if bool_decide (text = []) || existsb (fun b => bool_decide (b = star) || bool_decide (b = backslash)) text
      then None else Some (TLit false prefix text)
  end.
(** The first token of a nonempty text ([None] for a blank) and the rest. *)
Definition lex1 (b : byte) (l : list byte) : option (option Tok * list byte) :=
  if is_ascii_whitespace b then Some (None, l)
  else if bool_decide (b = open_paren) then Some (Some TOpen, l)
  else if bool_decide (b = close_paren) then Some (Some TClose, l)
  else if bool_decide (b = quote) then (fun '(t, r) => (Some (TLit true false t), r)) <$> lex_quoted l
  else let '(w, r) := lex_word (b :: l) in (fun t => (Some t, r)) <$> word_token w.
Fixpoint lex_fuel (fuel : nat) (l : list byte) : option (list Tok) :=
  match l, fuel with
  | [], _ => Some []
  | b :: l', S fuel =>
      '(t, r) ← lex1 b l';
      (fun ts => option_list t ++ ts) <$> lex_fuel fuel r
  | _, O => None
  end.
(** The tokens of a query text; a token is at least one byte. *)
Definition lex (l : list byte) : option (list Tok) := lex_fuel (length l) l.

(** ** Grammar

    Level 1 is a disjunction, 2 a conjunction, 3 an operand; binary operators
    associate to the left. A bare word is one word of the profile, a quoted text any
    number. *)
Definition literal_tree `{Unicode} (quoted prefix : bool) (text : list byte) : option Tree :=
  let ws := document_words text in
  if quoted then Some (match ws with [] => TreeNone | _ => TreePhrase ws end)
  else match ws with [w] => Some (if prefix then TreePrefix w else TreeTerm w) | _ => None end.

Inductive expr `{Unicode} : nat -> list Tok -> Tree -> Prop :=
| expr_literal quoted prefix text t :
    literal_tree quoted prefix text = Some t -> expr 3 [TLit quoted prefix text] t
| expr_group ts t : expr 1 ts t -> expr 3 (TOpen :: ts ++ [TClose]) t
| expr_not ts t : expr 3 ts t -> expr 3 (TNot :: ts) (TreeNot t)
| expr_and ts us a b : expr 2 ts a -> expr 3 us b -> expr 2 (ts ++ TAnd :: us) (TreeAnd a b)
| expr_or ts us a b : expr 1 ts a -> expr 2 us b -> expr 1 (ts ++ TOr :: us) (TreeOr a b)
| expr_weaken n ts t : expr (S n) ts t -> expr n ts t.

(** The trees a query text denotes: the empty text is the query that matches nothing. *)
Definition query_syntax `{Unicode} (input : list byte) (t : Tree) : Prop :=
  exists ts, lex input = Some ts /\ (ts = [] /\ t = TreeNone \/ expr 1 ts t).

(** ** Lexing from left to right *)
Lemma list_len_ind {A} (P : list A -> Prop) :
  (forall l, (forall l', (length l' < length l)%nat -> P l') -> P l) -> forall l, P l.
Proof.
  intros H l. remember (length l) as n eqn:E. revert l E. induction (lt_wf n) as [n _ IH].
  intros l ->. apply H. intros l' Hl. by eapply IH.
Qed.
Lemma lex_quoted_shorter l t r : lex_quoted l = Some (t, r) -> (length r < length l)%nat.
Proof.
  revert t r. induction l as [l IH] using list_len_ind. intros t r H. destruct l as [|b l']; [done|].
  cbn [lex_quoted length] in *. destruct (bool_decide (b = quote)); [injection H as <- <-; lia|].
  destruct (bool_decide (b = backslash)).
  - destruct l' as [|c l'']; [done|]. destruct (_ || _); [|done].
    destruct (lex_quoted l'') as [[t' r']|] eqn:E; [|done]. injection H as <- <-.
    apply IH in E; cbn [length] in *; lia.
  - destruct (lex_quoted l') as [[t' r']|] eqn:E; [|done]. injection H as <- <-.
    apply IH in E; cbn [length] in *; lia.
Qed.
Lemma lex_word_split l : l = fst (lex_word l) ++ snd (lex_word l).
Proof.
  induction l as [|b l IH]; [done|]. cbn. destruct (is_delimiter b); [done|].
  destruct (lex_word l) as [w r]. cbn in *. by rewrite IH at 1.
Qed.
Lemma lex1_shorter b l o r : lex1 b l = Some (o, r) -> (length r <= length l)%nat.
Proof.
  unfold lex1. destruct (is_ascii_whitespace b) eqn:Ew; [intros [= _ <-]; lia|].
  destruct (bool_decide (b = open_paren)) eqn:Eo; [intros [= _ <-]; lia|].
  destruct (bool_decide (b = close_paren)) eqn:Ec; [intros [= _ <-]; lia|].
  destruct (bool_decide (b = quote)) eqn:Eq.
  { destruct (lex_quoted l) as [[t r']|] eqn:E; [|done]. intros [= _ <-]. apply lex_quoted_shorter in E. lia. }
  cbn [lex_word]. unfold is_delimiter. rewrite Ew, Eo, Ec, Eq. cbn [orb].
  pose proof (lex_word_split l) as E. destruct (lex_word l) as [w r'].
  destruct (word_token _); [|done]. intros [= _ <-]. cbn in E. rewrite E, length_app. lia.
Qed.
Lemma lex_fuel_enough n l : (length l <= n)%nat -> lex_fuel n l = lex l.
Proof.
  unfold lex. revert n. induction l as [l IH] using list_len_ind. intros n Hn.
  destruct l as [|b l]; [by destruct n|]. destruct n as [|n]; [cbn in Hn; lia|]. cbn [length lex_fuel] in *.
  destruct (lex1 b l) as [[o r]|] eqn:E; [|done]. cbn [mbind option_bind]. apply lex1_shorter in E.
  rewrite (IH r ltac:(lia) n) by lia. rewrite (IH r ltac:(lia) (length l)) by lia. done.
Qed.
Lemma lex_cons b l o r : lex1 b l = Some (o, r) -> lex (b :: l) = (fun ts => option_list o ++ ts) <$> lex r.
Proof.
  intros E. unfold lex at 1. cbn [length lex_fuel]. rewrite E. cbn [mbind option_bind].
  rewrite lex_fuel_enough; [done|]. by apply lex1_shorter in E.
Qed.
