(* ===== verification/QueryParse.v ===== *)
(** The parser of [Query] implements the grammar of [Grammar].

    [binv] is the builder's invariant (nodes, values, limits and memory); the stacks are
    read as operators and trees ([ops], [vals], top first); [pending] says which tokens
    a pair of stacks stands for.  Each operation is shown not to panic, to keep the
    invariant and to act on the stacks as the abstract machine does. *)
From S2P Require Export Grammar.

(** ** The stacks as operators and trees, top first *)
Definition ops (self : Builder) : list OperatorKind.t := reverse (op_kind <$> items (b_operators self)).
Definition vals (self : Builder) : list Tree :=
  reverse (node_tree (items (b_nodes self)) <$> items (b_values self)).
Definition words_sum (ts : list Tree) : N := foldr (fun t n => tree_words t + n) 0 ts.

(** What reducing an operator does to the trees. *)
Definition reduce_vals (k : OperatorKind.t) (vs : list Tree) : option (list Tree) :=
  match k, vs with
  | OperatorKind.Not, a :: vs => Some (TreeNot a :: vs)
  | OperatorKind.And, b :: a :: vs => Some (TreeAnd a b :: vs)
  | OperatorKind.Or, b :: a :: vs => Some (TreeOr a b :: vs)
  | _, _ => None
  end.
Fixpoint reduce_stack (again : OperatorKind.t -> bool) (os : list OperatorKind.t) (vs : list Tree)
  : option (list OperatorKind.t * list Tree) :=
  match os with
  | [] => Some ([], vs)
  | o :: os' => if again o then vs' ← reduce_vals o vs; reduce_stack again os' vs' else Some (os, vs)
  end.

Lemma vec_pop_some {A} (v : Vec A) x rest : vec_pop v = Some (x, rest) ->
  items v = items rest ++ [x] /\ capacity rest = capacity v.
Proof.
  unfold vec_pop. destruct (reverse (items v)) as [|y l] eqn:E; [done|]. intros [= <- <-].
  cbn. split; [|done]. rewrite <- (reverse_involutive (items v)), E. by rewrite reverse_cons.
Qed.
Lemma vec_pop_none {A} (v : Vec A) : vec_pop v = None -> items v = [].
Proof.
  unfold vec_pop. destruct (reverse (items v)) as [|y l] eqn:E; [|done]. intros _.
  by rewrite <- (reverse_involutive (items v)), E.
Qed.
Lemma reduce_vals_words k vs vs' : reduce_vals k vs = Some vs' -> words_sum vs' = words_sum vs.
Proof. destruct k, vs as [|b [|a vs]]; intros [= <-]; cbn; lia. Qed.

(** ** The tokens two stacks stand for

    [pending os vs ts]: the operators [os] and the operands [vs] below them were read
    from [ts], and an operand must follow. In a group the pending operators bind
    strictly tighter towards the top. *)
Definition below (n : nat) (os : list OperatorKind.t) : Prop :=
  match os with
  | [] | OperatorKind.Open :: _ => True
  | OperatorKind.Or :: _ => n = 2%nat
  | _ => False
  end.
Inductive pending `{Unicode} : list OperatorKind.t -> list Tree -> list Tok -> Prop :=
| pending_start : pending [] [] []
| pending_open os vs ts : pending os vs ts -> pending (OperatorKind.Open :: os) vs (ts ++ [TOpen])
| pending_not os vs ts : pending os vs ts -> pending (OperatorKind.Not :: os) vs (ts ++ [TNot])
| pending_and os vs ts us a : pending os vs ts -> below 2 os -> expr 2 us a ->
    pending (OperatorKind.And :: os) (a :: vs) (ts ++ us ++ [TAnd])
| pending_or os vs ts us a : pending os vs ts -> below 1 os -> expr 1 us a ->
    pending (OperatorKind.Or :: os) (a :: vs) (ts ++ us ++ [TOr]).
(** An operand of level [k] may stand on top of the operators. *)
Definition fits (k : nat) (os : list OperatorKind.t) : Prop :=
  k = 3%nat \/ (k = 2%nat /\ below 2 os) \/ (k = 1%nat /\ below 1 os).

Lemma expr_le `{Unicode} n k ts t : (n <= k)%nat -> expr k ts t -> expr n ts t.
Proof. induction 1 as [|k _ IH]; [done|]. intros. by apply IH, expr_weaken. Qed.

Lemma reduce_pending `{Unicode} again os vs ts us v k os' vs' :
  pending os vs ts -> expr k us v -> fits k os -> reduce_stack again os (v :: vs) = Some (os', vs') ->
  exists us' v' vs'' ts' k', vs' = v' :: vs'' /\ ts ++ us = ts' ++ us' /\ pending os' vs'' ts' /\
    expr k' us' v' /\ fits k' os' /\ (k' = k \/ (2 <= k')%nat \/ again OperatorKind.Or = true) /\
    match os' with [] => True | o :: _ => again o = false end.
Proof.
  intros Hp. revert us v k. induction Hp as [|os vs ts Hp IH|os vs ts Hp IH|os vs ts us0 a Hp IH Hb He|os vs ts us0 a Hp IH Hb He];
    intros us v k Hv Hf Hr; cbn [reduce_stack] in Hr.
  - injection Hr as <- <-. exists us, v, [], [], k. split_and!; try done; [constructor|by left].
  - destruct (again OperatorKind.Open) eqn:Ea; [done|]. injection Hr as <- <-.
    eexists us, v, vs, _, k. split_and!; try done; [by constructor|by left].
  - destruct (again OperatorKind.Not) eqn:Ea.
    + cbn in Hr. destruct Hf as [->|[[_ []]|[_ []]]].
      apply IH with (us := TNot :: us) (k := 3%nat) in Hr; [|by constructor|by left].
      by rewrite <- app_assoc.
    + injection Hr as <- <-. eexists us, v, vs, _, k. split_and!; try done; [by constructor|by left].
  - destruct (again OperatorKind.And) eqn:Ea.
    + cbn in Hr. destruct Hf as [->|[[_ []]|[_ []]]].
      apply IH with (us := us0 ++ TAnd :: us) (k := 2%nat) in Hr as (us' & v' & vs'' & ts' & k' & -> & E & ? & ? & ? & Hk & ?);
        [|by constructor|by right; left].
      exists us', v', vs'', ts', k'. split_and!; try done.
      * by rewrite <- E, <- !app_assoc.
      * right. destruct Hk as [->|Hk]; [by left|done].
    + injection Hr as <- <-. eexists us, v, (a :: vs), _, k. split_and!; try done; [by constructor|by left].
  - destruct (again OperatorKind.Or) eqn:Ea.
    + cbn in Hr. assert (Hv2 : expr 2 us v).
      { destruct Hf as [->|[[-> _]|[_ Hf]]]; [by apply expr_weaken|done|done]. }
      apply IH with (us := us0 ++ TOr :: us) (k := 1%nat) in Hr as (us' & v' & vs'' & ts' & k' & -> & E & ? & ? & ? & _ & ?);
        [|by constructor|by right; right].
      exists us', v', vs'', ts', k'. split_and!; try done; [by rewrite <- E, <- !app_assoc|by right; right].
    + injection Hr as <- <-. eexists us, v, (a :: vs), _, k. split_and!; try done; [by constructor|by left].
Qed.

(** The three uses: a binary operator, a closing parenthesis, the end of the text. *)
Lemma reduce_for_and `{Unicode} os vs ts us v os' vs' :
  pending os vs ts -> expr 3 us v ->
  reduce_stack (fun k => 2 <=? precedence (mkOperator k 0)) os (v :: vs) = Some (os', vs') ->
  pending (OperatorKind.And :: os') vs' (ts ++ us ++ [TAnd]).
Proof.
  intros Hp He Hr. destruct (reduce_pending _ _ _ _ _ _ _ _ _ Hp He (or_introl eq_refl) Hr)
    as (us' & v' & vs'' & ts' & k' & -> & E & ? & He' & ? & Hk & Ha).
  rewrite app_assoc, E, <- app_assoc. constructor; [done| |].
  - by destruct os' as [|[] os'].
  - apply expr_le with k'; [|done]. destruct Hk as [->|[?|?]]; [lia|done|done].
Qed.
Lemma reduce_for_or `{Unicode} os vs ts us v os' vs' :
  pending os vs ts -> expr 3 us v ->
  reduce_stack (fun k => 1 <=? precedence (mkOperator k 0)) os (v :: vs) = Some (os', vs') ->
  pending (OperatorKind.Or :: os') vs' (ts ++ us ++ [TOr]).
Proof.
  intros Hp He Hr. destruct (reduce_pending _ _ _ _ _ _ _ _ _ Hp He (or_introl eq_refl) Hr)
    as (us' & v' & vs'' & ts' & k' & -> & E & ? & He' & Hf & Hk & Ha).
  rewrite app_assoc, E, <- app_assoc. constructor; [done| |].
  - by destruct os' as [|[] os'].
  - apply expr_le with k'; [|done]. destruct Hf as [->|[[-> _]|[-> _]]]; lia.
Qed.
Lemma reduce_for_close `{Unicode} os vs ts us v os' vs' :
  pending os vs ts -> expr 3 us v ->
  reduce_stack (fun k => negb (bool_decide (k = OperatorKind.Open))) os (v :: vs) = Some (OperatorKind.Open :: os', vs') ->
  exists us' v' vs'' ts', vs' = v' :: vs'' /\ ts ++ us ++ [TClose] = ts' ++ us' /\ pending os' vs'' ts' /\ expr 3 us' v'.
Proof.
  intros Hp He Hr. destruct (reduce_pending _ _ _ _ _ _ _ _ _ Hp He (or_introl eq_refl) Hr)
    as (us' & v' & vs'' & ts' & k' & -> & E & Hp' & He' & Hf & _ & _).
  inversion Hp' as [|os0 vs0 ts0 Hp0| | |]; subst.
  exists (TOpen :: us' ++ [TClose]), v', vs'', ts0. split_and!; try done.
  - rewrite app_assoc, E, <- !app_assoc. done.
  - constructor. apply expr_le with k'; [|done]. destruct Hf as [->|[[-> _]|[-> _]]]; lia.
Qed.
Lemma reduce_for_end `{Unicode} os vs ts us v os' vs' :
  pending os vs ts -> expr 3 us v -> reduce_stack (fun _ => true) os (v :: vs) = Some (os', vs') ->
  os' = [] /\ exists v', vs' = [v'] /\ expr 1 (ts ++ us) v'.
Proof.
  intros Hp He Hr. destruct (reduce_pending _ _ _ _ _ _ _ _ _ Hp He (or_introl eq_refl) Hr)
    as (us' & v' & vs'' & ts' & k' & -> & E & Hp' & He' & Hf & _ & Ha).
  destruct os' as [|o os']; [|done]. inversion Hp'; subst. split; [done|]. exists v'. split; [done|].
  rewrite E. apply expr_le with k'; [|done]. destruct Hf as [->|[[-> _]|[-> _]]]; lia.
Qed.

Lemma reduce_stack_words again os vs os' vs' :
  reduce_stack again os vs = Some (os', vs') -> words_sum vs' = words_sum vs.
Proof.
  revert vs; induction os as [|o os IH]; intros vs; cbn; [by intros [= _ <-]|].
  destruct (again o); [|by intros [= _ <-]].
  destruct (reduce_vals o vs) as [vs1|] eqn:E; [|done]. cbn. intros H%IH.
  by rewrite H, (reduce_vals_words o vs).
Qed.
Lemma reduce_stack_false os vs : reduce_stack (fun _ => false) os vs = Some (os, vs).
Proof. by destruct os. Qed.

(** ** Words of the input *)
Lemma word_end_lex l c : word_end l c = c + len (fst (lex_word l)).
Proof.
  revert c; induction l as [|b l IH]; intros c; cbn; [rewrite len_nil; lia|].
  destruct (is_delimiter b); cbn; [rewrite len_nil; lia|]. rewrite IH. destruct (lex_word l) as [w r]. cbn.
  rewrite len_cons. lia.
Qed.
Lemma lex_word_delimiter l : snd (lex_word l) = [] \/
  exists d r, snd (lex_word l) = d :: r /\ is_delimiter d = true.
Proof.
  induction l as [|b l IH]; [by left|]. cbn. destruct (is_delimiter b) eqn:E; [right; by exists b, l|].
  by destruct (lex_word l).
Qed.
Lemma is_delimiter_ascii d : is_delimiter d = true -> byte_val d < 0x80.
Proof.
  unfold is_delimiter, is_ascii_whitespace. rewrite !orb_true_iff, !N.eqb_eq, !bool_decide_eq_true.
  intros H. destruct H as [[[[[[[H|H]|H]|H]|H]|H]|H]|H]; try (subst d; done); lia.
Qed.
Lemma lex_word_valid l : utf8_valid l = true ->
  utf8_valid (fst (lex_word l)) = true /\ utf8_valid (snd (lex_word l)) = true.
Proof.
  intros Hv. rewrite (lex_word_split l) in Hv. destruct (lex_word_delimiter l) as [E|(d & r & E & Hd)].
  - rewrite E, app_nil_r in *. done.
  - rewrite E in *. destruct (valid_app_ascii _ _ _ Hv (is_delimiter_ascii d Hd)) as [Hw _].
    split; [done|]. by rewrite utf8_valid_app in Hv.
Qed.
Lemma strip_star_valid w : utf8_valid w = true -> utf8_valid (fst (strip_star w)) = true.
Proof.
  unfold strip_star. intros Hv. destruct (reverse w) as [|b l] eqn:E; [done|].
  destruct (bool_decide_reflect (b = star)) as [->|]; [|done]. cbn.
  rewrite <- (reverse_involutive w), E, reverse_cons in Hv. by apply (valid_app_ascii _ star []).
Qed.

Section Parse.
Context `{HU : Unicode} {HT : UnicodeTables} {HA : UnicodeAscii} {HW : UnicodeWords} (grow : N -> option N).
Context (Hg : forall n c, grow n = Some c -> n <= c).
Context (node_size operator_size string_size : N) (limits : QueryLimits).
Context (Hmem : q_memory_bytes limits < 2 ^ usize).

(** [x] bytes of a text buffer are charged beside the builder's stacks. *)
Record binv (x : N) (self : Builder) : Prop := {
  inv_budget : budget_wf (b_budget self);
  inv_limit : limit (b_budget self) = q_memory_bytes limits;
  inv_held : capacity (b_values self) * usize_size + capacity (b_operators self) * operator_size + x
    <= used (b_budget self);
  inv_nodes : nodes_wf (items (b_nodes self));
  inv_values : Forall (fun i => i < len (items (b_nodes self))) (items (b_values self));
  inv_depths : Forall (fun n => depth n <= q_depth limits) (items (b_nodes self));
  inv_count : len (items (b_nodes self)) <= q_nodes limits;
}.

Lemma binv_budget x y self b : binv x self -> budget_wf b -> limit b = limit (b_budget self) ->
  used (b_budget self) + y <= used b + x -> binv y (set_budget self b).
Proof. intros [] ? El Hu. constructor; cbn in *; try done; [congruence|lia]. Qed.
Lemma binv_held x y self b : binv x self -> budget_wf b -> limit b = limit (b_budget self) ->
  capacity (b_values self) * usize_size + capacity (b_operators self) * operator_size + y <= used b ->
  binv y (set_budget self b).
Proof. intros [] ? El Hu. constructor; cbn in *; try done. congruence. Qed.
Lemma ops_set_budget self b : ops (set_budget self b) = ops self.
Proof. done. Qed.
Lemma vals_set_budget self b : vals (set_budget self b) = vals self.
Proof. done. Qed.

Abbreviation add_node' := (add_node grow node_size limits).
Abbreviation reduce' := (reduce grow node_size limits).
Abbreviation reduce_while' := (reduce_while grow node_size limits).

Lemma depth_of_node self i : nodes_wf (items (b_nodes self)) -> i < len (items (b_nodes self)) ->
  (let* node := or_panic (index (items (b_nodes self)) i) in Ok (depth node))
    = Ok (E := Error) (tree_depth (node_tree (items (b_nodes self)) i)).
Proof. intros Hw Hi. destruct (node_depth _ _ Hw Hi) as (n & -> & E). cbn. by rewrite E. Qed.

(** The depth [add_node] computes is the depth of the tree. *)
Lemma add_node_depth self k : nodes_wf (items (b_nodes self)) ->
  Forall (fun c => c < len (items (b_nodes self))) (children k) ->
  match k with
  | Kind.Not child =>
      let* d := (let* node := or_panic (index (items (b_nodes self)) child) in Ok (depth node)) in
      Ok (checked_add 16 d 1)
  | Kind.And lhs rhs | Kind.Or lhs rhs =>
      let* l := (let* node := or_panic (index (items (b_nodes self)) lhs) in Ok (depth node)) in
      let* r := (let* node := or_panic (index (items (b_nodes self)) rhs) in Ok (depth node)) in
      Ok (checked_add 16 (N.max l r) 1)
  | _ => Ok (Some 1)
  end = Ok (E := Error)
    (let d := tree_depth (shape (node_tree (items (b_nodes self))) k) in
     if children k is [] then Some d else if d <? 2 ^ 16 then Some d else None).
Proof.
  intros Hw Hc. destruct k as [| | | |c|a b|a b]; cbn [children] in *; try done;
    rewrite !list.Forall_cons in Hc; rewrite !depth_of_node by naive_solver;
    cbn [rbind]; unfold checked_add; rewrite N.add_comm; done.
Qed.

Lemma add_node_ok x self k : binv x self ->
  Forall (fun c => c < len (items (b_nodes self))) (children k) ->
  safe (add_node' self k) /\
  forall self', add_node' self k = Ok self' ->
    binv x self' /\ b_operators self' = b_operators self /\ b_terms self' = b_terms self /\
    vals self' = shape (node_tree (items (b_nodes self))) k :: vals self /\ items (b_nodes self') <> [].
Proof.
  intros [Hb El Hh Hw Hv Hd Hn] Hc. unfold add_node. rewrite add_node_depth by done. cbn [rbind]. split.
  - apply safe_bind; [apply safe_ok_or|]. intros d _. apply safe_if; [done|]. intros _.
    apply safe_bind; [by apply reserve_safe|]. intros [ns b1] H1.
    apply reserve_ok in H1 as (_ & _ & _ & _ & _ & _ & ? & _); [|done..].
    apply safe_bind; [by apply reserve_safe|]. by intros [vs b2] _.
  - intros self' H. apply rbind_ok in H as (d & Ed & H). apply ok_or_ok in Ed.
    assert (d = tree_depth (shape (node_tree (items (b_nodes self))) k)) as ->.
    { cbn zeta in Ed. destruct (children k); [by injection Ed|]. by destruct (_ <? _); [injection Ed|]. }
    clear Ed. apply if_err_ok in H as [Hlim H]. apply N.ltb_ge in Hlim.
    apply rbind_ok in H as ([ns b1] & H1 & H).
    apply reserve_ok in H1 as (E1 & _ & ? & Hcnt & Hu1 & Hl1 & Hb1 & _); [|done..].
    apply rbind_ok in H as ([vs b2] & H2 & H).
    apply reserve_ok in H2 as (E2 & _ & ? & _ & Hu2 & Hl2 & Hb2 & _); [|done..].
    apply Ok_inj in H. subst self'. unfold vals, vec_push. cbn [b_nodes b_values b_operators b_terms items b_budget capacity].
    rewrite E1, E2. split_and!; [|done..| |].
    + constructor; cbn [b_nodes b_values b_operators b_terms items b_budget capacity]; rewrite ?E1, ?E2; try done.
      * congruence.
      * unfold usize_size in *. nia.
      * by constructor.
      * rewrite len_app, len_cons, len_nil. apply Forall_app_2; [|constructor; [lia|done]].
        eapply list.Forall_impl; [done|]. cbn; lia.
      * apply Forall_app_2; [done|by constructor].
      * rewrite len_app, len_cons, len_nil. lia.
    + rewrite fmap_app, reverse_app. cbn [fmap list_fmap]. rewrite node_tree_last. cbn [kind reverse rev_append app].
      f_equal. f_equal. apply list_fmap_ext. intros j i Hi. apply list_elem_of_lookup_2 in Hi.
      apply node_tree_snoc. exact (proj1 (list.Forall_forall _ _) Hv i Hi).
    + by destruct (items (b_nodes self)).
Qed.

Lemma pop_value_cases x self e : binv x self ->
  (pop_value self e = Err e /\ vals self = []) \/
  exists i self', pop_value self e = Ok (i, self') /\ binv x self' /\ i < len (items (b_nodes self)) /\
    vals self = node_tree (items (b_nodes self)) i :: vals self' /\ b_nodes self' = b_nodes self /\
    b_operators self' = b_operators self /\ b_terms self' = b_terms self.
Proof.
  intros [Hb El Hh Hw Hv Hd Hn]. unfold pop_value. destruct (vec_pop (b_values self)) as [[i rest]|] eqn:E.
  - right. apply vec_pop_some in E as [E Ec]. rewrite E in Hv. apply Forall_app in Hv as [Hv Hi].
    apply list.Forall_cons_1 in Hi as [Hi _]. exists i, (set_values self rest). split_and!; try done.
    + constructor; cbn; try done. by rewrite Ec.
    + unfold vals. cbn [set_values b_values b_nodes]. by rewrite E, fmap_app, reverse_app.
  - left. split; [done|]. apply vec_pop_none in E. unfold vals. by rewrite E.
Qed.

Lemma reduce_ok x self op : binv x self ->
  safe (reduce' self op) /\
  forall self', reduce' self op = Ok self' ->
    binv x self' /\ b_operators self' = b_operators self /\ b_terms self' = b_terms self /\
    reduce_vals (op_kind op) (vals self) = Some (vals self').
Proof.
  intros Hi. unfold reduce.
  destruct (pop_value_cases x self (QuerySyntax (op_offset op)) Hi)
    as [[-> _]|(b & s1 & -> & Hi1 & Hb & Ev & En & Eo & Et)]; [done|]. cbn [rbind].
  rewrite Ev. destruct (op_kind op); [done|..].
  - destruct (add_node_ok x s1 (Kind.Not b) Hi1) as [Hs Hok]; [rewrite En; by constructor|].
    split; [done|]. intros s' H. destruct (Hok s' H) as (? & ? & ? & -> & _). rewrite En.
    split_and!; done || congruence.
  - destruct (pop_value_cases x s1 (QuerySyntax (op_offset op)) Hi1)
      as [[-> _]|(a & s2 & -> & Hi2 & Ha & Ev2 & En2 & Eo2 & Et2)]; [done|]. cbn [rbind].
    rewrite En in *. rewrite Ev2.
    destruct (add_node_ok x s2 (Kind.And a b) Hi2) as [Hs Hok]; [rewrite En2; by repeat constructor|].
    split; [done|]. intros s' H. destruct (Hok s' H) as (? & ? & ? & -> & _). rewrite En2.
    split_and!; done || congruence.
  - destruct (pop_value_cases x s1 (QuerySyntax (op_offset op)) Hi1)
      as [[-> _]|(a & s2 & -> & Hi2 & Ha & Ev2 & En2 & Eo2 & Et2)]; [done|]. cbn [rbind].
    rewrite En in *. rewrite Ev2.
    destruct (add_node_ok x s2 (Kind.Or a b) Hi2) as [Hs Hok]; [rewrite En2; by repeat constructor|].
    split; [done|]. intros s' H. destruct (Hok s' H) as (? & ? & ? & -> & _). rewrite En2.
    split_and!; done || congruence.
Qed.

Lemma binv_pop_operator x self op rest : vec_pop (b_operators self) = Some (op, rest) -> binv x self ->
  binv x (set_operators self rest) /\ ops self = op_kind op :: ops (set_operators self rest) /\
  length (items (b_operators self)) = S (length (items rest)).
Proof.
  intros E [Hb El Hh Hw Hv Hd Hn]. apply vec_pop_some in E as [E Ec]. split_and!.
  - constructor; cbn; try done. by rewrite Ec.
  - unfold ops. cbn. by rewrite E, fmap_app, reverse_app.
  - rewrite E, length_app. cbn. lia.
Qed.
Lemma ops_nil self : vec_pop (b_operators self) = None -> ops self = [].
Proof. intros E%vec_pop_none. unfold ops. by rewrite E. Qed.

Lemma reduce_while_ok fuel again ag x self : (forall op, again op = ag (op_kind op)) ->
  binv x self -> (length (items (b_operators self)) < fuel)%nat ->
  safe (reduce_while' fuel again self) /\
  forall self', reduce_while' fuel again self = Ok self' ->
    binv x self' /\ b_terms self' = b_terms self /\
    reduce_stack ag (ops self) (vals self) = Some (ops self', vals self') /\
    capacity (b_operators self') = capacity (b_operators self).
Proof.
  intros Hag. revert self; induction fuel as [|fuel IH]; intros self Hi Hf; [lia|]. cbn [reduce_while].
  destruct (vec_pop (b_operators self)) as [[top rest]|] eqn:E.
  - destruct (binv_pop_operator x self top rest E Hi) as (Hi1 & Eops & El). rewrite Hag.
    apply vec_pop_some in E as [_ Ecap].
    destruct (ag (op_kind top)) eqn:Ea.
    + destruct (reduce_ok x _ top Hi1) as [Hs Hok]. split.
      * apply safe_bind; [done|]. intros s1 H1. destruct (Hok s1 H1) as (? & Eo & _).
        apply IH; [done|]. rewrite Eo. cbn. lia.
      * intros s' H. apply rbind_ok in H as (s1 & H1 & H). destruct (Hok s1 H1) as (Hi2 & Eo & Et & Ev).
        destruct (IH s1) as [_ IH1]; [done|rewrite Eo; cbn; lia|]. destruct (IH1 s' H) as (? & ? & Er & ?).
        split_and!; [done|cbn in Et; congruence| |rewrite Eo in *; cbn in *; congruence].
        rewrite Eops. cbn [reduce_stack]. rewrite Ea.
        change (vals (set_operators self rest)) with (vals self) in Ev. rewrite Ev. cbn [mbind option_bind].
        rewrite <- Er. unfold ops. by rewrite Eo.
    + split; [done|]. intros s' [= <-]. split_and!; try done. rewrite Eops. cbn. by rewrite Ea, <- Eops.
  - split; [done|]. intros s' [= <-]. split_and!; try done. by rewrite (ops_nil self E).
Qed.

Lemma operator_ok x self op : binv x self ->
  safe (operator grow node_size operator_size limits self op) /\
  forall self', operator grow node_size operator_size limits self op = Ok self' ->
    binv x self' /\ b_terms self' = b_terms self /\
    exists os, ops self' = op_kind op :: os /\
      reduce_stack (fun k => match op_kind op with
        | OperatorKind.And | OperatorKind.Or => precedence op <=? precedence (mkOperator k 0)
        | _ => false end) (ops self) (vals self) = Some (os, vals self').
Proof.
  intros Hi. unfold operator.
  set (m := match op_kind op with OperatorKind.And | OperatorKind.Or => _ | _ => Ok self end).
  assert (Hm : safe m /\ forall s1, m = Ok s1 -> binv x s1 /\ b_terms s1 = b_terms self /\
    reduce_stack (fun k => match op_kind op with
        | OperatorKind.And | OperatorKind.Or => precedence op <=? precedence (mkOperator k 0)
        | _ => false end) (ops self) (vals self) = Some (ops s1, vals s1)).
  { assert (Hn : forall k : OperatorKind.t -> bool, (forall o, k o = false) ->
      reduce_stack k (ops self) (vals self) = Some (ops self, vals self)).
    { intros k Hk. destruct (ops self) as [|o os]; [done|]. cbn. by rewrite Hk. }
    subst m. destruct (op_kind op).
    - split; [done|]. intros s1 [= <-]. by rewrite Hn.
    - split; [done|]. intros s1 [= <-]. by rewrite Hn.
    - destruct (reduce_while_ok (operators_fuel self) (fun top => precedence op <=? precedence top)
        (fun k => precedence op <=? precedence (mkOperator k 0)) x self) as [Hs Hok]; try done.
      { unfold operators_fuel. lia. }
      split; [done|]. intros s1 H1. by destruct (Hok s1 H1) as (? & ? & ? & _).
    - destruct (reduce_while_ok (operators_fuel self) (fun top => precedence op <=? precedence top)
        (fun k => precedence op <=? precedence (mkOperator k 0)) x self) as [Hs Hok]; try done.
      { unfold operators_fuel. lia. }
      split; [done|]. intros s1 H1. by destruct (Hok s1 H1) as (? & ? & ? & _). }
  clearbody m. destruct Hm as [Hs Hok]. split.
  - apply safe_bind; [done|]. intros s1 H1. destruct (Hok s1 H1) as ([Hb _ _ _ _ _ _] & _).
    apply safe_bind; [by apply reserve_safe|]. by intros [? ?] _.
  - intros s' H. apply rbind_ok in H as (s1 & H1 & H). destruct (Hok s1 H1) as ([] & ? & Er).
    apply rbind_ok in H as ([os b1] & Hr & H). apply Ok_inj in H. subst s'.
    apply reserve_ok in Hr as (Eo & _ & ? & _ & Hu & ? & ? & _); [|done..].
    unfold ops, vals in Er |- *. split_and!; [|done|].
    + constructor; cbn; try done; [congruence|nia].
    + eexists. cbn [set_operators set_budget b_operators vec_push items]. rewrite Eo, fmap_app, reverse_app. split; [reflexivity|]. exact Er.
Qed.

Lemma close_ok x self offset : binv x self ->
  safe (close grow node_size limits self offset) /\
  forall self', close grow node_size limits self offset = Ok self' ->
    binv x self' /\ b_terms self' = b_terms self /\
    reduce_stack (fun k => negb (bool_decide (k = OperatorKind.Open))) (ops self) (vals self)
      = Some (OperatorKind.Open :: ops self', vals self').
Proof.
  intros Hi. unfold close.
  destruct (reduce_while_ok (operators_fuel self) (fun top => negb (is_open top))
    (fun k => negb (bool_decide (k = OperatorKind.Open))) x self) as [Hs Hok]; try done.
  { unfold operators_fuel. lia. }
  split; [apply safe_bind; [done|]; intros s1 _; by destruct (vec_pop _) as [[? ?]|]|].
  intros s' H. apply rbind_ok in H as (s1 & H1 & H). destruct (Hok s1 H1) as (Hi1 & Et & Er & _).
  destruct (vec_pop (b_operators s1)) as [[top rest]|] eqn:E; [|done]. apply Ok_inj in H. subst s'.
  destruct (binv_pop_operator x s1 top rest E Hi1) as (Hi2 & Eo & _). split_and!; [done|done|].
  rewrite Er, Eo. f_equal. f_equal. f_equal.
  assert (Ho : negb (bool_decide (op_kind top = OperatorKind.Open)) = false).
  { clear -Er Eo. revert Er. generalize (vals self) as vs. induction (ops self) as [|o os IH]; intros vs Er; cbn in Er.
    - injection Er as Er _. congruence.
    - destruct (negb (bool_decide (o = OperatorKind.Open))) eqn:E.
      + destruct (reduce_vals o vs) as [vs'|]; [|done]. by apply IH in Er.
      + injection Er as Er _. rewrite Eo in Er. injection Er as -> _. done. }
  apply negb_false_iff, bool_decide_eq_true_1 in Ho. done.
Qed.

Lemma copy_text_ok text b : budget_wf b -> safe (copy_text grow text b) /\
  forall v b', copy_text grow text b = Ok (v, b') ->
    items v = text /\ budget_wf b' /\ limit b' = limit b /\ used b <= used b'.
Proof.
  intros Hb. unfold copy_text, vector. split.
  - apply safe_bind; [by apply reserve_safe|]. intros [? ?] _. by apply safe_if.
  - intros v b' H. apply rbind_ok in H as ([w b1] & Hr & H).
    apply reserve_ok in Hr as (E & _ & _ & _ & Hu & ? & ? & _); [|done..].
    apply if_ok_err in H as [_ H]. apply Ok_inj in H. injection H as <- <-.
    unfold vec_extend. cbn. rewrite E. cbn. split_and!; done || lia.
Qed.
Lemma copy_terms_ok ws i acc b : budget_wf b ->
  let loop := foldM (fun '(terms, budget) (token : res Error Token) =>
    let* token := token in
    let* '(text, budget) := copy_text grow (term token) budget in
    Ok (terms ++ [items text], budget)) (acc, b) (imap (fun j w => Ok (mkToken w (N.of_nat (i + j)))) ws) in
  safe loop /\ forall l b', loop = Ok (l, b') ->
    l = acc ++ ws /\ budget_wf b' /\ limit b' = limit b /\ used b <= used b'.
Proof.
  revert i acc b; induction ws as [|w ws IH]; intros i acc b Hb loop; subst loop.
  - split; [done|]. intros l b' [= <- <-]. rewrite app_nil_r. done.
  - cbn [imap foldM]. destruct (copy_text_ok w b Hb) as [Hs Hok]. cbn [rbind term].
    assert (E : imap ((fun j w => Ok (E := Error) (mkToken w (N.of_nat (i + j)))) ∘ S) ws
      = imap (fun j w => Ok (mkToken w (N.of_nat (S i + j)))) ws).
    { apply imap_ext. intros j x _. cbn. by rewrite Nat.add_succ_r. }
    rewrite E. split.
    + apply safe_bind.
      * apply safe_bind; [done|]. by intros [? ?] _.
      * intros [l1 b1] H1. apply rbind_ok in H1 as ([v b2] & Hc & H1). apply Ok_inj in H1. injection H1 as <- <-.
        destruct (Hok v b2 Hc) as (_ & ? & _). by apply IH.
    + intros l b' H. apply rbind_ok in H as ([l1 b1] & H1 & H).
      apply rbind_ok in H1 as ([v b2] & Hc & H1). apply Ok_inj in H1. injection H1 as <- <-.
      destruct (Hok v b2 Hc) as (Ev & ? & ? & ?).
      apply IH in H as (-> & ? & ? & ?); [|done]. rewrite Ev, <- app_assoc. split_and!; done || congruence || lia.
Qed.

Lemma binv_push_budget x self b : binv x self -> budget_wf b -> limit b = limit (b_budget self) ->
  used (b_budget self) <= used b -> binv x (set_budget self b).
Proof. intros. apply binv_budget with x; done || lia. Qed.

(** The leaf a literal adds. *)
Definition literal_kind (quoted prefix : bool) (ws : list (list byte)) : Kind.t :=
  if quoted then match ws with [] => Kind.None | _ => Kind.Phrase ws end
  else if prefix then Kind.Prefix (default [] (head ws)) else Kind.Term (default [] (head ws)).

Lemma literal_budget x self text quoted prefix offset : utf8_valid text = true -> binv x self ->
  safe (literal grow node_size string_size limits self text quoted prefix offset) /\
  forall self', literal grow node_size string_size limits self text quoted prefix offset = Ok self' ->
    exists b, budget_wf b /\ limit b = limit (b_budget self) /\ used (b_budget self) <= used b /\
      (quoted = true \/ len (document_words text) = 1) /\
      b_terms self + len (document_words text) <= q_terms limits /\
      add_node' (set_terms (set_budget self b) (b_terms self + len (document_words text)))
        (literal_kind quoted prefix (document_words text)) = Ok self'.
Proof.
  intros Ht [Hb El Hh Hw Hv Hd Hn]. unfold literal.
  assert (Hrem : remaining (b_budget self) < 2 ^ usize).
  { unfold remaining. destruct Hb as (_ & ? & ?). lia. }
  destruct (checked_mul usize (q_bytes limits) 4) as [norm|]; [|done]. cbn [ok_or rbind].
  unfold check_u32. destruct (N.ltb_spec u32_max (q_terms limits)) as [|Hterms]; [done|]. cbn [rbind].
  unfold u32_max in Hterms.
  set (al := mkAnalysisLimits _ _ _ _ _).
  assert (Hal : limits_wf al) by (split; cbn; [lia|done]).
  pose proof (analyze_safe grow Hg text al Ht Hal) as Hsafe.
  destruct (analyze grow text al) as [a|e|] eqn:Ea; [|done|done]. clear Hsafe. cbn [rbind].
  destruct (analyze_cases grow Hg text al a Ht Hal Ea) as (_ & _ & _ & Haw & _ & Hcount & _).
  rewrite (token_count_words a _ Haw). set (ws := document_words text) in *. cbn in Hcount.
  destruct (negb quoted && negb (len ws =? 1)) eqn:Eq; [done|].
  assert (Hone : quoted = true \/ len ws = 1).
  { destruct quoted; [by left|]. right. apply negb_false_iff, N.eqb_eq in Eq. done. }
  unfold checked_add. destruct (N.ltb_spec (b_terms self + len ws) (2 ^ usize)); [|done]. cbn [ok_or rbind].
  destruct (N.ltb_spec (q_terms limits) (b_terms self + len ws)) as [|Hle]; [done|].
  pose proof (charge_safe (b_budget self) (retained_bytes a) Hb) as Hs1.
  destruct (try_budget (charge (b_budget self) (retained_bytes a))) as [b1|e|] eqn:E1; [|done|done]. clear Hs1. cbn [rbind].
  destruct (charge_ok _ _ _ Hb E1) as (Hb1 & Hl1 & Hu1).
  set (m := (if quoted then _ else _ : Result (Kind.t * MemoryBudget))).
  assert (Hm : safe m /\ forall k b2, m = Ok (k, b2) -> k = literal_kind quoted prefix ws /\
    budget_wf b2 /\ limit b2 = limit b1 /\ used b1 <= used b2).
  { subst m. unfold literal_kind. destruct quoted.
    - destruct (N.eqb_spec (len ws) 0) as [E|E].
      + split; [done|]. intros k b2 [= <- <-]. apply len_zero in E. by rewrite E.
      + unfold vector. rewrite (tokens_words a ws Haw). split.
        * apply safe_bind; [by apply reserve_safe|]. intros [v b2] Hr.
          apply reserve_ok in Hr as (_ & _ & _ & _ & _ & _ & Hb2 & _); [|done..].
          apply safe_bind; [|by intros [? ?]]. by apply (copy_terms_ok ws 0 []).
        * intros k b2 Hk. apply rbind_ok in Hk as ([v b3] & Hr & Hk).
          apply reserve_ok in Hr as (_ & _ & _ & _ & ? & ? & Hb2 & _); [|done..].
          apply rbind_ok in Hk as ([l b4] & Hc & Hk). apply Ok_inj in Hk. injection Hk as <- <-.
          apply (copy_terms_ok ws 0 []) in Hc as (-> & ? & ? & ?); [|done].
          destruct ws; [done|]. split_and!; done || congruence || nia.
    - destruct Hone as [|Hone]; [done|]. rewrite (token_words a ws Haw).
      destruct ws as [|w [|? ?]]; [done| |rewrite !len_cons in Hone; lia]. change (index [w] 0) with (Some w). cbn [fmap option_fmap option_map ok_or rbind term head default from_option].
      destruct (copy_text_ok w b1 Hb1) as [Hs Hok]. split.
      + apply safe_bind; [done|]. by intros [? ?] _.
      + intros k b2 Hk. apply rbind_ok in Hk as ([v b3] & Hc & Hk). apply Ok_inj in Hk.
        destruct (Hok v b3 Hc) as (Ev & ? & ? & ?). destruct prefix; injection Hk as <- <-; rewrite Ev; done. }
  clearbody m. destruct Hm as [Hs2 Hok2]. destruct m as [[k b2]|e|]; [|done|done]. clear Hs2. cbn [rbind].
  destruct (Hok2 k b2 eq_refl) as (-> & Hb2 & Hl2 & Hu2).
  destruct (release_ok b2 (retained_bytes a) Hb2) as (b3 & -> & Hb3 & Hl3 & Hu3); [lia|]. cbn [rbind]. split.
  - apply (add_node_ok x); cbn [set_terms set_budget b_nodes].
    + constructor; cbn; try done; [congruence|lia].
    + unfold literal_kind. destruct quoted, ws, prefix; constructor.
  - intros s' Hs'. exists b3. split_and!; done || congruence || lia.
Qed.

Lemma literal_ok x self text quoted prefix offset : utf8_valid text = true -> binv x self ->
  safe (literal grow node_size string_size limits self text quoted prefix offset) /\
  forall self', literal grow node_size string_size limits self text quoted prefix offset = Ok self' ->
    binv x self' /\ b_operators self' = b_operators self /\
    exists t, literal_tree quoted prefix text = Some t /\ vals self' = t :: vals self /\
      b_terms self' = b_terms self + tree_words t /\ b_terms self' <= q_terms limits /\
      items (b_nodes self') <> [].
Proof.
  intros Ht Hi. destruct (literal_budget x self text quoted prefix offset Ht Hi) as [Hs Hok].
  split; [done|]. intros s' H. destruct (Hok s' H) as (b & Hb & Hl & Hu & Hone & Hterms & Ha).
  set (ws := document_words text) in *.
  assert (Hi' : binv x (set_terms (set_budget self b) (b_terms self + len ws))).
  { destruct Hi. constructor; cbn; try done; [congruence|lia]. }
  apply (add_node_ok x) in Ha as (? & Eo & Et & Ev & ?); [|done|].
  - split_and!; [done..|].
    assert (Hl3 : literal_tree quoted prefix text
      = Some (shape (node_tree (items (b_nodes (set_terms (set_budget self b) (b_terms self + len ws)))))
          (literal_kind quoted prefix ws)) /\
      tree_words (shape (node_tree (items (b_nodes (set_terms (set_budget self b) (b_terms self + len ws)))))
          (literal_kind quoted prefix ws)) = len ws).
    { unfold literal_tree, literal_kind. fold ws. destruct quoted; [by destruct ws|].
      destruct Hone as [|Hone]; [done|].
      destruct ws as [|w [|? ?]]; [done| |rewrite !len_cons in Hone; lia]. by destruct prefix. }
    destruct Hl3 as [Hl3 Hwords]. eexists. split_and!; [exact Hl3|exact Ev| | |done].
    + rewrite Et, Hwords. done.
    + rewrite Et. exact Hterms.
  - unfold literal_kind. destruct quoted, ws, prefix; constructor.
Qed.

(** ** Reading a quoted text *)
Lemma index_app_0 {A} (pre : list A) b r : index (pre ++ b :: r) (len pre) = Some b.
Proof. unfold index. by rewrite to_nat_len, list_lookup_middle. Qed.
Lemma index_app_nil {A} (pre : list A) : index pre (len pre) = None.
Proof. unfold index. rewrite to_nat_len. by apply lookup_ge_None. Qed.
Lemma slice_app_mid {A} (pre w r : list A) : slice (pre ++ w ++ r) (len pre) (len pre + len w) = Some w.
Proof.
  apply slice_ok. rewrite !len_app. split_and!; [lia..|]. rewrite to_nat_len, drop_app_length.
  replace (N.to_nat (len pre + len w - len pre)) with (length w) by (unfold len; lia).
  by rewrite take_app_length.
Qed.
Lemma str_slice_rest pre r : utf8_valid r = true -> str_slice (pre ++ r) (len pre) (len (pre ++ r)) = Some r.
Proof.
  intros Hr. pose proof (str_slice_app pre r [] Hr eq_refl) as E. by rewrite app_nil_r, <- len_app in E.
Qed.
Lemma ascii_tail b r : utf8_valid (b :: r) = true -> byte_val b < 0x80 -> utf8_valid r = true.
Proof. intros Hv Hb. by apply (valid_app_ascii [] b r). Qed.
Lemma quote_ascii : byte_val quote < 0x80.
Proof. done. Qed.
Lemma backslash_ascii : byte_val backslash < 0x80.
Proof. done. Qed.

(** No byte of a character other than a quote or a backslash is one. *)
Lemma encode_plain c b : scalar c -> b ∈ encode_utf8 c -> byte_val b < 0x80 -> encode_utf8 c = [b].
Proof.
  unfold scalar, encode_utf8. intros Hc. split_digits c.
  destruct (N.ltb_spec c 0x80); [by intros ->%list_elem_of_singleton|].
  destruct (N.ltb_spec c 0x800); [|destruct (N.ltb_spec c 0x10000)];
    intros Hb Hlt; exfalso; rewrite ?elem_of_cons, elem_of_nil in Hb;
    repeat (destruct Hb as [->|Hb]; [rewrite byte_val_of_small in Hlt by lia; lia|]); done.
Qed.
Lemma lex_quoted_plain p r : Forall (fun b => b <> quote /\ b <> backslash) p ->
  lex_quoted (p ++ r) = (fun '(t, r) => (p ++ t, r)) <$> lex_quoted r.
Proof.
  induction 1 as [|b p [H1 H2] _ IH]; cbn [app lex_quoted].
  - by destruct (lex_quoted r) as [[? ?]|].
  - rewrite !bool_decide_eq_false_2 by done. rewrite IH. by destruct (lex_quoted r) as [[? ?]|].
Qed.
Lemma lex_quoted_char c b p r : scalar c -> encode_utf8 c = b :: p -> b <> quote -> b <> backslash ->
  lex_quoted (encode_utf8 c ++ r) = (fun '(t, r) => (encode_utf8 c ++ t, r)) <$> lex_quoted r.
Proof.
  intros Hc E Hq Hs. apply lex_quoted_plain, list.Forall_forall. intros x Hx.
  split; intros ->.
  - pose proof (encode_plain c _ Hc Hx quote_ascii) as E'. rewrite E in E'. by injection E'.
  - pose proof (encode_plain c _ Hc Hx backslash_ascii) as E'. rewrite E in E'. by injection E'.
Qed.

Definition quoted_post (input : list byte) (pre rest : list byte) (bytes : Vec byte) (y : N) (b : MemoryBudget)
  (v : Vec byte) (c' : N) (b' : MemoryBudget) : Prop :=
  exists t r pre', lex_quoted rest = Some (t, r) /\ items v = items bytes ++ t /\ input = pre' ++ r /\
    c' = len pre' /\ utf8_valid r = true /\ utf8_valid (items v) = true /\ len pre < len pre' /\
    budget_wf b' /\ limit b' = limit b /\ y + capacity v <= used b'.

Lemma quoted_loop_ok fuel input begin lim pre rest bytes y b :
  input = pre ++ rest -> utf8_valid rest = true -> (length rest < fuel)%nat -> budget_wf b ->
  y + capacity bytes <= used b ->
  safe (quoted_loop grow fuel input begin (len pre) lim bytes b) /\
  forall v c' b', quoted_loop grow fuel input begin (len pre) lim bytes b = Ok (v, c', b') ->
    quoted_post input pre rest bytes y b v c' b'.
Proof.
  revert pre rest bytes b. induction fuel as [|fuel IH]; intros pre rest bytes b -> Hv Hf Hb Hy; [lia|].
  cbn [quoted_loop]. destruct rest as [|x r].
  { rewrite app_nil_r. destruct (N.ltb_spec (len pre) (len pre)); [lia|]. done. }
  rewrite len_app, len_cons. destruct (N.ltb_spec (len pre) (len pre + (1 + len r))); [|lia].
  rewrite index_app_0. cbn [or_panic rbind]. destruct (bool_decide (x = quote)) eqn:Eq.
  { pose proof (bool_decide_eq_true_1 _ Eq) as ->. pose proof (ascii_tail _ _ Hv quote_ascii) as Hr.
    destruct (utf8_valid (items bytes)) eqn:Hu; [|done]. split; [done|]. intros v c' b' [= <- <- <-].
    exists [], r, (pre ++ [quote]). cbn [lex_quoted]. rewrite Eq, app_nil_r, <- app_assoc, len_app.
    split_and!; try done; rewrite len_cons, len_nil; lia. }
  assert (Hnext : forall p r' t0 (v0 : Vec byte) b0,
    x :: r = p ++ r' -> p <> [] -> utf8_valid r' = true -> items v0 = items bytes ++ t0 ->
    lex_quoted (x :: r) = (fun '(t, r) => (t0 ++ t, r)) <$> lex_quoted r' ->
    budget_wf b0 -> limit b0 = limit b -> y + capacity v0 <= used b0 ->
    safe (quoted_loop grow fuel (pre ++ x :: r) begin (len pre + len p) lim v0 b0) /\
    forall v c' b', quoted_loop grow fuel (pre ++ x :: r) begin (len pre + len p) lim v0 b0 = Ok (v, c', b') ->
      quoted_post (pre ++ x :: r) pre (x :: r) bytes y b v c' b').
  { intros p r' t0 v0 b0 E Hp Hr' Ev El Hb0 Hl0 Hy0. rewrite <- len_app.
    destruct (IH (pre ++ p) r' v0 b0) as [Hs Hok]; try done; [by rewrite E, <- app_assoc| |].
    { apply (f_equal length) in E. rewrite length_app in E. cbn [length] in *. destruct p; [done|]. cbn in E. lia. }
    split; [done|]. intros v c' b' Hq. destruct (Hok v c' b' Hq) as (t & r2 & pre2 & E1 & E2 & E3 & E4 & Hv1 & Hv2 & Hlt & Hw & Hl & Hu).
    exists (t0 ++ t), r2, pre2. rewrite El, E1, E2, Ev, <- app_assoc. split_and!; try done.
    - rewrite E2, Ev, <- app_assoc in Hv2. done.
    - rewrite len_app in Hlt. lia.
    - congruence. }
  destruct (bool_decide (x = backslash)) eqn:Es.
  - pose proof (bool_decide_eq_true_1 _ Es) as ->. pose proof (ascii_tail _ _ Hv backslash_ascii) as Hr.
    destruct r as [|n r].
    { replace (index (pre ++ [backslash]) (len pre + 1)) with (@None byte); [done|].
      rewrite <- (index_app_nil (pre ++ [backslash])). by rewrite len_app. }
    assert (En : index (pre ++ backslash :: n :: r) (len pre + 1) = Some n).
    { pose proof (index_app_0 (pre ++ [backslash]) n r) as En. by rewrite <- app_assoc, len_app in En. }
    rewrite En. cbn [ok_or rbind].
    destruct (bool_decide (n = quote) || bool_decide (n = backslash)) eqn:Ec; cbn [negb]; [|done].
    assert (Hr' : utf8_valid r = true).
    { apply (ascii_tail n); [done|]. apply orb_true_iff in Ec as [Ec|Ec]; apply bool_decide_eq_true_1 in Ec; by subst n. }
    pose proof (reserve_safe grow 1 bytes 1 lim b Hb) as Hs.
    destruct (reserve grow 1 bytes 1 lim b) as [[bytes1 b1]|e|] eqn:Er; [|done|done]. cbn [rbind].
    apply reserve_ok in Er as (Ei & _ & ? & _ & Hu1 & Hl1 & Hb1 & _); [|done..].
    replace (len pre + 1 + 1) with (len pre + len [backslash; n]) by (rewrite !len_cons, len_nil; lia).
    apply (Hnext [backslash; n] r [n]); try done.
    + cbn. by rewrite Ei.
    + cbn [lex_quoted]. rewrite Eq, Es, Ec. done.
    + cbn. lia.
  - destruct (utf8_uncons (x :: r) Hv) as [|(c & r' & Hc & E & Hr')]; [done|].
    rewrite <- (len_cons x r), <- len_app, str_slice_rest by done. cbn [or_panic rbind].
    rewrite E, chars_encode by done. rewrite <- E. cbn [head ok_or rbind].
    pose proof (reserve_safe grow 1 bytes (len (encode_utf8 c)) lim b Hb) as Hs.
    destruct (reserve grow 1 bytes (len (encode_utf8 c)) lim b) as [[bytes1 b1]|e|] eqn:Er; [|done|done].
    cbn [rbind]. apply reserve_ok in Er as (Ei & _ & ? & _ & Hu1 & Hl1 & Hb1 & _); [|done..].
    assert (Hsl : slice (pre ++ x :: r) (len pre) (len pre + len (encode_utf8 c)) = Some (encode_utf8 c)).
    { rewrite E. apply slice_app_mid. }
    rewrite Hsl. cbn [or_panic rbind].
    destruct (encode_utf8_first c Hc) as (x' & p & Ep & _).
    assert (x' = x) as -> by (rewrite Ep in E; by injection E).
    apply (Hnext (encode_utf8 c) r' (encode_utf8 c)); try done.
    + by rewrite Ep.
    + cbn. by rewrite Ei.
    + rewrite E. apply (lex_quoted_char c x p r'); try done; intros ->.
      * by rewrite bool_decide_eq_true_2 in Eq.
      * by rewrite bool_decide_eq_true_2 in Es.
    + cbn. lia.
Qed.

(** ** The loop *)
Definition grammar_state (st : ParseState) (toks : list Tok) : Prop :=
  let os := ops (builder st) in
  let vs := vals (builder st) in
  if need_operand st then pending os vs toks
  else exists ts us v vs', toks = ts ++ us /\ expr 3 us v /\ vs = v :: vs' /\ pending os vs' ts /\
    items (b_nodes (builder st)) <> [].
Definition terms_state (self : Builder) : Prop :=
  b_terms self = words_sum (vals self) /\ b_terms self <= q_terms limits.
(** The loop has read [pre]; [rest] is left. *)
Record pinv (input pre rest : list byte) (st : ParseState) : Prop := {
  p_input : input = pre ++ rest;
  p_cursor : cursor st = len pre;
  p_valid : utf8_valid rest = true;
  p_builder : binv 0 (builder st);
  p_terms : terms_state (builder st);
  p_grammar : exists toks, lex input = (app toks) <$> lex rest /\ grammar_state st toks;
}.

Lemma pinv_next input pre rest b r st b' need par p o :
  pinv input pre (b :: r) st -> b :: r = p ++ rest -> lex1 b r = Some (o, rest) -> utf8_valid rest = true ->
  binv 0 b' -> terms_state b' ->
  (forall toks, grammar_state st toks -> grammar_state (mkParseState b' 0 need par) (toks ++ option_list o)) ->
  pinv input (pre ++ p) rest (mkParseState b' (len pre + len p) need par).
Proof.
  intros [-> Hc Hv Hb Ht (toks & El & Hg')] E Hl Hr Hb' Ht' Hgr. constructor; cbn; try done.
  - by rewrite E, <- app_assoc.
  - by rewrite len_app.
  - exists (toks ++ option_list o). split; [|by apply Hgr in Hg'].
    rewrite El, (lex_cons _ _ _ _ Hl). destruct (lex rest) as [ts|]; [|done]. cbn. by rewrite app_assoc.
Qed.

Lemma terms_state_reduce self self' again os : terms_state self -> b_terms self' = b_terms self ->
  reduce_stack again (ops self) (vals self) = Some (os, vals self') -> terms_state self'.
Proof. intros [E ?] Et Er%reduce_stack_words. unfold terms_state. by rewrite Et, Er. Qed.

Abbreviation parse_word' := (parse_word grow node_size operator_size string_size limits).
Abbreviation parse_step' := (parse_step grow node_size operator_size string_size limits).

Definition step_post (input pre : list byte) (b : byte) (r : list byte) (m : Result ParseState) : Prop :=
  safe m /\ forall st', m = Ok st' -> exists p rest, p <> [] /\ b :: r = p ++ rest /\ pinv input (pre ++ p) rest st'.

Lemma parse_word_ok input pre b r st : pinv input pre (b :: r) st -> is_delimiter b = false ->
  step_post input pre b r (parse_word' input st).
Proof.
  intros Hp Hd. pose proof Hp as [Ei Hc Hv Hb Ht _].
  destruct st as [bl c need par]. cbn [cursor builder] in *. subst c. unfold parse_word.
  assert (Ed : drop (N.to_nat (len pre)) input = b :: r) by (rewrite Ei, to_nat_len; apply drop_app_length).
  rewrite Ed, word_end_lex. destruct (lex_word_valid _ Hv) as [Hw Hr]. pose proof (lex_word_split (b :: r)) as Es.
  assert (Elex : lex1 b r = (fun t => (Some t, snd (lex_word (b :: r)))) <$> word_token (fst (lex_word (b :: r)))).
  { unfold lex1. unfold is_delimiter in Hd. apply orb_false_iff in Hd as [Hd ->]. apply orb_false_iff in Hd as [Hd ->].
    apply orb_false_iff in Hd as [-> ->]. by destruct (lex_word (b :: r)). }
  assert (Hne : fst (lex_word (b :: r)) <> []) by (cbn; rewrite Hd; by destruct (lex_word r)).
  set (w := fst (lex_word (b :: r))) in *. set (rest := snd (lex_word (b :: r))) in *. clearbody w rest.
  assert (Hsl : str_slice input (len pre) (len pre + len w) = Some w) by (rewrite Ei, Es; by apply str_slice_app).
  rewrite Hsl. cbn [or_panic rbind]. clear Hsl.
  unfold word_token in Elex. destruct (keyword w) as [k|] eqn:Ek.
  - cbn [fmap option_fmap option_map] in Elex.
    destruct (Bool.eqb (bool_decide (k = OperatorKind.Not)) need) eqn:En; cbn [negb]; [|done].
    apply Bool.eqb_prop in En.
    destruct (operator_ok 0 bl (mkOperator k (len pre)) Hb) as [Hs Hok]. split.
    { apply safe_bind; [done|]. by intros bl' _. }
    intros st' H. apply rbind_ok in H as (bl' & Hop & H). apply Ok_inj in H. subst st'.
    destruct (Hok bl' Hop) as (Hb' & Et & os & Eo & Er). exists w, rest. split_and!; [done|done|].
    eapply pinv_next; [exact Hp|exact Es|exact Elex|done|done| |].
    + by eapply terms_state_reduce.
    + intros toks Hgs. unfold grammar_state in *. cbn [builder need_operand] in *. rewrite Eo. cbn [op_kind option_list operator_token].
      assert (Hk : k <> OperatorKind.Open).
      { intros ->. unfold keyword in Ek. repeat (destruct (bool_decide _) in Ek; [by injection Ek|]). done. }
      destruct k; try done; subst need; cbn [bool_decide] in Hgs.
      * cbn in Er. rewrite reduce_stack_false in Er. injection Er as <- <-. by constructor.
      * destruct Hgs as (ts & us & v & vs' & -> & He & Ev & Hpend & _). rewrite Ev in Er.
        rewrite <- app_assoc. by eapply reduce_for_and.
      * destruct Hgs as (ts & us & v & vs' & -> & He & Ev & Hpend & _). rewrite Ev in Er.
        rewrite <- app_assoc. by eapply reduce_for_or.
  - destruct need; cbn [negb]; [|done]. pose proof (strip_star_valid w Hw) as Htv.
    destruct (strip_star w) as [text prefix]. cbn [fst] in Htv.
    destruct (bool_decide (text = []) || _); [done|]. cbn [fmap option_fmap option_map] in Elex.
    destruct (literal_ok 0 bl text false prefix (len pre) Htv Hb) as [Hs Hok]. split.
    { apply safe_bind; [done|]. by intros bl' _. }
    intros st' H. apply rbind_ok in H as (bl' & Hop & H). apply Ok_inj in H. subst st'.
    destruct (Hok bl' Hop) as (Hb' & Eo & t & Elit & Ev & Et & Hlim & Hnodes). exists w, rest. split_and!; [done|done|].
    eapply pinv_next; [exact Hp|exact Es|exact Elex|done|done| |].
    + destruct Ht as [Ht _]. split; [|done]. rewrite Et, Ev, Ht. apply N.add_comm.
    + intros toks Hgs. unfold grammar_state in *. cbn [builder need_operand] in *.
      exists toks, [TLit false prefix text], t, (vals bl). split_and!; try done; [by constructor|].
      unfold ops in *. by rewrite Eo.
Qed.

Lemma single_byte_step input pre b r st b' need par o :
  pinv input pre (b :: r) st -> lex1 b r = Some (o, r) -> byte_val b < 0x80 ->
  binv 0 b' -> terms_state b' ->
  (forall toks, grammar_state st toks -> grammar_state (mkParseState b' 0 need par) (toks ++ option_list o)) ->
  exists p rest, p <> [] /\ b :: r = p ++ rest /\ pinv input (pre ++ p) rest (mkParseState b' (len pre + 1) need par).
Proof.
  intros Hp Hl Hb Hb' Ht' Hgr. exists [b], r. split_and!; [done|done|].
  apply (pinv_next input pre r b r st b' need par [b] o); try done.
  destruct Hp as [_ _ Hv _ _ _]. by apply (ascii_tail b).
Qed.

Lemma open_step input pre r st : pinv input pre (open_paren :: r) st ->
  step_post input pre open_paren r (parse_step' input st).
Proof.
  intros Hp. pose proof Hp as [Ei Hc Hv Hb Ht _]. destruct st as [bl c need par]. cbn [cursor builder] in *. subst c.
  unfold parse_step. rewrite Ei, index_app_0, <- Ei. cbn [or_panic rbind].
  change (is_ascii_whitespace open_paren) with false. rewrite bool_decide_eq_true_2 by done.
  destruct need; cbn [negb]; [|done]. destruct (checked_add 16 par 1) as [par'|]; [|done]. cbn [ok_or rbind].
  destruct (q_depth limits <? par'); [done|].
  destruct (operator_ok 0 bl (mkOperator OperatorKind.Open (len pre)) Hb) as [Hs Hok]. split.
  { apply safe_bind; [done|]. by intros bl' _. }
  intros st' H. apply rbind_ok in H as (bl' & Hop & H). apply Ok_inj in H. subst st'.
  destruct (Hok bl' Hop) as (Hb' & Et & os & Eo & Er). eapply single_byte_step; [exact Hp|done|done|done| |].
  - by eapply terms_state_reduce.
  - intros toks Hgs. unfold grammar_state in *. cbn [builder need_operand] in *. rewrite Eo.
    cbn in Er. rewrite reduce_stack_false in Er. injection Er as <- <-. by constructor.
Qed.

Lemma close_step input pre r st : pinv input pre (close_paren :: r) st ->
  step_post input pre close_paren r (parse_step' input st).
Proof.
  intros Hp. pose proof Hp as [Ei Hc Hv Hb Ht _]. destruct st as [bl c need par]. cbn [cursor builder] in *. subst c.
  unfold parse_step. rewrite Ei, index_app_0, <- Ei. cbn [or_panic rbind].
  change (is_ascii_whitespace close_paren) with false.
  rewrite (bool_decide_eq_false_2 (close_paren = open_paren)), (bool_decide_eq_true_2 (close_paren = close_paren)) by done.
  destruct need; [done|]. destruct (close_ok 0 bl (len pre) Hb) as [Hs Hok]. split.
  { apply safe_bind; [done|]. intros bl' _. apply safe_bind; [auto with pin|]. done. }
  intros st' H. apply rbind_ok in H as (bl' & Hop & H). apply rbind_ok in H as (par' & _ & H).
  apply Ok_inj in H. subst st'. destruct (Hok bl' Hop) as (Hb' & Et & Er).
  eapply single_byte_step; [exact Hp|done|done|done| |].
  - by eapply terms_state_reduce.
  - intros toks Hgs. unfold grammar_state in *. cbn [builder need_operand] in *.
    destruct Hgs as (ts & us & v & vs' & -> & He & Ev & Hpend & Hn). rewrite Ev in Er.
    destruct (reduce_for_close _ _ _ _ _ _ _ Hpend He Er) as (us' & v' & vs'' & ts' & Ev' & E & ? & ?).
    exists ts', us', v', vs''. rewrite <- E, <- app_assoc. split_and!; try done.
    intros En. destruct Hb' as [_ _ _ _ Hvs _ _]. rewrite En in Hvs. unfold vals in Ev'.
    destruct (items (b_values bl')); [done|]. apply list.Forall_cons_1 in Hvs as [Hvs _]. by apply N.nlt_0_r in Hvs.
Qed.

Lemma quote_step input pre r st : pinv input pre (quote :: r) st ->
  step_post input pre quote r (parse_step' input st).
Proof.
  intros Hp. pose proof Hp as [Ei Hc Hv Hb Ht _]. destruct st as [bl c need par]. cbn [cursor builder] in *. subst c.
  unfold parse_step. rewrite Ei, index_app_0, <- Ei. cbn [or_panic rbind].
  change (is_ascii_whitespace quote) with false.
  rewrite (bool_decide_eq_false_2 (quote = open_paren)), (bool_decide_eq_false_2 (quote = close_paren)),
    (bool_decide_eq_true_2 (quote = quote)) by done.
  destruct need; cbn [negb]; [|done].
  pose proof (ascii_tail _ _ Hv quote_ascii) as Hr. unfold quoted.
  assert (Ei' : input = (pre ++ [quote]) ++ r) by (rewrite <- app_assoc; exact Ei).
  replace (len pre + 1) with (len (pre ++ [quote])) by (by rewrite len_app).
  pose proof Hb as [Hbb Hbl Hbh _ _ _ _].
  destruct (quoted_loop_ok (S (length input)) input (len pre) (q_bytes limits) (pre ++ [quote]) r vec_new
    (capacity (b_values bl) * usize_size + capacity (b_operators bl) * operator_size) (b_budget bl) Ei' Hr) as [Hs Hok].
  { rewrite Ei', length_app. lia. }
  { done. }
  { cbn. lia. }
  destruct (quoted_loop grow (S (length input)) input (len pre) (len (pre ++ [quote])) (q_bytes limits) vec_new (b_budget bl))
    as [[[text c'] b1]|e|]; [|done|done]. clear Hs. cbn [rbind].
  destruct (Hok text c' b1 eq_refl) as (t & r' & pre' & El & Et & Ei2 & -> & Hr' & Htv & Hlt & Hb1 & Hl1 & Hu1).
  cbn in Et. assert (Hbq : binv (capacity text) (set_budget bl b1)).
  { apply binv_held with 0; done. }
  destruct (literal_ok _ (set_budget bl b1) (items text) true false (len pre) Htv Hbq) as [Hs2 Hok2].
  destruct (literal grow node_size string_size limits (set_budget bl b1) (items text) true false (len pre))
    as [bl'|e|]; [|done|done]. clear Hs2. cbn [rbind].
  destruct (Hok2 bl' eq_refl) as (Hb' & Eo & tr & Elit & Ev & Ett & Hlim & Hnodes). pose proof Hb' as [Hbb' _ Hh' _ _ _ _].
  destruct (release_ok (b_budget bl') (capacity text) Hbb') as (b2 & -> & Hb2 & Hl2 & Hu2); [lia|]. cbn [rbind].
  split; [done|]. intros st' [= <-].
  assert (Hsplit : exists p, pre' = pre ++ p /\ quote :: r = p ++ r' /\ p <> []).
  { rewrite Ei in Ei2. apply app_eq_inv in Ei2 as [(k & -> & E)|(k & E1 & E2)].
    - exfalso. rewrite !len_app in Hlt. lia.
    - exists k. split_and!; [done..|]. intros ->. rewrite app_nil_r in E1. subst. rewrite len_app, len_cons in Hlt. lia. }
  destruct Hsplit as (p & -> & Esp & Hne). exists p, r'. split_and!; [done|done|].
  rewrite len_app. eapply (pinv_next input pre r' quote r); [exact Hp|exact Esp| |done| | |].
  - unfold lex1. change (is_ascii_whitespace quote) with false.
    rewrite (bool_decide_eq_false_2 (quote = open_paren)), (bool_decide_eq_false_2 (quote = close_paren)),
      (bool_decide_eq_true_2 (quote = quote)) by done. by rewrite El.
  - apply binv_budget with (capacity text); [done..|]. lia.
  - destruct Ht as [Ht _]. unfold terms_state. rewrite vals_set_budget. split; [|done].
    cbn [set_budget b_terms]. rewrite Ett, Ev, vals_set_budget. cbn [set_budget b_terms]. rewrite Ht. apply N.add_comm.
  - intros toks Hgs. unfold grammar_state in *. cbn [builder need_operand] in *.
    exists toks, [TLit true false t], tr, (vals bl). split_and!; try done.
    + constructor. by rewrite <- Et.
    + unfold ops in *. cbn [set_budget b_operators] in *. by rewrite Eo.
Qed.

Lemma parse_step_ok input pre b r st : pinv input pre (b :: r) st ->
  step_post input pre b r (parse_step' input st).
Proof.
  intros Hp. destruct (is_ascii_whitespace b) eqn:Ew.
  - pose proof Hp as [Ei Hc Hv Hb Ht _]. destruct st as [bl c need par]. cbn [cursor builder] in *. subst c.
    unfold parse_step. rewrite Ei, index_app_0, <- Ei. cbn [or_panic rbind]. rewrite Ew. split; [done|].
    intros st' [= <-]. eapply single_byte_step; [exact Hp| | |done|done|].
    + unfold lex1. by rewrite Ew.
    + apply is_delimiter_ascii. unfold is_delimiter. by rewrite Ew.
    + intros toks. unfold grammar_state. cbn. by rewrite app_nil_r.
  - destruct (decide (b = open_paren)) as [->|Ho]; [by apply open_step|].
    destruct (decide (b = close_paren)) as [->|Hc]; [by apply close_step|].
    destruct (decide (b = quote)) as [->|Hq]; [by apply quote_step|].
    assert (E : parse_step' input st = parse_word' input st).
    { pose proof Hp as [Ei Hcur _ _ _ _]. destruct st as [bl c need par]. cbn [cursor] in Hcur. subst c.
      unfold parse_step. rewrite Ei, index_app_0, <- Ei. cbn [or_panic rbind].
      by rewrite Ew, !bool_decide_eq_false_2. }
    rewrite E. apply parse_word_ok; [done|]. unfold is_delimiter. by rewrite Ew, !bool_decide_eq_false_2.
Qed.

Lemma parse_loop_ok fuel input pre rest st : pinv input pre rest st -> (length rest < fuel)%nat ->
  safe (parse_loop grow node_size operator_size string_size limits fuel input st) /\
  forall st', parse_loop grow node_size operator_size string_size limits fuel input st = Ok st' ->
    pinv input input [] st'.
Proof.
  revert pre rest st; induction fuel as [|fuel IH]; intros pre rest st Hp Hf; [lia|]. cbn [parse_loop].
  pose proof Hp as [Ei Hc _ _ _ _]. rewrite Hc, Ei, len_app, <- Ei. destruct rest as [|b r].
  - destruct (N.ltb_spec (len pre) (len pre + len (@nil byte))) as [Hlt|_]; [rewrite len_nil in Hlt; lia|].
    split; [done|]. intros st' [= <-]. rewrite app_nil_r in Ei. by subst pre.
  - rewrite len_cons. destruct (N.ltb_spec (len pre) (len pre + (1 + len r))); [|lia].
    destruct (parse_step_ok input pre b r st Hp) as [Hs Hok]. split.
    + apply safe_bind; [done|]. intros st1 H1. destruct (Hok st1 H1) as (p & rest & Hne & E & Hp1).
      apply (IH _ _ _ Hp1). apply (f_equal length) in E. rewrite length_app in E. cbn in *. destruct p; [done|]. cbn in E. lia.
    + intros st' H'. apply rbind_ok in H' as (st1 & H1 & H'). destruct (Hok st1 H1) as (p & rest & Hne & E & Hp1).
      apply (IH _ _ _ Hp1) in H'; [done|]. apply (f_equal length) in E. rewrite length_app in E. cbn in *. destruct p; [done|]. cbn in E. lia.
Qed.

Lemma vals_single self v : vals self = [v] -> exists i, items (b_values self) = [i] /\ node_tree (items (b_nodes self)) i = v.
Proof.
  unfold vals. intros E. destruct (items (b_values self)) as [|i [|j l]].
  - done.
  - exists i. split; [done|]. by injection E.
  - apply (f_equal length) in E. rewrite length_reverse, length_fmap in E. done.
Qed.

(** The builder once every operator is reduced. *)
Lemma finish_reduce input st : pinv input input [] st ->
  let m := (let* builder :=
      if bool_decide (items (b_nodes (builder st)) = []) && bool_decide (items (b_operators (builder st)) = [])
      then add_node' (builder st) Kind.None
      else if need_operand st then Err (QuerySyntax (len input)) else Ok (builder st) in
    reduce_while' (operators_fuel builder) (fun _ => true) builder) in
  safe m /\ forall b, m = Ok b -> binv 0 b /\ terms_state b /\
    exists v, vals b = [v] /\ query_syntax input v.
Proof.
  intros [_ _ _ Hb Ht (toks & El & Hgs)] m; subst m. cbn in El.
  assert (Hred : forall b, binv 0 b -> terms_state b ->
    (forall vs, reduce_stack (fun _ => true) (ops b) (vals b) = Some ([], vs) -> exists v, vs = [v] /\ query_syntax input v) ->
    (forall os vs, reduce_stack (fun _ => true) (ops b) (vals b) = Some (os, vs) -> os = []) ->
    safe (reduce_while' (operators_fuel b) (fun _ => true) b) /\
    forall b', reduce_while' (operators_fuel b) (fun _ => true) b = Ok b' ->
      binv 0 b' /\ terms_state b' /\ exists v, vals b' = [v] /\ query_syntax input v).
  { intros b Hi Htb Hv Ho. destruct (reduce_while_ok (operators_fuel b) (fun _ => true) (fun _ => true) 0 b) as [Hs Hok];
      try done; [unfold operators_fuel; lia|].
    split; [done|]. intros b' H. destruct (Hok b' H) as (? & Et & Er & _). pose proof (Ho _ _ Er) as Eo.
    rewrite Eo in Er. split_and!; [done|by eapply terms_state_reduce|by apply Hv]. }
  destruct (bool_decide_reflect (items (b_nodes (builder st)) = [])) as [En|En];
    [destruct (bool_decide_reflect (items (b_operators (builder st)) = [])) as [Eo|Eo]|]; cbn [andb].
  - unfold grammar_state in Hgs. assert (Eops : ops (builder st) = []) by (unfold ops; by rewrite Eo).
    destruct (need_operand st).
    2:{ by destruct Hgs as (? & ? & ? & ? & _ & _ & _ & _ & ?). }
    rewrite Eops in Hgs. inversion Hgs as [Eo1 Ev| | | |]; subst toks.
    destruct (add_node_ok 0 (builder st) Kind.None Hb) as [Hs Hok]; [constructor|]. split.
    + apply safe_bind; [done|]. intros b Hadd. destruct (Hok b Hadd) as (Hb' & _).
      destruct (reduce_while_ok (operators_fuel b) (fun _ => true) (fun _ => true) 0 b) as [Hs' _]; try done.
      unfold operators_fuel. lia.
    + intros b' H. apply rbind_ok in H as (b & Hadd & H). destruct (Hok b Hadd) as (Hb' & Eo' & Et & Ev' & _).
      cbn [shape] in Ev'. assert (Eob : ops b = []) by (unfold ops; by rewrite Eo', Eo).
      refine (proj2 (Hred b Hb' _ _ _) b' H).
      * destruct Ht as [Ht Hl]. split; [by rewrite Et, Ev', Ht|by rewrite Et].
      * intros vs Er. rewrite Eob, Ev', <- Ev in Er. injection Er as <-. exists TreeNone. split; [done|].
        exists []. split; [by rewrite El|by left].
      * intros os vs Er. rewrite Eob in Er. by injection Er.
  - destruct (need_operand st) eqn:Ene; [done|]. unfold grammar_state in Hgs. rewrite Ene in Hgs.
    by destruct Hgs as (? & ? & ? & ? & _ & _ & _ & _ & ?).
  - destruct (need_operand st) eqn:Ene; [done|]. unfold grammar_state in Hgs. rewrite Ene in Hgs.
    destruct Hgs as (ts & us & v & vs' & -> & He & Ev & Hpend & _). cbn [rbind]. apply Hred; [done|done| |].
    + intros vs Er. rewrite Ev in Er. destruct (reduce_for_end _ _ _ _ _ _ _ Hpend He Er) as (_ & v' & -> & He').
      exists v'. split; [done|]. exists (ts ++ us). split; [|by right]. rewrite El. cbn. by rewrite app_nil_r.
    + intros os vs Er. rewrite Ev in Er. by destruct (reduce_for_end _ _ _ _ _ _ _ Hpend He Er) as (-> & _).
Qed.

Definition parse_post (input : list byte) (q : Query) : Prop :=
  query_wf q /\ query_syntax input (query_tree q) /\ source q = input /\
  terms q = tree_words (query_tree q) /\ terms q <= q_terms limits /\
  Forall (fun n => depth n <= q_depth limits) (items (nodes q)) /\ node_count q <= q_nodes limits /\
  query_retained q <= q_memory_bytes limits.

Lemma parse_finish_ok input st : pinv input input [] st ->
  safe (parse_finish grow node_size operator_size limits input st) /\
  forall q, parse_finish grow node_size operator_size limits input st = Ok q -> parse_post input q.
Proof.
  intros Hp. pose proof (finish_reduce input st Hp) as Hfr. destruct st as [bl c need par]. cbn [builder need_operand] in Hfr.
  unfold parse_finish. rewrite <- rbind_assoc.
  destruct (rbind _ _) as [b|e|] eqn:E; cbn [rbind]; [|by split; [done|]|by destruct Hfr].
  destruct Hfr as [_ Hok]. destruct (Hok b eq_refl) as (Hi & Ht & v & Ev & Hsyn). clear Hok E.
  destruct (vals_single b v Ev) as (i & Ei & Etree). rewrite Ei.
  change (negb (len [i] =? 1)) with false. change (index [i] 0) with (Some i). cbn [orb].
  destruct (negb (par =? 0)); [done|]. cbn [or_panic rbind].
  destruct Hi as [Hb Hl Hh Hw Hv Hd Hn]. pose proof Hb as (Hb1 & Hb2 & Hb3).
  rewrite checked_mul_fits by lia. cbn [or_panic rbind]. rewrite checked_mul_fits by lia. cbn [or_panic rbind].
  unfold add_w. rewrite checked_add_fits by lia. cbn [or_panic rbind].
  destruct (release_ok (b_budget b) (capacity (b_values b) * usize_size + capacity (b_operators b) * operator_size) Hb)
    as (b2 & -> & Hb' & Hl' & _); [lia|]. cbn [rbind].
  destruct (copy_text_ok input b2 Hb') as [Hs Hok]. split.
  { apply safe_bind; [done|]. by intros [? ?] _. }
  intros q H. apply rbind_ok in H as ([text b3] & Hc & H). apply Ok_inj in H. subst q.
  destruct (Hok _ _ Hc) as (Et & (? & ? & ?) & Hl3 & _). rewrite Ei in Hv. apply list.Forall_cons_1 in Hv as [Hv _].
  destruct Ht as [Ht1 Ht2]. rewrite Ev in Ht1. cbn in Ht1. rewrite N.add_0_r in Ht1.
  unfold parse_post, query_wf, query_tree, node_count. cbn [nodes root source terms query_retained].
  rewrite Etree. split_and!; try done; congruence || lia.
Qed.
End Parse.

(** * Properties *)
Section ParseProperties.
Context `{HU : Unicode} {HT : UnicodeTables} {HA : UnicodeAscii} {HW : UnicodeWords} (grow : N -> option N).
Context (node_size operator_size string_size : N) (limits : QueryLimits).

Lemma parse_cases (Hg : forall n c, grow n = Some c -> n <= c) input :
  q_memory_bytes limits < 2 ^ usize -> utf8_valid input = true ->
  safe (parse grow node_size operator_size string_size limits input) /\
  forall q, parse grow node_size operator_size string_size limits input = Ok q ->
    parse_post limits input q /\ len input <= q_bytes limits.
Proof.
  intros Hmem Hv. unfold parse. destruct (N.ltb_spec (q_bytes limits) (len input)); [done|].
  set (b0 := mkBuilder _ _ _ _ _).
  assert (Hp : pinv operator_size limits input [] input (mkParseState b0 0 true 0)).
  { constructor; try done.
    - constructor; cbn; try done; try lia; [by apply budget_new_wf|apply nodes_wf_nil|apply N.le_0_l].
    - split; [done|]. cbn. lia.
    - exists []. split; [by destruct (lex input)|]. constructor. }
  destruct (parse_loop_ok grow Hg node_size operator_size string_size limits Hmem (S (length input)) input [] input _ Hp)
    as [Hs Hok]; [lia|]. split.
  - apply safe_bind; [done|]. intros st Hst. by apply (parse_finish_ok grow Hg node_size operator_size limits Hmem), Hok.
  - intros q H'. apply rbind_ok in H' as (st & Hst & H'). split; [|done].
    by apply (parse_finish_ok grow Hg node_size operator_size limits Hmem input st (Hok st Hst)).
Qed.
End ParseProperties.

(** C30: the operator-precedence parser implements the grammar: a query it returns
    denotes a tree that the stratified grammar (OR below AND below NOT, left
    associative, parentheses, quoted phrases, prefixes) derives from the tokens of the
    text, the empty text denoting the query that matches nothing; the literals carry
    the words of their profile, and the source is kept verbatim. *)
Theorem parse_implements_grammar `{UnicodeTables} `{!UnicodeAscii} `{!UnicodeWords}
    grow node_size operator_size string_size limits input q :
  (forall n c, grow n = Some c -> n <= c) -> q_memory_bytes limits < 2 ^ usize -> utf8_valid input = true ->
  parse grow node_size operator_size string_size limits input = Ok q ->
  query_syntax input (query_tree q) /\ source q = input /\ terms q = tree_words (query_tree q).
Proof.
  intros Hg Hm Hv Hp. apply (parse_cases grow node_size operator_size string_size limits Hg) in Hp as [Hp _]; [|done..].
  by destruct Hp as (_ & ? & ? & ? & _).
Qed.

(** C35: parsing always ends with a query or an error, never a panic; a query it returns
    is well-formed (children before parents, the root in range, every node carrying
    the depth of its tree) and within every limit: bytes, nodes, nesting depth, words
    and memory. *)
Theorem parse_safe_and_bounded `{UnicodeTables} `{!UnicodeAscii} `{!UnicodeWords}
    grow node_size operator_size string_size limits input :
  (forall n c, grow n = Some c -> n <= c) -> q_memory_bytes limits < 2 ^ usize -> utf8_valid input = true ->
  parse grow node_size operator_size string_size limits input <> Panic /\
  forall q, parse grow node_size operator_size string_size limits input = Ok q ->
    query_wf q /\ query_depth (E := Error) q = Ok (tree_depth (query_tree q)) /\
    tree_depth (query_tree q) <= q_depth limits /\ node_count q <= q_nodes limits /\
    terms q <= q_terms limits /\ query_retained q <= q_memory_bytes limits /\ len input <= q_bytes limits.
Proof.
  intros Hg Hm Hv. destruct (parse_cases grow node_size operator_size string_size limits Hg input Hm Hv) as [Hs Hok].
  split; [done|]. intros q Hq. destruct (Hok q Hq) as [(Hwf & _ & _ & _ & Ht & Hd & Hn & Hr) Hl].
  pose proof Hwf as [Hw Hroot]. destruct (node_depth _ _ Hw Hroot) as (n & En & Ed).
  unfold query_depth. rewrite En. cbn [or_panic rbind]. rewrite Ed. unfold query_tree. split_and!; try done.
  rewrite <- Ed. apply list_elem_of_lookup_2 in En. exact (proj1 (list.Forall_forall _ _) Hd n En).
Qed.

Import Sample.
(** cat AND NOT (do* OR "A b") *)
Definition sample_query : list byte :=
  byte_of <$> [0x63; 0x61; 0x74; 0x20; 0x41; 0x4e; 0x44; 0x20; 0x4e; 0x4f; 0x54; 0x20; 0x28; 0x64; 0x6f; 0x2a; 0x20;
    0x4f; 0x52; 0x20; 0x22; 0x41; 0x20; 0x62; 0x22; 0x29].
Definition sample_query_limits : QueryLimits := mkQueryLimits 256 64 8 16 32 65536.
Definition sample_parsed : Query :=
  match parse Some 40 16 24 sample_query_limits sample_query with Ok q => q | _ => mkQuery vec_new 0 [] 0 0 end.
Lemma parse_implements_grammar_witness :
  parse Some 40 16 24 sample_query_limits sample_query = Ok sample_parsed /\
  query_tree sample_parsed = TreeAnd (TreeTerm (byte_of <$> [0x63; 0x61; 0x74]))
    (TreeNot (TreeOr (TreePrefix (byte_of <$> [0x64; 0x6f])) (TreePhrase [[byte_of 0x61]; [byte_of 0x62]]))) /\
  query_syntax sample_query (query_tree sample_parsed).
Proof.
  assert (E : parse Some 40 16 24 sample_query_limits sample_query = Ok sample_parsed) by (vm_compute; reflexivity).
  split; [exact E|]. split; [vm_compute; reflexivity|].
  apply (parse_implements_grammar Some 40 16 24 sample_query_limits sample_query sample_parsed); [|done|by vm_compute|exact E].
  intros n c [=]; lia.
Defined.
Lemma parse_safe_and_bounded_witness :
  parse Some 40 16 24 sample_query_limits sample_query = Ok sample_parsed /\
  node_count sample_parsed <= 64 /\ tree_depth (query_tree sample_parsed) <= 8.
Proof.
  assert (E : parse Some 40 16 24 sample_query_limits sample_query = Ok sample_parsed) by (vm_compute; reflexivity).
  split; [exact E|].
  destruct (parse_safe_and_bounded Some 40 16 24 sample_query_limits sample_query) as [_ Hok];
    [intros n c [=]; lia|done|by vm_compute|].
  destruct (Hok _ E) as (_ & _ & Hd & Hn & _). split; [exact Hn|exact Hd].
Defined.
