(* ===== verification/QueryCodec.v ===== *)
(** Stored queries: [Query::encode] and [Query::decode] of
    [src/crates/pin-core/src/query.rs].  A stored query is a frame of kind 5 around its
    source text; decoding parses the text again. *)
From S2P Require Export QueryParse.

(** The payload: profile, version, flags, the text and its length. *)
Definition query_body (text : list byte) : list byte :=
  le_bytes 4 PROFILE_ID ++ le_bytes 2 1 ++ le_bytes 2 0 ++ le_bytes 4 (len text) ++ text.
Lemma len_query_body text : len (query_body text) = 12 + len text.
Proof. unfold query_body. len_lia. Qed.

Section QueryCodec.
Context `{HU : Unicode} (grow : N -> option N) (node_size operator_size string_size : N) (limits : QueryLimits).
Abbreviation parse' := (parse grow node_size operator_size string_size limits).
Abbreviation decode' := (decode grow node_size operator_size string_size limits).

Lemma decode_iff bs q : small bs -> q_bytes limits + 28 < 2 ^ usize ->
  decode' bs = Ok q <-> len bs <= q_bytes limits + 28 /\
    exists text, utf8_valid text = true /\ 12 + len text < 2 ^ 32 /\ bs = frame 5 (query_body text) /\ parse' text = Ok q.
Proof.
  intros Hs Hq. unfold decode. rewrite checked_add_fits by done. cbn [ok_or rbind]. rewrite rbind_ok. split.
  - intros (p & Hp & H). apply lift_codec_ok, payload_iff in Hp as (Hm & Hl & ->); [|done|done]. split; [done|].
    assert (Hsp : small p) by (unfold small, isize_max; lia). rewrite reading_new in H.
    next_lifted H u32_format as prof t1 Hp1. apply if_err_ok in H as [->%negb_false_iff%N.eqb_eq H].
    next_lifted H u16_format as ver t2 Hp2. apply if_err_ok in H as [->%negb_false_iff%N.eqb_eq H].
    next_lifted H u16_format as fl t3 Hp3. apply if_err_ok in H as [->%negb_false_iff%N.eqb_eq H].
    next_lifted H u32_format as n t4 Hp4. next_lifted H (take_format _) as text t5 Hp5.
    apply if_err_ok in H as [Hu%negb_false_iff H]. apply rbind_ok in H as (u & Hf & H).
    apply lift_codec_ok, finish_reading_iff in Hf as ->. unfold Datatypes.id in *. rewrite app_nil_r in *. subst n.
    exists text. split_and!; [done| |done|done]. rewrite !len_app, !len_le_bytes in Hl. lia.
  - intros (Hm & text & Hu & Ht & -> & H). exists (query_body text).
    assert (Hb : len (query_body text) < 2 ^ 32) by (rewrite len_query_body; lia).
    split; [apply lift_codec_ok, payload_iff; [done|done|]; done|].
    assert (Hsb : small (query_body text)) by (unfold small, isize_max; lia). rewrite reading_new. unfold query_body in *.
    give_lifted u32_format PROFILE_ID; [done|]. change (negb (PROFILE_ID =? PROFILE_ID)) with false. cbv iota.
    give_lifted u16_format 1; [done|]. change (negb (1 =? 1)) with false. cbv iota.
    give_lifted u16_format 0; [done|]. change (negb (0 =? 0)) with false. cbv iota.
    give_lifted u32_format (len text); [lia|].
    give_lifted (take_format _) text before (@nil byte); [done|by rewrite app_nil_r|].
    rewrite Hu. cbn [negb]. by rewrite finish_reading.
Qed.

Lemma query_encode_ok q out max : small out -> 12 + len (source q) < 2 ^ 32 -> 28 + len (source q) <= max ->
  28 + len (source q) <= len out ->
  encode q out max = Ok (28 + len (source q),
    frame 5 (query_body (source q)) ++ drop (length (frame 5 (query_body (source q)))) out).
Proof.
  intros Hs Hl Hm Ho. unfold encode, HEADER_BYTES, check_u32.
  rewrite checked_add_fits by (unfold usize; lia). cbn [ok_or rbind]. rewrite checked_add_fits by (unfold usize; lia).
  rewrite (proj2 (N.ltb_ge _ _)) by lia. rewrite (proj2 (N.ltb_ge _ _)) by (unfold u32_max; lia). cbn [rbind].
  pose proof (len_frame_header 5 (len (source q) + 12)) as Hh.
  rewrite start_writing by (done || lia). cbn [lift_codec map_err rbind]. unfold Writer.u32, Writer.u16.
  repeat (rewrite put_writing by (done || len_lia); cbn [lift_codec map_err rbind]).
  rewrite written_out. f_equal. unfold frame. rewrite len_query_body. unfold query_body.
  replace (12 + len (source q)) with (len (source q) + 12) by lia.
  rewrite <- !app_assoc. f_equal. rewrite !len_app, Hh, !len_le_bytes. cbn. lia.
Qed.
End QueryCodec.

(** C36: a stored query is its source: [decode] accepts exactly the frames of kind 5
    around a valid text (profile 1, version 1, no flags, nothing after it) that parses,
    and a parsed query that is encoded into a buffer with room takes 28 bytes more than
    its text and is decoded to the same query. *)
Theorem query_codec_exact `{UnicodeTables} `{!UnicodeAscii} `{!UnicodeWords}
    grow node_size operator_size string_size limits input bytes output q max :
  (forall n c, grow n = Some c -> n <= c) -> q_memory_bytes limits < 2 ^ usize -> q_bytes limits + 28 < 2 ^ usize ->
  small bytes -> small output -> utf8_valid input = true -> 12 + len input < 2 ^ 32 ->
  (decode grow node_size operator_size string_size limits bytes = Ok q <->
     len bytes <= q_bytes limits + 28 /\
     exists text, utf8_valid text = true /\ 12 + len text < 2 ^ 32 /\ bytes = frame 5 (query_body text) /\
       parse grow node_size operator_size string_size limits text = Ok q) /\
  (parse grow node_size operator_size string_size limits input = Ok q ->
   28 + len input <= max -> 28 + len input <= len output ->
   exists out', encode q output max = Ok (28 + len input, out') /\
     decode grow node_size operator_size string_size limits (take (N.to_nat (28 + len input)) out') = Ok q).
Proof.
  intros Hg Hm Hq Hb Ho Hu Hl. split; [by apply decode_iff|]. intros Hp Hmax Hlen.
  pose proof (proj2 (parse_cases grow node_size operator_size string_size limits Hg input Hm Hu) q Hp) as [Hpost Hin].
  destruct Hpost as (_ & _ & Es & _). eexists. split; [rewrite <- Es; apply query_encode_ok; rewrite ?Es; done|].
  rewrite Es. assert (El : 28 + len input = len (frame 5 (query_body input))) by (rewrite len_frame, len_query_body; lia).
  rewrite El, to_nat_len, take_app_length. apply decode_iff; [|done|].
  - unfold small, isize_max. lia.
  - split; [lia|]. by exists input.
Qed.
Import Sample.
Lemma query_codec_exact_witness :
  exists out', encode sample_parsed (replicate 60 xff) 64 = Ok (54, out') /\
    decode Some 40 16 24 sample_query_limits (take (N.to_nat 54) out') = Ok sample_parsed.
Proof.
  apply (proj2 (query_codec_exact Some 40 16 24 sample_query_limits sample_query [] (replicate 60 xff) sample_parsed 64
    ltac:(intros n c [=]; lia) ltac:(done) ltac:(done) ltac:(vm_compute; discriminate) ltac:(vm_compute; discriminate)
    ltac:(by vm_compute) ltac:(done))); [vm_compute; reflexivity|vm_compute; discriminate|vm_compute; discriminate].
Defined.
