(* ===== verification/Oracle.v ===== *)
(** The semantic oracle: [src/crates/pin-core/src/oracle.rs].

    [matches] evaluates the flat nodes of a query against an analyzed document, charging
    one unit of work per node and per comparison.  The specification is [holds] on the
    query's tree and the word list of the document ([Grammar]), and [query_cost], the
    comparisons a left-to-right search makes. *)
From S2P Require Export QueryParse.

Section Oracle.
Context (grow : N -> option N).

(** [for token in document.tokens() { work.charge(1)?; if p(token) { found; break } }] *)
Fixpoint find_token (p : Token -> bool) (tokens : list (res Error Token)) (work : Work) : Result (bool * Work) :=
  match tokens with
  | [] => Ok (false, work)
  | token :: rest =>
      let* token := token in
      let* work := work_charge work 1 in
      if p token then Ok (true, work) else find_token p rest work
  end.

(** The inner loop of a phrase: the words from [start + distance] on against [terms]. *)
Fixpoint window_equal (document : Analyzed) (start distance : N) (terms : list (list byte)) (work : Work)
  : Result (bool * Work) :=
  match terms with
  | [] => Ok (true, work)
  | t :: rest =>
      let* work := work_charge work 1 in
      let* token := token document (start + distance) in
      if match token with None => true | Some token => negb (bool_decide (term token = t)) end
      then Ok (false, work) else window_equal document start (distance + 1) rest work
  end.
(** The outer loop over [0..document.len()]. *)
Fixpoint find_phrase (document : Analyzed) (terms : list (list byte)) (starts : list N) (work : Work)
  : Result (bool * Work) :=
  match starts with
  | [] => Ok (false, work)
  | start :: rest =>
      if token_count document - start <? len terms then Ok (false, work) else
      let* '(equal, work) := window_equal document start 0 terms work in
      if equal then Ok (true, work) else find_phrase document terms rest work
  end.

(** [values[child]] *)
Definition value_at (values : list bool) (i : N) : Result bool := or_panic (index values i).

(** The body of the loop over the nodes. *)
Definition match_node (document : Analyzed) (st : list bool * Work) (node : Node) : Result (list bool * Work) :=
  let '(values, work) := st in
  let* work := work_charge work 1 in
  let* '(value, work) :=
    match kind node with
    | Kind.None => Ok (false, work)
    | Kind.Term t => find_token (fun token => bool_decide (term token = t)) (tokens document) work
    | Kind.Prefix p => find_token (fun token => starts_with p (term token)) (tokens document) work
    | Kind.Phrase ts => find_phrase document ts (range 0 (token_count document)) work
    | Kind.Not child => let* v := value_at values child in Ok (negb v, work)
    | Kind.And lhs rhs =>
        let* l := value_at values lhs in
        if l then let* r := value_at values rhs in Ok (r, work) else Ok (false, work)
    | Kind.Or lhs rhs =>
        let* l := value_at values lhs in
        if l then Ok (true, work) else let* r := value_at values rhs in Ok (r, work)
    end in
  Ok (values ++ [value], work).

(** [matches] *)
Definition matches (document : Analyzed) (query : Query) (memory_bytes max_steps : N) : Result bool :=
  if negb (profile document =? PROFILE_ID) then Err InvalidProfile else
  let budget := budget_new memory_bytes in
  let* '(_, budget) := vector (A := bool) grow 1 (node_count query) budget in
  let* '(values, work) := foldM (match_node document) ([], max_steps) (items (nodes query)) in
  value_at values (root query).

(** [matches_nullable] *)
Definition matches_nullable (document : option Analyzed) (query : Query) (memory_bytes max_steps : N)
  : Result (option bool) :=
  match document with
  | None => Ok None
  | Some document => let* b := matches document query memory_bytes max_steps in Ok (Some b)
  end.
End Oracle.

(** ** What a search costs *)
Fixpoint scan_cost {A} (p : A -> bool) (l : list A) : N :=
  match l with [] => 0 | x :: l => 1 + (if p x then 0 else scan_cost p l) end.
Fixpoint window_cost (ws phrase : list (list byte)) {struct phrase} : N :=
  match phrase with
  | [] => 0
  | p :: phrase => 1 + match ws with w :: ws => if bool_decide (w = p) then window_cost ws phrase else 0 | [] => 0 end
  end.
Fixpoint phrase_cost (ws phrase : list (list byte)) : N :=
  match ws with
  | [] => 0
  | _ :: ws' =>
      if len ws <? len phrase then 0 else
      window_cost ws phrase + (if window_at ws phrase 0 then 0 else phrase_cost ws' phrase)
  end.
Definition kind_cost (ws : list (list byte)) (k : Kind.t) : N :=
  match k with
  | Kind.Term t => scan_cost (fun w => bool_decide (w = t)) ws
  | Kind.Prefix p => scan_cost (starts_with p) ws
  | Kind.Phrase ps => phrase_cost ws ps
  | _ => 0
  end.
(** One unit per node, and its comparisons. *)
Definition nodes_cost (ws : list (list byte)) (ns : list Node) : N :=
  foldr (fun n c => 1 + kind_cost ws (kind n) + c) 0 ns.
Definition query_cost (ws : list (list byte)) (q : Query) : N := nodes_cost ws (items (nodes q)).

(** ** The loops against the word list *)
Lemma work_charge_0 w : work_charge w 0 = Ok w.
Proof. unfold work_charge, checked_sub. rewrite (proj2 (N.leb_le 0 w)) by apply N.le_0_l. by rewrite N.sub_0_r. Qed.
Lemma work_charge_add w a b :
  (let* w := work_charge w a in work_charge w b) = work_charge w (a + b).
Proof.
  unfold work_charge, checked_sub. destruct (N.leb_spec a w); cbn.
  - destruct (N.leb_spec b (w - a)), (N.leb_spec (a + b) w); cbn; try done; try lia. f_equal. lia.
  - destruct (N.leb_spec (a + b) w); [lia|done].
Qed.
(** Spend [n], then return [x]. *)
Definition spend {A} (work n : N) (x : A) : Result (A * Work) := let* w := work_charge work n in Ok (x, w).
Lemma spend_bind {A B} work n (x : A) (k : A -> Work -> Result B) :
  (let* '(y, w) := spend work n x in k y w) = let* w := work_charge work n in k x w.
Proof. unfold spend. by destruct (work_charge work n). Qed.
Lemma charge_spend {A} work a b (x : A) : (let* w := work_charge work a in spend w b x) = spend work (a + b) x.
Proof. unfold spend. rewrite <- work_charge_add. by destruct (work_charge work a). Qed.

Lemma find_token_words (p : list byte -> bool) i ws work :
  find_token (fun t => p (term t)) (imap (fun j w => Ok (mkToken w (N.of_nat (i + j)))) ws) work
    = spend work (scan_cost p ws) (existsb p ws).
Proof.
  revert i work; induction ws as [|w ws IH]; intros i work; cbn [imap find_token scan_cost existsb].
  - unfold spend. by rewrite work_charge_0.
  - cbn [rbind term].
    assert (E : imap ((fun j w => Ok (E := Error) (mkToken w (N.of_nat (i + j)))) ∘ S) ws
      = imap (fun j w => Ok (mkToken w (N.of_nat (S i + j)))) ws).
    { apply imap_ext. intros j x _. cbn. by rewrite Nat.add_succ_r. }
    rewrite E. destruct (p w); cbn [orb].
    + rewrite N.add_0_r. done.
    + setoid_rewrite IH. apply charge_spend.
Qed.

Section Document.
Context (a : Analyzed) (ws : list (list byte)) (Ha : analyzed_words a ws).

Lemma window_equal_words i d ps work : (i + d <= length ws)%nat ->
  window_equal a (N.of_nat i) (N.of_nat d) ps work
    = spend work (window_cost (drop (i + d) ws) ps) (window_at (drop (i + d) ws) ps 0).
Proof.
  revert d work; induction ps as [|p ps IH]; intros d work Hd; cbn [window_equal window_cost].
  - unfold spend. by rewrite work_charge_0.
  - rewrite (token_words a ws Ha). unfold index.
    replace (N.to_nat (N.of_nat i + N.of_nat d)) with (i + d)%nat by lia.
    destruct (ws !! (i + d)%nat) as [w|] eqn:Ew.
    + rewrite (drop_S ws w (i + d)) by done. cbn [fmap option_fmap option_map rbind term].
      destruct (bool_decide_reflect (w = p)) as [->|Hne]; cbn [negb].
      * replace (N.of_nat d + 1) with (N.of_nat (S d)) by lia.
        assert (Hd' : (i + S d <= length ws)%nat) by (apply lookup_lt_Some in Ew; lia).
        replace (S (i + d)) with (i + S d)%nat by lia.
        setoid_rewrite (IH (S d)); [|done]. rewrite charge_spend. unfold window_at. rewrite !drop_0. cbn [length take].
        f_equal. apply bool_decide_ext. split; [intros E; by rewrite E|by intros [= E]].
      * unfold spend, window_at. rewrite drop_0. cbn [length take]. rewrite bool_decide_eq_false_2 by by intros [= ? _].
        by rewrite N.add_0_r.
    + apply lookup_ge_None in Ew. rewrite (drop_ge ws) by lia. unfold spend, window_at. cbn. done.
Qed.

Lemma find_phrase_words i ps work : (i <= length ws)%nat ->
  find_phrase a ps (range (N.of_nat i) (len ws)) work
    = spend work (phrase_cost (drop i ws) ps)
        (existsb (window_at (drop i ws) ps) (seq 0 (length (drop i ws)))).
Proof.
  intros Hi. remember (length ws - i)%nat as n eqn:En. revert i work Hi En.
  induction n as [|n IH]; intros i work Hi En.
  - rewrite range_nil by (unfold len; lia). rewrite drop_ge by lia. unfold spend. cbn. by rewrite work_charge_0.
  - rewrite range_cons by (unfold len; lia). cbn [find_phrase]. rewrite (token_count_words a ws Ha).
    destruct (ws !! i) as [w|] eqn:Ew; [|apply lookup_ge_None in Ew; lia].
    assert (Ed : len (drop i ws) = len ws - N.of_nat i) by (rewrite len_drop; done).
    rewrite (drop_S ws w i Ew) in *. cbn [phrase_cost length].
    rewrite <- Ed. destruct (len (w :: drop (S i) ws) <? len ps) eqn:Elt.
    + apply N.ltb_lt in Elt. unfold spend. rewrite work_charge_0. cbn [rbind]. f_equal. f_equal. symmetry.
      apply not_true_is_false. intros (k & _ & Hk)%existsb_exists. unfold window_at in Hk.
      apply bool_decide_eq_true_1, (f_equal length) in Hk. rewrite length_take, length_drop in Hk.
      unfold len in Elt. lia.
    + pose proof (window_equal_words i 0 ps work) as Hw. rewrite Nat.add_0_r, (drop_S ws w i Ew) in Hw.
      change (N.of_nat 0) with 0 in Hw. rewrite Hw by lia. rewrite spend_bind. cbn [seq existsb].
      destruct (window_at (w :: drop (S i) ws) ps 0); cbn [orb].
      * by rewrite N.add_0_r.
      * replace (N.of_nat i + 1) with (N.of_nat (S i)) by lia. setoid_rewrite IH; [|lia..]. rewrite charge_spend.
        f_equal. rewrite <- seq_shift. induction (seq 0 (length (drop (S i) ws))) as [|k l IHl]; [done|].
        cbn. by rewrite IHl.
Qed.

(** One node: its value is its tree's, and the work is its cost. *)
Lemma match_node_tree ns n work : nodes_wf (ns ++ [n]) ->
  match_node a (holds ws <$> trees ns, work) n
    = let* w := work_charge work (1 + kind_cost ws (kind n)) in Ok (holds ws <$> trees (ns ++ [n]), w).
Proof.
  intros (Hw & Hc & _)%nodes_wf_snoc_inv. rewrite trees_snoc, fmap_app. cbn [fmap list_fmap].
  assert (Hv : forall i, i < len ns -> value_at (holds ws <$> trees ns) i = Ok (holds ws (node_tree ns i))).
  { intros i Hi. unfold value_at, index, node_tree, tree_at, index. rewrite list_lookup_fmap.
    destruct (trees ns !! N.to_nat i) eqn:E; [done|]. apply lookup_ge_None in E.
    pose proof (len_trees ns) as El. unfold len in *. lia. }
  unfold match_node. rewrite <- work_charge_add, rbind_assoc.
  destruct (work_charge work 1) as [w1|e|]; [|done|done]. cbn [rbind].
  assert (Htok : tokens (E := Error) a = imap (fun j w => Ok (mkToken w (N.of_nat (0 + j)))) ws) by apply (tokens_words a ws Ha).
  destruct (kind n) as [|t|p|ps|c|l r|l r]; cbn [children kind_cost shape holds] in *.
  - by rewrite work_charge_0.
  - pose proof (find_token_words (fun w => bool_decide (w = t)) 0 ws w1) as Hf. cbv beta in Hf.
    rewrite Htok, Hf. by rewrite spend_bind.
  - rewrite Htok, (find_token_words (starts_with p) 0 ws w1). by rewrite spend_bind.
  - rewrite (token_count_words a ws Ha), (find_phrase_words 0) by lia. by rewrite spend_bind.
  - apply list.Forall_cons_1 in Hc as [Hc _]. rewrite Hv by done. cbn [rbind]. by rewrite work_charge_0.
  - apply list.Forall_cons_1 in Hc as [Hl Hr]. apply list.Forall_cons_1 in Hr as [Hr _].
    rewrite !Hv by done. cbn [rbind]. rewrite work_charge_0. by destruct (holds ws (node_tree ns l)).
  - apply list.Forall_cons_1 in Hc as [Hl Hr]. apply list.Forall_cons_1 in Hr as [Hr _].
    rewrite !Hv by done. cbn [rbind]. rewrite work_charge_0. by destruct (holds ws (node_tree ns l)).
Qed.

Lemma nodes_cost_snoc ns n : nodes_cost ws (ns ++ [n]) = nodes_cost ws ns + (1 + kind_cost ws (kind n)).
Proof. induction ns as [|m ns IH]; cbn; [lia|]. unfold nodes_cost in *. rewrite IH. lia. Qed.
Lemma match_nodes_trees ns work : nodes_wf ns ->
  foldM (match_node a) ([], work) ns
    = let* w := work_charge work (nodes_cost ws ns) in Ok (holds ws <$> trees ns, w).
Proof.
  induction ns as [|n ns IH] using rev_ind; intros Hw.
  - cbn. by rewrite work_charge_0.
  - pose proof (nodes_wf_snoc_inv _ _ Hw) as (Hw' & _). rewrite foldM_app, IH by done.
    rewrite nodes_cost_snoc, <- work_charge_add, !rbind_assoc. cbn [foldM].
    destruct (work_charge work (nodes_cost ws ns)) as [w|e|]; [|done|done]. cbn [rbind].
    rewrite match_node_tree by done. by destruct (work_charge w _).
Qed.
End Document.

Lemma matches_tree grow a ws q mem steps : analyzed_words a ws -> query_wf q ->
  matches grow a q mem steps
    = let* _ := vector (A := bool) grow 1 (node_count q) (budget_new mem) in
      if query_cost ws q <=? steps then Ok (holds ws (query_tree q)) else Err (Limit "search work").
Proof.
  intros Ha [Hw Hr]. unfold matches. cbn [profile negb].
  change (profile a =? PROFILE_ID) with true. cbn [negb].
  destruct (vector _ _ _ _) as [[v b]|e|]; [|done|done]. cbn [rbind].
  rewrite (match_nodes_trees a ws Ha) by done. unfold query_cost, work_charge, checked_sub.
  destruct (nodes_cost ws (items (nodes q)) <=? steps); [|done]. cbn [ok_or rbind].
  unfold value_at, index. rewrite list_lookup_fmap.
  unfold query_tree, node_tree, tree_at, index.
  destruct (trees (items (nodes q)) !! N.to_nat (root q)) eqn:E; [done|].
  apply lookup_ge_None in E. pose proof (len_trees (items (nodes q))) as El. unfold node_count, len in *. lia.
Qed.

(** the oracle decides the query's tree on the document's words: on a well-formed
    query it never panics; once the value vector fits the budget, it returns whether
    the tree holds if the work allowed covers one unit per node and per comparison of a
    left-to-right search, and the search-work error otherwise. *)
Theorem oracle_exact grow a ws q mem steps :
  analyzed_words a ws -> query_wf q -> (forall n c, grow n = Some c -> n <= c) -> mem < 2 ^ usize ->
  matches grow a q mem steps <> Panic /\
  (query_cost ws q <= steps ->
     forall b, matches grow a q mem steps = Ok b -> b = holds ws (query_tree q)) /\
  (grow (node_count q) = Some (node_count q) -> node_count q <= mem ->
     matches grow a q mem steps =
       if query_cost ws q <=? steps then Ok (holds ws (query_tree q)) else Err (Limit "search work")).
Proof.
  intros Ha Hq Hg Hm. rewrite (matches_tree grow a ws q mem steps Ha Hq). split_and!.
  - apply safe_bind; [|intros; by apply safe_if].
    apply reserve_safe. by apply budget_new_wf.
  - intros Hc b H. apply rbind_ok in H as (x & _ & H). rewrite (proj2 (N.leb_le _ _)) in H by done. by injection H.
  - intros Hgn Hn. assert (Hv : exists x, vector (A := bool) grow 1 (node_count q) (budget_new mem) = Ok x).
    { apply vector_fits; done || lia. }
    destruct Hv as [x ->]. done.
Qed.

(** C31: end to end, a search means what its text says: for a parsed query, an analyzed
    document and enough work, the oracle's answer is the truth of the tree that the
    grammar derives from the query text on the UAX #29 words of the document's
    profile. *)
Theorem search_meaning `{UnicodeTables} `{!UnicodeAscii} `{!UnicodeWords}
    grow node_size operator_size string_size limits input q text doc_limits a mem steps b :
  (forall n c, grow n = Some c -> n <= c) -> q_memory_bytes limits < 2 ^ usize -> limits_wf doc_limits ->
  utf8_valid input = true -> utf8_valid text = true ->
  parse grow node_size operator_size string_size limits input = Ok q ->
  analyze grow text doc_limits = Ok a ->
  matches grow a q mem steps = Ok b ->
  exists t, query_syntax input t /\ b = holds (document_words text) t.
Proof.
  intros Hg Hm Hl Hi Ht Hq Ha Hb. exists (query_tree q).
  destruct (proj2 (parse_cases grow node_size operator_size string_size limits Hg input Hm Hi) q Hq) as [(Hwf & Hs & _) _].
  split; [done|]. destruct (analyze_cases grow Hg text doc_limits a Ht Hl Ha) as (_ & _ & _ & Hw & _).
  rewrite (matches_tree grow a (document_words text) q mem steps Hw Hwf) in Hb.
  apply rbind_ok in Hb as (x & _ & Hb). apply if_ok_err in Hb as [_ Hb]. by injection Hb.
Qed.

Import Sample.
(** "Cat, a bird": cat AND NOT (do* OR "A b") holds; charging one unit less fails. *)
Definition sample_text_cat : list byte := byte_of <$> [0x43; 0x61; 0x74; 0x2c; 0x20; 0x61; 0x20; 0x62; 0x69; 0x72; 0x64].
Definition sample_cat : Analyzed :=
  match analyze Some sample_text_cat sample_limits with Ok a => a | _ => mkAnalyzed vec_new vec_new 0 0 end.
Lemma sample_cat_analyzed : analyze Some sample_text_cat sample_limits = Ok sample_cat.
Proof. vm_compute. reflexivity. Defined.
Lemma sample_parsed_ok : parse Some 40 16 24 sample_query_limits sample_query = Ok sample_parsed.
Proof. vm_compute. reflexivity. Defined.
Lemma oracle_exact_witness :
  matches Some sample_cat sample_parsed 64 13 = Ok true /\ matches Some sample_cat sample_parsed 64 12 = Err (Limit "search work").
Proof.
  assert (Hg : forall n c : N, Some n = Some c -> n <= c) by (intros n c [=]; lia).
  assert (Ha : analyzed_words sample_cat (document_words sample_text_cat)).
  { apply (analyze_cases Some Hg sample_text_cat sample_limits sample_cat); [by vm_compute|by split|exact sample_cat_analyzed]. }
  assert (Hq : query_wf sample_parsed).
  { apply (parse_cases Some 40 16 24 sample_query_limits Hg sample_query); [done|by vm_compute|exact sample_parsed_ok]. }
  destruct (oracle_exact Some sample_cat _ sample_parsed 64 13 Ha Hq Hg ltac:(done)) as (_ & _ & H1).
  destruct (oracle_exact Some sample_cat _ sample_parsed 64 12 Ha Hq Hg ltac:(done)) as (_ & _ & H2).
  split.
  - rewrite H1; [vm_compute; reflexivity|vm_compute; reflexivity|vm_compute; discriminate].
  - rewrite H2; [vm_compute; reflexivity|vm_compute; reflexivity|vm_compute; discriminate].
Defined.
Lemma search_meaning_witness :
  exists t, query_syntax sample_query t /\ true = holds (document_words sample_text_cat) t.
Proof.
  apply (search_meaning Some 40 16 24 sample_query_limits sample_query sample_parsed sample_text_cat sample_limits sample_cat 64 1000 true).
  - intros n c [=]; lia.
  - done.
  - by split.
  - by vm_compute.
  - by vm_compute.
  - exact sample_parsed_ok.
  - exact sample_cat_analyzed.
  - vm_compute. reflexivity.
Defined.
