(* ===== verification/Candidate.v ===== *)
(** Candidate plans: [src/crates/pin-core/src/candidate.rs].

    [build] turns a query into a union of term postings that covers every match, or the
    whole universe. The specification on trees is [tree_cost] and [cover]; the theorem
    says the plan misses no document. *)
From Stdlib Require Import Sorting.Sorted.
From S2P Require Export QueryParse.

Inductive CandidatePlan : Type :=
| Empty
| Universe
| Terms (terms : list (list byte)).

(** [const ALL: usize = usize::MAX] *)
Definition ALL : N := 2 ^ usize - 1.

(** [sort_unstable] on strings (equal strings are the same string) and [dedup]. *)
Fixpoint term_insert (t : list byte) (l : list (list byte)) : list (list byte) :=
  match l with
  | [] => [t]
  | u :: l' => if bytes_leb t u then t :: l else u :: term_insert t l'
  end.
Definition sort_terms (l : list (list byte)) : list (list byte) := foldr term_insert [] l.
Fixpoint dedup (l : list (list byte)) : list (list byte) :=
  match l with
  | t :: ((u :: _) as l') => if bool_decide (t = u) then dedup l' else t :: dedup l'
  | _ => l
  end.

(** Nodes a walk from a tree's root can visit; it bounds the turns of [build]'s loop. *)
Fixpoint tree_size (t : Tree) : nat :=
  match t with
  | TreeNot t => S (tree_size t)
  | TreeAnd a b | TreeOr a b => S (tree_size a + tree_size b)
  | _ => 1
  end.

Section Candidate.
Context (grow : N -> option N).

Definition cost_at (costs : list N) (i : N) : Result N := or_panic (index costs i).

(** The first loop: the cost of one node. *)
Definition push_cost (costs : list N) (node : Node) : Result (list N) :=
  let* cost :=
    match kind node with
    | Kind.None => Ok 0
    | Kind.Term _ => Ok 1
    | Kind.Phrase terms => Ok (if bool_decide (terms = []) then 0 else 1)
    | Kind.Prefix _ | Kind.Not _ => Ok ALL
    | Kind.And lhs rhs =>
        let* l := cost_at costs lhs in
        let* r := cost_at costs rhs in
        Ok (N.min l r)
    | Kind.Or lhs rhs =>
        let* l := cost_at costs lhs in
        if l =? ALL then Ok ALL else
        let* r := cost_at costs rhs in
        if r =? ALL then Ok ALL else ok_or (checked_add usize l r) (Limit "candidate covers")
    end in
  Ok (costs ++ [cost]).

(** The second loop: [pending] top first. *)
Fixpoint collect (fuel : nat) (ns : list Node) (costs : list N) (pending : list N) (terms : list (list byte))
  : Result (list (list byte)) :=
  match fuel with
  | O => Panic
  | S fuel =>
      match pending with
      | [] => Ok terms
      | i :: pending =>
          let* cost := cost_at costs i in
          if cost =? 0 then collect fuel ns costs pending terms else
          let* node := or_panic (index ns i) in
          match kind node with
          | Kind.Term t => collect fuel ns costs pending (terms ++ [t])
          | Kind.Phrase [] => collect fuel ns costs pending terms
          | Kind.Phrase (t :: _) => collect fuel ns costs pending (terms ++ [t])
          | Kind.And lhs rhs =>
              let* l := cost_at costs lhs in
              let* r := cost_at costs rhs in
              collect fuel ns costs ((if l <=? r then lhs else rhs) :: pending) terms
          | Kind.Or lhs rhs => collect fuel ns costs (lhs :: rhs :: pending) terms
          | Kind.None | Kind.Prefix _ | Kind.Not _ => Err InvalidState
          end
      end
  end.

(** [CandidatePlan::build]; [&str] takes 16 bytes. *)
Definition build (query : Query) (memory_bytes : N) : Result CandidatePlan :=
  let budget := budget_new memory_bytes in
  let* '(_, budget) := vector (A := N) grow 8 (node_count query) budget in
  let* costs := foldM push_cost [] (items (nodes query)) in
  let* cost := cost_at costs (root query) in
  if cost =? 0 then Ok Empty
  else if cost =? ALL then Ok Universe
  else
  let* '(_, budget) := vector (A := N) grow 8 (node_count query) budget in
  let* '(_, budget) := vector (A := list byte) grow 16 cost budget in
  let* terms := collect (S (tree_size (query_tree query))) (items (nodes query)) costs [root query] [] in
  Ok (Terms (dedup (sort_terms terms))).
End Candidate.

(** ** Specification on trees *)
Fixpoint tree_cost (t : Tree) : N :=
  match t with
  | TreeNone => 0
  | TreeTerm _ => 1
  | TreePhrase ps => if bool_decide (ps = []) then 0 else 1
  | TreePrefix _ | TreeNot _ => ALL
  | TreeAnd a b => N.min (tree_cost a) (tree_cost b)
  | TreeOr a b => if (tree_cost a =? ALL) || (tree_cost b =? ALL) then ALL else tree_cost a + tree_cost b
  end.
Fixpoint cover (t : Tree) : list (list byte) :=
  if tree_cost t =? 0 then [] else
  match t with
  | TreeTerm w => [w]
  | TreePhrase (w :: _) => [w]
  | TreeAnd a b => if tree_cost a <=? tree_cost b then cover a else cover b
  | TreeOr a b => cover a ++ cover b
  | _ => []
  end.
(** The parser never builds an empty phrase. *)
Fixpoint phrases_ok (t : Tree) : bool :=
  match t with
  | TreePhrase ps => negb (bool_decide (ps = []))
  | TreeNot t => phrases_ok t
  | TreeAnd a b | TreeOr a b => phrases_ok a && phrases_ok b
  | _ => true
  end.

Lemma expr_phrases `{Unicode} n ts t : expr n ts t -> phrases_ok t = true.
Proof.
  induction 1 as [q p text t E| | |? ? ? ? _ IH1 _ IH2|? ? ? ? _ IH1 _ IH2|]; cbn; try done; [|by rewrite IH1..].
  unfold literal_tree in E. destruct q; [injection E as <-; by destruct (document_words text)|].
  destruct (document_words text) as [|w [|? ?]]; try done. injection E as <-. by destruct p.
Qed.
Lemma syntax_phrases `{Unicode} input t : query_syntax input t -> phrases_ok t = true.
Proof. intros (ts & _ & [[_ ->]|He]); [done|by eapply expr_phrases]. Qed.

(** A match contains a word of the cover. *)
Lemma window_in ws p ps i : window_at ws (p :: ps) i = true -> p ∈ ws.
Proof.
  unfold window_at. intros E%bool_decide_eq_true_1. cbn [length] in E.
  assert (Hp : p ∈ take (S (length ps)) (drop i ws)) by (rewrite E; left).
  apply elem_of_take in Hp as (k & Hk & _). apply list_elem_of_lookup. exists (i + k)%nat. by rewrite <- lookup_drop.
Qed.
Lemma cover_matches ws t : phrases_ok t = true -> tree_cost t <> ALL -> holds ws t = true ->
  tree_cost t <> 0 /\ exists w, w ∈ cover t /\ w ∈ ws.
Proof.
  induction t as [|w|p|ps|t IH|a IHa b IHb|a IHa b IHb]; cbn [phrases_ok tree_cost holds cover]; intros Hp Hc Hh; try done.
  - split; [done|]. exists w. split; [left|]. apply existsb_exists in Hh as (x & Hx & ->%bool_decide_eq_true_1).
    by apply list_elem_of_In.
  - destruct ps as [|w ps]; [done|]. split; [done|]. exists w. split; [left|].
    apply existsb_exists in Hh as (i & _ & Hi). by eapply window_in.
  - apply andb_true_iff in Hp as [Hpa Hpb]. apply andb_true_iff in Hh as [Hha Hhb].
    destruct (N.leb_spec (tree_cost a) (tree_cost b)) as [Hle|Hlt].
    + rewrite N.min_l in * by done. destruct (IHa Hpa Hc Hha) as (Hne & w & Hw & ?). split; [done|].
      exists w. rewrite (proj2 (N.eqb_neq _ _)) by done. done.
    + rewrite N.min_r in * by lia. destruct (IHb Hpb Hc Hhb) as (Hne & w & Hw & ?). split; [done|].
      exists w. rewrite (proj2 (N.eqb_neq _ _)) by done. done.
  - apply andb_true_iff in Hp as [Hpa Hpb].
    destruct (N.eqb_spec (tree_cost a) ALL) as [|Ha]; [done|]. destruct (N.eqb_spec (tree_cost b) ALL) as [|Hb]; [done|].
    cbn [orb] in *. apply orb_true_iff in Hh as [Hh|Hh].
    + destruct (IHa Hpa Ha Hh) as (Hne & w & Hw & ?). assert (tree_cost a + tree_cost b <> 0) by lia. split; [done|].
      exists w. rewrite (proj2 (N.eqb_neq _ _)) by done. split; [|done]. apply elem_of_app. by left.
    + destruct (IHb Hpb Hb Hh) as (Hne & w & Hw & ?). assert (tree_cost a + tree_cost b <> 0) by lia. split; [done|].
      exists w. rewrite (proj2 (N.eqb_neq _ _)) by done. split; [|done]. apply elem_of_app. by right.
Qed.
Lemma cover_len t : tree_cost t <> ALL -> len (cover t) = tree_cost t.
Proof.
  induction t as [|w|p|ps|t IH|a IHa b IHb|a IHa b IHb]; cbn [tree_cost cover]; intros Hc; try done.
  - by destruct ps.
  - destruct (N.eqb_spec (N.min (tree_cost a) (tree_cost b)) 0) as [->|]; [done|].
    destruct (N.leb_spec (tree_cost a) (tree_cost b)); [rewrite IHa|rewrite IHb]; lia.
  - destruct (N.eqb_spec (tree_cost a) ALL) as [|Ha]; [done|]. destruct (N.eqb_spec (tree_cost b) ALL) as [|Hb]; [done|].
    cbn [orb] in *. destruct (N.eqb_spec (tree_cost a + tree_cost b) 0) as [->|]; [done|].
    rewrite len_app, IHa, IHb; done.
Qed.

(** ** The loops against the specification *)
Lemma push_costs_trees ns : nodes_wf ns ->
  safe (foldM push_cost [] ns) /\
  foldM push_cost [] ns <> Err InvalidState /\
  forall costs, foldM push_cost [] ns = Ok costs -> costs = tree_cost <$> trees ns.
Proof.
  induction ns as [|n ns IH] using rev_ind; intros Hw; [split_and!; try done; by intros costs [= <-]|].
  pose proof (nodes_wf_snoc_inv _ _ Hw) as (Hw' & Hc & _). destruct (IH Hw') as (Hs & He & Hok).
  rewrite foldM_app, trees_snoc, fmap_app. cbn [foldM fmap list_fmap].
  destruct (foldM push_cost [] ns) as [costs|e|]; [|split_and!; try done; cbn; congruence|done]. cbn [rbind].
  rewrite (Hok costs eq_refl). clear Hok Hs He.
  assert (Hv : forall i, i < len ns -> cost_at (tree_cost <$> trees ns) i = Ok (tree_cost (node_tree ns i))).
  { intros i Hi. unfold cost_at, index, node_tree, tree_at, index. rewrite list_lookup_fmap.
    destruct (trees ns !! N.to_nat i) eqn:E; [done|]. apply lookup_ge_None in E.
    pose proof (len_trees ns) as El. unfold len in *. lia. }
  unfold push_cost. destruct (kind n) as [|t|p|ps|c|l r|l r]; cbn [children shape tree_cost] in *;
    rewrite ?list.Forall_cons in Hc; rewrite ?Hv by naive_solver; cbn [rbind];
    try (split_and!; [done|done|by intros ? [= <-]]).
  destruct (N.eqb_spec (tree_cost (node_tree ns l)) ALL); [split_and!; [done|done|by intros ? [= <-]]|].
  cbn [rbind orb].
  destruct (N.eqb_spec (tree_cost (node_tree ns r)) ALL); [split_and!; [done|done|by intros ? [= <-]]|].
  unfold checked_add. destruct (_ <? _); split_and!; try done. by intros ? [= <-].
Qed.

Definition sizes (ns : list Node) (l : list N) : nat := list_sum ((fun i => tree_size (node_tree ns i)) <$> l).
Lemma tree_size_pos t : (1 <= tree_size t)%nat.
Proof. destruct t; cbn; lia. Qed.
Lemma cost_at_trees ns i : i < len ns -> cost_at (tree_cost <$> trees ns) i = Ok (tree_cost (node_tree ns i)).
Proof.
  intros Hi. unfold cost_at, index, node_tree, tree_at, index. rewrite list_lookup_fmap.
  destruct (trees ns !! N.to_nat i) eqn:E; [done|]. apply lookup_ge_None in E.
  pose proof (len_trees ns) as El. unfold len in *. lia.
Qed.

Lemma collect_cover fuel ns pending terms : nodes_wf ns -> (sizes ns pending < fuel)%nat ->
  Forall (fun i => i < len ns /\ tree_cost (node_tree ns i) <> ALL) pending ->
  collect fuel ns (tree_cost <$> trees ns) pending terms
    = Ok (terms ++ (pending ≫= (fun i => cover (node_tree ns i)))).
Proof.
  intros Hw. revert pending terms. induction fuel as [|fuel IH]; intros pending terms Hf Hp; [lia|].
  destruct pending as [|i pending]; cbn [collect]; [by rewrite app_nil_r|].
  apply list.Forall_cons_1 in Hp as [[Hi Hc] Hp]. rewrite cost_at_trees by done. cbn [rbind].
  unfold sizes in Hf. cbn [fmap list_fmap list_sum foldr] in Hf. fold (sizes ns pending) in Hf.
  rewrite bind_cons. assert (Hsz : (sizes ns pending < fuel)%nat).
  { pose proof (tree_size_pos (node_tree ns i)). unfold sizes, list_sum. lia. }
  destruct (N.eqb_spec (tree_cost (node_tree ns i)) 0) as [E0|E0].
  { rewrite IH by done. replace (cover (node_tree ns i)) with (@nil (list byte)); [done|].
    by destruct (node_tree ns i); cbn [cover]; rewrite E0. }
  destruct (node_depth ns i Hw Hi) as (n & En & _). rewrite En. cbn [or_panic rbind].
  destruct (node_shape ns i n Hw En) as (_ & Es & Hch). rewrite Es in *. clear Es En.
  assert (Hlt : Forall (fun c => c < len ns) (children (kind n))).
  { eapply list.Forall_impl; [exact Hch|]. cbn; lia. }
  assert (Hadd : forall l, (sizes ns (l ++ pending) = list_sum ((fun i => tree_size (node_tree ns i)) <$> l) + sizes ns pending)%nat).
  { intros l. unfold sizes. by rewrite fmap_app, list_sum_app. }
  destruct (kind n) as [|t|p|ps|c|l r|l r]; cbn [shape children tree_cost cover tree_size] in *; try done.
  - rewrite IH by done. by rewrite <- app_assoc.
  - destruct ps as [|t ps]; [done|]. rewrite IH by done. by rewrite <- app_assoc.
  - rewrite !list.Forall_cons in Hlt. destruct Hlt as (Hl & Hr & _). rewrite !cost_at_trees by done. cbn [rbind].
    rewrite (proj2 (N.eqb_neq _ _)) by done.
    set (k := if tree_cost (node_tree ns l) <=? tree_cost (node_tree ns r) then l else r).
    assert (Hk : k < len ns /\ tree_cost (node_tree ns k) <> ALL /\
      cover (node_tree ns k) = (if tree_cost (node_tree ns l) <=? tree_cost (node_tree ns r)
        then cover (node_tree ns l) else cover (node_tree ns r)) /\
      (tree_size (node_tree ns k) <= tree_size (node_tree ns l) + tree_size (node_tree ns r))%nat).
    { subst k. destruct (N.leb_spec (tree_cost (node_tree ns l)) (tree_cost (node_tree ns r)));
        [rewrite N.min_l in Hc by done|rewrite N.min_r in Hc by lia]; split_and!; done || lia. }
    destruct Hk as (Hk1 & Hk2 & <- & Hk3). rewrite IH.
    + by rewrite bind_cons.
    + pose proof (Hadd [k]) as E. cbn [app fmap list_fmap list_sum foldr] in E. unfold sizes, list_sum in *. lia.
    + by constructor.
  - rewrite !list.Forall_cons in Hlt. destruct Hlt as (Hl & Hr & _).
    destruct (N.eqb_spec (tree_cost (node_tree ns l)) ALL) as [|Ha]; [done|].
    destruct (N.eqb_spec (tree_cost (node_tree ns r)) ALL) as [|Hb]; [done|]. cbn [orb] in *.
    rewrite (proj2 (N.eqb_neq _ _)) by done. rewrite IH.
    + by rewrite !bind_cons, <- app_assoc.
    + pose proof (Hadd [l; r]) as E. cbn [app fmap list_fmap list_sum foldr] in E. unfold sizes, list_sum in *. lia.
    + by repeat constructor.
Qed.

(** Sorting and removing repetitions. *)
Lemma term_insert_perm t l : term_insert t l ≡ₚ t :: l.
Proof.
  induction l as [|u l IH]; [done|]. cbn. destruct (bytes_leb t u); [done|]. rewrite IH. apply Permutation_swap.
Qed.
Lemma sort_terms_perm l : sort_terms l ≡ₚ l.
Proof. induction l as [|t l IH]; [done|]. cbn. by rewrite term_insert_perm, IH. Qed.
Definition bytes_le (a b : list byte) : Prop := bytes_lt a b \/ a = b.
Lemma term_insert_sorted t l : Sorted bytes_le l -> Sorted bytes_le (term_insert t l).
Proof.
  induction 1 as [|u l Hs IH Hd]; cbn; [repeat constructor|].
  destruct (bytes_leb t u) eqn:E; [constructor; [by constructor|constructor; by apply bytes_leb_le]|].
  constructor; [done|]. assert (Hu : bytes_le u t).
  { left. apply bytes_ltb_lt. rewrite bytes_leb_ltb in E. by apply negb_false_iff in E. }
  destruct l as [|v l]; cbn; [by constructor|]. inversion Hd. destruct (bytes_leb t v); by constructor.
Qed.
Lemma sort_terms_sorted l : Sorted bytes_le (sort_terms l).
Proof. induction l as [|t l IH]; [constructor|]. by apply term_insert_sorted. Qed.
Lemma dedup_cons u v l : dedup (u :: v :: l) = if bool_decide (u = v) then dedup (v :: l) else u :: dedup (v :: l).
Proof. done. Qed.
Lemma elem_of_dedup t l : t ∈ dedup l <-> t ∈ l.
Proof.
  induction l as [|u [|v l] IH]; [done|done|]. rewrite dedup_cons. destruct (bool_decide_reflect (u = v)) as [->|].
  - rewrite IH, !elem_of_cons. naive_solver.
  - rewrite !elem_of_cons, IH, elem_of_cons. naive_solver.
Qed.
Lemma dedup_sorted l : Sorted bytes_le l -> Sorted bytes_lt (dedup l).
Proof.
  induction l as [|u [|v l] IH]; intros Hs; [constructor|repeat constructor|]. rewrite dedup_cons.
  inversion Hs as [|? ? Hs' Hd]; subst. inversion Hd as [|? ? Huv]; subst. specialize (IH Hs').
  destruct (bool_decide_reflect (u = v)) as [->|Hne]; [done|]. constructor; [done|].
  assert (Hh : exists l', dedup (v :: l) = v :: l').
  { clear. revert v. induction l as [|w l IH]; intros v; [by eexists|]. rewrite dedup_cons.
    destruct (bool_decide_reflect (v = w)) as [->|]; [apply IH|by eexists]. }
  destruct Hh as [l' ->]. constructor. by destruct Huv.
Qed.

Ltac err_done H := cbn [rbind]; split_and!; [done|intros [= ->]; by apply H|done].
Lemma build_cases grow q mem : (forall n c, grow n = Some c -> n <= c) -> mem < 2 ^ usize -> query_wf q ->
  build grow q mem <> Panic /\ build grow q mem <> Err InvalidState /\
  forall plan, build grow q mem = Ok plan ->
    match plan with
    | Empty => tree_cost (query_tree q) = 0
    | Universe => tree_cost (query_tree q) = ALL
    | Terms l => tree_cost (query_tree q) <> 0 /\ tree_cost (query_tree q) <> ALL /\
        l = dedup (sort_terms (cover (query_tree q)))
    end.
Proof.
  intros Hg Hm [Hw Hr]. pose proof (budget_new_wf mem Hm) as Hb. unfold build.
  assert (Hvec : forall A size n b, budget_wf b -> clean (vector (A := A) grow size n b)).
  { intros A size n b Hwf. by apply (reserve_clean grow). }
  assert (Hst : forall A size n b, vector (A := A) grow size n b <> Err InvalidState).
  { intros A size n b. unfold vector, reserve, try_budget, lift_budget. intros H.
    destruct (checked_add _ _ _); cbn in H; [|done].
    repeat (case_match; cbn in H; try done);
      destruct (grow _); cbn in H; try done; by destruct (snd (charge_array _ _ _)). }
  destruct (Hvec N 8 (node_count q) _ Hb) as [Hp1 _]. pose proof (Hst N 8 (node_count q) (budget_new mem)) as Hs1.
  destruct (vector grow 8 (node_count q) (budget_new mem)) as [[v1 b1]|e|] eqn:E1; [|err_done Hs1|done].
  cbn [rbind]. clear Hp1 Hs1. apply reserve_ok in E1 as (_ & _ & _ & _ & _ & _ & Hb1 & _); [|done..].
  destruct (push_costs_trees _ Hw) as (Hs & He & Hok).
  destruct (foldM push_cost [] (items (nodes q))) as [costs|e|]; [|err_done He|done]. cbn [rbind].
  rewrite (Hok costs eq_refl), (cost_at_trees _ _ Hr). clear Hok Hs He. cbn [rbind].
  change (tree_cost (node_tree (items (nodes q)) (root q))) with (tree_cost (query_tree q)).
  destruct (N.eqb_spec (tree_cost (query_tree q)) 0); [split_and!; [done|done|by intros ? [= <-]]|].
  destruct (N.eqb_spec (tree_cost (query_tree q)) ALL) as [|Hall]; [split_and!; [done|done|by intros ? [= <-]]|].
  destruct (Hvec N 8 (node_count q) _ Hb1) as [Hp2 _]. pose proof (Hst N 8 (node_count q) b1) as Hs2.
  destruct (vector grow 8 (node_count q) b1) as [[v2 b2]|e|] eqn:E2; [|err_done Hs2|done].
  cbn [rbind]. clear Hp2 Hs2. apply reserve_ok in E2 as (_ & _ & _ & _ & _ & _ & Hb2 & _); [|done..].
  destruct (Hvec (list byte) 16 (tree_cost (query_tree q)) _ Hb2) as [Hp3 _].
  pose proof (Hst (list byte) 16 (tree_cost (query_tree q)) b2) as Hs3.
  destruct (vector grow 16 (tree_cost (query_tree q)) b2) as [[v3 b3]|e|]; [|err_done Hs3|done].
  cbn [rbind]. rewrite collect_cover.
  - cbn [rbind]. split_and!; [done|done|]. intros plan Hpl. apply Ok_inj in Hpl. subst plan.
    cbn [app]. rewrite bind_cons. cbn [mbind list_bind]. by rewrite app_nil_r.
  - done.
  - unfold sizes. cbn. unfold query_tree. lia.
  - by constructor.
Qed.

(** C34: a candidate plan misses no match. For a parsed query [build] never panics nor
    meets an inconsistent state; the empty plan means the query matches no document;
    a plan of terms is nonempty, strictly ascending, made of words of the query's cover,
    and every document the query matches contains one of them. *)
Theorem candidate_cover `{UnicodeTables} `{!UnicodeAscii} `{!UnicodeWords}
    grow node_size operator_size string_size limits input q mem :
  (forall n c, grow n = Some c -> n <= c) -> q_memory_bytes limits < 2 ^ usize -> mem < 2 ^ usize ->
  utf8_valid input = true -> parse grow node_size operator_size string_size limits input = Ok q ->
  build grow q mem <> Panic /\ build grow q mem <> Err InvalidState /\
  forall plan, build grow q mem = Ok plan ->
    match plan with
    | Empty => forall ws, holds ws (query_tree q) = false
    | Universe => True
    | Terms l => l <> [] /\ Sorted bytes_lt l /\ (forall w, w ∈ l -> w ∈ cover (query_tree q)) /\
        forall ws, holds ws (query_tree q) = true -> exists w, w ∈ l /\ w ∈ ws
    end.
Proof.
  intros Hg Hq Hm Hi Hp.
  destruct (proj2 (parse_cases grow node_size operator_size string_size limits Hg input Hq Hi) q Hp) as [(Hwf & Hs & _) _].
  apply syntax_phrases in Hs. destruct (build_cases grow q mem Hg Hm Hwf) as (? & ? & Hok). split_and!; [done..|].
  intros plan Hb. specialize (Hok plan Hb). destruct plan as [| |l]; [|done|].
  - intros ws. apply not_true_is_false. intros Hh.
    destruct (cover_matches ws (query_tree q) Hs) as [? _]; [by rewrite Hok|done|done].
  - destruct Hok as (Hne & Hall & ->).
    assert (Hin : forall w, w ∈ dedup (sort_terms (cover (query_tree q))) <-> w ∈ cover (query_tree q)).
    { intros w. by rewrite elem_of_dedup, sort_terms_perm. }
    split_and!.
    + intros E. assert (Hn : cover (query_tree q) = []).
      { destruct (cover (query_tree q)) as [|w l]; [done|]. assert (Hw : w ∈ @nil (list byte)).
        { rewrite <- E. apply Hin. left. } by apply elem_of_nil in Hw. }
      pose proof (cover_len _ Hall) as Hl. rewrite Hn in Hl. by apply Hne.
    + apply dedup_sorted, sort_terms_sorted.
    + intros w. by rewrite Hin.
    + intros ws Hh. destruct (cover_matches ws _ Hs Hall Hh) as (_ & w & Hw & ?). exists w. by rewrite Hin.
Qed.
Import Sample.
Lemma candidate_cover_witness :
  build Some sample_parsed 4096 = Ok (Terms [byte_of <$> [0x63; 0x61; 0x74]]) /\
  build Some sample_parsed 4096 <> Panic /\
  (forall ws, holds ws (query_tree sample_parsed) = true ->
    exists w, w ∈ [byte_of <$> [0x63; 0x61; 0x74]] /\ w ∈ ws).
Proof.
  assert (E : build Some sample_parsed 4096 = Ok (Terms [byte_of <$> [0x63; 0x61; 0x74]])) by (vm_compute; reflexivity).
  destruct (candidate_cover Some 40 16 24 sample_query_limits sample_query sample_parsed 4096) as (Hp & _ & Hok).
  - intros n c [=]; lia.
  - done.
  - done.
  - by vm_compute.
  - vm_compute. reflexivity.
  - split; [exact E|]. split; [exact Hp|]. exact (proj2 (proj2 (proj2 (Hok _ E)))).
Defined.
