(* ===== verification/Recheck.v ===== *)
(** Rechecks without token buffers: [src/crates/pin-core/src/recheck.rs].

    [SingleTermMatcher] and [PhraseMatcher] walk the words of a text once, borrowing an
    ASCII text instead of normalizing it. The theorems compare them with the analysis
    and the oracle they replace: same answers, same work, same errors. *)
From S2P Require Export Oracle.

Section Recheck.
Context `{Unicode} (grow : N -> option N).

(** ** Single terms *)
(** The state of [match_words]'s loop: [tokens], [first_match], [comparisons_left]. *)
Definition match_word (limits : AnalysisLimits) (equal : list byte -> bool) (st : N * option N * N) (word : list byte)
  : Result (N * option N * N) :=
  let '(tokens, first_match, comparisons_left) := st in
  if term_bytes limits <? len word then Err (Limit "term bytes") else
  if tokens =? tokens_limit limits then Err (Limit "element count") else
  let* tokens := add_w 32 tokens 1 in
  if bool_decide (first_match = None) && negb (comparisons_left =? 0)
  then Ok (tokens, if equal word then Some tokens else None, comparisons_left - 1)
  else Ok (tokens, first_match, comparisons_left).
(** [match_words] *)
Definition match_words (text : list byte) (limits : AnalysisLimits) (max_steps : N) (equal : list byte -> bool)
  : Result bool :=
  let* '(tokens, first_match, _) :=
    foldM (match_word limits equal) (0, None, saturating_sub max_steps 1) (unicode_words text) in
  let comparisons := default tokens first_match in
  let* work := work_charge max_steps 1 in
  let* _ := work_charge work comparisons in
  Ok (bool_decide (is_Some first_match)).

(** [SingleTermMatcher::new]: the term of a query that is one term node. *)
Definition single_new {E} (query : Query) : res E (option (list byte)) :=
  if negb (node_count query =? 1) then Ok None else
  let* node := or_panic (index (items (nodes query)) (root query)) in
  Ok match kind node with Kind.Term t => Some t | _ => None end.

(** [SingleTermMatcher::matches] *)
Definition single_matches (term : list byte) (text : list byte) (limits : AnalysisLimits) (max_steps : N) : Result bool :=
  let* _ := check_input text limits in
  if is_ascii text then
    if normalized_bytes limits <? len text then Err (Limit "normalized bytes") else
    let* _ := check_u32 (len text) "normalized bytes" in
    match_words text limits max_steps (fun word => eq_ignore_ascii_case word term)
  else
    let budget := budget_new (memory_bytes limits) in
    let* '(normalized, _, _) := profile_text grow (normalized_bytes limits) text budget in
    let* _ := check_u32 (len (items normalized)) "normalized bytes" in
    match_words (items normalized) limits max_steps (fun word => bool_decide (word = term)).

(** ** Phrases *)
Record PhraseState : Type := mkPhraseState {
  window : list (list byte);
  ring_cursor : N;
  filled : N;
  token_index : N;
  found : bool;
  work_left : Work;
  exhausted : option Error;
}.
Definition WINDOW : N := 64.

(** The innermost loop: the window's words against the terms, stopping at the first
    difference or when the work runs out. *)
Fixpoint compare_window (equal : list byte -> list byte -> bool) (words terms : list (list byte)) (work : Work)
  : bool * Work * option Error :=
  match words, terms with
  | word :: words, term :: terms =>
      match work_charge work 1 with
      | Ok work => if equal word term then compare_window equal words terms work else (false, work, None)
      | Err error => (false, work, Some error)
      | Panic => (false, work, None)
      end
  | _, _ => (true, work, None)
  end.

(** The loop of [match_phrase_words]. *)
Definition match_phrase_word (terms : list (list byte)) (limits : AnalysisLimits)
  (equal : list byte -> list byte -> bool) (st : PhraseState) (word : list byte) : Result PhraseState :=
  let '(mkPhraseState window cursor filled index found work exhausted) := st in
  let width := len terms in
  if term_bytes limits <? len word then Err (Limit "term bytes") else
  if index =? tokens_limit limits then Err (Limit "element count") else
  if found || bool_decide (is_Some exhausted)
  then Ok (mkPhraseState window cursor filled (index + 1) found work exhausted) else
  (* [window[cursor] = word] *)
  let* _ := or_panic (Prelude.index window cursor) in
  let window := <[N.to_nat cursor := word]> window in
  let cursor := cursor + 1 in
  let cursor := if cursor =? width then 0 else cursor in
  let filled := N.min (filled + 1) width in
  if negb (filled =? width)
  then Ok (mkPhraseState window cursor filled (index + 1) found work exhausted) else
  let* newer := or_panic (slice window cursor width) in
  let* older := or_panic (slice window 0 cursor) in
  let '(matches, work, error) := compare_window equal (newer ++ older) terms work in
  Ok (mkPhraseState window cursor filled (index + 1) matches work error).

(** [match_phrase_words] *)
Definition match_phrase_words (text : list byte) (terms : list (list byte)) (limits : AnalysisLimits) (max_steps : N)
  (equal : list byte -> list byte -> bool) : Result bool :=
  let '(work, error) :=
    match work_charge max_steps 1 with Ok work => (work, None) | Err e => (max_steps, Some e) | Panic => (max_steps, None) end in
  let* st := foldM (match_phrase_word terms limits equal)
    (mkPhraseState (replicate (N.to_nat WINDOW) []) 0 0 0 false work error) (unicode_words text) in
  match st.(exhausted) with Some error => Err error | None => Ok (found st) end.

(** [PhraseMatcher::new] *)
Definition phrase_new {E} (query : Query) : res E (option (list (list byte))) :=
  if negb (node_count query =? 1) then Ok None else
  let* node := or_panic (index (items (nodes query)) (root query)) in
  Ok match kind node with
     | Kind.Phrase terms => if negb (bool_decide (terms = [])) && (len terms <=? WINDOW) then Some terms else None
     | _ => None
     end.

(** [PhraseMatcher::matches] *)
Definition phrase_matches (terms : list (list byte)) (text : list byte) (limits : AnalysisLimits) (max_steps : N)
  : Result bool :=
  let* _ := check_input text limits in
  if is_ascii text then
    if normalized_bytes limits <? len text then Err (Limit "normalized bytes") else
    let* _ := check_u32 (len text) "normalized bytes" in
    match_phrase_words text terms limits max_steps eq_ignore_ascii_case
  else
    let budget := budget_new (memory_bytes limits) in
    let* '(normalized, _, _) := profile_text grow (normalized_bytes limits) text budget in
    let* _ := check_u32 (len (items normalized)) "normalized bytes" in
    match_phrase_words (items normalized) terms limits max_steps (fun word term => bool_decide (word = term)).
End Recheck.

(** ** What both walks check of every word, a hit or not *)
Section Words.
Context (limits : AnalysisLimits) (Hlim : tokens_limit limits < 2 ^ 32).
Fixpoint check_words (n : N) (ws : list (list byte)) : Result unit :=
  match ws with
  | [] => Ok tt
  | w :: ws =>
      if term_bytes limits <? len w then Err (Limit "term bytes") else
      if n =? tokens_limit limits then Err (Limit "element count") else check_words (n + 1) ws
  end.
Definition search_result (cost steps : N) (answer : bool) : Result bool :=
  if cost <=? steps then Ok answer else Err (Limit "search work").

Lemma scan_cost_le {A} (p : A -> bool) l : scan_cost p l <= len l.
Proof. induction l as [|x l IH]; [done|]. cbn. rewrite len_cons. destruct (p x); lia. Qed.
Lemma scan_cost_all {A} (p : A -> bool) l : existsb p l = false -> scan_cost p l = len l.
Proof. induction l as [|x l IH]; [done|]. cbn. rewrite len_cons. destruct (p x); cbn; [done|]. intros. by rewrite IH. Qed.

Lemma match_word_loop p n fm k ws : n <= tokens_limit limits ->
  foldM (match_word limits p) (n, fm, k) ws
    = let* _ := check_words n ws in
      Ok (n + len ws,
          match fm with
          | Some _ => fm
          | None => if existsb p ws && (scan_cost p ws <=? k) then Some (n + scan_cost p ws) else None
          end,
          match fm with Some _ => k | None => k - scan_cost p ws end).
Proof.
  revert n fm k; induction ws as [|w ws IH]; intros n fm k Hn; cbn [foldM check_words].
  - rewrite len_nil, N.add_0_r. destruct fm; cbn; [done|]. by rewrite N.sub_0_r.
  - unfold match_word at 1. destruct (term_bytes limits <? len w); [done|].
    destruct (N.eqb_spec n (tokens_limit limits)); [done|].
    unfold add_w. rewrite checked_add_fits by lia. cbn [or_panic rbind].
    replace (n + len (w :: ws)) with (n + 1 + len ws) by (rewrite len_cons; lia).
    destruct fm as [m|]; cbn [bool_decide andb].
    { rewrite bool_decide_eq_false_2 by done. cbn [andb rbind]. apply IH. lia. }
    rewrite bool_decide_eq_true_2 by done. cbn [andb scan_cost existsb].
    destruct (N.eqb_spec k 0) as [->|Hk]; cbn [negb rbind].
    + rewrite IH by lia. destruct (p w); cbn [orb].
      * rewrite (proj2 (N.leb_gt (1 + 0) 0)) by lia. cbn [andb].
        destruct (N.leb_spec (scan_cost p ws) 0) as [Hz|Hz].
        -- destruct ws as [|w' ws]; [done|]. cbn [scan_cost] in Hz. lia.
        -- by rewrite andb_false_r, !N.sub_0_l.
      * rewrite (proj2 (N.leb_gt (1 + scan_cost p ws) 0)) by lia. rewrite andb_false_r.
        destruct (N.leb_spec (scan_cost p ws) 0) as [Hz|Hz].
        -- destruct ws as [|w' ws]; [done|]. cbn [scan_cost] in Hz. lia.
        -- by rewrite andb_false_r, !N.sub_0_l.
    + destruct (p w); cbn [rbind orb].
      * rewrite IH by lia. rewrite (proj2 (N.leb_le (1 + 0) k)) by lia. cbn [andb].
        rewrite N.add_0_r. done.
      * rewrite IH by lia. replace (1 + scan_cost p ws <=? k) with (scan_cost p ws <=? k - 1).
        -- replace (n + (1 + scan_cost p ws)) with (n + 1 + scan_cost p ws) by lia.
           by replace (k - (1 + scan_cost p ws)) with (k - 1 - scan_cost p ws) by lia.
        -- destruct (N.leb_spec (scan_cost p ws) (k - 1)), (N.leb_spec (1 + scan_cost p ws) k); try done; lia.
Qed.

(** [match_words] checks every word and then answers with the oracle's work. *)
Lemma match_words_spec `{Unicode} text steps p :
  match_words text limits steps p
    = let* _ := check_words 0 (unicode_words text) in
      search_result (1 + scan_cost p (unicode_words text)) steps (existsb p (unicode_words text)).
Proof.
  unfold match_words. rewrite match_word_loop by lia. set (ws := unicode_words text).
  destruct (check_words 0 ws) as [u|e|]; [|done|done]. cbn [rbind]. unfold search_result, saturating_sub.
  pose proof (scan_cost_le p ws) as Hle. unfold work_charge, checked_sub.
  destruct (existsb p ws) eqn:Ex; cbn [andb].
  - destruct (N.leb_spec (scan_cost p ws) (steps - 1)) as [Hc|Hc]; cbn [default from_option Datatypes.id].
    + rewrite N.add_0_l. destruct (N.leb_spec 1 steps) as [H1|H1]; cbn [ok_or rbind].
      * rewrite (proj2 (N.leb_le _ (steps - 1))), (proj2 (N.leb_le _ steps)) by lia. done.
      * rewrite (proj2 (N.leb_gt _ steps)) by lia. done.
    + rewrite N.add_0_l. rewrite (proj2 (N.leb_gt (1 + _) steps)) by lia.
      destruct (N.leb_spec 1 steps) as [H1|H1]; cbn [ok_or rbind]; [|done].
      rewrite (proj2 (N.leb_gt _ (steps - 1))) by lia. done.
  - rewrite (scan_cost_all p ws Ex). cbn [default from_option Datatypes.id]. rewrite N.add_0_l.
    destruct (N.leb_spec 1 steps) as [H1|H1]; cbn [ok_or rbind].
    + destruct (N.leb_spec (len ws) (steps - 1)), (N.leb_spec (1 + len ws) steps); try lia; done.
    + rewrite (proj2 (N.leb_gt _ steps)) by lia. done.
Qed.
End Words.

(** ** The phrase window *)
(** The last [width] words read, oldest first; missing ones are the empty words the
    array starts with. *)
Definition recent (width : nat) (read : list (list byte)) : list (list byte) :=
  drop (length read) (replicate width [] ++ read).
Lemma length_recent width read : length (recent width read) = width.
Proof. unfold recent. rewrite length_drop, length_app, length_replicate. lia. Qed.
Lemma recent_snoc width read w : (0 < width)%nat -> recent width (read ++ [w]) = drop 1 (recent width read) ++ [w].
Proof.
  intros Hw. unfold recent. rewrite drop_drop, length_app, app_assoc. cbn [length].
  rewrite drop_app_le by (rewrite length_app, length_replicate; lia). done.
Qed.
Lemma recent_full width read : (width <= length read)%nat -> recent width read = drop (length read - width) read.
Proof. intros Hw. unfold recent. rewrite drop_app_ge by (rewrite length_replicate; lia). by rewrite length_replicate. Qed.

(** [win] holds the recent words from [cursor] on, cyclically. *)
Definition ring (width cursor : N) (win read : list (list byte)) : Prop :=
  exists newer older rest, win = older ++ newer ++ rest /\ len older = cursor /\ len newer = width - cursor /\
    cursor < width /\ newer ++ older = recent (N.to_nat width) read.
Lemma ring_new width : 0 < width -> width <= WINDOW -> ring width 0 (replicate (N.to_nat WINDOW) []) [].
Proof.
  intros H0 Hw. exists (replicate (N.to_nat width) []), [], (replicate (N.to_nat (WINDOW - width)) []).
  split_and!; try done.
  - cbn [app]. rewrite <- replicate_add. f_equal. lia.
  - unfold len. rewrite length_replicate. lia.
Qed.
(** Overwriting the oldest word and moving on. *)
Lemma ring_push width cursor win read w : ring width cursor win read ->
  let next := if cursor + 1 =? width then 0 else cursor + 1 in
  let win' := <[N.to_nat cursor := w]> win in
  is_Some (index win cursor) /\ ring width next win' (read ++ [w]) /\
  exists newer older, slice win' next width = Some newer /\ slice win' 0 next = Some older /\
    newer ++ older = recent (N.to_nat width) (read ++ [w]).
Proof.
  intros (newer & older & rest & -> & Ho & Hn & Hc & Hr). cbn zeta.
  destruct newer as [|x newer]; [rewrite len_nil in Hn; lia|]. rewrite len_cons in Hn.
  assert (En : N.to_nat cursor = length older) by (unfold len in Ho; lia).
  assert (Ew : <[N.to_nat cursor := w]> (older ++ (x :: newer) ++ rest) = older ++ w :: newer ++ rest).
  { rewrite En. cbn [app]. by rewrite insert_app_r_alt, Nat.sub_diag by lia. }
  rewrite Ew. assert (Hr' : newer ++ older ++ [w] = recent (N.to_nat width) (read ++ [w])).
  { rewrite recent_snoc, <- Hr by lia. by rewrite app_assoc. }
  assert (Hs : forall l, older ++ w :: l = (older ++ [w]) ++ l) by (intros l; by rewrite <- app_assoc).
  split. { unfold index. rewrite En. cbn [app]. rewrite list_lookup_middle by done. by eexists. }
  destruct (N.eqb_spec (cursor + 1) width) as [E|E].
  - assert (newer = []) as -> by (apply len_zero; lia). cbn [app] in *. split.
    + exists (older ++ [w]), [], rest. rewrite <- app_assoc, app_nil_r, len_app, len_cons, !len_nil.
      split_and!; done || lia.
    + exists (older ++ [w]), []. rewrite app_nil_r. split_and!; [| |done].
      * apply slice_ok. rewrite len_app, len_cons. split_and!; [lia..|].
        change (N.to_nat 0) with 0%nat. rewrite drop_0. replace (N.to_nat (width - 0)) with (length (older ++ [w])) by (rewrite length_app; cbn; lia).
        rewrite (Hs rest). by rewrite take_app_length.
      * apply slice_ok. split_and!; [lia..|]. done.
  - split.
    + exists newer, (older ++ [w]), rest. rewrite <- !app_assoc, len_app, len_cons, len_nil. split_and!; done || lia.
    + exists newer, (older ++ [w]). split_and!; [| |done].
      * apply slice_ok. rewrite !len_app, len_cons, len_app. split_and!; [lia..|].
        rewrite Hs.
        replace (N.to_nat (cursor + 1)) with (length (older ++ [w])) by (rewrite length_app; cbn; lia).
        rewrite drop_app_length. replace (N.to_nat (width - (cursor + 1))) with (length newer) by (unfold len in *; lia).
        by rewrite take_app_length.
      * apply slice_ok. rewrite !len_app, len_cons. split_and!; [lia..|].
        change (N.to_nat 0) with 0%nat. rewrite drop_0. replace (N.to_nat (cursor + 1 - 0)) with (length (older ++ [w])) by (rewrite length_app; cbn; lia).
        rewrite (Hs (newer ++ rest)). by rewrite take_app_length.
Qed.

Section Phrase.
Context (limits : AnalysisLimits) (terms : list (list byte)) (equal : list byte -> list byte -> bool) (f : list byte -> list byte).
Context (Hequal : Forall (fun t => forall w, equal w t = bool_decide (f w = t)) terms).

Lemma compare_window_cost ws more ts work :
  Forall (fun t => forall w, equal w t = bool_decide (f w = t)) ts -> length ws = length ts ->
  match work_charge work (window_cost ((f <$> ws) ++ more) ts) with
  | Ok left_ => compare_window equal ws ts work = (window_at ((f <$> ws) ++ more) ts 0, left_, None)
  | Err e => exists left_, compare_window equal ws ts work = (false, left_, Some e)
  | Panic => False
  end.
Proof.
  intros He. revert ws work; induction He as [|t ts Ht _ IH]; intros ws work Hl.
  - destruct ws; [|done]. cbn [window_cost]. by rewrite work_charge_0.
  - destruct ws as [|w ws]; [done|]. injection Hl as Hl. cbn [compare_window fmap list_fmap app window_cost].
    rewrite <- work_charge_add. destruct (work_charge work 1) as [w1|e|] eqn:E1; cbn [rbind].
    + rewrite Ht. unfold window_at. rewrite drop_0. cbn [length take].
      destruct (bool_decide_reflect (f w = t)) as [E|E].
      * specialize (IH ws w1 Hl). unfold window_at in IH. rewrite drop_0 in IH.
        destruct (work_charge w1 _) as [w2|e|]; [|done|done]. rewrite IH. f_equal. f_equal.
        apply bool_decide_ext. split; [by intros ->; rewrite E|by intros [= _ ->]].
      * rewrite work_charge_0. rewrite bool_decide_eq_false_2; [done|]. by intros [= ? _].
    + by eexists.
    + unfold work_charge in E1. by destruct (checked_sub work 1).
Qed.

(** What is left of the search once the words [pre] are read: the windows that start
    at the words [pre ++ ws] has from [len pre + 1 - width] on. *)
Definition ahead (pre ws : list (list byte)) : list (list byte) :=
  drop (S (length pre) - length terms) (f <$> pre ++ ws).
Definition phrase_in (ws : list (list byte)) : bool := existsb (window_at ws terms) (seq 0 (length ws)).
Definition phrase_rest (pre ws : list (list byte)) (work : Work) : Result bool :=
  let* _ := work_charge work (phrase_cost (ahead pre ws) terms) in Ok (phrase_in (ahead pre ws)).

Lemma phrase_in_short ws : (length ws < length terms)%nat -> phrase_in ws = false.
Proof.
  intros Hl. apply not_true_is_false. intros (k & _ & Hk)%existsb_exists.
  apply bool_decide_eq_true_1, (f_equal length) in Hk. rewrite length_take, length_drop in Hk. lia.
Qed.
Lemma phrase_in_cons w ws : phrase_in (w :: ws) = window_at (w :: ws) terms 0 || phrase_in ws.
Proof.
  unfold phrase_in. cbn [length seq existsb]. f_equal. rewrite <- seq_shift.
  induction (seq 0 (length ws)) as [|k l IH]; [done|]. cbn. by rewrite IH.
Qed.
Lemma phrase_cost_short ws : (length ws < length terms)%nat -> phrase_cost ws terms = 0.
Proof. intros Hl. destruct ws; [done|]. cbn [phrase_cost]. by rewrite (proj2 (N.ltb_lt _ _)) by (unfold len; lia). Qed.
Lemma ahead_skip pre w ws : (S (length pre) < length terms)%nat -> ahead (pre ++ [w]) ws = ahead pre (w :: ws).
Proof.
  intros Hl. unfold ahead. rewrite length_app, <- app_assoc. cbn [length app].
  by rewrite !(proj2 (Nat.sub_0_le _ _)) by lia.
Qed.
Lemma ahead_step pre w ws : terms <> [] -> (length terms <= S (length pre))%nat ->
  exists x, ahead pre (w :: ws) = x :: ahead (pre ++ [w]) ws /\
    ahead pre (w :: ws) = (f <$> recent (length terms) (pre ++ [w])) ++ (f <$> ws).
Proof.
  intros Hne Hl. assert (0 < length terms)%nat by by destruct terms; [|cbn; lia].
  unfold ahead. rewrite length_app. cbn [length]. set (k := (S (length pre) - length terms)%nat).
  replace (S (length pre + 1) - length terms)%nat with (S k) by lia. rewrite <- app_assoc. cbn [app].
  destruct (lookup_lt_is_Some_2 (f <$> pre ++ w :: ws) k) as [x Hx].
  { rewrite length_fmap, length_app. cbn. lia. }
  exists x. split; [by apply drop_S|].
  rewrite recent_full by (rewrite length_app; cbn; lia). rewrite length_app. cbn [length].
  replace (length pre + 1 - length terms)%nat with k by lia.
  rewrite <- fmap_app, cons_middle, app_assoc, <- !fmap_drop. f_equal. rewrite drop_app_le; [done|].
  rewrite length_app. cbn. lia.
Qed.
Definition phrase_result (st : PhraseState) : Result bool :=
  match exhausted st with Some error => Err error | None => Ok (found st) end.

(** After a hit or an error the words are only checked. *)
Lemma match_phrase_tail win c fl n b work e ws :
  b || bool_decide (is_Some e) = true ->
  (let* st := foldM (match_phrase_word terms limits equal) (mkPhraseState win c fl n b work e) ws in phrase_result st)
    = let* _ := check_words limits n ws in match e with Some e => Err e | None => Ok b end.
Proof.
  intros Hb. revert n. induction ws as [|w ws IH]; intros n; cbn [foldM check_words]; [done|].
  unfold match_phrase_word at 1. destruct (term_bytes limits <? len w); [done|].
  destruct (n =? tokens_limit limits); [done|]. rewrite Hb. cbn [rbind]. apply IH.
Qed.

Context (Hne : terms <> []) (Hw : len terms <= WINDOW).
Lemma match_phrase_loop pre win c work ws : ring (len terms) c win pre ->
  (let* st := foldM (match_phrase_word terms limits equal)
     (mkPhraseState win c (N.min (len pre) (len terms)) (len pre) false work None) ws in phrase_result st)
    = let* _ := check_words limits (len pre) ws in phrase_rest pre ws work.
Proof.
  revert pre win c work; induction ws as [|w ws IH]; intros pre win c work Hr; cbn [foldM check_words].
  - unfold phrase_rest, ahead. rewrite app_nil_r. assert (0 < length terms)%nat by by destruct terms; [|cbn; lia].
    assert (Hs : (length (drop (S (length pre) - length terms) (f <$> pre)) < length terms)%nat)
      by (rewrite length_drop, length_fmap; lia).
    rewrite phrase_cost_short, phrase_in_short by done. by rewrite work_charge_0.
  - unfold match_phrase_word at 1. destruct (term_bytes limits <? len w); [done|].
    destruct (len pre =? tokens_limit limits); [done|]. cbn [orb bool_decide is_Some].
    rewrite bool_decide_eq_false_2 by by intros [? ?].
    destruct (ring_push _ _ _ _ w Hr) as ([x Hx] & Hr' & newer & older & Hn & Ho & Hrec).
    rewrite Hx. cbn [or_panic rbind orb]. cbv zeta in Hr', Hn, Ho.
    assert (El : len (pre ++ [w]) = len pre + 1) by by rewrite len_app.
    replace (N.min (N.min (len pre) (len terms) + 1) (len terms)) with (N.min (len (pre ++ [w])) (len terms)) by lia.
    rewrite <- El. destruct (N.eqb_spec (N.min (len (pre ++ [w])) (len terms)) (len terms)) as [Ef|Ef]; cbn [negb].
    + rewrite Hn, Ho. cbn [or_panic rbind].
      destruct (ahead_step pre w ws) as (y & E1 & E2); [done|unfold len in *; lia|].
      rewrite Hrec. replace (N.to_nat (len terms)) with (length terms) by (unfold len; lia).
      pose proof (compare_window_cost (recent (length terms) (pre ++ [w])) (f <$> ws) terms work Hequal (length_recent _ _)) as Hcmp.
      rewrite <- E2 in Hcmp. unfold phrase_rest at 1. rewrite E1 in *. rewrite phrase_in_cons. cbn [phrase_cost].
      rewrite (proj2 (N.ltb_ge _ _)); cycle 1.
      { rewrite <- E1. unfold ahead, len in *. rewrite length_drop, length_fmap, length_app. cbn [length]. rewrite length_app in Ef.
        cbn [length] in Ef. lia. }
      rewrite <- work_charge_add. destruct (work_charge work (window_cost _ terms)) as [w1|e|]; [|destruct Hcmp as [l ->]|done].
      * rewrite Hcmp. cbn [rbind]. destruct (window_at (y :: _) terms 0); cbn [orb].
        -- rewrite work_charge_0. by apply match_phrase_tail.
        -- by apply IH.
      * cbn [rbind]. by apply match_phrase_tail.
    + cbn [rbind]. rewrite IH by done. unfold phrase_rest. rewrite ahead_skip; [done|]. rewrite El in Ef. unfold len in *. lia.
Qed.

(** [match_phrase_words] checks every word and then answers with the oracle's work. *)
Lemma match_phrase_words_spec `{Unicode} text steps :
  match_phrase_words text terms limits steps equal
    = let ws := f <$> unicode_words text in
      let* _ := check_words limits 0 (unicode_words text) in
      search_result (1 + phrase_cost ws terms) steps (phrase_in ws).
Proof.
  cbv zeta. set (ws := unicode_words text). unfold match_phrase_words. fold ws.
  pose proof (work_charge_add steps 1 (phrase_cost (f <$> ws) terms)) as Ha.
  assert (Hs : search_result (1 + phrase_cost (f <$> ws) terms) steps (phrase_in (f <$> ws))
    = let* _ := work_charge steps (1 + phrase_cost (f <$> ws) terms) in Ok (phrase_in (f <$> ws))).
  { unfold search_result, work_charge, checked_sub. by destruct (_ <=? _). }
  rewrite Hs, <- Ha. clear Ha Hs. destruct (work_charge steps 1) as [w1|e|] eqn:E1; cbn [rbind].
  - assert (Hlt : 0 < len terms) by by destruct terms; [|rewrite len_cons; lia].
    pose proof (match_phrase_loop [] _ 0 w1 ws (ring_new (len terms) Hlt Hw)) as Hl.
    unfold phrase_rest, ahead in Hl. cbn [length app] in Hl. change (len []) with 0 in Hl. rewrite N.min_0_l in Hl.
    replace (1 - length terms)%nat with 0%nat in Hl by (unfold len in Hlt; lia). rewrite drop_0 in Hl. exact Hl.
  - by apply (match_phrase_tail _ _ _ 0 false).
  - unfold work_charge in E1. by destruct (checked_sub steps 1).
Qed.
End Phrase.

(** ** Against the oracle *)
(** The allocator or the memory limit refused: not something the text or the query
    decides. *)
Definition memory_error (e : Error) : Prop := e = Allocation \/ exists b, e = FromBudget b.
Definition memory_failure {A} (m : Result A) : Prop := exists e, m = Err e /\ memory_error e.
(** [m] is [s], unless memory ran out. *)
Definition agrees {A} (m s : Result A) : Prop := memory_failure m \/ m = s.

Lemma memory_failure_bind {A B} (m : Result A) (k : A -> Result B) :
  memory_failure m -> memory_failure (let* x := m in k x).
Proof. intros (e & -> & He). by exists e. Qed.
Lemma agrees_refl {A} (m : Result A) : agrees m m.
Proof. by right. Qed.
Lemma agrees_bind {A B} (m s : Result A) (k k' : A -> Result B) :
  agrees m s -> (forall x, m = Ok x -> agrees (k x) (k' x)) -> agrees (let* x := m in k x) (let* x := s in k' x).
Proof.
  intros [Hm|<-] Hk; [left; by apply memory_failure_bind|]. destruct m as [x|e|]; cbn; [by apply Hk|by right..].
Qed.
#[export] Hint Resolve agrees_refl : pin.

Section Equivalence.
Context `{HU : Unicode} {HT : UnicodeTables} {HA : UnicodeAscii} {HW : UnicodeWords} (grow : N -> option N).
Context (Hg : forall n c, grow n = Some c -> n <= c).

Lemma charge_array_error b n s e : try_budget (charge_array b n s) = Err e -> memory_error e.
Proof.
  unfold try_budget. destruct (charge_array b n s) as [b' [u|x|]]; cbn; try done.
  intros [= <-]. right. by eexists.
Qed.
Lemma reserve_agrees {A} size (v : Vec A) additional lim b : budget_wf b -> len (items v) + additional < 2 ^ usize ->
  if lim <? len (items v) + additional then reserve grow size v additional lim b = Err (Limit "element count")
  else memory_failure (reserve grow size v additional lim b) \/ exists r, reserve grow size v additional lim b = Ok r.
Proof.
  intros Hb Hn. pose proof (reserve_safe grow size v additional lim b Hb) as Hs. revert Hs. unfold reserve.
  rewrite checked_add_fits by done. cbn [ok_or rbind]. destruct (lim <? _) eqn:El; [done|].
  destruct (_ <=? capacity v); [intros _; right; by eexists|]. cbv zeta. set (t := N.min _ _).
  assert (Hm : memory_error (FromBudget LimitExceeded)) by (right; by eexists).
  destruct (match checked_mul usize (t - capacity v) size with Some n => remaining b <? n | None => true end);
    cbv match; (case_match; [intros _; left; by eexists|]); (destruct (grow _) as [c|]; cbn [ok_or rbind];
      [|intros _; left; eexists; split; [done|by left]]);
    destruct (try_budget _) as [b1|e|] eqn:Ec; cbn [rbind]; intros Hs; try (by destruct Hs); try (by right; eexists);
    left; eexists; (split; [done|]); by eapply charge_array_error.
Qed.

Lemma check_words_lengths limits n ws ws' : len <$> ws = len <$> ws' -> check_words limits n ws = check_words limits n ws'.
Proof.
  revert n ws'; induction ws as [|w ws IH]; intros n [|w' ws'] E; try done. injection E as E1 E.
  cbn [check_words]. rewrite E1. destruct (_ <? _); [done|]. destruct (_ =? _); [done|]. by apply IH.
Qed.
Lemma push_tokens_checks limits text wi v b : words_in text wi -> len text < 2 ^ 32 -> budget_wf b ->
  tokens_limit limits < 2 ^ 32 -> len (items v) <= tokens_limit limits ->
  agrees (let* _ := foldM (push_token grow limits) (v, b) wi in Ok tt)
    (check_words limits (len (items v)) (snd <$> wi)).
Proof.
  revert v b; induction wi as [|[i w] wi IH]; intros v b Hw Hl Hb Ht Hv; [by right|].
  pose proof (words_in_lt text _ i w Hw Hl (list_elem_of_here _ _)) as Hi.
  assert (Hw' : words_in text wi) by (intros ? ? ?; apply Hw; by right).
  cbn [foldM fmap list_fmap check_words snd]. destruct (push_token _ _ _ _) as [[v1 b1]|e|] eqn:E.
  - pose proof (push_token_ok grow Hg limits v b i w v1 b1 Hb Hi E) as (E1 & Hlen & Hc & _ & _ & _ & Hb1).
    rewrite (proj2 (N.ltb_ge _ _)), (proj2 (N.eqb_neq _ _)) by lia. cbn [rbind].
    specialize (IH v1 b1 Hw' Hl Hb1 Ht). rewrite E1, len_app, len_cons, len_nil in IH. by apply IH.
  - revert E. unfold push_token. destruct (term_bytes limits <? len w); [intros [= <-]; by right|].
    assert (Hu : len (items v) + 1 < 2 ^ usize) by (unfold usize; lia).
    pose proof (reserve_agrees token_range_size v 1 (tokens_limit limits) b Hb Hu) as Hr.
    destruct (N.ltb_spec (tokens_limit limits) (len (items v) + 1)).
    + rewrite Hr. cbn [rbind]. intros [= <-]. rewrite (proj2 (N.eqb_eq _ _)) by lia. by right.
    + destruct Hr as [(e' & -> & He)|([v1 b1] & ->)]; cbn [rbind].
      * intros [= <-]. left. by exists e'.
      * unfold add_w. rewrite checked_add_fits; [done|]. eapply N.lt_trans; [exact Hi|done].
  - exfalso. eapply push_token_safe; [exact Hb| |exact E]. eapply N.lt_trans; [exact Hi|done].
Qed.

(** What the analysis checks, in the order it checks it. *)
Definition analysis_checks (text : list byte) (limits : AnalysisLimits) : Result unit :=
  let* _ := check_input text limits in
  let* '(normalized, _, _) := profile_text grow (normalized_bytes limits) text (budget_new (memory_bytes limits)) in
  let* _ := check_u32 (len (items normalized)) "normalized bytes" in
  check_words limits 0 (document_words text).
Lemma analyze_checks text limits : utf8_valid text = true -> limits_wf limits ->
  agrees (let* _ := analyze grow text limits in Ok tt) (analysis_checks text limits).
Proof.
  intros Ht [Hl Hm]. unfold analyze, analysis_checks. rewrite !rbind_assoc.
  apply agrees_bind; [auto with pin|]. intros u _.
  apply agrees_bind; [auto with pin|]. intros [[norm peak] b1] H1.
  apply (profile_text_cases grow Hg) in H1 as (E & _ & Hv & _ & _ & _ & Hb1); [|done|by apply budget_new_wf].
  rewrite !rbind_assoc. apply agrees_bind; [auto with pin|]. intros u2 H2.
  unfold check_u32 in H2. apply if_err_ok in H2 as [H2%N.ltb_ge _]. unfold u32_max in H2.
  pose proof (push_tokens_checks limits (items norm) (word_indices (items norm)) vec_new b1) as Hp.
  cbn [vec_new items] in Hp. unfold document_words, unicode_words. rewrite <- E.
  destruct (foldM _ _ _) as [[toks b2]|e|]; cbn [rbind] in *;
    (apply Hp; [by apply words_in_indices|lia|done|done|apply N.le_0_l]).
Qed.

(** The whole pipeline of a recheck through the oracle. *)
Definition oracle_recheck (q : Query) (text : list byte) (limits : AnalysisLimits) (mem steps : N) : Result bool :=
  let* a := analyze grow text limits in matches grow a q mem steps.
Lemma oracle_recheck_agrees q text limits mem steps : utf8_valid text = true -> limits_wf limits -> mem < 2 ^ usize ->
  query_wf q -> node_count q < 2 ^ usize ->
  agrees (oracle_recheck q text limits mem steps)
    (let* _ := analysis_checks text limits in
     search_result (query_cost (document_words text) q) steps (holds (document_words text) (query_tree q))).
Proof.
  intros Ht Hl Hm Hq Hn. unfold oracle_recheck.
  replace (let* a := analyze grow text limits in matches grow a q mem steps)
    with (let* _ := (let* _ := analyze grow text limits in Ok tt) in let* a := analyze grow text limits in matches grow a q mem steps)
    by by destruct (analyze grow text limits).
  apply agrees_bind; [by apply analyze_checks|]. intros u H. apply rbind_ok in H as (a & Ha & _).
  rewrite Ha. cbn [rbind]. pose proof (analyze_cases grow Hg text limits a Ht Hl Ha) as (_ & _ & _ & Hw & _).
  rewrite (matches_tree grow a _ q mem steps Hw Hq).
  pose proof (reserve_agrees 1 (vec_new (A := bool)) (node_count q) (node_count q) (budget_new mem)) as Hr.
  rewrite N.ltb_irrefl in Hr.
  destruct Hr as [Hr|[r Hr]]; [by apply budget_new_wf|done|left; by apply memory_failure_bind|].
  right. unfold vector. rewrite Hr. done.
Qed.

(** An ASCII document is read in place. *)
Lemma ascii_profile_agrees lim text b : is_ascii text = true -> len text < 2 ^ usize -> budget_wf b ->
  agrees (let* '(n, _, _) := profile_text grow lim text b in check_u32 (len (items n)) "normalized bytes")
    (if lim <? len text then Err (Limit "normalized bytes") else check_u32 (len text) "normalized bytes").
Proof.
  intros Ea Hu Hb. unfold profile_text. rewrite Ea.
  destruct (reserve _ _ _ _ _ _) as [[v b1]|e|] eqn:Er; cbn [rbind].
  - destruct (lim <? len text); [by right|].
    apply reserve_ok in Er as (E & _); [|done..]. unfold vec_extend. cbn [items]. rewrite E. cbn [vec_new items app].
    rewrite ascii_valid by by apply is_ascii_lower. cbn [rbind items]. rewrite len_ascii_lower. by right.
  - pose proof (reserve_agrees 1 (vec_new (A := byte)) (N.min (len text) lim) lim b Hb) as Hr.
    cbn [vec_new items] in Hr. rewrite (proj2 (N.ltb_ge _ _)) in Hr by (rewrite len_nil; lia).
    destruct Hr as [(e' & Hr & He)|[r Hr]]; [rewrite len_nil; lia|..]; rewrite Er in Hr; [|done].
    injection Hr as <-. left. by exists e.
  - exfalso. eapply reserve_safe; [exact Hb|exact Er].
Qed.
Lemma document_words_ascii text : is_ascii text = true -> document_words text = ascii_lower <$> unicode_words text.
Proof.
  intros Ea. unfold document_words, unicode_words. rewrite profile_ascii, ascii_words by done.
  rewrite <- !list_fmap_compose. apply list_fmap_ext. by intros ? [? ?] ?.
Qed.

(** A matcher: its checks are the analysis', on the words of the document. *)
Definition matcher (text : list byte) (limits : AnalysisLimits) (ascii : Result bool) (general : list byte -> Result bool)
  : Result bool :=
  let* _ := check_input text limits in
  if is_ascii text then
    if normalized_bytes limits <? len text then Err (Limit "normalized bytes") else
    let* _ := check_u32 (len text) "normalized bytes" in ascii
  else
    let budget := budget_new (memory_bytes limits) in
    let* '(normalized, _, _) := profile_text grow (normalized_bytes limits) text budget in
    let* _ := check_u32 (len (items normalized)) "normalized bytes" in general (items normalized).
Lemma matcher_agrees text limits ascii general cost answer steps :
  utf8_valid text = true -> len text < 2 ^ usize -> memory_bytes limits < 2 ^ usize ->
  (is_ascii text = true ->
     ascii = let* _ := check_words limits 0 (unicode_words text) in search_result cost steps answer) ->
  (forall n, unicode_words n = document_words text ->
     general n = let* _ := check_words limits 0 (unicode_words n) in search_result cost steps answer) ->
  agrees (let* _ := analysis_checks text limits in search_result cost steps answer)
    (matcher text limits ascii general).
Proof.
  intros Ht Hu Hm Ha Hk. unfold analysis_checks, matcher. rewrite !rbind_assoc. apply agrees_bind; [auto with pin|]. intros _ _.
  pose proof (budget_new_wf _ Hm) as Hb. destruct (is_ascii text) eqn:Ea; cbv zeta.
  - rewrite Ha, document_words_ascii by done.
    rewrite <- (check_words_lengths limits 0 (ascii_lower <$> unicode_words text) (unicode_words text))
      by (rewrite <- list_fmap_compose; apply list_fmap_ext; intros; apply len_ascii_lower).
    pose proof (ascii_profile_agrees (normalized_bytes limits) text _ Ea Hu Hb) as Hp.
    destruct (profile_text _ _ _ _) as [[[n p] b1]|e|]; cbn [rbind] in *.
    + rewrite !rbind_assoc. destruct Hp as [Hp|Hp].
      * left. by apply memory_failure_bind.
      * rewrite Hp. right. by destruct (_ <? _).
    + destruct Hp as [Hp|Hp]; [left|right].
      * destruct Hp as (e' & [= ->] & He). by exists e'.
      * revert Hp; destruct (_ <? _); [by intros [= ->]|by intros <-].
    + destruct Hp as [(e' & ? & ?)|Hp]; [done|right]. revert Hp; destruct (_ <? _); [done|by intros <-].
  - destruct (profile_text _ _ _ _) as [[[n p] b1]|e|] eqn:E; cbn [rbind]; [|by right..].
    apply (profile_text_cases grow Hg) in E as (E & _); [|done..].
    assert (Ed : unicode_words (items n) = document_words text) by by unfold document_words; rewrite E.
    rewrite !rbind_assoc. apply agrees_bind; [auto with pin|]. intros _ _. right. by rewrite Hk, Ed.
Qed.
Lemma matcher_safe text limits ascii general : utf8_valid text = true -> memory_bytes limits < 2 ^ usize ->
  safe ascii -> (forall n, safe (general n)) -> safe (matcher text limits ascii general).
Proof.
  intros Ht Hm Ha Hk. unfold matcher, check_input, check_u32. apply safe_bind; [by repeat safe_step|]. intros _ _. cbv zeta.
  apply safe_if; intros _.
  - apply safe_if; intros _; [done|]. apply safe_bind; [by repeat safe_step|]. done.
  - destruct (profile_text_cases grow Hg (normalized_bytes limits) text _ Ht (budget_new_wf _ Hm)) as [[Hs _] _].
    apply safe_bind; [done|]. intros [[n p] b] _. apply safe_bind; [by repeat safe_step|]. done.
Qed.
(** Reading in place needs no memory. *)
Lemma matcher_ascii text limits ascii general : is_ascii text = true -> ~ memory_failure ascii ->
  ~ memory_failure (matcher text limits ascii general).
Proof.
  intros Ea Ha. unfold matcher, check_input, check_u32. rewrite Ea.
  assert (Hl : forall e, ~ memory_error e -> ~ memory_failure (Err (A := bool) e)) by by intros e He (e' & [= <-] & ?).
  destruct (negb _); [apply Hl; by intros [?|[? ?]]|]. destruct (_ <? _); [apply Hl; by intros [?|[? ?]]|]. cbn [rbind].
  destruct (_ <? _); [apply Hl; by intros [?|[? ?]]|]. by destruct (_ <? _); [apply Hl; intros [?|[? ?]]|].
Qed.
Lemma check_words_cases limits n ws : check_words limits n ws = Ok tt \/ exists what, check_words limits n ws = Err (Limit what).
Proof.
  revert n; induction ws as [|w ws IH]; intros n; cbn; [by left|].
  destruct (_ <? _); [right; by eexists|]. destruct (_ =? _); [right; by eexists|]. apply IH.
Qed.
Lemma checked_search limits ws cost steps answer :
  let m := let* _ := check_words limits 0 ws in search_result cost steps answer in safe m /\ ~ memory_failure m.
Proof.
  cbv zeta. destruct (check_words_cases limits 0 ws) as [-> | [what ->]]; cbn [rbind]; [unfold search_result; destruct (_ <=? _)|];
    (split; [done|]); intros (e & ? & [?|[? ?]]); congruence.
Qed.
End Equivalence.

Section Matchers.
Context `{HU : Unicode} {HT : UnicodeTables} {HA : UnicodeAscii} {HW : UnicodeWords} (grow : N -> option N).
Context (Hg : forall n c, grow n = Some c -> n <= c).

(** A query of one leaf. *)
Lemma single_node q n : query_wf q -> node_count q = 1 -> index (items (nodes q)) (root q) = Some n ->
  query_tree q = shape (fun _ => TreeNone) (kind n) /\
  forall ws, query_cost ws q = 1 + kind_cost ws (kind n).
Proof.
  intros [Hw Hr] Hn Hi. unfold query_tree, query_cost, node_count in *.
  destruct (items (nodes q)) as [|m [|m' l]]; [done| |rewrite !len_cons in Hn; lia].
  assert (root q = 0) as Hr0 by (rewrite len_cons, len_nil in Hr; lia). rewrite Hr0 in *.
  injection Hi as ->. split; [|intros ws; cbn; lia].
  apply (nodes_wf_snoc_inv [] n) in Hw as (_ & Hc & _). unfold node_tree, trees, tree_at. cbn.
  apply shape_ext. destruct (kind n); cbn in *; try constructor;
    try (apply list.Forall_cons_1 in Hc as [? _]; rewrite len_nil in *; lia).
Qed.
Lemma agrees_trans {A} (m s r : Result A) : agrees m s -> agrees s r -> agrees m r.
Proof. intros [?| ->]; [by left|done]. Qed.
Lemma existsb_fmap {A B} (f : A -> B) p l : existsb p (f <$> l) = existsb (fun x => p (f x)) l.
Proof. induction l as [|x l IH]; [done|]. cbn. by rewrite IH. Qed.
Lemma scan_cost_fmap {A B} (f : A -> B) p l : scan_cost p (f <$> l) = scan_cost (fun x => p (f x)) l.
Proof. induction l as [|x l IH]; [done|]. cbn. by rewrite IH. Qed.
Lemma existsb_ext' {A} (p p' : A -> bool) l : (forall x, p x = p' x) -> existsb p l = existsb p' l.
Proof. intros E. induction l as [|x l IH]; [done|]. cbn. by rewrite E, IH. Qed.
Lemma scan_cost_ext {A} (p p' : A -> bool) l : (forall x, p x = p' x) -> scan_cost p l = scan_cost p' l.
Proof. intros E. induction l as [|x l IH]; [done|]. cbn. by rewrite E, IH. Qed.

End Matchers.

(** C32: the streaming matcher of a single canonical term, that is one without upper-case
    ASCII letters, as the folding of the parser leaves it, replaces analysis and oracle:
    on every document it returns what analyzing the document and asking the oracle returns, the
    answer, the search-work error or the analysis error, unless the oracle's larger
    buffers do not fit its memory; it never panics, and on an ASCII document it needs no
    memory at all. *)
Theorem term_recheck_exact `{UnicodeTables} `{!UnicodeAscii} `{!UnicodeWords} grow q term text limits mem steps :
  (forall n c, grow n = Some c -> n <= c) -> utf8_valid text = true -> len text < 2 ^ usize -> limits_wf limits ->
  mem < 2 ^ usize -> query_wf q -> single_new (E := Error) q = Ok (Some term) -> ascii_lower term = term ->
  agrees (oracle_recheck grow q text limits mem steps) (single_matches grow term text limits steps) /\
  single_matches grow term text limits steps <> Panic /\
  (is_ascii text = true -> ~ memory_failure (single_matches grow term text limits steps)).
Proof.
  intros Hg Ht Hu Hl Hm Hq Hs Hlow. pose proof Hl as [Htok Hmem].
  unfold single_new in Hs. destruct (N.eqb_spec (node_count q) 1) as [Hn|]; [|done]. cbn [negb] in Hs.
  apply rbind_ok in Hs as (n & Hi%or_panic_ok & Hs). destruct (kind n) as [|t| | | | |] eqn:Ek; try done.
  injection Hs as ->. destruct (single_node q n Hq Hn Hi) as [Etree Ecost]. rewrite Ek in Etree, Ecost.
  unfold single_matches. fold (matcher grow text limits (match_words text limits steps (fun word => eq_ignore_ascii_case word term))
    (fun n => match_words n limits steps (fun word => bool_decide (word = term)))).
  pose proof (fun n p => match_words_spec limits Htok n steps p) as Hspec.
  split_and!.
  - eapply agrees_trans; [apply oracle_recheck_agrees; done || (rewrite Hn; done)|].
    rewrite Ecost, Etree. cbn [kind_cost shape holds]. apply matcher_agrees; try done; [intros Ea|intros n' En].
    + rewrite Hspec, document_words_ascii, existsb_fmap, scan_cost_fmap by done. unfold eq_ignore_ascii_case. by rewrite Hlow.
    + by rewrite Hspec, En.
  - apply matcher_safe; try done; [|intros n']; rewrite Hspec; apply checked_search.
  - intros Ea. apply matcher_ascii; [done|]. rewrite Hspec. apply checked_search.
Qed.

(** C33: the streaming matcher of a phrase of canonical terms (as above, without upper-case
    ASCII letters), with its window of 64 words, replaces analysis and oracle in the same way: same answer, same work, same errors, no panic,
    and no memory for an ASCII document. *)
Theorem phrase_recheck_exact `{UnicodeTables} `{!UnicodeAscii} `{!UnicodeWords} grow q terms text limits mem steps :
  (forall n c, grow n = Some c -> n <= c) -> utf8_valid text = true -> len text < 2 ^ usize -> limits_wf limits ->
  mem < 2 ^ usize -> query_wf q -> phrase_new (E := Error) q = Ok (Some terms) -> Forall (fun t => ascii_lower t = t) terms ->
  agrees (oracle_recheck grow q text limits mem steps) (phrase_matches grow terms text limits steps) /\
  phrase_matches grow terms text limits steps <> Panic /\
  (is_ascii text = true -> ~ memory_failure (phrase_matches grow terms text limits steps)).
Proof.
  intros Hg Ht Hu Hl Hm Hq Hs Hlow. pose proof Hl as [Htok Hmem].
  unfold phrase_new in Hs. destruct (N.eqb_spec (node_count q) 1) as [Hn|]; [|done]. cbn [negb] in Hs.
  apply rbind_ok in Hs as (n & Hi%or_panic_ok & Hs). destruct (kind n) as [| | |ts| | |] eqn:Ek; try done.
  destruct (bool_decide_reflect (ts = [])) as [|Hne]; [done|]. cbn [negb andb] in Hs.
  destruct (N.leb_spec (len ts) WINDOW) as [Hw|]; [|done]. injection Hs as ->.
  destruct (single_node q n Hq Hn Hi) as [Etree Ecost]. rewrite Ek in Etree, Ecost.
  unfold phrase_matches. fold (matcher grow text limits (match_phrase_words text terms limits steps eq_ignore_ascii_case)
    (fun n => match_phrase_words n terms limits steps (fun word term => bool_decide (word = term)))).
  assert (Ha : Forall (fun t => forall w, eq_ignore_ascii_case w t = bool_decide (ascii_lower w = t)) terms).
  { eapply list.Forall_impl; [exact Hlow|]. intros t E w. unfold eq_ignore_ascii_case. by rewrite E. }
  assert (Hid : Forall (fun t => forall w, bool_decide (w = t) = bool_decide (Datatypes.id w = t)) terms) by by apply list.Forall_true.
  pose proof (fun text => match_phrase_words_spec limits terms _ _ Ha Hne Hw text steps) as Hspec.
  pose proof (fun text => match_phrase_words_spec limits terms (fun w t => bool_decide (w = t)) _ Hid Hne Hw text steps) as Hspec'.
  cbv zeta in Hspec, Hspec'. split_and!.
  - eapply agrees_trans; [apply oracle_recheck_agrees; done || (rewrite Hn; done)|].
    rewrite Ecost, Etree. cbn [kind_cost shape holds]. apply matcher_agrees; try done; [intros Ea|intros n' En].
    + by rewrite Hspec, document_words_ascii.
    + rewrite Hspec', list_fmap_id. by rewrite En.
  - apply matcher_safe; try done; [rewrite Hspec|intros n'; rewrite Hspec']; apply checked_search.
  - intros Ea. apply matcher_ascii; [done|]. rewrite Hspec. apply checked_search.
Qed.

Import Sample.
(** The queries bird and "a bird" on the text "Cat, a bird". *)
Definition query_bird : list byte := byte_of <$> [0x62; 0x69; 0x72; 0x64].
Definition query_a_bird : list byte := byte_of <$> [0x22; 0x61; 0x20; 0x62; 0x69; 0x72; 0x64; 0x22].
Definition parsed (text : list byte) : Query :=
  match parse Some 40 16 24 sample_query_limits text with Ok q => q | _ => mkQuery vec_new 0 [] 0 0 end.
Lemma parsed_wf text q : parse Some 40 16 24 sample_query_limits text = Ok q -> utf8_valid text = true -> query_wf q.
Proof.
  intros Hp Hv. assert (Hg : forall n c : N, Some n = Some c -> n <= c) by (intros n c [=]; lia).
  apply (parse_cases Some 40 16 24 sample_query_limits Hg text); done.
Qed.
Lemma term_recheck_exact_witness :
  single_matches Some query_bird sample_text_cat sample_limits 4 = Ok true /\
  agrees (oracle_recheck Some (parsed query_bird) sample_text_cat sample_limits 64 4) (Ok true).
Proof.
  assert (Hg : forall n c : N, Some n = Some c -> n <= c) by (intros n c [=]; lia).
  assert (E : single_matches Some query_bird sample_text_cat sample_limits 4 = Ok true) by (vm_compute; reflexivity).
  destruct (term_recheck_exact Some (parsed query_bird) query_bird sample_text_cat sample_limits 64 4) as [H _];
    [exact Hg|by vm_compute|by vm_compute|by split|done| |by vm_compute|by vm_compute|].
  - apply (parsed_wf query_bird); [vm_compute; reflexivity|by vm_compute].
  - split; [exact E|]. by rewrite E in H.
Defined.
Definition a_bird : list (list byte) := [[byte_of 0x61]; query_bird].
Lemma phrase_recheck_exact_witness :
  phrase_matches Some a_bird sample_text_cat sample_limits 4 = Ok true /\
  phrase_matches Some a_bird sample_text_cat sample_limits 3 = Err (Limit "search work") /\
  agrees (oracle_recheck Some (parsed query_a_bird) sample_text_cat sample_limits 64 3) (Err (Limit "search work")).
Proof.
  assert (Hg : forall n c : N, Some n = Some c -> n <= c) by (intros n c [=]; lia).
  assert (E : phrase_matches Some a_bird sample_text_cat sample_limits 3 = Err (Limit "search work")) by (vm_compute; reflexivity).
  destruct (phrase_recheck_exact Some (parsed query_a_bird) a_bird sample_text_cat sample_limits 64 3) as [H _];
    [exact Hg|by vm_compute|by vm_compute|by split|done| |by vm_compute|by repeat constructor|].
  - apply (parsed_wf query_a_bird); [vm_compute; reflexivity|by vm_compute].
  - split; [vm_compute; reflexivity|]. split; [exact E|]. by rewrite E in H.
Defined.
