(* ===== verification/GroupHeader.v ===== *)
(** Segment groups, identity and record header: [src/crates/pin-core/src/grouped/mod.rs].

    A group is 256 consecutive heap pages of one segment. Its three kinds of records
    (posting and liveness bitmaps, membership) start with the same 72-byte header, whose
    page mask says which pages the record describes. *)
From S2P Require Export Bytes Identity Kernels Lists.

(** [VERSION], [GROUP_PAGES], [HEADER_BYTES], [MAGIC], [MEMBERS] *)
Definition GROUP_VERSION : N := 1.
Definition GROUP_PAGES : N := 256.
Definition GROUP_HEADER_BYTES : N := 72.
Definition GROUP_MAGIC : list byte := byte_of <$> [0x50; 0x4e; 0x47; 0x39].
Definition MEMBERS : N := 3.

(** [GroupKey] *)
Record GroupKey : Type := mkGroupKey {
  group_relation : Generation;
  group_segment : SegmentId;
  base : N;
  layout : HeapLayout;
}.
#[export] Instance GroupKey_eq_dec : EqDecision GroupKey.
Proof. solve_decision. Defined.

(** [GroupKey::new] *)
Definition GroupKey_new (relation : Generation) (segment : SegmentId) (base : N) (layout : HeapLayout)
  : Result GroupKey :=
  if negb (N.land base 255 =? 0) then Err InvalidParameters
  else Ok (mkGroupKey relation segment base layout).

(** [GroupKey::block] *)
Definition key_block (self : GroupKey) (page : N) : Result N :=
  let block := N.lor (base self) page in
  if block =? u32_max then Err InvalidState else Ok block.

(** [Header] *)
Record Header : Type := mkHeader {
  header_key : GroupKey;
  header_kind : N;
  header_count : N;
  header_mask : list N;
}.

(** [page_count]: at most 256, so the sum of [u16] does not overflow. *)
Definition page_count (mask : list N) : N := mask_count mask.
(** [contains] *)
Definition contains (mask : list N) (page : N) : bool :=
  negb (N.land (word mask (N.to_nat (page / 64))) (N.shiftl 1 (page mod 64)) =? 0).
(** [insert] *)
Definition insert (mask : list N) (page : N) : list N := mask_set mask page.

(** [value.map_err(|_| Error::InvalidState)] *)
Definition invalid_state {A} (m : res IdentityError A) : Result A := map_err (fun _ => InvalidState) m.

(** [for word in &mut mask { *word = reader.u64()?; }] *)
Fixpoint read_words (n : nat) (reader : Reader.t) : Result (list N * Reader.t) :=
  match n with
  | O => Ok ([], reader)
  | S n =>
      let* '(w, reader) := lift_codec (Reader.u64 reader) in
      let* '(ws, reader) := read_words n reader in
      Ok (w :: ws, reader)
  end.

(** [Header::read] *)
Definition header_read (bytes : list byte) : Result Header :=
  let reader := Reader.new bytes in
  let* '(magic, reader) := lift_codec (Reader.take reader 4) in
  if negb (bytes_eqb magic GROUP_MAGIC) then Err InvalidState else
  let* '(version, reader) := lift_codec (Reader.u16 reader) in
  if negb (version =? GROUP_VERSION) then Err InvalidState else
  let* '(kind, reader) := lift_codec (Reader.u8 reader) in
  if negb ((1 <=? kind) && (kind <=? 3)) then Err InvalidState else
  let* '(reserved, reader) := lift_codec (Reader.u8 reader) in
  if negb (reserved =? 0) then Err InvalidState else
  let* '(length, reader) := lift_codec (Reader.u32 reader) in
  if negb (length =? len bytes) then Err InvalidState else
  let* '(base, reader) := lift_codec (Reader.u32 reader) in
  let* '(relation, reader) := lift_codec (Reader.u64 reader) in
  let* relation := invalid_state (identifier_new relation) in
  let* '(segment, reader) := lift_codec (Reader.u64 reader) in
  let* segment := invalid_state (identifier_new segment) in
  let* '(layout, reader) := lift_codec (Reader.u16 reader) in
  let* layout := invalid_state (HeapLayout_new layout) in
  let* '(pages, reader) := lift_codec (Reader.u16 reader) in
  let* '(count, reader) := lift_codec (Reader.u32 reader) in
  let* '(mask, reader) := read_words PAGE_WORDS reader in
  let* key := GroupKey_new relation segment base layout in
  if negb (pages =? page_count mask)
     || ((base =? u32_max - 255) && negb (N.shiftr (word mask 3) 63 =? 0))
  then Err InvalidState
  else Ok (mkHeader key kind count mask).

(** [for word in self.mask { writer.u64(word)?; }] *)
Definition write_words (writer : Writer.t) (mask : list N) : Codec.Result Writer.t := foldM Writer.u64 writer mask.

(** [Header::write] *)
Definition header_write (self : Header) (writer : Writer.t) (length : N) : Result Writer.t :=
  let* writer := lift_codec (Writer.put writer GROUP_MAGIC) in
  let* writer := lift_codec (Writer.u16 writer GROUP_VERSION) in
  let* writer := lift_codec (Writer.u8 writer (header_kind self)) in
  let* writer := lift_codec (Writer.u8 writer 0) in
  let* length := if u32_max <? length then Err (Limit "group bytes") else Ok length in
  let* writer := lift_codec (Writer.u32 writer length) in
  let* writer := lift_codec (Writer.u32 writer (base (header_key self))) in
  let* writer := lift_codec (Writer.u64 writer (group_relation (header_key self))) in
  let* writer := lift_codec (Writer.u64 writer (group_segment (header_key self))) in
  let* writer := lift_codec (Writer.u16 writer (max_offset (layout (header_key self)))) in
  let* writer := lift_codec (Writer.u16 writer (page_count (header_mask self))) in
  let* writer := lift_codec (Writer.u32 writer (header_count self)) in
  lift_codec (write_words writer (header_mask self)).

(** * Specification *)
Definition key_wf (k : GroupKey) : Prop :=
  identifier_wf (group_relation k) /\ identifier_wf (group_segment k) /\ layout_wf (layout k) /\
  base k < 2 ^ 32 /\ base k mod 256 = 0.
(** The last heap block does not exist. *)
Definition page_ok (k : GroupKey) (page : N) : Prop := page < 256 /\ base k + page <> u32_max.
Definition mask_ok (k : GroupKey) (mask : list N) : Prop :=
  mask_wf PAGE_WORDS mask /\ (base k = u32_max - 255 -> mask_bit mask 255 = false).
Definition header_wf (h : Header) : Prop :=
  key_wf (header_key h) /\ 1 <= header_kind h <= 3 /\ header_count h < 2 ^ 32 /\ mask_ok (header_key h) (header_mask h).
(** The bytes of a header, in a record of [length] bytes. *)
Definition header_bytes (h : Header) (length : N) : list byte :=
  GROUP_MAGIC ++ le_bytes 2 GROUP_VERSION ++ [byte_of (header_kind h)] ++ [byte_of 0] ++ le_bytes 4 length ++
  le_bytes 4 (base (header_key h)) ++ le_bytes 8 (group_relation (header_key h)) ++
  le_bytes 8 (group_segment (header_key h)) ++ le_bytes 2 (max_offset (layout (header_key h))) ++
  le_bytes 2 (page_count (header_mask h)) ++ le_bytes 4 (header_count h) ++ (header_mask h ≫= le_bytes 8).

(** ** Masks *)
Lemma page_contains_bit mask page : page < 256 -> contains mask page = mask_bit mask page.
Proof.
  intros _. unfold contains. rewrite <- word_bit. set (w := word mask _). pose proof (mod_64 page) as Hm.
  destruct (N.testbit w (page mod 64)) eqn:E.
  - apply negb_true_iff, N.eqb_neq. intros H0. apply (f_equal (fun x => N.testbit x (page mod 64))) in H0.
    rewrite N.land_spec, pow2_testbit, E, N.eqb_refl, N.bits_0 in H0. done.
  - apply negb_false_iff, N.eqb_eq, N.bits_inj_0. intros i. rewrite N.land_spec, pow2_testbit.
    destruct (N.eqb_spec i (page mod 64)) as [->|]; [by rewrite E|by rewrite andb_false_r].
Qed.
Lemma elem_of_pages mask page : mask_wf PAGE_WORDS mask ->
  page ∈ pages mask <-> page < 256 /\ mask_bit mask page = true.
Proof. intros H. rewrite (pages_bits mask H), elem_of_mask_bits. unfold len. by rewrite (proj1 H). Qed.
Lemma pages_asc mask : mask_wf PAGE_WORDS mask -> asc 0 (pages mask).
Proof. intros H. rewrite pages_bits by done. by apply asc_mask_bits. Qed.
Lemma page_count_pages mask : mask_wf PAGE_WORDS mask -> page_count mask = len (pages mask).
Proof. intros H. rewrite pages_bits by done. apply mask_count_bits, H. Qed.
Lemma page_count_le mask : mask_wf PAGE_WORDS mask -> page_count mask <= 256.
Proof.
  intros H. rewrite page_count_pages, pages_bits by done. pose proof (mask_bits_length _ _ H).
  unfold len, PAGE_WORDS in *. lia.
Qed.

(** ** Keys *)
Lemma land_255 b : N.land b 255 = b mod 256.
Proof. change 255 with (N.ones 8). by rewrite N.land_ones. Qed.
Lemma GroupKey_new_ok relation segment b l k :
  GroupKey_new relation segment b l = Ok k <-> k = mkGroupKey relation segment b l /\ b mod 256 = 0.
Proof. unfold GroupKey_new. rewrite land_255. destruct (N.eqb_spec (b mod 256) 0); naive_solver. Qed.
Lemma lor_page b page : b mod 256 = 0 -> page < 256 -> N.lor b page = b + page.
Proof.
  intros Hb Hp. pose proof (N.div_mod' b 256) as E. rewrite Hb, N.add_0_r in E. rewrite E.
  replace (256 * (b / 256)) with (N.shiftl (b / 256) 8) at 1 by (rewrite N.shiftl_mul_pow2; lia).
  rewrite lor_shiftl_add by done. lia.
Qed.
Lemma key_block_ok k page b : key_wf k -> page < 256 ->
  key_block k page = Ok b <-> b = base k + page /\ page_ok k page.
Proof.
  intros (_ & _ & _ & _ & Hb) Hp. unfold key_block, page_ok. rewrite lor_page by done.
  destruct (N.eqb_spec (base k + page) u32_max); naive_solver.
Qed.
Lemma key_block_err k page : key_wf k -> page < 256 -> ~ page_ok k page -> key_block k page = Err InvalidState.
Proof.
  intros (_ & _ & _ & _ & Hb) Hp Hn. unfold key_block, page_ok in *. rewrite lor_page by done.
  destruct (N.eqb_spec (base k + page) u32_max); [done|]. exfalso. by apply Hn.
Qed.
Lemma key_block_safe k page : safe (key_block k page).
Proof. unfold key_block. repeat safe_step. Qed.
#[export] Hint Resolve key_block_safe : pin.
Lemma page_ok_spec k page : key_wf k -> page < 256 -> page_ok k page <-> ~ (base k = u32_max - 255 /\ page = 255).
Proof.
  intros (_ & _ & _ & Hl & Hb) Hp. unfold page_ok, u32_max. split; [lia|]. intros Hn. split; [done|]. intros E.
  apply Hn. dlia.
Qed.
Lemma mask_ok_page k mask page : key_wf k -> mask_ok k mask -> page < 256 -> mask_bit mask page = true -> page_ok k page.
Proof.
  intros Hk [_ Hl] Hp Hb. apply page_ok_spec; [done..|]. intros [E ->]. by rewrite Hl in Hb.
Qed.

(** ** Reading and writing the header *)
Lemma read_words_ok n pre s ws r : small (pre ++ s) ->
  read_words n (reading pre s) = Ok (ws, r) <->
  mask_wf n ws /\ exists tl, s = (ws ≫= le_bytes 8) ++ tl /\ r = reading (pre ++ (ws ≫= le_bytes 8)) tl.
Proof.
  revert pre s ws r; induction n as [|n IH]; intros pre s ws r Hs; cbn [read_words].
  - split.
    + intros [= <- <-]. split; [done|]. exists s. cbn. by rewrite app_nil_r.
    + intros ([Hl _] & tl & -> & ->). destruct ws; [|done]. cbn. by rewrite app_nil_r.
  - split.
    + intros H. next_lifted H u64_format as w tl Hw. apply rbind_ok in H as ([ws' r'] & H & E). injection E as <- <-.
      apply IH in H as ([Hl Hf] & tl' & -> & ->); [|small_lia]. split; [split; [cbn; lia|by constructor]|].
      exists tl'. by rewrite bind_cons, <- !app_assoc.
    + intros ([Hl Hf] & tl & -> & ->). destruct ws as [|w ws]; [done|]. apply list.Forall_cons_1 in Hf as [Hw Hf].
      rewrite bind_cons, <- !app_assoc in Hs |- *. give_lifted u64_format w; [done|].
      apply rbind_ok. exists (ws, reading ((pre ++ le_bytes 8 w) ++ (ws ≫= le_bytes 8)) tl).
      split; [|by rewrite <- app_assoc]. apply IH; [small_lia|]. split; [split; [cbn in Hl; lia|done]|eauto].
Qed.
Lemma word_3_high mask : mask_wf PAGE_WORDS mask -> negb (N.shiftr (word mask 3) 63 =? 0) = mask_bit mask 255.
Proof.
  intros Hm. change (mask_bit mask 255) with (N.testbit (word mask 3) 63). pose proof (word_wf_lookup _ _ 3 Hm) as Hw.
  set (w := word mask 3) in *. destruct (N.testbit w 63) eqn:E.
  - apply negb_true_iff, N.eqb_neq. intros H0. apply (f_equal (fun x => N.testbit x 0)) in H0.
    rewrite N.shiftr_spec', N.bits_0 in H0. change (0 + 63) with 63 in H0; by rewrite E in H0.
  - apply negb_false_iff, N.eqb_eq, N.bits_inj_0. intros i. rewrite N.shiftr_spec'.
    destruct (decide (i = 0)) as [->|]; [done|]. apply (testbit_high w 64); [done|lia].
Qed.
Lemma header_read_iff bs h : small bs ->
  header_read bs = Ok h <-> header_wf h /\ len bs < 2 ^ 32 /\ exists tl, bs = header_bytes h (len bs) ++ tl.
Proof.
  intros Hs. unfold header_read. rewrite reading_new. split.
  - intros H. set (n := len bs) in *. clearbody n. revert n H. intros n H.
    next_lifted H (take_format _) as mg t0 Hmg. apply if_err_ok in H as [Em H].
    apply negb_false_iff, bool_decide_eq_true_1 in Em as ->.
    next_lifted H u16_format as v t1 Hv. apply if_err_ok in H as [->%negb_false_iff%N.eqb_eq H].
    next_lifted H u8_format as k t2 Hk. apply if_err_ok in H as [Ek H].
    apply negb_false_iff, andb_true_iff in Ek as [Ek1%N.leb_le Ek2%N.leb_le].
    next_lifted H u8_format as z t3 Hz. apply if_err_ok in H as [->%negb_false_iff%N.eqb_eq H].
    next_lifted H u32_format as l t4 Hl. apply if_err_ok in H as [->%negb_false_iff%N.eqb_eq H].
    next_lifted H u32_format as b t5 Hb.
    next_lifted H u64_format as rel t6 Hrel. apply rbind_ok in H as (rel' & Er & H).
    apply map_err_ok, identifier_new_ok in Er as [-> Hrel0].
    next_lifted H u64_format as seg t7 Hseg. apply rbind_ok in H as (seg' & Es & H).
    apply map_err_ok, identifier_new_ok in Es as [-> Hseg0].
    next_lifted H u16_format as lay t8 Hlay. apply rbind_ok in H as (lay' & El & H).
    apply map_err_ok, HeapLayout_new_ok in El as [-> Hlay0].
    next_lifted H u16_format as pg t9 Hpg. next_lifted H u32_format as c t10 Hc.
    apply rbind_ok in H as ([mask r] & Hm & H). apply read_words_ok in Hm as (Hm & t11 & -> & ->); [|small_lia].
    apply rbind_ok in H as (key & Hkey & H). apply GroupKey_new_ok in Hkey as [-> Hbase].
    apply if_err_ok in H as [Hc2 H]. apply orb_false_iff in Hc2 as [->%negb_false_iff%N.eqb_eq Hlast]. injection H as <-.
    split; [unfold header_wf, mask_ok, key_wf, identifier_wf, layout_wf; simpl; split_and!; try (done || lia)|split; [done|]].
    + intros ->. rewrite N.eqb_refl in Hlast. cbn [andb] in Hlast. by rewrite word_3_high in Hlast.
    + exists t11. unfold header_bytes. simpl.
      unfold Datatypes.id. done.
  - intros ((Hk & Hkind & Hcount & Hm & Hlast) & Hl & tl & E). pose proof Hk as (Hr & Hsg & Hly & Hb & Hb0).
    set (n := len bs) in *. clearbody n. subst bs. unfold header_bytes in *. rewrite <- !app_assoc in *.
    give_lifted (take_format _) GROUP_MAGIC; [done|]. unfold bytes_eqb. rewrite bool_decide_eq_true_2 by done. cbn [negb].
    give_lifted u16_format GROUP_VERSION; [done|]. rewrite N.eqb_refl. cbn [negb].
    give_lifted u8_format (header_kind h); [lia|]. rewrite !(proj2 (N.leb_le _ _)) by lia. cbn [negb andb].
    give_lifted u8_format 0; [done|]. rewrite N.eqb_refl. cbn [negb].
    give_lifted u32_format n; [done|]. rewrite N.eqb_refl. cbn [negb].
    give_lifted u32_format (base (header_key h)); [done|].
    give_lifted u64_format (group_relation (header_key h)); [apply Hr|]. unfold invalid_state at 1.
    rewrite (proj2 (identifier_new_ok _ _)) by (split; [done|unfold identifier_wf in *; lia]). cbn [map_err rbind].
    give_lifted u64_format (group_segment (header_key h)); [apply Hsg|]. unfold invalid_state at 1.
    rewrite (proj2 (identifier_new_ok _ _)) by (split; [done|unfold identifier_wf in *; lia]). cbn [map_err rbind].
    give_lifted u16_format (max_offset (layout (header_key h))); [unfold layout_wf in Hly; change (2 ^ _) with 65536; lia|].
    unfold invalid_state. rewrite (proj2 (HeapLayout_new_ok _ _)) by done. cbn [map_err rbind].
    pose proof (page_count_le _ Hm) as Hpc.
    give_lifted u16_format (page_count (header_mask h)); [change (2 ^ _) with 65536; lia|].
    give_lifted u32_format (header_count h); [done|].
    apply rbind_ok. eexists (header_mask h, _). split; [apply read_words_ok; [small_lia|]; eauto|].
    rewrite (proj2 (GroupKey_new_ok _ _ _ _ _)) by done. cbn [rbind]. rewrite N.eqb_refl. cbn [negb orb].
    rewrite word_3_high by done. destruct (N.eqb_spec (base (header_key h)) (u32_max - 255)) as [Eb|]; [rewrite Hlast by done|];
      cbn [andb]; destruct h as [[? ? ? [?]] ? ? ?]; done.
Qed.
Lemma len_words_bytes n mask : mask_wf n mask -> len (mask ≫= le_bytes 8) = 8 * N.of_nat n.
Proof.
  intros [Hl _]. rewrite (len_bind_const _ 8) by (intros; apply len_le_bytes). unfold len. by rewrite Hl.
Qed.
Lemma len_header_bytes h n : header_wf h -> len (header_bytes h n) = GROUP_HEADER_BYTES.
Proof.
  intros (_ & _ & _ & Hm & _). unfold header_bytes. rewrite !len_app, !len_le_bytes, (len_words_bytes PAGE_WORDS) by done. done.
Qed.
Lemma header_write_ok h out pre n : header_wf h -> small out -> n < 2 ^ 32 -> len pre + GROUP_HEADER_BYTES <= len out ->
  header_write h (writing out pre) n = Ok (writing out (pre ++ header_bytes h n)).
Proof.
  intros Hh Hs Hn Hl. pose proof (len_header_bytes h n Hh) as Hb. pose proof Hh as (_ & _ & _ & Hm & _).
  pose proof (len_words_bytes PAGE_WORDS _ Hm) as Hw. change (8 * N.of_nat PAGE_WORDS) with 32 in Hw.
  unfold GROUP_HEADER_BYTES in *. unfold header_write, Writer.u16, Writer.u8, Writer.u32, Writer.u64.
  assert (Hmg : len GROUP_MAGIC = 4) by done.
  repeat (rewrite put_writing by (done || len_lia); cbn [lift_codec map_err rbind]).
  rewrite (proj2 (N.ltb_ge _ _)) by (unfold u32_max; lia). cbn [rbind].
  repeat (rewrite put_writing by (done || len_lia); cbn [lift_codec map_err rbind]).
  unfold write_words. rewrite (foldM_put _ (le_bytes 8)) by (done || len_lia). cbn [lift_codec map_err].
  unfold header_bytes. by rewrite <- !app_assoc.
Qed.
