(* ===== verification/GroupBitmap.v ===== *)
(** Bitmap records of a group: [src/crates/pin-core/src/grouped/bitmap.rs].

    A record is the header, a directory entry per page of its mask, and one offset
    payload per page. [open] checks the directory only; a payload is decoded and checked
    when its page is asked for. The theorems: [open] accepts exactly the encodings, and
    the masks that [encode_bitmap] is given are read back page by page. *)
From S2P Require Export GroupHeader.

(** [DIRECTORY_BYTES], [MAX_BITMAP_BYTES] *)
Definition DIRECTORY_BYTES : N := 4.
Definition MAX_BITMAP_BYTES : N := GROUP_HEADER_BYTES + GROUP_PAGES * (DIRECTORY_BYTES + 64).

Inductive BitmapKind : Type := Posting | Liveness.
#[export] Instance BitmapKind_eq_dec : EqDecision BitmapKind.
Proof. solve_decision. Defined.
(** [kind as u8] *)
Definition kind_code (kind : BitmapKind) : N := match kind with Posting => 1 | Liveness => 2 end.

Record PageOffsets : Type := mkPageOffsets { page_number : N; page_offsets : list N }.
Record Bitmap : Type := mkBitmap {
  bitmap_bytes : list byte;
  bitmap_header : Header;
  bitmap_body : N;
  bitmap_prefixes : list N;
}.

(** [as_chunks::<4>().0] *)
Fixpoint as_chunks4 (l : list byte) : list (byte * byte * byte * byte) :=
  match l with
  | a :: b :: c :: d :: l => (a, b, c, d) :: as_chunks4 l
  | _ => []
  end.

(** The loop of [Bitmap::open] over the directory. *)
Definition check_entry (key : GroupKey) (end_ : N) (entry : byte * byte * byte * byte) : Result N :=
  let '(e0, e1, e2, e3) := entry in
  let start := le_val [e0; e1] in
  let n := byte_val e2 in
  if negb (start =? end_) || (n =? 0) || (div_ceil (max_offset (layout key)) 8 <? n) || negb (byte_val e3 =? 0)
  then Err InvalidState
  else add_w usize end_ n.

(** [prefixes[i] = prefixes[i - 1] + mask[i - 1].count_ones()]; at most 192. *)
Definition prefixes_of (mask : list N) : list N :=
  from_fn 4 (fun i => mask_count (take i mask)).

(** [Bitmap::open] *)
Definition bitmap_open (bytes : list byte) : Result Bitmap :=
  if MAX_BITMAP_BYTES <? len bytes then Err (Limit "bitmap group bytes") else
  let* header := header_read bytes in
  if negb ((header_kind header =? 1) || (header_kind header =? 2)) || negb (header_count header =? 0)
  then Err InvalidState else
  let pages := page_count (header_mask header) in
  let body := GROUP_HEADER_BYTES + pages * DIRECTORY_BYTES in
  if len bytes <? body then Err InvalidState else
  let* directory := or_panic (slice bytes GROUP_HEADER_BYTES body) in
  let* end_ := foldM (check_entry (header_key header)) 0 (as_chunks4 directory) in
  if negb (end_ =? len bytes - body) then Err InvalidState else
  Ok (mkBitmap bytes header body (prefixes_of (header_mask header))).

(** [Bitmap::key], [kind], [pages] *)
Definition bitmap_key (self : Bitmap) : GroupKey := header_key (bitmap_header self).
Definition bitmap_kind (self : Bitmap) : BitmapKind :=
  if header_kind (bitmap_header self) =? 1 then Posting else Liveness.
Definition bitmap_pages (self : Bitmap) : list N := header_mask (bitmap_header self).

(** [Bitmap::span] *)
Definition span {E} (self : Bitmap) (page : N) : res E (option (N * N)) :=
  let mask := header_mask (bitmap_header self) in
  if negb (contains mask page) then Ok None else
  let w := page / 64 in
  let lower := N.shiftl 1 (page mod 64) - 1 in
  let* prefix := or_panic (index (bitmap_prefixes self) w) in
  let rank := prefix + count_ones (N.land (word mask (N.to_nat w)) lower) in
  let entry := GROUP_HEADER_BYTES + rank * DIRECTORY_BYTES in
  let* e0 := or_panic (index (bitmap_bytes self) entry) in
  let* e1 := or_panic (index (bitmap_bytes self) (entry + 1)) in
  let* e2 := or_panic (index (bitmap_bytes self) (entry + 2)) in
  Ok (Some (bitmap_body self + le_val [e0; e1], byte_val e2)).

(** The words of a payload: [as_chunks::<8>()] into an array of eight, and the tail. *)
Definition load_words {E} (bytes : list byte) : res E (list N) :=
  let words := len bytes / 8 in
  let tail := drop (N.to_nat (8 * words)) bytes in
  let result := from_fn OFFSET_WORDS (fun i =>
    if N.of_nat i <? words then le_val (take 8 (drop (8 * i) bytes)) else 0) in
  if bool_decide (tail = []) then Ok result else
  if words <? N.of_nat OFFSET_WORDS then Ok (<[N.to_nat words := le_val tail]> result) else Panic.

(** [Bitmap::offsets] *)
Definition offsets_at (self : Bitmap) (page : N) : Result (list N) :=
  let* s := span self page in
  match s with
  | None => Ok (replicate OFFSET_WORDS 0)
  | Some (start, n) =>
      let* bytes := or_panic (slice (bitmap_bytes self) start (start + n)) in
      let* last := (let* i := sub_w n 1 in or_panic (index bytes i)) in
      let domain := max_offset (layout (bitmap_key self)) in
      if (bool_decide (bitmap_kind self = Posting) && (byte_val last =? 0))
         || ((domain <? n * 8) && negb (N.shiftr (byte_val last) (domain mod 8) =? 0))
      then Err InvalidState
      else load_words bytes
  end.

(** [Bitmap::payload_bytes] *)
Definition payload_bytes {E} (self : Bitmap) (page : N) : res E N :=
  let* s := span self page in
  Ok match s with None => 0 | Some (_, n) => n end.

(** [Bitmap::validate_all] *)
Definition validate_all (self : Bitmap) : Result unit :=
  foldM (fun _ page => let* _ := offsets_at self page in Ok tt) tt (pages (header_mask (bitmap_header self))).

(** [iter().rposition(|&word| word != 0)] *)
Definition rposition (m : list N) : option nat :=
  list.last (filter (fun i => word m i <> 0) (seq 0 (length m))).

(** [bitmap_len] *)
Definition bitmap_len (key : GroupKey) (m : list N) : Result N :=
  match rposition m with
  | None => Err InvalidState
  | Some last_ =>
      let bits := N.of_nat last_ * 64 + (64 - leading_zeros 64 (word m last_)) in
      if max_offset (layout key) <? bits then Err InvalidState else Ok (div_ceil bits 8)
  end.

Section Encode.
(** The callback [offsets: impl FnMut(u8) -> Result<OffsetMask>] and its state. *)
Context {S : Type} (offsets : S -> N -> Result (list N * S)).

(** The three passes of [encode_with]. *)
Definition measure_page (key : GroupKey) (st : N * S) (page : N) : Result (N * S) :=
  let '(length, s) := st in
  let* _ := key_block key page in
  let* '(m, s) := offsets s page in
  let* n := bitmap_len key m in
  let* length := add_w usize length n in
  Ok (length, s).
Definition write_entry (key : GroupKey) (st : Writer.t * N * S) (page : N) : Result (Writer.t * N * S) :=
  let '(writer, start, s) := st in
  let* '(m, s) := offsets s page in
  let* n := bitmap_len key m in
  let* writer := lift_codec (Writer.u16 writer (trunc 16 start)) in
  let* writer := lift_codec (Writer.u8 writer (trunc 8 n)) in
  let* writer := lift_codec (Writer.u8 writer 0) in
  let* start := add_w usize start n in
  Ok (writer, start, s).
(** [(words[index / 8] >> ((index % 8) * 8)) as u8] *)
Definition word_byte (words : list N) (index : N) : N :=
  trunc 8 (N.shiftr (word words (N.to_nat (index / 8))) ((index mod 8) * 8)).
Definition write_payload (key : GroupKey) (st : Writer.t * S) (page : N) : Result (Writer.t * S) :=
  let '(writer, s) := st in
  let* '(words, s) := offsets s page in
  let* n := bitmap_len key words in
  let* writer := foldM (fun writer index => lift_codec (Writer.u8 writer (word_byte words index))) writer (range 0 n) in
  Ok (writer, s).

(** [encode_with] *)
Definition encode_with (key : GroupKey) (kind : BitmapKind) (mask : list N) (output : list byte) (s : S)
  : Result (N * list byte * S) :=
  let body := GROUP_HEADER_BYTES + page_count mask * DIRECTORY_BYTES in
  let* '(length, s) := foldM (measure_page key) (body, s) (pages mask) in
  if len output <? length then Err (Limit "bitmap group output") else
  let* region := or_panic (slice output 0 length) in
  let* writer := header_write (mkHeader key (kind_code kind) 0 mask) (Writer.new region) length in
  let* '(writer, _, s) := foldM (write_entry key) (writer, 0, s) (pages mask) in
  let* '(writer, s) := foldM (write_payload key) (writer, s) (pages mask) in
  Ok (length, Writer.bytes writer ++ drop (N.to_nat length) output, s).
End Encode.

(** The loop of [encode_bitmap]. *)
Definition check_page (key : GroupKey) (st : list N * option N) (page : PageOffsets) : Result (list N * option N) :=
  let '(mask, previous) := st in
  if match previous with Some previous => page_number page <=? previous | None => false end then Err InvalidState else
  let* _ := key_block key (page_number page) in
  let* _ := bitmap_len key (page_offsets page) in
  Ok (insert mask (page_number page), Some (page_number page)).
(** [pages.binary_search_by_key(&page, |entry| entry.page)] on pages in strict order:
    the one entry of that page. *)
Definition find_page (pages : list PageOffsets) (page : N) : Result (list N) :=
  match list_find (fun entry => page_number entry = page) pages with
  | Some (_, entry) => Ok (page_offsets entry)
  | None => Err InvalidState
  end.
(** [encode_bitmap] *)
Definition encode_bitmap (key : GroupKey) (kind : BitmapKind) (pages : list PageOffsets) (output : list byte)
  : Result (N * list byte) :=
  let* '(mask, _) := foldM (check_page key) (replicate PAGE_WORDS 0, None) pages in
  let* '(length, output, _) :=
    encode_with (fun _ page => let* m := find_page pages page in Ok (m, tt)) key kind mask output tt in
  Ok (length, output).

(** * Specification *)
(** The directory of payloads that start at [start]. *)
Fixpoint directory (start : N) (ps : list (list byte)) : list byte :=
  match ps with
  | [] => []
  | p :: ps => (le_bytes 2 start ++ [byte_of (len p)] ++ [byte_of 0]) ++ directory (start + len p) ps
  end.
Definition record_len (ps : list (list byte)) : N := GROUP_HEADER_BYTES + len ps * DIRECTORY_BYTES + len (concat ps).
Definition record_bytes (h : Header) (ps : list (list byte)) : list byte :=
  header_bytes h (record_len ps) ++ directory 0 ps ++ concat ps.
Definition width_ok (k : GroupKey) (n : N) : Prop := 1 <= n <= div_ceil (max_offset (layout k)) 8.
Definition record_wf (h : Header) (ps : list (list byte)) : Prop :=
  header_wf h /\ (header_kind h = 1 \/ header_kind h = 2) /\ header_count h = 0 /\
  len ps = page_count (header_mask h) /\ Forall (fun p => width_ok (header_key h) (len p)) ps.
(** What [open] returns for them. *)
Definition view (h : Header) (ps : list (list byte)) : Bitmap :=
  mkBitmap (record_bytes h ps) h (GROUP_HEADER_BYTES + len ps * DIRECTORY_BYTES) (prefixes_of (header_mask h)).
(** The payload of a page: as many pages of the mask precede it. *)
Definition rank (mask : list N) (page : N) : N := len (filter (fun i => mask_bit mask i = true) (range 0 page)).
Definition payload (h : Header) (ps : list (list byte)) (page : N) : option (list byte) :=
  if mask_bit (header_mask h) page then index ps (rank (header_mask h) page) else None.

(** ** Ranks *)
Lemma filter_bit_word (m : list N) w lo page : w < 2 ^ 64 -> page <= 64 ->
  (forall i, i < 64 -> mask_bit m (i + lo) = N.testbit w i) ->
  len (filter (fun i => mask_bit m i = true) (range lo (page + lo))) = count_ones (N.land w (N.ones page)).
Proof.
  intros Hw Hp Hb. rewrite (count_ones_bits page) by (rewrite N.land_ones; apply N.mod_lt, N.pow_nonzero; done).
  replace (range lo (page + lo)) with ((fun i => i + lo) <$> range 0 page) by (rewrite <- range_add; f_equal; lia).
  rewrite filter_fmap, len_fmap. unfold word_bits. f_equal. apply filter_ext_in. intros i Hi%elem_of_range.
  rewrite Hb, N.land_spec, N.ones_spec_low, andb_true_r by lia. done.
Qed.
Lemma rank_words mask page : Forall word_wf mask -> page < 64 * len mask ->
  rank mask page = mask_count (take (N.to_nat (page / 64)) mask)
    + count_ones (N.land (word mask (N.to_nat (page / 64))) (N.ones (page mod 64))).
Proof.
  unfold rank. intros Hf. revert page. induction Hf as [|w m Hw Hf IH]; intros page Hp; [change (len _) with 0 in Hp; lia|].
  rewrite len_cons in Hp. destruct (decide (page < 64)) as [Hlt|Hge].
  - rewrite N.div_small, N.mod_small by done. cbn [N.to_nat take mask_count foldr]. rewrite N.add_0_l.
    change (word (w :: m) (N.to_nat 0)) with w. rewrite <- (filter_bit_word (w :: m) w 0 page) by (done || lia || (intros; rewrite N.add_0_r; by apply mask_bit_cons_low)).
    by rewrite N.add_0_r.
  - set (p := page - 64). replace page with (p + 64) by lia. replace (p + 64) with (p + 1 * 64) by lia.
    rewrite N.div_add, N.Div0.mod_add by done. replace (N.to_nat (p / 64 + 1)) with (S (N.to_nat (p / 64))) by lia.
    cbn [take mask_count foldr]. fold (mask_count (take (N.to_nat (p / 64)) m)). change (word (w :: m) (S (N.to_nat (p / 64)))) with (word m (N.to_nat (p / 64))).
    rewrite (range_app 0 64 (p + 1 * 64)), list.filter_app, len_app by lia. rewrite <- N.add_assoc. f_equal.
    + rewrite (count_ones_bits 64) by done. unfold word_bits. apply (f_equal len), filter_ext_in. intros i Hi%elem_of_range.
      by rewrite mask_bit_cons_low by lia.
    + rewrite <- IH by lia. replace (range 64 (p + 1 * 64)) with ((fun i => i + 64) <$> range 0 p) by (rewrite <- range_add; f_equal; lia).
      rewrite filter_fmap, len_fmap. f_equal. apply filter_ext_in. intros i _. by rewrite mask_bit_cons_high.
Qed.
Lemma rank_lookup mask page : mask_wf PAGE_WORDS mask -> page < 256 -> mask_bit mask page = true ->
  pages mask !! N.to_nat (rank mask page) = Some page.
Proof.
  intros Hm Hp Hb. rewrite pages_bits by done. unfold mask_bits, rank. unfold len at 2. rewrite (proj1 Hm).
  change (64 * N.of_nat PAGE_WORDS) with 256. rewrite (range_app 0 page 256), (range_cons page), list.filter_app by lia.
  rewrite to_nat_len, lookup_app_r, Nat.sub_diag by lia. by rewrite filter_cons_True.
Qed.
Lemma rank_lt mask page : mask_wf PAGE_WORDS mask -> page < 256 -> mask_bit mask page = true ->
  rank mask page < page_count mask.
Proof.
  intros Hm Hp Hb. rewrite page_count_pages by done. pose proof (lookup_lt_Some _ _ _ (rank_lookup mask page Hm Hp Hb)).
  unfold len. lia.
Qed.
Lemma prefix_lookup mask w : w < 4 -> index (prefixes_of mask) w = Some (mask_count (take (N.to_nat w) mask)).
Proof.
  intros Hw. unfold index, prefixes_of, from_fn. by rewrite list_lookup_fmap, lookup_seq_lt by lia.
Qed.

(** ** Directories *)
Lemma len_directory start ps : len (directory start ps) = len ps * DIRECTORY_BYTES.
Proof.
  revert start; induction ps as [|p ps IH]; intros start; [done|]. cbn [directory]. rewrite len_app, IH.
  unfold DIRECTORY_BYTES. len_lia.
Qed.
Lemma len_concat_app {A} (ps qs : list (list A)) : len (concat (ps ++ qs)) = len (concat ps) + len (concat qs).
Proof. by rewrite concat_app, len_app. Qed.
Lemma le2_inj e0 e1 v : le_val [e0; e1] = v -> [e0; e1] = le_bytes 2 v.
Proof. intros <-. symmetry. exact (le_bytes_val [e0; e1]). Qed.
Lemma check_entry_ok key end_ e0 e1 e2 e3 end' : check_entry key end_ (e0, e1, e2, e3) = Ok end' <->
  [e0; e1] = le_bytes 2 end_ /\ end_ < 2 ^ 16 /\ width_ok key (byte_val e2) /\ e3 = byte_of 0 /\ end' = end_ + byte_val e2.
Proof.
  unfold check_entry, width_ok. set (v := le_val [e0; e1]). pose proof (byte_val_lt e2) as H2.
  assert (Hv : v < 2 ^ 16) by apply (le_val_lt [e0; e1]). split.
  - intros H. apply if_err_ok in H as [Hc H]. apply orb_false_iff in Hc as [Hc E3]. apply orb_false_iff in Hc as [Hc Ew].
    apply orb_false_iff in Hc as [Es En]. bool_to_prop. apply add_w_ok in H as [-> _]. subst end_.
    split_and!; [by apply le2_inj|done|lia|lia| |done]. apply byte_val_inj. rewrite E3. done.
  - intros (E & He & Hw & -> & ->).
    assert (v = end_) as ->. { unfold v. rewrite E. apply le_val_bytes_small. exact He. }
    rewrite N.eqb_refl, (proj2 (N.eqb_neq _ _)), (proj2 (N.ltb_ge _ _)) by lia.
    change (byte_val (byte_of 0) =? 0) with true. cbn [negb orb].
    apply add_w_ok. split; [done|]. unfold usize. lia.
Qed.
Lemma directory_open key start ps end_ : Forall (fun p => width_ok key (len p)) ps -> max_offset (layout key) <= 512 ->
  start + len (concat ps) < 2 ^ 16 ->
  foldM (check_entry key) start (as_chunks4 (directory start ps)) = Ok end_ <-> end_ = start + len (concat ps).
Proof.
  intros Hp Hl. revert start. induction Hp as [|p ps Hw Hp IH]; intros start Hs; cbn [directory as_chunks4 foldM concat] in Hs |- *.
  - rewrite N.add_0_r. naive_solver.
  - rewrite len_app in *.
    assert (Hp64 : len p <= 64). { unfold width_ok in Hw. enough (div_ceil (max_offset (layout key)) 8 <= 64) by lia. unfold div_ceil. dlia. }
    destruct (le_bytes 2 start) as [|e0 [|e1 [|? ?]]] eqn:E; try (apply (f_equal length) in E; rewrite length_le_bytes in E; done).
    cbn [app as_chunks4 foldM].
    rewrite (proj2 (check_entry_ok key start e0 e1 (byte_of (len p)) (byte_of 0) (start + len p))).
    + cbn [rbind]. rewrite IH by lia. by rewrite N.add_assoc.
    + rewrite byte_val_of_small by lia. split_and!; done || lia.
Qed.
Lemma directory_of key dir rest start end_ k : len dir = k * DIRECTORY_BYTES ->
  foldM (check_entry key) start (as_chunks4 dir) = Ok end_ -> start + len rest = end_ ->
  exists ps, len ps = k /\ dir = directory start ps /\ rest = concat ps /\ Forall (fun p => width_ok key (len p)) ps.
Proof.
  unfold DIRECTORY_BYTES. revert dir rest start. induction k as [|k IH] using N.peano_ind; intros dir rest start Hd H He.
  - assert (dir = []) as -> by (apply len_zero; lia). injection H as <-. exists [].
    split_and!; [done..| |constructor]. apply len_zero. lia.
  - destruct dir as [|e0 [|e1 [|e2 [|e3 dir]]]]; rewrite ?len_cons, ?len_nil in Hd; try lia.
    cbn [as_chunks4 foldM] in H. apply rbind_ok in H as (end1 & H1 & H).
    apply check_entry_ok in H1 as (E & Hs & Hw & -> & ->).
    assert (Hge : start + byte_val e2 <= end_).
    { clear -H. revert H. generalize (start + byte_val e2) as s. induction (as_chunks4 dir) as [|[[[a b] c] d] l IHl]; intros s H.
      - injection H as ->. lia.
      - cbn [foldM] in H. apply rbind_ok in H as (s1 & (_ & _ & _ & _ & ->)%check_entry_ok & H). apply IHl in H. lia. }
    rewrite <- (take_drop (N.to_nat (byte_val e2)) rest) in He |- *.
    rewrite len_app in He. assert (Ht : len (take (N.to_nat (byte_val e2)) rest) = byte_val e2).
    { rewrite len_take, len_drop in He. rewrite len_take. lia. }
    set (p := take _ rest) in *. set (r := drop _ rest) in *.
    destruct (IH dir r (start + byte_val e2)) as (ps & Hl & -> & Hr & Hf); [lia|done|lia|].
    exists (p :: ps). rewrite len_cons. split_and!; [lia| |cbn; by rewrite Hr|constructor; [by rewrite Ht|done]].
    cbn [directory]. rewrite Ht, byte_of_val, <- E. done.
Qed.

(** ** Opening *)
Lemma div_ceil_8_le m : m <= 512 -> div_ceil m 8 <= 64.
Proof. intros. unfold div_ceil. dlia. Qed.
Lemma record_payload_len h ps : record_wf h ps -> len (concat ps) <= 64 * len ps /\ len ps <= 256.
Proof.
  intros ((Hk & _ & _ & Hm & _) & _ & _ & Hn & Hw). split; [|rewrite Hn; by apply page_count_le].
  clear Hn. destruct Hk as (_ & _ & [_ Hl] & _). apply div_ceil_8_le in Hl.
  induction Hw as [|p ps Hp _ IH]; [done|]. cbn [concat]. rewrite len_app, len_cons. unfold width_ok in Hp. lia.
Qed.
Lemma len_record h ps : record_wf h ps -> len (record_bytes h ps) = record_len ps.
Proof.
  intros (Hh & _). unfold record_bytes, record_len. rewrite !len_app, len_directory, len_header_bytes by done. lia.
Qed.
Lemma record_len_le h ps : record_wf h ps -> record_len ps <= MAX_BITMAP_BYTES.
Proof.
  intros H. destruct (record_payload_len h ps H). unfold record_len, MAX_BITMAP_BYTES, GROUP_HEADER_BYTES, GROUP_PAGES, DIRECTORY_BYTES in *. lia.
Qed.
Lemma bitmap_open_iff bs b : small bs ->
  bitmap_open bs = Ok b <-> exists h ps, record_wf h ps /\ bs = record_bytes h ps /\ b = view h ps.
Proof.
  intros Hs. unfold bitmap_open. split.
  - intros H. apply if_err_ok in H as [Hmax%N.ltb_ge H]. apply rbind_ok in H as (h & Hh & H).
    apply header_read_iff in Hh as (Hh & Hl & tl & E); [|done].
    apply if_err_ok in H as [Hc H]. apply orb_false_iff in Hc as [Hk Hc]. cbv zeta in H. bool_to_prop.
    apply if_err_ok in H as [Hb%N.ltb_ge H]. apply rbind_ok in H as (dir & Hd%or_panic_ok & H).
    apply rbind_ok in H as (end_ & He & H). apply if_err_ok in H as [He2 H]. bool_to_prop. injection H as <-.
    pose proof (len_header_bytes h (len bs) Hh) as Hlh. pose proof (slice_len _ _ _ _ Hd) as Hdl.
    apply slice_ok in Hd as (_ & _ & Ed). rewrite E in Ed at 1.
    replace (N.to_nat GROUP_HEADER_BYTES) with (length (header_bytes h (len bs))) in Ed by by rewrite <- Hlh, to_nat_len.
    rewrite drop_app_length in Ed. set (n := page_count (header_mask h)) in *.
    assert (Htl : len bs = GROUP_HEADER_BYTES + len tl) by (rewrite E at 1; by rewrite len_app, Hlh).
    destruct (directory_of (header_key h) dir (drop (length dir) tl) 0 end_ n) as (ps & Hn & Hdir & Hrest & Hw); [lia|done| |].
    { rewrite len_drop. unfold len in *. lia. }
    exists h, ps. assert (Hwf : record_wf h ps).
    { split_and!; try done. destruct Hk as [Hk|Hk]; apply N.eqb_eq in Hk; [by left|by right]. }
    assert (Ebs : bs = record_bytes h ps).
    { unfold record_bytes. rewrite <- Hdir, <- Hrest.
      assert (Edir : dir = take (length dir) tl).
      { rewrite Ed at 2. rewrite Ed at 1. f_equal. rewrite length_take. unfold len, DIRECTORY_BYTES in *. lia. }
      rewrite Edir at 1. rewrite take_drop. rewrite E at 1. f_equal. f_equal. unfold record_len.
      rewrite <- Hrest, Hn, len_drop, Htl. unfold len in *. lia. }
    split_and!; [done|done|]. unfold view. by rewrite <- Ebs, Hn.
  - intros (h & ps & Hwf & -> & ->). pose proof (len_record h ps Hwf) as Hl. pose proof (record_len_le h ps Hwf) as Hm.
    pose proof Hwf as (Hh & Hk & Hc & Hn & Hw). destruct (record_payload_len h ps Hwf) as [Hp Hps].
    pose proof (len_header_bytes h (record_len ps) Hh) as Hlh.
    rewrite (proj2 (N.ltb_ge _ _)) by lia.
    assert (Hlt : record_len ps < 2 ^ 32).
    { unfold MAX_BITMAP_BYTES, GROUP_HEADER_BYTES, GROUP_PAGES, DIRECTORY_BYTES in Hm. lia. }
    rewrite (proj2 (header_read_iff (record_bytes h ps) h Hs)).
    2:{ rewrite Hl. split_and!; [done|done|]. by eexists. }
    cbn [rbind]. rewrite Hc. replace (negb ((header_kind h =? 1) || (header_kind h =? 2))) with false
      by (destruct Hk as [-> | ->]; done). cbn [negb orb N.eqb]. cbv zeta. rewrite <- Hn, Hl.
    rewrite (proj2 (N.ltb_ge _ _)) by (unfold record_len; lia).
    unfold record_bytes at 1. rewrite (slice_app _ (directory 0 ps)) by (rewrite ?len_directory; lia). cbn [or_panic rbind].
    rewrite (proj2 (directory_open (header_key h) 0 ps (len (concat ps)) Hw ltac:(apply Hh) ltac:(change (2 ^ 16) with 65536; lia))) by lia.
    cbn [rbind]. unfold record_len. replace (_ + _ - _) with (len (concat ps)) by lia. rewrite N.eqb_refl. done.
Qed.

(** ** One page *)
Lemma directory_app start ps qs : directory start (ps ++ qs) = directory start ps ++ directory (start + len (concat ps)) qs.
Proof.
  revert start; induction ps as [|p ps IH]; intros start; cbn [app directory concat].
  - by rewrite N.add_0_r.
  - rewrite IH, <- !app_assoc, len_app. by rewrite N.add_assoc.
Qed.
Lemma index_mid {A} (pre mid post : list A) i j : i = len pre + j -> j < len mid ->
  index (pre ++ mid ++ post) i = index mid j.
Proof.
  intros -> Hj. unfold index, len in *. rewrite lookup_app_r, lookup_app_l by lia. f_equal. lia.
Qed.
Lemma payload_view h ps page : record_wf h ps -> page < 256 ->
  match payload h ps page with
  | None => mask_bit (header_mask h) page = false
  | Some p => mask_bit (header_mask h) page = true /\ width_ok (header_key h) (len p) /\
      exists before after, ps = before ++ p :: after /\ len before = rank (header_mask h) page
  end.
Proof.
  intros (Hh & _ & _ & Hn & Hw) Hp. unfold payload. pose proof Hh as (_ & _ & _ & Hm & _).
  destruct (mask_bit (header_mask h) page) eqn:Hb; [|done].
  pose proof (rank_lt _ _ Hm Hp Hb) as Hr. rewrite <- Hn in Hr. unfold index.
  destruct (ps !! N.to_nat (rank (header_mask h) page)) as [p|] eqn:E.
  - split; [done|]. split; [exact (Forall_lookup_1 _ _ _ _ Hw E)|].
    exists (take (N.to_nat (rank (header_mask h) page)) ps), (drop (S (N.to_nat (rank (header_mask h) page))) ps).
    split; [by rewrite take_drop_middle|]. rewrite len_take. lia.
  - apply lookup_ge_None in E. unfold len in Hr. lia.
Qed.

(** Where the payload of a page is. *)
Definition payload_start (h : Header) (ps : list (list byte)) (page : N) : N :=
  GROUP_HEADER_BYTES + len ps * DIRECTORY_BYTES + len (concat (take (N.to_nat (rank (header_mask h) page)) ps)).
Lemma span_view {E} h ps page : record_wf h ps -> page < 256 ->
  span (E := E) (view h ps) page = Ok ((fun p => (payload_start h ps page, len p)) <$> payload h ps page).
Proof.
  intros Hwf Hp. pose proof (payload_view h ps page Hwf Hp) as Hv. pose proof Hwf as (Hh & _ & _ & Hn & Hw).
  pose proof Hh as (Hk & _ & _ & Hm & _). unfold span, view, bitmap_header, bitmap_bytes, bitmap_prefixes, bitmap_body.
  rewrite page_contains_bit by done. destruct (payload h ps page) as [p|]; [|by rewrite Hv].
  destruct Hv as (Hb & Hpw & before & after & E1 & E2). rewrite Hb. cbn [negb]. cbv zeta.
  rewrite prefix_lookup by dlia. cbn [or_panic rbind].
  assert (Hr : mask_count (take (N.to_nat (page / 64)) (header_mask h)) +
    count_ones (N.land (word (header_mask h) (N.to_nat (page / 64))) (N.shiftl 1 (page mod 64) - 1)) = rank (header_mask h) page).
  { rewrite rank_words; [|apply Hm|unfold len; rewrite (proj1 Hm); unfold PAGE_WORDS; lia].
    do 3 f_equal. by rewrite N.ones_equiv, N.shiftl_1_l, N.sub_1_r. }
  rewrite Hr, <- E2. pose proof (len_header_bytes h (record_len ps) Hh) as Hlh.
  destruct (record_payload_len h ps Hwf) as [Hc Hps].
  assert (Hstart : len (concat before) < 2 ^ 16 /\ len p <= 64).
  { subst ps. rewrite concat_app, len_app in Hc. change (2 ^ 16) with 65536. split; [lia|].
    destruct Hk as (_ & _ & [_ Hl] & _). apply div_ceil_8_le in Hl. unfold width_ok in Hpw. lia. }
  set (entry := (le_bytes 2 (len (concat before)) ++ [byte_of (len p)] ++ [byte_of 0])).
  assert (Er : record_bytes h ps = (header_bytes h (record_len ps) ++ directory 0 before) ++ entry ++
      (directory (len (concat before) + len p) after ++ concat ps)).
  { unfold record_bytes. rewrite E1 at 2. rewrite directory_app. cbn [directory]. rewrite N.add_0_l. unfold entry.
    by rewrite <- !app_assoc. }
  assert (Hi : forall j, j < 4 -> index (record_bytes h ps) (GROUP_HEADER_BYTES + len before * DIRECTORY_BYTES + j) = index entry j).
  { intros j Hj. rewrite Er. apply index_mid; [rewrite len_app, len_directory, Hlh; lia|]. unfold entry. len_lia. }
  destruct (le_bytes 2 (len (concat before))) as [|e0 [|e1 [|? ?]]] eqn:Ee;
    try (apply (f_equal length) in Ee; rewrite length_le_bytes in Ee; done).
  rewrite <- (N.add_0_r (GROUP_HEADER_BYTES + len before * DIRECTORY_BYTES)) at 1. rewrite !Hi by done.
  change (index entry 0) with (Some e0). change (index entry 1) with (Some e1). change (index entry 2) with (Some (byte_of (len p))).
  cbn [or_panic rbind]. rewrite <- Ee, le_val_bytes_small by apply Hstart. rewrite byte_val_of_small by lia.
  cbn [fmap option_fmap option_map]. unfold payload_start. rewrite <- E2, to_nat_len, E1, take_app_length. done.
Qed.
Lemma slice_payload h ps page p : record_wf h ps -> page < 256 -> payload h ps page = Some p ->
  slice (record_bytes h ps) (payload_start h ps page) (payload_start h ps page + len p) = Some p.
Proof.
  intros Hwf Hp E. pose proof (payload_view h ps page Hwf Hp) as Hv. rewrite E in Hv.
  destruct Hv as (_ & _ & before & after & E1 & E2). pose proof Hwf as (Hh & _).
  unfold record_bytes, payload_start. rewrite <- E2, to_nat_len.
  assert (Et : take (length before) ps = before) by by rewrite E1, take_app_length. rewrite Et.
  assert (Ec : concat ps = concat before ++ p ++ concat after) by by rewrite E1, concat_app. rewrite Ec.
  rewrite (app_assoc (directory 0 ps)), (app_assoc (header_bytes h _)).
  apply slice_app; rewrite !len_app, len_directory, len_header_bytes; done || lia.
Qed.

(** ** Payloads as words *)
Lemma le_val_app l1 l2 : le_val (l1 ++ l2) = le_val l1 + 2 ^ (8 * len l1) * le_val l2.
Proof.
  induction l1 as [|b l1 IH]; cbn [app le_val]; [rewrite N.mul_1_l; done|].
  rewrite IH, len_cons. replace (8 * (1 + len l1)) with (8 + 8 * len l1) by lia. rewrite N.pow_add_r. change (2 ^ 8) with 256. lia.
Qed.
(** The words of a payload, and its value as one number. *)
Definition payload_words (p : list byte) : list N :=
  from_fn OFFSET_WORDS (fun i => le_val (take 8 (drop (8 * i) p))).
Lemma payload_words_wf p : mask_wf OFFSET_WORDS (payload_words p).
Proof.
  apply from_fn_wf. intros i _. unfold word_wf. eapply N.lt_le_trans; [apply le_val_lt|].
  apply N.pow_le_mono_r; [done|]. len_lia.
Qed.
Lemma load_words_ok {E} p : len p <= 64 -> load_words (E := E) p = Ok (payload_words p).
Proof.
  intros Hp. unfold load_words. set (k := len p / 8). assert (Hk : 8 * k <= len p < 8 * k + 8) by (unfold k; dlia).
  assert (Ht : len (drop (N.to_nat (8 * k)) p) = len p - 8 * k) by (rewrite len_drop; lia).
  assert (Hw : forall i, (i < 8)%nat -> N.of_nat i <> k ->
    (if N.of_nat i <? k then le_val (take 8 (drop (8 * i) p)) else 0) = le_val (take 8 (drop (8 * i) p))).
  { intros i Hi Hne. destruct (N.ltb_spec (N.of_nat i) k); [done|]. rewrite drop_ge; [done|]. unfold len in *. lia. }
  destruct (bool_decide_reflect (drop (N.to_nat (8 * k)) p = [])) as [Et|Et].
  - f_equal. apply list_fmap_ext. intros j i [Ei Hi]%lookup_seq. cbn [Nat.add] in Ei. subst i. destruct (decide (N.of_nat j = k)) as [Ek|]; [|by apply Hw].
    rewrite (proj2 (N.ltb_ge _ _)) by lia. replace (8 * j)%nat with (N.to_nat (8 * k)) by lia. by rewrite Et.
  - assert (Hpos : 0 < len (drop (N.to_nat (8 * k)) p)) by (destruct (drop _ p); [done|rewrite len_cons; lia]).
    assert (Hk8 : k < 8) by lia. rewrite (proj2 (N.ltb_lt _ _)) by (unfold OFFSET_WORDS; lia). f_equal.
    apply list_eq. intros i. unfold payload_words, from_fn. destruct (decide (i < 8)%nat) as [Hi|].
    + destruct (decide (i = N.to_nat k)) as [->|Hne].
      * rewrite list_lookup_insert_eq by (rewrite length_fmap, length_seq; unfold OFFSET_WORDS; lia).
        rewrite list_lookup_fmap, lookup_seq_lt by (unfold OFFSET_WORDS; lia). cbn [fmap option_fmap option_map Nat.add].
        f_equal. f_equal. rewrite take_ge; [f_equal; lia|]. replace (8 * N.to_nat k)%nat with (N.to_nat (8 * k)) by lia.
        unfold len in *. lia.
      * rewrite list_lookup_insert_ne by done. rewrite !list_lookup_fmap, lookup_seq_lt by (unfold OFFSET_WORDS; lia).
        cbn [fmap option_fmap option_map Nat.add]. f_equal. apply Hw; lia.
    + rewrite !lookup_ge_None_2; [done|..]; rewrite ?length_insert, ?length_fmap, ?length_seq; unfold OFFSET_WORDS; lia.
Qed.
Lemma payload_words_bit p i : len p <= 64 -> mask_bit (payload_words p) i = N.testbit (le_val p) i.
Proof.
  intros Hp. destruct (decide (i < 512)) as [Hi|Hi].
  - unfold payload_words. rewrite from_fn_bit by done. set (j := N.to_nat (i / 64)).
    rewrite <- (take_drop (8 * j) p) at 2. rewrite <- (take_drop 8 (drop (8 * j) p)) at 2.
    rewrite !le_val_app. pose proof (mod_64 i) as Hm.
    assert (E : i = 8 * N.of_nat (8 * j) + i mod 64).
    { unfold j. pose proof (N.div_mod' i 64) as E. revert E. generalize (i / 64) (i mod 64). intros; lia. }
    assert (Hlow : forall l r k, N.testbit (le_val l + 2 ^ (8 * len l) * r) k = if k <? 8 * len l then N.testbit (le_val l) k else N.testbit r (k - 8 * len l)).
    { intros l r k. rewrite (N.mul_comm (2 ^ _)), N.add_comm, <- lor_shiftl_add by apply le_val_lt. rewrite N.lor_spec.
      destruct (N.ltb_spec k (8 * len l)); [by rewrite N.shiftl_spec_low|].
      rewrite N.shiftl_spec_high', (testbit_high (le_val l) (8 * len l)) by (apply le_val_lt || done). by rewrite orb_false_r. }
    rewrite !Hlow, !len_take, len_drop. clearbody j. generalize dependent (i mod 64). intros r Hm E.
    destruct (decide (N.of_nat (8 * j) <= len p)) as [Hj|Hj].
    + rewrite N.min_l by lia. destruct (N.ltb_spec i (8 * N.of_nat (8 * j))) as [?|_]; [lia|].
      replace (i - 8 * N.of_nat (8 * j)) with r by lia.
      destruct (N.ltb_spec r (8 * N.min (N.of_nat 8) (len p - N.of_nat (8 * j)))) as [Hlt|Hge]; [done|].
      rewrite (testbit_high (le_val (take 8 _)) (8 * len (take 8 (drop (8 * j) p)))) by (apply le_val_lt || (rewrite len_take, len_drop; lia)).
      rewrite (drop_ge (drop (8 * j) p)) by (rewrite length_drop; unfold len in *; lia). by rewrite N.bits_0.
    + rewrite (drop_ge p) by (unfold len in *; lia). rewrite take_nil. cbn [le_val]. rewrite N.bits_0.
      rewrite N.min_r by lia. rewrite take_ge by (unfold len in *; lia).
      destruct (i <? 8 * len p) eqn:Ei; [apply N.ltb_lt in Ei; lia|].
      rewrite drop_nil. cbn [le_val]. rewrite !N.bits_0. by destruct (i - 8 * len p <? _).
  - rewrite mask_bit_default by (unfold len; rewrite (proj1 (payload_words_wf p)); unfold OFFSET_WORDS; lia).
    symmetry. eapply testbit_high; [apply le_val_lt|lia].
Qed.
Lemma loadu_payload p : len p <= 64 -> loadu (payload_words p) = le_val p.
Proof.
  intros Hp. apply N.bits_inj. intros i. rewrite loadu_bit by apply payload_words_wf. by apply payload_words_bit.
Qed.

(** The bits of a mask beyond its last set bit: [bitmap_len] in terms of the value. *)
Lemma loadu_lt m : Forall word_wf m -> loadu m < 2 ^ (64 * len m).
Proof.
  intros Hf. apply lt_pow2_testbit. intros i Hi. rewrite loadu_bit by done. by apply mask_bit_default.
Qed.
Lemma loadu_inj n m1 m2 : mask_wf n m1 -> mask_wf n m2 -> loadu m1 = loadu m2 -> m1 = m2.
Proof.
  intros H1 H2 E. apply (mask_ext n); [done..|]. intros i _. rewrite <- !loadu_bit by (apply H1 || apply H2). by rewrite E.
Qed.
Lemma loadu_snoc m w : loadu (m ++ [w]) = loadu m + 2 ^ (64 * len m) * w.
Proof.
  induction m as [|x m IH]; [cbn [app loadu foldr]; change (len (@nil N)) with 0; rewrite !N.mul_0_r, N.pow_0_r; lia|]. cbn [app loadu foldr]. fold (loadu (m ++ [w])). fold (loadu m).
  rewrite IH, len_cons. replace (64 * (1 + len m)) with (64 + 64 * len m) by lia. rewrite N.pow_add_r. lia.
Qed.
Lemma rposition_snoc m w : rposition (m ++ [w]) = if w =? 0 then rposition m else Some (length m).
Proof.
  unfold rposition. rewrite length_app, Nat.add_1_r, seq_S, list.filter_app. cbn [Nat.add].
  assert (E : filter (fun i => word (m ++ [w]) i <> 0) (seq 0 (length m)) = filter (fun i => word m i <> 0) (seq 0 (length m))).
  { apply filter_ext_in. intros i [_ Hi]%elem_of_seq. unfold word. by rewrite lookup_app_l by lia. }
  assert (Ew : word (m ++ [w]) (length m) = w) by (unfold word; by rewrite lookup_app_r, Nat.sub_diag by lia).
  rewrite E, filter_cons, Ew.
  destruct (N.eqb_spec w 0) as [->|Hw].
  - rewrite decide_False by (intros H; by apply H). by rewrite app_nil_r.
  - rewrite decide_True by done. rewrite list.filter_nil. by rewrite last_snoc.
Qed.
Lemma rposition_spec m : Forall word_wf m ->
  match rposition m with
  | None => loadu m = 0
  | Some k => word m k <> 0 /\ word_wf (word m k) /\ loadu m <> 0 /\ N.size (loadu m) = N.of_nat k * 64 + N.size (word m k)
  end.
Proof.
  induction m as [|w m IH] using rev_ind; intros Hf; [done|]. apply Forall_app in Hf as [Hm Hw%list.Forall_cons_1].
  destruct Hw as [Hw _]. rewrite rposition_snoc, loadu_snoc. specialize (IH Hm). destruct (N.eqb_spec w 0) as [->|Hne].
  - rewrite N.mul_0_r, N.add_0_r. destruct (rposition m) as [k|] eqn:Ek; [|done].
    assert (Hk : word (m ++ [0]) k = word m k); [|by rewrite Hk].
    unfold word. destruct (decide (k < length m)%nat); [by rewrite lookup_app_l|].
    rewrite (lookup_ge_None_2 m) by lia. destruct ((m ++ [0]) !! k) as [x|] eqn:E; [|done].
    apply list_elem_of_lookup_2 in E as Hin. rewrite lookup_app_r in E by lia. apply list_lookup_singleton_Some in E as [_ <-]. done.
  - assert (Ew : word (m ++ [w]) (length m) = w) by (unfold word; by rewrite lookup_app_r, Nat.sub_diag by lia).
    rewrite Ew. pose proof (loadu_lt m Hm) as Hlt. assert (Hpos : 0 < 2 ^ (64 * len m)) by (apply N.neq_0_lt_0, N.pow_nonzero; done).
    split_and!; [done|done|nia|].
    assert (Hn0 : loadu m + 2 ^ (64 * len m) * w <> 0) by nia. rewrite !N.size_log2 by done.
    replace (loadu m + 2 ^ (64 * len m) * w) with (w * 2 ^ (64 * len m) + loadu m) by lia.
    rewrite (N.log2_unique' _ (N.log2 w + 64 * len m) (loadu m + 2 ^ (64 * len m) * (w - 2 ^ N.log2 w))).
    + unfold len. lia.
    + lia.
    + pose proof (N.log2_spec w ltac:(lia)) as [H1 H2]. rewrite N.pow_add_r. rewrite N.pow_succ_r' in H2. nia.
    + pose proof (N.log2_spec w ltac:(lia)) as [H1 H2]. rewrite N.pow_add_r. nia.
Qed.
Lemma bitmap_len_eq key m : mask_wf OFFSET_WORDS m ->
  bitmap_len key m =
    if loadu m =? 0 then Err InvalidState
    else if max_offset (layout key) <? N.size (loadu m) then Err InvalidState else Ok (div_ceil (N.size (loadu m)) 8).
Proof.
  intros [_ Hf]. pose proof (rposition_spec m Hf) as Hs. unfold bitmap_len. destruct (rposition m) as [k|].
  - destruct Hs as (Hw0 & Hw & H0 & E). rewrite (proj2 (N.eqb_neq _ _)) by done.
    assert (Hsz : 64 - leading_zeros 64 (word m k) = N.size (word m k)).
    { unfold leading_zeros. apply size_le_pow2 in Hw. lia. }
    by rewrite Hsz, <- E.
  - by rewrite Hs.
Qed.

(** ** What [offsets] accepts *)
(** No bit beyond the domain; a posting's payload is as short as its bits allow. *)
Definition payload_ok (kind : BitmapKind) (key : GroupKey) (p : list byte) : bool :=
  (N.size (le_val p) <=? max_offset (layout key)) &&
  match kind with Posting => div_ceil (N.size (le_val p)) 8 =? len p | Liveness => true end.

Lemma shiftr_size x n : N.shiftr x n = 0 <-> N.size x <= n.
Proof.
  rewrite N.shiftr_div_pow2. split.
  - intros H. apply size_le_pow2. apply N.div_small_iff in H; [done|]. by apply N.pow_nonzero.
  - intros H. apply N.div_small. eapply N.lt_le_trans; [apply N.size_gt|]. by apply N.pow_le_mono_r.
Qed.
Lemma size_last q b : byte_val b <> 0 -> N.size (le_val (q ++ [b])) = 8 * len q + N.size (byte_val b).
Proof.
  intros Hb. rewrite le_val_app. cbn [le_val]. rewrite N.mul_0_r, N.add_0_r. pose proof (le_val_lt q) as Hq.
  assert (0 < 2 ^ (8 * len q)) by (apply N.neq_0_lt_0, N.pow_nonzero; done).
  rewrite !N.size_log2 by nia. replace (le_val q + 2 ^ (8 * len q) * byte_val b) with (byte_val b * 2 ^ (8 * len q) + le_val q) by lia.
  pose proof (N.log2_spec (byte_val b) ltac:(lia)) as [H1 H2]. rewrite N.pow_succ_r' in H2.
  rewrite (N.log2_unique' _ (N.log2 (byte_val b) + 8 * len q) (le_val q + 2 ^ (8 * len q) * (byte_val b - 2 ^ N.log2 (byte_val b)))).
  - lia.
  - lia.
  - rewrite N.pow_add_r. nia.
  - rewrite N.pow_add_r. nia.
Qed.
Lemma size_le_len p : N.size (le_val p) <= 8 * len p.
Proof. apply size_le_pow2, le_val_lt. Qed.
Lemma size_byte b : N.size (byte_val b) <= 8.
Proof. apply (size_le_pow2 _ 8), byte_val_lt. Qed.
Lemma len_snoc {A} (l : list A) x : len (l ++ [x]) = len l + 1.
Proof. by rewrite len_app. Qed.
Lemma shortest_last q b : (byte_val b =? 0) = negb (div_ceil (N.size (le_val (q ++ [b]))) 8 =? len (q ++ [b])).
Proof.
  rewrite len_snoc. destruct (N.eqb_spec (byte_val b) 0) as [E|E]; symmetry.
  - apply negb_true_iff, N.eqb_neq. rewrite le_val_app. cbn [le_val]. replace (byte_val b + 256 * 0) with 0 by lia. rewrite N.mul_0_r, N.add_0_r.
    pose proof (size_le_len q). unfold div_ceil. dlia.
  - apply negb_false_iff, N.eqb_eq. rewrite size_last by done. pose proof (size_byte b).
    assert (N.size (byte_val b) <> 0) by (destruct (byte_val b); done). unfold div_ceil. dlia.
Qed.
Lemma tail_bits_eq domain q b : len (q ++ [b]) <= div_ceil domain 8 ->
  (domain <? len (q ++ [b]) * 8) && negb (N.shiftr (byte_val b) (domain mod 8) =? 0)
    = negb (N.size (le_val (q ++ [b])) <=? domain).
Proof.
  intros Hn. pose proof (size_le_len (q ++ [b])) as Hs. rewrite len_snoc in *.
  destruct (N.ltb_spec domain ((len q + 1) * 8)) as [Hd|Hd]; cbn [andb].
  2:{ symmetry. apply negb_false_iff, N.leb_le. lia. }
  assert (Ed : domain = 8 * len q + domain mod 8) by (unfold div_ceil in Hn; dlia). f_equal.
  clear Hn. generalize dependent (domain mod 8). intros r Ed.
  destruct (N.eqb_spec (byte_val b) 0) as [E0|E0].
  - rewrite E0, N.shiftr_0_l. symmetry. apply N.leb_le. rewrite le_val_app. cbn [le_val].
    replace (byte_val b + 256 * 0) with 0 by lia. rewrite N.mul_0_r, N.add_0_r. pose proof (size_le_len q). lia.
  - rewrite size_last by done. pose proof (shiftr_size (byte_val b) r) as Hsz.
    destruct (N.eqb_spec (N.shiftr (byte_val b) r) 0) as [E|E].
    + apply Hsz in E. symmetry. apply N.leb_le. lia.
    + symmetry. apply N.leb_gt. assert (~ N.size (byte_val b) <= r) by (intros ?; by apply E, Hsz). lia.
Qed.
Lemma offsets_view h ps page : record_wf h ps -> page < 256 ->
  offsets_at (view h ps) page =
    match payload h ps page with
    | None => Ok (replicate OFFSET_WORDS 0)
    | Some p => if payload_ok (bitmap_kind (view h ps)) (header_key h) p then Ok (payload_words p) else Err InvalidState
    end.
Proof.
  intros Hwf Hp. unfold offsets_at. rewrite span_view by done. cbn [rbind].
  destruct (payload h ps page) as [p|] eqn:E; [|done]. cbn [fmap option_fmap option_map].
  pose proof (payload_view h ps page Hwf Hp) as Hv. rewrite E in Hv. destruct Hv as (_ & Hw & _).
  unfold bitmap_bytes, view at 1. rewrite slice_payload by done. cbn [or_panic rbind].
  destruct Hw as [Hw1 Hw2]. rewrite sub_w_fits by done. cbn [rbind].
  destruct (@List.exists_last _ p) as (q & b & ->); [by intros ->|].
  assert (Hlast : index (q ++ [b]) (len (q ++ [b]) - 1) = Some b).
  { unfold index. rewrite len_snoc. replace (N.to_nat (len q + 1 - 1)) with (length q) by (unfold len; lia).
    by rewrite lookup_app_r, Nat.sub_diag by lia. }
  rewrite Hlast. cbn [or_panic rbind]. unfold bitmap_key. cbn [view bitmap_header].
  rewrite tail_bits_eq, (shortest_last q b) by done. pose proof Hwf as ((Hk & _) & _).
  assert (H64 : len (q ++ [b]) <= 64). { destruct Hk as (_ & _ & [_ Hl] & _). apply div_ceil_8_le in Hl. lia. }
  rewrite load_words_ok by done. unfold payload_ok.
  destruct (N.size _ <=? _); cbn [negb andb]; rewrite ?orb_true_r, ?orb_false_r; [|done].
  destruct (bitmap_kind (view h ps)).
  - rewrite bool_decide_eq_true_2 by done. cbn [andb]. by destruct (_ =? _).
  - rewrite bool_decide_eq_false_2 by done. done.
Qed.
Lemma payload_bytes_view {E} h ps page : record_wf h ps -> page < 256 ->
  payload_bytes (E := E) (view h ps) page = Ok (match payload h ps page with None => 0 | Some p => len p end).
Proof. intros Hwf Hp. unfold payload_bytes. rewrite span_view by done. by destruct (payload h ps page). Qed.

(** ** Encoding *)
(** A mask that a page can hold, and its payload. *)
Definition fits (key : GroupKey) (m : list N) : Prop :=
  mask_wf OFFSET_WORDS m /\ loadu m <> 0 /\ N.size (loadu m) <= max_offset (layout key).
Definition payload_len (m : list N) : N := div_ceil (N.size (loadu m)) 8.
Definition payload_of (m : list N) : list byte := le_bytes (N.to_nat (payload_len m)) (loadu m).
#[export] Instance fits_dec key m : Decision (fits key m).
Proof. unfold fits, mask_wf. apply _. Defined.

Lemma bitmap_len_fits key m : fits key m -> bitmap_len key m = Ok (payload_len m).
Proof.
  intros (Hm & H0 & Hs). rewrite bitmap_len_eq by done. rewrite (proj2 (N.eqb_neq _ _)), (proj2 (N.ltb_ge _ _)) by done. done.
Qed.
Lemma bitmap_len_ok key m n : mask_wf OFFSET_WORDS m -> bitmap_len key m = Ok n <-> fits key m /\ n = payload_len m.
Proof.
  intros Hm. split.
  - rewrite bitmap_len_eq by done. intros H. apply if_err_ok in H as [H0%N.eqb_neq H]. apply if_err_ok in H as [Hs%N.ltb_ge H].
    injection H as <-. done.
  - intros [Hf ->]. by apply bitmap_len_fits.
Qed.
Lemma bitmap_len_safe key m : safe (bitmap_len key m).
Proof. unfold bitmap_len. destruct (rposition m); [|done]. by apply safe_if. Qed.
Lemma size_pos x : x <> 0 -> 1 <= N.size x.
Proof. destruct x; [done|]. cbn. lia. Qed.
Lemma payload_len_width key m : key_wf key -> fits key m -> width_ok key (payload_len m) /\ payload_len m <= 64.
Proof.
  intros (_ & _ & [_ Hl] & _) (_ & H0 & Hs). apply size_pos in H0. unfold width_ok, payload_len, div_ceil. dlia.
Qed.
Lemma len_payload_of m : len (payload_of m) = payload_len m.
Proof. unfold payload_of. rewrite len_le_bytes. lia. Qed.
Lemma le_val_payload m : le_val (payload_of m) = loadu m.
Proof.
  unfold payload_of. apply le_val_bytes_small. eapply N.lt_le_trans; [apply N.size_gt|]. apply N.pow_le_mono_r; [done|].
  unfold payload_len, div_ceil. dlia.
Qed.
Lemma payload_words_of m key : key_wf key -> fits key m -> payload_words (payload_of m) = m.
Proof.
  intros Hk Hf. pose proof (payload_len_width key m Hk Hf) as [_ Hl]. destruct Hf as (Hm & _ & _).
  apply (loadu_inj OFFSET_WORDS); [apply payload_words_wf|done|].
  rewrite loadu_payload by by rewrite len_payload_of. apply le_val_payload.
Qed.
Lemma payload_of_ok key kind m : fits key m -> payload_ok kind key (payload_of m) = true.
Proof.
  intros (_ & _ & Hs). unfold payload_ok. rewrite le_val_payload, len_payload_of. rewrite (proj2 (N.leb_le _ _)) by done.
  destruct kind; [|done]. by apply N.eqb_eq.
Qed.
(** The bytes [write_payload] writes. *)
Lemma word_byte_eq m i : mask_wf OFFSET_WORDS m -> i < 64 -> word_byte m i = N.shiftr (loadu m) (8 * i) mod 256.
Proof.
  intros Hm Hi. unfold word_byte. rewrite trunc_mod. change (2 ^ 8) with 256. apply N.bits_inj. intros k.
  change 256 with (2 ^ 8). destruct (decide (k < 8)) as [Hk|Hk].
  - rewrite !N.mod_pow2_bits_low, !N.shiftr_spec' by done. rewrite loadu_bit by apply Hm.
    unfold mask_bit, word. replace ((k + 8 * i) / 64) with (i / 8) by dlia. do 2 f_equal. dlia.
  - rewrite !N.mod_pow2_bits_high by lia. done.
Qed.
Lemma le_bytes_range n v : le_bytes n v = (fun i => byte_of (N.shiftr v (8 * i))) <$> range 0 (N.of_nat n).
Proof.
  revert v; induction n as [|n IH]; intros v; [done|]. cbn [le_bytes]. rewrite (range_cons 0) by lia. cbn [fmap list_fmap].
  rewrite N.mul_0_r, N.shiftr_0_r. f_equal. rewrite IH.
  replace (range (0 + 1) (N.of_nat (S n))) with ((fun i => i + 1) <$> range 0 (N.of_nat n)) by (rewrite <- range_add; f_equal; lia).
  rewrite <- list_fmap_compose. apply list_fmap_ext. intros _ i _. cbn. f_equal.
  replace (8 * (i + 1)) with (8 + 8 * i) by lia. rewrite <- N.shiftr_shiftr. f_equal. by rewrite N.shiftr_div_pow2.
Qed.
Lemma payload_bytes_eq key m : key_wf key -> fits key m ->
  (fun i => byte_of (word_byte m i)) <$> range 0 (payload_len m) = payload_of m.
Proof.
  intros Hk Hf. pose proof (payload_len_width key m Hk Hf) as [_ Hl]. destruct Hf as (Hm & _).
  unfold payload_of. rewrite le_bytes_range. rewrite N2Nat.id. apply list_fmap_ext. intros j i Hi.
  apply list_elem_of_lookup_2, elem_of_range in Hi. rewrite word_byte_eq by (done || lia). apply byte_of_mod.
Qed.

Section EncodeWith.
Context {S : Type} (tick : S -> N -> Result S) (m : N -> Result (list N)) (key : GroupKey).
Context (Hkey : key_wf key) (Hm : forall page v, m page = Ok v -> mask_wf OFFSET_WORDS v).
(** Callbacks of the shape the code uses: an effect that can fail, then the value. *)
Definition callback (s : S) (page : N) : Result (list N * S) :=
  let* s := tick s page in let* v := m page in Ok (v, s).
Context (mm : N -> list N).
Definition good (page : N) : Prop := page_ok key page /\ m page = Ok (mm page) /\ fits key (mm page).
Definition payloads (ps : list N) : list (list byte) := (fun page => payload_of (mm page)) <$> ps.

Lemma measure_pages ps l s : Forall good ps -> l + len (concat (payloads ps)) < 2 ^ usize ->
  foldM (measure_page callback key) (l, s) ps = let* s := foldM tick s ps in Ok (l + len (concat (payloads ps)), s).
Proof.
  intros Hg. revert l s. induction Hg as [|page ps (Hp & Ev & Hf) Hg IH]; intros l s Hl.
  - cbn. by rewrite N.add_0_r.
  - cbn [foldM payloads fmap list_fmap concat] in *. fold (payloads ps) in *. rewrite len_app, len_payload_of in *.
    unfold measure_page at 1. rewrite (proj2 (key_block_ok key page _ Hkey (proj1 Hp))) by done. cbn [rbind].
    unfold callback at 1. destruct (tick s page) as [s1|e|]; [|done|done]. cbn [rbind]. rewrite Ev. cbn [rbind].
    rewrite (bitmap_len_fits key) by done. cbn [rbind]. rewrite add_w_fits by lia. cbn [rbind].
    rewrite IH by lia. by rewrite N.add_assoc.
Qed.
Lemma write_entries out pre start ps s : Forall good ps -> small out ->
  start + len (concat (payloads ps)) < 2 ^ 16 -> len pre + len ps * DIRECTORY_BYTES <= len out ->
  foldM (write_entry callback key) (writing out pre, start, s) ps
    = let* s := foldM tick s ps in
      Ok (writing out (pre ++ directory start (payloads ps)), start + len (concat (payloads ps)), s).
Proof.
  intros Hg Hs. revert pre start s. unfold DIRECTORY_BYTES. induction Hg as [|page ps (Hp & Ev & Hf) Hg IH]; intros pre start s Hst Hl.
  - cbn. by rewrite app_nil_r, N.add_0_r.
  - cbn [foldM payloads fmap list_fmap concat directory] in *. fold (payloads ps) in *. rewrite len_cons in Hl.
    rewrite len_app, len_payload_of in *. pose proof (payload_len_width key _ Hkey Hf) as [_ H64].
    unfold write_entry at 1, callback at 1. destruct (tick s page) as [s1|e|]; [|done|done]. cbn [rbind]. rewrite Ev. cbn [rbind].
    rewrite (bitmap_len_fits key) by done. cbn [rbind]. rewrite !trunc_small by (change (2 ^ 8) with 256; lia).
    unfold Writer.u16, Writer.u8. rewrite put_writing by (done || len_lia). cbn [lift_codec map_err rbind].
    rewrite put_writing by (done || len_lia). cbn [lift_codec map_err rbind].
    rewrite put_writing by (done || len_lia). cbn [lift_codec map_err rbind].
    rewrite add_w_fits by (unfold usize; lia). cbn [rbind]. rewrite IH by (len_lia || lia).
    destruct (foldM tick s1 ps) as [s2|e|]; [|done|done]. cbn [rbind]. do 3 f_equal; [|lia].
    by rewrite <- !app_assoc.
Qed.
Lemma write_payloads out pre ps s : Forall good ps -> small out -> len pre + len (concat (payloads ps)) <= len out ->
  foldM (write_payload callback key) (writing out pre, s) ps
    = let* s := foldM tick s ps in Ok (writing out (pre ++ concat (payloads ps)), s).
Proof.
  intros Hg Hs. revert pre s. induction Hg as [|page ps (Hp & Ev & Hf) Hg IH]; intros pre s Hl.
  - cbn. by rewrite app_nil_r.
  - cbn [foldM payloads fmap list_fmap concat] in *. fold (payloads ps) in *. rewrite len_app, len_payload_of in *.
    unfold write_payload at 1, callback at 1. destruct (tick s page) as [s1|e|]; [|done|done]. cbn [rbind]. rewrite Ev. cbn [rbind].
    rewrite (bitmap_len_fits key) by done. cbn [rbind].
    pose proof (payload_bytes_eq key _ Hkey Hf) as Eb.
    assert (Hbind : (range 0 (payload_len (mm page)) ≫= fun i => [byte_of (word_byte (mm page) i)]) = payload_of (mm page)).
    { rewrite <- Eb. clear. induction (range 0 _) as [|i l IHl]; [done|]. cbn. by f_equal. }
    assert (Hput : foldM (fun writer index => lift_codec (Writer.u8 writer (word_byte (mm page) index))) (writing out pre)
      (range 0 (payload_len (mm page))) = Ok (writing out (pre ++ payload_of (mm page)))).
    { pose proof (foldM_put (fun w i => Writer.u8 w (word_byte (mm page) i)) (fun i => [byte_of (word_byte (mm page) i)])
        (range 0 (payload_len (mm page))) out pre) as Hfold.
      rewrite Hbind in Hfold. assert (Hl2 : forall (g : Writer.t -> N -> Codec.Result Writer.t) w l,
        foldM (fun w i => lift_codec (g w i)) w l = lift_codec (foldM g w l)).
      { clear. intros g w l. revert w; induction l as [|i l IHl]; intros w; [done|]. cbn. destruct (g w i); cbn; auto. }
      rewrite Hl2, Hfold; [done|done|done|]. rewrite len_payload_of. lia. }
    rewrite Hput. cbn [rbind]. rewrite IH by (rewrite len_app, len_payload_of; lia).
    by rewrite <- app_assoc.
Qed.

Definition header_of (kind : BitmapKind) (mask : list N) : Header := mkHeader key (kind_code kind) 0 mask.
Lemma record_wf_payloads kind mask : mask_ok key mask -> Forall good (pages mask) ->
  record_wf (header_of kind mask) (payloads (pages mask)).
Proof.
  intros Hmask Hg. split_and!; cbn [header_of header_kind header_count header_key header_mask].
  - unfold header_wf. cbn. split_and!; [done|destruct kind; cbn; lia|destruct kind; cbn; lia|done|done].
  - destruct kind; [by left|by right].
  - done.
  - unfold payloads. rewrite len_fmap. symmetry. apply page_count_pages, Hmask.
  - unfold payloads. apply list.Forall_fmap. eapply list.Forall_impl; [exact Hg|]. intros page (_ & _ & Hf). cbn.
    rewrite len_payload_of. by apply (payload_len_width key).
Qed.
(** [encode_with] calls back for every page in each of its three passes. *)
Lemma encode_with_eq kind mask output s : mask_ok key mask -> Forall good (pages mask) -> small output ->
  let ps := payloads (pages mask) in
  encode_with callback key kind mask output s
    = let* s := foldM tick s (pages mask) in
      if len output <? record_len ps then Err (Limit "bitmap group output") else
      let* s := foldM tick s (pages mask) in
      let* s := foldM tick s (pages mask) in
      Ok (record_len ps, record_bytes (header_of kind mask) ps ++ drop (N.to_nat (record_len ps)) output, s).
Proof.
  intros Hmask Hg Hs. cbv zeta. set (ps := payloads (pages mask)).
  pose proof (record_wf_payloads kind mask Hmask Hg) as Hwf. pose proof (len_record _ _ Hwf) as Hlen.
  pose proof (record_len_le _ _ Hwf) as Hmax. pose proof (record_payload_len _ _ Hwf) as [Hpl Hpc]. fold ps in Hwf, Hlen, Hmax, Hpl, Hpc.
  assert (Hmax' : record_len ps <= 17480) by (unfold MAX_BITMAP_BYTES, GROUP_HEADER_BYTES, GROUP_PAGES, DIRECTORY_BYTES in Hmax; lia).
  assert (Hrl : GROUP_HEADER_BYTES + page_count mask * DIRECTORY_BYTES + len (concat ps) = record_len ps).
  { unfold record_len. rewrite (page_count_pages mask) by apply Hmask. unfold ps, payloads. by rewrite len_fmap. }
  unfold encode_with. rewrite (measure_pages (pages mask)) by (done || (fold ps; unfold usize; lia)). fold ps. rewrite rbind_assoc.
  destruct (foldM tick s (pages mask)) as [s1|e|]; [|done|done]. cbn [rbind]. rewrite Hrl.
  destruct (len output <? record_len ps) eqn:Eo; [done|]. apply N.ltb_ge in Eo.
  set (region := take (N.to_nat (record_len ps)) output).
  assert (Hregion : len region = record_len ps) by (unfold region; len_lia).
  assert (Hrs : small region) by (unfold small, isize_max in *; lia).
  rewrite (proj2 (slice_ok output 0 (record_len ps) region)) by (rewrite N.sub_0_r; split_and!; done || lia).
  cbn [or_panic rbind]. pose proof (len_header_bytes _ (record_len ps) (proj1 Hwf)) as Hlh.
  fold (header_of kind mask). rewrite writing_new, header_write_ok; [|apply Hwf|done|lia|rewrite len_nil, Hregion; unfold record_len; lia].
  cbn [rbind app]. assert (Hdir : len (pages mask) = len ps) by (unfold ps, payloads; by rewrite len_fmap).
  rewrite (write_entries region _ 0) by (done || (fold ps; change (2 ^ 16) with 65536; lia) || (rewrite Hlh, Hregion, Hdir; unfold record_len; lia)).
  fold ps. rewrite rbind_assoc. destruct (foldM tick s1 (pages mask)) as [s2|e|]; [|done|done]. cbn [rbind].
  rewrite write_payloads by (done || (fold ps; rewrite len_app, Hlh, len_directory, Hregion; unfold record_len; lia)).
  fold ps. rewrite rbind_assoc. destruct (foldM tick s2 (pages mask)) as [s3|e|]; [|done|done]. cbn [rbind].
  unfold record_bytes in *. rewrite <- app_assoc. do 3 f_equal. unfold writing. cbn [Writer.bytes].
  rewrite (drop_ge region); [by rewrite app_nil_r|].
  assert (E : len (header_bytes (header_of kind mask) (record_len ps) ++ directory 0 ps ++ concat ps) = len region) by by rewrite Hlen.
  unfold len in E. lia.
Qed.
(** When it succeeds, the callback's masks were good. *)
Lemma measure_inv ps l s r : Forall (fun page => page < 256) ps ->
  foldM (measure_page callback key) (l, s) ps = Ok r ->
  Forall (fun page => page_ok key page /\ exists v, m page = Ok v /\ fits key v) ps.
Proof.
  intros Hp. revert l s. induction Hp as [|page ps Hp _ IH]; intros l s H; [constructor|]. cbn [foldM] in H.
  apply rbind_ok in H as ([l1 s1] & H1 & H). unfold measure_page, callback in H1.
  apply rbind_ok in H1 as (b & Hb & H1). apply key_block_ok in Hb as [_ Hb]; [|done..].
  apply rbind_ok in H1 as ([v s2] & Hv & H1). apply rbind_ok in Hv as (s3 & _ & Hv). apply rbind_ok in Hv as (v' & Hv & E).
  injection E as -> ->. apply rbind_ok in H1 as (n & Hn & H1). apply bitmap_len_ok in Hn as [Hf ->]; [|by eapply Hm].
  constructor; [eauto|]. by eapply IH.
Qed.
End EncodeWith.

(** ** No panic *)
Lemma read_words_safe n r : safe (read_words n r).
Proof. revert r; induction n as [|n IH]; intros r; cbn [read_words]; [done|]. unfold lift_codec. repeat safe_step. Qed.
Lemma header_read_safe bs : safe (header_read bs).
Proof.
  unfold header_read, lift_codec, invalid_state, GroupKey_new, HeapLayout_new. repeat safe_step; try apply read_words_safe;
    apply safe_map_err; repeat safe_step.
Qed.
Lemma check_entry_safe key end_ entry : safe (check_entry key end_ entry).
Proof.
  destruct entry as [[[e0 e1] e2] e3]. unfold check_entry. apply safe_if; [done|]. intros H.
  apply orb_false_iff in H as [H _]. apply orb_false_iff in H as [H _]. apply orb_false_iff in H as [H _].
  apply negb_false_iff, N.eqb_eq in H. pose proof (le_val_lt [e0; e1]) as Hl. pose proof (byte_val_lt e2).
  change (8 * len [e0; e1]) with 16 in Hl. rewrite add_w_fits; [done|]. unfold usize. lia.
Qed.
Lemma bitmap_open_safe bs : safe (bitmap_open bs).
Proof.
  unfold bitmap_open. apply safe_if; [done|]. intros Hmax. apply N.ltb_ge in Hmax.
  apply safe_bind; [apply header_read_safe|]. intros h _. apply safe_if; [done|]. intros _. cbv zeta.
  apply safe_if; [done|]. intros Hb. apply N.ltb_ge in Hb. apply safe_bind.
  - apply safe_or_panic. unfold slice. rewrite !(proj2 (N.leb_le _ _)) by (unfold GROUP_HEADER_BYTES in *; lia). by eexists.
  - intros dir _. apply safe_bind; [|intros; by apply safe_if].
    apply (foldM_safe _ (fun _ => True)); [done|]. intros s a _ _. split; [apply check_entry_safe|done].
Qed.

(** ** [encode_bitmap] *)
Definition page_numbers (entries : list PageOffsets) : list N := page_number <$> entries.
Definition set_pages (mask : list N) (l : list N) : list N := foldl insert mask l.
Lemma set_pages_wf mask l : mask_wf PAGE_WORDS mask -> mask_wf PAGE_WORDS (set_pages mask l).
Proof. revert mask; induction l as [|x l IH]; intros mask Hm; [done|]. apply IH. by apply mask_set_wf. Qed.
Lemma set_pages_bit mask l i : mask_wf PAGE_WORDS mask -> Forall (fun page => page < 256) l ->
  mask_bit (set_pages mask l) i = mask_bit mask i || bool_decide (i ∈ l).
Proof.
  intros Hm Hl. revert mask Hm; induction Hl as [|x l Hx _ IH]; intros mask Hm; cbn [set_pages foldl].
  - rewrite bool_decide_eq_false_2 by by intros ?%elem_of_nil. by rewrite orb_false_r.
  - fold (set_pages (insert mask x) l). rewrite IH by by apply mask_set_wf. unfold insert.
    rewrite mask_set_bit by (unfold len; rewrite (proj1 Hm); unfold PAGE_WORDS; lia). rewrite <- orb_assoc. f_equal.
    destruct (N.eqb_spec i x) as [->|Hne]; cbn [orb].
    + rewrite bool_decide_eq_true_2 by left. done.
    + apply bool_decide_ext. rewrite elem_of_cons. naive_solver.
Qed.
(** A sorted list of pages is the mask's own list. *)
Lemma pages_set_pages l : asc 0 l -> Forall (fun page => page < 256) l ->
  pages (set_pages (replicate PAGE_WORDS 0) l) = l.
Proof.
  intros Ha Hl. pose proof (mask_wf_replicate PAGE_WORDS) as H0. pose proof (set_pages_wf _ l H0) as Hw.
  apply (asc_unique 0); [by apply pages_asc|done|]. intros x. rewrite elem_of_pages by done.
  rewrite set_pages_bit by done. rewrite mask_bit_zero. cbn [orb]. rewrite bool_decide_eq_true.
  split; [by intros []|]. intros Hx. split; [|done]. exact (proj1 (list.Forall_forall _ _) Hl x Hx).
Qed.

(** ** What was encoded is read back *)
Section Encoded.
Context (m : N -> Result (list N)) (key : GroupKey) (Hkey : key_wf key) (mm : N -> list N).
Context (kind : BitmapKind) (mask : list N) (Hmask : mask_ok key mask) (Hg : Forall (good m key mm) (pages mask)).
Definition encoded : Bitmap := view (header_of key kind mask) (payloads mm (pages mask)).
Lemma encoded_wf : record_wf (header_of key kind mask) (payloads mm (pages mask)).
Proof. by apply (record_wf_payloads m). Qed.
Lemma encoded_open : bitmap_open (record_bytes (header_of key kind mask) (payloads mm (pages mask))) = Ok encoded.
Proof.
  pose proof encoded_wf as Hwf. apply bitmap_open_iff; [|by exists (header_of key kind mask), (payloads mm (pages mask))].
  unfold small. rewrite (len_record _ _ Hwf). pose proof (record_len_le _ _ Hwf) as Hl.
  unfold MAX_BITMAP_BYTES, GROUP_HEADER_BYTES, GROUP_PAGES, DIRECTORY_BYTES in Hl. unfold isize_max. lia.
Qed.
Lemma encoded_kind : bitmap_kind encoded = kind.
Proof. unfold bitmap_kind, encoded. cbn. by destruct kind. Qed.
Lemma encoded_payload page : page < 256 ->
  payload (header_of key kind mask) (payloads mm (pages mask)) page
    = if mask_bit mask page then Some (payload_of (mm page)) else None.
Proof.
  intros Hp. unfold payload. cbn [header_of header_mask]. destruct (mask_bit mask page) eqn:Hb; [|done].
  unfold index, payloads. by rewrite list_lookup_fmap, rank_lookup by (done || apply Hmask).
Qed.
Lemma encoded_offsets page : page < 256 ->
  offsets_at encoded page = Ok (if mask_bit mask page then mm page else replicate OFFSET_WORDS 0).
Proof.
  intros Hp. unfold encoded. rewrite offsets_view by (done || apply encoded_wf). rewrite encoded_payload by done.
  destruct (mask_bit mask page) eqn:Hb; [|done].
  assert (Hin : page ∈ pages mask) by (apply elem_of_pages; [apply Hmask|done]).
  pose proof (proj1 (list.Forall_forall _ _) Hg page Hin) as (_ & _ & Hf). cbn [header_of header_key].
  rewrite payload_of_ok by done. by rewrite (payload_words_of _ key).
Qed.
End Encoded.

(** A callback without state or effect. *)
Lemma foldM_tt {A} (l : list A) : foldM (fun (_ : unit) (_ : A) => Ok (E := Error) tt) tt l = Ok tt.
Proof. by induction l as [|x l IH]. Qed.
Section EncodeBitmap.
Context (key : GroupKey) (Hkey : key_wf key).
Definition entry_ok (e : PageOffsets) : Prop := page_ok key (page_number e) /\ fits key (page_offsets e).
Definition next_page (previous : option N) : N := match previous with None => 0 | Some p => p + 1 end.
Lemma check_pages_ok entries mask previous r :
  Forall (fun e => page_number e < 256 /\ mask_wf OFFSET_WORDS (page_offsets e)) entries ->
  foldM (check_page key) (mask, previous) entries = Ok r <->
  asc (next_page previous) (page_numbers entries) /\ Forall entry_ok entries /\
  r = (set_pages mask (page_numbers entries), match list.last (page_numbers entries) with None => previous | Some p => Some p end).
Proof.
  intros Hw. revert mask previous. induction Hw as [|e entries [Hp Hm] _ IH]; intros mask previous; cbn [foldM page_numbers fmap list_fmap asc].
  - cbn. naive_solver.
  - rewrite rbind_ok. setoid_rewrite list.Forall_cons.
    assert (Hprev : (match previous with Some p => page_number e <=? p | None => false end) = false <-> next_page previous <= page_number e).
    { destruct previous as [p|]; cbn; [rewrite N.leb_gt; lia|]. split; [lia|done]. }
    split.
    + intros ([mask1 prev1] & H1 & H). unfold check_page in H1. apply if_err_ok in H1 as [Hlt%Hprev H1].
      apply rbind_ok in H1 as (b & Hb & H1). apply key_block_ok in Hb as [_ Hb]; [|done..].
      apply rbind_ok in H1 as (n & Hn & H1). apply bitmap_len_ok in Hn as [Hf _]; [|done]. injection H1 as <- <-.
      apply IH in H as (Ha & He & ->). split_and!; try done. cbn [page_numbers fmap list_fmap]. cbn [set_pages foldl].
      fold (page_numbers entries). unfold page_numbers, set_pages. rewrite last_cons. by destruct (list.last (page_number <$> entries)).
    + intros ([Hlt Ha] & [[Hb Hf] He] & ->). exists (insert mask (page_number e), Some (page_number e)). split.
      * unfold check_page. rewrite (proj2 Hprev) by done. rewrite (proj2 (key_block_ok key _ _ Hkey Hp)) by done. cbn [rbind].
        by rewrite bitmap_len_fits.
      * apply IH. split_and!; try done. unfold page_numbers, set_pages. rewrite last_cons. by destruct (list.last (page_number <$> entries)).
Qed.
(** The mask of a page in the list given; its absence cannot happen. *)
Definition mask_of (entries : list PageOffsets) (page : N) : list N :=
  match find_page entries page with Ok m => m | _ => replicate OFFSET_WORDS 0 end.
Lemma find_page_elem entries e : NoDup (page_numbers entries) -> e ∈ entries ->
  find_page entries (page_number e) = Ok (page_offsets e).
Proof.
  intros Hn He. unfold find_page. destruct (list_find _ entries) as [[i e']|] eqn:E.
  - apply list_find_Some in E as (Hi & Hp & _). apply list_elem_of_lookup_1 in He as [j Hj]. f_equal.
    assert (i = j) as ->; [|by rewrite Hj in Hi; injection Hi as ->].
    apply (NoDup_lookup (page_numbers entries) i j (page_number e)); [done|..];
      unfold page_numbers; rewrite list_lookup_fmap, ?Hi, ?Hj; cbn; [by rewrite Hp|done].
  - apply list_find_None in E. exfalso. by apply (proj1 (list.Forall_forall _ _) E e He).
Qed.
Lemma asc_NoDup lo l : asc lo l -> NoDup l.
Proof.
  revert lo; induction l as [|x l IH]; intros lo; [constructor|]. intros [? Hl]. constructor; [|by eapply IH].
  intros Hx. pose proof (asc_ge _ _ _ Hl Hx). lia.
Qed.

Definition mask_of_entries (entries : list PageOffsets) : list N := set_pages (replicate PAGE_WORDS 0) (page_numbers entries).
Definition entries_wf (entries : list PageOffsets) : Prop :=
  Forall (fun e => page_number e < 256 /\ mask_wf OFFSET_WORDS (page_offsets e)) entries.
Lemma entries_pages entries : entries_wf entries -> asc 0 (page_numbers entries) ->
  pages (mask_of_entries entries) = page_numbers entries.
Proof.
  intros Hw Ha. apply pages_set_pages; [done|]. unfold page_numbers. apply list.Forall_fmap.
  eapply list.Forall_impl; [exact Hw|]. by intros e [? _].
Qed.
Lemma entries_good entries : entries_wf entries -> asc 0 (page_numbers entries) -> Forall entry_ok entries ->
  mask_ok key (mask_of_entries entries) /\
  Forall (good (find_page entries) key (mask_of entries)) (pages (mask_of_entries entries)).
Proof.
  intros Hw Ha He. assert (Hg : Forall (good (find_page entries) key (mask_of entries)) (pages (mask_of_entries entries))).
  { rewrite entries_pages by done. unfold page_numbers. apply list.Forall_fmap, list.Forall_forall. intros e Hin.
    pose proof (find_page_elem entries e (asc_NoDup _ _ Ha) Hin) as Ef. pose proof (proj1 (list.Forall_forall _ _) He e Hin) as [Hp Hf].
    unfold good, mask_of. cbn. by rewrite Ef. }
  split; [|done]. split; [apply set_pages_wf, mask_wf_replicate|]. intros Eb.
  destruct (mask_bit (mask_of_entries entries) 255) eqn:Hb; [|done]. exfalso.
  assert (Hin : 255 ∈ pages (mask_of_entries entries)).
  { apply elem_of_pages; [apply set_pages_wf, mask_wf_replicate|done]. }
  pose proof (proj1 (list.Forall_forall _ _) Hg 255 Hin) as ([_ Hp] & _). apply Hp. unfold u32_max in *. lia.
Qed.
Definition encoded_len (entries : list PageOffsets) : N :=
  GROUP_HEADER_BYTES + len entries * DIRECTORY_BYTES + len (concat ((fun e => payload_of (page_offsets e)) <$> entries)).
Lemma encoded_payloads entries : entries_wf entries -> asc 0 (page_numbers entries) ->
  payloads (mask_of entries) (pages (mask_of_entries entries)) = (fun e => payload_of (page_offsets e)) <$> entries.
Proof.
  intros Hw Ha. rewrite entries_pages by done. unfold payloads, page_numbers. rewrite <- list_fmap_compose.
  apply list_fmap_ext. intros i e Hi. apply list_elem_of_lookup_2 in Hi. cbn. unfold mask_of.
  by rewrite (find_page_elem entries e (asc_NoDup _ _ Ha) Hi).
Qed.
Lemma encode_bitmap_iff kind entries output n out : entries_wf entries -> small output ->
  encode_bitmap key kind entries output = Ok (n, out) <->
  asc 0 (page_numbers entries) /\ Forall entry_ok entries /\ n = encoded_len entries /\ n <= len output /\
  out = record_bytes (header_of key kind (mask_of_entries entries)) ((fun e => payload_of (page_offsets e)) <$> entries)
        ++ drop (N.to_nat n) output.
Proof.
  intros Hw Hs. unfold encode_bitmap.
  assert (Hgo : asc 0 (page_numbers entries) -> Forall entry_ok entries ->
    (let* '(mask, _) := foldM (check_page key) (replicate PAGE_WORDS 0, None) entries in
     let* '(length, output, _) := encode_with (fun _ page => let* m := find_page entries page in Ok (m, tt)) key kind mask output tt in
     Ok (length, output))
    = if len output <? encoded_len entries then Err (Limit "bitmap group output") else
      Ok (encoded_len entries, record_bytes (header_of key kind (mask_of_entries entries)) ((fun e => payload_of (page_offsets e)) <$> entries)
        ++ drop (N.to_nat (encoded_len entries)) output)).
  { intros Ha He. rewrite (proj2 (check_pages_ok entries _ None _ Hw)) by done. cbn [rbind].
    destruct (entries_good entries Hw Ha He) as [Hmask Hg].
    pose proof (encode_with_eq (fun (_ : unit) (_ : N) => Ok tt) (find_page entries) key Hkey (mask_of entries) kind
      (mask_of_entries entries) output tt Hmask Hg Hs) as E. cbv zeta in E. fold (mask_of_entries entries).
    change (callback (fun (_ : unit) (_ : N) => Ok tt) (find_page entries)) with
      (fun (_ : unit) page => let* m := find_page entries page in Ok (E := Error) (m, tt)) in E. rewrite E.
    rewrite !foldM_tt. cbn [rbind]. rewrite encoded_payloads by done.
    replace (record_len ((fun e => payload_of (page_offsets e)) <$> entries)) with (encoded_len entries)
      by (unfold record_len, encoded_len; by rewrite len_fmap).
    destruct (len output <? encoded_len entries); [done|]. rewrite !foldM_tt. cbn [rbind]. by rewrite !foldM_tt. }
  split.
  - intros H. assert (Hc : asc 0 (page_numbers entries) /\ Forall entry_ok entries).
    { apply rbind_ok in H as (r & Hr & _). apply check_pages_ok in Hr as (Ha & He & _); done. }
    destruct Hc as [Ha He]. rewrite Hgo in H by done. apply if_err_ok in H as [Hl%N.ltb_ge H]. injection H as <- <-. done.
  - intros (Ha & He & -> & Hl & ->). rewrite Hgo by done. by rewrite (proj2 (N.ltb_ge _ _)).
Qed.
End EncodeBitmap.

(** * Properties *)

(** a group bitmap is opened exactly when it is an encoding: [Bitmap::open] never
    panics, accepts a byte string if and only if it is the header, the packed directory
    and the payloads of some record, and each payload is then decoded when it is asked
    for: an absent page is empty, a payload with bits beyond the heap layout, or longer
    than a posting's bits need, is an invalid state. *)
Theorem bitmap_open_exact bs : small bs ->
  bitmap_open bs <> Panic /\
  (forall b, bitmap_open bs = Ok b <-> exists h ps, record_wf h ps /\ bs = record_bytes h ps /\ b = view h ps) /\
  (forall h ps page, record_wf h ps -> page < 256 ->
     offsets_at (view h ps) page =
       match payload h ps page with
       | None => Ok (replicate OFFSET_WORDS 0)
       | Some p => if payload_ok (bitmap_kind (view h ps)) (header_key h) p then Ok (payload_words p) else Err InvalidState
       end).
Proof.
  intros Hs. split_and!; [apply bitmap_open_safe|intros b; by apply bitmap_open_iff|].
  intros; by apply offsets_view.
Qed.

(** C37: a group bitmap round-trips: [encode_bitmap] succeeds exactly on strictly
    ascending pages of the group whose masks are nonempty and within the heap layout,
    when the output has room; the bytes written open to a bitmap of the same key and
    kind that has exactly these pages, gives back every mask and is empty elsewhere,
    and the rest of the output is untouched. *)
Theorem bitmap_roundtrip key kind entries output :
  key_wf key -> entries_wf entries -> small output ->
  ((exists n out, encode_bitmap key kind entries output = Ok (n, out)) <->
     asc 0 (page_numbers entries) /\ Forall (entry_ok key) entries /\ encoded_len entries <= len output) /\
  forall n out, encode_bitmap key kind entries output = Ok (n, out) ->
    drop (N.to_nat n) out = drop (N.to_nat n) output /\ len out = len output /\
    exists b, bitmap_open (take (N.to_nat n) out) = Ok b /\ bitmap_key b = key /\ bitmap_kind b = kind /\
      pages (bitmap_pages b) = page_numbers entries /\
      (forall e, e ∈ entries -> offsets_at b (page_number e) = Ok (page_offsets e)) /\
      (forall page, page < 256 -> page ∉ page_numbers entries -> offsets_at b page = Ok (replicate OFFSET_WORDS 0)).
Proof.
  intros Hk Hw Hs. split.
  - split.
    + intros (n & out & H). apply (encode_bitmap_iff key Hk) in H as (? & ? & -> & ? & _); done.
    + intros (? & ? & ?). eexists _, _. apply (encode_bitmap_iff key Hk); done.
  - intros n out H. apply (encode_bitmap_iff key Hk) in H as (Ha & He & -> & Hl & ->); [|done..].
    destruct (entries_good key entries Hw Ha He) as [Hmask Hg].
    pose proof (encoded_open _ _ Hk _ kind _ Hmask Hg) as Ho. pose proof (encoded_wf _ _ Hk _ kind _ Hmask Hg) as Hwf.
    rewrite encoded_payloads in Ho, Hwf by done. pose proof (len_record _ _ Hwf) as Hlen.
    assert (Hn : N.to_nat (encoded_len entries) = length (record_bytes (header_of key kind (mask_of_entries entries))
      ((fun e => payload_of (page_offsets e)) <$> entries))).
    { unfold len in Hlen. unfold encoded_len, record_len in *. rewrite len_fmap in Hlen. lia. }
    assert (Hp256 : forall page, page ∈ page_numbers entries -> page < 256).
    { intros page Hin. rewrite <- (entries_pages entries Hw Ha) in Hin. apply elem_of_pages in Hin as [? _]; [done|apply Hmask]. }
    rewrite Hn, drop_app_length, take_app_length. split; [done|]. split.
    { rewrite len_app, len_drop. unfold len in *. lia. }
    exists (encoded key (mask_of entries) kind (mask_of_entries entries)). split_and!; [done|done|apply encoded_kind| | |].
    + by apply entries_pages.
    + intros e Hin. assert (Hpn : page_number e ∈ page_numbers entries) by (unfold page_numbers; by apply list_elem_of_fmap_2).
      rewrite (encoded_offsets _ _ Hk _ kind _ Hmask Hg) by by apply Hp256.
      rewrite <- (entries_pages entries Hw Ha) in Hpn. apply elem_of_pages in Hpn as [_ ->]; [|apply Hmask].
      unfold mask_of. by rewrite (find_page_elem entries e (asc_NoDup _ _ Ha) Hin).
    + intros page Hp Hni. rewrite (encoded_offsets _ _ Hk _ kind _ Hmask Hg) by done.
      destruct (mask_bit (mask_of_entries entries) page) eqn:Hb; [|done]. exfalso. apply Hni.
      rewrite <- (entries_pages entries Hw Ha). apply elem_of_pages; [apply Hmask|done].
Qed.

Definition sample_key : GroupKey := mkGroupKey 7 9 512 (mkHeapLayout 291).
Definition sample_entries : list PageOffsets :=
  [mkPageOffsets 3 [5; 0; 0; 0; 0; 0; 0; 0]; mkPageOffsets 200 [0; 0; 0; 0; 2 ^ 34; 0; 0; 0]].
Definition sample_record : list byte :=
  match encode_bitmap sample_key Posting sample_entries (replicate 200 (byte_of 0)) with Ok (n, out) => take (N.to_nat n) out | _ => [] end.
Definition sample_bitmap : Bitmap :=
  match bitmap_open sample_record with Ok b => b | _ => mkBitmap [] (mkHeader sample_key 1 0 []) 0 [] end.
Lemma sample_key_wf : key_wf sample_key.
Proof. by split_and!. Defined.
Lemma sample_entries_wf : entries_wf sample_entries.
Proof. by repeat constructor. Defined.
Lemma bitmap_open_exact_witness :
  bitmap_open sample_record = Ok sample_bitmap /\ exists h ps, record_wf h ps /\ sample_record = record_bytes h ps.
Proof.
  assert (E : bitmap_open sample_record = Ok sample_bitmap) by (vm_compute; reflexivity).
  split; [exact E|]. destruct (bitmap_open_exact sample_record) as (_ & H & _); [by vm_compute|].
  apply H in E as (h & ps & Hw & Hb & _). exists h, ps. split; [exact Hw|exact Hb].
Defined.
Lemma bitmap_roundtrip_witness :
  len sample_record = 118 /\ offsets_at sample_bitmap 3 = Ok [5; 0; 0; 0; 0; 0; 0; 0].
Proof.
  split; [by vm_compute|].
  set (out := match encode_bitmap sample_key Posting sample_entries (replicate 200 (byte_of 0)) with Ok (_, out) => out | _ => [] end).
  assert (E : encode_bitmap sample_key Posting sample_entries (replicate 200 (byte_of 0)) = Ok (118, out)) by (vm_compute; reflexivity).
  destruct (bitmap_roundtrip sample_key Posting sample_entries (replicate 200 (byte_of 0)) sample_key_wf sample_entries_wf
    ltac:(by vm_compute)) as [_ H].
  destruct (H 118 out E) as (_ & _ & b & Hb & _ & _ & _ & He & _).
  assert (Eb : bitmap_open (take (N.to_nat 118) out) = Ok sample_bitmap) by (vm_compute; reflexivity).
  rewrite Eb in Hb. apply Ok_inj in Hb. rewrite <- Hb in He. exact (He _ (list_elem_of_here _ _)).
Defined.
