(* ===== verification/GroupMembers.v ===== *)
(** Membership and liveness of a group: [src/crates/pin-core/src/grouped/members.rs].

    A membership record lists the owner of every coordinate of the group, in strict
    coordinate order; a liveness bitmap of the same pages says which of them are still
    alive. The abstract state is the sorted member list with the live offsets of each
    page; the theorems say that the records are its exact encodings, and what sealing,
    lookup and retirement do to it. *)
From S2P Require Export GroupBitmap.

(** [RootTid::block] *)
Abbreviation block := Identity.block.

Definition MEMBER_BYTES : N := 16.

Record Member : Type := mkMember { member_root : RootTid; member_incarnation : Incarnation }.
#[export] Instance Member_eq_dec : EqDecision Member.
Proof. solve_decision. Defined.
Record Members : Type := mkMembers { members_bytes : list byte; members_header : Header }.

(** [Members::key], [len], [is_empty] *)
Definition members_key (self : Members) : GroupKey := header_key (members_header self).
Definition members_len (self : Members) : N := header_count (members_header self).
Definition members_is_empty (self : Members) : bool := header_count (members_header self) =? 0.

(** [Members::get] *)
Definition members_get (self : Members) (i : N) : Result Member :=
  if members_len self <=? i then Err InvalidParameters else
  let start := GROUP_HEADER_BYTES + i * MEMBER_BYTES in
  let* bytes := or_panic (slice (members_bytes self) start (start + MEMBER_BYTES)) in
  let reader := Reader.new bytes in
  let* '(block, reader) := lift_codec (Reader.u32 reader) in
  let* '(offset, reader) := lift_codec (Reader.u16 reader) in
  let* '(reserved, reader) := lift_codec (Reader.u16 reader) in
  if negb (reserved =? 0) then Err InvalidState else
  let* root := invalid_state (RootTid_new block offset (layout (members_key self))) in
  let* '(incarnation, reader) := lift_codec (Reader.u64 reader) in
  let* incarnation := invalid_state (identifier_new incarnation) in
  Ok (mkMember root incarnation).

(** [validate_root] *)
Definition validate_root (key : GroupKey) (root : RootTid) : Result unit :=
  if negb (N.land (block root) (not_w 32 255) =? base key) || (max_offset (layout key) <? root_offset root)
  then Err InvalidState else Ok tt.
(** [previous >= member.root] *)
Definition not_after (previous : option RootTid) (root : RootTid) : bool :=
  match previous with Some previous => negb (root_ltb previous root) | None => false end.
(** [member.root.block() as u8] *)
Definition page_of (root : RootTid) : N := trunc 8 (block root).

(** The loop body that [Members::open] and [encode_members] share. *)
Definition admit_member (key : GroupKey) (st : list N * option RootTid) (member : Member) : Result (list N * option RootTid) :=
  let '(mask, previous) := st in
  let* _ := validate_root key (member_root member) in
  if not_after previous (member_root member) then Err DuplicateDocument else
  Ok (insert mask (page_of (member_root member)), Some (member_root member)).

(** [Members::open] *)
Definition members_open (bytes : list byte) : Result Members :=
  let* header := header_read bytes in
  if negb (header_kind header =? MEMBERS)
     || (GROUP_PAGES * max_offset (layout (header_key header)) <? header_count header)
     || negb (len bytes =? GROUP_HEADER_BYTES + header_count header * MEMBER_BYTES)
  then Err InvalidState else
  let result := mkMembers bytes header in
  let* '(mask, _) := foldM (fun st i =>
      let* member := members_get result i in admit_member (header_key header) st member)
    (replicate PAGE_WORDS 0, None) (range 0 (members_len result)) in
  if negb (bool_decide (mask = header_mask header)) then Err InvalidState else Ok result.

(** [Members::lower_bound] *)
Definition members_lower_bound (self : Members) (bound : N) : Result N :=
  lower_bound (fun mid => let* member := members_get self mid in Ok (key (member_root member) <? bound)) 0 (members_len self).

(** [Members::find] *)
Definition members_find (self : Members) (root : RootTid) : Result (option Member) :=
  let* i := members_lower_bound self (key root) in
  if i =? members_len self then Ok None else
  let* member := members_get self i in
  Ok (if bool_decide (member_root member = root) then Some member else None).

(** [let bit = usize::from(offset - 1); mask[bit / 64] |= 1 << (bit % 64);] *)
Definition set_offset {E} (mask : list N) (root : RootTid) : res E (list N) :=
  let* bit := sub_w (root_offset root) 1 in
  if bit / 64 <? N.of_nat OFFSET_WORDS then Ok (mask_set mask bit) else Panic.

(** The loop of [Members::page_offsets] over [index..self.len()]. *)
Fixpoint collect_offsets (self : Members) (block_ : N) (indices : list N) (mask : list N) : Result (list N) :=
  match indices with
  | [] => Ok mask
  | i :: indices =>
      let* member := members_get self i in
      if negb (block (member_root member) =? block_) then Ok mask else
      let* mask := set_offset mask (member_root member) in
      collect_offsets self block_ indices mask
  end.
(** [Members::page_offsets] *)
Definition members_page_offsets (self : Members) (page : N) : Result (list N) :=
  let* block := key_block (members_key self) page in
  let* i := members_lower_bound self (N.shiftl block 16) in
  collect_offsets self block (range i (members_len self)) (replicate OFFSET_WORDS 0).

(** [Members::encode_liveness] *)
Definition encode_liveness (self : Members) (output : list byte) : Result (N * list byte) :=
  let* '(length, output, _) :=
    encode_with (fun _ page => let* m := members_page_offsets self page in Ok (m, tt))
      (members_key self) Liveness (header_mask (members_header self)) output tt in
  Ok (length, output).

(** The validation loop of [Members::encode_posting]. *)
Definition admit_posting (self : Members) (st : list N * option RootTid) (member : Member) : Result (list N * option RootTid) :=
  let '(mask, previous) := st in
  if not_after previous (member_root member) then Err InvalidState else
  let* found := members_find self (member_root member) in
  if negb (bool_decide (found = Some member)) then Err InvalidState else
  Ok (insert mask (page_of (member_root member)), Some (member_root member)).
(** [for member in &members[start..] { if block differs { break; } .. }] *)
Fixpoint run_offsets {E} (block_ : N) (members : list Member) (mask : list N) : res E (list N) :=
  match members with
  | [] => Ok mask
  | member :: members =>
      if negb (block (member_root member) =? block_) then Ok mask else
      let* mask := set_offset mask (member_root member) in
      run_offsets block_ members mask
  end.
(** [members.partition_point(|m| m.root.block() < block)] on members in order: how many
    come first. *)
Fixpoint partition_point {A} (p : A -> bool) (l : list A) : nat :=
  match l with x :: l => if p x then S (partition_point p l) else O | [] => O end.
(** Its callback. *)
Definition posting_offsets (key : GroupKey) (members : list Member) (page : N) : Result (list N) :=
  let* block_ := key_block key page in
  let start := partition_point (fun member => block (member_root member) <? block_) members in
  run_offsets block_ (drop start members) (replicate OFFSET_WORDS 0).
(** [Members::encode_posting] *)
Definition encode_posting (self : Members) (members : list Member) (output : list byte) : Result (N * list byte) :=
  if members_len self <? len members then Err (Limit "term group members") else
  let* '(mask, _) := foldM (admit_posting self) (replicate PAGE_WORDS 0, None) members in
  let* '(length, output, _) :=
    encode_with (fun _ page => let* m := posting_offsets (members_key self) members page in Ok (m, tt))
      (members_key self) Posting mask output tt in
  Ok (length, output).

(** The writes of one member. *)
Definition write_member (writer : Writer.t) (member : Member) : Result Writer.t :=
  let* writer := lift_codec (Writer.u32 writer (block (member_root member))) in
  let* writer := lift_codec (Writer.u16 writer (root_offset (member_root member))) in
  let* writer := lift_codec (Writer.u16 writer 0) in
  lift_codec (Writer.u64 writer (member_incarnation member)).
(** [encode_members] *)
Definition encode_members (key : GroupKey) (members : list Member) (output : list byte) : Result (N * list byte) :=
  if GROUP_PAGES * max_offset (layout key) <? len members then Err (Limit "group members") else
  let length := GROUP_HEADER_BYTES + len members * MEMBER_BYTES in
  if len output <? length then Err (Limit "group membership output") else
  let* '(mask, _) := foldM (admit_member key) (replicate PAGE_WORDS 0, None) members in
  let* region := or_panic (slice output 0 length) in
  let* writer := header_write (mkHeader key MEMBERS (trunc 32 (len members)) mask) (Writer.new region) length in
  let* writer := foldM write_member writer members in
  Ok (length, Writer.bytes writer ++ drop (N.to_nat length) output).

(** [SegmentGroup] *)
Record SegmentGroup : Type := mkSegmentGroup { group_members : Members; group_live : Bitmap }.
Definition group_key (self : SegmentGroup) : GroupKey := members_key (group_members self).

(** [current.iter().zip(all).any(|(&live, all)| live & !all != 0)] *)
Definition any_outside (current all : list N) : bool :=
  existsb (fun '(live, all) => negb (N.land live (not_w 64 all) =? 0)) (zip current all).
(** [live.kind() != Liveness || live.key() != members.key() || *live.pages() != members.header.mask] *)
Definition foreign_liveness (members : Members) (live : Bitmap) : bool :=
  negb (bool_decide (bitmap_kind live = Liveness)) || negb (bool_decide (bitmap_key live = members_key members))
  || negb (bool_decide (bitmap_pages live = header_mask (members_header members))).
(** The loop of [SegmentGroup::open]. *)
Definition check_live_page (members : Members) (live : Bitmap) (page : N) : Result unit :=
  let* all := members_page_offsets members page in
  let* current := offsets_at live page in
  let* width := payload_bytes live page in
  let* expected := bitmap_len (members_key members) all in
  if negb (width =? expected) || any_outside current all then Err InvalidState else Ok tt.
(** [SegmentGroup::open] *)
Definition segment_open (members live : list byte) : Result SegmentGroup :=
  let* members := members_open members in
  let* live := bitmap_open live in
  if foreign_liveness members live then Err InvalidState else
  let* _ := foldM (fun _ page => check_live_page members live page) tt (pages (header_mask (members_header members))) in
  Ok (mkSegmentGroup members live).

(** [live[byte] & mask != 0], [live[byte] &= !mask] *)
Definition clear_bits (b : byte) (mask : N) : byte := byte_of (N.land (byte_val b) (not_w 8 mask)).
(** [retire]: the state is the image [live], which the caller keeps whatever the result. *)
Definition retire (members : Members) (member : Member) : Eff (list byte) bool :=
  let! found := elift (members_find members (member_root member)) in
  if negb (bool_decide (found = Some member)) then efail InvalidState else
  let! live := eget in
  let! view := elift (bitmap_open live) in
  if foreign_liveness members view then efail InvalidState else
  let page := page_of (member_root member) in
  let! current := elift (offsets_at view page) in
  let! all := elift (members_page_offsets members page) in
  if any_outside current all then efail InvalidState else
  let! s := elift (span view page) in
  match s with
  | None => efail InvalidState
  | Some (start, n) =>
      let! expected := elift (bitmap_len (members_key members) all) in
      if negb (n =? expected) then efail InvalidState else
      let! bit := elift (sub_w (root_offset (member_root member)) 1) in
      let at_ := start + bit / 8 in
      let mask := N.shiftl 1 (bit mod 8) in
      let! b := elift (or_panic (index live at_)) in
      let! _ := eput (<[N.to_nat at_ := clear_bits b mask]> live) in
      eret (negb (N.land (byte_val b) mask =? 0))
  end.

(** * Specification *)
(** A member belongs to the group: a coordinate of its layout, within its 256 blocks. *)
Definition member_wf (k : GroupKey) (m : Member) : Prop :=
  root_wf (layout k) (member_root m) /\ base k <= block (member_root m) < base k + 256 /\ identifier_wf (member_incarnation m).
Definition member_key (m : Member) : N := key (member_root m).
(** The membership of a group: its members in strict coordinate order. *)
Definition members_wf (k : GroupKey) (ms : list Member) : Prop :=
  key_wf k /\ Forall (member_wf k) ms /\ asc 0 (member_key <$> ms).
Definition member_bytes (m : Member) : list byte :=
  le_bytes 4 (block (member_root m)) ++ le_bytes 2 (root_offset (member_root m)) ++ le_bytes 2 0 ++ le_bytes 8 (member_incarnation m).
Definition members_mask (ms : list Member) : list N := set_pages (replicate PAGE_WORDS 0) ((fun m => page_of (member_root m)) <$> ms).
Definition members_head (k : GroupKey) (ms : list Member) : Header := mkHeader k MEMBERS (len ms) (members_mask ms).
Definition members_size (ms : list Member) : N := GROUP_HEADER_BYTES + len ms * MEMBER_BYTES.
Definition members_record (k : GroupKey) (ms : list Member) : list byte :=
  header_bytes (members_head k ms) (members_size ms) ++ (ms ≫= member_bytes).
(** What [open] returns for them. *)
Definition members_view (k : GroupKey) (ms : list Member) : Members := mkMembers (members_record k ms) (members_head k ms).

(** The members of a heap block, and their offsets as a mask. *)
Definition of_block (b : N) (ms : list Member) : list Member := filter (fun m => block (member_root m) = b) ms.
Definition offsets_mask (ms : list Member) : list N :=
  foldl (fun mask m => mask_set mask (root_offset (member_root m) - 1)) (replicate OFFSET_WORDS 0) ms.
Definition find_root (r : RootTid) (ms : list Member) : option Member := head (filter (fun m => member_root m = r) ms).

(** ** Pages of members *)
Lemma page_base k b : key_wf k -> b < 2 ^ 32 -> N.land b (not_w 32 255) = base k <-> base k <= b < base k + 256.
Proof.
  intros (_ & _ & _ & _ & Hb) Hlt.
  assert (E : N.land b (not_w 32 255) = N.shiftl (N.shiftr b 8) 8).
  { apply N.bits_inj. intros i. rewrite N.land_spec, not_w_testbit. change 255 with (N.ones 8).
    destruct (decide (i < 8)) as [Hi|Hi].
    - rewrite N.ones_spec_low, N.shiftl_spec_low, (proj2 (N.ltb_lt _ _)) by lia. by rewrite andb_false_r.
    - rewrite N.ones_spec_high, N.shiftl_spec_high', N.shiftr_spec' by lia. replace (i - 8 + 8) with i by lia.
      destruct (N.ltb_spec i 32); [by rewrite andb_true_r|]. by rewrite (testbit_high b 32). }
  rewrite E, N.shiftl_mul_pow2, N.shiftr_div_pow2. change (2 ^ 8) with 256. dlia.
Qed.
Lemma page_of_lt r : page_of r < 256.
Proof. unfold page_of. rewrite trunc_mod. by apply N.mod_lt. Qed.
Lemma page_of_block k m : key_wf k -> member_wf k m -> block (member_root m) = base k + page_of (member_root m).
Proof.
  intros (_ & _ & _ & _ & Hb) (_ & Hr & _). unfold page_of. rewrite trunc_mod. change (2 ^ 8) with 256. dlia.
Qed.
Lemma member_offset_lt k m : key_wf k -> member_wf k m -> 1 <= root_offset (member_root m) <= 512.
Proof. intros (_ & _ & [_ Hl] & _) ([_ Ho] & _). lia. Qed.
Lemma member_offset_16 k m : key_wf k -> member_wf k m -> root_offset (member_root m) < 2 ^ 16.
Proof. intros Hk Hm. pose proof (member_offset_lt k m Hk Hm). change (2 ^ 16) with 65536. lia. Qed.

(** ** Admitting members in order *)
Definition next_key (previous : option RootTid) : N := match previous with None => 0 | Some r => key r + 1 end.
Definition low_offset (previous : option RootTid) : Prop := match previous with None => True | Some r => root_offset r < 2 ^ 16 end.
Lemma not_after_key previous r : low_offset previous -> root_offset r < 2 ^ 16 ->
  not_after previous r = false <-> next_key previous <= key r.
Proof.
  intros Hp Hr. destruct previous as [q|]; cbn in *; [|split; [lia|done]].
  rewrite root_ltb_key by done. rewrite negb_false_iff, N.ltb_lt. lia.
Qed.
Definition last_root (previous : option RootTid) (ms : list Member) : option RootTid :=
  match list.last ms with None => previous | Some m => Some (member_root m) end.
Lemma last_root_cons previous m ms : last_root previous (m :: ms) = last_root (Some (member_root m)) ms.
Proof. unfold last_root. rewrite last_cons. by destruct (list.last ms). Qed.
Lemma validate_root_ok k r : key_wf k -> block r < 2 ^ 32 ->
  validate_root k r = Ok tt <-> base k <= block r < base k + 256 /\ root_offset r <= max_offset (layout k).
Proof.
  intros Hk Hb. unfold validate_root. rewrite <- (page_base k) by done.
  destruct (N.eqb_spec (N.land (block r) (not_w 32 255)) (base k)), (N.ltb_spec (max_offset (layout k)) (root_offset r)); cbn; naive_solver lia.
Qed.
(** A member as a value: its coordinate was built under some layout. *)
Definition member_value (m : Member) : Prop :=
  block (member_root m) < u32_max /\ 1 <= root_offset (member_root m) <= 512 /\ identifier_wf (member_incarnation m).
(** A member read from a record is a coordinate of the record's layout. *)
Definition member_typed (k : GroupKey) (m : Member) : Prop :=
  root_wf (layout k) (member_root m) /\ identifier_wf (member_incarnation m).
Lemma member_typed_value k m : key_wf k -> member_typed k m -> member_value m.
Proof. intros (_ & _ & [_ Hl] & _) ([Hb Ho] & Hi). split_and!; done || lia. Qed.
Lemma member_wf_value k m : key_wf k -> member_wf k m -> member_value m.
Proof. intros Hk (Hr & _ & Hi). by apply (member_typed_value k). Qed.
Lemma admit_members_ok k mask previous ms r : key_wf k -> low_offset previous -> Forall member_value ms ->
  foldM (admit_member k) (mask, previous) ms = Ok r <->
  Forall (member_wf k) ms /\ asc (next_key previous) (member_key <$> ms) /\
  r = (set_pages mask ((fun m => page_of (member_root m)) <$> ms), last_root previous ms).
Proof.
  intros Hk Hp Hw. revert mask previous Hp. induction Hw as [|m ms (Hbv & Hov & Hi) _ IH]; intros mask previous Hp; cbn [foldM fmap list_fmap asc].
  - cbn. naive_solver.
  - rewrite rbind_ok, list.Forall_cons. assert (Ho : root_offset (member_root m) < 2 ^ 16) by (change (2 ^ 16) with 65536; lia).
    assert (Hb32 : block (member_root m) < 2 ^ 32) by (unfold u32_max in *; lia). split.
    + intros (st & Hm & H). unfold admit_member in Hm. apply rbind_ok in Hm as ([] & Hv & Hm).
      apply validate_root_ok in Hv as [Hb Hov']; [|done..]. apply if_err_ok in Hm as [Hn Hm]. apply not_after_key in Hn; [|done..].
      injection Hm as <-. apply IH in H as (Hf & Ha & ->); [|done]. rewrite last_root_cons. split_and!; try done.
      split_and!; done || (unfold root_wf; lia).
    + intros ((Hm & Hf) & (Hn & Ha) & ->). exists (insert mask (page_of (member_root m)), Some (member_root m)). split.
      * unfold admit_member. rewrite (proj2 (validate_root_ok k _ Hk Hb32)); [|destruct Hm as ([_ ?] & ? & _); done || lia].
        cbn [rbind]. by rewrite (proj2 (not_after_key _ _ Hp Ho)).
      * apply IH; [done|]. rewrite last_root_cons. done.
Qed.

(** ** How many members there can be *)
Lemma asc_raise lo lo' l : asc lo l -> (forall x, x ∈ l -> lo' <= x) -> asc lo' l.
Proof. destruct l as [|x l]; [done|]. intros [_ Hl] Hx. split; [apply Hx; left|done]. Qed.
Lemma asc_mono {A} (f g : A -> N) lo l : asc lo (f <$> l) ->
  (forall x y, x ∈ l -> y ∈ l -> f x < f y -> g x < g y) -> asc 0 (g <$> l).
Proof.
  revert lo; induction l as [|x l IH]; intros lo; [done|]. cbn. intros [_ Hl] Hg. split; [lia|].
  eapply asc_raise.
  - eapply IH; [done|]. intros; apply Hg; [by right..|done].
  - intros z (y & -> & Hy)%list_elem_of_fmap_1. assert (Hxy : f x < f y).
    { pose proof (asc_ge _ _ _ Hl (list_elem_of_fmap_2 f _ _ Hy)). lia. }
    apply Hg in Hxy; [lia|left|by right].
Qed.
Lemma members_len_le k ms : members_wf k ms -> len ms <= GROUP_PAGES * max_offset (layout k).
Proof.
  intros (Hk & Hf & Ha). set (mo := max_offset (layout k)).
  set (pos := fun m => (block (member_root m) - base k) * mo + (root_offset (member_root m) - 1)).
  assert (Hin : forall m, m ∈ ms -> member_wf k m) by (apply list.Forall_forall; done).
  assert (Hp : asc 0 (pos <$> ms)).
  { eapply asc_mono; [exact Ha|]. intros x y Hx Hy Hlt. pose proof (Hin x Hx) as Wx. pose proof (Hin y Hy) as Wy.
    unfold member_key in Hlt. rewrite !key_eq in Hlt by by eapply member_offset_16.
    pose proof (member_offset_16 k x Hk Wx). pose proof (member_offset_16 k y Hk Wy).
    destruct Wx as ([_ Ox] & Bx & _), Wy as ([_ Oy] & By & _). unfold pos. fold mo in Ox, Oy.
    assert (block (member_root x) < block (member_root y) \/
      block (member_root x) = block (member_root y) /\ root_offset (member_root x) < root_offset (member_root y)) as [?|[-> ?]] by nia;
      [nia|lia]. }
  rewrite <- (len_fmap pos), <- (N.sub_0_r (GROUP_PAGES * mo)). apply asc_len; [done| |lia].
  intros z (m & -> & Hm)%list_elem_of_fmap_1. destruct (Hin m Hm) as ([_ Om] & Bm & _). fold mo in Om. unfold pos, GROUP_PAGES. nia.
Qed.
Lemma members_count k ms : members_wf k ms -> len ms <= 131072.
Proof.
  intros H. pose proof (members_len_le k ms H). destruct H as ((_ & _ & [_ Hl] & _) & _). unfold GROUP_PAGES in *. nia.
Qed.

(** ** The page mask *)
Lemma members_pages_lt ms : Forall (fun page => page < 256) ((fun m => page_of (member_root m)) <$> ms).
Proof. apply list.Forall_fmap, list.Forall_forall. intros m _. apply page_of_lt. Qed.
Lemma members_mask_bit ms page : mask_bit (members_mask ms) page = true <-> exists m, m ∈ ms /\ page_of (member_root m) = page.
Proof.
  unfold members_mask. rewrite set_pages_bit by (apply mask_wf_replicate || apply members_pages_lt). rewrite mask_bit_zero. cbn [orb].
  rewrite bool_decide_eq_true, list_elem_of_fmap. naive_solver.
Qed.
Lemma members_mask_ok k ms : key_wf k -> Forall (member_wf k) ms -> mask_ok k (members_mask ms).
Proof.
  intros Hk Hf. split; [apply set_pages_wf, mask_wf_replicate|]. intros Eb.
  apply not_true_iff_false. intros (m & Hm & Hp)%members_mask_bit. pose proof (proj1 (list.Forall_forall _ _) Hf m Hm) as Hw.
  pose proof (page_of_block k m Hk Hw) as E. destruct Hw as ([Hb _] & _). unfold u32_max in *. lia.
Qed.
Lemma members_head_wf k ms : members_wf k ms -> header_wf (members_head k ms).
Proof.
  intros H. pose proof (members_count k ms H). destruct H as (Hk & Hf & _). split_and!; cbn; [done|unfold MEMBERS; lia..|lia|].
  by apply members_mask_ok.
Qed.
Lemma len_member_bytes m : len (member_bytes m) = MEMBER_BYTES.
Proof. unfold member_bytes. rewrite !len_app, !len_le_bytes. done. Qed.
Lemma len_members_record k ms : members_wf k ms -> len (members_record k ms) = members_size ms.
Proof.
  intros H. unfold members_record, members_size. rewrite len_app, len_header_bytes by by apply members_head_wf.
  rewrite (len_bind_const _ MEMBER_BYTES) by (intros; apply len_member_bytes). lia.
Qed.
Lemma members_record_small k ms : members_wf k ms -> small (members_record k ms).
Proof.
  intros H. unfold small. rewrite len_members_record by done. pose proof (members_count k ms H).
  unfold members_size, GROUP_HEADER_BYTES, MEMBER_BYTES, isize_max. lia.
Qed.

(** ** One record *)
Lemma members_get_ok self i m : key_wf (members_key self) -> i < members_len self ->
  members_get self i = Ok m <->
  member_typed (members_key self) m /\
  slice (members_bytes self) (GROUP_HEADER_BYTES + i * MEMBER_BYTES) (GROUP_HEADER_BYTES + i * MEMBER_BYTES + MEMBER_BYTES) = Some (member_bytes m).
Proof.
  intros Hk Hi. unfold members_get. rewrite (proj2 (N.leb_gt _ _)) by done. cbv zeta.
  set (start := GROUP_HEADER_BYTES + i * MEMBER_BYTES). destruct (slice _ start _) as [b|] eqn:Eb; cbn [or_panic rbind].
  2:{ split; [done|]. by intros [_ ?]. }
  pose proof (slice_len _ _ _ _ Eb) as Hl. replace (start + MEMBER_BYTES - start) with 16 in Hl by (unfold MEMBER_BYTES; lia).
  assert (Hsb : small b) by (unfold small, isize_max; lia). rewrite reading_new. split.
  - intros H. next_lifted H u32_format as bl t0 Hbl. next_lifted H u16_format as ofs t1 Hofs.
    next_lifted H u16_format as z t2 Hz. apply if_err_ok in H as [->%negb_false_iff%N.eqb_eq H].
    apply rbind_ok in H as (r & Hr & H). apply map_err_ok in Hr. pose proof (RootTid_new_wf _ _ _ _ Hbl Hr) as Hrw.
    apply RootTid_new_ok in Hr as (-> & _ & _).
    next_lifted H u64_format as inc t3 Hinc. apply rbind_ok in H as (inc' & Hi2 & H). apply map_err_ok, identifier_new_ok in Hi2 as [-> Hne].
    injection H as <-. split; [split; [done|unfold identifier_wf; cbn; lia]|].
    rewrite !len_app, !len_le_bytes in Hl. destruct t3; [|rewrite len_cons in Hl; lia]. unfold member_bytes. by rewrite app_nil_r.
  - intros ((Hr & Hinc) & ->%Some_inj'). unfold member_bytes in *. pose proof Hr as [Hb Ho].
    assert (Ho16 : root_offset (member_root m) < 2 ^ 16).
    { destruct Hk as (_ & _ & [_ Hlay] & _). change (2 ^ 16) with 65536. lia. }
    give_lifted u32_format (block (member_root m)); [unfold u32_max in *; lia|].
    give_lifted u16_format (root_offset (member_root m)); [done|].
    give_lifted u16_format 0; [done|]. cbn [N.eqb negb].
    unfold invalid_state. rewrite (RootTid_new_of_wf (layout (members_key self)) (member_root m)) by done. cbn [map_err rbind].
    give_lifted u64_format (member_incarnation m) before []; [apply Hinc|by rewrite app_nil_r|].
    rewrite (proj2 (identifier_new_ok _ _)) by (split; [done|unfold identifier_wf in Hinc; lia]). cbn [map_err rbind]. by destruct m.
Qed.

(** ** Opening *)
(** A loop that reads its elements one by one. *)
Lemma foldM_read_ok {E S I A} (get : I -> res E A) (f : S -> A -> res E S) s idx r :
  foldM (fun st i => let* a := get i in f st a) s idx = Ok r <->
  exists l, Forall2 (fun i a => get i = Ok a) idx l /\ foldM f s l = Ok r.
Proof.
  revert s; induction idx as [|i idx IH]; intros s; cbn [foldM].
  - split; [intros H; exists []; split; [constructor|done]|]. by intros (l & ->%Forall2_nil_inv_l & H).
  - rewrite rbind_ok. split.
    + intros (s1 & (a & Ha & Hf)%rbind_ok & (l & Hl & H)%IH). exists (a :: l). split; [by constructor|]. cbn. by rewrite Hf.
    + intros (l & (a & l' & Ha & Hl & ->)%Forall2_cons_inv_l & H). cbn in H. apply rbind_ok in H as (s1 & Hs & H).
      exists s1. split; [by rewrite Ha|]. apply IH. eauto.
Qed.
Lemma slices_bind {A} (bs : list byte) (g : A -> list byte) w start l lo :
  Forall2 (fun i a => slice bs (start + i * w) (start + i * w + w) = Some (g a)) (range lo (lo + len l)) l ->
  drop (N.to_nat (start + lo * w)) bs = (l ≫= g) ++ drop (N.to_nat (start + (lo + len l) * w)) bs.
Proof.
  revert lo; induction l as [|a l IH]; intros lo H.
  - by rewrite N.add_0_r.
  - rewrite len_cons in *. rewrite (range_cons lo) in H by lia. apply Forall2_cons_1 in H as [Ha H].
    replace (lo + (1 + len l)) with (lo + 1 + len l) in * by lia. rewrite bind_cons, <- app_assoc, <- (IH (lo + 1)) by done.
    apply slice_ok in Ha as (_ & Hl & ->). rewrite <- (take_drop (N.to_nat w) (drop (N.to_nat (start + lo * w)) bs)) at 1.
    rewrite drop_drop. f_equal; f_equal; lia.
Qed.
(** A record of the membership is one of its members. *)
Lemma bind_slice k ms i m : members_wf k ms -> index ms i = Some m ->
  slice (members_record k ms) (GROUP_HEADER_BYTES + i * MEMBER_BYTES) (GROUP_HEADER_BYTES + i * MEMBER_BYTES + MEMBER_BYTES) = Some (member_bytes m).
Proof.
  intros H Hi. unfold index in Hi. pose proof (len_header_bytes _ (members_size ms) (members_head_wf k ms H)) as Hh.
  apply lookup_lt_Some in Hi as Hlt. apply take_drop_middle in Hi. unfold members_record. rewrite <- Hi at 3.
  rewrite bind_app, bind_cons, app_assoc. apply slice_app; rewrite len_app, Hh, (len_bind_const _ MEMBER_BYTES) by (intros; apply len_member_bytes);
    rewrite ?len_member_bytes, len_take; unfold len; lia.
Qed.
Lemma members_get_view k ms i : members_wf k ms ->
  members_get (members_view k ms) i = ok_or (index ms i) InvalidParameters.
Proof.
  intros H. destruct (index ms i) as [m|] eqn:Ei; cbn [ok_or].
  - pose proof Ei as Hm. unfold index in Hm. apply lookup_lt_Some in Hm as Hlt. apply list_elem_of_lookup_2 in Hm.
    apply members_get_ok; [apply H|unfold members_len; cbn; unfold len; lia|]. split; [|by apply bind_slice].
    destruct H as (_ & Hf & _). pose proof (proj1 (list.Forall_forall _ _) Hf m Hm) as (Hr & _ & Hi). done.
  - unfold index in Ei. apply lookup_ge_None in Ei. unfold members_get. rewrite (proj2 (N.leb_le _ _)); [done|].
    unfold members_len. cbn. unfold len. lia.
Qed.
Lemma Forall2_range {A} (P : N -> A -> Prop) (l : list A) :
  (forall i a, index l i = Some a -> P i a) -> Forall2 P (range 0 (len l)) l.
Proof.
  intros H. apply Forall2_same_length_lookup. unfold range. rewrite length_fmap, length_seq. split; [unfold len; lia|].
  intros i j a Hi Ha. rewrite list_lookup_fmap in Hi. destruct (seq _ _ !! i) eqn:E; [|done].
  apply lookup_seq in E as [-> _]. injection Hi as <-. apply H. unfold index. by replace (N.to_nat (N.of_nat _)) with i by lia.
Qed.
Lemma members_mask_exact k ms : members_wf k ms ->
  foldM (admit_member k) (replicate PAGE_WORDS 0, None) ms = Ok (members_mask ms, last_root None ms).
Proof.
  intros (Hk & Hf & Ha). apply admit_members_ok; [done|done| |done].
  eapply list.Forall_impl; [exact Hf|]. intros m. by apply member_wf_value.
Qed.
Lemma members_open_iff bs v : small bs ->
  members_open bs = Ok v <-> exists k ms, members_wf k ms /\ bs = members_record k ms /\ v = members_view k ms.
Proof.
  intros Hs. unfold members_open. split.
  - intros H. apply rbind_ok in H as (h & Hh & H). apply header_read_iff in Hh as (Hh & Hl & tl & E); [|done].
    apply if_err_ok in H as [Hc H]. apply orb_false_iff in Hc as [Hc Hlen]. apply orb_false_iff in Hc as [Hkind Hcount].
    bool_to_prop. cbv zeta in H. apply rbind_ok in H as ([mask previous] & Hloop & H). apply if_err_ok in H as [Hmask H].
    apply negb_false_iff, bool_decide_eq_true_1 in Hmask as ->. injection H as <-.
    apply foldM_read_ok in Hloop as (ms & Hget & Hloop). set (k := header_key h) in *.
    assert (Hk : key_wf k) by apply Hh. unfold members_len in Hget. cbn [members_header] in Hget.
    assert (Hn : len ms = header_count h).
    { apply Forall2_length in Hget. unfold len at 1. rewrite <- Hget. fold (len (range 0 (header_count h))). rewrite len_range. lia. }
    assert (Hrec : Forall2 (fun i m => member_typed k m /\
      slice bs (GROUP_HEADER_BYTES + i * MEMBER_BYTES) (GROUP_HEADER_BYTES + i * MEMBER_BYTES + MEMBER_BYTES) = Some (member_bytes m))
      (range 0 (header_count h)) ms).
    { apply Forall2_same_length_lookup. split; [by eapply Forall2_length|]. intros i j m Hi Hm.
      pose proof (Forall2_lookup_lr _ _ _ _ _ _ Hget Hi Hm) as Hg. apply members_get_ok in Hg; [done|done|].
      unfold members_len; cbn. apply list_elem_of_lookup_2, elem_of_range in Hi. lia. }
    assert (Htyped : Forall (member_typed k) ms).
    { eapply Forall2_Forall_r; [exact Hrec|]. apply list.Forall_forall. by intros i _ m [? _]. }
    apply admit_members_ok in Hloop as (Hf & Ha & Em); [|done|done|].
    2:{ eapply list.Forall_impl; [exact Htyped|]. intros m. by apply member_typed_value. } apply (f_equal fst) in Em. cbn [fst] in Em.
    assert (Hwf : members_wf k ms) by done. exists k, ms.
    assert (Eh : h = members_head k ms). { unfold members_head, members_mask. rewrite <- Em, Hn, <- Hkind. by destruct h. }
    assert (Ebs : bs = members_record k ms).
    { unfold members_record. rewrite <- Eh. assert (Et : take (N.to_nat GROUP_HEADER_BYTES) bs = header_bytes h (len bs)).
      { rewrite <- (len_header_bytes h (len bs) Hh), to_nat_len. generalize dependent (len bs). intros; subst bs. apply take_app_length. }
      rewrite <- (take_drop (N.to_nat GROUP_HEADER_BYTES) bs) at 1. rewrite Et, Hlen, <- Hn. f_equal.
      pose proof (slices_bind bs member_bytes MEMBER_BYTES GROUP_HEADER_BYTES ms 0) as Hb.
      rewrite !N.add_0_l, N.mul_0_l, N.add_0_r in Hb. rewrite Hb, drop_ge; [by rewrite app_nil_r|unfold len in *; lia|].
      rewrite Hn. eapply Forall2_impl; [|exact Hrec]. by intros i m [_ ?]. }
    split_and!; [done|done|]. unfold members_view. by rewrite <- Ebs, <- Eh.
  - intros (k & ms & Hwf & -> & ->). pose proof (members_head_wf k ms Hwf) as Hh. pose proof (len_members_record k ms Hwf) as Hl.
    pose proof (members_count k ms Hwf) as Hc.
    rewrite (proj2 (header_read_iff (members_record k ms) (members_head k ms) Hs)).
    2:{ rewrite Hl. split_and!; [done|unfold members_size, GROUP_HEADER_BYTES, MEMBER_BYTES; lia|by eexists]. }
    cbn [rbind]. rewrite Hl. change (header_kind (members_head k ms)) with MEMBERS. change (header_count (members_head k ms)) with (len ms).
    change (header_key (members_head k ms)) with k. fold (members_size ms).
    rewrite !N.eqb_refl, (proj2 (N.ltb_ge _ _)) by by apply members_len_le. cbn [negb orb]. cbv zeta.
    fold (members_view k ms). change (members_len (members_view k ms)) with (len ms).
    rewrite (proj2 (foldM_read_ok (members_get (members_view k ms)) (admit_member k) _ _ (members_mask ms, last_root None ms))).
    + cbn [rbind]. by rewrite bool_decide_eq_true_2.
    + exists ms. split; [|by apply members_mask_exact]. apply Forall2_range. intros i m Hi. rewrite members_get_view, Hi by done. done.
Qed.

(** ** Sorted members *)
Lemma filter_all {A} (P : A -> Prop) `{!forall x, Decision (P x)} (l : list A) : (forall x, x ∈ l -> P x) -> filter P l = l.
Proof.
  induction l as [|x l IH]; intros Hl; [done|]. rewrite filter_cons_True by (apply Hl; left). f_equal. apply IH. intros; apply Hl; by right.
Qed.
Lemma asc_split {A} (f : A -> N) lo l b : asc lo (f <$> l) -> l = filter (fun x => f x < b) l ++ filter (fun x => b <= f x) l.
Proof.
  revert lo; induction l as [|x l IH]; intros lo; [done|]. cbn [fmap list_fmap asc]. intros [_ Ha]. rewrite !filter_cons.
  destruct (decide (f x < b)) as [Hlt|Hge].
  - rewrite (decide_False (P := b <= f x)) by lia. cbn. f_equal. by eapply IH.
  - rewrite (decide_True (P := b <= f x)) by lia.
    assert (Hall : forall y, y ∈ l -> f x + 1 <= f y) by (intros y Hy; eapply asc_ge; [exact Ha|by apply list_elem_of_fmap_2]).
    rewrite (filter_none _ l); [|intros y Hy; specialize (Hall y Hy); lia]. cbn. f_equal.
    symmetry. apply filter_all. intros y Hy. specialize (Hall y Hy). lia.
Qed.
Lemma asc_drop_split {A} (f : A -> N) lo l b : asc lo (f <$> l) ->
  drop (length (filter (fun x => f x < b) l)) l = filter (fun x => b <= f x) l.
Proof. intros Ha. rewrite (asc_split f lo l b Ha) at 2. apply drop_app_length. Qed.
Lemma asc_fmap_filter {A} (f : A -> N) (P : A -> Prop) `{!forall x, Decision (P x)} lo l : asc lo (f <$> l) -> asc lo (f <$> filter P l).
Proof.
  revert lo; induction l as [|x l IH]; intros lo; [done|]. rewrite filter_cons. intros [? Ha]. case_decide.
  - split; [done|by apply IH].
  - apply IH. eapply asc_weaken; [|exact Ha]. lia.
Qed.

(** ** Reading is safe *)
Definition sized (self : Members) : Prop :=
  len (members_bytes self) = GROUP_HEADER_BYTES + members_len self * MEMBER_BYTES.
Lemma members_get_safe self i : sized self -> safe (members_get self i).
Proof.
  intros Hs. unfold members_get, invalid_state, lift_codec. apply safe_if; [done|]. intros Hi%N.leb_gt. cbv zeta. apply safe_bind.
  - apply safe_or_panic. unfold slice. rewrite !(proj2 (N.leb_le _ _)); [by eexists|rewrite Hs; unfold MEMBER_BYTES; nia|lia].
  - intros b _. repeat safe_step.
Qed.
Lemma members_open_safe bs : safe (members_open bs).
Proof.
  unfold members_open. apply safe_bind; [apply header_read_safe|]. intros h _. apply safe_if; [done|]. intros Hc.
  apply orb_false_iff in Hc as [_ Hl]. bool_to_prop. cbv zeta. apply safe_bind; [|intros [? ?] _; by apply safe_if].
  apply (foldM_safe _ (fun _ => True)); [done|]. intros [mask previous] i _ _. split; [|done].
  apply safe_bind; [by apply members_get_safe|]. intros m _. unfold admit_member, validate_root. repeat safe_step.
Qed.

(** ** Offsets of a block *)
Section Sorted.
Context (k : GroupKey) (ms : list Member) (Hwf : members_wf k ms).
Lemma member_in m : m ∈ ms -> member_wf k m.
Proof. destruct Hwf as (_ & Hf & _). by apply list.Forall_forall. Qed.
Lemma member_key_eq m : m ∈ ms -> member_key m = block (member_root m) * 65536 + root_offset (member_root m) /\
  1 <= root_offset (member_root m) <= 512.
Proof.
  intros Hm%member_in. destruct Hwf as (Hk & _). split; [|by eapply member_offset_lt].
  unfold member_key. rewrite key_eq; [done|by eapply member_offset_16].
Qed.
Lemma members_lower_bound_view bound :
  members_lower_bound (members_view k ms) bound = Ok (len (filter (fun m => member_key m < bound) ms)).
Proof.
  destruct Hwf as (_ & _ & Ha). unfold members_lower_bound. change (members_len (members_view k ms)) with (len ms).
  set (before := fun mid => _). set (n := len (filter _ ms)).
  assert (En : n <= len ms) by (unfold n, len; pose proof (length_filter (fun m => member_key m < bound) ms); lia).
  assert (Hidx : forall i m, index ms i = Some m -> (member_key m <? bound) = (i <? n)).
  { intros i m Hm. unfold index in Hm. rewrite (asc_split member_key 0 ms bound Ha) in Hm. apply lookup_app_Some in Hm as [Hm|[Hl Hm]].
    - apply lookup_lt_Some in Hm as Hlt. apply list_elem_of_lookup_2, list_elem_of_filter in Hm as [Hm _].
      rewrite (proj2 (N.ltb_lt _ _) Hm). symmetry. apply N.ltb_lt. unfold n, len. lia.
    - apply list_elem_of_lookup_2, list_elem_of_filter in Hm as [Hm _]. rewrite (proj2 (N.ltb_ge _ _) Hm).
      symmetry. apply N.ltb_ge. unfold n, len. lia. }
  destruct (lower_bound_spec before (fun i => i <? n) 0 (len ms)) as (j & -> & Hj & H1 & H2); [lia| | |].
  - intros i Hi. unfold before. rewrite members_get_view by done.
    destruct (index ms i) as [m|] eqn:Em; [|unfold index in Em; apply lookup_ge_None in Em; unfold len in Hi; lia].
    cbn [ok_or rbind]. fold (member_key m). by rewrite (Hidx i m Em).
  - intros i j _ Hij _. rewrite !N.ltb_lt. lia.
  - f_equal. apply (split_unique (fun i => i <? n) 0 (len ms)); [done..|lia| |]; intros i Hi; [apply N.ltb_lt; lia|apply N.ltb_ge; lia].
Qed.
Lemma members_find_view r : members_find (members_view k ms) r = Ok (find_root r ms).
Proof.
  unfold members_find. rewrite members_lower_bound_view. cbn [rbind]. change (members_len (members_view k ms)) with (len ms).
  pose proof Hwf as (Hk & _ & Ha). pose proof (asc_drop_split member_key 0 ms (key r) Ha) as Hd.
  pose proof (asc_split member_key 0 ms (key r) Ha) as Hsplit. pose proof (asc_fmap_filter member_key (fun m => key r <= member_key m) 0 ms Ha) as Hasc.
  assert (Hin : forall m, m ∈ filter (fun m => key r <= member_key m) ms -> key r <= member_key m) by (intros m; by intros [? _]%list_elem_of_filter).
  set (lower := filter (fun m => member_key m < key r) ms) in *. set (upper := filter (fun m => key r <= member_key m) ms) in *.
  assert (Hfind : find_root r ms = head (filter (fun m => member_root m = r) upper)).
  { unfold find_root. rewrite Hsplit at 1. rewrite list.filter_app, (filter_none _ lower); [done|].
    intros m [Hlt _]%list_elem_of_filter <-. unfold member_key in Hlt. lia. }
  assert (Hidx : index ms (len lower) = head upper) by (unfold index; rewrite to_nat_len, <- Hd; by rewrite head_lookup, lookup_drop, Nat.add_0_r).
  rewrite members_get_view, Hidx, Hfind by done. clearbody lower upper. destruct upper as [|u upper]; cbn [head ok_or rbind].
  - rewrite app_nil_r in Hsplit. subst lower. by rewrite N.eqb_refl.
  - rewrite (proj2 (N.eqb_neq _ _)) by (rewrite Hsplit; len_lia). f_equal. rewrite filter_cons. case_bool_decide as Hroot.
    + by rewrite decide_True.
    + rewrite decide_False, filter_none; [done| |done]. intros m Hm E. destruct Hasc as [_ Hasc].
      pose proof (asc_ge _ _ _ Hasc (list_elem_of_fmap_2 member_key _ _ Hm)) as Hge.
      specialize (Hin u ltac:(left)). unfold member_key in *. rewrite E in Hge. lia.
Qed.

Lemma run_offsets_eq {E} b l mask : l ⊆ ms -> asc (b * 65536) (member_key <$> l) ->
  run_offsets (E := E) b l mask = Ok (foldl (fun mask m => mask_set mask (root_offset (member_root m) - 1)) mask (of_block b l)).
Proof.
  revert mask. induction l as [|m l IH]; intros mask Hsub Ha; [done|]. cbn [run_offsets]. unfold of_block. rewrite filter_cons. fold (of_block b l).
  cbn [fmap list_fmap asc] in Ha. destruct Ha as [Hge Ha]. destruct (member_key_eq m) as [Ek Ho]; [by apply Hsub; left|].
  destruct (N.eqb_spec (block (member_root m)) b) as [Eb|Nb]; cbn [negb].
  - rewrite decide_True by done. unfold set_offset. rewrite sub_w_fits by lia. cbn [rbind].
    rewrite (proj2 (N.ltb_lt _ _)) by (unfold OFFSET_WORDS; dlia). cbn [rbind foldl].
    apply IH; [intros x Hx; apply Hsub; by right|]. eapply asc_weaken; [|exact Ha]. lia.
  - rewrite decide_False by done. unfold of_block. rewrite filter_none; [done|]. intros x Hx Exb.
    destruct (member_key_eq x) as [Ex Hox]; [by apply Hsub; right|].
    pose proof (asc_ge _ _ _ Ha (list_elem_of_fmap_2 member_key _ _ Hx)). lia.
Qed.
Lemma collect_offsets_run b i mask : collect_offsets (members_view k ms) b (range i (len ms)) mask = run_offsets b (drop (N.to_nat i) ms) mask.
Proof.
  remember (drop (N.to_nat i) ms) as l eqn:El. revert i mask El. induction l as [|m l IH]; intros i mask El.
  - rewrite range_nil; [done|]. apply (f_equal length) in El. rewrite length_drop in El. cbn in El. unfold len. lia.
  - assert (Hi : index ms i = Some m) by (unfold index; rewrite <- (Nat.add_0_r (N.to_nat i)), <- lookup_drop, <- El; done).
    pose proof Hi as Hlt. unfold index in Hlt. apply lookup_lt_Some in Hlt. rewrite range_cons by (unfold len; lia).
    cbn [collect_offsets run_offsets]. rewrite members_get_view, Hi by done. cbn [ok_or rbind].
    destruct (_ =? b); [|done]. cbn [negb]. destruct (set_offset mask (member_root m)) as [mask1|e|]; [|done|done]. cbn [rbind].
    apply IH. apply (f_equal (drop 1)) in El. rewrite drop_drop in El. change (drop 1 (m :: l)) with l in El. rewrite El. f_equal. lia.
Qed.
Lemma of_block_upper b P `{!forall x, Decision (P x)} : (forall m, m ∈ ms -> block (member_root m) = b -> P m) ->
  of_block b (filter P ms) = of_block b ms.
Proof. intros HP. unfold of_block. rewrite list_filter_filter. apply filter_ext_in. naive_solver. Qed.
Lemma members_page_offsets_view page : page < 256 -> page_ok k page ->
  members_page_offsets (members_view k ms) page = Ok (offsets_mask (of_block (base k + page) ms)).
Proof.
  intros Hp Hok. pose proof Hwf as (Hk & _ & Ha). unfold members_page_offsets. change (members_key (members_view k ms)) with k.
  rewrite (proj2 (key_block_ok k page _ Hk Hp)) by done. cbn [rbind]. rewrite members_lower_bound_view. cbn [rbind].
  change (members_len (members_view k ms)) with (len ms). rewrite collect_offsets_run, to_nat_len, (asc_drop_split member_key 0) by done.
  rewrite N.shiftl_mul_pow2. change (2 ^ 16) with 65536. rewrite run_offsets_eq.
  - unfold offsets_mask. rewrite of_block_upper; [done|]. intros m Hm Eb. destruct (member_key_eq m Hm). rewrite <- Eb. lia.
  - intros m [_ ?]%list_elem_of_filter. done.
  - eapply asc_raise; [by apply asc_fmap_filter|]. intros x (m & -> & Hm)%list_elem_of_fmap_1. by apply list_elem_of_filter in Hm as [? _].
Qed.
End Sorted.

(** ** Offsets of members as a mask *)
Lemma offsets_from_wf mask l : mask_wf OFFSET_WORDS mask ->
  mask_wf OFFSET_WORDS (foldl (fun mask m => mask_set mask (root_offset (member_root m) - 1)) mask l).
Proof. revert mask; induction l as [|m l IH]; intros mask H; [done|]. apply IH. by apply mask_set_wf. Qed.
Lemma offsets_mask_wf l : mask_wf OFFSET_WORDS (offsets_mask l).
Proof. apply offsets_from_wf, mask_wf_replicate. Qed.
Lemma offsets_mask_bit l i : Forall (fun m => 1 <= root_offset (member_root m) <= 512) l ->
  mask_bit (offsets_mask l) i = true <-> exists m, m ∈ l /\ root_offset (member_root m) = i + 1.
Proof.
  intros Hl. unfold offsets_mask. pose proof (mask_wf_replicate OFFSET_WORDS) as Hw. pose proof (mask_bit_zero OFFSET_WORDS i) as H0.
  revert Hw H0. generalize (replicate OFFSET_WORDS 0) as mask.
  assert (G : forall mask, mask_wf OFFSET_WORDS mask ->
    mask_bit (foldl (fun mask m => mask_set mask (root_offset (member_root m) - 1)) mask l) i = true <->
    mask_bit mask i = true \/ exists m, m ∈ l /\ root_offset (member_root m) = i + 1).
  { induction Hl as [|m l Hm _ IH]; intros mask Hw; cbn [foldl].
    - split; [by left|]. intros [?|(m & Hm & _)]; [done|by apply elem_of_nil in Hm].
    - rewrite IH by by apply mask_set_wf. rewrite mask_set_bit by (unfold len; rewrite (proj1 Hw); unfold OFFSET_WORDS; lia).
      rewrite orb_true_iff, N.eqb_eq. setoid_rewrite elem_of_cons. split.
      + intros [[?|?]|(x & ? & ?)]; [by left|right; exists m; split; [by left|lia]|right; eauto].
      + intros [?|(x & [->|?] & ?)]; [by left; left|left; right; lia|right; eauto]. }
  intros mask Hw H0. rewrite G, H0 by done. naive_solver.
Qed.
Lemma offsets_mask_fits k l : key_wf k -> Forall (member_wf k) l -> l <> [] -> fits k (offsets_mask l).
Proof.
  intros Hk Hf Hne. assert (Hb : Forall (fun m => 1 <= root_offset (member_root m) <= 512) l).
  { eapply list.Forall_impl; [exact Hf|]. intros m Hm. by eapply member_offset_lt. }
  pose proof (offsets_mask_wf l) as Hw. split_and!; [done| |].
  - destruct l as [|m l]; [done|]. intros E0. pose proof (offsets_mask_bit (m :: l) (root_offset (member_root m) - 1) Hb) as [_ H].
    rewrite <- loadu_bit, E0, N.bits_0 in H by apply Hw. discriminate H. exists m. split; [left|].
    apply list.Forall_cons_1 in Hb as [? _]. lia.
  - apply size_le_pow2, lt_pow2_testbit. intros i Hi. rewrite loadu_bit by apply Hw. apply not_true_iff_false.
    intros (m & Hm & Ho)%offsets_mask_bit; [|done]. pose proof (proj1 (list.Forall_forall _ _) Hf m Hm) as ([_ Hr] & _). lia.
Qed.

(** ** Bitmaps of members *)
(** The mask of a page of a bitmap that holds the members [l]. *)
Definition page_mask (k : GroupKey) (l : list Member) (page : N) : list N := offsets_mask (of_block (base k + page) l).
Section MembersBitmap.
Context (k : GroupKey) (Hk : key_wf k) (l : list Member) (Hl : Forall (member_wf k) l).
Lemma of_block_wf b : Forall (member_wf k) (of_block b l).
Proof. apply list.Forall_forall. intros m [_ Hm]%list_elem_of_filter. by apply (proj1 (list.Forall_forall _ _) Hl). Qed.
Lemma of_block_nonempty page : page < 256 -> mask_bit (members_mask l) page = true <-> of_block (base k + page) l <> [].
Proof.
  intros Hp. rewrite members_mask_bit. split.
  - intros (m & Hm & Ep) E. pose proof (proj1 (list.Forall_forall _ _) Hl m Hm) as Hw.
    assert (Hin : m ∈ of_block (base k + page) l).
    { apply list_elem_of_filter. split; [|done]. by rewrite (page_of_block k m Hk Hw), Ep. }
    rewrite E in Hin. by apply elem_of_nil in Hin.
  - intros Hne. destruct (of_block (base k + page) l) as [|m r] eqn:E; [done|]. exists m.
    assert (Hm : m ∈ of_block (base k + page) l) by (rewrite E; left). apply list_elem_of_filter in Hm as [Eb Hm]. split; [done|].
    rewrite (page_of_block k m Hk) in Eb by by apply (proj1 (list.Forall_forall _ _) Hl). lia.
Qed.
Lemma members_good (f : N -> Result (list N)) :
  (forall page, page < 256 -> page_ok k page -> f page = Ok (page_mask k l page)) ->
  Forall (good f k (page_mask k l)) (pages (members_mask l)).
Proof.
  intros Hf. pose proof (members_mask_ok k l Hk Hl) as Hm. apply list.Forall_forall. intros page [Hp Hb]%elem_of_pages; [|apply Hm].
  pose proof (mask_ok_page k _ page Hk Hm Hp Hb) as Hok. split_and!; [done|by apply Hf|].
  apply offsets_mask_fits; [done|apply of_block_wf|]. by apply of_block_nonempty.
Qed.
(** The record of the members [l], whatever computes their pages. *)
Definition sealed (kind : BitmapKind) : list byte :=
  record_bytes (header_of k kind (members_mask l)) (payloads (page_mask k l) (pages (members_mask l))).
Lemma seal_eq kind (f : N -> Result (list N)) output : small output ->
  (forall page, page < 256 -> page_ok k page -> f page = Ok (page_mask k l page)) ->
  (let* '(length, output, _) := encode_with (fun _ page => let* m := f page in Ok (m, tt)) k kind (members_mask l) output tt in
   Ok (length, output))
  = if len output <? len (sealed kind) then Err (Limit "bitmap group output")
    else Ok (len (sealed kind), sealed kind ++ drop (N.to_nat (len (sealed kind))) output).
Proof.
  intros Hs Hf. pose proof (members_good f Hf) as Hg. pose proof (members_mask_ok k l Hk Hl) as Hm.
  pose proof (encode_with_eq (fun (_ : unit) (_ : N) => Ok tt) f k Hk (page_mask k l) kind (members_mask l) output tt Hm Hg Hs) as E.
  cbv zeta in E. change (callback (fun (_ : unit) (_ : N) => Ok tt) f) with
    (fun (_ : unit) page => let* m := f page in Ok (E := Error) (m, tt)) in E. rewrite E.
  rewrite !foldM_tt. cbn [rbind]. unfold sealed. rewrite (len_record _ _ (encoded_wf f k Hk _ kind _ Hm Hg)).
  destruct (len output <? _); [done|]. rewrite !foldM_tt. cbn [rbind]. by rewrite !foldM_tt.
Qed.
Lemma page_mask_total page : page < 256 -> page_ok k page -> Ok (E := Error) (page_mask k l page) = Ok (page_mask k l page).
Proof. done. Qed.
(** Read back: a record of exactly these coordinates. *)
Definition sealed_view (kind : BitmapKind) : Bitmap := encoded k (page_mask k l) kind (members_mask l).
Lemma sealed_open kind : bitmap_open (sealed kind) = Ok (sealed_view kind).
Proof.
  apply (encoded_open (fun page => Ok (page_mask k l page)) k Hk (page_mask k l) kind (members_mask l));
    [by apply members_mask_ok|exact (members_good _ page_mask_total)].
Qed.
Lemma sealed_offsets kind page : page < 256 -> offsets_at (sealed_view kind) page = Ok (page_mask k l page).
Proof.
  intros Hp. unfold sealed_view. rewrite (encoded_offsets (fun page => Ok (page_mask k l page)) k Hk _ kind _
    (members_mask_ok k l Hk Hl) (members_good _ page_mask_total)) by done.
  destruct (mask_bit (members_mask l) page) eqn:Hb; [done|]. f_equal. unfold page_mask.
  assert (of_block (base k + page) l = []) as ->; [|done]. destruct (of_block (base k + page) l) eqn:E; [done|].
  exfalso. assert (Ht : mask_bit (members_mask l) page = true) by (apply of_block_nonempty; [done|by rewrite E]). by rewrite Hb in Ht.
Qed.
Lemma page_mask_bit page i : mask_bit (page_mask k l page) i = true <->
  exists m, m ∈ l /\ block (member_root m) = base k + page /\ root_offset (member_root m) = i + 1.
Proof.
  unfold page_mask. rewrite offsets_mask_bit.
  - split; intros (m & Hm & Ho).
    + apply list_elem_of_filter in Hm as [? ?]. eauto.
    + exists m. destruct Ho. split; [|done]. by apply list_elem_of_filter.
  - eapply list.Forall_impl; [apply of_block_wf|]. intros m Hm. by eapply member_offset_lt.
Qed.
End MembersBitmap.

(** ** Sealing a membership *)
Lemma write_member_ok out pre m : small out -> len pre + MEMBER_BYTES <= len out ->
  write_member (writing out pre) m = Ok (writing out (pre ++ member_bytes m)).
Proof.
  unfold MEMBER_BYTES. intros Hs Hl. unfold write_member, Writer.u32, Writer.u16, Writer.u64.
  repeat (rewrite put_writing by (done || len_lia); cbn [lift_codec map_err rbind]).
  unfold member_bytes. by rewrite <- !app_assoc.
Qed.
Lemma write_members_ok out pre l : small out -> len pre + len l * MEMBER_BYTES <= len out ->
  foldM write_member (writing out pre) l = Ok (writing out (pre ++ (l ≫= member_bytes))).
Proof.
  intros Hs. revert pre; induction l as [|m l IH]; intros pre Hl; cbn [foldM]; [by rewrite app_nil_r|].
  rewrite len_cons in Hl. rewrite write_member_ok by (done || (unfold MEMBER_BYTES in *; lia)). cbn [rbind].
  rewrite IH by (rewrite len_app, len_member_bytes; unfold MEMBER_BYTES in *; lia). by rewrite bind_cons, <- app_assoc.
Qed.
Lemma encode_members_iff k ms output n out : key_wf k -> Forall member_value ms -> small output ->
  encode_members k ms output = Ok (n, out) <->
  members_wf k ms /\ n = members_size ms /\ n <= len output /\ out = members_record k ms ++ drop (N.to_nat n) output.
Proof.
  intros Hk Ht Hs.
  assert (Hgo : members_wf k ms -> encode_members k ms output =
    if len output <? members_size ms then Err (Limit "group membership output")
    else Ok (members_size ms, members_record k ms ++ drop (N.to_nat (members_size ms)) output)).
  { intros Hwf. unfold encode_members. pose proof (members_count k ms Hwf) as Hc. pose proof (members_head_wf k ms Hwf) as Hh.
    rewrite (proj2 (N.ltb_ge _ _)) by by apply members_len_le. cbv zeta. fold (members_size ms).
    destruct (N.ltb_spec (len output) (members_size ms)) as [|Hl]; [done|]. rewrite members_mask_exact by done. cbn [rbind].
    set (region := take (N.to_nat (members_size ms)) output).
    assert (Hregion : len region = members_size ms) by (unfold region; len_lia).
    assert (Hrs : small region) by (unfold small in *; unfold region; len_lia).
    rewrite (proj2 (slice_ok output 0 (members_size ms) region)) by (rewrite N.sub_0_r; split_and!; done || lia).
    cbn [or_panic rbind]. rewrite trunc_small by (change (2 ^ 32) with 4294967296; lia). fold (members_head k ms).
    rewrite writing_new, header_write_ok; [|done|done|unfold members_size, GROUP_HEADER_BYTES, MEMBER_BYTES; lia|rewrite len_nil, Hregion; unfold members_size; lia].
    cbn [rbind app]. rewrite write_members_ok by (done || (rewrite len_header_bytes by done; rewrite Hregion; unfold members_size; lia)).
    cbn [rbind]. fold (members_record k ms). do 3 f_equal. unfold writing. cbn [Writer.bytes].
    rewrite drop_ge, app_nil_r; [done|]. pose proof (len_members_record k ms Hwf) as E. unfold len in *. lia. }
  split.
  - intros H. assert (Hwf : members_wf k ms).
    { unfold encode_members in H. apply if_err_ok in H as [_ H]. apply if_err_ok in H as [_ H]. apply rbind_ok in H as (r & Hr & _).
      apply admit_members_ok in Hr as (Hf & Ha & _); done. }
    rewrite Hgo in H by done. apply if_err_ok in H as [Hl%N.ltb_ge H]. injection H as <- <-. done.
  - intros (Hwf & -> & Hl & ->). rewrite Hgo by done. by rewrite (proj2 (N.ltb_ge _ _)).
Qed.

(** ** Sealing bitmaps of members *)
Section Seal.
Context (k : GroupKey) (ms : list Member) (Hwf : members_wf k ms).
Lemma encode_liveness_eq output : small output ->
  encode_liveness (members_view k ms) output =
    if len output <? len (sealed k ms Liveness) then Err (Limit "bitmap group output")
    else Ok (len (sealed k ms Liveness), sealed k ms Liveness ++ drop (N.to_nat (len (sealed k ms Liveness))) output).
Proof.
  intros Hs. destruct Hwf as (Hk & Hf & _). apply (seal_eq k Hk ms Hf Liveness (members_page_offsets (members_view k ms))); [done|].
  intros. by apply members_page_offsets_view.
Qed.
(** A member is found under its own coordinate only. *)
Lemma same_root m1 m2 : m1 ∈ ms -> m2 ∈ ms -> member_root m1 = member_root m2 -> m1 = m2.
Proof.
  intros [i Hi]%list_elem_of_lookup_1 [j Hj]%list_elem_of_lookup_1 E. destruct Hwf as (_ & _ & Ha).
  assert (Hk1 : (member_key <$> ms) !! i = Some (member_key m1)) by by rewrite list_lookup_fmap, Hi.
  assert (Hk2 : (member_key <$> ms) !! j = Some (member_key m2)) by by rewrite list_lookup_fmap, Hj.
  destruct (Nat.lt_trichotomy i j) as [Hlt|[->|Hlt]].
  - pose proof (asc_lookup 0 _ _ _ _ _ Ha Hk1 Hk2 Hlt) as H. unfold member_key in H. rewrite E in H. lia.
  - by rewrite Hi in Hj; injection Hj.
  - pose proof (asc_lookup 0 _ _ _ _ _ Ha Hk2 Hk1 Hlt) as H. unfold member_key in H. rewrite E in H. lia.
Qed.
Lemma find_root_some m : find_root (member_root m) ms = Some m <-> m ∈ ms.
Proof.
  unfold find_root. split.
  - intros H%head_Some_elem_of. by apply list_elem_of_filter in H as [_ ?].
  - intros Hm. assert (Hin : m ∈ filter (fun x => member_root x = member_root m) ms) by by apply list_elem_of_filter.
    destruct (filter _ ms) as [|x l] eqn:E; [by apply elem_of_nil in Hin|]. cbn. f_equal.
    assert (Hx : x ∈ filter (fun x => member_root x = member_root m) ms) by (rewrite E; left).
    apply list_elem_of_filter in Hx as [Hr Hx]. by apply same_root.
Qed.
Lemma admit_postings_ok mask previous l r : low_offset previous ->
  foldM (admit_posting (members_view k ms)) (mask, previous) l = Ok r <->
  l ⊆ ms /\ asc (next_key previous) (member_key <$> l) /\
  r = (set_pages mask ((fun m => page_of (member_root m)) <$> l), last_root previous l).
Proof.
  revert mask previous. induction l as [|m l IH]; intros mask previous Hp; cbn [foldM fmap list_fmap asc].
  - cbn. split; [intros [= <-]|intros (_ & _ & ->)]; split_and?; try done. apply list_subseteq_nil.
  - rewrite rbind_ok. split.
    + intros (st & Hm & H). unfold admit_posting in Hm. apply if_err_ok in Hm as [Hn Hm].
      rewrite members_find_view in Hm by done. cbn [rbind] in Hm. apply if_err_ok in Hm as [Hf Hm].
      apply negb_false_iff, bool_decide_eq_true_1, find_root_some in Hf.
      assert (Ho : root_offset (member_root m) < 2 ^ 16) by (eapply member_offset_16; [apply Hwf|by eapply member_in]).
      apply not_after_key in Hn; [|done..]. injection Hm as <-. apply IH in H as (Hs & Ha & ->); [|done].
      rewrite last_root_cons. split_and!; try done. intros x [->|Hx]%elem_of_cons; [done|by apply Hs].
    + intros (Hs & (Hn & Ha) & ->). assert (Hm : m ∈ ms) by (apply Hs; left).
      assert (Ho : root_offset (member_root m) < 2 ^ 16) by (eapply member_offset_16; [apply Hwf|by eapply member_in]).
      exists (insert mask (page_of (member_root m)), Some (member_root m)). split.
      * unfold admit_posting. rewrite (proj2 (not_after_key _ _ Hp Ho)) by done. rewrite members_find_view by done. cbn [rbind].
        by rewrite bool_decide_eq_true_2 by by apply find_root_some.
      * apply IH; [done|]. rewrite last_root_cons. split_and!; try done. intros x Hx. apply Hs. by right.
Qed.
End Seal.

(** The slice of a term's members that belongs to one block. *)
Lemma members_wf_sub k ms l : members_wf k ms -> l ⊆ ms -> asc 0 (member_key <$> l) -> members_wf k l.
Proof.
  intros (Hk & Hf & _) Hs Ha. split_and!; [done| |done]. apply list.Forall_forall. intros m Hm.
  by apply (proj1 (list.Forall_forall _ _) Hf), Hs.
Qed.
Lemma partition_point_eq {A} (p : A -> bool) (l1 l2 : list A) :
  (forall x, x ∈ l1 -> p x = true) -> (forall x, x ∈ l2 -> p x = false) -> partition_point p (l1 ++ l2) = length l1.
Proof.
  intros H1 H2. induction l1 as [|x l1 IH]; cbn [app partition_point length].
  - destruct l2 as [|y l2]; [done|]. cbn. by rewrite H2 by left.
  - rewrite H1 by left. f_equal. apply IH. intros; apply H1; by right.
Qed.
Lemma posting_offsets_view k l page : members_wf k l -> page < 256 -> page_ok k page ->
  posting_offsets k l page = Ok (page_mask k l page).
Proof.
  intros Hwf Hp Hok. pose proof Hwf as (Hk & _ & Ha). unfold posting_offsets.
  rewrite (proj2 (key_block_ok k page _ Hk Hp)) by done. cbn [rbind]. cbv zeta. set (b := base k + page).
  pose proof (asc_split member_key 0 l (b * 65536) Ha) as Hsplit.
  assert (Hblock : forall m, m ∈ l -> (block (member_root m) < b <-> member_key m < b * 65536)).
  { intros m Hm. destruct (member_key_eq k l Hwf m Hm). lia. }
  rewrite Hsplit at 1. rewrite partition_point_eq.
  - rewrite (asc_drop_split member_key 0) by done. rewrite (run_offsets_eq k l Hwf).
    + unfold page_mask, offsets_mask. fold b. rewrite of_block_upper; [done|]. intros m Hm Eb.
      destruct (member_key_eq k l Hwf m Hm). rewrite <- Eb. lia.
    + intros m [_ ?]%list_elem_of_filter. done.
    + eapply asc_raise; [by apply asc_fmap_filter|]. intros x (m & -> & Hm)%list_elem_of_fmap_1. by apply list_elem_of_filter in Hm as [? _].
  - intros m [Hlt Hm]%list_elem_of_filter. by apply N.ltb_lt, Hblock.
  - intros m [Hge Hm]%list_elem_of_filter. apply N.ltb_ge. specialize (Hblock m Hm). lia.
Qed.
Lemma encode_posting_iff k ms l output n out : members_wf k ms -> small output ->
  encode_posting (members_view k ms) l output = Ok (n, out) <->
  (l ⊆ ms /\ asc 0 (member_key <$> l)) /\ n = len (sealed k l Posting) /\ n <= len output /\
  out = sealed k l Posting ++ drop (N.to_nat n) output.
Proof.
  intros Hwf Hs.
  assert (Hgo : l ⊆ ms -> asc 0 (member_key <$> l) -> encode_posting (members_view k ms) l output =
    if len output <? len (sealed k l Posting) then Err (Limit "bitmap group output")
    else Ok (len (sealed k l Posting), sealed k l Posting ++ drop (N.to_nat (len (sealed k l Posting))) output)).
  { intros Hsub Ha. pose proof (members_wf_sub k ms l Hwf Hsub Ha) as Hl. pose proof Hl as (Hk & Hf & _). unfold encode_posting.
    assert (Hlen : len l <= len ms).
    { enough (length l <= length ms)%nat by (unfold len; lia). apply submseteq_length, NoDup_submseteq; [|done].
      apply (NoDup_fmap_1 member_key). by eapply asc_NoDup. }
    change (members_len (members_view k ms)) with (len ms). rewrite (proj2 (N.ltb_ge _ _)) by done.
    rewrite (proj2 (admit_postings_ok k ms Hwf _ None l _ I)) by done. cbn [rbind]. fold (members_mask l).
    change (members_key (members_view k ms)) with k. apply (seal_eq k Hk l Hf Posting (posting_offsets k l)); [done|].
    intros. by apply posting_offsets_view. }
  split.
  - intros H. assert (Hc : l ⊆ ms /\ asc 0 (member_key <$> l)).
    { unfold encode_posting in H. apply if_err_ok in H as [_ H]. apply rbind_ok in H as (r & Hr & _).
      apply (admit_postings_ok k ms Hwf) in Hr as (Hsub & Ha & _); done. }
    destruct Hc as [Hsub Ha]. rewrite Hgo in H by done. apply if_err_ok in H as [Hl%N.ltb_ge H].
    apply Ok_inj, pair_equal_spec in H as [<- <-]. split; [done|]. split; [done|]. split; [exact Hl|reflexivity].
  - intros ([Hsub Ha] & -> & Hl & ->). rewrite Hgo by done. by rewrite (proj2 (N.ltb_ge _ _)).
Qed.

(** * A segment group

    The abstract state is the membership and the sublist of it that is still alive. *)
(** The width of a page's liveness is that of its full membership, so that clearing a
    member never moves a byte. *)
Definition live_payload (k : GroupKey) (ms alive : list Member) (page : N) : list byte :=
  le_bytes (N.to_nat (payload_len (page_mask k ms page))) (loadu (page_mask k alive page)).
Definition live_head (k : GroupKey) (ms : list Member) : Header := header_of k Liveness (members_mask ms).
Definition live_payloads (k : GroupKey) (ms alive : list Member) : list (list byte) :=
  live_payload k ms alive <$> pages (members_mask ms).
Definition live_record (k : GroupKey) (ms alive : list Member) : list byte := record_bytes (live_head k ms) (live_payloads k ms alive).
Definition group_wf (k : GroupKey) (ms alive : list Member) : Prop := members_wf k ms /\ alive `sublist_of` ms.
Definition live_view (k : GroupKey) (ms alive : list Member) : Bitmap := view (live_head k ms) (live_payloads k ms alive).

Section Group.
Context (k : GroupKey) (ms : list Member) (Hwf : members_wf k ms).
Lemma page_fits page : page ∈ pages (members_mask ms) -> page < 256 /\ page_ok k page /\ fits k (page_mask k ms page).
Proof.
  destruct Hwf as (Hk & Hf & _). pose proof (members_mask_ok k ms Hk Hf) as Hm. intros Hin. pose proof Hin as [Hp _]%elem_of_pages; [|apply Hm].
  pose proof (members_good k Hk ms Hf (fun page => Ok (page_mask k ms page)) (page_mask_total k ms)) as Hg.
  by pose proof (proj1 (list.Forall_forall _ _) Hg page Hin) as (Hok & _ & Hfit).
Qed.
Lemma len_live_payload alive page : len (live_payload k ms alive page) = payload_len (page_mask k ms page).
Proof. unfold live_payload. rewrite len_le_bytes. lia. Qed.
Lemma live_record_wf alive : record_wf (live_head k ms) (live_payloads k ms alive).
Proof.
  destruct Hwf as (Hk & Hf & _). pose proof (members_mask_ok k ms Hk Hf) as Hm.
  split_and!; cbn [live_head header_of header_kind header_count header_key header_mask].
  - unfold header_wf. cbn. split_and!; [done|lia|lia|lia|done..].
  - by right.
  - done.
  - unfold live_payloads. rewrite len_fmap. symmetry. apply page_count_pages, Hm.
  - unfold live_payloads. apply list.Forall_fmap, list.Forall_forall. intros page (Hp & Hok & Hfit)%page_fits. cbn.
    rewrite len_live_payload. by apply (payload_len_width k).
Qed.
Lemma live_payload_view alive page : page < 256 ->
  payload (live_head k ms) (live_payloads k ms alive) page =
    if mask_bit (members_mask ms) page then Some (live_payload k ms alive page) else None.
Proof.
  intros Hp. unfold payload. cbn [live_head header_of header_mask]. destruct (mask_bit (members_mask ms) page) eqn:Hb; [|done].
  unfold index, live_payloads. destruct Hwf as (Hk & Hf & _). pose proof (members_mask_ok k ms Hk Hf) as [Hm _].
  by rewrite list_lookup_fmap, rank_lookup.
Qed.

(** ** Checking a liveness image *)
Lemma any_outside_spec current all : mask_wf OFFSET_WORDS current -> mask_wf OFFSET_WORDS all ->
  any_outside current all = false <-> forall i, i < 512 -> mask_bit current i = true -> mask_bit all i = true.
Proof.
  intros [Lc Fc] [La Fa]. unfold any_outside. rewrite <- not_true_iff_false, existsb_exists. split.
  - intros Hn i Hi Hb. destruct (mask_bit all i) eqn:Ha; [done|]. exfalso. apply Hn. unfold mask_bit in Hb, Ha.
    set (j := N.to_nat (i / 64)) in *. assert (Hj : (j < 8)%nat) by (unfold j; dlia).
    destruct (lookup_lt_is_Some_2 current j) as [c Ec]; [rewrite Lc; done|].
    destruct (lookup_lt_is_Some_2 all j) as [a Ea]; [rewrite La; done|]. rewrite Ec in Hb. rewrite Ea in Ha. cbn [default from_option] in Hb, Ha. unfold id in *.
    exists (c, a). split.
    + apply list_elem_of_In, list_elem_of_lookup. exists j. by apply lookup_zip_Some.
    + apply negb_true_iff, N.eqb_neq. intros E0. apply (f_equal (fun x => N.testbit x (i mod 64))) in E0.
      rewrite and_not_testbit, Hb, Ha, N.bits_0 in E0 by apply mod_64. done.
  - intros Hi ([c a] & Hin & Hne). apply list_elem_of_In, list_elem_of_lookup in Hin as [j Hj]. apply lookup_zip_Some in Hj as [Hc Ha].
    apply negb_true_iff, N.eqb_neq in Hne. apply Hne, N.bits_inj_0. intros b. destruct (decide (b < 64)) as [Hb|Hb].
    + rewrite and_not_testbit by done. destruct (N.testbit c b) eqn:Eb; [|done]. cbn [andb].
      assert (Hj : (j < 8)%nat) by (apply lookup_lt_Some in Hc; rewrite Lc in Hc; exact Hc).
      specialize (Hi (64 * N.of_nat j + b) ltac:(lia)). unfold mask_bit in Hi.
      replace ((64 * N.of_nat j + b) / 64) with (N.of_nat j) in Hi by dlia. replace ((64 * N.of_nat j + b) mod 64) with b in Hi by dlia.
      rewrite Nat2N.id, Hc, Ha in Hi. cbn in Hi. unfold id in Hi. by rewrite Hi.
    + rewrite N.land_spec. pose proof (Forall_lookup_1 _ _ _ _ Fc Hc) as Hw. by rewrite (testbit_high c 64) by (done || lia).
Qed.
Lemma check_live_page_ok h ps page : record_wf h ps -> header_key h = k -> page < 256 -> page_ok k page ->
  fits k (page_mask k ms page) -> bitmap_kind (view h ps) = Liveness ->
  check_live_page (members_view k ms) (view h ps) page = Ok tt <->
  exists p, payload h ps page = Some p /\ len p = payload_len (page_mask k ms page) /\
    forall i, i < 512 -> mask_bit (payload_words p) i = true -> mask_bit (page_mask k ms page) i = true.
Proof.
  intros Hr Hkey Hp Hok Hfit Hkind. pose proof Hwf as (Hk & _). unfold check_live_page.
  rewrite (members_page_offsets_view k ms Hwf) by done. fold (page_mask k ms page). cbn [rbind].
  rewrite offsets_view, payload_bytes_view, Hkey, Hkind by done. change (members_key (members_view k ms)) with k.
  rewrite bitmap_len_fits by done. pose proof (payload_len_width k _ Hk Hfit) as [[Hw _] H64].
  destruct (payload h ps page) as [p|] eqn:Ep.
  - destruct (payload_ok Liveness k p) eqn:Epk; cbn [rbind].
    + rewrite (if_err_ok _ InvalidState (Ok tt)), orb_false_iff, negb_false_iff, N.eqb_eq.
      rewrite any_outside_spec by (apply payload_words_wf || apply Hfit). naive_solver.
    + split; [done|]. intros (p' & [= <-] & Hl & Hs). exfalso. unfold payload_ok in Epk. rewrite andb_true_r in Epk.
      apply N.leb_gt in Epk. assert (Hlt : le_val p < 2 ^ max_offset (layout k)); [|apply size_le_pow2 in Hlt; lia].
      apply lt_pow2_testbit. intros i Hi. rewrite <- payload_words_bit by lia. apply not_true_iff_false. intros Hb.
      destruct (decide (i < 512)) as [H512|]; [|rewrite mask_bit_default in Hb; [done|]; unfold len; rewrite (proj1 (payload_words_wf p)); unfold OFFSET_WORDS; lia].
      apply Hs in Hb; [|done]. destruct Hfit as ((_ & Ff) & _ & Hsz). rewrite <- loadu_bit in Hb by done.
      rewrite (testbit_high _ (N.size (loadu (page_mask k ms page)))) in Hb; [done|apply N.size_gt|lia].
  - cbn [rbind]. split; [|by intros (? & ? & _)]. intros H. exfalso. apply if_err_ok in H as [H _]. apply orb_false_iff in H as [H _].
    apply negb_false_iff, N.eqb_eq in H. lia.
Qed.
Lemma payload_at h ps i page : record_wf h ps -> pages (header_mask h) !! i = Some page -> payload h ps page = ps !! i.
Proof.
  intros (Hh & _ & _ & _ & _) Hi. pose proof Hh as (_ & _ & _ & Hm & _). pose proof Hi as Hin.
  apply list_elem_of_lookup_2, elem_of_pages in Hin as [Hp Hb]; [|done]. unfold payload. rewrite Hb. unfold index.
  pose proof (rank_lookup _ _ Hm Hp Hb) as Hr. f_equal.
  by apply (NoDup_lookup (pages (header_mask h)) _ _ page); [eapply asc_NoDup; by apply pages_asc|..].
Qed.
Lemma payloads_by_page h ps (g : N -> list byte) : record_wf h ps ->
  (forall page, page ∈ pages (header_mask h) -> payload h ps page = Some (g page)) -> ps = g <$> pages (header_mask h).
Proof.
  intros Hr Hg. apply list_eq. intros i. rewrite list_lookup_fmap. destruct (pages (header_mask h) !! i) as [page|] eqn:Ei; cbn.
  - rewrite <- (payload_at h ps i page) by done. apply Hg. by eapply list_elem_of_lookup_2.
  - destruct Hr as ((_ & _ & _ & Hm & _) & _ & _ & Hn & _). apply lookup_ge_None in Ei. apply lookup_ge_None_2.
    rewrite page_count_pages in Hn by done. unfold len in Hn. lia.
Qed.
End Group.

(** ** Opening a group *)
Definition group_view (k : GroupKey) (ms alive : list Member) : SegmentGroup :=
  mkSegmentGroup (members_view k ms) (live_view k ms alive).
Lemma group_wf_sub k ms alive : group_wf k ms alive -> members_wf k alive.
Proof.
  intros [Hwf Hs]. eapply members_wf_sub; [done| |].
  - intros m Hm. by eapply elem_of_sublist.
  - destruct Hwf as (_ & _ & Ha). clear -Hs Ha. revert Ha. generalize 0 as lo.
    induction Hs as [|m l1 l2 _ IH|m l1 l2 _ IH]; intros lo Ha; [done| |].
    + cbn in *. destruct Ha as [? Ha]. split; [done|by apply IH].
    + apply IH. cbn in Ha. destruct Ha as [? Ha]. eapply asc_weaken; [|exact Ha]. lia.
Qed.
Lemma sublist_filter {A} (P : A -> Prop) `{!forall x, Decision (P x)} (l : list A) : filter P l `sublist_of` l.
Proof. induction l as [|x l IH]; [constructor|]. rewrite filter_cons. case_decide; by constructor. Qed.
(** A liveness image stays within the words of its mask. *)
Lemma live_le_val k ms alive page : group_wf k ms alive ->
  le_val (live_payload k ms alive page) = loadu (page_mask k alive page).
Proof.
  intros Hg. pose proof (group_wf_sub _ _ _ Hg) as (Hk & Hfa & _). destruct Hg as [(_ & Hf & _) Hs].
  unfold live_payload. apply le_val_bytes_small. pose proof (offsets_mask_wf (of_block (base k + page) alive)) as Hwa.
  pose proof (offsets_mask_wf (of_block (base k + page) ms)) as Hwm. fold (page_mask k alive page) in Hwa. fold (page_mask k ms page) in Hwm.
  apply lt_pow2_testbit. intros i Hi. rewrite loadu_bit by apply Hwa. apply not_true_iff_false. intros Hb.
  assert (Hm : mask_bit (page_mask k ms page) i = true).
  { apply (page_mask_bit k Hk alive Hfa) in Hb as (m & Hm & ? & ?). apply (page_mask_bit k Hk ms Hf). exists m. split; [|done].
    by eapply elem_of_sublist. }
  rewrite <- loadu_bit in Hm by apply Hwm. rewrite (testbit_high _ (N.size (loadu (page_mask k ms page)))) in Hm; [done|apply N.size_gt|].
  unfold payload_len, div_ceil in Hi. dlia.
Qed.
Lemma live_words k ms alive page : group_wf k ms alive -> page ∈ pages (members_mask ms) ->
  payload_words (live_payload k ms alive page) = page_mask k alive page.
Proof.
  intros Hg Hp. destruct (page_fits k ms (proj1 Hg) page Hp) as (_ & _ & Hfit).
  pose proof (payload_len_width k _ (proj1 (proj1 Hg)) Hfit) as [_ Hl].
  apply (loadu_inj OFFSET_WORDS); [apply payload_words_wf|apply offsets_mask_wf|].
  rewrite loadu_payload by by rewrite len_live_payload. by apply live_le_val.
Qed.
Lemma live_head_foreign k ms b : foreign_liveness (members_view k ms) b = false <->
  bitmap_kind b = Liveness /\ bitmap_key b = k /\ bitmap_pages b = members_mask ms.
Proof.
  unfold foreign_liveness. change (members_key (members_view k ms)) with k. cbn [members_view members_header members_head header_mask].
  rewrite !orb_false_iff, !negb_false_iff, !bool_decide_eq_true. tauto.
Qed.
Lemma page_mask_sub k ms alive page i : group_wf k ms alive ->
  mask_bit (page_mask k alive page) i = true -> mask_bit (page_mask k ms page) i = true.
Proof.
  intros Hg. pose proof (group_wf_sub _ _ _ Hg) as (Hk & Hfa & _). destruct Hg as [(_ & Hf & _) Hs].
  rewrite (page_mask_bit k Hk alive Hfa), (page_mask_bit k Hk ms Hf). intros (m & Hm & ?). exists m. split; [|done].
  by eapply elem_of_sublist.
Qed.
(** The members that an image with valid pages keeps alive. *)
Definition live_members (h : Header) (ps : list (list byte)) (ms : list Member) : list Member :=
  filter (fun m => mask_bit (payload_words (default [] (payload h ps (page_of (member_root m))))) (root_offset (member_root m) - 1) = true) ms.
Lemma live_members_payload k ms h ps page p : members_wf k ms -> page < 256 -> payload h ps page = Some p ->
  len p = payload_len (page_mask k ms page) -> len p <= 64 ->
  (forall i, i < 512 -> mask_bit (payload_words p) i = true -> mask_bit (page_mask k ms page) i = true) ->
  p = live_payload k ms (live_members h ps ms) page.
Proof.
  intros Hwf Hp Ep Hl H64 Hsub. pose proof Hwf as (Hk & Hf & _). set (alive := live_members h ps ms).
  assert (Hg : group_wf k ms alive) by (split; [done|apply sublist_filter]).
  pose proof (group_wf_sub _ _ _ Hg) as (_ & Hfa & _).
  apply le_val_inj. { pose proof (len_live_payload k ms alive page) as L. unfold len in *. lia. }
  rewrite live_le_val by done. rewrite <- loadu_payload by done. f_equal.
  apply (mask_ext OFFSET_WORDS); [apply payload_words_wf|apply offsets_mask_wf|]. intros i Hi. change (64 * _) with 512 in Hi.
  apply eq_true_iff_eq. rewrite (page_mask_bit k Hk alive Hfa). split.
  - intros Hb. pose proof (Hsub i Hi Hb) as (m & Hm & Eb & Eo)%(page_mask_bit k Hk ms Hf). exists m. split; [|done].
    apply list_elem_of_filter. split; [|done]. pose proof (proj1 (list.Forall_forall _ _) Hf m Hm) as Hw.
    pose proof (page_of_block k m Hk Hw) as Epg. assert (page_of (member_root m) = page) as -> by lia.
    rewrite Ep. cbn [default from_option]. unfold id. by replace (root_offset (member_root m) - 1) with i by lia.
  - intros (m & [Hb Hm]%list_elem_of_filter & Eb & Eo). pose proof (proj1 (list.Forall_forall _ _) Hf m Hm) as Hw.
    pose proof (page_of_block k m Hk Hw) as Epg. assert (page_of (member_root m) = page) as Epage by lia.
    rewrite Epage, Ep in Hb. cbn [default from_option] in Hb. unfold id in Hb. by replace (root_offset (member_root m) - 1) with i in Hb by lia.
Qed.
Lemma segment_open_iff mbytes lbytes g : small mbytes -> small lbytes ->
  segment_open mbytes lbytes = Ok g <->
  exists k ms alive, group_wf k ms alive /\ mbytes = members_record k ms /\ lbytes = live_record k ms alive /\ g = group_view k ms alive.
Proof.
  intros Hsm Hsl. unfold segment_open. split.
  - intros H. apply rbind_ok in H as (v & Hv & H). apply members_open_iff in Hv as (k & ms & Hwf & Em & ->); [|done].
    apply rbind_ok in H as (b & Hb & H). apply bitmap_open_iff in Hb as (h & ps & Hr & El & ->); [|done].
    apply if_err_ok in H as [(Hkind & Hkey & Hpg)%live_head_foreign H]. apply rbind_ok in H as (u & Hloop & H). injection H as <-.
    change (header_mask (members_header (members_view k ms))) with (members_mask ms) in Hloop. apply foldM_each_ok in Hloop.
    change (header_key h = k) in Hkey. change (header_mask h = members_mask ms) in Hpg.
    assert (Hh : h = live_head k ms).
    { destruct Hr as (_ & Hk12 & Hc & _). unfold live_head, header_of. destruct h as [hk hn hc hm]. cbn in *. subst.
      unfold bitmap_kind in Hkind. cbn in Hkind. destruct Hk12 as [-> | ->]; [done|done]. }
    set (alive := live_members h ps ms). exists k, ms, alive.
    assert (Eps : ps = live_payloads k ms alive).
    { unfold live_payloads. rewrite <- Hpg. apply payloads_by_page; [done|]. rewrite Hpg. intros page Hin.
      pose proof (proj1 (list.Forall_forall _ _) Hloop page Hin) as Hc. destruct (page_fits k ms Hwf page Hin) as (Hp & Hok & Hfit).
      apply check_live_page_ok in Hc as (p & Ep & Hl & Hsub); [|done..]. rewrite Ep. f_equal.
      apply live_members_payload; [done..| |done]. rewrite Hl. by apply (payload_len_width k _ (proj1 Hwf)). }
    split_and!; [split; [done|apply sublist_filter]|done| |].
    + unfold live_record. by rewrite <- Hh, <- Eps.
    + unfold group_view, live_view. by rewrite <- Hh, <- Eps.
  - intros (k & ms & alive & Hg & -> & -> & ->). pose proof Hg as [Hwf _]. pose proof (live_record_wf k ms Hwf alive) as Hr.
    rewrite (proj2 (members_open_iff (members_record k ms) (members_view k ms) Hsm)) by eauto. cbn [rbind].
    rewrite (proj2 (bitmap_open_iff (live_record k ms alive) (live_view k ms alive) Hsl)) by by eexists _, _. cbn [rbind].
    rewrite (proj2 (live_head_foreign k ms (live_view k ms alive))) by done.
    change (header_mask (members_header (members_view k ms))) with (members_mask ms).
    rewrite (proj2 (foldM_each_ok (check_live_page (members_view k ms) (live_view k ms alive)) _ tt)); [done|].
    apply list.Forall_forall. intros page Hin. destruct (page_fits k ms Hwf page Hin) as (Hp & Hok & Hfit).
    apply check_live_page_ok; [done..|]. exists (live_payload k ms alive page).
    rewrite live_payload_view, len_live_payload, live_words by done. split_and!; [|done|intros i _; by apply page_mask_sub].
    destruct Hwf as (Hk & Hf & _). apply elem_of_pages in Hin as [_ ->]; [done|]. by apply (members_mask_ok k ms Hk Hf).
Qed.

(** ** Clearing one bit of an image *)
Lemma byte_ext x y : (forall i, i < 8 -> N.testbit x i = N.testbit y i) -> byte_of x = byte_of y.
Proof.
  intros H. rewrite <- (byte_of_mod x), <- (byte_of_mod y). f_equal. change 256 with (2 ^ 8). apply N.bits_inj. intros i.
  destruct (decide (i < 8)); [rewrite !N.mod_pow2_bits_low by done; by apply H|by rewrite !N.mod_pow2_bits_high by lia].
Qed.
Lemma le_bytes_lookup n v i : (i < n)%nat -> le_bytes n v !! i = Some (byte_of (N.shiftr v (8 * N.of_nat i))).
Proof.
  revert v i; induction n as [|n IH]; intros v i Hi; [lia|]. destruct i as [|i]; cbn [le_bytes].
  - by rewrite N.mul_0_r, N.shiftr_0_r.
  - cbn [lookup list_lookup]. change (list_lookup i (le_bytes n (v / 256))) with (le_bytes n (v / 256) !! i).
    rewrite IH by lia. do 2 f_equal. replace (8 * N.of_nat (S i)) with (8 + 8 * N.of_nat i) by lia.
    rewrite <- N.shiftr_shiftr. f_equal. by rewrite N.shiftr_div_pow2.
Qed.
Lemma byte_testbit x i : i < 8 -> N.testbit (byte_val (byte_of x)) i = N.testbit x i.
Proof. intros. rewrite byte_val_of. change 256 with (2 ^ 8). by apply N.mod_pow2_bits_low. Qed.
Lemma le_bytes_clear n v v' bit b : bit < 8 * N.of_nat n -> index (le_bytes n v) (bit / 8) = Some b ->
  (forall i, N.testbit v' i = N.testbit v i && negb (i =? bit)) ->
  <[N.to_nat (bit / 8) := clear_bits b (N.shiftl 1 (bit mod 8))]> (le_bytes n v) = le_bytes n v'.
Proof.
  intros Hb Eb Hv. assert (Hj : (N.to_nat (bit / 8) < n)%nat) by dlia.
  unfold index in Eb. rewrite le_bytes_lookup in Eb by done. apply Some_inj' in Eb as <-. rewrite N2Nat.id.
  apply list_eq. intros i. destruct (decide (i < n)%nat) as [Hi|Hi].
  - rewrite (le_bytes_lookup n v' i) by done. destruct (decide (N.to_nat (bit / 8) = i)) as [<-|Hne].
    + rewrite list_lookup_insert_eq by by rewrite length_le_bytes. f_equal. unfold clear_bits. apply byte_ext. intros r Hr.
      rewrite N2Nat.id, N.land_spec, not_w_testbit, byte_testbit, !N.shiftr_spec', pow2_testbit, Hv by done.
      rewrite (proj2 (N.ltb_lt r 8)), xorb_true_r by done. do 2 f_equal.
      pose proof (N.div_mod' bit 8) as E. revert E. generalize (bit / 8) (bit mod 8). intros q s ->.
      destruct (N.eqb_spec r s), (N.eqb_spec (r + 8 * q) (8 * q + s)); done || lia.
    + rewrite list_lookup_insert_ne, le_bytes_lookup by done. f_equal. apply byte_ext. intros r Hr.
      rewrite !N.shiftr_spec', Hv. destruct (N.eqb_spec (r + 8 * N.of_nat i) bit) as [E|]; [|by rewrite andb_true_r].
      exfalso. apply Hne. dlia.
  - rewrite !lookup_ge_None_2; [done|..]; rewrite ?length_insert, length_le_bytes; lia.
Qed.
Lemma land_pow2 x i : (N.land x (N.shiftl 1 i) =? 0) = negb (N.testbit x i).
Proof.
  destruct (N.testbit x i) eqn:E; cbn [negb].
  - apply N.eqb_neq. intros H0. apply (f_equal (fun y => N.testbit y i)) in H0.
    by rewrite N.land_spec, pow2_testbit, E, N.eqb_refl, N.bits_0 in H0.
  - apply N.eqb_eq, N.bits_inj_0. intros j. rewrite N.land_spec, pow2_testbit.
    destruct (N.eqb_spec j i) as [->|]; [by rewrite E|by rewrite andb_false_r].
Qed.
(** A payload of the same width leaves the rest of the record alone. *)
Lemma directory_replace start before p p' after : len p' = len p ->
  directory start (before ++ p' :: after) = directory start (before ++ p :: after).
Proof. intros Hl. rewrite !directory_app. cbn [directory]. by rewrite Hl. Qed.
Lemma record_insert h ps page p j b : record_wf h ps -> page < 256 -> payload h ps page = Some p -> (j < length p)%nat ->
  <[(N.to_nat (payload_start h ps page) + j)%nat := b]> (record_bytes h ps) =
    record_bytes h (<[N.to_nat (rank (header_mask h) page) := <[j := b]> p]> ps).
Proof.
  intros Hwf Hp E Hj. pose proof (payload_view h ps page Hwf Hp) as Hv. rewrite E in Hv.
  destruct Hv as (_ & _ & before & after & E1 & E2). pose proof Hwf as (Hh & _).
  assert (El : len (<[j := b]> p) = len p) by apply len_insert.
  unfold payload_start. rewrite <- E2, to_nat_len. rewrite E1 at 2 4. rewrite take_app_length, insert_app_r_alt, Nat.sub_diag by lia.
  change (<[0%nat:=<[j:=b]> p]> (p :: after)) with (<[j:=b]> p :: after).
  unfold record_bytes. rewrite (directory_replace 0 before p) by done. rewrite <- E1.
  assert (Er : record_len (before ++ <[j:=b]> p :: after) = record_len ps).
  { subst ps. unfold record_len. rewrite !len_app, !len_cons, !concat_app, !len_app. cbn [concat]. by rewrite !len_app, El. }
  rewrite Er. pose proof (len_header_bytes h (record_len ps) Hh) as Hlh. pose proof (len_directory 0 ps) as Hld.
  assert (Ec : concat ps = concat before ++ p ++ concat after) by by rewrite E1, concat_app.
  rewrite Ec, concat_app. cbn [concat]. unfold len in Hlh, Hld.
  unfold len, DIRECTORY_BYTES in *. do 3 rewrite insert_app_r_alt by lia.
  rewrite insert_app_l by lia. do 4 f_equal. apply (f_equal (fun i => <[i := b]> p)). lia.
Qed.

(** Each page of an image reads as the members that are alive on it. *)
Lemma live_offsets_view k ms alive page : group_wf k ms alive -> page < 256 ->
  offsets_at (live_view k ms alive) page = Ok (page_mask k alive page).
Proof.
  intros Hg Hp. pose proof (group_wf_sub _ _ _ Hg) as (Hk & Hfa & _). pose proof Hg as [Hwf Hsub]. pose proof Hwf as (_ & Hf & _).
  pose proof (live_record_wf k ms Hwf alive) as Hr. pose proof (members_mask_ok k ms Hk Hf) as Hm.
  unfold live_view. rewrite offsets_view, live_payload_view by done. destruct (mask_bit (members_mask ms) page) eqn:Hb.
  - assert (Hin : page ∈ pages (members_mask ms)) by (apply elem_of_pages; [apply Hm|done]). rewrite live_words by done.
    assert (Epk : payload_ok (bitmap_kind (view (live_head k ms) (live_payloads k ms alive))) (header_key (live_head k ms)) (live_payload k ms alive page) = true);
      [|by rewrite Epk]. change (bitmap_kind _) with Liveness. change (header_key _) with k. unfold payload_ok. rewrite andb_true_r, live_le_val by done.
    apply N.leb_le. unfold page_mask. destruct (decide (of_block (base k + page) alive = [])) as [->|Hne]; [change (N.size _) with 0; apply N.le_0_l|].
    apply (offsets_mask_fits k (of_block (base k + page) alive) Hk (of_block_wf k alive Hfa _) Hne).
  - f_equal. unfold page_mask. assert (of_block (base k + page) alive = []) as ->; [|done].
    destruct (of_block (base k + page) alive) as [|m l] eqn:E; [done|]. exfalso.
    assert (Hm1 : m ∈ of_block (base k + page) alive) by (rewrite E; left). apply list_elem_of_filter in Hm1 as [Eb Hm1].
    apply not_true_iff_false in Hb. apply Hb, (of_block_nonempty k Hk ms Hf page Hp). intros E2.
    assert (Hm2 : m ∈ of_block (base k + page) ms) by (apply list_elem_of_filter; split; [done|by eapply elem_of_sublist]).
    rewrite E2 in Hm2. by apply elem_of_nil in Hm2.
Qed.

(** ** Retirement *)
Section Retire.
Context (k : GroupKey) (ms alive : list Member) (Hg : group_wf k ms alive).
Lemma the_members : members_wf k ms.
Proof. apply Hg. Qed.
Lemma alive_in m : m ∈ alive -> m ∈ ms.
Proof. intros Hm. destruct Hg as [_ Hs]. by eapply elem_of_sublist. Qed.
Definition without (m : Member) : list Member := filter (fun x => x <> m) alive.
Lemma without_wf m : group_wf k ms (without m).
Proof. split; [apply Hg|]. etrans; [apply sublist_filter|apply Hg]. Qed.
Lemma member_page m : m ∈ ms -> page_of (member_root m) ∈ pages (members_mask ms).
Proof.
  intros Hm. destruct the_members as (Hk & Hf & _). apply elem_of_pages; [by apply (members_mask_ok k)|].
  split; [apply page_of_lt|]. apply members_mask_bit. eauto.
Qed.
Lemma member_bit l m : l ⊆ ms -> m ∈ ms ->
  mask_bit (page_mask k l (page_of (member_root m))) (root_offset (member_root m) - 1) = true <-> m ∈ l.
Proof.
  intros Hl Hm. pose proof the_members as Hwf. destruct Hwf as (Hk & Hf & _).
  pose proof (proj1 (list.Forall_forall _ _) Hf m Hm) as Hw. pose proof (member_offset_lt k m Hk Hw) as Ho.
  rewrite (page_mask_bit k Hk l), <- (page_of_block k m Hk Hw).
  2:{ apply list.Forall_forall. intros x Hx. by apply (proj1 (list.Forall_forall _ _) Hf), Hl. }
  split.
  - intros (x & Hx & Eb & Eo). replace m with x; [done|]. apply (same_root k ms the_members); [by apply Hl|done|].
    destruct (member_root x), (member_root m). cbn in *. f_equal; lia.
  - intros Hin. exists m. split_and!; [done|done|lia].
Qed.
Lemma without_bit m i : m ∈ ms ->
  N.testbit (loadu (page_mask k (without m) (page_of (member_root m)))) i =
  N.testbit (loadu (page_mask k alive (page_of (member_root m)))) i && negb (i =? root_offset (member_root m) - 1).
Proof.
  intros Hm. rewrite !loadu_bit by apply offsets_mask_wf. pose proof (group_wf_sub _ _ _ Hg) as (Hk & Hfa & _).
  pose proof (group_wf_sub _ _ _ (without_wf m)) as (_ & Hfw & _). pose proof (member_in k ms the_members m Hm) as Hw.
  pose proof (page_of_block k m Hk Hw) as Eb. pose proof (member_offset_lt k m Hk Hw) as Ho.
  apply eq_true_iff_eq. rewrite andb_true_iff, negb_true_iff, N.eqb_neq, (page_mask_bit k Hk _ Hfw), (page_mask_bit k Hk _ Hfa). split.
  - intros (x & [Hne Hx]%list_elem_of_filter & Exb & Exo). split; [by exists x|]. intros ->. apply Hne.
    apply (same_root k ms the_members); [by apply alive_in|done|].
    destruct (member_root x), (member_root m). cbn in *. f_equal; lia.
  - intros [(x & Hx & Exb & Exo) Hi]. exists x. split; [|done]. apply list_elem_of_filter. split; [|done].
    intros ->. apply Hi. lia.
Qed.
Lemma without_other m page : m ∈ ms -> page <> page_of (member_root m) -> page_mask k (without m) page = page_mask k alive page.
Proof.
  intros Hm Hp. unfold page_mask, without, of_block. rewrite list_filter_filter. f_equal. apply filter_ext_in. intros x _.
  split; [by intros [? _]|]. intros Eb. split; [done|]. intros ->. apply Hp.
  rewrite (page_of_block k m) in Eb; [lia|apply the_members|by apply (member_in k ms the_members)].
Qed.
(** The image after its one byte was written. *)
Lemma retire_image m b : m ∈ ms -> let page := page_of (member_root m) in let bit := root_offset (member_root m) - 1 in
  index (live_payload k ms alive page) (bit / 8) = Some b ->
  <[N.to_nat (payload_start (live_head k ms) (live_payloads k ms alive) page + bit / 8) := clear_bits b (N.shiftl 1 (bit mod 8))]>
    (live_record k ms alive) = live_record k ms (without m).
Proof.
  intros Hm page bit Eb. pose proof the_members as Hwf. pose proof (live_record_wf k ms Hwf alive) as Hr.
  pose proof (member_page m Hm) as Hin. fold page in Hin. destruct (page_fits k ms Hwf page Hin) as (Hp & _ & _).
  pose proof (members_mask_ok k ms (proj1 Hwf) (proj1 (proj2 Hwf))) as [Hmw _].
  assert (Hb : mask_bit (members_mask ms) page = true) by (by apply elem_of_pages in Hin as [_ ?]).
  pose proof (live_payload_view k ms Hwf alive page Hp) as Ep. rewrite Hb in Ep.
  assert (Hj : (N.to_nat (bit / 8) < length (live_payload k ms alive page))%nat) by (unfold index in Eb; by apply lookup_lt_Some in Eb).
  unfold live_record at 1. rewrite N2Nat.inj_add, (record_insert _ _ page _ _ _ Hr Hp Ep Hj). unfold live_record. f_equal.
  assert (Ec : <[N.to_nat (bit / 8) := clear_bits b (N.shiftl 1 (bit mod 8))]> (live_payload k ms alive page) = live_payload k ms (without m) page).
  { unfold live_payload in *. apply le_bytes_clear; [|done|intros i; by apply without_bit]. rewrite length_le_bytes in Hj.
    dlia. }
  rewrite Ec. cbn [live_head header_of header_mask]. unfold live_payloads. apply list_eq. intros i.
  pose proof (rank_lookup _ _ Hmw Hp Hb) as Hrank. destruct (decide (i = N.to_nat (rank (members_mask ms) page))) as [->|Hne].
  - rewrite list_lookup_insert_eq by (rewrite length_fmap; by eapply lookup_lt_Some). by rewrite list_lookup_fmap, Hrank.
  - rewrite list_lookup_insert_ne, !list_lookup_fmap by done. destruct (pages (members_mask ms) !! i) as [p2|] eqn:E2; [|done]. cbn. f_equal.
    unfold live_payload. rewrite without_other; [done|done|]. intros ->. apply Hne.
    by apply (NoDup_lookup (pages (members_mask ms)) _ _ page); [eapply asc_NoDup; by apply pages_asc|..].
Qed.
Lemma retire_byte m : m ∈ ms -> let page := page_of (member_root m) in let bit := root_offset (member_root m) - 1 in
  exists b, index (live_payload k ms alive page) (bit / 8) = Some b /\
    index (live_record k ms alive) (payload_start (live_head k ms) (live_payloads k ms alive) page + bit / 8) = Some b /\
    N.testbit (byte_val b) (bit mod 8) = mask_bit (page_mask k alive page) bit.
Proof.
  intros Hm page bit. pose proof the_members as Hwf. pose proof Hwf as (Hk & Hf & _). pose proof (live_record_wf k ms Hwf alive) as Hr.
  pose proof (member_page m Hm) as Hin. fold page in Hin. destruct (page_fits k ms Hwf page Hin) as (Hp & _ & _).
  pose proof (live_payload_view k ms Hwf alive page Hp) as Ep.
  rewrite (proj2 (proj1 (elem_of_pages _ _ (proj1 (members_mask_ok k ms Hk Hf))) Hin)) in Ep.
  assert (Hlt : bit < N.size (loadu (page_mask k ms page))).
  { apply N.lt_nge. intros Hge. assert (Hb : mask_bit (page_mask k ms page) bit = true) by by apply member_bit.
    rewrite <- loadu_bit, (testbit_high _ (N.size (loadu (page_mask k ms page)))) in Hb; [done|apply N.size_gt|done|apply offsets_mask_wf]. }
  assert (Hj : bit / 8 < payload_len (page_mask k ms page)) by (unfold payload_len, div_ceil; dlia).
  exists (byte_of (N.shiftr (loadu (page_mask k alive page)) (8 * (bit / 8)))). split_and!.
  - unfold index, live_payload. rewrite le_bytes_lookup by lia. by rewrite N2Nat.id.
  - pose proof (slice_payload _ _ page _ Hr Hp Ep) as Hs. apply slice_ok in Hs as (_ & _ & Hs).
    assert (Ei : index (live_payload k ms alive page) (bit / 8) = Some (byte_of (N.shiftr (loadu (page_mask k alive page)) (8 * (bit / 8))))).
    { unfold index, live_payload. rewrite le_bytes_lookup by lia. by rewrite N2Nat.id. }
    rewrite <- Ei. unfold index. rewrite Hs, lookup_take_lt, lookup_drop by (rewrite len_live_payload; lia). f_equal. lia.
  - rewrite byte_testbit, N.shiftr_spec' by by apply N.mod_lt. rewrite loadu_bit by apply offsets_mask_wf. f_equal.
    rewrite (N.div_mod' bit 8) at 3. lia.
Qed.
Lemma retire_eq m : retire (members_view k ms) m (live_record k ms alive) =
  if bool_decide (m ∈ ms) then (Ok (bool_decide (m ∈ alive)), live_record k ms (without m)) else (Err InvalidState, live_record k ms alive).
Proof.
  pose proof the_members as Hwf. pose proof Hwf as (Hk & Hf & _). unfold retire. rewrite members_find_view by done. rewrite ebind_ok.
  rewrite (bool_decide_ext _ _ (find_root_some k ms Hwf m)). destruct (bool_decide_reflect (m ∈ ms)) as [Hm|]; [|done]. cbn [negb]. rewrite ebind_get.
  pose proof (live_record_wf k ms Hwf alive) as Hr.
  assert (Hs : small (live_record k ms alive)).
  { unfold small, live_record. rewrite (len_record _ _ Hr). pose proof (record_len_le _ _ Hr).
    unfold MAX_BITMAP_BYTES, GROUP_HEADER_BYTES, GROUP_PAGES, DIRECTORY_BYTES in *. unfold isize_max. lia. }
  rewrite (proj2 (bitmap_open_iff (live_record k ms alive) (live_view k ms alive) Hs)) by by eexists _, _. rewrite ebind_ok.
  rewrite (proj2 (live_head_foreign k ms (live_view k ms alive))) by done. cbv zeta.
  set (page := page_of (member_root m)). set (bit := root_offset (member_root m) - 1).
  pose proof (member_page m Hm) as Hin. fold page in Hin. destruct (page_fits k ms Hwf page Hin) as (Hp & Hok & Hfit).
  assert (Hb : mask_bit (members_mask ms) page = true) by (apply elem_of_pages in Hin as [_ ?]; [done|by apply (members_mask_ok k)]).
  pose proof (live_payload_view k ms Hwf alive page Hp) as Ep. rewrite Hb in Ep.
  rewrite live_offsets_view by done. rewrite ebind_ok. unfold live_view.
  rewrite (members_page_offsets_view k ms Hwf) by done. fold (page_mask k ms page). rewrite ebind_ok.
  rewrite (proj2 (any_outside_spec (page_mask k alive page) (page_mask k ms page) (offsets_mask_wf _) (offsets_mask_wf _))) by (intros i _; by apply page_mask_sub).
  rewrite span_view, Ep by done. cbn [fmap option_fmap option_map]. rewrite ebind_ok, len_live_payload.
  change (members_key (members_view k ms)) with k. rewrite bitmap_len_fits by done. rewrite ebind_ok, N.eqb_refl. cbn [negb].
  pose proof (member_in k ms Hwf m Hm) as Hw. pose proof (member_offset_lt k m Hk Hw) as Ho.
  rewrite sub_w_fits by lia. rewrite ebind_ok. cbv zeta. fold bit.
  destruct (retire_byte m Hm) as (b & Eb & El & Et). fold page bit in Eb, El, Et. rewrite El. cbn [or_panic]. rewrite ebind_ok.
  pose proof (retire_image m b Hm Eb) as Ei. cbv zeta in Ei. fold page bit in Ei. unfold ebind, eput, eret. rewrite Ei, land_pow2, Et, negb_involutive. do 2 f_equal. apply eq_true_iff_eq.
  rewrite bool_decide_eq_true. apply (member_bit alive m); [exact alive_in|done].
Qed.
(** Every check comes before the one write. *)
Lemma retire_intact members member live : intact (retire members member) live.
Proof.
  unfold retire. apply intact_bind. intros found. apply intact_if; [apply intact_lift|]. apply intact_get, intact_bind. intros view.
  apply intact_if; [apply intact_lift|]. do 2 (apply intact_bind; intros ?). apply intact_if; [apply intact_lift|]. apply intact_bind.
  intros [[start n]|]; [|apply intact_lift]. apply intact_bind. intros expected. apply intact_if; [apply intact_lift|].
  apply intact_bind. intros bit. cbv zeta. apply intact_bind. intros b. apply intact_put.
Qed.
End Retire.

(** ** No panic *)
Lemma check_live_page_safe k ms h ps page : members_wf k ms -> record_wf h ps -> header_key h = k ->
  page ∈ pages (members_mask ms) -> safe (check_live_page (members_view k ms) (view h ps) page).
Proof.
  intros Hwf Hr Hkey Hin. destruct (page_fits k ms Hwf page Hin) as (Hp & Hok & Hfit). unfold check_live_page.
  rewrite (members_page_offsets_view k ms Hwf), offsets_view, payload_bytes_view by done. cbn [rbind].
  destruct (payload h ps page) as [p|]; [destruct (payload_ok _ _ p)|]; cbn [rbind]; try done;
    (apply safe_bind; [apply bitmap_len_safe|]); intros; by apply safe_if.
Qed.
Lemma segment_open_safe mbytes lbytes : small mbytes -> small lbytes -> safe (segment_open mbytes lbytes).
Proof.
  intros Hsm Hsl. unfold segment_open. apply safe_bind; [apply members_open_safe|]. intros v Hv.
  apply members_open_iff in Hv as (k & ms & Hwf & _ & ->); [|done]. apply safe_bind; [apply bitmap_open_safe|]. intros b Hb.
  apply bitmap_open_iff in Hb as (h & ps & Hr & _ & ->); [|done]. apply safe_if; [done|]. intros (_ & Hkey & _)%live_head_foreign.
  apply safe_bind; [|done]. apply (foldM_safe _ (fun _ => True)); [done|]. intros [] page Hin _. split; [|done].
  by apply check_live_page_safe.
Qed.
Lemma encode_liveness_live k ms : sealed k ms Liveness = live_record k ms ms.
Proof. done. Qed.
Lemma live_record_small k ms alive : members_wf k ms -> small (live_record k ms alive).
Proof.
  intros Hwf. pose proof (live_record_wf k ms Hwf alive) as Hr. unfold small, live_record. rewrite (len_record _ _ Hr).
  pose proof (record_len_le _ _ Hr). unfold MAX_BITMAP_BYTES, GROUP_HEADER_BYTES, GROUP_PAGES, DIRECTORY_BYTES in *. unfold isize_max. lia.
Qed.

(** * Properties *)

(** a group's membership round-trips: [encode_members] succeeds exactly on members
    of the group in strict coordinate order, when the output has room; the bytes it
    writes open to a membership from which [get] reads every member back in order and
    [find] the one member of a coordinate; and [open] never panics on any bytes and
    accepts nothing but such an encoding. *)
Theorem members_roundtrip k ms output : key_wf k -> Forall member_value ms -> small output ->
  ((exists n out, encode_members k ms output = Ok (n, out)) <->
     Forall (member_wf k) ms /\ asc 0 (member_key <$> ms) /\ members_size ms <= len output) /\
  (forall n out, encode_members k ms output = Ok (n, out) ->
     drop (N.to_nat n) out = drop (N.to_nat n) output /\
     exists v, members_open (take (N.to_nat n) out) = Ok v /\ members_key v = k /\ members_len v = len ms /\
       (forall i, members_get v i = ok_or (index ms i) InvalidParameters) /\
       (forall r, members_find v r = Ok (find_root r ms))) /\
  (forall bs, small bs -> members_open bs <> Panic /\
     forall v, members_open bs = Ok v <-> exists k ms, members_wf k ms /\ bs = members_record k ms /\ v = members_view k ms).
Proof.
  intros Hk Hv Hs. split_and!.
  - split.
    + intros (n & out & H). apply encode_members_iff in H as ((_ & ? & ?) & -> & ? & _); done.
    + intros (Hf & Ha & Hl). eexists _, _. by apply encode_members_iff.
  - intros n out H. apply encode_members_iff in H as (Hwf & -> & Hl & ->); [|done..].
    assert (Hn : N.to_nat (members_size ms) = length (members_record k ms)).
    { rewrite <- (len_members_record k ms Hwf). apply to_nat_len. }
    rewrite Hn, drop_app_length, take_app_length. split; [done|]. exists (members_view k ms). split_and!; [|done|done| |].
    + apply members_open_iff; [by apply members_record_small|]. eauto.
    + intros i. by apply members_get_view.
    + intros r. by apply (members_find_view k).
  - intros bs Hb. split; [apply members_open_safe|]. intros v. by apply members_open_iff.
Qed.

(** C29: a term's posting in a group names only owners of the membership:
    [encode_posting] succeeds exactly on members of the group (coordinate and
    incarnation) in strict order, when the output has room, and the bytes open to a
    posting bitmap of the group's key whose page masks are exactly the coordinates
    given, on every page and offset. *)
Theorem posting_sealed k ms l output n out : members_wf k ms -> small output ->
  (encode_posting (members_view k ms) l output = Ok (n, out) <->
     (l ⊆ ms /\ asc 0 (member_key <$> l)) /\ n = len (sealed k l Posting) /\ n <= len output /\
     out = sealed k l Posting ++ drop (N.to_nat n) output) /\
  (l ⊆ ms -> asc 0 (member_key <$> l) ->
     exists b, bitmap_open (sealed k l Posting) = Ok b /\ bitmap_key b = k /\ bitmap_kind b = Posting /\
       forall page, page < 256 -> exists m, offsets_at b page = Ok m /\
         forall i, mask_bit m i = true <->
           exists x, x ∈ l /\ block (member_root x) = base k + page /\ root_offset (member_root x) = i + 1).
Proof.
  intros Hwf Hs. split; [by apply encode_posting_iff|]. intros Hsub Ha.
  destruct (members_wf_sub k ms l Hwf Hsub Ha) as (Hk & Hf & _). exists (sealed_view k l Posting).
  split_and!; [by apply sealed_open|done|apply encoded_kind|]. intros page Hp. exists (page_mask k l page).
  split; [by apply sealed_offsets|]. intros i. by apply page_mask_bit.
Qed.

(** C28: a segment group is a membership and the part of it that is alive:
    [SegmentGroup::open] never panics, and accepts two byte strings exactly when the
    first encodes a membership and the second the liveness of some of its members, at
    the width of the full membership; [encode_liveness] writes the image in which every
    member is alive. *)
Theorem segment_open_exact mbytes lbytes : small mbytes -> small lbytes ->
  segment_open mbytes lbytes <> Panic /\
  (forall g, segment_open mbytes lbytes = Ok g <->
     exists k ms alive, members_wf k ms /\ alive `sublist_of` ms /\
       mbytes = members_record k ms /\ lbytes = live_record k ms alive /\ g = group_view k ms alive) /\
  (forall k ms n out output, members_wf k ms -> small output -> encode_liveness (members_view k ms) output = Ok (n, out) ->
     take (N.to_nat n) out = live_record k ms ms).
Proof.
  intros Hsm Hsl. split_and!; [by apply segment_open_safe| |].
  - intros g. rewrite segment_open_iff by done. unfold group_wf. naive_solver.
  - intros k ms n out output Hwf Hs H. rewrite (encode_liveness_eq k ms Hwf) in H by done. apply if_err_ok in H as [_ H].
    apply Ok_inj, pair_equal_spec in H as [<- <-]. rewrite to_nat_len, take_app_length. apply encode_liveness_live.
Qed.

(** C5: retirement removes one incarnation: on the image of a group, [retire] refuses
    whoever is not a member (coordinate and incarnation) and leaves the image as it was;
    otherwise the new image is that of the group without this member and with every other
    one as it was, the result says whether it was alive, retiring it again changes
    nothing, and the group opens again. On any bytes, with any membership, a call that
    fails has not written. *)
Theorem retire_exact k ms alive m : members_wf k ms -> alive `sublist_of` ms ->
  let alive' := filter (fun x => x <> m) alive in
  retire (members_view k ms) m (live_record k ms alive) =
    (if bool_decide (m ∈ ms) then (Ok (bool_decide (m ∈ alive)), live_record k ms alive') else (Err InvalidState, live_record k ms alive)) /\
  (m ∈ ms -> retire (members_view k ms) m (live_record k ms alive') = (Ok false, live_record k ms alive')) /\
  segment_open (members_record k ms) (live_record k ms alive') = Ok (group_view k ms alive') /\
  forall members member live, intact (retire members member) live.
Proof.
  intros Hwf Hsub alive'. assert (Hg : group_wf k ms alive) by done. pose proof (without_wf k ms alive Hg m) as Hg'.
  change (without alive m) with alive' in Hg'. split_and!.
  - by apply (retire_eq k ms alive Hg).
  - intros Hm. rewrite (retire_eq k ms alive' Hg' m). rewrite bool_decide_eq_true_2 by done.
    assert (Hnot : m ∉ alive') by (by intros [? _]%list_elem_of_filter). rewrite bool_decide_eq_false_2 by done. f_equal.
    unfold without. f_equal. apply filter_all. by intros x [? _]%list_elem_of_filter.
  - apply segment_open_iff; [by apply members_record_small|by apply live_record_small|]. by exists k, ms, alive'.
  - exact retire_intact.
Qed.

Definition sample_members : list Member :=
  [mkMember (mkRootTid 515 1) 11; mkMember (mkRootTid 515 9) 12; mkMember (mkRootTid 700 291) 11].
Definition sample_seal : N * list byte :=
  match encode_members sample_key sample_members (replicate 150 (byte_of 0)) with Ok r => r | _ => (0, []) end.
Lemma sample_members_wf : members_wf sample_key sample_members.
Proof. split_and!; [exact sample_key_wf|repeat constructor; done|done]. Defined.
Lemma members_roundtrip_witness : fst sample_seal = 120 /\ exists v, members_open (take 120 (snd sample_seal)) = Ok v /\
  members_find v (mkRootTid 515 9) = Ok (Some (mkMember (mkRootTid 515 9) 12)).
Proof.
  split; [vm_compute; reflexivity|].
  destruct (members_roundtrip sample_key sample_members (replicate 150 (byte_of 0)) sample_key_wf) as (_ & H & _);
    [repeat constructor; done|vm_compute; discriminate|].
  destruct (H 120 (snd sample_seal)) as (_ & v & Hv & _ & _ & _ & Hf); [vm_compute; reflexivity|].
  exists v. split; [exact Hv|]. rewrite Hf. vm_compute. reflexivity.
Defined.
Definition sample_term : list Member := [mkMember (mkRootTid 515 9) 12].
Lemma sample_term_sub : sample_term ⊆ sample_members.
Proof. intros x [->|Hx]%elem_of_cons; [right; left|by apply elem_of_nil in Hx]. Defined.
Lemma posting_sealed_witness : exists b, bitmap_open (sealed sample_key sample_term Posting) = Ok b /\ bitmap_kind b = Posting.
Proof.
  destruct (posting_sealed sample_key sample_members sample_term (replicate 100 (byte_of 0)) 78
    (sealed sample_key sample_term Posting ++ drop 78 (replicate 100 (byte_of 0))) sample_members_wf) as [_ H]; [vm_compute; discriminate|].
  destruct (H sample_term_sub ltac:(done)) as (b & Hb & _ & Hk & _). exists b. split; [exact Hb|exact Hk].
Defined.
Lemma segment_open_exact_witness :
  segment_open (members_record sample_key sample_members) (live_record sample_key sample_members sample_term)
    = Ok (group_view sample_key sample_members sample_term).
Proof.
  apply (segment_open_exact (members_record sample_key sample_members) (live_record sample_key sample_members sample_term));
    [vm_compute; discriminate|vm_compute; discriminate|].
  exists sample_key, sample_members, sample_term. split; [exact sample_members_wf|].
  split; [apply sublist_cons, sublist_skip, sublist_nil_l|]. split; [reflexivity|]. split; reflexivity.
Defined.
Lemma retire_exact_witness :
  retire (members_view sample_key sample_members) (mkMember (mkRootTid 515 9) 12) (live_record sample_key sample_members sample_term)
    = (Ok true, live_record sample_key sample_members []) /\
  retire (members_view sample_key sample_members) (mkMember (mkRootTid 515 9) 13) (live_record sample_key sample_members sample_term)
    = (Err InvalidState, live_record sample_key sample_members sample_term).
Proof.
  assert (Hs : sample_term `sublist_of` sample_members) by (apply sublist_cons, sublist_skip, sublist_nil_l).
  split.
  - destruct (retire_exact sample_key sample_members sample_term (mkMember (mkRootTid 515 9) 12) sample_members_wf Hs) as [E _].
    rewrite E. vm_compute. reflexivity.
  - destruct (retire_exact sample_key sample_members sample_term (mkMember (mkRootTid 515 9) 13) sample_members_wf Hs) as [E _].
    rewrite E. vm_compute. reflexivity.
Defined.
