(* ===== verification/GroupQuery.v ===== *)
(** Boolean evaluation inside a group: [src/crates/pin-core/src/grouped/query.rs].

    A program is a list of nodes in topological order. The evaluator first combines page
    summaries, then decodes offsets for the candidate pages only, and on each of these
    only the nodes that its result depends on. What it reads is behind the [Source]
    interface; the theorems are proved against the laws of that interface, and the
    source of sealed records in memory is an instance. They say that pruning loses
    nothing: what is emitted are exactly the coordinates that satisfy the program. *)
From S2P Require Export GroupMembers.

(** [MAX_NODES] *)
Definition MAX_NODES : N := 64.

Module Node.
(** [Node] *)
Inductive t : Type :=
| Term (term : N)
| All
| And (left right : N)
| Or (left right : N)
| Difference (left right : N)
| Not (child : N).
End Node.

(** [QueryScratch] and its [Default] *)
Record QueryScratch : Type := mkQueryScratch { scratch_pages : list (list N); scratch_offsets : list (list N) }.
Definition QueryScratch_default : QueryScratch :=
  mkQueryScratch (replicate 64 (replicate PAGE_WORDS 0)) (replicate 64 (replicate OFFSET_WORDS 0)).

(** [QueryStats] *)
Record QueryStats : Type := mkQueryStats {
  candidate_pages : N; live_pages : N; term_payloads : N; term_bytes : N; emitted_tids : N }.
Definition QueryStats_default : QueryStats := mkQueryStats 0 0 0 0 0.

(** [trait Source]: [&mut self] methods return the source after the call. *)
Class Source (T : Type) : Type := {
  source_key : T -> GroupKey;
  source_terms : T -> N;
  source_live_pages : T -> list N;
  source_term_pages : T -> N -> Result (list N);
  source_live_offsets : T -> N -> Result (list N * T);
  source_term_offsets : T -> N -> N -> Result (list N * N * T);
  source_interrupt : T -> Result T;
}.

(** [MemorySource]; the callback and its state. *)
Record MemorySource (I : Type) : Type := mkMemorySource {
  memory_segment : SegmentGroup;
  memory_terms : list Bitmap;
  memory_interrupt : I -> Result I;
  memory_state : I;
}.
Arguments mkMemorySource {I}.
Arguments memory_segment {I}.
Arguments memory_terms {I}.
Arguments memory_interrupt {I}.
Arguments memory_state {I}.
(** [impl Source for MemorySource] *)
Definition MemorySource_source (I : Type) : Source (MemorySource I) := {|
  source_key self := group_key (memory_segment self);
  source_terms self := len (memory_terms self);
  source_live_pages self := bitmap_pages (group_live (memory_segment self));
  source_term_pages self term := let* b := or_panic (index (memory_terms self) term) in Ok (bitmap_pages b);
  source_live_offsets self page := let* m := offsets_at (group_live (memory_segment self)) page in Ok (m, self);
  source_term_offsets self term page :=
    let* b := or_panic (index (memory_terms self) term) in
    let* m := offsets_at b page in
    let* n := payload_bytes b page in
    Ok (m, n, self);
  source_interrupt self :=
    let* s := memory_interrupt self (memory_state self) in
    Ok (mkMemorySource (memory_segment self) (memory_terms self) (memory_interrupt self) s);
|}.
#[export] Existing Instance MemorySource_source.

(** [program.iter().enumerate()] *)
Definition enumerate {A} (l : list A) : list (N * A) := zip (range 0 (len l)) l.
(** [array[index] = value], a panic out of range. *)
Definition set_at {E A} (l : list A) (i : N) (x : A) : res E (list A) :=
  if i <? len l then Ok (<[N.to_nat i := x]> l) else Panic.
(** [1 << index] at 64 bits; shifting by the width or more is an overflow. *)
Definition shl1 {E} (i : N) : res E N := if i <? 64 then Ok (N.shiftl 1 i) else Panic.

(** [operation] *)
Definition operation {E} (node : Node.t) : res E BitmapOp :=
  match node with
  | Node.And _ _ => Ok Kernels.Intersection
  | Node.Or _ _ => Ok Kernels.Union
  | Node.Difference _ _ => Ok Kernels.Difference
  | _ => Panic
  end.

(** [validate_program] *)
Definition valid_node (terms index : N) (node : Node.t) : bool :=
  match node with
  | Node.Term term => term <? terms
  | Node.All => true
  | Node.Not child => child <? index
  | Node.And l r | Node.Or l r | Node.Difference l r => (l <? index) && (r <? index)
  end.
Definition validate_program (terms : N) (program : list Node.t) : Result unit :=
  if (len program =? 0) || (MAX_NODES <? len program) || (MAX_NODES <? terms) then Err (Limit "group query nodes") else
  foldM (fun _ '(index, node) => if negb (valid_node terms index node) then Err InvalidParameters else Ok tt) tt (enumerate program).

(** The page loop that [evaluate_source] and [needed_terms] share. *)
Definition summarize (term_pages : N -> Result (list N)) (live : list N) (pages : list (list N)) (entry : N * Node.t)
  : Result (list (list N)) :=
  let '(i, node) := entry in
  let* value :=
    match node with
    | Node.Term term => let* p := term_pages term in Ok (candidates Kernels.Intersection p live live)
    | Node.All | Node.Not _ => Ok live
    | Node.And l r | Node.Or l r | Node.Difference l r =>
        let* op := operation node in
        let* a := or_panic (index pages l) in
        let* b := or_panic (index pages r) in
        Ok (candidates op a b live)
    end in
  set_at pages i value.

(** [dependencies] *)
Definition mark_dependencies (pages : list (list N)) (page needed : N) (entry : N * Node.t) : Result N :=
  let '(i, node) := entry in
  let* bit := shl1 i in
  if N.land needed bit =? 0 then Ok needed else
  let* summary := or_panic (index pages i) in
  if negb (contains summary page) then Ok needed else
  match node with
  | Node.Not child => let* c := shl1 child in Ok (N.lor needed c)
  | Node.And l r | Node.Or l r | Node.Difference l r =>
      let* a := shl1 l in
      let* b := shl1 r in
      Ok (N.lor needed (N.lor a b))
  | Node.Term _ | Node.All => Ok needed
  end.
Definition dependencies (program : list Node.t) (pages : list (list N)) (page : N) : Result N :=
  let* root := sub_w (len program) 1 in
  let* needed := shl1 root in
  foldM (mark_dependencies pages page) needed (reverse (enumerate program)).

Section Evaluate.
Context {T O : Type} `{Source T} (emit : O -> N -> list N -> Result O).

(** The inner loop of [evaluate_source] for one node of the program. *)
Definition evaluate_node (pages : list (list N)) (needed : N) (live : list N) (page : N)
    (st : list (list N) * QueryStats * T) (entry : N * Node.t) : Result (list (list N) * QueryStats * T) :=
  let '(offs, stats, source) := st in
  let '(i, node) := entry in
  let* bit := shl1 i in
  if N.land needed bit =? 0 then Ok st else
  let* summary := or_panic (index pages i) in
  if negb (contains summary page) then
    let* offs := set_at offs i (replicate OFFSET_WORDS 0) in Ok (offs, stats, source)
  else
    let* '(value, stats, source) :=
      match node with
      | Node.Term term =>
          let* '(m, bytes, source) := source_term_offsets source term page in
          let* stats :=
            if bytes =? 0 then Ok stats else
            let* payloads := add_w 32 (term_payloads stats) 1 in
            let* total := add_w 32 (term_bytes stats) (trunc 32 bytes) in
            Ok (mkQueryStats (candidate_pages stats) (live_pages stats) payloads total (emitted_tids stats)) in
          Ok (offsets Kernels.Intersection m live live, stats, source)
      | Node.All => Ok (live, stats, source)
      | Node.Not child =>
          let* c := or_panic (index offs child) in Ok (offsets Kernels.Difference live c live, stats, source)
      | Node.And l r | Node.Or l r | Node.Difference l r =>
          let* op := operation node in
          let* a := or_panic (index offs l) in
          let* b := or_panic (index offs r) in
          Ok (offsets op a b live, stats, source)
      end in
    let* offs := set_at offs i value in Ok (offs, stats, source).

(** The outer loop of [evaluate_source] for one candidate page. *)
Definition evaluate_page (program : list Node.t) (pages : list (list N))
    (st : list (list N) * QueryStats * T * O) (page : N) : Result (list (list N) * QueryStats * T * O) :=
  let '(offs, stats, source, out) := st in
  let* source := source_interrupt source in
  let* n := add_w 16 (candidate_pages stats) 1 in
  let stats := mkQueryStats n (live_pages stats) (term_payloads stats) (term_bytes stats) (emitted_tids stats) in
  let* '(live, source) := source_live_offsets source page in
  if forallb (fun word => word =? 0) live then Ok (offs, stats, source, out) else
  let* n := add_w 16 (live_pages stats) 1 in
  let stats := mkQueryStats (candidate_pages stats) n (term_payloads stats) (term_bytes stats) (emitted_tids stats) in
  let* needed := dependencies program pages page in
  let* '(offs, stats, source) := foldM (evaluate_node pages needed live page) (offs, stats, source) (enumerate program) in
  let* root := sub_w (len program) 1 in
  let* result := or_panic (index offs root) in
  let count := mask_count result in
  if count =? 0 then Ok (offs, stats, source, out) else
  let* block_ := key_block (source_key source) page in
  let* out := emit out block_ result in
  let* n := add_w 32 (emitted_tids stats) count in
  Ok (offs, mkQueryStats (candidate_pages stats) (live_pages stats) (term_payloads stats) (term_bytes stats) n, source, out).

(** [evaluate_source] *)
Definition evaluate_source (source : T) (program : list Node.t) (scratch : QueryScratch) (out : O)
  : Result (QueryStats * QueryScratch * T * O) :=
  let* source := source_interrupt source in
  let* _ := validate_program (source_terms source) program in
  let live := source_live_pages source in
  let* summaries := foldM (summarize (source_term_pages source) live) (scratch_pages scratch) (enumerate program) in
  let* root := sub_w (len program) 1 in
  let* candidates_ := or_panic (index summaries root) in
  let* '(offs, stats, source, out) :=
    foldM (evaluate_page program summaries) (scratch_offsets scratch, QueryStats_default, source, out) (pages candidates_) in
  Ok (stats, mkQueryScratch summaries offs, source, out).
End Evaluate.

(** [evaluate] *)
Definition foreign_term (segment : SegmentGroup) (term : Bitmap) : bool :=
  negb (bool_decide (bitmap_key term = group_key segment)) || negb (bool_decide (bitmap_kind term = Posting)).
Definition evaluate {I O} (segment : SegmentGroup) (terms : list Bitmap) (program : list Node.t) (scratch : QueryScratch)
    (interrupt : I -> Result I) (state : I) (emit : O -> N -> list N -> Result O) (out : O)
  : Result (QueryStats * QueryScratch * MemorySource I * O) :=
  if existsb (foreign_term segment) terms then Err InvalidState else
  evaluate_source emit (mkMemorySource segment terms interrupt state) program scratch out.

(** The reverse loop of [needed_terms]. *)
Definition or_mask (m active : list N) : list N := zip_with N.lor m active.
Definition demand (pages : list (list N)) (st : list (list N) * N) (entry : N * Node.t) : Result (list (list N) * N) :=
  let '(demanded, terms) := st in
  let '(i, node) := entry in
  let* d := or_panic (index demanded i) in
  let* p := or_panic (index pages i) in
  let active := from_fn PAGE_WORDS (fun w => N.land (word d w) (word p w)) in
  if bool_decide (active = replicate PAGE_WORDS 0) then Ok st else
  match node with
  | Node.Term term => let* bit := shl1 term in Ok (demanded, N.lor terms bit)
  | Node.All => Ok st
  | Node.Not child =>
      let* c := or_panic (index demanded child) in
      let* demanded := set_at demanded child (or_mask c active) in
      Ok (demanded, terms)
  | Node.And l r | Node.Or l r | Node.Difference l r =>
      let* a := or_panic (index demanded l) in
      let* demanded := set_at demanded l (or_mask a active) in
      let* b := or_panic (index demanded r) in
      let* demanded := set_at demanded r (or_mask b active) in
      Ok (demanded, terms)
  end.
(** [needed_terms]; also the scratch it leaves. *)
Definition needed_terms (program : list Node.t) (live : list N) (terms : list (list N)) (scratch : QueryScratch)
  : Result (list N * N * QueryScratch) :=
  let* _ := validate_program (len terms) program in
  let* summaries :=
    foldM (summarize (fun term => or_panic (index terms term)) live) (scratch_pages scratch) (enumerate program) in
  let* root := sub_w (len program) 1 in
  let* result := or_panic (index summaries root) in
  let* demanded := set_at (replicate (N.to_nat MAX_NODES) (replicate PAGE_WORDS 0)) root result in
  let* '(_, wanted) := foldM (demand summaries) (demanded, 0) (reverse (enumerate program)) in
  Ok (result, wanted, mkQueryScratch summaries (scratch_offsets scratch)).

(** * Specification *)

(** ** Outcomes that may fail in a known way *)
Definition outcome {E A} (errs : E -> Prop) (P : A -> Prop) (m : res E A) : Prop :=
  match m with Ok a => P a | Err e => errs e | Panic => False end.
Lemma outcome_bind {E A B} errs (P : A -> Prop) (Q : B -> Prop) (m : res E A) k :
  outcome errs P m -> (forall a, m = Ok a -> P a -> outcome errs Q (k a)) -> outcome errs Q (rbind m k).
Proof. destruct m; naive_solver. Qed.
Lemma outcome_mono {E A} (errs errs' : E -> Prop) (P Q : A -> Prop) m :
  outcome errs P m -> (forall e, errs e -> errs' e) -> (forall a, P a -> Q a) -> outcome errs' Q m.
Proof. destruct m; naive_solver. Qed.
Lemma outcome_foldM {E S A} errs (I : list A -> S -> Prop) (f : S -> A -> res E S) s l :
  I [] s -> (forall pre a post s, l = pre ++ a :: post -> I pre s -> outcome errs (I (pre ++ [a])) (f s a)) ->
  outcome errs (I l) (foldM f s l).
Proof.
  intros H0 Hstep. assert (G : forall pre post s, l = pre ++ post -> I pre s -> outcome errs (I l) (foldM f s post)).
  { intros pre post; revert pre. induction post as [|a post IH]; intros pre s0 El Hs; cbn [foldM].
    - rewrite app_nil_r in El. by subst pre.
    - apply (outcome_bind errs (I (pre ++ [a]))); [by eapply Hstep|]. intros s1 _ H1. apply (IH (pre ++ [a])); [|done].
      by rewrite <- app_assoc. }
  by apply (G [] l).
Qed.

(** ** Enumeration *)
Lemma enumerate_snoc {A} (l : list A) a : enumerate (l ++ [a]) = enumerate l ++ [(len l, a)].
Proof.
  unfold enumerate. rewrite len_app, range_snoc by lia. rewrite zip_with_app; [done|].
  unfold range. rewrite length_fmap, length_seq. unfold len. lia.
Qed.
Lemma index_snoc {A} (l : list A) a i x : index (l ++ [a]) i = Some x <-> index l i = Some x \/ (i = len l /\ x = a).
Proof.
  unfold index. rewrite lookup_app_Some, list_lookup_singleton_Some. unfold len. split.
  - intros [?|[? [? <-]]]; [by left|right]. split; [lia|done].
  - intros [?|[-> ->]]; [by left|right]. split; [lia|]. split; [lia|done].
Qed.
Lemma outcome_enumerate {E S A} errs (I : N -> S -> Prop) (f : S -> N * A -> res E S) s l :
  I 0 s -> (forall i a s, index l i = Some a -> I i s -> outcome errs (I (i + 1)) (f s (i, a))) ->
  outcome errs (I (len l)) (foldM f s (enumerate l)).
Proof.
  intros H0. induction l as [|a l IH] using rev_ind; intros Hstep; [done|].
  rewrite enumerate_snoc, foldM_app, len_app. eapply outcome_bind.
  - apply IH. intros i x s1 Hi. apply Hstep, index_snoc. by left.
  - intros s1 _ H1. cbn [foldM]. eapply outcome_bind; [apply Hstep; [|exact H1]|by intros s2 _ H2].
    apply index_snoc. by right.
Qed.
Lemma outcome_enumerate_rev {E S A} errs (I : N -> S -> Prop) (f : S -> N * A -> res E S) s l :
  I (len l) s -> (forall i a s, index l i = Some a -> I (i + 1) s -> outcome errs (I i) (f s (i, a))) ->
  outcome errs (I 0) (foldM f s (reverse (enumerate l))).
Proof.
  revert s. induction l as [|a l IH] using rev_ind; intros s H0 Hstep; [done|].
  rewrite enumerate_snoc, reverse_snoc. cbn [foldM]. rewrite len_app in H0. eapply outcome_bind.
  - apply Hstep; [apply index_snoc; by right|exact H0].
  - intros s1 _ H1. apply IH; [done|]. intros i x s2 Hi. apply Hstep, index_snoc. by left.
Qed.

(** ** What a program means *)
(** The value of a node at one coordinate, from those before it. *)
Definition node_value (vals : list bool) (live : bool) (term : N -> bool) (node : Node.t) : bool :=
  let v i := default false (index vals i) in
  match node with
  | Node.Term t => live && term t
  | Node.All => live
  | Node.And l r => v l && v r
  | Node.Or l r => v l || v r
  | Node.Difference l r => v l && negb (v r)
  | Node.Not c => live && negb (v c)
  end.
Definition values (program : list Node.t) (live : bool) (term : N -> bool) : list bool :=
  foldl (fun vals node => vals ++ [node_value vals live term node]) [] program.
(** The last node is the result. *)
Definition matches (program : list Node.t) (live : bool) (term : N -> bool) : bool :=
  default false (list.last (values program live term)).
Definition program_wf (terms : N) (program : list Node.t) : Prop :=
  program <> [] /\ len program <= MAX_NODES /\ terms <= MAX_NODES /\
  forall i node, index program i = Some node -> valid_node terms i node = true.

Lemma validate_program_safe terms program : safe (validate_program terms program).
Proof.
  unfold validate_program. apply safe_if; [done|]. intros _. apply (foldM_safe _ (fun _ => True)); [done|].
  intros [] [i node] _ _. split; [by apply safe_if|done].
Qed.
Lemma foldM_enumerate_ok {A} (f : unit -> N * A -> Result unit) l :
  foldM f tt (enumerate l) = Ok tt <-> forall i a, index l i = Some a -> f tt (i, a) = Ok tt.
Proof.
  induction l as [|a l IH] using rev_ind; [done|]. rewrite enumerate_snoc, foldM_app, rbind_ok. split.
  - intros ([] & H1 & H2) i x [Hi|[-> ->]]%index_snoc; [by apply IH|]. cbn in H2. by destruct (f tt (len l, a)) as [[]| |].
  - intros Hf. exists tt. split; [apply IH; intros; apply Hf, index_snoc; by left|]. cbn. rewrite Hf; [done|]. apply index_snoc. by right.
Qed.
Lemma validate_program_ok terms program : validate_program terms program = Ok tt <-> program_wf terms program.
Proof.
  unfold validate_program, program_wf. rewrite if_err_ok, !orb_false_iff, N.eqb_neq, !N.ltb_ge, foldM_enumerate_ok.
  assert (E : (forall i node, index program i = Some node -> (if negb (valid_node terms i node) then Err InvalidParameters else Ok tt) = Ok (E := Error) tt)
    <-> (forall i node, index program i = Some node -> valid_node terms i node = true)).
  { split; intros Hv i node Hi; specialize (Hv i node Hi); by destruct (valid_node terms i node). }
  rewrite E. destruct program; [rewrite len_nil; naive_solver|rewrite len_cons]. split; [naive_solver|]. intros (_ & ? & ? & ?). split; [|done]. split; [split; [lia|done]|done].
Qed.

Lemma values_snoc program node live term :
  values (program ++ [node]) live term = values program live term ++ [node_value (values program live term) live term node].
Proof. unfold values. by rewrite foldl_app. Qed.
Lemma len_values program live term : len (values program live term) = len program.
Proof. induction program as [|node program IH] using rev_ind; [done|]. by rewrite values_snoc, !len_app, IH. Qed.
(** Nodes before a node, so a valid node only looks at settled values. *)
Lemma node_value_app vals more live term terms node : valid_node terms (len vals) node = true ->
  node_value (vals ++ more) live term node = node_value vals live term node.
Proof.
  assert (Hi : forall i, (i <? len vals) = true -> index (vals ++ more) i = index vals i).
  { intros i Hi%N.ltb_lt. unfold index. apply lookup_app_l. unfold len in Hi. lia. }
  destruct node; cbn; rewrite ?andb_true_iff; intros Hv; try destruct Hv; by rewrite ?Hi.
Qed.
Definition program_ok (terms : N) (program : list Node.t) : Prop :=
  forall i node, index program i = Some node -> valid_node terms i node = true.
Lemma program_ok_snoc terms program node : program_ok terms (program ++ [node]) <->
  program_ok terms program /\ valid_node terms (len program) node = true.
Proof.
  unfold program_ok. setoid_rewrite index_snoc. split.
  - intros Hv. split; [intros; apply Hv; by left|apply Hv; by right].
  - intros [Hv Hn] i x [Hi|[-> ->]]; [by apply Hv|done].
Qed.
Lemma values_lookup terms program live term i node : program_ok terms program -> index program i = Some node ->
  index (values program live term) i = Some (node_value (values program live term) live term node).
Proof.
  induction program as [|last program IH] using rev_ind; [done|]. intros [Hp Hl]%program_ok_snoc Hi. rewrite values_snoc.
  set (vals := values program live term) in *. assert (Hlen : len vals = len program) by apply len_values.
  rewrite (node_value_app vals _ live term terms).
  - apply index_snoc. apply index_snoc in Hi as [Hi|[-> ->]]; [left; by apply IH|right]. by rewrite Hlen.
  - apply index_snoc in Hi as [Hi|[-> ->]]; [|by rewrite Hlen]. specialize (Hp i node Hi). rewrite Hlen.
    assert (Hlt : i < len program) by (unfold index in Hi; apply lookup_lt_Some in Hi; unfold len; lia).
    destruct node; cbn in *; rewrite ?andb_true_iff, ?N.ltb_lt in *; done || lia.
Qed.

(** ** What the pages summarize to *)
Definition node_summary (term_pages : N -> list N) (live : list N) (acc : list (list N)) (node : Node.t) : list N :=
  let s i := default (replicate PAGE_WORDS 0) (index acc i) in
  match node with
  | Node.Term t => candidates Kernels.Intersection (term_pages t) live live
  | Node.All | Node.Not _ => live
  | Node.And l r => candidates Kernels.Intersection (s l) (s r) live
  | Node.Or l r => candidates Kernels.Union (s l) (s r) live
  | Node.Difference l r => candidates Kernels.Difference (s l) (s r) live
  end.
Definition page_summaries (term_pages : N -> list N) (live : list N) (program : list Node.t) : list (list N) :=
  foldl (fun acc node => acc ++ [node_summary term_pages live acc node]) [] program.
Lemma page_summaries_snoc tp live program node :
  page_summaries tp live (program ++ [node]) = page_summaries tp live program ++ [node_summary tp live (page_summaries tp live program) node].
Proof. unfold page_summaries. by rewrite foldl_app. Qed.
Lemma len_page_summaries tp live program : len (page_summaries tp live program) = len program.
Proof. induction program as [|node program IH] using rev_ind; [done|]. by rewrite page_summaries_snoc, !len_app, IH. Qed.
Lemma node_summary_app tp live acc more terms node : valid_node terms (len acc) node = true ->
  node_summary tp live (acc ++ more) node = node_summary tp live acc node.
Proof.
  assert (Hi : forall i, (i <? len acc) = true -> index (acc ++ more) i = index acc i).
  { intros i Hi%N.ltb_lt. unfold index. apply lookup_app_l. unfold len in Hi. lia. }
  destruct node; cbn; rewrite ?andb_true_iff; intros Hv; try destruct Hv; by rewrite ?Hi.
Qed.
Lemma page_summaries_lookup terms tp live program i node : program_ok terms program -> index program i = Some node ->
  index (page_summaries tp live program) i = Some (node_summary tp live (page_summaries tp live program) node).
Proof.
  induction program as [|last program IH] using rev_ind; [done|]. intros [Hp Hl]%program_ok_snoc Hi. rewrite page_summaries_snoc.
  set (acc := page_summaries tp live program) in *. assert (Hlen : len acc = len program) by apply len_page_summaries.
  rewrite (node_summary_app tp live acc _ terms).
  - apply index_snoc. apply index_snoc in Hi as [Hi|[-> ->]]; [left; by apply IH|right]. by rewrite Hlen.
  - apply index_snoc in Hi as [Hi|[-> ->]]; [|by rewrite Hlen]. specialize (Hp i node Hi). rewrite Hlen.
    assert (Hlt : i < len program) by (unfold index in Hi; apply lookup_lt_Some in Hi; unfold len; lia).
    destruct node; cbn in *; rewrite ?andb_true_iff, ?N.ltb_lt in *; done || lia.
Qed.

(** ** What a source holds *)
Record View : Type := mkView {
  view_key : GroupKey;
  view_terms : N;
  view_live : N -> list N;
  view_term : N -> N -> list N;
  view_live_pages : list N;
  view_term_pages : N -> list N;
}.
(** Page masks are summaries: they cover every page that has an offset. *)
Definition covers (summary : list N) (m : N -> list N) : Prop :=
  forall page o, page < 256 -> mask_bit (m page) o = true -> mask_bit summary page = true.
Record view_wf (v : View) : Prop := mkViewWf {
  view_key_wf : key_wf (view_key v);
  view_live_pages_ok : mask_ok (view_key v) (view_live_pages v);
  view_live_wf : forall page, mask_wf OFFSET_WORDS (view_live v page);
  view_live_covered : covers (view_live_pages v) (view_live v);
  view_term_wf : forall t page, mask_wf OFFSET_WORDS (view_term v t page);
  view_term_pages_wf : forall t, t < view_terms v -> mask_wf PAGE_WORDS (view_term_pages v t);
  view_term_covered : forall t, t < view_terms v -> covers (view_term_pages v t) (view_term v t);
}.
(** The values of all nodes at a coordinate, and whether it satisfies the program. *)
Definition values_at (v : View) (program : list Node.t) (page o : N) : list bool :=
  values program (mask_bit (view_live v page) o) (fun t => mask_bit (view_term v t page) o).
Definition value_at (v : View) (program : list Node.t) (i page o : N) : bool := default false (index (values_at v program page o) i).
Definition satisfies (v : View) (program : list Node.t) (page o : N) : bool :=
  matches program (mask_bit (view_live v page) o) (fun t => mask_bit (view_term v t page) o).

Lemma value_at_eq v program i node page o : program_ok (view_terms v) program -> index program i = Some node ->
  value_at v program i page o =
    match node with
    | Node.Term t => mask_bit (view_live v page) o && mask_bit (view_term v t page) o
    | Node.All => mask_bit (view_live v page) o
    | Node.And l r => value_at v program l page o && value_at v program r page o
    | Node.Or l r => value_at v program l page o || value_at v program r page o
    | Node.Difference l r => value_at v program l page o && negb (value_at v program r page o)
    | Node.Not c => mask_bit (view_live v page) o && negb (value_at v program c page o)
    end.
Proof.
  intros Hp Hi. unfold value_at, values_at. rewrite (values_lookup (view_terms v) program _ _ i node Hp Hi). by destruct node.
Qed.
Lemma satisfies_value v program page o : program <> [] -> satisfies v program page o = value_at v program (len program - 1) page o.
Proof.
  intros Hne. unfold satisfies, matches, value_at. rewrite last_lookup. unfold index. do 2 f_equal.
  change (values_at v program page o) with (values program (mask_bit (view_live v page) o) (fun t => mask_bit (view_term v t page) o)).
  pose proof (len_values program (mask_bit (view_live v page) o) (fun t => mask_bit (view_term v t page) o)) as L.
  unfold len in L. unfold len. lia.
Qed.
(** Every node is within the live coordinates. *)
Lemma value_live v program i page o : program_ok (view_terms v) program ->
  value_at v program i page o = true -> mask_bit (view_live v page) o = true.
Proof.
  intros Hp. induction i as [i IH] using (well_founded_induction N.lt_wf_0). intros Hv.
  destruct (index program i) as [node|] eqn:Hi.
  - rewrite (value_at_eq v program i node) in Hv by done. specialize (Hp i node Hi).
    destruct node as [t| |l r|l r|l r|c]; cbn in Hp; rewrite ?andb_true_iff, ?orb_true_iff, ?N.ltb_lt in *; naive_solver.
  - exfalso. unfold value_at in Hv. assert (Hn : index (values_at v program page o) i = None); [|by rewrite Hn in Hv].
    unfold index, values_at in *. apply lookup_ge_None in Hi. apply lookup_ge_None_2.
    pose proof (len_values program (mask_bit (view_live v page) o) (fun t => mask_bit (view_term v t page) o)) as L. unfold len in L. lia.
Qed.

(** ** Page summaries *)
Section Summaries.
Context (v : View) (Hv : view_wf v) (program : list Node.t) (Hp : program_ok (view_terms v) program).
(** A summary within the live pages that covers the node's coordinates. *)
Definition summary_of (i : N) (m : list N) : Prop :=
  mask_wf PAGE_WORDS m /\ (forall p, mask_bit m p = true -> mask_bit (view_live_pages v) p = true) /\
  forall page o, page < 256 -> value_at v program i page o = true -> mask_bit m page = true.
Definition summary_list : list (list N) := page_summaries (view_term_pages v) (view_live_pages v) program.
Definition summarized (k : N) (summaries : list (list N)) : Prop :=
  len summaries = MAX_NODES /\
  forall i, i < k -> exists m, index summaries i = Some m /\ index summary_list i = Some m /\ summary_of i m.
Lemma summarized_child k summaries i : summarized k summaries -> i < k ->
  exists m, index summaries i = Some m /\ index summary_list i = Some m /\ summary_of i m.
Proof. intros [_ H]. apply H. Qed.
Lemma set_at_index {A} (l : list A) i x j : i < len l ->
  index (<[N.to_nat i := x]> l) j = if j =? i then Some x else index l j.
Proof.
  intros Hi. unfold index. destruct (N.eqb_spec j i) as [->|Hne].
  - apply list_lookup_insert_eq. unfold len in Hi. lia.
  - apply list_lookup_insert_ne. lia.
Qed.
Lemma summarized_set k summaries m : summarized k summaries -> k < MAX_NODES -> index summary_list k = Some m -> summary_of k m ->
  outcome (fun _ : Error => False) (summarized (k + 1)) (set_at summaries k m).
Proof.
  intros [Hl Hs] Hk Hi' Hm. unfold set_at. rewrite (proj2 (N.ltb_lt _ _)) by lia. split; [by rewrite len_insert|].
  intros i Hi. rewrite set_at_index by lia. destruct (N.eqb_spec i k) as [->|]; [eauto|]. apply Hs. lia.
Qed.
Lemma mask_bit_256 m p : mask_wf PAGE_WORDS m -> mask_bit m p = true -> p < 256.
Proof.
  intros Hm Hb. destruct (decide (p < 256)); [done|]. rewrite mask_bit_default in Hb; [done|].
  unfold len. rewrite (proj1 Hm). unfold PAGE_WORDS. lia.
Qed.
Lemma candidates_within op l r p : mask_wf PAGE_WORDS (view_live_pages v) ->
  mask_bit (candidates op l r (view_live_pages v)) p = true -> mask_bit (view_live_pages v) p = true.
Proof.
  intros Hl Hb. pose proof (mask_bit_256 _ _ (candidates_wf op l r _ Hl) Hb). rewrite candidates_bit in Hb by done.
  by apply andb_true_iff in Hb as [_ ?].
Qed.
Lemma summary_value i m page o : summary_of i m -> page < 256 -> value_at v program i page o = true -> mask_bit m page = true.
Proof. intros (_ & _ & H). apply H. Qed.
Lemma summarize_ok (term_pages : N -> Result (list N)) summaries k node :
  (forall t, t < view_terms v -> term_pages t = Ok (view_term_pages v t)) ->
  index program k = Some node -> k < MAX_NODES -> summarized k summaries ->
  outcome (fun _ => False) (summarized (k + 1)) (summarize term_pages (view_live_pages v) summaries (k, node)).
Proof.
  intros Ht Hi Hk Hs. pose proof (Hp k node Hi) as Hn. destruct (view_live_pages_ok v Hv) as [Hlw _].
  pose proof (page_summaries_lookup (view_terms v) (view_term_pages v) (view_live_pages v) program k node Hp Hi) as Hlook. fold summary_list in Hlook.
  assert (Hbin : forall op l r, l < k -> r < k ->
    (forall a b, index summary_list l = Some a -> index summary_list r = Some b ->
       node_summary (view_term_pages v) (view_live_pages v) summary_list node = candidates op a b (view_live_pages v)) ->
    (forall page o, value_at v program k page o = true ->
       match op with
       | Kernels.Intersection => value_at v program l page o = true /\ value_at v program r page o = true
       | Kernels.Union => value_at v program l page o = true \/ value_at v program r page o = true
       | Kernels.Difference => value_at v program l page o = true
       end) ->
    outcome (fun _ : Error => False) (summarized (k + 1))
      (let* value := (let* a := or_panic (index summaries l) in let* b := or_panic (index summaries r) in
                      Ok (candidates op a b (view_live_pages v))) in set_at summaries k value)).
  { intros op l r Hl Hr Hns Hval. destruct (summarized_child k summaries l Hs Hl) as (a & -> & Ea & Ha).
    destruct (summarized_child k summaries r Hs Hr) as (b & -> & Eb & Hb). cbn [or_panic rbind]. rewrite (Hns a b Ea Eb) in Hlook.
    apply summarized_set; [done..|].
    split_and!; [by apply candidates_wf|intros p; by apply candidates_within|]. intros page o Hpage Hvk. rewrite candidates_bit by done.
    rewrite (view_live_covered v Hv page o Hpage (value_live v program k page o Hp Hvk)), andb_true_r. specialize (Hval page o Hvk).
    destruct op.
    - destruct Hval as [H1 H2]. by rewrite (summary_value l a page o), (summary_value r b page o).
    - destruct Hval as [H1|H1]; [by rewrite (summary_value l a page o)|by rewrite (summary_value r b page o), orb_true_r].
    - by rewrite (summary_value l a page o). }
  assert (Hlive : summary_of k (view_live_pages v)).
  { split_and!; [done|done|]. intros page o Hpage Hvk. eapply (view_live_covered v Hv); [done|by eapply value_live]. }
  pose proof (fun page o => value_at_eq v program k node page o Hp Hi) as Heq.
  unfold summarize. destruct node as [t| |l r|l r|l r|c]; cbn [valid_node] in Hn; rewrite ?andb_true_iff, ?N.ltb_lt in Hn; cbn [operation rbind].
  - rewrite Ht by done. cbn [rbind]. apply summarized_set; [done..|].
    split_and!; [by apply candidates_wf|intros p; by apply candidates_within|]. intros page o Hpage Hvk. rewrite candidates_bit by done.
    rewrite Heq in Hvk. apply andb_true_iff in Hvk as [H1 H2]. rewrite (view_live_covered v Hv page o) by done.
    by rewrite (view_term_covered v Hv t Hn page o).
  - by apply summarized_set.
  - apply Hbin; [apply Hn..|by intros a b Ea Eb; cbn [node_summary]; rewrite Ea, Eb|]. intros page o. by rewrite Heq, andb_true_iff.
  - apply Hbin; [apply Hn..|by intros a b Ea Eb; cbn [node_summary]; rewrite Ea, Eb|]. intros page o. by rewrite Heq, orb_true_iff.
  - apply Hbin; [apply Hn..|by intros a b Ea Eb; cbn [node_summary]; rewrite Ea, Eb|]. intros page o. rewrite Heq, andb_true_iff. by intros [? _].
  - by apply summarized_set.
Qed.
Lemma summaries_ok (term_pages : N -> Result (list N)) summaries :
  (forall t, t < view_terms v -> term_pages t = Ok (view_term_pages v t)) -> len program <= MAX_NODES -> len summaries = MAX_NODES ->
  outcome (fun _ => False) (summarized (len program)) (foldM (summarize term_pages (view_live_pages v)) summaries (enumerate program)).
Proof.
  intros Ht Hl Hs. apply outcome_enumerate.
  - split; [done|]. intros i Hi. lia.
  - intros i node s Hi Hsum. apply summarize_ok; [done..| |done]. unfold index in Hi. apply lookup_lt_Some in Hi. unfold len in Hl. lia.
Qed.
End Summaries.

(** ** Dependencies *)
Definition children (node : Node.t) : list N :=
  match node with
  | Node.Term _ | Node.All => []
  | Node.Not c => [c]
  | Node.And l r | Node.Or l r | Node.Difference l r => [l; r]
  end.
Lemma children_lt terms i node c : valid_node terms i node = true -> c ∈ children node -> c < i.
Proof.
  destruct node; cbn; rewrite ?andb_true_iff, ?N.ltb_lt; intros Hv Hc; repeat (apply elem_of_cons in Hc as [->|Hc]; [apply Hv|]);
    by apply elem_of_nil in Hc.
Qed.
Definition mark (needed : N) (l : list N) : N := foldr (fun c n => N.lor (N.shiftl 1 c) n) needed l.
Lemma mark_bit needed l j : N.testbit (mark needed l) j = bool_decide (j ∈ l) || N.testbit needed j.
Proof.
  induction l as [|c l IH]; cbn [mark foldr]; [by rewrite bool_decide_eq_false_2 by by intros ?%elem_of_nil|].
  fold (mark needed l). rewrite N.lor_spec, pow2_testbit, IH, orb_assoc. f_equal. destruct (N.eqb_spec j c) as [->|Hne]; cbn.
  - symmetry. apply bool_decide_eq_true_2. left.
  - apply bool_decide_ext. rewrite elem_of_cons. naive_solver.
Qed.

(** The summary of a node at a page, and the nodes that the result depends on there. *)
Definition summary_at (v : View) (program : list Node.t) (i page : N) : bool :=
  match index (summary_list v program) i with Some m => mask_bit m page | None => false end.
Inductive reach (v : View) (program : list Node.t) (page : N) : N -> Prop :=
| reach_root : reach v program page (len program - 1)
| reach_child i node c : reach v program page i -> index program i = Some node -> summary_at v program i page = true ->
    c ∈ children node -> reach v program page c.
(** The terms whose payloads a page asks for. *)
Definition demands (v : View) (program : list Node.t) (page t : N) : Prop :=
  exists i, index program i = Some (Node.Term t) /\ reach v program page i /\ summary_at v program i page = true.

Section Dependencies.
Context (v : View) (program : list Node.t) (Hp : program_ok (view_terms v) program) (Hlen : len program <= MAX_NODES).
Lemma program_index i node : index program i = Some node -> i < len program /\ i < 64.
Proof.
  intros Hi. unfold index in Hi. apply lookup_lt_Some in Hi. unfold len, MAX_NODES in *. lia.
Qed.
Lemma child_lt i node c : index program i = Some node -> c ∈ children node -> c < i.
Proof. intros Hi. eapply children_lt. by apply Hp. Qed.
(** Closed under dependencies, from node [k] on. *)
Definition closed (page k : N) (needed : N -> Prop) : Prop :=
  forall i node, k <= i -> index program i = Some node -> needed i -> summary_at v program i page = true ->
    forall c, c ∈ children node -> needed c.
Lemma closed_reach page (needed : N -> Prop) i : needed (len program - 1) -> closed page 0 needed -> reach v program page i -> needed i.
Proof. intros H0 Hc. induction 1 as [|i node c _ IH Hi Hs Hin]; [done|]. apply (Hc i node); [lia|done..]. Qed.

Section WithSummaries.
Context (summaries : list (list N)) (Hs : summarized v program (len program) summaries).
(** What [mark_dependencies] does at a node of a valid program. *)
Lemma mark_dependencies_eq i node page needed : index program i = Some node -> page < 256 ->
  mark_dependencies summaries page needed (i, node) =
    Ok (if N.testbit needed i && summary_at v program i page then mark needed (children node) else needed).
Proof.
  intros Hi Hpage. pose proof (program_index i node Hi) as [Hil Hi64].
  unfold mark_dependencies, shl1, summary_at. rewrite (proj2 (N.ltb_lt i 64)) by done. cbn [rbind]. rewrite land_pow2.
  destruct (N.testbit needed i); [|done]. cbn [negb andb]. destruct (summarized_child v program _ _ i Hs Hil) as (m & -> & -> & _).
  cbn [or_panic rbind]. rewrite page_contains_bit by done. destruct (mask_bit m page); [|done]. cbn [negb].
  assert (Hc64 : forall c, c ∈ children node -> (c <? 64) = true) by (intros c Hin; apply N.ltb_lt; pose proof (child_lt i node c Hi Hin); lia).
  destruct node as [t| |l r|l r|l r|c]; cbn [children mark foldr] in *; rewrite ?Hc64 by (left || (right; left)); cbn [rbind]; try done.
  1-3: f_equal; apply N.bits_inj; intros b; rewrite !N.lor_spec; by destruct (N.testbit needed b), (N.testbit (N.shiftl 1 l) b), (N.testbit (N.shiftl 1 r) b).
  f_equal. apply N.lor_comm.
Qed.
Definition bit_set (needed i : N) : Prop := N.testbit needed i = true.
Lemma dependencies_ok page : program <> [] -> page < 256 ->
  exists needed, dependencies program summaries page = Ok needed /\ forall i, N.testbit needed i = true <-> reach v program page i.
Proof.
  intros Hne Hpage. assert (Hpos : 1 <= len program) by (destruct program; [done|rewrite len_cons; lia]).
  assert (H : outcome (fun _ : Error => False) (fun needed => bit_set needed (len program - 1) /\
      (forall i, bit_set needed i -> reach v program page i) /\ closed page 0 (bit_set needed)) (dependencies program summaries page)).
  { unfold dependencies, shl1. rewrite sub_w_fits by done. cbn [rbind].
    rewrite (proj2 (N.ltb_lt _ _)) by (unfold MAX_NODES in *; lia). cbn [rbind].
    apply (outcome_enumerate_rev _ (fun k needed => bit_set needed (len program - 1) /\ (forall i, bit_set needed i -> reach v program page i) /\ closed page k (bit_set needed))).
    - unfold bit_set. split; [by rewrite pow2_testbit, N.eqb_refl|]. split.
      + intros i. rewrite pow2_testbit, N.eqb_eq. intros ->. constructor.
      + intros i node Hi Hin. pose proof (program_index i node Hin) as [? _]. lia.
    - intros i node needed Hi (Hroot & Hsound & Hc). rewrite (mark_dependencies_eq i node page needed) by done. unfold bit_set in *.
      destruct (N.testbit needed i && summary_at v program i page) eqn:Eact; cbn [outcome].
      + apply andb_true_iff in Eact as [Eb Es]. split_and!; [by rewrite mark_bit, Hroot, orb_true_r| |].
        * intros j. rewrite mark_bit, orb_true_iff, bool_decide_eq_true. intros [Hj|Hj]; [|by apply Hsound].
          eapply reach_child; [by apply Hsound|done..].
        * intros j nj Hj Hjn. unfold bit_set. rewrite mark_bit. intros Hbit Hsum c Hcc. rewrite mark_bit.
          destruct (decide (j = i)) as [->|Hji]; [rewrite Hi in Hjn; injection Hjn as <-; by rewrite bool_decide_eq_true_2|].
          rewrite bool_decide_eq_false_2 in Hbit by (intros Hjc; pose proof (child_lt i node j Hi Hjc); lia).
          unfold closed, bit_set in Hc. rewrite (Hc j nj); [by rewrite orb_true_r|lia|done..].
      + split_and!; [done..|]. intros j nj Hj Hjn Hbit Hsum c Hcc. unfold bit_set in *. destruct (decide (j = i)) as [->|Hji].
        * by rewrite Hbit, Hsum in Eact.
        * apply (Hc j nj); [lia|done..]. }
  destruct (dependencies program summaries page) as [needed| |]; [|done..]. destruct H as (H1 & H2 & H3). exists needed. split; [done|].
  intros i. split; [apply H2|]. intros Hi. exact (closed_reach page (bit_set needed) i H1 H3 Hi).
Qed.
End WithSummaries.
End Dependencies.

(** ** The interface *)
(** A source that holds [v]: what it returns is what [v] says; it may fail, with [errs]
    only, and never panics. The payloads it need be able to read are the [demanded] ones. *)
Class LawfulSource (T : Type) `{Source T} (v : View) (demanded : N -> Prop) (errs : Error -> Prop) (inv : T -> Prop) : Prop := {
  law_key s : inv s -> source_key s = view_key v;
  law_terms s : inv s -> source_terms s = view_terms v;
  law_live_pages s : inv s -> source_live_pages s = view_live_pages v;
  law_term_pages s t : inv s -> t < view_terms v -> source_term_pages s t = Ok (view_term_pages v t);
  law_live_offsets s page : inv s -> page < 256 ->
    outcome errs (fun r => fst r = view_live v page /\ inv (snd r)) (source_live_offsets s page);
  law_term_offsets s t page : inv s -> t < view_terms v -> demanded t -> page < 256 ->
    outcome errs (fun r => fst (fst r) = view_term v t page /\ snd (fst r) <= 64 /\ inv (snd r)) (source_term_offsets s t page);
  law_interrupt s : inv s -> outcome errs inv (source_interrupt s);
}.

(** ** Masks from their bits *)
Definition mask_collect (l : list N) : list N := foldl mask_set (replicate OFFSET_WORDS 0) l.
Lemma mask_collect_wf l : mask_wf OFFSET_WORDS (mask_collect l).
Proof.
  unfold mask_collect. pose proof (mask_wf_replicate OFFSET_WORDS) as Hw. revert Hw. generalize (replicate OFFSET_WORDS 0) as m.
  induction l as [|x l IH]; intros m Hw; [done|]. apply IH. by apply mask_set_wf.
Qed.
Lemma mask_collect_bit l o : Forall (fun x => x < 512) l -> mask_bit (mask_collect l) o = bool_decide (o ∈ l).
Proof.
  intros Hl. unfold mask_collect. rewrite <- (orb_false_l (bool_decide _)), <- (mask_bit_zero OFFSET_WORDS o).
  pose proof (mask_wf_replicate OFFSET_WORDS) as Hw. revert Hw. generalize (replicate OFFSET_WORDS 0) as m.
  induction Hl as [|x l Hx _ IH]; intros m Hw; cbn [foldl].
  - rewrite bool_decide_eq_false_2 by by intros ?%elem_of_nil. by rewrite orb_false_r.
  - rewrite IH by by apply mask_set_wf. rewrite mask_set_bit by (unfold len; rewrite (proj1 Hw); unfold OFFSET_WORDS; lia).
    rewrite <- orb_assoc. f_equal. destruct (N.eqb_spec o x) as [->|Hne]; cbn [orb].
    + rewrite bool_decide_eq_true_2 by left. done.
    + apply bool_decide_ext. rewrite elem_of_cons. naive_solver.
Qed.
Lemma mask_count_zero n m : mask_wf n m -> mask_count m = 0 <-> m = replicate n 0.
Proof.
  intros Hm. rewrite mask_count_bits by apply Hm. split.
  - intros E. apply len_zero in E. apply (mask_ext n); [done|apply mask_wf_replicate|]. intros i Hi. rewrite mask_bit_zero.
    apply not_true_iff_false. intros Hb. assert (Hin : i ∈ mask_bits m) by (apply elem_of_mask_bits; unfold len; rewrite (proj1 Hm); split; [lia|done]).
    rewrite E in Hin. by apply elem_of_nil in Hin.
  - intros ->. assert (mask_bits (replicate n 0) = []) as ->; [|done]. apply filter_none. intros i _. by rewrite mask_bit_zero.
Qed.

(** ** What is emitted *)
(** The matching offsets of a page. *)
Definition answer (v : View) (program : list Node.t) (page : N) : list N :=
  mask_collect (filter (fun o => satisfies v program page o = true) (range 0 512)).
(** The pages that have one, with their masks, in order. *)
Definition answers (v : View) (program : list Node.t) (ps : list N) : list (N * list N) :=
  (fun page => (base (view_key v) + page, answer v program page)) <$>
    filter (fun page => answer v program page <> replicate OFFSET_WORDS 0) ps.
Definition answer_count (v : View) (program : list Node.t) (ps : list N) : N :=
  foldr (fun page n => mask_count (answer v program page) + n) 0 ps.

Lemma answer_bit v program page o : o < 512 -> mask_bit (answer v program page) o = satisfies v program page o.
Proof.
  intros Ho. unfold answer. rewrite mask_collect_bit.
  - apply eq_true_iff_eq. rewrite bool_decide_eq_true, list_elem_of_filter, elem_of_range. naive_solver lia.
  - apply list.Forall_forall. intros x [_ Hx]%list_elem_of_filter. apply elem_of_range in Hx. lia.
Qed.
Lemma answer_wf v program page : mask_wf OFFSET_WORDS (answer v program page).
Proof. apply mask_collect_wf. Qed.
Lemma answer_eq v program page m : mask_wf OFFSET_WORDS m ->
  (forall o, o < 512 -> mask_bit m o = satisfies v program page o) -> m = answer v program page.
Proof.
  intros Hm Hb. apply (mask_ext OFFSET_WORDS); [done|apply answer_wf|]. intros o Ho. change (64 * _) with 512 in Ho.
  by rewrite Hb, answer_bit.
Qed.
Lemma answer_count_le v program page : mask_count (answer v program page) <= 512.
Proof.
  pose proof (answer_wf v program page) as Hw. rewrite mask_count_bits by apply Hw. pose proof (mask_bits_length _ _ Hw).
  unfold len, OFFSET_WORDS in *. lia.
Qed.
Lemma answers_app v program l1 l2 : answers v program (l1 ++ l2) = answers v program l1 ++ answers v program l2.
Proof. unfold answers. by rewrite list.filter_app, fmap_app. Qed.
Lemma answer_count_app v program l1 l2 : answer_count v program (l1 ++ l2) = answer_count v program l1 + answer_count v program l2.
Proof. unfold answer_count. induction l1 as [|x l1 IH]; [done|]. cbn. rewrite IH. lia. Qed.

Section EvaluateSource.
Context {T O : Type} `{LawfulSource T v demanded errs inv} (emit : O -> N -> list N -> Result O).
Context (Hv : view_wf v) (program : list Node.t) (Hp : program_ok (view_terms v) program) (Hlen : len program <= MAX_NODES).
Context (Hne : program <> []) (summaries : list (list N)) (Hs : summarized v program (len program) summaries).

(** The counters that one page moves. *)
Definition counted (before after : QueryStats) (k : N) : Prop :=
  candidate_pages after = candidate_pages before /\ live_pages after = live_pages before /\
  emitted_tids after = emitted_tids before /\
  term_payloads after <= term_payloads before + k /\ term_bytes after <= term_bytes before + 64 * k.
(** The needed nodes before [k] are settled. *)
Definition settled (page needed : N) (stats0 : QueryStats) (k : N) (st : list (list N) * QueryStats * T) : Prop :=
  let '(offs, stats, source) := st in
  len offs = MAX_NODES /\ inv source /\ counted stats0 stats k /\
  forall i, i < k -> N.testbit needed i = true -> exists m, index offs i = Some m /\ mask_wf OFFSET_WORDS m /\
    forall o, o < 512 -> mask_bit m o = value_at v program i page o.
Definition node_mask (page i : N) (m : list N) : Prop :=
  mask_wf OFFSET_WORDS m /\ forall o, o < 512 -> mask_bit m o = value_at v program i page o.
Lemma settled_set page needed stats0 k offs stats source m :
  settled page needed stats0 k (offs, stats, source) -> k < MAX_NODES -> node_mask page k m ->
  forall stats' source', inv source' -> counted stats0 stats' (k + 1) ->
  outcome errs (settled page needed stats0 (k + 1)) (let* offs := set_at offs k m in Ok (offs, stats', source')).
Proof.
  intros (Hl & _ & _ & Hset) Hk [Hm Hb] stats' source' Hi Hc. unfold set_at. rewrite (proj2 (N.ltb_lt _ _)) by lia. cbn [rbind outcome settled].
  split_and!; [by rewrite len_insert|done|done|]. intros i Hik Hbit. rewrite set_at_index by lia.
  destruct (N.eqb_spec i k) as [->|]; [eauto|]. apply Hset; [lia|done].
Qed.
Lemma counted_next stats0 stats k : counted stats0 stats k -> counted stats0 stats (k + 1).
Proof. intros (? & ? & ? & ? & ?). split_and!; done || lia. Qed.
Lemma evaluate_node_ok page needed stats0 k node st : page < 256 -> (forall i, N.testbit needed i = true <-> reach v program page i) ->
  (forall t, demands v program page t -> demanded t) ->
  term_payloads stats0 + MAX_NODES < 2 ^ 32 -> term_bytes stats0 + 64 * MAX_NODES < 2 ^ 32 ->
  index program k = Some node -> settled page needed stats0 k st ->
  outcome errs (settled page needed stats0 (k + 1)) (evaluate_node summaries needed (view_live v page) page st (k, node)).
Proof.
  intros Hpage Hneed Hdem Hpay Hbytes Hi Hset. destruct st as [[offs stats] source]. pose proof Hset as (Hl & Hinv & Hcnt & Hsettled).
  destruct (program_index program Hlen k node Hi) as [Hkl Hk64]. pose proof (Hp k node Hi) as Hn.
  assert (HkM : k < MAX_NODES) by (unfold MAX_NODES; lia).
  unfold evaluate_node, shl1. rewrite (proj2 (N.ltb_lt k 64)) by done. cbn [rbind]. rewrite land_pow2.
  destruct (N.testbit needed k) eqn:Ebit; cbn [negb].
  2:{ cbn [outcome settled]. split_and!; [done|done|by apply counted_next|]. intros i Hik Hib. destruct (decide (i = k)) as [->|]; [by rewrite Ebit in Hib|].
      apply Hsettled; [lia|done]. }
  destruct (summarized_child v program _ _ k Hs Hkl) as (m & Em & Elist & Hm). rewrite Em. cbn [or_panic rbind]. rewrite page_contains_bit by done.
  destruct (mask_bit m page) eqn:Esum; cbn [negb].
  2:{ eapply settled_set; [done|done| |done|by apply counted_next]. split; [apply mask_wf_replicate|]. intros o Ho. rewrite mask_bit_zero.
      symmetry. apply not_true_iff_false. intros Hval. rewrite (summary_value v program k m page o Hm Hpage Hval) in Esum. done. }
  pose proof (view_live_wf v Hv page) as Hlive. pose proof (fun o => value_at_eq v program k node page o Hp Hi) as Heq.
  assert (Hchild : forall c, c ∈ children node -> exists mc, index offs c = Some mc /\ node_mask page c mc).
  { intros c Hc. destruct (Hsettled c) as (mc & Ec & Hmc).
    - by eapply children_lt.
    - apply Hneed. eapply reach_child; [by apply Hneed|done| |done]. unfold summary_at. by rewrite Elist.
    - by exists mc. }
  assert (Hset' := settled_set page needed stats0 k offs stats source).
  destruct node as [t| |l r|l r|l r|c]; cbn [children] in Hchild; cbn [valid_node] in Hn; cbn [operation rbind].
  - apply N.ltb_lt in Hn. rewrite rbind_assoc. eapply outcome_bind.
    { apply law_term_offsets; [done|done| |done]. apply Hdem. exists k. split_and!; [done|by apply Hneed|]. unfold summary_at. by rewrite Elist. }
    intros [[mt bytes] source'] _ (Emt & Hbt & Hinv'). cbn [fst snd] in Emt, Hbt, Hinv'. subst mt.
    assert (Hmask : node_mask page k (offsets Kernels.Intersection (view_term v t page) (view_live v page) (view_live v page))).
    { split; [by apply offsets_wf|]. intros o Ho. rewrite offsets_bit, Heq by done. cbn [op_bit].
      by destruct (mask_bit (view_live v page) o), (mask_bit (view_term v t page) o). }
    destruct Hcnt as (Hc1 & Hc2 & Hc3 & Hc4 & Hc5). destruct (bytes =? 0).
    + cbn [rbind]. eapply Hset'; [done|done|done|done|]. split_and!; done || lia.
    + rewrite !trunc_small by (change (2 ^ 32) with 4294967296; lia). rewrite !add_w_fits by lia. cbn [rbind].
      eapply Hset'; [done|done|done|done|]. split_and!; cbn; done || lia.
  - eapply Hset'; [done|done| |done|by apply counted_next]. split; [done|]. intros o Ho. by rewrite Heq.
  - destruct (Hchild l) as (a & -> & Ha); [left|]. destruct (Hchild r) as (b & -> & Hb); [right; left|]. cbn [or_panic rbind].
    eapply Hset'; [done|done| |done|by apply counted_next]. split; [by apply offsets_wf|]. intros o Ho.
    rewrite offsets_bit, Heq, (proj2 Ha), (proj2 Hb) by done. cbn [op_bit]. pose proof (value_live v program l page o Hp) as Hvl.
    destruct (value_at v program l page o); [|done]. by rewrite Hvl, andb_true_r.
  - destruct (Hchild l) as (a & -> & Ha); [left|]. destruct (Hchild r) as (b & -> & Hb); [right; left|]. cbn [or_panic rbind].
    eapply Hset'; [done|done| |done|by apply counted_next]. split; [by apply offsets_wf|]. intros o Ho.
    rewrite offsets_bit, Heq, (proj2 Ha), (proj2 Hb) by done. cbn [op_bit]. pose proof (value_live v program l page o Hp) as Hvl.
    pose proof (value_live v program r page o Hp) as Hvr.
    destruct (value_at v program l page o); [by rewrite Hvl by done|]. destruct (value_at v program r page o); [by rewrite Hvr|done].
  - destruct (Hchild l) as (a & -> & Ha); [left|]. destruct (Hchild r) as (b & -> & Hb); [right; left|]. cbn [or_panic rbind].
    eapply Hset'; [done|done| |done|by apply counted_next]. split; [by apply offsets_wf|]. intros o Ho.
    rewrite offsets_bit, Heq, (proj2 Ha), (proj2 Hb) by done. cbn [op_bit]. pose proof (value_live v program l page o Hp) as Hvl.
    destruct (value_at v program l page o); [|done]. by rewrite Hvl, andb_true_r.
  - destruct (Hchild c) as (a & -> & Ha); [left|]. cbn [or_panic rbind].
    eapply Hset'; [done|done| |done|by apply counted_next]. split; [by apply offsets_wf|]. intros o Ho.
    rewrite offsets_bit, Heq, (proj2 Ha) by done. cbn [op_bit]. by destruct (mask_bit (view_live v page) o), (value_at v program c page o).
Qed.

(** The state of the page loop after the pages [done]. *)
Definition emit_all (out : O) (l : list (N * list N)) : Result O := foldM (fun o '(block_, m) => emit o block_ m) out l.
Definition visited (out0 : O) (past : list N) (st : list (list N) * QueryStats * T * O) : Prop :=
  let '(offs, stats, source, out) := st in
  len offs = MAX_NODES /\ inv source /\ emit_all out0 (answers v program past) = Ok out /\
  candidate_pages stats = len past /\ live_pages stats <= len past /\
  term_payloads stats <= MAX_NODES * len past /\ term_bytes stats <= 64 * MAX_NODES * len past /\
  emitted_tids stats = answer_count v program past.
Lemma no_live page : forallb (fun word => word =? 0) (view_live v page) = true -> answer v program page = replicate OFFSET_WORDS 0.
Proof.
  intros Hz. symmetry. apply answer_eq; [apply mask_wf_replicate|]. intros o Ho. rewrite mask_bit_zero. symmetry. apply not_true_iff_false.
  rewrite satisfies_value by done. intros Hb%(value_live v program _ page o Hp). unfold mask_bit in Hb.
  destruct (view_live v page !! N.to_nat (o / 64)) as [w|] eqn:E; cbn in Hb; unfold id in Hb; [|done].
  apply list_elem_of_lookup_2, list_elem_of_In in E. rewrite forallb_forall in Hz. apply Hz, N.eqb_eq in E as ->. by rewrite N.bits_0 in Hb.
Qed.
Lemma answers_snoc_none past page : answer v program page = replicate OFFSET_WORDS 0 -> answers v program (past ++ [page]) = answers v program past.
Proof. intros E. unfold answers. rewrite list.filter_app, filter_cons_False by (intros Hn; by apply Hn). by rewrite app_nil_r. Qed.
Lemma answers_snoc_some past page : answer v program page <> replicate OFFSET_WORDS 0 ->
  answers v program (past ++ [page]) = answers v program past ++ [(base (view_key v) + page, answer v program page)].
Proof. intros E. unfold answers. rewrite list.filter_app, filter_cons_True by done. by rewrite fmap_app. Qed.
Lemma answer_count_le_all past : answer_count v program past <= 512 * len past.
Proof.
  induction past as [|page past IH]; [done|]. rewrite len_cons. cbn [answer_count foldr]. fold (answer_count v program past).
  pose proof (answer_count_le v program page). lia.
Qed.
Definition emit_errs (out0 : O) (ps : list N) (e : Error) : Prop := errs e \/ emit_all out0 (answers v program ps) = Err e.
Lemma emit_all_app out l1 l2 : emit_all out (l1 ++ l2) = let* out := emit_all out l1 in emit_all out l2.
Proof. apply foldM_app. Qed.
Lemma evaluate_page_ok (Hemit : forall o b m, safe (emit o b m)) out0 past page rest st :
  len (past ++ page :: rest) <= 256 -> page < 256 -> page_ok (view_key v) page ->
  (forall t, demands v program page t -> demanded t) -> visited out0 past st ->
  outcome (emit_errs out0 (past ++ page :: rest)) (visited out0 (past ++ [page])) (evaluate_page emit program summaries st page).
Proof.
  intros Hcount Hpage Hok Hdem Hst. destruct st as [[[offs stats] source] out]. destruct Hst as (Hl & Hinv & Hout & Hcp & Hlp & Hpay & Hbytes & Hem).
  rewrite len_app, len_cons in Hcount. pose proof (answer_count_le_all past) as Hac. unfold MAX_NODES in *.
  assert (Hlen1 : len (past ++ [page]) = len past + 1) by (rewrite len_app; done).
  assert (Hcnt : answer_count v program (past ++ [page]) = answer_count v program past + mask_count (answer v program page)).
  { rewrite answer_count_app. f_equal. unfold answer_count, foldr. lia. }
  unfold evaluate_page. eapply outcome_bind.
  { eapply outcome_mono; [by apply law_interrupt|by left|]. intros s Hsrc. exact Hsrc. }
  intros source1 _ Hinv1. rewrite add_w_fits by (change (2 ^ 16) with 65536; lia). cbn [rbind]. eapply outcome_bind.
  { eapply outcome_mono; [by apply (law_live_offsets source1 page)|by left|]. intros r Hr. exact Hr. }
  intros [live source2] _ [El Hinv2]. cbn [fst snd] in El, Hinv2. subst live.
  destruct (forallb _ (view_live v page)) eqn:Ez.
  { apply no_live in Ez. cbn [outcome visited candidate_pages live_pages term_payloads term_bytes emitted_tids]. rewrite answers_snoc_none by done.
    rewrite Hcnt, Hlen1, Ez, (proj2 (mask_count_zero _ _ (mask_wf_replicate _))) by done. unfold MAX_NODES. split_and!; done || lia. }
  cbn [live_pages candidate_pages term_payloads term_bytes emitted_tids]. rewrite add_w_fits by (change (2 ^ 16) with 65536; lia). cbn [rbind].
  destruct (dependencies_ok v program Hp Hlen summaries Hs page Hne Hpage) as (needed & -> & Hneed). cbn [rbind].
  set (stats1 := mkQueryStats _ _ _ _ _). eapply outcome_bind.
  { eapply outcome_mono; [|by left|].
    - apply (outcome_enumerate errs (settled page needed stats1)).
      + split_and!; [done|done|split_and!; cbn; done || lia|]. intros i Hi; lia.
      + intros i node s1 Hi. apply evaluate_node_ok; [done|done|done| | |done];
          cbn [stats1 term_payloads term_bytes]; unfold MAX_NODES; change (2 ^ 32) with 4294967296; lia.
    - intros r Hr. exact Hr. }
  intros [[offs2 stats2] source3] _ (Hl2 & Hinv3 & (Hc1 & Hc2 & Hc3 & Hc4 & Hc5) & Hset). cbn [stats1 candidate_pages live_pages emitted_tids term_payloads term_bytes] in Hc1, Hc2, Hc3, Hc4, Hc5.
  assert (Hpos : 1 <= len program) by (destruct program; [done|rewrite len_cons; lia]). rewrite sub_w_fits by done. cbn [rbind].
  destruct (Hset (len program - 1) ltac:(lia) ltac:(apply Hneed; constructor)) as (m & -> & Hm & Hmb). cbn [or_panic rbind]. cbv zeta.
  assert (m = answer v program page) as -> by (apply answer_eq; [done|]; intros o Ho; rewrite satisfies_value by done; by apply Hmb).
  destruct (N.eqb_spec (mask_count (answer v program page)) 0) as [E0|E0].
  - cbn [outcome visited]. rewrite Hcnt, Hlen1, E0. unfold MAX_NODES in *. apply (mask_count_zero OFFSET_WORDS) in E0; [|apply answer_wf].
    rewrite answers_snoc_none by done. split_and!; done || lia.
  - assert (Hnz : answer v program page <> replicate OFFSET_WORDS 0) by (intros E; by apply E0, (mask_count_zero OFFSET_WORDS); [apply answer_wf|]).
    rewrite (law_key source3) by done. rewrite (proj2 (key_block_ok _ page _ (view_key_wf v Hv) Hpage)) by done. cbn [rbind].
    pose proof (answer_count_le v program page) as Hle. eapply outcome_bind.
    { instantiate (1 := fun out' => emit_all out0 (answers v program (past ++ [page])) = Ok out').
      rewrite answers_snoc_some by done. rewrite emit_all_app, Hout. cbn [rbind]. unfold emit_all. cbn [foldM].
      destruct (emit out (base (view_key v) + page) (answer v program page)) as [out'|e|] eqn:Ee; [done| |by apply Hemit in Ee].
      right. unfold emit_errs. replace (past ++ page :: rest) with ((past ++ [page]) ++ rest) by by rewrite <- app_assoc.
      rewrite answers_app, answers_snoc_some by done. rewrite !emit_all_app, Hout. cbn [rbind]. unfold emit_all at 1. cbn [foldM]. by rewrite Ee. }
    intros out' _ Hout'. rewrite Hc3, Hem, add_w_fits by (change (2 ^ 32) with 4294967296; lia). cbn [rbind outcome visited].
    rewrite Hcnt, Hlen1. unfold MAX_NODES in *. cbn [candidate_pages live_pages term_payloads term_bytes emitted_tids]. split_and!; done || lia.
Qed.
End EvaluateSource.

(** ** Candidate pages lose nothing *)
Definition hits (v : View) (program : list Node.t) (ps : list N) : list N :=
  filter (fun page => answer v program page <> replicate OFFSET_WORDS 0) ps.
Lemma answer_count_hits v program ps : answer_count v program ps = answer_count v program (hits v program ps).
Proof.
  unfold hits. induction ps as [|page ps IH]; [done|]. rewrite filter_cons. destruct (decide (answer v program page <> replicate OFFSET_WORDS 0)) as [Hn|Hn].
  - unfold answer_count in *. cbn [foldr]. by rewrite IH.
  - apply dec_stable in Hn. rewrite <- IH. unfold answer_count. cbn [foldr]. by rewrite (proj2 (mask_count_zero _ _ (answer_wf v program page)) Hn).
Qed.
Lemma answers_hits v program ps : answers v program ps = answers v program (hits v program ps).
Proof.
  unfold answers, hits. rewrite list_filter_filter. f_equal. apply filter_ext_in. naive_solver.
Qed.
Lemma hits_covered v program root m : view_wf v -> program_ok (view_terms v) program -> program <> [] -> root = len program - 1 ->
  summary_of v program root m -> hits v program (pages m) = hits v program (pages (view_live_pages v)).
Proof.
  intros Hv Hp Hne -> Hsum. pose proof Hsum as (Hm & Hsub & Hcov). destruct (view_live_pages_ok v Hv) as [Hl _].
  apply (asc_unique 0); [by apply asc_filter, pages_asc..|]. intros page. unfold hits. rewrite !list_elem_of_filter, !elem_of_pages by done.
  split; [naive_solver|]. intros (Hn & Hpage & _). split_and!; [done|done|].
  destruct (mask_bit m page) eqn:Hb; [done|]. exfalso. apply Hn, (mask_ext OFFSET_WORDS); [apply answer_wf|apply mask_wf_replicate|].
  intros o Ho. change (64 * _) with 512 in Ho. rewrite mask_bit_zero, answer_bit by done. apply not_true_iff_false.
  rewrite satisfies_value by done. intros Hval. by rewrite (Hcov page o Hpage Hval) in Hb.
Qed.

(** ** The evaluator, against the interface *)
Definition scratch_wf (scratch : QueryScratch) : Prop := len (scratch_pages scratch) = MAX_NODES /\ len (scratch_offsets scratch) = MAX_NODES.
Lemma evaluate_source_ok {T O} `{LawfulSource T v demanded errs inv} (emit : O -> N -> list N -> Result O) source program scratch out :
  view_wf v -> (forall o b m, safe (emit o b m)) -> inv source -> scratch_wf scratch -> program_wf (view_terms v) program ->
  (forall page t, page < 256 -> summary_at v program (len program - 1) page = true -> demands v program page t -> demanded t) ->
  let all := answers v program (pages (view_live_pages v)) in
  outcome (fun e => errs e \/ emit_all emit out all = Err e)
    (fun '(stats, scratch', source', out') =>
       emit_all emit out all = Ok out' /\ emitted_tids stats = answer_count v program (pages (view_live_pages v)) /\
       scratch_wf scratch' /\ inv source')
    (evaluate_source emit source program scratch out).
Proof.
  intros Hv Hemit Hinv [Hsp Hso] Hprog Hdem all. pose proof Hprog as (Hne & Hlen & Hterms & Hp). unfold evaluate_source.
  eapply outcome_bind. { eapply outcome_mono; [by apply law_interrupt|by left|]. intros s Hs. exact Hs. }
  intros source1 _ Hinv1. rewrite (law_terms source1) by done. rewrite (proj2 (validate_program_ok _ _) Hprog). cbn [rbind]. cbv zeta.
  rewrite (law_live_pages source1) by done. eapply outcome_bind.
  { eapply outcome_mono; [apply (summaries_ok v Hv program Hp (source_term_pages source1) (scratch_pages scratch)); [|done|done]|done|].
    - intros t Ht. by apply law_term_pages.
    - intros s Hs. exact Hs. }
  intros summaries _ Hs. assert (Hpos : 1 <= len program) by (destruct program; [done|rewrite len_cons; lia]).
  rewrite sub_w_fits by done. cbn [rbind]. destruct (summarized_child v program _ _ (len program - 1) Hs ltac:(lia)) as (m & -> & Elist & Hm). cbn [or_panic rbind].
  pose proof (hits_covered v program _ m Hv Hp Hne eq_refl Hm) as Hhits. pose proof Hm as (Hmw & Hsub & _).
  assert (Eall : answers v program (pages m) = all) by (rewrite answers_hits, Hhits; by rewrite <- answers_hits).
  assert (Hm256 : len (pages m) <= 256) by (rewrite <- page_count_pages by done; by apply page_count_le).
  eapply outcome_bind.
  { eapply outcome_mono.
    - apply (outcome_foldM (emit_errs (errs := errs) (v := v) emit program out (pages m))
        (visited (v := v) (inv := inv) emit program out) (evaluate_page emit program summaries)).
      + unfold visited, emit_all. split_and!; cbn; done || lia.
      + intros past page rest s El Hst. rewrite El. assert (Hin : page ∈ pages m) by (rewrite El; apply elem_of_app; right; left).
        apply elem_of_pages in Hin as [Hpage Hb]; [|done].
        apply (evaluate_page_ok (demanded := demanded)); try done; [by rewrite <- El| |intros t; apply Hdem; [done|]; unfold summary_at; by rewrite Elist].
        eapply mask_ok_page; [apply (view_key_wf v Hv)|apply (view_live_pages_ok v Hv)|done|by apply Hsub].
    - intros e He. unfold emit_errs in He. by rewrite Eall in He.
    - intros r Hr. exact Hr. }
  intros [[[offs stats] source2] out'] _ (Hl & Hinv2 & Hout & _ & _ & _ & _ & Hem). cbn [outcome]. rewrite Eall in Hout.
  split_and!; [done| |destruct Hs as [Hs _]; split; [exact Hs|exact Hl]|done].
  rewrite Hem, answer_count_hits, Hhits. by rewrite <- answer_count_hits.
Qed.

(** ** The payloads that are read *)
(** A source that keeps the page and term of every payload read from another. *)
Definition recorded (T : Type) (source_T : Source T) : Source (T * list (N * N)) := {|
  source_key s := source_key (fst s);
  source_terms s := source_terms (fst s);
  source_live_pages s := source_live_pages (fst s);
  source_term_pages s t := source_term_pages (fst s) t;
  source_live_offsets s page := let* '(m, t) := source_live_offsets (fst s) page in Ok (m, (t, snd s));
  source_term_offsets s term page := let* '(m, n, t) := source_term_offsets (fst s) term page in Ok (m, n, (t, snd s ++ [(page, term)]));
  source_interrupt s := let* t := source_interrupt (fst s) in Ok (t, snd s) |}.
Lemma recorded_lawful T (source_T : Source T) v demanded errs inv : LawfulSource T v demanded errs inv ->
  @LawfulSource _ (recorded T source_T) v demanded errs (fun s => inv (fst s)).
Proof.
  intros H. split; cbn [source_key source_terms source_live_pages source_term_pages source_live_offsets source_term_offsets source_interrupt recorded].
  - intros s. apply law_key.
  - intros s. apply law_terms.
  - intros s. apply law_live_pages.
  - intros s t. apply law_term_pages.
  - intros s page Hs Hp. eapply outcome_bind; [by apply (law_live_offsets (fst s) page)|]. by intros [m t] _ Hr.
  - intros s t page Hs Ht Hd Hp. eapply outcome_bind; [by apply (law_term_offsets (fst s) t page)|]. by intros [[m n] t'] _ Hr.
  - intros s Hs. eapply outcome_bind; [by apply (law_interrupt (fst s))|]. by intros t _ Hr.
Qed.
(** What holds of a result, if there is one. *)
Definition when_ok {E A} (P : A -> Prop) (m : res E A) : Prop := match m with Ok a => P a | _ => True end.
Lemma when_ok_bind {E A B} (P : A -> Prop) (Q : B -> Prop) (m : res E A) k : when_ok P m -> (forall a, P a -> when_ok Q (k a)) -> when_ok Q (rbind m k).
Proof. destruct m; cbn; auto. Qed.
Lemma when_ok_any {E A B} (Q : B -> Prop) (m : res E A) k : (forall a, when_ok Q (k a)) -> when_ok Q (rbind m k).
Proof. destruct m; cbn; auto. Qed.
Lemma outcome_when_ok {E A} errs (P : A -> Prop) (m : res E A) : outcome errs P m -> when_ok P m.
Proof. by destruct m. Qed.
Lemma when_ok_foldM {E S A} (I : list A -> S -> Prop) (f : S -> A -> res E S) s l :
  I [] s -> (forall pre a post s, l = pre ++ a :: post -> I pre s -> when_ok (I (pre ++ [a])) (f s a)) -> when_ok (I l) (foldM f s l).
Proof.
  intros H0 Hstep. assert (G : forall pre post s, l = pre ++ post -> I pre s -> when_ok (I l) (foldM f s post)).
  { intros pre post; revert pre. induction post as [|a post IH]; intros pre s0 El Hs; cbn [foldM].
    - rewrite app_nil_r in El. by subst pre.
    - apply (when_ok_bind (I (pre ++ [a]))); [by eapply Hstep|]. intros s1 H1. apply (IH (pre ++ [a])); [|done]. by rewrite <- app_assoc. }
  by apply (G [] l).
Qed.
Lemma when_ok_enumerate {E S A} (I : N -> S -> Prop) (f : S -> N * A -> res E S) s l :
  I 0 s -> (forall i a s, index l i = Some a -> I i s -> when_ok (I (i + 1)) (f s (i, a))) -> when_ok (I (len l)) (foldM f s (enumerate l)).
Proof.
  intros H0. induction l as [|a l IH] using rev_ind; intros Hstep; [done|]. rewrite enumerate_snoc, foldM_app, len_app. eapply when_ok_bind.
  - apply IH. intros i x s1 Hi. apply Hstep, index_snoc. by left.
  - intros s1 H1. cbn [foldM]. eapply when_ok_bind; [apply Hstep; [|exact H1]|by intros s2 H2]. apply index_snoc. by right.
Qed.

Section Recorded.
Context {T O : Type} (source_T : Source T) `{!LawfulSource T v demanded errs inv} (emit : O -> N -> list N -> Result O).
Context (Hv : view_wf v) (program : list Node.t) (Hp : program_ok (view_terms v) program) (Hlen : len program <= MAX_NODES).
Context (Hne : program <> []) (summaries : list (list N)) (Hs : summarized v program (len program) summaries).
(** What was read on a page by the nodes before [k]. *)
Definition page_log (log0 : list (N * N)) (page k : N) (log : list (N * N)) : Prop :=
  forall q, q ∈ log <-> q ∈ log0 \/ exists i t, i < k /\ index program i = Some (Node.Term t) /\ reach v program page i /\ summary_at v program i page = true /\ q = (page, t).
Lemma page_log_step log0 page k log log' node : index program k = Some node -> page_log log0 page k log ->
  (forall q, q ∈ log' <-> q ∈ log \/ exists t, node = Node.Term t /\ reach v program page k /\ summary_at v program k page = true /\ q = (page, t)) ->
  page_log log0 page (k + 1) log'.
Proof.
  intros Hk Hl Hl' q. rewrite Hl', (Hl q). split.
  - intros [[?|(i & t & ? & ?)]|(t & -> & ?)]; [by left|right; exists i, t; split; [lia|done]|right; exists k, t; split; [lia|done]].
  - intros [?|(i & t & Hi & Et & Hr & Hsum & ->)]; [by left; left|]. destruct (decide (i = k)) as [->|].
    + rewrite Hk in Et. injection Et as ->. right. by exists t.
    + left. right. exists i, t. split; [lia|done].
Qed.
Lemma page_log_other log0 page k log node : index program k = Some node -> page_log log0 page k log ->
  (forall t, node = Node.Term t -> ~ (reach v program page k /\ summary_at v program k page = true)) -> page_log log0 page (k + 1) log.
Proof. intros Hk Hl Hn. eapply page_log_step; [done..|]. intros q. split; [by left|]. intros [?|(t & Et & ? & ? & _)]; [done|]. by destruct (Hn t Et). Qed.
Lemma recorded_node page needed k node log0 offs stats s log : page < 256 -> (forall i, N.testbit needed i = true <-> reach v program page i) ->
  (forall t, demands v program page t -> demanded t) -> index program k = Some node -> inv s -> page_log log0 page k log ->
  when_ok (fun '(_, _, (s', log')) => inv s' /\ page_log log0 page (k + 1) log')
    (evaluate_node (H := recorded T source_T) summaries needed (view_live v page) page (offs, stats, (s, log)) (k, node)).
Proof.
  intros Hpage Hneed Hdem Hk Hi Hl. destruct (program_index program Hlen k node Hk) as [Hkl Hk64]. pose proof (Hp k node Hk) as Hn.
  unfold evaluate_node, shl1. rewrite (proj2 (N.ltb_lt k 64)) by done. cbn [rbind]. rewrite land_pow2. destruct (N.testbit needed k) eqn:Ebit; cbn [negb].
  2:{ split; [done|]. eapply page_log_other; [done..|]. intros t _ [Hr _]. apply Hneed in Hr. by rewrite Ebit in Hr. }
  destruct (summarized_child v program _ _ k Hs Hkl) as (m & Em & Elist & Hm). rewrite Em. cbn [or_panic rbind]. rewrite page_contains_bit by done.
  assert (Esum : summary_at v program k page = mask_bit m page) by (unfold summary_at; by rewrite Elist). destruct (mask_bit m page) eqn:Eb; cbn [negb].
  2:{ apply when_ok_any. intros offs'. split; [done|]. eapply page_log_other; [done..|]. intros t _ [_ Hr]. by rewrite Esum in Hr. }
  destruct node as [t| |l r|l r|l r|c]; cbn [operation rbind].
  2-6: assert (Hk1 : page_log log0 page (k + 1) log) by (by eapply page_log_other); repeat (rewrite ?rbind_assoc; cbn [rbind]; apply when_ok_any; intros ?); by split.
  cbn [valid_node] in Hn. apply N.ltb_lt in Hn. cbn [source_term_offsets recorded fst snd]. rewrite !rbind_assoc. eapply when_ok_bind.
  { eapply outcome_when_ok, law_term_offsets; [done|done| |done]. apply Hdem. exists k. split; [done|]. split; [by apply Hneed|done]. }
  intros [[mt bytes] s'] (_ & _ & Hi'). cbn [rbind]. do 2 (rewrite ?rbind_assoc; cbn [rbind]; apply when_ok_any; intros ?). split; [done|]. eapply page_log_step; [done..|].
  intros q. rewrite elem_of_app, list_elem_of_singleton. split; [intros [?| ->]; [by left|right; exists t; split; [done|]; split; [by apply Hneed|done]]|].
  intros [?|(t' & [= <-] & _ & _ & ->)]; [by left|by right].
Qed.
(** The payloads of the candidate pages, but for those without a live member. *)
Definition reads (past : list N) (log : list (N * N)) : Prop :=
  forall page t, (page, t) ∈ log <-> page ∈ past /\ existsb (fun word => negb (word =? 0)) (view_live v page) = true /\ demands v program page t.
Lemma recorded_page past page st : page < 256 -> page_ok (view_key v) page -> (forall t, demands v program page t -> demanded t) ->
  (let '(_, _, (s, log), _) := st in inv s /\ reads past log) ->
  when_ok (fun '(_, _, (s, log), _) => inv s /\ reads (past ++ [page]) log) (evaluate_page (H := recorded T source_T) emit program summaries st page).
Proof.
  intros Hpage Hok Hdem. destruct st as [[[offs stats] [s log]] out]. intros [Hi Hl]. unfold evaluate_page. cbn [source_interrupt recorded fst snd]. rewrite rbind_assoc.
  eapply when_ok_bind; [by eapply outcome_when_ok, law_interrupt|]. intros s1 Hi1. cbn [rbind]. apply when_ok_any. intros n. cbn [source_live_offsets recorded fst snd]. rewrite rbind_assoc.
  eapply when_ok_bind; [by eapply outcome_when_ok, (law_live_offsets s1 page)|]. intros [live s2] [El Hi2]. cbn [fst snd rbind] in *. subst live.
  assert (Hex : existsb (fun word => negb (word =? 0)) (view_live v page) = negb (forallb (fun word => word =? 0) (view_live v page))).
  { induction (view_live v page) as [|x l IH]; [done|]. cbn [existsb forallb]. by rewrite IH, negb_andb. }
  destruct (forallb _ (view_live v page)) eqn:Ez.
  { split; [done|]. intros p t. rewrite (Hl p t), elem_of_app, list_elem_of_singleton. split; [naive_solver|]. intros ([?| ->] & Hp' & ?); [done|]. by rewrite Hex in Hp'. }
  apply when_ok_any. intros n'. destruct (dependencies_ok v program Hp Hlen summaries Hs page Hne Hpage) as (needed & -> & Hneed). cbn [rbind].
  eapply (when_ok_bind (fun '(_, _, (s', log')) => inv s' /\ page_log log page (len program) log')).
  { apply (when_ok_enumerate (fun k '(_, _, (s', log')) => inv s' /\ page_log log page k log')).
    - split; [done|]. intros q. split; [by left|]. intros [?|(i & t & ? & _)]; [done|lia].
    - intros i node [[offs1 stats1] [s3 log3]] Hin [Hi3 Hl3]. by apply recorded_node. }
  intros [[offs2 stats2] [s3 log3]] [Hi3 Hl3].
  assert (Hdone : inv s3 /\ reads (past ++ [page]) log3).
  { split; [done|]. intros p t. rewrite (Hl3 (p, t)), (Hl p t), elem_of_app, list_elem_of_singleton. split.
    - intros [(? & ? & ?)|(i & t' & _ & Et & Hr & Hsum & [= -> ->])]; [tauto|]. split; [by right|]. split; [exact Hex|]. by exists i.
    - intros ([?| ->] & ? & Hd); [by left|]. right. destruct Hd as (i & Et & Hr & Hsum). exists i, t. split_and!; [|done..].
      unfold index in Et. apply lookup_lt_Some in Et. unfold len. lia. }
  do 2 (apply when_ok_any; intros ?). destruct (mask_count _ =? 0); [exact Hdone|]. do 3 (apply when_ok_any; intros ?). exact Hdone.
Qed.
End Recorded.
Lemma evaluate_source_reads {T O} (source_T : Source T) `{!LawfulSource T v demanded errs inv} (emit : O -> N -> list N -> Result O) source program scratch out root :
  view_wf v -> inv source -> program_wf (view_terms v) program -> len (scratch_pages scratch) = MAX_NODES -> index (summary_list v program) (len program - 1) = Some root ->
  (forall page t, page ∈ pages root -> demands v program page t -> demanded t) ->
  when_ok (fun '(_, _, (_, log), _) => reads (v := v) program (pages root) log) (evaluate_source (H := recorded T source_T) emit (source, []) program scratch out).
Proof.
  intros Hv Hi Hprog Hsp Eroot Hdem. pose proof Hprog as (Hne & Hlen & Hterms & Hp). unfold evaluate_source. cbn [source_interrupt recorded fst snd]. rewrite rbind_assoc.
  eapply when_ok_bind; [by eapply outcome_when_ok, law_interrupt|]. intros s1 Hi1. cbn [rbind]. cbn [source_terms source_live_pages recorded fst].
  apply when_ok_any. intros _. cbv zeta. rewrite (law_live_pages s1) by done. eapply when_ok_bind.
  { eapply outcome_when_ok, (summaries_ok v Hv program Hp _ (scratch_pages scratch)); [|done|done]. intros t Ht. cbn [source_term_pages recorded fst]. by apply law_term_pages. }
  intros summaries Hs. assert (Hpos : 1 <= len program) by (destruct program; [done|rewrite len_cons; lia]). rewrite sub_w_fits by done. cbn [rbind].
  destruct (summarized_child v program _ _ (len program - 1) Hs ltac:(lia)) as (m & -> & Elist & Hm). cbn [or_panic rbind].
  rewrite Eroot in Elist. injection Elist as <-. pose proof Hm as (Hmw & Hsub & _). eapply (when_ok_bind (fun '(_, _, (s, log), _) => inv s /\ reads (v := v) program (pages root) log)).
  { apply (when_ok_foldM (fun past '(_, _, (s, log), _) => inv s /\ reads (v := v) program past log)).
    - split; [done|]. intros page t. split; [by intros ?%elem_of_nil|]. by intros [?%elem_of_nil _].
    - intros past page rest st El Hst. assert (Hin : page ∈ pages root) by (rewrite El; apply elem_of_app; right; left). pose proof Hin as [Hpage Hb]%elem_of_pages; [|done].
      apply (recorded_page source_T emit program Hp Hlen Hne summaries Hs); try done; [|intros t; by apply Hdem].
      eapply mask_ok_page; [apply (view_key_wf v Hv)|apply (view_live_pages_ok v Hv)|done|by apply Hsub]. }
  intros [[[offs stats] [s2 log]] out'] [_ Hl]. exact Hl.
Qed.

(** ** The source of records in memory *)
(** A bitmap that [Bitmap::open] returned. *)
Definition opened (b : Bitmap) : Prop := exists h ps, record_wf h ps /\ b = view h ps.
(** The pages of an opened bitmap; a payload that does not decode reads as empty. *)
Definition bitmap_mask (b : Bitmap) (page : N) : list N :=
  if page <? 256 then match offsets_at b page with Ok m => m | _ => replicate OFFSET_WORDS 0 end else replicate OFFSET_WORDS 0.
Lemma opened_mask b page : opened b -> page < 256 ->
  offsets_at b page = Ok (bitmap_mask b page) \/ offsets_at b page = Err InvalidState.
Proof.
  intros (h & ps & Hr & ->) Hp. unfold bitmap_mask. rewrite (proj2 (N.ltb_lt _ _)) by done. rewrite offsets_view by done.
  destruct (payload h ps page) as [p|]; [destruct (payload_ok _ _ p)|]; (by left) || (by right).
Qed.
Lemma opened_mask_wf b page : opened b -> mask_wf OFFSET_WORDS (bitmap_mask b page).
Proof.
  intros (h & ps & Hr & ->). unfold bitmap_mask. destruct (N.ltb_spec page 256) as [Hp|]; [|apply mask_wf_replicate].
  rewrite offsets_view by done. destruct (payload h ps page) as [p|]; [destruct (payload_ok _ _ p)|];
    apply payload_words_wf || apply mask_wf_replicate.
Qed.
Lemma opened_covered b : opened b -> covers (bitmap_pages b) (bitmap_mask b).
Proof.
  intros (h & ps & Hr & ->) page o Hp. unfold bitmap_mask. rewrite (proj2 (N.ltb_lt _ _)) by done. rewrite offsets_view by done.
  pose proof (payload_view h ps page Hr Hp) as Hpv. change (bitmap_pages (view h ps)) with (header_mask h).
  destruct (payload h ps page) as [p|]; [by intros _; destruct Hpv|]. by rewrite mask_bit_zero.
Qed.
Lemma opened_pages b : opened b -> mask_wf PAGE_WORDS (bitmap_pages b).
Proof. intros (h & ps & (Hh & _) & ->). apply Hh. Qed.
Lemma opened_bytes b page : opened b -> page < 256 -> exists n, payload_bytes (E := Error) b page = Ok n /\ n <= 64.
Proof.
  intros (h & ps & Hr & ->) Hp. rewrite payload_bytes_view by done. pose proof (payload_view h ps page Hr Hp) as Hpv.
  destruct (payload h ps page) as [p|]; [|by exists 0]. exists (len p). split; [done|]. destruct Hpv as (_ & [_ Hw] & _).
  destruct Hr as (((_ & _ & [_ Hl] & _) & _) & _). apply div_ceil_8_le in Hl. lia.
Qed.

Lemma sealed_opened k l kind : key_wf k -> Forall (member_wf k) l -> opened (sealed_view k l kind).
Proof.
  intros Hk Hf. eexists _, _. split; [|reflexivity].
  exact (encoded_wf (fun page => Ok (page_mask k l page)) k Hk _ kind _ (members_mask_ok k l Hk Hf) (members_good k Hk l Hf _ (page_mask_total k l))).
Qed.

Section Memory.
Context {I : Type} (interrupt : I -> Result I) (Hint : forall s, safe (interrupt s)).
Context (k : GroupKey) (ms alive : list Member) (Hg : group_wf k ms alive) (terms : list Bitmap) (Hterms : Forall opened terms).
(** A term of the query; beyond them, any bitmap. *)
Definition term_bitmap (t : N) : Bitmap := default (live_view k ms alive) (index terms t).
Definition memory_view : View := {|
  view_key := k;
  view_terms := len terms;
  view_live := page_mask k alive;
  view_term t := bitmap_mask (term_bitmap t);
  view_live_pages := members_mask ms;
  view_term_pages t := bitmap_pages (term_bitmap t);
|}.
Definition memory_inv (source : MemorySource I) : Prop :=
  exists s, source = mkMemorySource (group_view k ms alive) terms interrupt s.
Definition memory_errs (e : Error) : Prop :=
  (exists b page, b ∈ terms /\ page < 256 /\ offsets_at b page = Err e) \/ exists s, interrupt s = Err e.
Lemma memory_term t : t < len terms -> exists b, index terms t = Some b /\ b ∈ terms /\ opened b.
Proof.
  intros Ht. unfold index. destruct (terms !! N.to_nat t) as [b|] eqn:E; [|apply lookup_ge_None in E; unfold len in Ht; lia].
  apply list_elem_of_lookup_2 in E. exists b. split_and!; [done|done|]. by apply (proj1 (list.Forall_forall _ _) Hterms).
Qed.
Lemma term_bitmap_opened t : opened (term_bitmap t).
Proof.
  unfold term_bitmap. destruct (index terms t) as [b|] eqn:E; cbn.
  - apply (proj1 (list.Forall_forall _ _) Hterms). unfold index in E. by eapply list_elem_of_lookup_2.
  - exists (live_head k ms), (live_payloads k ms alive). split; [|done]. by apply live_record_wf, Hg.
Qed.
Lemma memory_view_wf : view_wf memory_view.
Proof.
  pose proof (group_wf_sub _ _ _ Hg) as (Hk & Hfa & _). pose proof Hg as [Hwf Hsub]. pose proof Hwf as (_ & Hf & _).
  pose proof (members_mask_ok k ms Hk Hf) as Hm. constructor; cbn.
  - done.
  - done.
  - intros page. apply offsets_mask_wf.
  - intros page o Hp (m & Hma & Eb & _)%(page_mask_bit k Hk alive Hfa). apply members_mask_bit. exists m.
    assert (Hin : m ∈ ms) by by eapply elem_of_sublist. split; [done|].
    pose proof (page_of_block k m Hk (proj1 (list.Forall_forall _ _) Hf m Hin)). lia.
  - intros t page. apply opened_mask_wf, term_bitmap_opened.
  - intros t _. apply opened_pages, term_bitmap_opened.
  - intros t _. apply opened_covered, term_bitmap_opened.
Qed.
#[export] Instance memory_lawful : LawfulSource (MemorySource I) memory_view (fun _ => True) memory_errs memory_inv.
Proof.
  constructor.
  - by intros s [i ->].
  - by intros s [i ->].
  - by intros s [i ->].
  - intros s t [i ->] (b & E & _)%memory_term. cbn. unfold term_bitmap. by rewrite E.
  - intros s page [i ->] Hp. cbn. rewrite (live_offsets_view k ms alive page Hg Hp). cbn. split; [done|by exists i].
  - intros s t page [i ->] (b & E & Hin & Hb)%memory_term _ Hp. cbn. unfold term_bitmap. rewrite E. cbn [or_panic rbind default from_option]. unfold id.
    destruct (opened_mask b page Hb Hp) as [Em|Em]; rewrite Em; cbn [rbind].
    + destruct (opened_bytes b page Hb Hp) as (n & -> & Hn). cbn [rbind outcome fst snd]. split_and!; [done|done|by exists i].
    + left. by exists b, page.
  - intros s [i ->]. cbn. destruct (interrupt i) as [j|e|] eqn:E; cbn; [by exists j|right; by exists i|by apply (Hint i)].
Qed.
End Memory.

(** ** In terms of members *)
Lemma values_ext terms program live f g : program_ok terms program -> (forall t, t < terms -> f t = g t) ->
  values program live f = values program live g.
Proof.
  intros Hp Hf. induction program as [|node program IH] using rev_ind; [done|].
  apply program_ok_snoc in Hp as [Hp Hn]. rewrite !values_snoc, IH by done. do 2 f_equal.
  destruct node; cbn in *; try done. apply N.ltb_lt in Hn. by rewrite Hf.
Qed.
(** The coordinates of the masks a query emits, as keys. *)
Definition emitted_keys (l : list (N * list N)) : list N :=
  l ≫= (fun '(b, m) => (fun o => b * 65536 + (o + 1)) <$> mask_bits m).
Lemma asc_bind (f : N -> list N) (lo hi : N -> N) ps start : (forall p, p ∈ ps -> asc (lo p) (f p) /\ (forall x, x ∈ f p -> x < hi p) /\ lo p <= hi p) ->
  (forall p q, p < q -> hi p <= lo q) -> (forall p, p ∈ ps -> start <= lo p) -> asc 0 ps -> asc start (ps ≫= f).
Proof.
  intros Hf Hlohi. revert start. generalize 0 as n. induction ps as [|p ps IH]; intros n start Hstart Ha; [done|]. destruct Ha as [_ Ha].
  destruct (Hf p ltac:(left)) as (Hasc & Hlt & Hle). rewrite bind_cons. apply (asc_app _ _ _ (hi p)).
  - eapply asc_weaken; [|exact Hasc]. apply Hstart. left.
  - done.
  - specialize (Hstart p ltac:(left)). lia.
  - apply (IH ltac:(intros; apply Hf; by right) (p + 1)); [|done]. intros q Hq. apply Hlohi. pose proof (asc_ge _ _ _ Ha Hq). lia.
Qed.
Section QueryMembers.
Context (k : GroupKey) (ms alive : list Member) (Hg : group_wf k ms alive) (ls : list (list Member)).
Context (Hls : Forall (fun l => l ⊆ ms /\ asc 0 (member_key <$> l)) ls).
Definition postings : list Bitmap := (fun l => sealed_view k l Posting) <$> ls.
Definition term_members (t : N) : list Member := default [] (index ls t).
(** The live members that satisfy the program. *)
Definition matching (program : list Node.t) : list Member :=
  filter (fun m => matches program true (fun t => bool_decide (m ∈ term_members t)) = true) alive.
Lemma term_members_wf t : term_members t ⊆ ms /\ members_wf k (term_members t).
Proof.
  unfold term_members. destruct (index ls t) as [l|] eqn:E; cbn.
  - unfold index in E. pose proof (Forall_lookup_1 _ _ _ _ Hls E) as [Hsub Ha]. split; [done|]. eapply members_wf_sub; [apply Hg|done|done].
  - split; [apply list_subseteq_nil|]. split_and!; [apply Hg|constructor|done].
Qed.
Lemma postings_opened : Forall opened postings.
Proof.
  unfold postings. apply list.Forall_fmap, list.Forall_forall. intros l Hl. cbn.
  pose proof (proj1 (list.Forall_forall _ _) Hls l Hl) as [Hsub Ha]. destruct (members_wf_sub k ms l (proj1 Hg) Hsub Ha) as (Hk & Hf & _).
  by apply sealed_opened.
Qed.
Lemma posting_mask t page : t < len ls -> page < 256 -> view_term (memory_view k ms alive postings) t page = page_mask k (term_members t) page.
Proof.
  intros Ht Hp. destruct (term_members_wf t) as [_ (Hk & Hf & _)]. cbn. unfold term_bitmap, postings, index. rewrite list_lookup_fmap.
  unfold term_members, index in *. destruct (ls !! N.to_nat t) as [l|] eqn:E; [|apply lookup_ge_None in E; unfold len in Ht; lia]. cbn in *.
  unfold bitmap_mask. rewrite (proj2 (N.ltb_lt _ _) Hp), sealed_offsets by done. done.
Qed.
Lemma satisfies_member program m : program_ok (len ls) program -> m ∈ alive ->
  satisfies (memory_view k ms alive postings) program (page_of (member_root m)) (root_offset (member_root m) - 1)
    = matches program true (fun t => bool_decide (m ∈ term_members t)).
Proof.
  intros Hp Hm. assert (Hin : m ∈ ms) by by eapply alive_in. unfold satisfies. cbn [memory_view view_live].
  rewrite (proj2 (member_bit k ms alive Hg alive m (alive_in k ms alive Hg) Hin)) by done.
  unfold matches. do 2 f_equal. apply (values_ext (len ls)); [done|]. intros t Ht. rewrite posting_mask by (done || apply page_of_lt).
  apply eq_true_iff_eq. rewrite bool_decide_eq_true. apply (member_bit k ms alive Hg); [apply term_members_wf|done].
Qed.
Lemma emitted_keys_matching program : program_wf (len ls) program ->
  emitted_keys (answers (memory_view k ms alive postings) program (pages (members_mask ms))) = member_key <$> matching program.
Proof.
  intros (Hne & _ & _ & Hp). set (v := memory_view k ms alive postings). pose proof Hg as [Hwf Hsub]. pose proof Hwf as (Hk & Hf & Ha).
  pose proof (group_wf_sub _ _ _ Hg) as (_ & Hfa & Haa). pose proof (members_mask_ok k ms Hk Hf) as [Hmw _].
  assert (Hpv : program_ok (view_terms v) program) by (cbn; unfold postings; by rewrite len_fmap).
  unfold emitted_keys, answers. rewrite list_fmap_bind. set (ps := filter _ (pages (members_mask ms))).
  assert (Hps : forall page, page ∈ ps -> page < 256).
  { intros page [_ Hin]%list_elem_of_filter. by apply elem_of_pages in Hin as [? _]. }
  apply (asc_unique 0).
  - apply (asc_bind _ (fun p => (base k + p) * 65536 + 1) (fun p => (base k + p) * 65536 + 513)); [|intros; lia|intros; lia|by apply asc_filter, pages_asc].
    intros p Hpp. cbn [compose]. split_and!; [| |lia].
    + change (base (view_key v)) with (base k).
      assert (E : (fun o => (base k + p) * 65536 + (o + 1)) <$> mask_bits (answer v program p) = (fun o => o + ((base k + p) * 65536 + 1)) <$> mask_bits (answer v program p)).
      { apply list_fmap_ext. intros. lia. }
      rewrite E, <- (N.add_0_l ((base k + p) * 65536 + 1)) at 1. apply asc_shift. by apply asc_mask_bits.
    + intros x (o & -> & Ho)%list_elem_of_fmap_1. apply elem_of_mask_bits in Ho as [Ho _]. unfold len in Ho. rewrite (proj1 (answer_wf v program p)) in Ho.
      change (base (view_key v)) with (base k). unfold OFFSET_WORDS in Ho. lia.
  - unfold matching. by apply asc_fmap_filter.
  - intros x. split.
    + intros (page & Hx & Hpage)%list_elem_of_bind. cbn [compose] in Hx. apply list_elem_of_fmap_1 in Hx as (o & -> & Ho).
      apply elem_of_mask_bits in Ho as [Ho Hb]. unfold len in Ho. rewrite (proj1 (answer_wf v program page)) in Ho.
      assert (Ho512 : o < 512) by (unfold OFFSET_WORDS in Ho; lia). rewrite answer_bit in Hb by done. pose proof Hb as Hsat.
      rewrite satisfies_value in Hb by done. apply (value_live v program _ page o Hpv) in Hb.
      apply (page_mask_bit k Hk alive Hfa) in Hb as (m & Hm & Eb & Eo). pose proof (Hps page Hpage) as Hp256.
      assert (Hin : m ∈ ms) by by eapply alive_in. pose proof (page_of_block k m Hk (member_in k ms Hwf m Hin)) as Epg.
      apply list_elem_of_fmap. exists m. split.
      * destruct (member_key_eq k ms Hwf m Hin) as [-> _]. change (base (view_key v)) with (base k). rewrite Eb, Eo. done.
      * apply list_elem_of_filter. split; [|done]. rewrite <- (satisfies_member program m Hp Hm).
        replace (page_of (member_root m)) with page by lia. by replace (root_offset (member_root m) - 1) with o by lia.
    + intros (m & -> & Hm)%list_elem_of_fmap_1. apply list_elem_of_filter in Hm as [Hmatch Hm].
      assert (Hin : m ∈ ms) by by eapply alive_in. destruct (member_key_eq k ms Hwf m Hin) as [-> Ho].
      pose proof (page_of_block k m Hk (member_in k ms Hwf m Hin)) as Epg. rewrite <- (satisfies_member program m Hp Hm) in Hmatch.
      set (page := page_of (member_root m)) in *. set (o := root_offset (member_root m) - 1) in *.
      assert (Hb : mask_bit (answer v program page) o = true) by (rewrite answer_bit by (unfold o; lia); exact Hmatch).
      apply list_elem_of_bind. exists page. cbn [compose]. split.
      * apply list_elem_of_fmap. exists o. change (base (view_key v)) with (base k). split; [unfold o; lia|].
        apply elem_of_mask_bits. unfold len. rewrite (proj1 (answer_wf v program page)). split; [unfold o, OFFSET_WORDS; lia|done].
      * apply list_elem_of_filter. split; [intros E; rewrite E, mask_bit_zero in Hb; done|]. by eapply member_page.
Qed.
End QueryMembers.

(** ** Demand, before any payload is read *)
Definition masks_wf (l : list (list N)) : Prop := len l = MAX_NODES /\ forall i, i < MAX_NODES -> exists d, index l i = Some d /\ mask_wf PAGE_WORDS d.
Definition bit_at (l : list (list N)) (i p : N) : bool := match index l i with Some d => mask_bit d p | None => false end.
Lemma or_mask_wf {n} a b : mask_wf n a -> mask_wf n b -> mask_wf n (or_mask a b).
Proof. intros. apply mask_wf_zip; [done..|]. intros x y Hx Hy. by apply lor_lt_pow2. Qed.
Lemma or_mask_bit {n} a b p : mask_wf n a -> mask_wf n b -> mask_bit (or_mask a b) p = mask_bit a p || mask_bit b p.
Proof.
  intros Ha Hb. destruct (decide (p < 64 * N.of_nat n)) as [Hp|Hp].
  - apply mask_bit_zip; [by rewrite (proj1 Ha), (proj1 Hb)|intros; apply N.lor_spec|]. unfold len. by rewrite (proj1 Ha).
  - assert (Hd : forall m, mask_wf n m -> mask_bit m p = false).
    { intros m Hm. apply mask_bit_default. unfold len. rewrite (proj1 Hm). lia. }
    rewrite !Hd by (done || by apply or_mask_wf). done.
Qed.
(** One child takes the active pages of its parent. *)
Lemma spread_one demanded c active : masks_wf demanded -> c < MAX_NODES -> mask_wf PAGE_WORDS active ->
  exists demanded', (let* x := or_panic (index demanded c) in set_at (E := Error) demanded c (or_mask x active)) = Ok demanded' /\
    masks_wf demanded' /\ forall j p, bit_at demanded' j p = ((j =? c) && mask_bit active p) || bit_at demanded j p.
Proof.
  intros [Hl Hd] Hc Ha. destruct (Hd c Hc) as (x & Ex & Hx). exists (<[N.to_nat c := or_mask x active]> demanded). rewrite Ex. cbn [or_panic rbind].
  unfold set_at. rewrite (proj2 (N.ltb_lt _ _)) by lia. split; [done|]. assert (Hi : forall j, index (<[N.to_nat c := or_mask x active]> demanded) j
    = if j =? c then Some (or_mask x active) else index demanded j) by (intros; apply set_at_index; lia). split.
  - split; [by rewrite len_insert|]. intros j Hj. rewrite Hi. destruct (j =? c); [|by apply Hd]. exists (or_mask x active). split; [done|by apply or_mask_wf].
  - intros j p. unfold bit_at. rewrite Hi. destruct (N.eqb_spec j c) as [->|]; [|done]. rewrite (or_mask_bit (n := PAGE_WORDS)), Ex by done. apply orb_comm.
Qed.

Section Demand.
Context (v : View) (Hv : view_wf v) (program : list Node.t) (Hprog : program_wf (view_terms v) program).
Context (summaries : list (list N)) (Hs : summarized v program (len program) summaries).
Context (root : list N) (Hroot : index (summary_list v program) (len program - 1) = Some root) (Hrw : mask_wf PAGE_WORDS root).
(** Until node [k] the demand of every page is what it can reach. *)
Definition demand_inv (k : N) (st : list (list N) * N) : Prop :=
  let '(demanded, wanted) := st in
  masks_wf demanded /\
  (forall i p, bit_at demanded i p = true -> mask_bit root p = true /\ reach v program p i) /\
  (forall p, mask_bit root p = true -> bit_at demanded (len program - 1) p = true) /\
  (forall p, closed v program p k (fun i => bit_at demanded i p = true)) /\
  (forall t, N.testbit wanted t = true -> exists p, mask_bit root p = true /\ demands v program p t) /\
  (forall i t p, k <= i -> index program i = Some (Node.Term t) -> bit_at demanded i p = true ->
     summary_at v program i p = true -> N.testbit wanted t = true).
Lemma the_program : program <> [] /\ len program <= MAX_NODES /\ view_terms v <= MAX_NODES /\ program_ok (view_terms v) program.
Proof. exact Hprog. Qed.
Lemma demand_spread k node demanded wanted demanded' active : index program k = Some node -> demand_inv (k + 1) (demanded, wanted) ->
  (forall p, mask_bit active p = true -> bit_at demanded k p = true /\ summary_at v program k p = true) ->
  (forall p, bit_at demanded k p = true -> summary_at v program k p = true -> mask_bit active p = true) ->
  (forall t, node <> Node.Term t) ->
  masks_wf demanded' -> (forall j p, bit_at demanded' j p = (bool_decide (j ∈ children node) && mask_bit active p) || bit_at demanded j p) ->
  demand_inv k (demanded', wanted).
Proof.
  intros Hk (Hw & Hsound & Hrt & Hc & Hts & Htc) Hact Hact' Hnt Hw' Hb. destruct the_program as (_ & Hlen & _ & Hp).
  assert (Hkeep : forall j p, k <= j -> bit_at demanded' j p = bit_at demanded j p).
  { intros j p Hj. rewrite Hb, bool_decide_eq_false_2; [done|]. intros Hin. pose proof (child_lt v program Hp k node j Hk Hin). lia. }
  split_and!; [done| | | |done|].
  - intros i p Hi. rewrite Hb in Hi. apply orb_true_iff in Hi as [Hi|Hi]; [|by apply Hsound].
    apply andb_true_iff in Hi as [Hin%bool_decide_eq_true Ha]. apply Hact in Ha as [Hd Hsum]. destruct (Hsound k p Hd) as [? ?]. split; [done|].
    by eapply reach_child.
  - intros p Hpr. rewrite Hb, (Hrt p Hpr). by rewrite orb_true_r.
  - intros p i ni Hki Hin Hbi Hsi c Hcc. rewrite Hkeep in Hbi by done. rewrite Hb. destruct (decide (i = k)) as [->|Hne].
    + rewrite Hk in Hin. injection Hin as <-. by rewrite bool_decide_eq_true_2, (Hact' p) by done.
    + rewrite (Hc p i ni); [by rewrite orb_true_r|lia|done..].
  - intros i t p Hki Hin Hbi Hsi. rewrite Hkeep in Hbi by done. destruct (decide (i = k)) as [->|Hne].
    + rewrite Hk in Hin. injection Hin as ->. by destruct (Hnt t).
    + apply (Htc i t p); [lia|done..].
Qed.
Lemma demand_ok k node st : index program k = Some node -> demand_inv (k + 1) st ->
  outcome (fun _ => False) (demand_inv k) (demand summaries st (k, node)).
Proof.
  intros Hk Hst. destruct st as [demanded wanted]. pose proof Hst as (Hw & Hsound & Hrt & Hc & Hts & Htc).
  destruct the_program as (_ & Hlen & Hterms & Hp). pose proof (program_index program Hlen k node Hk) as [Hkl Hk64].
  pose proof (Hp k node Hk) as Hn. unfold demand. destruct (proj2 Hw k) as (d & Ed & Hd); [unfold MAX_NODES; lia|]. rewrite Ed. cbn [or_panic rbind].
  destruct (summarized_child v program _ _ k Hs Hkl) as (m & Em & Elist & (Hm & _)). rewrite Em. cbn [or_panic rbind]. cbv zeta.
  set (active := from_fn PAGE_WORDS _). assert (Haw : mask_wf PAGE_WORDS active).
  { apply from_fn_wf. intros i _. apply land_lt_pow2. by eapply word_wf_lookup. }
  assert (Hab : forall p, mask_bit active p = bit_at demanded k p && summary_at v program k p).
  { intros p. unfold bit_at, summary_at. rewrite Ed, Elist. destruct (decide (p < 256)) as [Hp256|Hp256].
    - unfold active. rewrite from_fn_bit by done. rewrite N.land_spec. by rewrite !word_bit.
    - assert (Hz : forall x, mask_wf PAGE_WORDS x -> mask_bit x p = false).
      { intros x Hx. apply mask_bit_default. unfold len. rewrite (proj1 Hx). unfold PAGE_WORDS. lia. }
      by rewrite !Hz. }
  assert (Hact : forall p, mask_bit active p = true -> bit_at demanded k p = true /\ summary_at v program k p = true) by (intros p; by rewrite Hab, andb_true_iff).
  assert (Hact' : forall p, bit_at demanded k p = true -> summary_at v program k p = true -> mask_bit active p = true) by (intros p; rewrite Hab; by intros -> ->).
  assert (Hsame : (forall p, mask_bit active p = false) \/ children node = [] /\ (forall t, node <> Node.Term t) -> demand_inv k (demanded, wanted)).
  { intros Hcase. split_and!; [done..| |done|].
    - intros p i ni Hki Hin Hbi Hsi c Hcc. destruct (decide (i = k)) as [->|Hne]; [|by apply (Hc p i ni); [lia|..]].
      destruct Hcase as [Hz|[Hch _]]; [specialize (Hz p); by rewrite (Hact' p) in Hz|]. rewrite Hk in Hin. injection Hin as <-.
      rewrite Hch in Hcc. by apply elem_of_nil in Hcc.
    - intros i t p Hki Hin Hbi Hsi. destruct (decide (i = k)) as [->|Hne]; [|by apply (Htc i t p); [lia|..]].
      destruct Hcase as [Hz|[_ Hnt]]; [specialize (Hz p); by rewrite (Hact' p) in Hz|]. rewrite Hk in Hin. injection Hin as ->. by destruct (Hnt t). }
  destruct (bool_decide_reflect (active = replicate PAGE_WORDS 0)) as [Ez|Hnz].
  { apply Hsame. left. intros p. rewrite Ez. apply mask_bit_zero. }
  assert (Hch : forall c, c ∈ children node -> c < MAX_NODES) by (intros c Hc'; pose proof (child_lt v program Hp k node c Hk Hc'); unfold MAX_NODES; lia).
  assert (Htwo : forall l r, children node = [l; r] -> (forall t, node <> Node.Term t) ->
    outcome (fun _ => False) (demand_inv k)
      (let* a := or_panic (index demanded l) in let* demanded := set_at demanded l (or_mask a active) in
       let* b := or_panic (index demanded r) in let* demanded := set_at demanded r (or_mask b active) in Ok (E := Error) (demanded, wanted))).
  { intros l r Ech Hnt. rewrite Ech in Hch. destruct (spread_one demanded l active Hw ltac:(apply Hch; left) Haw) as (d1 & E1 & W1 & B1).
    destruct (spread_one d1 r active W1 ltac:(apply Hch; right; left) Haw) as (d2 & E2 & W2 & B2).
    rewrite <- rbind_assoc, E1. cbn [rbind]. rewrite <- rbind_assoc, E2. cbn [rbind outcome].
    apply (demand_spread k node demanded wanted d2 active); [done..|]. intros j p. rewrite B2, B1, Ech, orb_assoc. f_equal.
    rewrite <- andb_orb_distrib_l. f_equal. apply eq_true_iff_eq. rewrite orb_true_iff, !N.eqb_eq, bool_decide_eq_true, !elem_of_cons, elem_of_nil. tauto. }
  destruct node as [t| |l r|l r|l r|c]; cbn [children] in *.
  - cbn [valid_node] in Hn. apply N.ltb_lt in Hn. unfold shl1. rewrite (proj2 (N.ltb_lt t 64)) by (unfold MAX_NODES in *; lia). cbn [rbind outcome].
    assert (Hsome : exists p, mask_bit active p = true).
    { destruct (pages active) as [|p l] eqn:E.
      - exfalso. apply Hnz, (mask_count_zero PAGE_WORDS); [done|]. fold (page_count active). by rewrite page_count_pages, E.
      - exists p. assert (Hin : p ∈ pages active) by (rewrite E; left). by apply elem_of_pages in Hin as [_ ?]. }
    split_and!; [done..| | |].
    + intros p i ni Hki Hin Hbi Hsi c Hcc. destruct (decide (i = k)) as [->|Hne]; [|by apply (Hc p i ni); [lia|..]].
      rewrite Hk in Hin. injection Hin as <-. by apply elem_of_nil in Hcc.
    + intros t'. rewrite N.lor_spec, pow2_testbit, orb_true_iff, N.eqb_eq. intros [Ht| ->]; [by apply Hts|].
      destruct Hsome as (p & Hpa). apply Hact in Hpa as [Hd' Hsum]. destruct (Hsound k p Hd') as [Hr Hre]. exists p. split; [done|]. by exists k.
    + intros i t' p Hki Hin Hbi Hsi. rewrite N.lor_spec, pow2_testbit, orb_true_iff, N.eqb_eq. destruct (decide (i = k)) as [->|Hne].
      * rewrite Hk in Hin. injection Hin as ->. by right.
      * left. apply (Htc i t' p); [lia|done..].
  - apply Hsame. right. done.
  - by apply Htwo.
  - by apply Htwo.
  - by apply Htwo.
  - destruct (spread_one demanded c active Hw ltac:(apply Hch; left) Haw) as (d1 & E1 & W1 & B1).
    rewrite <- rbind_assoc, E1. cbn [rbind outcome]. apply (demand_spread k (Node.Not c) demanded wanted d1 active); [done..|].
    intros j p. rewrite B1. cbn [children]. do 2 f_equal. apply eq_true_iff_eq. rewrite N.eqb_eq, bool_decide_eq_true, elem_of_cons, elem_of_nil. tauto.
Qed.
Lemma demand_inv_wanted st : demand_inv 0 st ->
  forall t, N.testbit (snd st) t = true <-> exists page, page ∈ pages root /\ demands v program page t.
Proof.
  destruct st as [demanded wanted]. intros (Hw & Hsound & Hrt & Hc & Hts & Htc) t. cbn [snd]. split.
  - intros (p & Hpr & Hd)%Hts. exists p. split; [|done]. apply elem_of_pages; [done|]. split; [by eapply mask_bit_256|done].
  - intros (p & [_ Hpr]%elem_of_pages & i & Hi & Hr & Hsum); [|done]. apply (Htc i t p); [lia|done| |done].
    destruct the_program as (_ & Hlen & _). exact (closed_reach v program Hlen p (fun i => bit_at demanded i p = true) i (Hrt p Hpr) (Hc p) Hr).
Qed.
End Demand.

Lemma needed_terms_ok v program scratch : view_wf v -> program_wf (view_terms v) program -> scratch_wf scratch ->
  exists root wanted scratch', needed_terms program (view_live_pages v) (view_term_pages v <$> range 0 (view_terms v)) scratch = Ok (root, wanted, scratch') /\
    scratch_wf scratch' /\ mask_wf PAGE_WORDS root /\ index (summary_list v program) (len program - 1) = Some root /\
    (forall t, N.testbit wanted t = true <-> exists page, page ∈ pages root /\ demands v program page t).
Proof.
  intros Hv Hprog [Hsp Hso]. pose proof Hprog as (Hne & Hlen & Hterms & Hp). unfold needed_terms.
  assert (Hpos : 1 <= len program) by (destruct program; [done|rewrite len_cons; lia]).
  rewrite len_fmap, len_range, N.sub_0_r, (proj2 (validate_program_ok _ _) Hprog). cbn [rbind].
  assert (Hts : forall t, t < view_terms v -> or_panic (E := Error) (index (view_term_pages v <$> range 0 (view_terms v)) t) = Ok (view_term_pages v t)).
  { intros t Ht. unfold index, range. rewrite !list_lookup_fmap, lookup_seq_lt by lia. cbn. do 2 f_equal. lia. }
  pose proof (summaries_ok v Hv program Hp (fun t => or_panic (index (view_term_pages v <$> range 0 (view_terms v)) t)) (scratch_pages scratch) Hts Hlen Hsp) as Hsum.
  destruct (foldM (summarize _ _) _ _) as [summaries| |]; cbn [outcome] in Hsum; [|done..]. cbn [rbind].
  rewrite sub_w_fits by done. cbn [rbind].
  destruct (summarized_child v program _ _ (len program - 1) Hsum ltac:(lia)) as (root & -> & Elist & Hroot). cbn [or_panic rbind].
  pose proof Hroot as (Hrw & _). unfold set_at. rewrite len_replicate, (proj2 (N.ltb_lt _ _)) by (unfold MAX_NODES in *; lia). cbn [rbind].
  set (start := <[N.to_nat (len program - 1) := root]> _).
  assert (Hstart : forall j p, bit_at start j p = (j =? len program - 1) && mask_bit root p).
  { intros j p. unfold bit_at, start. rewrite set_at_index by (rewrite len_replicate; unfold MAX_NODES in *; lia).
    destruct (j =? len program - 1); [done|]. unfold index. destruct (replicate _ _ !! _) as [d|] eqn:E; [|done].
    apply lookup_replicate in E as [-> _]. apply mask_bit_zero. }
  assert (Hinv0 : demand_inv v program root (len program) (start, 0)).
  { split_and!.
    - unfold start. split; [by rewrite len_insert, len_replicate|]. intros j Hj.
      rewrite set_at_index by (rewrite len_replicate; unfold MAX_NODES in *; lia). destruct (j =? len program - 1); [by exists root|].
      exists (replicate PAGE_WORDS 0). split; [|apply mask_wf_replicate]. unfold index. apply lookup_replicate. split; [done|]. lia.
    - intros j p. rewrite Hstart, andb_true_iff, N.eqb_eq. intros [-> Hb]. split; [done|constructor].
    - intros p Hb. by rewrite Hstart, N.eqb_refl.
    - intros p j nj Hj Hi. pose proof (program_index program Hlen j nj Hi) as [? _]. lia.
    - intros t. by rewrite N.bits_0.
    - intros j t p Hj Hi. pose proof (program_index program Hlen j _ Hi) as [? _]. lia. }
  pose proof (outcome_enumerate_rev (fun _ : Error => False) (demand_inv v program root) (demand summaries) (start, 0) program Hinv0
    (fun k node st => demand_ok v program Hprog summaries Hsum root k node st)) as Hdem.
  destruct (foldM (demand summaries) _ _) as [[demanded wanted]| |]; cbn [outcome] in Hdem; [|done..]. cbn [rbind].
  exists root, wanted, (mkQueryScratch summaries (scratch_offsets scratch)). split_and!; [done|destruct Hsum as [Hl _]; by split|done|done|].
  exact (demand_inv_wanted v program Hprog root Hrw _ Hdem).
Qed.

(** * Properties *)

(** C2: a query over a segment group emits exactly the live members that satisfy it: for
    terms sealed from sorted members of the group, a valid program, and any scratch left
    by earlier queries, [evaluate] never panics; when it succeeds, the callback was given
    page masks whose coordinates are, in heap order, those of the live members for which
    the program holds ([All] and [Not] relative to the live members), and the counter of
    emitted coordinates is their number; it fails only when the interrupt or the callback
    itself did. *)
Theorem group_query_exact {I O} k ms alive ls program scratch (interrupt : I -> Result I) state (emit : O -> N -> list N -> Result O) out :
  members_wf k ms -> alive `sublist_of` ms -> Forall (fun l => l ⊆ ms /\ asc 0 (member_key <$> l)) ls ->
  program_wf (len ls) program -> scratch_wf scratch -> (forall s, safe (interrupt s)) -> (forall o b m, safe (emit o b m)) ->
  let terms := (fun l => sealed_view k l Posting) <$> ls in
  let found := filter (fun m => matches program true (fun t => bool_decide (m ∈ default [] (index ls t))) = true) alive in
  exists all, emitted_keys all = member_key <$> found /\
  match evaluate (group_view k ms alive) terms program scratch interrupt state emit out with
  | Ok (stats, scratch', _, out') => emit_all emit out all = Ok out' /\ emitted_tids stats = len found /\ scratch_wf scratch'
  | Err e => (exists s, interrupt s = Err e) \/ emit_all emit out all = Err e
  | Panic => False
  end.
Proof.
  intros Hwf Hsub Hls Hprog Hscr Hint Hemit terms found. assert (Hg : group_wf k ms alive) by done.
  change terms with (postings k ls). set (v := memory_view k ms alive (postings k ls)).
  pose proof (postings_opened k ms alive Hg ls Hls) as Hopen. pose proof (memory_view_wf k ms alive Hg (postings k ls) Hopen) as Hv. fold v in Hv.
  assert (Hprogv : program_wf (view_terms v) program) by (cbn; unfold postings; by rewrite len_fmap).
  pose proof (emitted_keys_matching k ms alive Hg ls Hls program Hprog) as Hkeys. fold v in Hkeys.
  exists (answers v program (pages (members_mask ms))). split; [exact Hkeys|]. unfold evaluate.
  assert (Hforeign : existsb (foreign_term (group_view k ms alive)) (postings k ls) = false).
  { apply not_true_iff_false. intros (b & Hb & Hf)%existsb_exists. apply list_elem_of_In in Hb. unfold postings in Hb.
    apply list_elem_of_fmap_1 in Hb as (l & -> & _). unfold foreign_term in Hf.
    change (bitmap_key (sealed_view k l Posting)) with k in Hf. change (group_key (group_view k ms alive)) with k in Hf.
    rewrite bool_decide_eq_true_2 in Hf by done. unfold sealed_view in Hf. by rewrite encoded_kind in Hf. }
  rewrite Hforeign.
  pose proof (evaluate_source_ok (H := MemorySource_source I) (H0 := memory_lawful interrupt Hint k ms alive Hg (postings k ls) Hopen) emit
    (mkMemorySource (group_view k ms alive) (postings k ls) interrupt state) program scratch out Hv Hemit (ex_intro _ state eq_refl) Hscr Hprogv
    (fun _ _ _ _ _ => Logic.I)) as Hev. cbv zeta in Hev.
  change (view_live_pages v) with (members_mask ms) in Hev.
  destruct (evaluate_source _ _ _ _ _) as [[[[stats scratch'] source'] out']|e|]; cbn [outcome] in Hev; [|destruct Hev as [Hev|Hev]; [left|by right]|done].
  - destruct Hev as (Hout & Hcnt & Hscr' & _). split_and!; [done| |done]. rewrite Hcnt.
    rewrite <- (len_fmap member_key found). change (member_key <$> found) with (member_key <$> matching alive ls program). rewrite <- Hkeys.
    rewrite answer_count_hits. unfold emitted_keys, answers. rewrite list_fmap_bind. fold (hits v program (pages (members_mask ms))).
    fold v. change (view_live_pages v) with (members_mask ms). generalize (hits v program (pages (members_mask ms))) as ps. induction ps as [|page ps IH]; [done|].
    rewrite bind_cons, len_app. cbn [answer_count foldr]. fold (answer_count v program ps). rewrite IH. f_equal. cbn [compose].
    rewrite len_fmap. apply mask_count_bits, answer_wf.
  - destruct Hev as [(b & page & Hb & Hp & He)|Hev]; [|done]. exfalso. unfold postings in Hb. apply list_elem_of_fmap_1 in Hb as (l & -> & Hl).
    pose proof (proj1 (list.Forall_forall _ _) Hls l Hl) as [Hlsub Ha]. destruct (members_wf_sub k ms l Hwf Hlsub Ha) as (Hk & Hf & _).
    by rewrite sealed_offsets in He.
Qed.

(** C6: demand is computed from page summaries alone: a term is wanted by [needed_terms]
    if and only if on some candidate page a node of it is reached from the result through
    nodes whose summaries hold the page. Over any source that can read the wanted terms,
    whatever it does on others, [evaluate_source] emits every page of matching
    coordinates, each exactly, and fails only as the source or the callback does; and
    the payloads a successful evaluation reads, recorded at the source, are exactly those
    of the demanded terms on each candidate page that has a live member: on a page whose
    members are all retired it reads none. *)
Theorem needed_terms_exact v program scratch : view_wf v -> program_wf (view_terms v) program -> scratch_wf scratch ->
  exists candidates_ wanted scratch',
    needed_terms program (view_live_pages v) (view_term_pages v <$> range 0 (view_terms v)) scratch = Ok (candidates_, wanted, scratch') /\
    scratch_wf scratch' /\
    (forall t, N.testbit wanted t = true <-> exists page, page ∈ pages candidates_ /\ demands v program page t) /\
    forall T O (source_T : Source T) errs inv (emit : O -> N -> list N -> Result O) source out,
      LawfulSource T v (fun t => N.testbit wanted t = true) errs inv -> (forall o b m, safe (emit o b m)) -> inv source ->
      match evaluate_source (H := recorded T source_T) emit (source, []) program scratch' out with
      | Ok (stats, _, (_, log), out') => emit_all emit out (answers v program (pages (view_live_pages v))) = Ok out' /\
          emitted_tids stats = answer_count v program (pages (view_live_pages v)) /\
          forall page t, (page, t) ∈ log <->
            page ∈ pages candidates_ /\ existsb (fun word => negb (word =? 0)) (view_live v page) = true /\ demands v program page t
      | Err e => errs e \/ emit_all emit out (answers v program (pages (view_live_pages v))) = Err e
      | Panic => False
      end.
Proof.
  intros Hv Hprog Hscr. destruct (needed_terms_ok v program scratch Hv Hprog Hscr) as (root & wanted & scratch' & E & Hscr' & Hrw & Elist & Hw).
  exists root, wanted, scratch'. split_and!; [done..|]. intros T O source_T errs inv emit source out Hlaw Hemit Hinv.
  pose proof (evaluate_source_ok (H0 := recorded_lawful T source_T v _ errs inv Hlaw) emit (source, []) program scratch' out Hv Hemit Hinv Hscr' Hprog) as Hev. cbv zeta in Hev.
  specialize (Hev ltac:(intros page t Hp Hsum Hd; apply Hw; exists page; split; [apply elem_of_pages; [done|]; split; [done|];
    unfold summary_at in Hsum; by rewrite Elist in Hsum|done])).
  pose proof (evaluate_source_reads source_T (LawfulSource0 := Hlaw) emit source program scratch' out root Hv Hinv Hprog (proj1 Hscr') Elist) as Hr.
  specialize (Hr ltac:(intros page t Hp Hd; apply Hw; by exists page)).
  destruct (evaluate_source _ _ _ _ _) as [[[[stats sc] [source' log]] out']| |]; cbn [outcome when_ok] in Hev, Hr; [|naive_solver|done].
  destruct Hev as (? & ? & _). split; [done|]. split; [done|]. exact Hr.
Qed.

(** what [evaluate] refuses it refuses before anything is emitted: a term bitmap of
    another group or kind, and a program that is empty, too long or not in topological
    order; and on every accepted segment, opened term bitmaps (corrupt payloads
    included) and arbitrary program it never panics. *)
Theorem evaluate_refusals {I O} k ms alive terms program scratch (interrupt : I -> Result I) state (emit : O -> N -> list N -> Result O) out :
  members_wf k ms -> alive `sublist_of` ms -> Forall opened terms -> scratch_wf scratch ->
  (forall s, safe (interrupt s)) -> (forall o b m, safe (emit o b m)) ->
  let result := evaluate (group_view k ms alive) terms program scratch interrupt state emit out in
  result <> Panic /\
  (existsb (foreign_term (group_view k ms alive)) terms = true -> result = Err InvalidState) /\
  (existsb (foreign_term (group_view k ms alive)) terms = false -> ~ program_wf (len terms) program ->
     result = let* _ := interrupt state in let* _ := validate_program (len terms) program in Err InvalidState) /\
  (program_wf (len terms) program <-> validate_program (len terms) program = Ok tt).
Proof.
  intros Hwf Hsub Hopen Hscr Hint Hemit. assert (Hg : group_wf k ms alive) by done. cbv zeta. unfold evaluate.
  destruct (existsb _ terms); [split_and!; [done|done|done|by rewrite validate_program_ok]|].
  set (source := mkMemorySource (group_view k ms alive) terms interrupt state).
  assert (Hinvalid : ~ program_wf (len terms) program -> evaluate_source emit source program scratch out =
    let* _ := interrupt state in let* _ := validate_program (len terms) program in Err InvalidState).
  { intros Hn. unfold evaluate_source. cbn [source source_interrupt MemorySource_source memory_interrupt memory_state].
    destruct (interrupt state) as [s| |]; [|done|done]. cbn [rbind source_terms MemorySource_source memory_terms].
    change (memory_terms source) with terms.
    destruct (validate_program (len terms) program) as [[]| |] eqn:E; [|done|done]. by apply validate_program_ok in E. }
  split_and!; [|done|done|by rewrite validate_program_ok].
  destruct (validate_program (len terms) program) as [[]|e|] eqn:E.
  - apply validate_program_ok in E.
    pose proof (evaluate_source_ok (H := MemorySource_source I) (H0 := memory_lawful interrupt Hint k ms alive Hg terms Hopen) emit source
      program scratch out (memory_view_wf k ms alive Hg terms Hopen) Hemit (ex_intro _ state eq_refl) Hscr E (fun _ _ _ _ _ => Logic.I)) as Hev.
    intros Ep. cbv zeta in Hev. by rewrite Ep in Hev.
  - rewrite Hinvalid by (intros Hw%validate_program_ok; by rewrite Hw in E). pose proof (Hint state) as Hs.
    destruct (interrupt state); cbn [rbind]; [by rewrite ?E|done|done].
  - by destruct (validate_program_safe (len terms) program).
Qed.

Definition sample_terms : list (list Member) := [sample_term; [mkMember (mkRootTid 515 1) 11]].
Definition sample_alive : list Member := [mkMember (mkRootTid 515 9) 12; mkMember (mkRootTid 700 291) 11].
Definition sample_program : list Node.t := [Node.Term 0; Node.Term 1; Node.Or 0 1; Node.Not 2].
Definition collect (out : list (N * list N)) (b : N) (m : list N) : Result (list (N * list N)) := Ok (out ++ [(b, m)]).
Definition quiet (s : unit) : Result unit := Ok s.
Lemma sample_alive_sub : sample_alive `sublist_of` sample_members.
Proof. apply sublist_cons. reflexivity. Defined.
Lemma sample_terms_wf : Forall (fun l => l ⊆ sample_members /\ asc 0 (member_key <$> l)) sample_terms.
Proof.
  constructor; [split; [exact sample_term_sub|done]|]. constructor; [|constructor]. split; [|done].
  intros x [->|Hx]%elem_of_cons; [left|by apply elem_of_nil in Hx].
Defined.
Lemma sample_program_wf : program_wf 2 sample_program.
Proof. apply validate_program_ok. reflexivity. Defined.
Lemma group_query_exact_witness :
  filter (fun m => matches sample_program true (fun t => bool_decide (m ∈ default [] (index sample_terms t))) = true) sample_alive
    = [mkMember (mkRootTid 700 291) 11] /\
  exists all, emitted_keys all = [member_key (mkMember (mkRootTid 700 291) 11)].
Proof.
  split; [vm_compute; reflexivity|].
  destruct (group_query_exact sample_key sample_members sample_alive sample_terms sample_program QueryScratch_default quiet tt collect []
    sample_members_wf sample_alive_sub sample_terms_wf sample_program_wf (conj eq_refl eq_refl) (fun s => safe_ok s) (fun o b m => safe_ok _))
    as (all & Hall & _). exists all. rewrite Hall. vm_compute. reflexivity.
Defined.
Definition sample_view : View := memory_view sample_key sample_members sample_alive (postings sample_key sample_terms).
Lemma needed_terms_exact_witness :
  exists candidates_ wanted scratch',
    needed_terms sample_program (view_live_pages sample_view) (view_term_pages sample_view <$> range 0 (view_terms sample_view)) QueryScratch_default
      = Ok (candidates_, wanted, scratch') /\ wanted = 3.
Proof.
  assert (Hg : group_wf sample_key sample_members sample_alive) by (split; [exact sample_members_wf|exact sample_alive_sub]).
  destruct (needed_terms_exact sample_view sample_program QueryScratch_default
    (memory_view_wf _ _ _ Hg _ (postings_opened _ _ _ Hg _ sample_terms_wf)) sample_program_wf (conj eq_refl eq_refl))
    as (c & w & s & E & _). exists c, w, s. split; [exact E|].
  assert (E2 : (let* '(_, w, _) := needed_terms sample_program (view_live_pages sample_view)
    (view_term_pages sample_view <$> range 0 (view_terms sample_view)) QueryScratch_default in Ok (E := Error) w) = Ok 3) by (vm_compute; reflexivity).
  rewrite E in E2. apply Ok_inj in E2. exact E2.
Defined.
Lemma evaluate_refusals_witness :
  evaluate (group_view sample_key sample_members sample_alive) (postings sample_key sample_terms) [Node.Not 0] QueryScratch_default quiet tt collect [] <> Panic.
Proof.
  assert (Hg : group_wf sample_key sample_members sample_alive) by (split; [exact sample_members_wf|exact sample_alive_sub]).
  apply (evaluate_refusals sample_key sample_members sample_alive (postings sample_key sample_terms) [Node.Not 0] QueryScratch_default quiet tt collect []
    sample_members_wf sample_alive_sub (postings_opened _ _ _ Hg _ sample_terms_wf) (conj eq_refl eq_refl) (fun s => safe_ok s) (fun o b m => safe_ok _)).
Defined.
Example query_runs : (let* '(stats, _, _, out) := evaluate (group_view sample_key sample_members sample_alive) (postings sample_key sample_terms)
    sample_program QueryScratch_default quiet tt collect [] in Ok (E := Error) (stats, emitted_keys out))
  = Ok (mkQueryStats 2 2 2 3 1, [member_key (mkMember (mkRootTid 700 291) 11)]).
Proof. vm_compute. reflexivity. Qed.
