(* ===== verification/GroupRetire.v ===== *)
(** Batch retirement: [src/crates/pin-core/src/grouped/retire.rs].

    The host is asked about every coordinate of a liveness image; the approved ones are
    staged in a scratch of the image's size and cleared at once, so a failing callback
    leaves the image as it was. The theorem: on the image of a group the callback is
    asked about exactly the live members, in coordinate order, and the result is the
    image without those it approved. *)
From S2P Require Export GroupQuery.

(** [MAX_BYTES] *)
Definition MAX_BYTES : N := 72 + 256 * 68.

Section Roots.
Context {S : Type} (removable : S -> RootTid -> Result (bool * S)).

(** The staged bits, the count and the callback's state. *)
Definition Staged : Type := (list byte * N * S)%type.

(** The body of [while pending != 0]: one set bit of the word. *)
Definition stage_bit (key : GroupKey) (page start : N) (st : Staged) (bit : N) : Result Staged :=
  let '(clear, removed, s) := st in
  let* block_ := key_block key page in
  let* root := invalid_state (RootTid_new block_ (trunc 16 (bit + 1)) (layout key)) in
  let* '(approved, s) := removable s root in
  if approved : bool then
    let* b := or_panic (index clear (start + bit / 8)) in
    let* clear := set_at clear (start + bit / 8) (byte_of (N.lor (byte_val b) (N.shiftl 1 (bit mod 8)))) in
    let* removed := add_w 32 removed 1 in
    Ok (clear, removed, s)
  else Ok (clear, removed, s).
(** [while pending != 0 { .. pending &= pending - 1; .. }]: a word has 64 bits. *)
Fixpoint stage_word (fuel : nat) (key : GroupKey) (page start word : N) (pending : N) (st : Staged) : Result Staged :=
  if pending =? 0 then Ok st else
  match fuel with
  | O => Panic
  | Datatypes.S fuel =>
      let* st := stage_bit key page start st (word * 64 + trailing_zeros pending) in
      stage_word fuel key page start word (clear_lowest pending) st
  end.
(** One page of the image. *)
Definition stage_page (key : GroupKey) (view : Bitmap) (st : Staged) (page : N) : Result Staged :=
  let* offsets := offsets_at view page in
  let* s := span view page in
  match s with
  | None => Err InvalidState
  | Some (start, _) =>
      foldM (fun st '(word, value) => stage_word 64 key page start word value st) st (enumerate offsets)
  end.
(** [for (byte, clear) in bytes.iter_mut().zip(clear) { *byte &= !clear; }] *)
Definition apply_clear (bytes clear : list byte) : list byte :=
  zip_with (fun b c => clear_bits b (byte_val c)) bytes clear ++ drop (length clear) bytes.

(** [retire_roots]: the state is the image [bytes]; the callback is threaded apart. *)
Definition retire_roots (key : GroupKey) (s : S) : Eff (list byte) (N * S) :=
  let! bytes := eget in
  let! view := elift (bitmap_open bytes) in
  if negb (bool_decide (bitmap_kind view = Liveness)) || negb (bool_decide (bitmap_key view = key)) then efail InvalidState else
  let! '(clear, removed, s) :=
    elift (foldM (stage_page key view) (replicate (N.to_nat MAX_BYTES) (byte_of 0), 0, s) (pages (bitmap_pages view))) in
  let! _ := eput (apply_clear bytes clear) in
  eret (removed, s).

(** * Specification *)
(** The callback asked about one root after the other; who was approved. *)
Definition ask (st : list RootTid * S) (root : RootTid) : Result (list RootTid * S) :=
  let '(approved, s) := st in
  let* '(yes, s) := removable s root in
  Ok (if yes : bool then approved ++ [root] else approved, s).

(** ** The loops of a page as one loop over its bits *)
Lemma stage_word_bits fuel key page start word pending st : word_wf pending -> (length (word_bits 64 pending) <= fuel)%nat ->
  stage_word fuel key page start word pending st = foldM (fun st b => stage_bit key page start st (word * 64 + b)) st (word_bits 64 pending).
Proof.
  revert pending st. induction fuel as [|fuel IH]; intros pending st Hw Hf; cbn [stage_word].
  - destruct (N.eqb_spec pending 0) as [->|Hne]; [by rewrite word_bits_zero|]. rewrite word_bits_step in Hf by done. cbn in Hf. lia.
  - destruct (N.eqb_spec pending 0) as [->|Hne]; [by rewrite word_bits_zero|]. rewrite word_bits_step in Hf |- * by done. cbn [foldM length] in *.
    destruct (stage_bit key page start st _) as [st'| |]; [|done|done]. cbn [rbind]. apply IH; [by apply clear_lowest_lt|lia].
Qed.
End Roots.

Lemma word_bits_length n x : (length (word_bits n x) <= N.to_nat n)%nat.
Proof. unfold word_bits. etrans; [apply length_filter|]. unfold range. rewrite length_fmap, length_seq. lia. Qed.
Lemma foldM_fmap {E A B T} (f : T -> B -> res E T) (g : A -> B) s l : foldM f s (g <$> l) = foldM (fun s a => f s (g a)) s l.
Proof. revert s; induction l as [|a l IH]; intros s; [done|]. cbn. destruct (f s (g a)); [apply IH|done|done]. Qed.
Lemma foldM_bind {E A B T} (f : T -> B -> res E T) (g : A -> list B) s l :
  foldM f s (l ≫= g) = foldM (fun s a => foldM f s (g a)) s l.
Proof.
  revert s; induction l as [|a l IH]; intros s; [done|]. rewrite bind_cons, foldM_app. cbn [foldM].
  destruct (foldM f s (g a)); [apply IH|done|done].
Qed.
(** The words of a mask one after the other are its bits in order. *)
Lemma foldM_mask_bits {E T} (f : T -> N -> res E T) m : forall n s,
  foldM (fun s '(w, v) => foldM (fun s b => f s (w * 64 + b)) s (word_bits 64 v)) s (zip (range n (n + len m)) m)
  = foldM (fun s b => f s (n * 64 + b)) s (mask_bits m).
Proof.
  induction m as [|x m IH]; intros n s; [by destruct (range _ _)|]. rewrite len_cons, range_cons by lia. cbn [zip zip_with foldM].
  rewrite mask_bits_cons, foldM_app. destruct (foldM _ s (word_bits 64 x)) as [s1| |]; [|done|done]. cbn [rbind]. rewrite foldM_fmap.
  replace (n + (1 + len m)) with (n + 1 + len m) by lia. rewrite IH. apply foldM_ext. intros; f_equal. lia.
Qed.
Lemma fmap_inj_on {A B} (f : A -> B) (l1 l2 : list A) : (forall x y, x ∈ l1 -> y ∈ l2 -> f x = f y -> x = y) -> f <$> l1 = f <$> l2 -> l1 = l2.
Proof.
  revert l2; induction l1 as [|x l1 IH]; intros [|y l2] Hf H; [done..|]. cbn in H. injection H as E H.
  f_equal; [apply Hf; [left|left|done]|]. apply IH; [|done]. intros; apply Hf; [by right|by right|done].
Qed.
(** Ordered members are determined by which they are. *)
Lemma members_unique k l1 l2 : members_wf k l1 -> asc 0 (member_key <$> l2) -> (forall m, m ∈ l1 <-> m ∈ l2) -> l1 = l2.
Proof.
  intros Hwf Ha Hin. apply (fmap_inj_on member_key).
  - intros x y Hx Hy%Hin E. apply (same_root k l1 Hwf); [done..|].
    pose proof (member_key_eq k l1 Hwf x Hx) as []. pose proof (member_key_eq k l1 Hwf y Hy) as [].
    destruct (member_root x), (member_root y). cbn in *. f_equal; lia.
  - apply (asc_unique 0); [apply Hwf|done|]. intros x. rewrite !list_elem_of_fmap. split; intros (m & -> & Hm); exists m; split; naive_solver.
Qed.

(** ** Staged bits *)
Lemma clear_bits_zero b : clear_bits b 0 = b.
Proof.
  unfold clear_bits. apply byte_val_inj. pose proof (byte_val_lt b). rewrite byte_val_of. change (not_w 8 0) with (N.ones 8).
  rewrite N.land_ones. change (2 ^ 8) with 256. by rewrite N.Div0.mod_mod, N.mod_small.
Qed.
Lemma clear_bits_lor b c m : m < 256 -> clear_bits b (byte_val (byte_of (N.lor (byte_val c) m))) = clear_bits (clear_bits b (byte_val c)) m.
Proof.
  intros Hm. unfold clear_bits. apply byte_ext. intros i Hi. rewrite !N.land_spec, !not_w_testbit, !byte_testbit, N.lor_spec, N.land_spec, not_w_testbit by done.
  rewrite (proj2 (N.ltb_lt i 8)), !xorb_true_r by done. by rewrite negb_orb, andb_assoc.
Qed.
Lemma apply_clear_zero bytes n : (length bytes <= n)%nat -> apply_clear bytes (replicate n (byte_of 0)) = bytes.
Proof.
  intros Hn. unfold apply_clear. rewrite length_replicate, drop_ge, app_nil_r by done.
  revert n Hn; induction bytes as [|b bytes IH]; intros [|n] Hn; cbn in *; [done..|lia|]. f_equal; [apply clear_bits_zero|]. apply IH; lia.
Qed.
Lemma apply_clear_insert bytes clear i b c m : bytes !! i = Some b -> clear !! i = Some c -> m < 256 ->
  apply_clear bytes (<[i := byte_of (N.lor (byte_val c) m)]> clear) =
    <[i := clear_bits (clear_bits b (byte_val c)) m]> (apply_clear bytes clear).
Proof.
  intros Hb Hc Hm. unfold apply_clear. rewrite length_insert. revert clear i Hb Hc.
  induction bytes as [|x bytes IH]; intros [|y clear] [|i] Hb Hc; try done.
  - cbn in *. apply Some_inj' in Hb as ->, Hc as ->. by rewrite clear_bits_lor.
  - cbn in *. f_equal. by apply IH.
Qed.
Lemma apply_clear_lookup bytes clear i b c : bytes !! i = Some b -> clear !! i = Some c ->
  apply_clear bytes clear !! i = Some (clear_bits b (byte_val c)).
Proof.
  intros Hb Hc. unfold apply_clear. rewrite lookup_app_l.
  - by rewrite lookup_zip_with, Hb; cbn; rewrite Hc.
  - rewrite length_zip_with. apply lookup_lt_Some in Hb, Hc. lia.
Qed.
Lemma concat_take_len {A B} (f g : A -> list B) (l : list A) n : (forall a, len (f a) = len (g a)) ->
  len (concat (take n (f <$> l))) = len (concat (take n (g <$> l))).
Proof.
  intros H. revert n; induction l as [|a l IH]; intros [|n]; [done..|]. cbn. by rewrite !len_app, H, IH.
Qed.
Lemma fmap_of_bind {A B C} (f : B -> C) (g : A -> list B) (l : list A) : f <$> (l ≫= g) = l ≫= (fun a => f <$> g a).
Proof. induction l as [|a l IH]; [done|]. by rewrite !bind_cons, fmap_app, IH. Qed.
Lemma apply_clear_length bytes clear : length (apply_clear bytes clear) = length bytes.
Proof. unfold apply_clear. rewrite length_app, length_zip_with, length_drop. lia. Qed.

(** ** The members of an image *)
Section Live.
Context (k : GroupKey) (ms alive : list Member) (Hg : group_wf k ms alive).
Lemma alive_wf : members_wf k alive.
Proof. exact (group_wf_sub _ _ _ Hg). Qed.
Lemma page_mask_bits page : mask_bits (page_mask k alive page) = (fun m => root_offset (member_root m) - 1) <$> of_block (base k + page) alive.
Proof.
  pose proof alive_wf as (Hk & Hf & Ha). pose proof (offsets_mask_wf (of_block (base k + page) alive)) as Hw. fold (page_mask k alive page) in Hw.
  apply (asc_unique 0); [by apply asc_mask_bits| |].
  - eapply (asc_raise 0); [|lia]. apply (asc_mono member_key _ 0); [by apply asc_fmap_filter|].
    intros x y [Ex Hx]%list_elem_of_filter [Ey Hy]%list_elem_of_filter.
    pose proof (member_key_eq k alive alive_wf x Hx). pose proof (member_key_eq k alive alive_wf y Hy). lia.
  - intros i. rewrite elem_of_mask_bits, list_elem_of_fmap, (page_mask_bit k Hk alive Hf). split.
    + intros [_ (x & Hx & Eb & Eo)]. exists x. split; [lia|]. by apply list_elem_of_filter.
    + intros (x & -> & [Eb Hx]%list_elem_of_filter). pose proof (member_in k alive alive_wf x Hx) as Hm.
      pose proof (member_offset_lt k x Hk Hm). unfold len. rewrite (proj1 Hw). split; [unfold OFFSET_WORDS; lia|]. exists x. split_and!; [done|done|lia].
Qed.
(** The members page by page are the members in order. *)
Lemma alive_pages : pages (members_mask ms) ≫= (fun page => of_block (base k + page) alive) = alive.
Proof.
  pose proof Hg as [Hwf Hsub]. pose proof Hwf as (Hk & Hf & _). pose proof alive_wf as (_ & Hfa & Ha).
  pose proof (members_mask_ok k ms Hk Hf) as [Hmw _].
  assert (Hin : forall m, m ∈ pages (members_mask ms) ≫= (fun page => of_block (base k + page) alive) <-> m ∈ alive).
  { intros m. rewrite list_elem_of_bind. split.
    - by intros (page & [_ Hm]%list_elem_of_filter & _).
    - intros Hm. pose proof (alive_in k ms alive Hg m Hm) as Hms. exists (page_of (member_root m)). split; [|by eapply member_page].
      apply list_elem_of_filter. split; [|done]. by apply page_of_block, (member_in k ms Hwf). }
  symmetry. apply (members_unique k); [exact alive_wf| |intros m; by rewrite Hin].
  rewrite fmap_of_bind. apply (asc_bind _ (fun p => (base k + p) * 65536 + 1) (fun p => (base k + p) * 65536 + 513));
    [|intros; lia|intros; lia|by apply pages_asc].
  intros p Hp. assert (Hkey : forall x, x ∈ member_key <$> of_block (base k + p) alive -> (base k + p) * 65536 + 1 <= x < (base k + p) * 65536 + 513).
  { intros x (m & -> & [Eb Hm]%list_elem_of_filter)%list_elem_of_fmap_1. pose proof (member_key_eq k alive alive_wf m Hm). lia. }
  split_and!; [|apply Hkey|lia]. eapply (asc_raise 0); [by apply asc_fmap_filter|]. apply Hkey.
Qed.
End Live.

(** ** The staging loop as one loop over the live members *)
Section Loop.
Context {S : Type} (removable : S -> RootTid -> Result (bool * S)).
Context (k : GroupKey) (ms alive : list Member) (Hg : group_wf k ms alive).
(** Where a member's bit lives in the image. *)
Definition member_start (m : Member) : N := payload_start (live_head k ms) (live_payloads k ms alive) (page_of (member_root m)).
Definition stage_member (st : Staged) (m : Member) : Result (Staged (S := S)) :=
  stage_bit removable k (page_of (member_root m)) (member_start m) st (root_offset (member_root m) - 1).
Lemma stage_page_members st page : page ∈ pages (members_mask ms) ->
  stage_page removable k (live_view k ms alive) st page = foldM stage_member st (of_block (base k + page) alive).
Proof.
  intros Hin. pose proof Hg as [Hwf Hsub]. pose proof Hwf as (Hk & Hf & _). destruct (page_fits k ms Hwf page Hin) as (Hp & _ & _).
  pose proof (live_record_wf k ms Hwf alive) as Hr. pose proof (offsets_mask_wf (of_block (base k + page) alive)) as Hw. fold (page_mask k alive page) in Hw.
  unfold stage_page. rewrite live_offsets_view by done. cbn [rbind]. unfold live_view.
  pose proof (live_payload_view k ms Hwf alive page Hp) as Ep.
  rewrite (proj2 (proj1 (elem_of_pages _ _ (proj1 (members_mask_ok k ms Hk Hf))) Hin)) in Ep.
  rewrite span_view, Ep by done. cbn [fmap option_fmap option_map]. set (start := payload_start _ _ page).
  transitivity (foldM (fun st b => stage_bit removable k page start st (0 * 64 + b)) st (mask_bits (page_mask k alive page))).
  - rewrite <- (foldM_mask_bits (fun st b => stage_bit removable k page start st b) (page_mask k alive page) 0 st). rewrite N.add_0_l. apply foldM_ext.
    intros s [w v] Hwv. apply stage_word_bits.
    + apply list_elem_of_lookup in Hwv as [i Hi]. apply lookup_zip_with_Some in Hi as (? & ? & [= <- <-] & _ & Hv).
      by apply (Forall_lookup_1 _ _ _ _ (proj2 Hw) Hv).
    + apply word_bits_length.
  - rewrite (page_mask_bits k ms alive Hg), foldM_fmap. apply foldM_ext. intros s m [Eb Hm]%list_elem_of_filter.
    pose proof (page_of_block k m Hk (member_in k ms Hwf m (alive_in k ms alive Hg m Hm))) as Epg.
    unfold stage_member, member_start. replace (page_of (member_root m)) with page by lia. f_equal; lia.
Qed.
Lemma stage_all st : foldM (stage_page removable k (live_view k ms alive)) st (pages (members_mask ms)) = foldM stage_member st alive.
Proof.
  rewrite <- (alive_pages k ms alive Hg) at 2. rewrite foldM_bind. apply foldM_ext. intros s page Hp. by apply stage_page_members.
Qed.

(** What is staged after the roots [gone] were approved. *)
Definition kept (gone : list RootTid) : list Member := filter (fun m => member_root m ∉ gone) alive.
Definition staged_ok (gone : list RootTid) (clear : list byte) (removed : N) : Prop :=
  len clear = MAX_BYTES /\ removed = len gone /\ apply_clear (live_record k ms alive) clear = live_record k ms (kept gone).
Lemma live_len l : len (live_record k ms l) <= MAX_BYTES.
Proof.
  pose proof (live_record_wf k ms (proj1 Hg) l) as Hr. unfold live_record. rewrite (len_record _ _ Hr).
  pose proof (record_len_le _ _ Hr). unfold MAX_BITMAP_BYTES, GROUP_HEADER_BYTES, GROUP_PAGES, DIRECTORY_BYTES, MAX_BYTES in *. lia.
Qed.
Lemma kept_wf gone : group_wf k ms (kept gone).
Proof. split; [apply Hg|]. etrans; [apply sublist_filter|apply Hg]. Qed.
Lemma kept_snoc gone m : m ∈ alive -> kept (gone ++ [member_root m]) = filter (fun x => x <> m) (kept gone).
Proof.
  intros Hm. unfold kept. rewrite list_filter_filter. apply filter_ext_in. intros x Hx. rewrite elem_of_app, list_elem_of_singleton. split.
  - intros Hn. split; [|tauto]. intros E. apply Hn. right. by rewrite E.
  - intros [Hne Hn] [?|E]; [done|]. apply Hne. by apply (same_root k alive (alive_wf k ms alive Hg)).
Qed.
Lemma payload_start_live l l' page : payload_start (live_head k ms) (live_payloads k ms l) page = payload_start (live_head k ms) (live_payloads k ms l') page.
Proof.
  unfold payload_start, live_payloads. rewrite !len_fmap. f_equal. apply concat_take_len. intros p. by rewrite !len_live_payload.
Qed.
(** One member. *)
Lemma stage_member_ok gone clear removed s m : staged_ok gone clear removed -> len gone < 131072 -> m ∈ kept gone ->
  match stage_member (clear, removed, s) m, ask removable (gone, s) (member_root m) with
  | Ok (clear', removed', s1), Ok (gone', s2) =>
      s1 = s2 /\ staged_ok gone' clear' removed' /\ len gone' <= len gone + 1 /\ (forall r, r ∈ gone' -> r ∈ gone \/ r = member_root m)
  | Err e, Err e' => e = e'
  | Panic, Panic => True
  | _, _ => False
  end.
Proof.
  intros (Hl & -> & Hc) Hn Hm. pose proof Hm as [_ Hma]%list_elem_of_filter. pose proof (alive_in k ms alive Hg m Hma) as Hms.
  pose proof Hg as [Hwf _]. pose proof Hwf as (Hk & Hf & _). pose proof (member_in k ms Hwf m Hms) as Hw.
  pose proof (page_of_block k m Hk Hw) as Eb. pose proof (member_offset_lt k m Hk Hw) as Ho. pose proof Hw as (Hr & _ & _).
  unfold stage_member, stage_bit, ask.
  rewrite (proj2 (key_block_ok k _ _ Hk (page_of_lt (member_root m)))) by (split; [done|]; split; [apply page_of_lt|destruct Hr; lia]). cbn [rbind].
  replace (root_offset (member_root m) - 1 + 1) with (root_offset (member_root m)) by lia.
  rewrite trunc_small by (change (2 ^ 16) with 65536; lia). rewrite (RootTid_new_of_wf _ _ Hr). cbn [invalid_state map_err rbind].
  destruct (removable s (member_root m)) as [[yes s']|e|]; [|done|done]. cbn [rbind]. destruct yes; [|split_and!; [done|done|lia|auto]].
  destruct (retire_byte k ms (kept gone) (kept_wf gone) m Hms) as (b & Eb1 & El & _).
  set (bit := root_offset (member_root m) - 1) in *. rewrite (payload_start_live (kept gone) alive) in El. fold (member_start m) in El.
  set (at_ := member_start m + bit / 8) in *.
  assert (Hat : at_ < len (live_record k ms (kept gone))) by (unfold index in El; apply lookup_lt_Some in El; unfold len; lia).
  pose proof (live_len (kept gone)) as Hlen.
  assert (exists b0, live_record k ms alive !! N.to_nat at_ = Some b0) as [b0 Eb0].
  { apply lookup_lt_is_Some. rewrite <- (apply_clear_length _ clear), Hc. unfold len in Hat. lia. }
  assert (exists c, clear !! N.to_nat at_ = Some c) as [c Ec] by (apply lookup_lt_is_Some; unfold len in *; lia).
  pose proof (apply_clear_lookup _ _ _ _ _ Eb0 Ec) as El'. unfold index in El. rewrite Hc, El in El'. apply Some_inj' in El' as ->.
  unfold index. rewrite Ec. cbn [or_panic rbind]. unfold set_at. rewrite (proj2 (N.ltb_lt _ _)) by lia. cbn [rbind].
  rewrite add_w_fits by (change (2 ^ 32) with 4294967296; lia). cbn [rbind]. assert (Hm8 : N.shiftl 1 (bit mod 8) < 256).
  { rewrite N.shiftl_mul_pow2, N.mul_1_l. change 256 with (2 ^ 8). apply N.pow_lt_mono_r; [lia|]. by apply N.mod_lt. }
  split_and!; [done| |rewrite len_app; reflexivity|intros r [?|?%list_elem_of_singleton]%elem_of_app; auto].
  split_and!; [by rewrite len_insert|by rewrite len_app|].
  rewrite (apply_clear_insert _ _ _ _ _ _ Eb0 Ec Hm8), Hc. unfold at_, member_start. rewrite <- (payload_start_live (kept gone) alive).
  rewrite kept_snoc by done. exact (retire_image k ms (kept gone) (kept_wf gone) m _ Hms Eb1).
Qed.
Lemma stage_members_ok l pre gone clear removed s : pre ++ l = alive -> (forall r, r ∈ gone -> r ∈ member_root <$> pre) ->
  len gone <= len pre -> staged_ok gone clear removed ->
  match foldM stage_member (clear, removed, s) l, foldM (ask removable) (gone, s) (member_root <$> l) with
  | Ok (clear', removed', s1), Ok (gone', s2) => s1 = s2 /\ staged_ok gone' clear' removed'
  | Err e, Err e' => e = e'
  | Panic, Panic => True
  | _, _ => False
  end.
Proof.
  revert pre gone clear removed s. induction l as [|m l IH]; intros pre gone clear removed s El Hgone Hn Hs; [done|].
  cbn [fmap list_fmap foldM]. pose proof (alive_wf k ms alive Hg) as Hwa.
  assert (Hcount : len pre < 131072).
  { pose proof (members_count k alive Hwa) as H. rewrite <- El, len_app, len_cons in H. lia. }
  assert (Hm : m ∈ kept gone).
  { apply list_elem_of_filter. split; [|rewrite <- El; apply elem_of_app; right; left].
    intros (x & E & Hx)%Hgone%list_elem_of_fmap_1. destruct Hwa as (_ & _ & Ha). rewrite <- El, fmap_app in Ha.
    apply asc_NoDup, list.NoDup_app in Ha as (_ & Ha & _). apply (Ha (member_key x)); [by apply list_elem_of_fmap_2|].
    unfold member_key. rewrite <- E. left. }
  pose proof (stage_member_ok gone clear removed s m Hs ltac:(lia) Hm) as Hstep.
  destruct (stage_member (clear, removed, s) m) as [[[clear' removed'] s1]|e|], (ask removable (gone, s) (member_root m)) as [[gone' s2]|e'|]; try done.
  destruct Hstep as (-> & Hs' & Hn' & Hgone'). cbn [rbind]. apply (IH (pre ++ [m])); [by rewrite <- app_assoc| | |done].
  - intros r [Hr| ->]%Hgone'; rewrite fmap_app, elem_of_app; [left; by apply Hgone|right; left].
  - rewrite len_app. change (len [m]) with 1. lia.
Qed.
End Loop.

(** * Properties *)

(** C8: batch retirement removes exactly what the callback approves: on the liveness
    image of a group, [retire_roots] refuses a foreign key; otherwise it asks about the
    roots of the live members, each once and in coordinate order, stops at the first
    failure of the callback, whose error is the result, with the image as it was, and
    else returns how many were approved and leaves the image of the group without them.
    On any bytes whatever, a call that fails has not written. *)
Theorem retire_roots_exact {S : Type} (removable : S -> RootTid -> Result (bool * S)) k key ms alive s :
  members_wf k ms -> alive `sublist_of` ms ->
  retire_roots removable key s (live_record k ms alive) =
    (if negb (bool_decide (k = key)) then (Err InvalidState, live_record k ms alive) else
     match foldM (ask removable) ([], s) (member_root <$> alive) with
     | Ok (gone, s') => (Ok (len gone, s'), live_record k ms (filter (fun m => member_root m ∉ gone) alive))
     | Err e => (Err e, live_record k ms alive)
     | Panic => (Panic, live_record k ms alive)
     end) /\
  forall key s bytes, intact (retire_roots removable key s) bytes.
Proof.
  intros Hwf Hsub. split.
  2:{ clear. intros key s bytes. unfold retire_roots. apply intact_get, intact_bind. intros view. apply intact_if; [apply intact_lift|].
      apply intact_bind. intros [[clear removed] s']. apply intact_put. }
  assert (Hg : group_wf k ms alive) by done. pose proof (live_record_wf k ms Hwf alive) as Hr. unfold retire_roots. rewrite ebind_get.
  assert (Eo : bitmap_open (live_record k ms alive) = Ok (live_view k ms alive)) by (apply bitmap_open_iff; [by apply live_record_small|by eexists _, _]).
  rewrite Eo, ebind_ok. clear Eo. change (bitmap_kind _) with Liveness. change (bitmap_key _) with k. rewrite bool_decide_eq_true_2 by done. cbn [negb orb].
  destruct (bool_decide (k = key)) eqn:Ek; [|done]. apply bool_decide_eq_true in Ek as <-. cbn [negb].
  change (bitmap_pages _) with (members_mask ms). rewrite (stage_all removable k ms alive Hg).
  pose proof (stage_members_ok removable k ms alive Hg alive [] [] (replicate (N.to_nat MAX_BYTES) (byte_of 0)) 0 s eq_refl) as H.
  assert (H0 : staged_ok k ms alive [] (replicate (N.to_nat MAX_BYTES) (byte_of 0)) 0).
  { split_and!; [unfold len; rewrite length_replicate; lia|done|]. rewrite apply_clear_zero.
    - unfold kept. rewrite filter_all; [done|]. intros x _. apply not_elem_of_nil.
    - pose proof (live_len k ms alive Hg alive). unfold len in *. lia. }
  specialize (H ltac:(by intros r ?%elem_of_nil) ltac:(done) H0). rewrite ebind_lift.
  destruct (foldM (stage_member _ _ _ _) _ alive) as [[[clear removed] s1]|e|], (foldM (ask removable) _ _) as [[gone s2]|e'|]; try done;
    [|by subst e'].
  destruct H as (-> & _ & -> & H). unfold ebind, eput, eret. by rewrite H.
Qed.

(** A callback that remembers whom it was asked about and approves one of them. *)
Definition approve_ninth (seen : list N) (root : RootTid) : Result (bool * list N) :=
  if root_offset root =? 291 then Err InvalidParameters else Ok (root_offset root =? 9, seen ++ [root_offset root]).
Lemma retire_roots_exact_witness :
  let pair := take 2 sample_members in
  retire_roots approve_ninth sample_key [] (live_record sample_key sample_members pair)
    = (Ok (1, [1; 9]), live_record sample_key sample_members (take 1 sample_members)) /\
  retire_roots approve_ninth sample_key [] (live_record sample_key sample_members sample_members)
    = (Err InvalidParameters, live_record sample_key sample_members sample_members).
Proof.
  cbv zeta. split.
  - rewrite (proj1 (retire_roots_exact approve_ninth sample_key sample_key sample_members (take 2 sample_members) [] sample_members_wf ltac:(apply sublist_take))).
    vm_compute. reflexivity.
  - rewrite (proj1 (retire_roots_exact approve_ninth sample_key sample_key sample_members sample_members [] sample_members_wf ltac:(reflexivity))).
    vm_compute. reflexivity.
Defined.
