(* ===== verification/GroupMerge.v ===== *)
(** Merging groups: [src/crates/pin-core/src/grouped/merge.rs].

    Up to sixteen generations of one group are compacted into a fresh one that holds the
    owners still alive in any of them. A cursor per source skips the retired members and
    the sources are visited together in coordinate order; every live copy of a
    coordinate has to name one incarnation. The theorems: the plan exists exactly when
    the live members of the sources have one common ordered list, and its membership,
    liveness and postings are the exact encodings of that list. *)
From S2P Require Export GroupRetire.

Definition MAX_MERGE_SOURCES : N := 16.

(** [MergePlan] *)
Record MergePlan : Type := mkMergePlan {
  plan_key : GroupKey; plan_sources : list SegmentGroup; plan_mask : list N; plan_count : N }.
(** [MergePlan::len], [is_empty] *)
Definition plan_len (self : MergePlan) : N := plan_count self.
Definition plan_is_empty (self : MergePlan) : bool := plan_count self =? 0.

(** [Cursor] *)
Record Cursor : Type := mkCursor {
  cursor_source : SegmentGroup; cursor_index : N; cursor_page : option N; cursor_live : list N; cursor_current : option Member }.

Section Merge.
(** The callback [interrupt: impl FnMut() -> Result<()>] and its state. *)
Context {I : Type} (interrupt : I -> Result I).

(** [if self.index & 127 == 0 { interrupt()?; }] *)
Definition poll (s : I) (i : N) : Result I := if N.land i 127 =? 0 then interrupt s else Ok s.
(** [if self.page != Some(page) { self.live = ..; self.page = Some(page); }] *)
Definition cursor_load (self : Cursor) (page : N) : Result Cursor :=
  if bool_decide (cursor_page self = Some page) then Ok self else
  let* live := offsets_at (group_live (cursor_source self)) page in
  Ok (mkCursor (cursor_source self) (cursor_index self) (Some page) live (cursor_current self)).
(** The loop of [Cursor::advance]. *)
Fixpoint advance_loop (fuel : nat) (self : Cursor) (s : I) : Result (Cursor * I) :=
  match fuel with
  | O => Panic
  | S fuel =>
      let members := group_members (cursor_source self) in
      if members_len members <=? cursor_index self then Ok (self, s) else
      let* s := poll s (cursor_index self) in
      let* member := members_get members (cursor_index self) in
      let* index_ := add_w usize (cursor_index self) 1 in
      let self := mkCursor (cursor_source self) index_ (cursor_page self) (cursor_live self) (cursor_current self) in
      let* self := cursor_load self (page_of (member_root member)) in
      let* bit := sub_w (root_offset (member_root member)) 1 in
      let* value := or_panic (index (cursor_live self) (bit / 64)) in
      if negb (N.land value (N.shiftl 1 (bit mod 64)) =? 0)
      then Ok (mkCursor (cursor_source self) (cursor_index self) (cursor_page self) (cursor_live self) (Some member), s)
      else advance_loop fuel self s
  end.
(** [Cursor::advance]; one round per remaining member. *)
Definition advance (self : Cursor) (s : I) : Result (Cursor * I) :=
  advance_loop (S (N.to_nat (members_len (group_members (cursor_source self)) - cursor_index self)))
    (mkCursor (cursor_source self) (cursor_index self) (cursor_page self) (cursor_live self) None) s.

(** [.min_by_key(|member| member.root)]: the first of the smallest. *)
Definition min_by_root (l : list Member) : option Member :=
  foldl (fun best member =>
    match best with
    | Some b => if root_ltb (member_root member) (member_root b) then Some member else Some b
    | None => Some member
    end) None l.

(** The set-up loop of [visit]. *)
Definition start_cursor (st : list Cursor * I) (source : SegmentGroup) : Result (list Cursor * I) :=
  let '(cursors, s) := st in
  let* '(cursor, s) := advance (mkCursor source 0 None (replicate OFFSET_WORDS 0) None) s in
  Ok (cursors ++ [cursor], s).
(** The cursors that stand on the coordinate step over it. *)
Definition step_cursor (member : Member) (st : list Cursor * I) (cursor : Cursor) : Result (list Cursor * I) :=
  let '(cursors, s) := st in
  match cursor_current cursor with
  | None => Ok (cursors ++ [cursor], s)
  | Some current =>
      if negb (bool_decide (member_root current = member_root member)) then Ok (cursors ++ [cursor], s) else
      if negb (member_incarnation current =? member_incarnation member) then Err InvalidState else
      let* '(cursor, s) := advance cursor s in
      Ok (cursors ++ [cursor], s)
  end.

Section Visit.
(** [emit: impl FnMut(Member) -> Result<()>] and what it changes. *)
Context {O : Type} (emit : O -> Member -> Result O).
(** The [loop] of [visit]: a round for every coordinate. *)
Fixpoint visit_loop (fuel : nat) (cursors : list Cursor) (s : I) (out : O) : Result (I * O) :=
  match fuel with
  | 0%nat => Panic
  | S fuel =>
      match min_by_root (omap cursor_current cursors) with
      | None => Ok (s, out)
      | Some member =>
          let* '(cursors, s) := foldM (step_cursor member) ([], s) cursors in
          let* out := emit out member in
          visit_loop fuel cursors s out
      end
  end.
Definition all_members (sources : list SegmentGroup) : N :=
  foldr (fun source n => members_len (group_members source) + n) 0 sources.
(** [visit]: there are sixteen slots for cursors, and slicing more of them panics. *)
Definition visit (sources : list SegmentGroup) (s : I) (out : O) : Result (I * O) :=
  let* s := interrupt s in
  let* '(cursors, s) := foldM start_cursor ([], s) (take (N.to_nat MAX_MERGE_SOURCES) sources) in
  if MAX_MERGE_SOURCES <? len sources then Panic else
  visit_loop (S (N.to_nat (all_members sources))) cursors s out.
End Visit.

(** The identity checks of [MergePlan::new]. *)
Definition foreign_source (key : GroupKey) (prior : list SegmentGroup) (source : SegmentGroup) : bool :=
  let source_key := group_key source in
  negb (base source_key =? base key) || negb (bool_decide (group_relation source_key = group_relation key))
  || negb (bool_decide (layout source_key = layout key)) || bool_decide (group_segment source_key = group_segment key)
  || existsb (fun p => bool_decide (group_key p = source_key)) prior.
(** Its [emit] callback. *)
Definition count_member (st : N * list N) (member : Member) : Result (N * list N) :=
  let '(count, mask) := st in
  let* count := add_w 32 count 1 in
  Ok (count, insert mask (page_of (member_root member))).
(** [MergePlan::new] *)
Definition merge_new (key : GroupKey) (sources : list SegmentGroup) (s : I) : Result (MergePlan * I) :=
  if MAX_MERGE_SOURCES <? len sources then Err (Limit "group merge sources") else
  let* _ := foldM (fun _ '(i, source) =>
      if foreign_source key (take (N.to_nat i) sources) source then Err InvalidState else Ok tt) tt (enumerate sources) in
  let* '(s, (count, mask)) := visit count_member sources s (0, replicate PAGE_WORDS 0) in
  Ok (mkMergePlan key sources mask count, s).

(** [MergePlan::encode_members] *)
Definition merge_encode_members (self : MergePlan) (output : list byte) (s : I) : Result (N * list byte * I) :=
  let* s := interrupt s in
  let length := GROUP_HEADER_BYTES + plan_count self * MEMBER_BYTES in
  if len output <? length then Err (Limit "merged membership output") else
  let* region := or_panic (slice output 0 length) in
  let* writer := header_write (mkHeader (plan_key self) MEMBERS (plan_count self) (plan_mask self)) (Writer.new region) length in
  let* '(s, writer) := visit write_member (plan_sources self) s writer in
  Ok (length, Writer.bytes writer ++ drop (N.to_nat length) output, s).

(** [for (output, live) in offsets.iter_mut().zip(..) { *output |= live; }], by source. *)
Definition live_union (sources : list SegmentGroup) (page : N) : Result (list N) :=
  foldM (fun offs source => let* live := offsets_at (group_live source) page in Ok (or_mask offs live))
    (replicate OFFSET_WORDS 0) sources.
(** [MergePlan::encode_liveness] *)
Definition merge_encode_liveness (self : MergePlan) (output : list byte) (s : I) : Result (N * list byte * I) :=
  let* s := interrupt s in
  encode_with (fun s page => let* s := interrupt s in let* v := live_union (plan_sources self) page in Ok (v, s))
    (plan_key self) Liveness (plan_mask self) output s.

(** [MergePlan::term_offsets] *)
Definition add_term (page : N) (result : list N) (entry : SegmentGroup * option Bitmap) : Result (list N) :=
  let '(source, term) := entry in
  match term with
  | None => Ok result
  | Some term =>
      let* posting := offsets_at term page in
      let* live := offsets_at (group_live source) page in
      Ok (or_mask result (zip_with N.land posting live))
  end.
Definition term_offsets (self : MergePlan) (terms : list (option Bitmap)) (page : N) : Result (list N) :=
  foldM (add_term page) (replicate OFFSET_WORDS 0) (zip (plan_sources self) terms).
(** The two passes of [MergePlan::encode_posting] before the encoding: over the terms, and over the pages. *)
Definition check_term (st : list N * I) (entry : SegmentGroup * option Bitmap) : Result (list N * I) :=
  let '(pages, s) := st in
  let '(source, term) := entry in
  match term with
  | None => Ok st
  | Some term =>
      if negb (bool_decide (bitmap_key term = group_key source)) || negb (bool_decide (bitmap_kind term = Posting))
      then Err InvalidState else
      let* s := interrupt s in
      let* _ := validate_all term in
      Ok (or_mask pages (bitmap_pages term), s)
  end.
Definition occupied_page (self : MergePlan) (terms : list (option Bitmap)) (st : list N * I) (page : N) : Result (list N * I) :=
  let '(mask, s) := st in
  let* s := interrupt s in
  let* offs := term_offsets self terms page in
  Ok (if existsb (fun word => negb (word =? 0)) offs then insert mask page else mask, s).
(** [MergePlan::encode_posting] *)
Definition merge_encode_posting (self : MergePlan) (terms : list (option Bitmap)) (output : list byte) (s : I)
  : Result (N * list byte * I) :=
  let* s := interrupt s in
  if negb (len terms =? len (plan_sources self)) then Err InvalidParameters else
  let* '(all, s) := foldM check_term (replicate PAGE_WORDS 0, s) (zip (plan_sources self) terms) in
  let* '(mask, s) := foldM (occupied_page self terms) (replicate PAGE_WORDS 0, s) (pages all) in
  encode_with (fun s page => let* s := interrupt s in let* v := term_offsets self terms page in Ok (v, s))
    (plan_key self) Posting mask output s.
End Merge.

(** * Specification *)
(** A source: the membership of a generation and who of it is alive. *)
Record Part : Type := mkPart { part_key : GroupKey; part_members : list Member; part_alive : list Member }.
Definition part_view (p : Part) : SegmentGroup := group_view (part_key p) (part_members p) (part_alive p).
(** It covers the same blocks of the same relation as [key]. *)
Definition part_wf (key : GroupKey) (p : Part) : Prop :=
  group_wf (part_key p) (part_members p) (part_alive p) /\ base (part_key p) = base key /\
  group_relation (part_key p) = group_relation key /\ layout (part_key p) = layout key.
(** The common list of the live members: ordered, and nothing else in it. *)
Definition merged (parts : list Part) (l : list Member) : Prop :=
  asc 0 (member_key <$> l) /\ forall m, m ∈ l <-> exists p, p ∈ parts /\ m ∈ part_alive p.
(** The errors of a callback. *)
Definition raises {S A E} (f : S -> res E A) (e : E) : Prop := exists s, f s = Err e.

(** ** The merged list is a membership of the target *)
Lemma part_member key p m : part_wf key p -> m ∈ part_members p -> member_wf key m.
Proof.
  intros ([Hwf _] & Eb & _ & El) Hm. pose proof (member_in _ _ Hwf m Hm) as H. unfold member_wf in *. by rewrite <- El, <- Eb.
Qed.
Lemma part_live key p m : part_wf key p -> m ∈ part_alive p -> member_wf key m.
Proof. intros Hp Hm. eapply part_member; [done|]. destruct Hp as [[_ Hs] _]. by eapply elem_of_sublist. Qed.
Lemma live_members_wf key parts l : key_wf key -> Forall (part_wf key) parts -> asc 0 (member_key <$> l) ->
  (forall m, m ∈ l -> exists p, p ∈ parts /\ m ∈ part_alive p) -> members_wf key l.
Proof.
  intros Hk Hp Ha Hin. split_and!; [done| |done]. apply list.Forall_forall. intros m (p & Hpp & Hm)%Hin.
  eapply part_live; [|done]. by apply (proj1 (list.Forall_forall _ _) Hp).
Qed.
Lemma merged_wf key parts l : key_wf key -> Forall (part_wf key) parts -> merged parts l -> members_wf key l.
Proof. intros Hk Hp [Ha Hin]. apply (live_members_wf key parts); [done..|]. intros m. apply Hin. Qed.
Lemma merged_unique key parts l1 l2 : key_wf key -> Forall (part_wf key) parts -> merged parts l1 -> merged parts l2 -> l1 = l2.
Proof.
  intros Hk Hp H1 H2. apply (members_unique key); [by eapply merged_wf|apply H2|]. intros m. by rewrite (proj2 H1), (proj2 H2).
Qed.
(** Two incarnations alive at one coordinate have no common list. *)
Definition conflict (parts : list Part) : Prop :=
  exists p q x y, p ∈ parts /\ q ∈ parts /\ x ∈ part_alive p /\ y ∈ part_alive q /\ member_root x = member_root y /\ x <> y.
Lemma conflict_merged key parts : key_wf key -> Forall (part_wf key) parts -> conflict parts -> ~ exists l, merged parts l.
Proof.
  intros Hk Hp (p & q & x & y & Hpp & Hq & Hx & Hy & E & Hne) [l Hm]. apply Hne.
  pose proof (merged_wf key parts l Hk Hp Hm) as Hwf. destruct Hm as [_ Hm]. apply (same_root key l Hwf); [apply Hm; eauto..|done].
Qed.

(** ** Cursors *)
Section Cursors.
Context {I : Type} (interrupt : I -> Result I) (Hint : forall s, interrupt s <> Panic).
Context (key : GroupKey).
Abbreviation interrupted := (raises interrupt).
(** The live members a cursor has not passed. *)
Definition ahead (p : Part) (i : N) : list Member := filter (fun m => m ∈ part_alive p) (drop (N.to_nat i) (part_members p)).
Definition remaining (p : Part) (c : Cursor) : list Member :=
  match cursor_current c with Some m => [m] | None => [] end ++ ahead p (cursor_index c).
Definition cursor_wf (p : Part) (c : Cursor) : Prop :=
  cursor_source c = part_view p /\ cursor_index c <= len (part_members p) /\ mask_wf OFFSET_WORDS (cursor_live c) /\
  forall page, cursor_page c = Some page -> cursor_live c = page_mask (part_key p) (part_alive p) page.
Definition cursor_ok (p : Part) (c : Cursor) : Prop := cursor_wf p c /\ (cursor_current c = None -> remaining p c = []).

Lemma poll_ok s i : outcome interrupted (fun _ => True) (poll interrupt s i).
Proof.
  unfold poll. destruct (_ =? 0); [|done]. pose proof (Hint s). destruct (interrupt s) eqn:E; [done| |done]. by exists s.
Qed.
Lemma cursor_load_ok p c page : part_wf key p -> cursor_wf p c -> page < 256 ->
  exists c', cursor_load c page = Ok c' /\ cursor_wf p c' /\ cursor_live c' = page_mask (part_key p) (part_alive p) page /\
    cursor_index c' = cursor_index c /\ cursor_current c' = cursor_current c.
Proof.
  intros [Hg _] Hc Hp. pose proof Hc as (Es & Hi & Hw & Hl). unfold cursor_load.
  destruct (bool_decide_reflect (cursor_page c = Some page)) as [E|]; [exists c; split_and!; auto|].
  rewrite Es. cbn [part_view group_view group_live]. rewrite (live_offsets_view _ _ _ page Hg Hp). cbn [rbind].
  eexists. split; [done|]. cbn. split_and!; [|done..]. split_and!; cbn; [done..|apply offsets_mask_wf|by intros ? [= <-]].
Qed.
Lemma ahead_cons p i m : index (part_members p) i = Some m ->
  ahead p i = (if bool_decide (m ∈ part_alive p) then [m] else []) ++ ahead p (i + 1).
Proof.
  intros Hm. unfold ahead, index in *. rewrite (drop_S _ m) by done. rewrite filter_cons.
  replace (N.to_nat (i + 1)) with (S (N.to_nat i)) by lia. by destruct (bool_decide_reflect (m ∈ part_alive p)); case_decide.
Qed.
Lemma ahead_end p i : len (part_members p) <= i -> ahead p i = [].
Proof. intros H. unfold ahead. rewrite drop_ge; [done|]. unfold len in H. lia. Qed.
Lemma advance_loop_ok p fuel c s : part_wf key p -> cursor_wf p c -> cursor_current c = None ->
  (N.to_nat (len (part_members p) - cursor_index c) < fuel)%nat ->
  outcome interrupted (fun '(c', _) => cursor_ok p c' /\ remaining p c' = ahead p (cursor_index c)) (advance_loop interrupt fuel c s).
Proof.
  intros Hp. revert c s. induction fuel as [|fuel IH]; intros c s Hc Hn Hf; [lia|]. cbn [advance_loop].
  pose proof Hc as (Es & Hi & Hw & Hl). pose proof Hp as [[Hwf _] _]. rewrite Es. cbn [part_view group_view group_members].
  change (members_len _) with (len (part_members p)). destruct (N.leb_spec (len (part_members p)) (cursor_index c)) as [Hge|Hlt].
  { cbn. assert (E : remaining p c = []) by (unfold remaining; rewrite Hn, ahead_end by done; done). split; [by split|].
    by rewrite E, ahead_end. }
  eapply outcome_bind; [apply poll_ok|]. intros s1 _ _. rewrite (members_get_view _ _ _ Hwf).
  destruct (index (part_members p) (cursor_index c)) as [m|] eqn:Em; [|unfold index in Em; apply lookup_ge_None in Em; unfold len in Hlt; lia].
  cbn [ok_or rbind]. pose proof (members_count _ _ Hwf) as Hcount. rewrite add_w_fits by (unfold usize; change (2 ^ 64) with 18446744073709551616; lia).
  cbn [rbind]. assert (Hin : m ∈ part_members p) by (unfold index in Em; by apply list_elem_of_lookup_2 in Em).
  set (c1 := mkCursor _ (cursor_index c + 1) _ _ _). assert (Hc1 : cursor_wf p c1) by (split_and!; [done|cbn; lia|done|done]).
  destruct (cursor_load_ok p c1 (page_of (member_root m)) Hp Hc1 (page_of_lt _)) as (c2 & E2 & Hc2 & El & Ei & Ec). rewrite E2. cbn [rbind].
  pose proof (part_member key p m Hp Hin) as Hm. pose proof (member_key_eq _ _ Hwf m Hin) as [_ Ho]. rewrite sub_w_fits by lia. cbn [rbind].
  set (bit := root_offset (member_root m) - 1) in *. pose proof Hc2 as (_ & _ & [Hlen _] & _).
  destruct (index (cursor_live c2) (bit / 64)) as [v|] eqn:Ev.
  2:{ unfold index in Ev. apply lookup_ge_None in Ev. rewrite Hlen in Ev. unfold OFFSET_WORDS, bit in Ev. dlia. }
  cbn [or_panic rbind]. rewrite land_pow2, negb_involutive.
  assert (Hbit : N.testbit v (bit mod 64) = bool_decide (m ∈ part_alive p)).
  { apply eq_true_iff_eq. rewrite bool_decide_eq_true. destruct Hp as [Hg _].
    rewrite <- (member_bit _ _ _ Hg (part_alive p) m); [|exact (alive_in _ _ _ Hg)|done]. rewrite <- El. unfold mask_bit. fold bit.
    unfold index in Ev. by rewrite Ev. }
  rewrite Hbit. rewrite (ahead_cons p (cursor_index c) m Em). destruct (bool_decide (m ∈ part_alive p)).
  - cbn. change (cursor_index c1) with (cursor_index c + 1) in Ei. split; [split; [exact Hc2|done]|]. unfold remaining. cbn. by rewrite Ei.
  - rewrite app_nil_l. change (cursor_index c1) with (cursor_index c + 1) in Ei. rewrite <- Ei. apply IH; [done|by rewrite Ec|]. rewrite Ei. lia.
Qed.
Lemma advance_ok p c s : part_wf key p -> cursor_wf p c ->
  outcome interrupted (fun '(c', _) => cursor_ok p c' /\ remaining p c' = ahead p (cursor_index c)) (advance interrupt c s).
Proof.
  intros Hp Hc. pose proof Hc as (Es & ? & ? & ?). unfold advance. rewrite Es. cbn [part_view group_view group_members].
  change (members_len _) with (len (part_members p)). rewrite <- Es. set (c1 := mkCursor _ _ _ _ None).
  change (cursor_index c) with (cursor_index c1). apply advance_loop_ok; [done|by split_and!|done|cbn; lia].
Qed.
Lemma ahead_all p : part_wf key p -> ahead p 0 = part_alive p.
Proof.
  intros [Hg _]. unfold ahead. rewrite drop_0. pose proof Hg as [(Hk & Hf & Ha) Hs].
  apply (members_unique (part_key p)); [|apply (group_wf_sub _ _ _ Hg)|].
  - eapply members_wf_sub; [apply Hg| |by apply asc_fmap_filter]. by intros m [_ ?]%list_elem_of_filter.
  - intros m. rewrite list_elem_of_filter. split; [tauto|]. intros Hm. split; [done|]. by eapply elem_of_sublist.
Qed.


(** ** Rounds of the visit *)
Context (parts : list Part) (Hk : key_wf key) (Hparts : Forall (part_wf key) parts).
Lemma start_ok s :
  outcome interrupted (fun '(cs, _) => Forall2 (fun p c => cursor_ok p c /\ remaining p c = part_alive p) parts cs)
    (foldM (start_cursor interrupt) ([], s) (part_view <$> parts)).
Proof.
  rewrite foldM_fmap. apply (outcome_foldM interrupted
    (fun pre '(cs, _) => Forall2 (fun p c => cursor_ok p c /\ remaining p c = part_alive p) pre cs)); [constructor|].
  intros pre p post [cs s1] El Hcs. assert (Hp : part_wf key p).
  { apply (proj1 (list.Forall_forall _ _) Hparts). rewrite El. apply elem_of_app; right; left. }
  cbn [start_cursor]. set (c0 := mkCursor _ _ _ _ _). eapply outcome_bind.
  - apply (advance_ok p c0 s1 Hp). split_and!; cbn; [done|lia|by apply mask_wf_replicate|done].
  - intros [c s2] _ [Hc Hr]. cbn. apply Forall2_app; [done|]. constructor; [|constructor]. split; [done|]. rewrite Hr. by apply ahead_all.
Qed.

(** A coordinate was passed. *)
Definition strip (m : Member) (r : list Member) : list Member :=
  match r with x :: r' => if bool_decide (x = m) then r' else r | [] => [] end.
Definition rests (ps : list Part) (cs : list Cursor) : list (list Member) := zip_with remaining ps cs.
Lemma cursor_head p c : cursor_ok p c -> head (remaining p c) = cursor_current c.
Proof. intros [_ H]. destruct (cursor_current c) as [m|] eqn:E; [unfold remaining; by rewrite E|by rewrite H]. Qed.
Lemma currents_heads cs : Forall2 cursor_ok parts cs -> omap cursor_current cs = omap head (rests parts cs).
Proof.
  unfold rests. clear Hparts. induction 1 as [|p c ps cs Hc _ IH]; [done|]. cbn. rewrite (cursor_head _ _ Hc), IH. done.
Qed.
Definition alive_here (m : Member) : Prop := exists p, p ∈ parts /\ m ∈ part_alive p.
Lemma step_ok m p c cs s : p ∈ parts -> cursor_ok p c -> remaining p c ⊆ part_alive p -> alive_here m ->
  outcome (fun e => interrupted e \/ (e = InvalidState /\ conflict parts))
    (fun '(cs', _) => exists c', cs' = cs ++ [c'] /\ cursor_ok p c' /\ remaining p c' = strip m (remaining p c) /\
       (forall x, head (remaining p c) = Some x -> member_root x = member_root m -> x = m))
    (step_cursor interrupt m (cs, s) c).
Proof.
  intros Hpp Hc Hsub (q & Hq & Hm). pose proof (proj1 (list.Forall_forall _ _) Hparts p Hpp) as Hp. cbn [step_cursor].
  pose proof (cursor_head p c Hc) as Hh. destruct (cursor_current c) as [x|] eqn:Ec.
  2:{ exists c. split_and!; [done|done| |intros x Hx; by rewrite Hh in Hx]. destruct Hc as [_ Hc]. by rewrite Hc. }
  destruct (remaining p c) as [|x' r] eqn:Er; [done|]. cbn in Hh. apply Some_inj' in Hh as ->.
  destruct (bool_decide_reflect (member_root x = member_root m)) as [E|Hne]; cbn [negb].
  2:{ exists c. split_and!; [done|done| |by intros x' [= <-]]. rewrite Er. cbn. rewrite bool_decide_eq_false_2; [done|]. by intros ->. }
  destruct (N.eqb_spec (member_incarnation x) (member_incarnation m)) as [Ei|Hi]; cbn [negb].
  2:{ right. split; [done|]. exists p, q, x, m. split_and!; [done|done|apply Hsub; left|done|done|]. intros ->. done. }
  assert (x = m) as -> by (destruct x, m; cbn in *; by subst).
  eapply outcome_bind.
  - eapply outcome_mono; [apply (advance_ok p c s Hp); apply Hc|by left|]. intros ? H. exact H.
  - intros [c' s'] _ [Hc' Hr']. exists c'. split_and!; [done|done| |by intros x' [= <-]]. cbn. rewrite bool_decide_eq_true_2 by done.
    rewrite Hr'. unfold remaining in Er. rewrite Ec in Er. cbn in Er. by injection Er.
Qed.
Lemma steps_ok m cs s : Forall2 (fun p c => cursor_ok p c /\ remaining p c ⊆ part_alive p) parts cs -> alive_here m ->
  outcome (fun e => interrupted e \/ (e = InvalidState /\ conflict parts))
    (fun '(cs', _) => Forall2 cursor_ok parts cs' /\ rests parts cs' = strip m <$> rests parts cs /\
       Forall (fun r => forall x, head r = Some x -> member_root x = member_root m -> x = m) (rests parts cs))
    (foldM (step_cursor interrupt m) ([], s) cs).
Proof.
  intros Hcs Hm. set (same := fun r : list Member => forall x, head r = Some x -> member_root x = member_root m -> x = m).
  assert (G : forall ps1 ps2 cs1 cs2 cs3 s, parts = ps1 ++ ps2 -> Forall2 cursor_ok ps1 cs3 ->
    rests ps1 cs3 = strip m <$> rests ps1 cs1 -> Forall same (rests ps1 cs1) ->
    length ps1 = length cs1 -> Forall2 (fun p c => cursor_ok p c /\ remaining p c ⊆ part_alive p) ps2 cs2 ->
    outcome (fun e => interrupted e \/ (e = InvalidState /\ conflict parts))
      (fun '(cs', _) => Forall2 cursor_ok parts cs' /\ rests parts cs' = strip m <$> rests parts (cs1 ++ cs2) /\
        Forall same (rests parts (cs1 ++ cs2)))
      (foldM (step_cursor interrupt m) (cs3, s) cs2)).
  { clear cs s Hcs. intros ps1 ps2 cs1 cs2 cs3 s. revert ps1 cs1 cs3 s. revert cs2. induction ps2 as [|p ps2 IH]; intros cs2 ps1 cs1 cs3 s E H3 Hr Hs Hl H2.
    - apply Forall2_nil_inv_l in H2 as ->. cbn. rewrite !app_nil_r in *. by subst.
    - apply Forall2_cons_inv_l in H2 as (c & cs2' & [Hc Hsub] & H2 & ->). cbn [foldM]. eapply outcome_bind.
      + apply (step_ok m p c cs3 s); [rewrite E; apply elem_of_app; right; left|done..].
      + intros [cs' s'] _ (c' & -> & Hc' & Hr' & Hh). rewrite (cons_middle c cs1 cs2'), app_assoc.
        assert (L3 : length ps1 = length cs3) by by eapply Forall2_length.
        apply (IH cs2' (ps1 ++ [p]) (cs1 ++ [c]) (cs3 ++ [c'])).
        * by rewrite <- app_assoc.
        * apply Forall2_app; [done|]. constructor; [done|constructor].
        * unfold rests in *. rewrite !zip_with_app by done. rewrite fmap_app, Hr. cbn. by rewrite Hr'.
        * unfold rests in *. rewrite !zip_with_app by done. apply Forall_app. split; [done|]. constructor; [done|constructor].
        * rewrite !length_app. cbn. lia.
        * done. }
  by apply (G [] parts [] cs []).
Qed.
Lemma min_by_root_spec l : (forall x, x ∈ l -> root_offset (member_root x) < 2 ^ 16) ->
  match min_by_root l with
  | None => l = []
  | Some m => m ∈ l /\ forall x, x ∈ l -> member_key m <= member_key x
  end.
Proof.
  unfold min_by_root. induction l as [|x l IH] using rev_ind; intros Ho; [done|]. rewrite foldl_app. cbn [foldl].
  specialize (IH ltac:(intros; apply Ho, elem_of_app; by left)). destruct (foldl _ None l) as [b|].
  - destruct IH as [Hb Hmin]. rewrite root_ltb_key by (apply Ho, elem_of_app; (right; left) || by left).
    destruct (N.ltb_spec (Identity.key (member_root x)) (Identity.key (member_root b))) as [Hlt|Hge]; (split; [apply elem_of_app; (right; left) || by left|]);
      intros y [Hy| ->%list_elem_of_singleton]%elem_of_app; unfold member_key in *; try lia; try (by apply Hmin); specialize (Hmin y Hy); lia.
  - subst l. split; [left|]. intros y ->%list_elem_of_singleton. lia.
Qed.

(** What is emitted so far, against what is left of every source. *)
Definition visited (pre : list Member) (rs : list (list Member)) : Prop :=
  Forall2 (fun p r => exists done_, part_alive p = done_ ++ r /\ done_ ⊆ pre) parts rs /\
  (forall m, m ∈ pre -> alive_here m) /\ asc 0 (member_key <$> pre) /\
  (forall x r y, x ∈ pre -> r ∈ rs -> y ∈ r -> member_key x < member_key y).
Lemma visited_rest pre rs r : visited pre rs -> r ∈ rs -> exists p done_, p ∈ parts /\ part_alive p = done_ ++ r.
Proof.
  intros (H & _) Hr. apply list_elem_of_lookup_1 in Hr as [i Hr]. destruct (Forall2_lookup_r _ _ _ _ _ H Hr) as (p & Hp & d & E & _).
  exists p, d. split; [by eapply list_elem_of_lookup_2|done].
Qed.
Lemma part_asc p : p ∈ parts -> members_wf (part_key p) (part_alive p).
Proof. intros Hp. apply (proj1 (list.Forall_forall _ _) Hparts) in Hp as [Hg _]. by apply (group_wf_sub _ _ _ Hg). Qed.
Lemma asc_tail lo (d r : list Member) : asc lo (member_key <$> (d ++ r)) -> asc lo (member_key <$> r).
Proof. induction d as [|x d IH] in lo |- *; [done|]. cbn. intros [? H]. eapply asc_weaken; [|apply IH, H]. lia. Qed.
Lemma rest_after pre rs x r y : visited pre rs -> (x :: r) ∈ rs -> y ∈ r -> member_key x < member_key y.
Proof.
  intros Hv Hr Hy. destruct (visited_rest _ _ _ Hv Hr) as (p & d & Hp & E). destruct (part_asc p Hp) as (_ & _ & Ha). rewrite E in Ha.
  apply asc_tail in Ha. cbn in Ha. destruct Ha as [_ Ha]. pose proof (asc_ge _ _ _ Ha (list_elem_of_fmap_2 member_key _ _ Hy)). lia.
Qed.
Lemma visited_step pre rs m : visited pre rs -> m ∈ omap head rs -> (forall x, x ∈ omap head rs -> member_key m <= member_key x) ->
  Forall (fun r => forall x, head r = Some x -> member_root x = member_root m -> x = m) rs -> visited (pre ++ [m]) (strip m <$> rs).
Proof.
  intros Hv Hm Hmin Hsame. pose proof Hv as (H1 & H2 & H3 & H4). apply list_elem_of_omap in Hm as (rm & Hrm & Em).
  destruct rm as [|m' rm]; [done|]. apply Some_inj' in Em as ->. split_and!.
  - apply Forall2_fmap_r. eapply Forall2_impl; [|exact H1]. intros p r (d & E & Hd). destruct r as [|x r]; cbn.
    + exists d. split; [done|]. intros y Hy. apply elem_of_app; left; by apply Hd.
    + destruct (bool_decide_reflect (x = m)) as [->|Hne].
      * exists (d ++ [m]). split; [by rewrite <- app_assoc|]. intros y [Hy|Hy]%elem_of_app; apply elem_of_app; [left; by apply Hd|by right].
      * exists d. split; [done|]. intros y Hy. apply elem_of_app; left; by apply Hd.
  - intros y [Hy| ->%list_elem_of_singleton]%elem_of_app; [by apply H2|]. destruct (visited_rest _ _ _ Hv Hrm) as (p & d & Hp & E).
    exists p. split; [done|]. rewrite E. apply elem_of_app; right; left.
  - rewrite fmap_app. apply (asc_app _ _ _ (member_key m)); [done| |lia|cbn; split; [lia|done]].
    intros z (x & -> & Hx)%list_elem_of_fmap_1. apply (H4 x (m :: rm) m); [done..|left].
  - intros x r y Hx (r0 & -> & Hr0)%list_elem_of_fmap_1 Hy. assert (Hy0 : y ∈ r0).
    { destruct r0 as [|z r0]; [done|]. cbn in Hy. destruct (bool_decide (z = m)); [by right|done]. }
    apply elem_of_app in Hx as [Hx|Hx%list_elem_of_singleton]; [by apply (H4 x r0 y)|subst x].
    destruct r0 as [|z r0]; [by apply elem_of_nil in Hy0|]. cbn in Hy. destruct (bool_decide_reflect (z = m)) as [->|Hne].
    + by apply (rest_after pre rs m r0).
    + pose proof (Hmin z ltac:(apply list_elem_of_omap; by exists (z :: r0))) as Hle.
      assert (Hz : member_key m <> member_key z).
      { intros E. apply Hne. apply (proj1 (list.Forall_forall _ _) Hsame (z :: r0) Hr0); [done|].
        destruct (visited_rest _ _ _ Hv Hrm) as (p & d & Hp & E1). destruct (visited_rest _ _ _ Hv Hr0) as (q & d' & Hq & E2).
        pose proof (part_asc p Hp) as Wp. pose proof (part_asc q Hq) as Wq.
        destruct (member_key_eq _ _ Wp m) as []; [rewrite E1; apply elem_of_app; right; left|].
        destruct (member_key_eq _ _ Wq z) as []; [rewrite E2; apply elem_of_app; right; left|].
        destruct (member_root z), (member_root m). cbn in *. f_equal; lia. }
      apply elem_of_cons in Hy0 as [->|Hy0]; [lia|]. pose proof (rest_after pre rs z r0 y Hv Hr0 Hy0). lia.
Qed.
Lemma visited_done pre rs : visited pre rs -> omap head rs = [] -> merged parts pre.
Proof.
  intros (H1 & H2 & H3 & _) He. split; [done|]. intros m. split; [apply H2|]. intros (p & Hp & Hm).
  apply list_elem_of_lookup_1 in Hp as [i Hp]. destruct (Forall2_lookup_l _ _ _ _ _ H1 Hp) as (r & Hr & d & E & Hd).
  destruct r as [|x r]; [rewrite app_nil_r in E; apply Hd; by rewrite <- E|].
  exfalso. assert (Hx : x ∈ omap head rs) by (apply list_elem_of_omap; exists (x :: r); split; [by eapply list_elem_of_lookup_2|done]).
  rewrite He in Hx. by apply elem_of_nil in Hx.
Qed.
Lemma strip_length m rs : (length (concat (strip m <$> rs)) <= length (concat rs))%nat /\
  (m ∈ omap head rs -> (length (concat (strip m <$> rs)) < length (concat rs))%nat).
Proof.
  induction rs as [|r rs [IH1 IH2]]; [split; [done|by intros ?%elem_of_nil]|].
  assert (Hr : (length (strip m r) <= length r)%nat /\ (head r = Some m -> (length (strip m r) < length r)%nat)).
  { destruct r as [|x r]; [done|]. cbn. destruct (bool_decide_reflect (x = m)) as [->|Hne]; cbn; [lia|]. split; [done|]. by intros [= ->]. }
  cbn [fmap list_fmap concat]. rewrite !length_app. split; [lia|]. intros Hm. cbn in Hm. destruct (head r) as [x|] eqn:E.
  - apply elem_of_cons in Hm as [->|Hm]; [destruct Hr as [_ Hr]; specialize (Hr eq_refl)|apply IH2 in Hm]; lia.
  - apply IH2 in Hm. lia.
Qed.

(** ** The visit *)
Context {O : Type} (emit : O -> Member -> Result O) (J : list Member -> O -> Prop) (failed : Error -> Prop).
Context (Hemit : forall pre m o, J pre o -> members_wf key (pre ++ [m]) -> (forall x, x ∈ pre ++ [m] -> alive_here x) ->
  outcome failed (J (pre ++ [m])) (emit o m)).
Definition visit_fails (e : Error) : Prop := interrupted e \/ failed e \/ (e = InvalidState /\ ~ exists l, merged parts l).
Lemma visit_loop_ok fuel pre cs s o : Forall2 cursor_ok parts cs -> visited pre (rests parts cs) ->
  (length (concat (rests parts cs)) < fuel)%nat -> J pre o ->
  outcome visit_fails (fun '(_, o') => exists l, merged parts l /\ J l o') (visit_loop interrupt emit fuel cs s o).
Proof.
  revert pre cs s o. induction fuel as [|fuel IH]; intros pre cs s o Hcs Hv Hf Ho; [lia|]. cbn [visit_loop].
  rewrite (currents_heads cs Hcs). set (rs := rests parts cs) in *.
  assert (Hin : forall x, x ∈ omap head rs -> alive_here x).
  { intros x (r & Hr & E)%list_elem_of_omap. destruct (visited_rest _ _ _ Hv Hr) as (p & d & Hp & Ed). exists p. split; [done|].
    rewrite Ed. destruct r; [done|]. apply Some_inj' in E as ->. apply elem_of_app; right; left. }
  assert (Hoff : forall x, x ∈ omap head rs -> root_offset (member_root x) < 2 ^ 16).
  { intros x (p & Hp & Hx)%Hin. pose proof (member_key_eq _ _ (part_asc p Hp) x Hx) as [_ ?]. change (2 ^ 16) with 65536. lia. }
  pose proof (min_by_root_spec (omap head rs) Hoff) as Hmin. destruct (min_by_root (omap head rs)) as [m|].
  2:{ cbn. exists pre. split; [by apply (visited_done pre rs)|done]. }
  destruct Hmin as [Hm Hmin]. eapply outcome_bind.
  - eapply outcome_mono; [apply (steps_ok m cs s)| |intros ? H; exact H].
    + apply Forall2_same_length_lookup. split; [by eapply Forall2_length|]. intros i p c Hp Hc. pose proof (Forall2_lookup_lr _ _ _ _ _ _ Hcs Hp Hc) as Hok.
      split; [done|]. destruct Hv as (H1 & _). destruct (Forall2_lookup_l _ _ _ _ _ H1 Hp) as (r & Hr & d & Ed & _). unfold rs, rests in Hr.
      rewrite lookup_zip_with, Hp, Hc in Hr. cbn in Hr. apply Some_inj' in Hr as <-. rewrite Ed. intros x Hx. apply elem_of_app; by right.
    + by apply Hin.
    + intros e [He|[-> Hc]]; [by left|right; right; split; [done|]]. by apply (conflict_merged key).
  - intros [cs' s'] _ (Hcs' & Hr' & Hs'). fold rs in Hr', Hs'.
    assert (Hv' : visited (pre ++ [m]) (rests parts cs')) by (rewrite Hr'; by apply visited_step).
    eapply outcome_bind.
    + eapply outcome_mono; [apply (Hemit pre m o Ho)|intros; right; by left|intros ? H; exact H].
      * apply (live_members_wf key parts); [done|done|apply Hv'|]. apply Hv'.
      * apply Hv'.
    + intros o' _ Ho'. apply (IH (pre ++ [m])); [done|done| |done]. rewrite Hr'. pose proof (proj2 (strip_length m rs) Hm). lia.
Qed.
Lemma all_members_bound : (length (concat (part_alive <$> parts)) <= N.to_nat (all_members (part_view <$> parts)))%nat.
Proof.
  clear Hemit. induction Hparts as [|p ps [[_ Hs] _] _ IH]; [done|]. cbn [fmap list_fmap concat all_members foldr]. fold (all_members (part_view <$> ps)).
  change (members_len _) with (len (part_members p)). rewrite length_app. apply sublist_length in Hs. specialize (IH (List.Forall_inv_tail Hparts)). unfold len. lia.
Qed.
Lemma rests_start cs : Forall2 (fun p c => cursor_ok p c /\ remaining p c = part_alive p) parts cs -> rests parts cs = part_alive <$> parts.
Proof. unfold rests. clear Hparts Hemit. induction 1 as [|p c ps cs [_ E] _ IH]; [done|]. cbn. by rewrite E, IH. Qed.
Lemma visit_ok s o : len parts <= MAX_MERGE_SOURCES -> J [] o ->
  outcome visit_fails (fun '(_, o') => exists l, merged parts l /\ J l o') (visit interrupt emit (part_view <$> parts) s o).
Proof.
  intros Hn Ho. unfold visit. eapply (outcome_bind _ (fun _ => True)).
  { pose proof (Hint s). destruct (interrupt s) eqn:E; [done| |done]. left. by exists s. }
  intros s1 _ _. rewrite take_ge by (rewrite length_fmap; unfold len in Hn; lia). eapply outcome_bind.
  { eapply outcome_mono; [apply start_ok|by left|intros ? H; exact H]. }
  intros [cs s2] _ Hcs. rewrite len_fmap, (proj2 (N.ltb_ge _ _)) by done. pose proof (rests_start cs Hcs) as Er.
  apply (visit_loop_ok _ []); [by eapply Forall2_impl; [|exact Hcs]; intros ? ? []| | |done].
  - rewrite Er. split_and!; [|by intros m ?%elem_of_nil|done|by intros x r y ?%elem_of_nil]. apply Forall2_fmap_r, Forall2_same_length_lookup.
    split; [done|]. intros i p q Hp Hq. rewrite Hp in Hq. apply Some_inj' in Hq as ->. exists []. split; [done|]. apply list_subseteq_nil.
  - rewrite Er. pose proof all_members_bound. lia.
Qed.
End Cursors.

(** * Plans *)
(** What [MergePlan::new] checks of the keys. *)
Definition compatible (key : GroupKey) (parts : list Part) : Prop :=
  len parts <= MAX_MERGE_SOURCES /\ NoDup (part_key <$> parts) /\
  forall p, p ∈ parts -> base (part_key p) = base key /\ group_relation (part_key p) = group_relation key /\
    layout (part_key p) = layout key /\ group_segment (part_key p) <> group_segment key.
(** The plan that merges [parts] to the list [l]. *)
Definition plan_for (key : GroupKey) (parts : list Part) (l : list Member) : MergePlan :=
  mkMergePlan key (part_view <$> parts) (members_mask l) (len l).

Lemma foreign_source_false key prior p : foreign_source key (part_view <$> prior) (part_view p) = false <->
  (base (part_key p) = base key /\ group_relation (part_key p) = group_relation key /\ layout (part_key p) = layout key /\
   group_segment (part_key p) <> group_segment key) /\ part_key p ∉ part_key <$> prior.
Proof.
  unfold foreign_source. change (group_key (part_view p)) with (part_key p). rewrite !orb_false_iff, !negb_false_iff, N.eqb_eq, !bool_decide_eq_true, bool_decide_eq_false.
  rewrite <- not_true_iff_false, existsb_exists. setoid_rewrite bool_decide_eq_true. split.
  - intros [[[[? ?] ?] ?] Hn]. split_and!; [done..|]. intros (q & E & Hq)%list_elem_of_fmap_1. apply Hn. exists (part_view q). split; [|done].
    by apply list_elem_of_In, list_elem_of_fmap_2.
  - intros [(? & ? & ? & ?) Hn]. split_and!; [done..|]. intros (x & Hx%list_elem_of_In & E). apply list_elem_of_fmap_1 in Hx as (q & -> & Hq).
    apply Hn. apply list_elem_of_fmap. exists q. split; [done|done].
Qed.
Lemma take_index {A} (l : list A) i x : index l i = Some x -> take (N.to_nat (i + 1)) l = take (N.to_nat i) l ++ [x].
Proof. intros H. replace (N.to_nat (i + 1)) with (S (N.to_nat i)) by lia. by apply take_S_r. Qed.
(** The identity checks pass exactly on compatible sources. *)
Lemma check_sources_ok key parts :
  outcome (fun e => e = InvalidState /\ ~ compatible key parts)
    (fun _ => NoDup (part_key <$> parts) /\ forall p, p ∈ parts -> base (part_key p) = base key /\ group_relation (part_key p) = group_relation key /\
      layout (part_key p) = layout key /\ group_segment (part_key p) <> group_segment key)
    (foldM (fun _ '(i, source) =>
      if foreign_source key (take (N.to_nat i) (part_view <$> parts)) source then Err InvalidState else Ok tt) tt (enumerate (part_view <$> parts))).
Proof.
  pose proof (outcome_enumerate (fun e => e = InvalidState /\ ~ compatible key parts)
    (fun i (_ : unit) => NoDup (part_key <$> take (N.to_nat i) parts) /\ forall p, p ∈ take (N.to_nat i) parts ->
      base (part_key p) = base key /\ group_relation (part_key p) = group_relation key /\
      layout (part_key p) = layout key /\ group_segment (part_key p) <> group_segment key)
    (fun _ '(i, source) => if foreign_source key (take (N.to_nat i) (part_view <$> parts)) source then Err InvalidState else Ok tt)
    tt (part_view <$> parts)) as H.
  rewrite len_fmap, to_nat_len, firstn_all in H. apply H; clear H.
  - rewrite take_0. split; [constructor|]. by intros p ?%elem_of_nil.
  - intros i v [] Hi [Hd Hp]. unfold index in Hi. rewrite list_lookup_fmap in Hi. destruct (parts !! N.to_nat i) as [p|] eqn:E; [|done].
    apply Some_inj' in Hi as <-. rewrite <- fmap_take. pose proof (take_index parts i p E) as Et.
    destruct (foreign_source key (part_view <$> take (N.to_nat i) parts) (part_view p)) eqn:Ef.
    + cbn. split; [done|]. intros (_ & Hnd & Hall). apply not_false_iff_true in Ef. apply Ef, foreign_source_false.
      split; [apply Hall; by eapply list_elem_of_lookup_2|]. rewrite <- (take_drop_middle parts _ _ E), fmap_app in Hnd.
      apply list.NoDup_app in Hnd as (_ & Hn & _). intros Hin. apply (Hn _ Hin). left.
    + apply foreign_source_false in Ef as [Hk Hn]. cbn. rewrite Et, fmap_app. split.
      * apply list.NoDup_app. split_and!; [done| |apply NoDup_singleton]. intros k Hk1 Hk2%list_elem_of_singleton. by subst.
      * intros q [Hq| ->%list_elem_of_singleton]%elem_of_app; [by apply Hp|done].
Qed.
Lemma members_mask_snoc l m : members_mask (l ++ [m]) = insert (members_mask l) (page_of (member_root m)).
Proof. unfold members_mask, set_pages. rewrite fmap_app, foldl_app. done. Qed.
Lemma merge_new_ok {I} (interrupt : I -> Result I) key parts s : (forall s, interrupt s <> Panic) -> key_wf key ->
  Forall (fun p => group_wf (part_key p) (part_members p) (part_alive p)) parts ->
  outcome (fun e => raises interrupt e \/ ~ compatible key parts \/ (e = InvalidState /\ ~ exists l, merged parts l))
    (fun '(plan, _) => compatible key parts /\ exists l, merged parts l /\ plan = plan_for key parts l)
    (merge_new interrupt key (part_view <$> parts) s).
Proof.
  intros Hint Hk Hg. unfold merge_new. rewrite len_fmap. destruct (N.ltb_spec MAX_MERGE_SOURCES (len parts)) as [Hgt|Hle].
  { right; left. intros [? _]. lia. }
  eapply outcome_bind.
  { eapply outcome_mono; [apply check_sources_ok|intros e [_ ?]; right; by left|intros ? H; exact H]. }
  intros [] _ [Hd Hc]. assert (Hcomp : compatible key parts) by done.
  assert (Hp : Forall (part_wf key) parts).
  { apply list.Forall_forall. intros p Hin. pose proof (proj1 (list.Forall_forall _ _) Hg p Hin). destruct (Hc p Hin) as (? & ? & ? & _). by split_and!. }
  eapply outcome_bind.
  { eapply outcome_mono.
    - apply (visit_ok interrupt Hint key parts Hk Hp count_member (fun l o => o = (len l, members_mask l)) (fun _ => False)); [|done|done].
      intros pre m o -> Hwf _. pose proof (members_count _ _ Hwf) as Hn. rewrite len_app in Hn. unfold len in Hn at 2. cbn in Hn. unfold count_member.
      rewrite add_w_fits by (change (2 ^ 32) with 4294967296; lia). cbn. by rewrite len_app, members_mask_snoc.
    - intros e [He|[[]|He]]; [by left|by right; right].
    - intros ? H; exact H. }
  intros [s' [count mask]] _ (l & Hl & E). apply pair_equal_spec in E as [-> ->]. cbn. split; [done|]. by exists l.
Qed.

(** ** Encoding a plan *)
Section Plan.
Context {I : Type} (interrupt : I -> Result I) (Hint : forall s, interrupt s <> Panic).
Context (key : GroupKey) (parts : list Part) (l : list Member).
Context (Hk : key_wf key) (Hparts : Forall (part_wf key) parts) (Hn : len parts <= MAX_MERGE_SOURCES) (Hl : merged parts l).
Lemma plan_wf : members_wf key l.
Proof. by apply (merged_wf key parts). Qed.
Lemma interrupt_ok s : outcome (raises interrupt) (fun _ => True) (interrupt s).
Proof. pose proof (Hint s). destruct (interrupt s) eqn:E; [done| |done]. by exists s. Qed.
Lemma merge_members_ok output s : small output ->
  outcome (fun e => raises interrupt e \/ (e = Limit "merged membership output" /\ len output < members_size l))
    (fun '(n, out, _) => n = members_size l /\ n <= len output /\ out = members_record key l ++ drop (N.to_nat n) output)
    (merge_encode_members interrupt (plan_for key parts l) output s).
Proof.
  intros Hs. pose proof plan_wf as Hwf. pose proof (members_head_wf key l Hwf) as Hh. pose proof (members_count key l Hwf) as Hc.
  unfold merge_encode_members, plan_for. cbn [plan_count plan_key plan_mask plan_sources].
  eapply outcome_bind; [eapply outcome_mono; [apply interrupt_ok|by left|intros ? H; exact H]|]. intros s1 _ _. cbv zeta. fold (members_size l).
  destruct (N.ltb_spec (len output) (members_size l)) as [|Ho]; [by right|].
  set (region := take (N.to_nat (members_size l)) output).
  assert (Hregion : len region = members_size l) by (unfold region; len_lia).
  assert (Hrs : small region) by (unfold small in *; unfold region; len_lia).
  rewrite (proj2 (slice_ok output 0 (members_size l) region)) by (rewrite N.sub_0_r; split_and!; done || lia).
  cbn [or_panic rbind]. fold (members_head key l).
  rewrite writing_new, header_write_ok; [|done|done|unfold members_size, GROUP_HEADER_BYTES, MEMBER_BYTES; lia|rewrite len_nil, Hregion; unfold members_size; lia].
  cbn [rbind app]. set (pre := header_bytes (members_head key l) (members_size l)). assert (Hpre : len pre = GROUP_HEADER_BYTES) by by apply len_header_bytes.
  eapply outcome_bind.
  - eapply outcome_mono; [apply (visit_ok interrupt Hint key parts Hk Hparts write_member (fun done_ w => w = writing region (pre ++ (done_ ≫= member_bytes))) (fun _ => False))| |intros ? H; exact H].
    + intros pre' m o -> Hwf' Hin. rewrite write_member_ok; [cbn; by rewrite bind_app, bind_singleton, <- app_assoc|done|].
      assert (Hle : len (pre' ++ [m]) <= len l).
      { enough (length (pre' ++ [m]) <= length l)%nat by (unfold len; lia). apply submseteq_length, NoDup_submseteq.
        - destruct Hwf' as (_ & _ & Ha). apply asc_NoDup in Ha. by eapply NoDup_fmap_1.
        - intros x Hx. apply Hl. by apply Hin. }
      rewrite len_app, Hpre, Hregion. assert (Eb : len (pre' ≫= member_bytes) = MEMBER_BYTES * len pre') by (apply len_bind_const; intros; apply len_member_bytes).
      rewrite Eb. rewrite len_app in Hle. change (len [m]) with 1 in Hle. unfold members_size, MEMBER_BYTES in *. lia.
    + done.
    + cbn. by rewrite app_nil_r.
    + intros e [He|[[]|[_ Hne]]]; [by left|]. exfalso. by apply Hne; exists l.
  - intros [s2 w] _ (l' & Hl' & ->). assert (l' = l) as -> by by apply (merged_unique key parts). cbn [outcome rbind]. split; [done|]. split; [done|].
    unfold pre. fold (members_record key l). f_equal. unfold writing. cbn [Writer.bytes].
    rewrite drop_ge, app_nil_r; [done|]. pose proof (len_members_record key l Hwf) as E. unfold len in *. lia.
Qed.

(** A bitmap of ordered members, when the callback is their offsets page by page. *)
Lemma ticks_ok (ps : list N) s : outcome (raises interrupt) (fun _ => True) (foldM (fun s (_ : N) => interrupt s) s ps).
Proof. apply (outcome_foldM _ (fun _ _ => True)); [done|]. intros. apply interrupt_ok. Qed.
Lemma seal_ok kind (f : N -> Result (list N)) x output s : members_wf key x -> small output ->
  (forall page, page < 256 -> f page = Ok (page_mask key x page)) ->
  outcome (fun e => raises interrupt e \/ (e = Limit "bitmap group output" /\ len output < len (sealed key x kind)))
    (fun '(n, out, _) => n = len (sealed key x kind) /\ n <= len output /\ out = sealed key x kind ++ drop (N.to_nat n) output)
    (encode_with (fun s page => let* s := interrupt s in let* v := f page in Ok (v, s)) key kind (members_mask x) output s).
Proof.
  intros (_ & Hf & _) Hs Hpage. pose proof (members_mask_ok key x Hk Hf) as Hm.
  pose proof (members_good key Hk x Hf f (fun page Hp _ => Hpage page Hp)) as Hg.
  pose proof (encode_with_eq (fun s (_ : N) => interrupt s) f key Hk (page_mask key x) kind (members_mask x) output s Hm Hg Hs) as E.
  cbv zeta in E. change (callback (fun s (_ : N) => interrupt s) f) with
    (fun s page => let* s := interrupt s in let* v := f page in Ok (E := Error) (v, s)) in E. rewrite E. clear E.
  unfold sealed. rewrite (len_record _ _ (encoded_wf f key Hk _ kind _ Hm Hg)).
  assert (Ht : forall s, outcome (fun e => raises interrupt e \/ (e = Limit "bitmap group output" /\
      len output < record_len (payloads (page_mask key x) (pages (members_mask x))))) (fun _ => True)
      (foldM (fun s (_ : N) => interrupt s) s (pages (members_mask x)))).
  { intros s0. eapply outcome_mono; [apply ticks_ok|by left|done]. }
  eapply outcome_bind; [apply Ht|]. intros s1 _ _. destruct (N.ltb_spec (len output) (record_len (payloads (page_mask key x) (pages (members_mask x))))) as [|Hle]; [by right|].
  eapply outcome_bind; [apply Ht|]. intros s2 _ _. eapply outcome_bind; [apply Ht|]. intros s3 _ _. done.
Qed.
Lemma live_union_ok page : page < 256 -> live_union (part_view <$> parts) page = Ok (page_mask key l page).
Proof.
  intros Hp. unfold live_union. rewrite foldM_fmap.
  assert (G : forall ps acc, Forall (part_wf key) ps -> mask_wf OFFSET_WORDS acc ->
    exists m, foldM (fun offs p => let* live := offsets_at (group_live (part_view p)) page in Ok (E := Error) (or_mask offs live)) acc ps = Ok m /\
      mask_wf OFFSET_WORDS m /\ forall i, mask_bit m i = true <-> mask_bit acc i = true \/ exists p, p ∈ ps /\ mask_bit (page_mask key (part_alive p) page) i = true).
  { intros ps acc Hps. revert acc. induction Hps as [|p ps [Hg (Eb & _)] _ IH]; intros acc Ha.
    - exists acc. split_and!; [done|done|]. intros i. split; [by left|]. intros [?|(p & ?%elem_of_nil & _)]; done.
    - cbn [foldM]. cbn [part_view group_view group_live]. rewrite (live_offsets_view _ _ _ page Hg Hp). cbn [rbind].
      assert (Epm : page_mask (part_key p) (part_alive p) page = page_mask key (part_alive p) page) by (unfold page_mask; by rewrite Eb). rewrite Epm.
      assert (Hw : mask_wf OFFSET_WORDS (page_mask key (part_alive p) page)) by apply offsets_mask_wf.
      destruct (IH (or_mask acc (page_mask key (part_alive p) page)) (or_mask_wf _ _ Ha Hw)) as (m & E & Hm & Hb). exists m. split_and!; [done|done|].
      intros i. rewrite Hb, (or_mask_bit _ _ _ Ha Hw), orb_true_iff. setoid_rewrite elem_of_cons. naive_solver. }
  destruct (G parts (replicate OFFSET_WORDS 0) Hparts (mask_wf_replicate _)) as (m & E & Hm & Hb). rewrite E. f_equal.
  apply (mask_ext OFFSET_WORDS); [done|apply offsets_mask_wf|]. intros i _. apply eq_true_iff_eq. rewrite Hb, mask_bit_zero.
  pose proof plan_wf as (_ & Hf & _). rewrite (page_mask_bit key Hk l Hf). split.
  - intros [|(p & Hpp & Hi)]; [done|]. apply (page_mask_bit key Hk) in Hi as (x & Hx & ?).
    + exists x. split; [|done]. apply Hl. by exists p.
    + apply list.Forall_forall. intros x Hx. eapply part_live; [by apply (proj1 (list.Forall_forall _ _) Hparts)|done].
  - intros (x & (p & Hpp & Hx)%Hl & ?). right. exists p. split; [done|]. apply (page_mask_bit key Hk); [|by exists x].
    apply list.Forall_forall. intros y Hy. eapply part_live; [by apply (proj1 (list.Forall_forall _ _) Hparts)|done].
Qed.
Lemma merge_liveness_ok output s : small output ->
  outcome (fun e => raises interrupt e \/ (e = Limit "bitmap group output" /\ len output < len (live_record key l l)))
    (fun '(n, out, _) => n = len (live_record key l l) /\ n <= len output /\ out = live_record key l l ++ drop (N.to_nat n) output)
    (merge_encode_liveness interrupt (plan_for key parts l) output s).
Proof.
  intros Hs. unfold merge_encode_liveness. eapply outcome_bind; [eapply outcome_mono; [apply interrupt_ok|by left|intros ? H; exact H]|].
  intros s1 _ _. cbn [plan_for plan_key plan_mask plan_sources]. rewrite <- (encode_liveness_live key l).
  apply (seal_ok Liveness (live_union (part_view <$> parts))); [apply plan_wf|done|]. exact live_union_ok.
Qed.
End Plan.

(** * Merging one term *)
(** Every page of the bitmap decodes. *)
Definition valid_bitmap (b : Bitmap) : Prop := forall page, page < 256 -> offsets_at b page = Ok (bitmap_mask b page).
Lemma validate_all_ok b : opened b -> outcome (fun e => e = InvalidState /\ ~ valid_bitmap b) (fun _ => valid_bitmap b) (validate_all b).
Proof.
  intros Ho. pose proof (opened_pages b Ho) as Hw. unfold validate_all. fold (bitmap_pages b).
  eapply outcome_mono; [apply (outcome_foldM (fun e => e = InvalidState /\ ~ valid_bitmap b)
    (fun pre _ => forall page, page ∈ pre -> offsets_at b page = Ok (bitmap_mask b page)))| |].
  - by intros page ?%elem_of_nil.
  - intros pre page post [] El Hpre. assert (Hp : page < 256).
    { assert (Hin : page ∈ pages (bitmap_pages b)) by (rewrite El; apply elem_of_app; right; left). by apply elem_of_pages in Hin as [? _]. }
    destruct (opened_mask b page Ho Hp) as [E|E]; rewrite E; cbn.
    + intros q [Hq| ->%list_elem_of_singleton]%elem_of_app; [by apply Hpre|done].
    + split; [done|]. intros Hv. by rewrite Hv in E.
  - done.
  - intros u Hall page Hp. destruct (decide (page ∈ pages (bitmap_pages b))) as [Hin|Hn]; [by apply Hall|].
    rewrite elem_of_pages in Hn by done. destruct Ho as (h & ps & Hr & ->). unfold bitmap_mask. rewrite (proj2 (N.ltb_lt _ _)) by done.
    rewrite offsets_view by done. pose proof (payload_view h ps page Hr Hp) as Hv. change (bitmap_pages (view h ps)) with (header_mask h) in Hn.
    destruct (payload h ps page) as [p|]; [|done]. exfalso. apply Hn. by destruct Hv.
Qed.
Lemma zip_fmap_l {A B C} (f : A -> B) (l : list A) (k : list C) : zip (f <$> l) k = (fun '(x, y) => (f x, y)) <$> zip l k.
Proof. revert k; induction l as [|x l IH]; intros [|y k]; [done..|]. cbn. by rewrite IH. Qed.
Lemma existsb_nonzero n m : mask_wf n m -> existsb (fun word => negb (word =? 0)) m = true <-> exists i, mask_bit m i = true.
Proof.
  intros [_ Hm]. rewrite existsb_exists. split.
  - intros (w & Hw%list_elem_of_In & Hne%negb_true_iff%N.eqb_neq). apply list_elem_of_lookup_1 in Hw as [j Hj].
    pose proof (Forall_lookup_1 _ _ _ _ Hm Hj) as Hw. pose proof (trailing_zeros_lt w 64 Hne Hw) as Ht. exists (N.of_nat j * 64 + trailing_zeros w).
    unfold mask_bit. replace (N.to_nat ((N.of_nat j * 64 + trailing_zeros w) / 64)) with j by dlia. rewrite Hj. cbn.
    replace ((N.of_nat j * 64 + trailing_zeros w) mod 64) with (trailing_zeros w) by dlia. by apply trailing_zeros_bit.
  - intros [i Hi]. unfold mask_bit in Hi. destruct (m !! N.to_nat (i / 64)) as [w|] eqn:E; cbn in Hi; [|done].
    exists w. split; [by eapply list_elem_of_In, list_elem_of_lookup_2|]. apply negb_true_iff, N.eqb_neq. intros ->. by rewrite N.bits_0 in Hi.
Qed.

Section Term.
Context {I : Type} (interrupt : I -> Result I) (Hint : forall s, interrupt s <> Panic).
Context (key : GroupKey) (parts : list Part) (l : list Member).
Context (Hk : key_wf key) (Hparts : Forall (part_wf key) parts) (Hl : merged parts l).
Context (terms : list (option Bitmap)) (Hterms : forall b, Some b ∈ terms -> opened b).
(** The term of a source names a coordinate. *)
Definition names_member (b : Bitmap) (m : Member) : bool := mask_bit (bitmap_mask b (page_of (member_root m))) (root_offset (member_root m) - 1).
(** A member of the target has the term when a source in which it is alive says so. *)
Definition carries (m : Member) : bool :=
  existsb (fun '(p, term) => match term with Some b => bool_decide (m ∈ part_alive p) && names_member b m | None => false end) (zip parts terms).
Definition carriers : list Member := filter (fun m => carries m = true) l.
Definition term_wf (p : Part) (b : Bitmap) : Prop := bitmap_key b = part_key p /\ bitmap_kind b = Posting /\ valid_bitmap b.
Definition terms_wf (entries : list (Part * option Bitmap)) : Prop := forall p b, (p, Some b) ∈ entries -> term_wf p b.
Lemma entry_in p b : (p, Some b) ∈ zip parts terms -> part_wf key p /\ p ∈ parts /\ opened b.
Proof.
  intros H. apply list_elem_of_lookup_1 in H as [i H]. apply lookup_zip_with_Some in H as (x & y & [= <- <-] & Hx & Hy).
  apply list_elem_of_lookup_2 in Hx, Hy. split_and!; [by apply (proj1 (list.Forall_forall _ _) Hparts)|done|by apply Hterms].
Qed.
Lemma carries_iff m : carries m = true <-> exists p b, (p, Some b) ∈ zip parts terms /\ m ∈ part_alive p /\ names_member b m = true.
Proof.
  unfold carries. rewrite existsb_exists. split.
  - intros ([p [b|]] & Hin%list_elem_of_In & H); [|done]. apply andb_true_iff in H as [H%bool_decide_eq_true Hb]. eauto.
  - intros (p & b & Hin & Hm & Hb). exists (p, Some b). split; [by apply list_elem_of_In|]. by rewrite bool_decide_eq_true_2, Hb.
Qed.
Lemma carriers_wf : members_wf key carriers.
Proof.
  pose proof (merged_wf key parts l Hk Hparts Hl) as Hwf. eapply members_wf_sub; [exact Hwf| |apply asc_fmap_filter, Hl].
  by intros m [_ ?]%list_elem_of_filter.
Qed.
Lemma carriers_bit page i : mask_bit (page_mask key carriers page) i = true <->
  exists p b, (p, Some b) ∈ zip parts terms /\ mask_bit (page_mask key (part_alive p) page) i = true /\ mask_bit (bitmap_mask b page) i = true.
Proof.
  pose proof carriers_wf as (_ & Hf & _). rewrite (page_mask_bit key Hk carriers Hf).
  assert (Hlive : forall p b, (p, Some b) ∈ zip parts terms -> Forall (member_wf key) (part_alive p)).
  { intros p b (Hp & _)%entry_in. apply list.Forall_forall. intros x. by apply part_live. }
  split.
  - intros (m & [(p & b & Hin & Hm & Hb)%carries_iff _]%list_elem_of_filter & Eb & Eo). exists p, b. split; [done|].
    pose proof (Hlive p b Hin) as Hw. rewrite (page_mask_bit key Hk _ Hw). split; [by exists m|].
    pose proof (page_of_block key m Hk (proj1 (list.Forall_forall _ _) Hw m Hm)). unfold names_member in Hb.
    replace page with (page_of (member_root m)) by lia. by replace i with (root_offset (member_root m) - 1) by lia.
  - intros (p & b & Hin & Hi & Hb). pose proof (Hlive p b Hin) as Hw. apply (page_mask_bit key Hk _ Hw) in Hi as (m & Hm & Eb & Eo).
    exists m. split; [|done]. apply list_elem_of_filter. destruct (entry_in p b Hin) as (_ & Hp & _). split; [|apply Hl; by exists p].
    apply carries_iff. exists p, b. split_and!; [done|done|]. pose proof (page_of_block key m Hk (proj1 (list.Forall_forall _ _) Hw m Hm)).
    unfold names_member. replace (page_of (member_root m)) with page by lia. by replace (root_offset (member_root m) - 1) with i by lia.
Qed.
Lemma term_offsets_ok page : terms_wf (zip parts terms) -> page < 256 ->
  term_offsets (plan_for key parts l) terms page = Ok (page_mask key carriers page).
Proof.
  intros Ht Hp. unfold term_offsets. cbn [plan_for plan_sources]. rewrite zip_fmap_l, foldM_fmap.
  assert (G : outcome (E := Error) (fun _ => False) (fun m => mask_wf OFFSET_WORDS m /\ forall i, mask_bit m i = true <->
      exists p b, (p, Some b) ∈ zip parts terms /\ mask_bit (page_mask key (part_alive p) page) i = true /\ mask_bit (bitmap_mask b page) i = true)
    (foldM (fun s e => add_term page s (let '(x, y) := e in (part_view x, y))) (replicate OFFSET_WORDS 0) (zip parts terms))).
  { apply (outcome_foldM (fun _ => False) (fun pre m => mask_wf OFFSET_WORDS m /\ forall i, mask_bit m i = true <->
      exists p b, (p, Some b) ∈ pre /\ mask_bit (page_mask key (part_alive p) page) i = true /\ mask_bit (bitmap_mask b page) i = true)).
    - split; [apply mask_wf_replicate|]. intros i. rewrite mask_bit_zero. split; [done|]. intros (p & b & ?%elem_of_nil & _). done.
    - intros pre [p [b|]] post m El [Hm Hb]; cbn [add_term].
      + assert (Hin : (p, Some b) ∈ zip parts terms) by (rewrite El; apply elem_of_app; right; left).
        destruct (entry_in p b Hin) as ([Hg (Eb & _)] & _ & Ho). destruct (Ht p b Hin) as (_ & _ & Hv). rewrite Hv by done. cbn [rbind].
        cbn [part_view group_view group_live]. rewrite (live_offsets_view _ _ _ page Hg Hp). cbn [rbind outcome].
        assert (Epm : page_mask (part_key p) (part_alive p) page = page_mask key (part_alive p) page) by (unfold page_mask; by rewrite Eb). rewrite Epm.
        set (live := page_mask key (part_alive p) page). assert (Hlw : mask_wf OFFSET_WORDS live) by apply offsets_mask_wf.
        pose proof (opened_mask_wf b page Ho) as Hbw. set (both := zip_with N.land (bitmap_mask b page) live).
        assert (Hboth : mask_wf OFFSET_WORDS both) by (apply mask_wf_zip; [done..|]; intros x y ? _; by apply land_lt_pow2).
        assert (Hbit : forall i, mask_bit both i = mask_bit (bitmap_mask b page) i && mask_bit live i).
        { intros i. destruct (decide (i < 512)) as [Hi|Hi].
          - apply mask_bit_zip; [by rewrite (proj1 Hbw), (proj1 Hlw)|intros; apply N.land_spec|]. unfold len. rewrite (proj1 Hbw). unfold OFFSET_WORDS. lia.
          - assert (Hd : forall m, mask_wf OFFSET_WORDS m -> mask_bit m i = false).
            { intros m' Hm'. apply mask_bit_default. unfold len. rewrite (proj1 Hm'). unfold OFFSET_WORDS. lia. }
            by rewrite !Hd. }
        split; [by apply or_mask_wf|]. intros i. rewrite (or_mask_bit _ _ _ Hm Hboth), orb_true_iff, Hb, Hbit, andb_true_iff.
        setoid_rewrite elem_of_app. setoid_rewrite list_elem_of_singleton. split.
        * intros [(q & c & ? & ? & ?)|[? ?]]; [exists q, c; auto|exists p, b; auto].
        * intros (q & c & [?|[= -> ->]] & ? & ?); [left; exists q, c; auto|by right].
      + split; [done|]. intros i. rewrite Hb. setoid_rewrite elem_of_app. setoid_rewrite list_elem_of_singleton. naive_solver. }
  destruct (foldM _ _ _) as [m|e|]; [|done|done]. destruct G as [Hm Hb]. f_equal.
  apply (mask_ext OFFSET_WORDS); [done|apply offsets_mask_wf|]. intros i _. apply eq_true_iff_eq. by rewrite Hb, carriers_bit.
Qed.

(** The pages any term of the prefix has. *)
Definition term_pages_ok (entries : list (Part * option Bitmap)) (all : list N) : Prop :=
  mask_wf PAGE_WORDS all /\ forall page, mask_bit all page = true <-> exists p b, (p, Some b) ∈ entries /\ mask_bit (bitmap_pages b) page = true.
Lemma check_terms_ok s :
  outcome (fun e => raises interrupt e \/ (e = InvalidState /\ ~ terms_wf (zip parts terms)))
    (fun '(all, _) => terms_wf (zip parts terms) /\ term_pages_ok (zip parts terms) all)
    (foldM (check_term interrupt) (replicate PAGE_WORDS 0, s) (zip (part_view <$> parts) terms)).
Proof.
  rewrite zip_fmap_l, foldM_fmap. apply (outcome_foldM _ (fun pre '(all, _) => terms_wf pre /\ term_pages_ok pre all)).
  - split; [by intros p b ?%elem_of_nil|]. split; [apply mask_wf_replicate|]. intros page. rewrite mask_bit_zero.
    split; [done|]. intros (p & b & ?%elem_of_nil & _). done.
  - intros pre [p [b|]] post [all s1] El (Hwf & Ha & Hb); cbn [check_term].
    + assert (Hin : (p, Some b) ∈ zip parts terms) by (rewrite El; apply elem_of_app; right; left).
      destruct (entry_in p b Hin) as (_ & _ & Ho). change (group_key (part_view p)) with (part_key p).
      destruct (bool_decide_reflect (bitmap_key b = part_key p)) as [Ek|Hn]; cbn [negb orb].
      2:{ right. split; [done|]. intros Hall. by destruct (Hall p b Hin). }
      destruct (bool_decide_reflect (bitmap_kind b = Posting)) as [Ekind|Hn]; cbn [negb].
      2:{ right. split; [done|]. intros Hall. by destruct (Hall p b Hin) as (_ & ? & _). }
      eapply outcome_bind; [eapply outcome_mono; [by apply interrupt_ok|by left|intros ? H; exact H]|]. intros s2 _ _.
      eapply outcome_bind.
      { eapply outcome_mono; [by apply validate_all_ok| |intros ? H; exact H]. intros e [-> Hn]. right. split; [done|].
        intros Hall. apply Hn. by destruct (Hall p b Hin) as (_ & _ & ?). }
      intros [] _ Hv. cbn. pose proof (opened_pages b Ho) as Hpw. split.
      * intros q c [?|[= -> ->]%list_elem_of_singleton]%elem_of_app; [by apply Hwf|done].
      * split; [by apply or_mask_wf|]. intros page. rewrite (or_mask_bit _ _ _ Ha Hpw), orb_true_iff, Hb.
        setoid_rewrite elem_of_app. setoid_rewrite list_elem_of_singleton. split.
        -- intros [(q & c & ? & ?)|?]; [exists q, c; auto|exists p, b; auto].
        -- intros (q & c & [?|[= -> ->]] & ?); [left; exists q, c; auto|by right].
    + cbn. split; [|split; [done|]].
      * intros q c [?|[=]%list_elem_of_singleton]%elem_of_app. by apply Hwf.
      * intros page. rewrite Hb. setoid_rewrite elem_of_app. setoid_rewrite list_elem_of_singleton. naive_solver.
Qed.
Lemma occupied_ok all s : terms_wf (zip parts terms) -> term_pages_ok (zip parts terms) all ->
  outcome (raises interrupt) (fun '(mask, _) => mask = members_mask carriers)
    (foldM (occupied_page interrupt (plan_for key parts l) terms) (replicate PAGE_WORDS 0, s) (pages all)).
Proof.
  intros Ht [Hall Hbits]. pose proof carriers_wf as Hcw. pose proof Hcw as (_ & Hcf & _).
  eapply outcome_mono; [apply (outcome_foldM (raises interrupt) (fun pre '(mask, _) => mask_wf PAGE_WORDS mask /\ forall page, page < 256 ->
    mask_bit mask page = true <-> page ∈ pre /\ exists m, m ∈ carriers /\ page_of (member_root m) = page))|done|].
  - split; [apply mask_wf_replicate|]. intros page _. rewrite mask_bit_zero. split; [done|]. by intros [?%elem_of_nil _].
  - intros pre page post [mask s1] El [Hm Hb]. cbn [occupied_page]. assert (Hp : page < 256).
    { assert (Hin : page ∈ pages all) by (rewrite El; apply elem_of_app; right; left). by apply elem_of_pages in Hin as [? _]. }
    eapply outcome_bind; [by apply interrupt_ok|]. intros s2 _ _. rewrite term_offsets_ok by done. cbn [rbind outcome].
    assert (Hocc : existsb (fun word => negb (word =? 0)) (page_mask key carriers page) = true <-> exists m, m ∈ carriers /\ page_of (member_root m) = page).
    { rewrite (existsb_nonzero OFFSET_WORDS) by apply offsets_mask_wf. setoid_rewrite (page_mask_bit key Hk carriers Hcf). split.
      - intros (i & m & Hmc & Eb & _). exists m. split; [done|]. pose proof (page_of_block key m Hk (member_in key _ Hcw m Hmc)). lia.
      - intros (m & Hmc & Ep). exists (root_offset (member_root m) - 1), m. pose proof (page_of_block key m Hk (member_in key _ Hcw m Hmc)).
        pose proof (member_key_eq key _ Hcw m Hmc) as [_ ?]. split_and!; [done|lia|lia]. }
    split; [destruct (existsb _ _); [by apply mask_set_wf|done]|]. intros q Hq.
    assert (Hset : mask_bit (if existsb (fun word => negb (word =? 0)) (page_mask key carriers page) then insert mask page else mask) q = true <->
      mask_bit mask q = true \/ (q = page /\ existsb (fun word => negb (word =? 0)) (page_mask key carriers page) = true)).
    { destruct (existsb _ _); [|naive_solver]. unfold insert. rewrite mask_set_bit by (unfold len; rewrite (proj1 Hm); unfold PAGE_WORDS; lia).
      rewrite orb_true_iff, N.eqb_eq. naive_solver. }
    rewrite Hset, Hocc, (Hb q Hq), elem_of_app, list_elem_of_singleton. naive_solver.
  - intros [mask s'] [Hm Hb]. apply (mask_ext PAGE_WORDS); [done|apply (members_mask_ok key), Hcf; done|]. intros page Hp. change (64 * N.of_nat PAGE_WORDS) with 256 in Hp.
    apply eq_true_iff_eq. rewrite (Hb page Hp), members_mask_bit. split; [by intros [_ ?]|]. intros (m & Hmc & Ep). split; [|by exists m].
    apply elem_of_pages; [done|]. split; [done|]. apply Hbits. apply list_elem_of_filter in Hmc as [(p & b & Hin & _ & Hn)%carries_iff _].
    exists p, b. split; [done|]. destruct (entry_in p b Hin) as (_ & _ & Ho). unfold names_member in Hn. rewrite Ep in Hn.
    exact (opened_covered b Ho page (root_offset (member_root m) - 1) Hp Hn).
Qed.
Lemma merge_posting_ok output s : len parts <= MAX_MERGE_SOURCES -> small output ->
  outcome (fun e => raises interrupt e \/ (e = InvalidParameters /\ len terms <> len parts) \/
      (e = InvalidState /\ ~ terms_wf (zip parts terms)) \/
      (e = Limit "bitmap group output" /\ len output < len (sealed key carriers Posting)))
    (fun '(n, out, _) => len terms = len parts /\ terms_wf (zip parts terms) /\ n = len (sealed key carriers Posting) /\ n <= len output /\
       out = sealed key carriers Posting ++ drop (N.to_nat n) output)
    (merge_encode_posting interrupt (plan_for key parts l) terms output s).
Proof.
  intros Hn Hs. unfold merge_encode_posting. eapply outcome_bind; [eapply outcome_mono; [by apply interrupt_ok|by left|intros ? H; exact H]|].
  intros s1 _ _. cbn [plan_for plan_sources]. rewrite len_fmap. destruct (N.eqb_spec (len terms) (len parts)) as [Hlen|Hne]; cbn [negb]; [|right; by left].
  eapply outcome_bind; [eapply outcome_mono; [apply check_terms_ok|intros e [?|?]; [by left|right; right; by left]|intros ? H; exact H]|].
  intros [all s2] _ [Ht Ha]. eapply outcome_bind; [eapply outcome_mono; [by apply (occupied_ok all)|by left|intros ? H; exact H]|].
  intros [mask s3] _ ->. cbn [plan_key]. fold (plan_for key parts l).
  eapply outcome_mono; [apply (seal_ok interrupt Hint key Hk Posting (term_offsets (plan_for key parts l) terms) carriers); [apply carriers_wf|done|]| |intros [[n out] s'] H; by split_and!; try apply H].
  - intros page Hp. by apply term_offsets_ok.
  - intros e [?|?]; [by left|by right; right; right].
Qed.
End Term.

(** * Properties *)

(** C4: a merge plan exists exactly when the live members agree: on up to sixteen
    groups of one relation and block range, with distinct keys and a fresh segment for
    the target, [MergePlan::new] returns the plan whose members are the one ordered list
    of everything alive in some source; two incarnations alive at one coordinate, and
    every foreign or repeated source, are refused; the only other errors are those of
    the interrupt; and nothing panics. *)
Theorem merge_plan_exact {I : Type} (interrupt : I -> Result I) key parts s : (forall s, interrupt s <> Panic) -> key_wf key ->
  Forall (fun p => group_wf (part_key p) (part_members p) (part_alive p)) parts ->
  match merge_new interrupt key (part_view <$> parts) s with
  | Ok (plan, _) => compatible key parts /\ exists l, merged parts l /\ plan = plan_for key parts l
  | Err e => raises interrupt e \/ ~ compatible key parts \/ (e = InvalidState /\ ~ exists l, merged parts l)
  | Panic => False
  end.
Proof. intros Hint Hk Hp. apply (merge_new_ok interrupt key parts s Hint Hk Hp). Qed.

(** C7: a plan encodes a whole group: [encode_members] and [encode_liveness] write the
    membership of the merged list and the liveness image in which all of it is alive, or
    report that the output is too short, or the interrupt's error; together the two
    records open to the group of exactly the merged members, so no retired owner of a
    source enters the target. *)
Theorem merge_encodings_exact {I : Type} (interrupt : I -> Result I) key parts l output s : (forall s, interrupt s <> Panic) ->
  key_wf key -> Forall (part_wf key) parts -> len parts <= MAX_MERGE_SOURCES -> merged parts l -> small output ->
  match merge_encode_members interrupt (plan_for key parts l) output s with
  | Ok (n, out, _) => n <= len output /\ take (N.to_nat n) out = members_record key l /\ drop (N.to_nat n) out = drop (N.to_nat n) output
  | Err e => raises interrupt e \/ (e = Limit "merged membership output" /\ len output < members_size l)
  | Panic => False
  end /\
  match merge_encode_liveness interrupt (plan_for key parts l) output s with
  | Ok (n, out, _) => n <= len output /\ take (N.to_nat n) out = live_record key l l /\ drop (N.to_nat n) out = drop (N.to_nat n) output
  | Err e => raises interrupt e \/ (e = Limit "bitmap group output" /\ len output < len (live_record key l l))
  | Panic => False
  end /\
  segment_open (members_record key l) (live_record key l l) = Ok (group_view key l l).
Proof.
  intros Hint Hk Hp Hn Hl Hs. pose proof (merged_wf key parts l Hk Hp Hl) as Hwf. split_and!.
  - pose proof (merge_members_ok interrupt Hint key parts l Hk Hp Hn Hl output s Hs) as H.
    destruct (merge_encode_members _ _ _ _) as [[[n out] s']|e|]; [|done|done]. destruct H as (-> & Ho & ->). split; [done|].
    rewrite <- (len_members_record key l Hwf), to_nat_len, take_app_length, drop_app_length. done.
  - pose proof (merge_liveness_ok interrupt Hint key parts l Hk Hp Hl output s Hs) as H.
    destruct (merge_encode_liveness _ _ _ _) as [[[n out] s']|e|]; [|done|done]. destruct H as (-> & Ho & ->). split; [done|].
    by rewrite to_nat_len, take_app_length, drop_app_length.
  - apply segment_open_iff; [by apply members_record_small|by apply live_record_small|]. exists key, l, l. done.
Qed.

(** C3: a term is merged after each source's own liveness: [encode_posting] takes one
    slot for each source, and of those that are given only opened postings of the
    source's own key with sound payloads: it succeeds on no other input and refuses with
    [InvalidParameters] and [InvalidState] only for these reasons. It writes the posting
    of the merged members that some source has alive and under the term, and never a
    coordinate that was retired in the source that names it, leaving the rest of the
    output; it fails otherwise only for a short output or with the interrupt's error; and
    the record opens to a posting that reads as exactly these members. *)
Theorem merge_posting_exact {I : Type} (interrupt : I -> Result I) key parts l terms output s : (forall s, interrupt s <> Panic) ->
  key_wf key -> Forall (part_wf key) parts -> len parts <= MAX_MERGE_SOURCES -> merged parts l ->
  (forall b, Some b ∈ terms -> opened b) -> small output ->
  match merge_encode_posting interrupt (plan_for key parts l) terms output s with
  | Ok (n, out, _) => len terms = len parts /\ terms_wf (zip parts terms) /\ n = len (sealed key (carriers parts l terms) Posting) /\ n <= len output /\
      out = sealed key (carriers parts l terms) Posting ++ drop (N.to_nat n) output
  | Err e => raises interrupt e \/ (e = InvalidParameters /\ len terms <> len parts) \/
      (e = InvalidState /\ ~ terms_wf (zip parts terms)) \/
      (e = Limit "bitmap group output" /\ len output < len (sealed key (carriers parts l terms) Posting))
  | Panic => False
  end /\
  exists b, bitmap_open (sealed key (carriers parts l terms) Posting) = Ok b /\
    forall page, page < 256 -> exists m, offsets_at b page = Ok m /\
      forall i, mask_bit m i = true <->
        exists x p t, (p, Some t) ∈ zip parts terms /\ x ∈ part_alive p /\ names_member t x = true /\
          block (member_root x) = base key + page /\ root_offset (member_root x) = i + 1.
Proof.
  intros Hint Hk Hp Hn Hl Ht Hs. split.
  - pose proof (merge_posting_ok interrupt Hint key parts l Hk Hp Hl terms Ht output s Hn Hs) as H.
    by destruct (merge_encode_posting _ _ _ _ _) as [[[n out] s']|e|].
  - pose proof (carriers_wf key parts l Hk Hp Hl terms) as Hwf. pose proof Hwf as (_ & Hf & _).
    exists (sealed_view key (carriers parts l terms) Posting). split; [by apply sealed_open|]. intros page Hpage. eexists. split; [by apply sealed_offsets|].
    intros i. rewrite (page_mask_bit key Hk _ Hf). split.
    + intros (x & [(p & t & ? & ? & ?)%carries_iff _]%list_elem_of_filter & ? & ?). by exists x, p, t.
    + intros (x & p & t & Hin & Hx & Hb & ? & ?). exists x. split; [|done]. apply list_elem_of_filter. split; [apply carries_iff; by exists p, t|].
      apply Hl. exists p. split; [|done]. apply list_elem_of_lookup_1 in Hin as [j Hj]. apply lookup_zip_with_Some in Hj as (y & z & [= <- <-] & Hy & _).
      by eapply list_elem_of_lookup_2.
Qed.

(** Two generations of a group: the second reuses a coordinate the first retired. *)
Definition target_key : GroupKey := mkGroupKey 7 20 512 (mkHeapLayout 291).
Definition second_key : GroupKey := mkGroupKey 7 10 512 (mkHeapLayout 291).
Definition second_members : list Member := [mkMember (mkRootTid 515 1) 21; mkMember (mkRootTid 600 3) 22].
Definition sample_parts : list Part :=
  [mkPart sample_key sample_members sample_term; mkPart second_key second_members second_members].
Definition sample_merged : list Member := [mkMember (mkRootTid 515 1) 21; mkMember (mkRootTid 515 9) 12; mkMember (mkRootTid 600 3) 22].
(** The same with two incarnations alive at one coordinate. *)
Definition sample_conflict : list Part :=
  [mkPart sample_key sample_members sample_members; mkPart second_key second_members second_members].
Lemma target_key_wf : key_wf target_key.
Proof. unfold key_wf, identifier_wf, layout_wf. cbn. split_and!; done || lia. Defined.
Lemma second_members_wf : members_wf second_key second_members.
Proof. split_and!; [unfold key_wf, identifier_wf, layout_wf; cbn; split_and!; done || lia|repeat constructor; done|done]. Defined.
Lemma sample_term_alive : sample_term `sublist_of` sample_members.
Proof. apply sublist_cons, sublist_skip, sublist_nil_l. Defined.
Lemma sample_parts_wf : Forall (part_wf target_key) sample_parts.
Proof.
  constructor; [|constructor; [|constructor]]; (split; [split|done]); [exact sample_members_wf|exact sample_term_alive|exact second_members_wf|done].
Defined.
Lemma sample_merged_ok : merged sample_parts sample_merged.
Proof.
  split; [done|]. intros m. split.
  - intros [->|[->|[->|Hm%elem_of_nil]%elem_of_cons]%elem_of_cons]%elem_of_cons; [| | |done].
    + exists (mkPart second_key second_members second_members). split; [right; left|left].
    + exists (mkPart sample_key sample_members sample_term). split; [left|left].
    + exists (mkPart second_key second_members second_members). split; [right; left|right; left].
  - intros (p & [->|[->|Hp%elem_of_nil]%elem_of_cons]%elem_of_cons & Hm); [| |done]; cbn in Hm.
    + apply elem_of_cons in Hm as [->|Hm%elem_of_nil]; [right; left|done].
    + apply elem_of_cons in Hm as [->|[->|Hm%elem_of_nil]%elem_of_cons]; [left|right; right; left|done].
Defined.
Lemma quiet_safe : forall s, quiet s <> Panic.
Proof. done. Defined.
Lemma merge_plan_exact_witness :
  merge_new quiet target_key (part_view <$> sample_parts) tt = Ok (plan_for target_key sample_parts sample_merged, tt) /\
  ~ exists l, merged sample_conflict l.
Proof.
  split.
  - pose proof (merge_plan_exact quiet target_key sample_parts tt quiet_safe target_key_wf
      ltac:(constructor; [split; [exact sample_members_wf|exact sample_term_alive]|constructor; [split; [exact second_members_wf|reflexivity]|constructor]])) as H.
    assert (E : merge_new quiet target_key (part_view <$> sample_parts) tt = Ok (plan_for target_key sample_parts sample_merged, tt)) by (vm_compute; reflexivity).
    rewrite E in H. exact E.
  - pose proof (merge_plan_exact quiet target_key sample_conflict tt quiet_safe target_key_wf
      ltac:(constructor; [split; [exact sample_members_wf|reflexivity]|constructor; [split; [exact second_members_wf|reflexivity]|constructor]])) as H.
    assert (E : merge_new quiet target_key (part_view <$> sample_conflict) tt = Err InvalidState) by (vm_compute; reflexivity).
    rewrite E in H. destruct H as [[? H]|[H|[_ H]]]; [discriminate H| |exact H]. exfalso. apply H. clear E H. split; [|split].
    + vm_compute. discriminate.
    + repeat constructor; intros Hk; repeat (apply elem_of_cons in Hk as [Hk|Hk]; [discriminate Hk|]); exact (not_elem_of_nil _ Hk).
    + intros p [->|[->|Hp%elem_of_nil]%elem_of_cons]%elem_of_cons; [| |done]; (split; [reflexivity|]; split; [reflexivity|]; split; [reflexivity|discriminate]).
Defined.
Lemma merge_encodings_exact_witness :
  (exists n out, merge_encode_members quiet (plan_for target_key sample_parts sample_merged) (replicate 150 (byte_of 0)) tt = Ok (n, out, tt) /\
     take (N.to_nat n) out = members_record target_key sample_merged) /\
  segment_open (members_record target_key sample_merged) (live_record target_key sample_merged sample_merged)
    = Ok (group_view target_key sample_merged sample_merged).
Proof.
  destruct (merge_encodings_exact quiet target_key sample_parts sample_merged (replicate 150 (byte_of 0)) tt quiet_safe target_key_wf sample_parts_wf
    ltac:(vm_compute; discriminate) sample_merged_ok ltac:(vm_compute; discriminate)) as (H & _ & Hopen). split; [|exact Hopen].
  assert (E : match merge_encode_members quiet (plan_for target_key sample_parts sample_merged) (replicate 150 (byte_of 0)) tt with Ok _ => true | _ => false end = true)
    by (vm_compute; reflexivity).
  destruct (merge_encode_members _ _ _ _) as [[[n out] []]|e|]; [|discriminate E..]. exists n, out. split; [reflexivity|apply H].
Defined.
(** The term was under both members of block 515 in the first source, where only one is alive. *)
Definition sample_postings : list (option Bitmap) := [Some (sealed_view sample_key (take 2 sample_members) Posting); None].
Lemma sample_postings_opened b : Some b ∈ sample_postings -> opened b.
Proof.
  intros [[= ->]|[[=]|Hb%elem_of_nil]%elem_of_cons]%elem_of_cons; [|done]. apply sealed_opened; [exact sample_key_wf|].
  exact (Forall_take (member_wf sample_key) 2 sample_members (proj1 (proj2 sample_members_wf))).
Qed.
Lemma merge_posting_exact_witness :
  carriers sample_parts sample_merged sample_postings = sample_term /\
  exists n out, merge_encode_posting quiet (plan_for target_key sample_parts sample_merged) sample_postings (replicate 150 (byte_of 0)) tt = Ok (n, out, tt) /\
     take (N.to_nat n) out = sealed target_key sample_term Posting.
Proof.
  assert (Ec : carriers sample_parts sample_merged sample_postings = sample_term) by (vm_compute; reflexivity). split; [exact Ec|].
  destruct (merge_posting_exact quiet target_key sample_parts sample_merged sample_postings (replicate 150 (byte_of 0)) tt quiet_safe target_key_wf sample_parts_wf
    ltac:(vm_compute; discriminate) sample_merged_ok sample_postings_opened ltac:(vm_compute; discriminate)) as (H & _).
  assert (E : match merge_encode_posting quiet (plan_for target_key sample_parts sample_merged) sample_postings (replicate 150 (byte_of 0)) tt with Ok _ => true | _ => false end = true)
    by (vm_compute; reflexivity).
  destruct (merge_encode_posting _ _ _ _ _) as [[[n out] []]|e|]; [|discriminate E..]. exists n, out. split; [reflexivity|]. rewrite <- Ec.
  destruct H as (_ & _ & -> & _ & ->). by rewrite to_nat_len, take_app_length.
Defined.
