(* ===== verification/Pages.v ===== *)
(** Private page images: [src/crates/pin-core/src/mutable/page.rs], the part every kind
    of page shares and the metapage.

    A page is a buffer of fixed size of which a prefix is used; fields are read and
    written at byte offsets with checked little-endian accesses. The metapage is the
    root of the store: the next incarnation, the chains of owners and of the dictionary
    buckets, the free list and the rewrite journal. The theorems: loading accepts
    exactly images with a sound header and otherwise leaves an invalid page, an image
    written back loads again, and the operations of the metapage implement those of an
    abstract state, so that in any run of them no incarnation is handed out twice. *)
From S2P Require Export Records Analysis.

(** [document.rs] *)
Definition MAX_TERM_BYTES : N := 1024.
Definition MAX_DOCUMENT_TOKENS : N := 262144.
Definition MAX_DOCUMENT_BYTES : N := N.shiftl 8 20.

Definition NO_BLOCK : N := u32_max.
Definition CAPACITY : N := 8192 - 24.
Definition BUCKETS : N := 512.
Definition PAGE_HEADER : N := 16.
Definition META_HEADER : N := 64.
Definition OWNER_HEADER : N := 20.
Definition OWNER_BYTES : N := 40.
Definition DICTIONARY_ENTRY : N := 32.
Definition POSTING_HEADER : N := 24.
Definition DIRECT_HEADER : N := POSTING_HEADER + 32.
Definition FRAGMENT_HEADER : N := 36.
Definition FRAGMENT_BYTES : N := CAPACITY - FRAGMENT_HEADER.
Definition INLINE_BYTES : N := CAPACITY - OWNER_HEADER - OWNER_BYTES.

(** [PageKind] *)
Module PageKind.
Inductive t : Type :=
| Zero | Meta | Owners | Dictionary | Postings | SealedPostings | DirectPostings | Grouped | Fragment | Free.
#[global] Instance eq_dec : EqDecision t.
Proof. solve_decision. Defined.
End PageKind.

Definition corrupt (offset : N) : Error := FromCodec (Codec.new offset Codec.InvalidValue).
Definition block_valid (block : N) : bool := negb (block =? 0) && negb (block =? NO_BLOCK).
Definition posting_pair_valid (head tail : N) : bool :=
  ((head =? NO_BLOCK) && (tail =? NO_BLOCK)) || (block_valid head && block_valid tail).
Definition pair_valid (head tail : N) : bool :=
  ((head =? NO_BLOCK) && (tail =? NO_BLOCK)) || (block_valid head && block_valid tail && (head <=? tail)).

(** [RewritePhase] and [RewriteJournal] *)
Inductive RewritePhase : Type := Building | Retiring.
Definition phase_code (phase : RewritePhase) : N := match phase with Building => 1 | Retiring => 2 end.
Record RewriteJournal : Type := mkRewriteJournal { journal_head : N; journal_tail : N; journal_phase : RewritePhase }.

(** [OwnerRef] *)
Record OwnerRef : Type := mkOwnerRef { owner_page : N; owner_slot : N; owner_incarnation : Incarnation }.
#[export] Instance OwnerRef_eq_dec : EqDecision OwnerRef.
Proof. solve_decision. Defined.
(** [(CAPACITY - OWNER_HEADER) / OWNER_BYTES] *)
Definition OWNER_SLOTS : N := (CAPACITY - OWNER_HEADER) / OWNER_BYTES.
(** [Incarnation::new(..).map_err(|_| corrupt(..))], and the like for [RootTid]. *)
Definition or_corrupt {A} (offset : N) (m : res IdentityError A) : Result A := map_err (fun _ => corrupt offset) m.
(** [OwnerRef::read] *)
Definition OwnerRef_read (reader : Reader.t) : Result (OwnerRef * Reader.t) :=
  let* '(page, reader) := lift_codec (Reader.u32 reader) in
  let* '(slot, reader) := lift_codec (Reader.u16 reader) in
  let* '(reserved, reader) := lift_codec (Reader.u16 reader) in
  let* '(value, reader) := lift_codec (Reader.u64 reader) in
  let* incarnation := or_corrupt (Reader.offset reader) (identifier_new value) in
  if negb (block_valid page) || (OWNER_SLOTS <=? slot) || negb (reserved =? 0) then Err (corrupt (Reader.offset reader)) else
  Ok (mkOwnerRef page slot incarnation, reader).
(** [OwnerRef::write] *)
Definition OwnerRef_write (self : OwnerRef) (writer : Writer.t) : Result Writer.t :=
  if negb (block_valid (owner_page self)) || (OWNER_SLOTS <=? owner_slot self) then Err (corrupt (Writer.written writer)) else
  let* writer := lift_codec (Writer.u32 writer (owner_page self)) in
  let* writer := lift_codec (Writer.u16 writer (owner_slot self)) in
  let* writer := lift_codec (Writer.u16 writer 0) in
  lift_codec (Writer.u64 writer (owner_incarnation self)).

(** [TermRef] *)
Record TermRef : Type := mkTermRef { term_page : N; term_offset : N }.
#[export] Instance TermRef_eq_dec : EqDecision TermRef.
Proof. solve_decision. Defined.

(** The tags of [Page::reload_with] and of [Page::new]. *)
Definition kind_of_tag (tag : N) : option PageKind.t :=
  match tag with
  | 1 => Some PageKind.Meta | 2 => Some PageKind.Owners | 3 => Some PageKind.Dictionary | 4 => Some PageKind.Postings
  | 5 => Some PageKind.Fragment | 6 => Some PageKind.Free | 7 => Some PageKind.SealedPostings
  | 9 => Some PageKind.DirectPostings | 10 => Some PageKind.Grouped | _ => None
  end.
Definition tag_of_kind (kind : PageKind.t) : option N :=
  match kind with
  | PageKind.Zero => None
  | PageKind.Meta => Some 1 | PageKind.Owners => Some 2 | PageKind.Dictionary => Some 3 | PageKind.Postings => Some 4
  | PageKind.SealedPostings => Some 7 | PageKind.DirectPostings => Some 9 | PageKind.Grouped => Some 10
  | PageKind.Fragment => Some 5 | PageKind.Free => Some 6
  end.
(** [b"PIN2"] *)
Definition PAGE_MAGIC : list byte := [byte_of 80; byte_of 73; byte_of 78; byte_of 50].

Module Page.
(** [Page] *)
Record t : Type := mk { block : N; kind : PageKind.t; length_ : N; initialize : bool; buffer : list byte }.
Definition zeros : list byte := replicate (N.to_nat CAPACITY) (byte_of 0).

(** [Page::bytes]: slicing past the buffer panics. *)
Definition bytes {E} (self : t) : res E (list byte) := or_panic (slice (buffer self) 0 (length_ self)).
Definition is_kind (self : t) (k : PageKind.t) : bool := bool_decide (kind self = k).
(** [Page::require] *)
Definition require (self : t) (k : PageKind.t) : Result unit := if negb (is_kind self k) then Err (corrupt 6) else Ok tt.

(** [Reader::new(self.bytes().get(offset..).ok_or_else(|| corrupt(offset))?)] *)
Definition reader_at (self : t) (offset : N) : Result Reader.t :=
  let* used := bytes self in
  let* rest := ok_or (slice_from used offset) (corrupt offset) in
  Ok (Reader.new rest).
(** [Page::u16], [u32], [u64] *)
Definition u16 (self : t) (offset : N) : Result N :=
  let* r := reader_at self offset in let* '(v, _) := lift_codec (Reader.u16 r) in Ok v.
Definition u32 (self : t) (offset : N) : Result N :=
  let* r := reader_at self offset in let* '(v, _) := lift_codec (Reader.u32 r) in Ok v.
Definition u64 (self : t) (offset : N) : Result N :=
  let* r := reader_at self offset in let* '(v, _) := lift_codec (Reader.u64 r) in Ok v.

Definition set_buffer (self : t) (b : list byte) : t := mk (block self) (kind self) (length_ self) (initialize self) b.
Definition set_length (self : t) (n : N) : t := mk (block self) (kind self) n (initialize self) (buffer self).
(** A write through [Writer::new(&mut self.bytes[a..b])] goes back to the buffer. *)
Definition write_back (self : t) (a : N) (w : Writer.t) : t := set_buffer self (splice (buffer self) a (Writer.bytes w)).
(** [Writer::new(self.bytes.get_mut(offset..offset + n).ok_or_else(|| corrupt(offset))?)] *)
Definition put_n (self : t) (offset n : N) (write : Writer.t -> Codec.Result Writer.t) : Result t :=
  let* region := ok_or (slice (buffer self) offset (offset + n)) (corrupt offset) in
  let* w := lift_codec (write (Writer.new region)) in
  Ok (write_back self offset w).
(** [Page::put_u16], [put_u32], [put_u64] *)
Definition put_u16 (self : t) (offset value : N) : Result t := put_n self offset 2 (fun w => Writer.u16 w value).
Definition put_u32 (self : t) (offset value : N) : Result t := put_n self offset 4 (fun w => Writer.u32 w value).
Definition put_u64 (self : t) (offset value : N) : Result t := put_n self offset 8 (fun w => Writer.u64 w value).
(** [self.bytes[at] = value] *)
Definition set_byte (self : t) (at_ value : N) : Result t :=
  if at_ <? len (buffer self) then Ok (set_buffer self (<[N.to_nat at_ := byte_of value]> (buffer self))) else Panic.

(** [Page::next] *)
Definition next (self : t) : Result N := u32 self 12.
(** [Page::check_next] *)
Definition check_next (self : t) : Result unit :=
  let* next := next self in
  if next =? NO_BLOCK then Ok tt else
  if negb (block_valid next) || (next =? block self) || is_kind self PageKind.Meta then Err (corrupt 12) else
  if (is_kind self PageKind.Owners || is_kind self PageKind.Dictionary) && (next <=? block self) then Err (corrupt 12) else Ok tt.
(** [Page::set_next] *)
Definition set_next (self : t) (next : N) : Result t :=
  let* self := put_u32 self 12 next in
  let* _ := check_next self in
  Ok self.

(** The header checks of [Page::reload_with], on a page whose length is set. *)
Definition parse_header (self : t) : Result t :=
  let* used := bytes self in
  let* '(magic, reader) := lift_codec (Reader.take (Reader.new used) 4) in
  if negb (bool_decide (magic = PAGE_MAGIC)) then Err (FromCodec (Codec.new 0 Codec.BadMagic)) else
  let* '(version, reader) := lift_codec (Reader.u16 reader) in
  if negb (version =? 2) then Err (FromCodec (Codec.new 4 Codec.UnsupportedVersion)) else
  let* '(tag, reader) := lift_codec (Reader.u8 reader) in
  let* kind := ok_or (kind_of_tag tag) (FromCodec (Codec.new 6 Codec.UnknownTag)) in
  let* '(flags, reader) := lift_codec (Reader.u8 reader) in
  if (1 <? flags) || (negb (flags =? 0) && negb (bool_decide (kind = PageKind.Dictionary))) then Err (corrupt 7) else
  let* '(own, reader) := lift_codec (Reader.u32 reader) in
  if negb (own =? block self) then Err (corrupt 7) else
  let* '(_, _) := lift_codec (Reader.u32 reader) in
  let self := mk (block self) kind (length_ self) (initialize self) (buffer self) in
  let* _ := check_next self in
  Ok self.
(** The closure of [Page::reload_with]; [read] fills the zeroed buffer. *)
Definition reload_body (block : N) (read : list byte -> list byte * Result N) : list byte * Result t :=
  if block =? NO_BLOCK then (zeros, Err (corrupt 8)) else
  let '(buffer, n) := read zeros in
  (buffer,
   let* n := n in
   let page := mk block PageKind.Zero n false buffer in
   if n =? 0 then Ok page else
   if CAPACITY <? n then Err (corrupt 0) else parse_header page).
(** [Page::reload_with]: every field of the old image is overwritten; a failure
    invalidates it. *)
Definition reload_with (block : N) (read : list byte -> list byte * Result N) : t * Result unit :=
  let '(buffer, r) := reload_body block read in
  let invalid := mk NO_BLOCK PageKind.Zero 0 false buffer in
  match r with Ok page => (page, Ok tt) | Err e => (invalid, Err e) | Panic => (invalid, Panic) end.
(** [Page::read_with] *)
Definition read_with (block : N) (read : list byte -> list byte * Result N) : Result t :=
  let '(page, r) := reload_with block read in let* _ := r in Ok page.

(** [Page::new] *)
Definition new (block : N) (kind : PageKind.t) : Result t :=
  if (block =? NO_BLOCK) || negb (Bool.eqb (block =? 0) (bool_decide (kind = PageKind.Meta))) then Err (corrupt 8) else
  let* tag := ok_or (tag_of_kind kind) (corrupt 6) in
  let page := mk block kind PAGE_HEADER false zeros in
  let* w := lift_codec (Writer.put (Writer.new zeros) PAGE_MAGIC) in
  let* w := lift_codec (Writer.u16 w 2) in
  let* w := lift_codec (Writer.u8 w tag) in
  let* w := lift_codec (Writer.u8 w 0) in
  let* w := lift_codec (Writer.u32 w block) in
  let* w := lift_codec (Writer.u32 w NO_BLOCK) in
  Ok (write_back page 0 w).

(** [Page::owners], [dictionary], [packed_dictionary], [packed_dictionary_format] *)
Definition owners (block : N) : Result t :=
  let* page := new block PageKind.Owners in Ok (set_length page OWNER_HEADER).
Definition dictionary (block : N) : Result t := new block PageKind.Dictionary.
Definition packed_dictionary (block : N) : Result t := let* page := dictionary block in set_byte page 7 1.
Definition packed_dictionary_format (self : t) : Result bool :=
  if negb (is_kind self PageKind.Dictionary) then Ok false else
  let* b := or_panic (index (buffer self) 7) in
  Ok (byte_val b =? 1).
(** [Page::postings] *)
Definition postings (block : N) (term : TermRef) : Result t :=
  if negb (block_valid (term_page term)) || (term_offset term <? PAGE_HEADER) then Err (corrupt 16) else
  let* page := new block PageKind.Postings in
  let page := set_length page POSTING_HEADER in
  let* page := put_u32 page 16 (term_page term) in
  put_u16 page 20 (term_offset term).
(** [Page::fragment] *)
Definition fragment (block : N) (owner : OwnerRef) (next offset : N) (payload : list byte) : Result t :=
  if (len payload =? 0) || (FRAGMENT_BYTES <? len payload) then Err (corrupt FRAGMENT_HEADER) else
  let* page := new block PageKind.Fragment in
  let page := set_length page (FRAGMENT_HEADER + len payload) in
  let* region := or_panic (slice_from (buffer page) PAGE_HEADER) in
  let* w := OwnerRef_write owner (Writer.new region) in
  let* w := lift_codec (Writer.u32 w offset) in
  let* w := lift_codec (Writer.put w payload) in
  set_next (write_back page PAGE_HEADER w) next.
(** [Page::free], [free_from_zero], [initializes_storage] *)
Definition free (block next : N) : Result t := let* page := new block PageKind.Free in set_next page next.
Definition free_from_zero (block next : N) : Result t :=
  let* page := free block next in Ok (mk (Page.block page) (kind page) (length_ page) true (buffer page)).
Definition initializes_storage (self : t) : bool := initialize self.

(** ** The metapage *)
(** [Page::bucket], [set_bucket] *)
Definition bucket (self : t) (b : N) : Result (N * N) :=
  let* _ := require self PageKind.Meta in
  if BUCKETS <=? b then Err (corrupt META_HEADER) else
  let offset := META_HEADER + b * 8 in
  let* head := u32 self offset in
  let* tail := u32 self (offset + 4) in
  if negb (pair_valid head tail) then Err (corrupt offset) else Ok (head, tail).
Definition set_bucket (self : t) (b head tail : N) : Result t :=
  let* _ := require self PageKind.Meta in
  if (BUCKETS <=? b) || negb (pair_valid head tail) then Err (corrupt META_HEADER) else
  let offset := META_HEADER + b * 8 in
  let* self := put_u32 self offset head in
  put_u32 self (offset + 4) tail.
(** [Page::metadata] *)
Definition metadata (layout : HeapLayout) : Result t :=
  let* page := new 0 PageKind.Meta in
  let page := set_length page (META_HEADER + BUCKETS * 8) in
  let* page := put_u32 page 16 PROFILE_ID in
  let* page := put_u32 page 20 8192 in
  let* page := put_u16 page 24 (max_offset layout) in
  let* page := put_u16 page 26 (trunc 16 BUCKETS) in
  let* page := put_u64 page 32 1 in
  let* page := foldM (fun page offset => put_u32 page offset NO_BLOCK) page [40; 44; 48] in
  foldM (fun page b => set_bucket page b NO_BLOCK NO_BLOCK) page (range 0 BUCKETS).
(** [Page::reserve_incarnation] *)
Definition reserve_incarnation (self : t) : Result (Incarnation * t) :=
  let* _ := require self PageKind.Meta in
  let* value := u64 self 32 in
  let* next := ok_or (checked_add 64 value 1) (Limit "incarnation space") in
  let* incarnation := or_corrupt 32 (identifier_new value) in
  let* self := put_u64 self 32 next in
  Ok (incarnation, self).
(** [Page::packed_postings], [enable_packed_postings] *)
Definition packed_postings (self : t) : Result bool :=
  let* _ := require self PageKind.Meta in
  let* flags := u32 self 28 in
  Ok (negb (N.land flags 4 =? 0)).
Definition enable_packed_postings (self : t) : Result t :=
  let* _ := require self PageKind.Meta in
  let* flags := u32 self 28 in
  put_u32 self 28 (N.lor flags 4).
(** [Page::owner_chain], [set_owner_chain] *)
Definition owner_chain (self : t) : Result (N * N) :=
  let* _ := require self PageKind.Meta in
  let* head := u32 self 40 in
  let* tail := u32 self 44 in
  if negb (pair_valid head tail) then Err (corrupt 40) else Ok (head, tail).
Definition set_owner_chain (self : t) (head tail : N) : Result t :=
  let* _ := require self PageKind.Meta in
  if negb (pair_valid head tail) then Err (corrupt 40) else
  let* self := put_u32 self 40 head in
  put_u32 self 44 tail.
(** [Page::free_head], [set_free_head] *)
Definition free_head (self : t) : Result N :=
  let* _ := require self PageKind.Meta in
  let* value := u32 self 48 in
  if negb (value =? NO_BLOCK) && negb (block_valid value) then Err (corrupt 48) else Ok value.
Definition set_free_head (self : t) (block : N) : Result t :=
  let* _ := require self PageKind.Meta in
  if negb (block =? NO_BLOCK) && negb (block_valid block) then Err (corrupt 48) else
  put_u32 self 48 block.
(** [Page::rewrite_journal], [set_rewrite_journal] *)
Definition rewrite_journal (self : t) : Result (option RewriteJournal) :=
  let* _ := require self PageKind.Meta in
  let* head := u32 self 52 in
  let* tail := u32 self 56 in
  let* code := u32 self 60 in
  if (code =? 0) && (head =? 0) && (tail =? 0) then Ok None else
  let* phase := match code with 1 => Ok Building | 2 => Ok Retiring | _ => Err (corrupt 60) end in
  if negb (block_valid head) || negb (block_valid tail) then Err (corrupt 52) else
  Ok (Some (mkRewriteJournal head tail phase)).
Definition set_rewrite_journal (self : t) (journal : option RewriteJournal) : Result t :=
  let* _ := require self PageKind.Meta in
  let* '(head, tail, phase) :=
    match journal with
    | Some j =>
        if negb (block_valid (journal_head j)) || negb (block_valid (journal_tail j)) then Err (corrupt 52)
        else Ok (journal_head j, journal_tail j, phase_code (journal_phase j))
    | None => Ok (0, 0, 0)
    end in
  let* self := put_u32 self 52 head in
  let* self := put_u32 self 56 tail in
  put_u32 self 60 phase.
End Page.

(** * Random access *)
(** The little-endian field of [n] bytes at an offset. *)
Definition field (bs : list byte) (offset n : N) : N := le_val (take (N.to_nat n) (drop (N.to_nat offset) bs)).
Lemma field_slice bs offset n v : slice bs offset (offset + n) = Some v -> field bs offset n = le_val v.
Proof. intros (_ & _ & ->)%slice_ok. unfold field. do 3 f_equal. lia. Qed.
Lemma slice_exists {A} (l : list A) a b : a <= b -> b <= len l -> exists v, slice l a b = Some v /\ len v = b - a.
Proof. intros Ha Hb. eexists. split; [by apply slice_ok|]. len_lia. Qed.
(** What a splice changes. *)
Lemma splice_lookup {A} (l : list A) at_ x i : at_ + len x <= len l ->
  splice l at_ x !! i = (if (N.to_nat at_ <=? i)%nat && (i <? N.to_nat at_ + length x)%nat then x !! (i - N.to_nat at_)%nat else l !! i).
Proof.
  intros H. unfold splice. assert (Hat : length (take (N.to_nat at_) l) = N.to_nat at_) by (rewrite length_take; unfold len in *; lia).
  destruct (Nat.leb_spec (N.to_nat at_) i) as [Hi|Hi]; cbn [andb].
  - rewrite lookup_app_r by lia. rewrite Hat. destruct (Nat.ltb_spec i (N.to_nat at_ + length x)) as [Hlt|Hge].
    + by rewrite lookup_app_l by lia.
    + rewrite lookup_app_r by lia. rewrite lookup_drop. f_equal. unfold len. lia.
  - rewrite lookup_app_l by lia. by rewrite lookup_take_lt.
Qed.
Lemma slice_splice_same {A} (l : list A) at_ x : at_ + len x <= len l -> slice (splice l at_ x) at_ (at_ + len x) = Some x.
Proof.
  intros H. apply slice_ok. rewrite splice_len by done. split_and!; [lia|done|]. unfold splice.
  replace (N.to_nat (at_ + len x - at_)) with (length x) by (unfold len; lia).
  assert (Hat : N.to_nat at_ = length (take (N.to_nat at_) l)) by (rewrite length_take; unfold len in *; lia).
  rewrite Hat at 1. by rewrite drop_app_length, take_app_length.
Qed.
Lemma slice_splice_other {A} (l : list A) at_ x a b : at_ + len x <= len l -> b <= at_ \/ at_ + len x <= a ->
  slice (splice l at_ x) a b = slice l a b.
Proof.
  intros H Hd. unfold slice. rewrite splice_len by done. destruct ((a <=? b) && (b <=? len l)) eqn:E; [|done]. bool_to_prop. f_equal.
  apply list_eq. intros i. destruct (decide (i < N.to_nat (b - a))%nat) as [Hi|Hi].
  - rewrite !lookup_take_lt, !lookup_drop, splice_lookup by done.
    destruct (Nat.leb_spec (N.to_nat at_) (N.to_nat a + i)), (Nat.ltb_spec (N.to_nat a + i) (N.to_nat at_ + length x)); cbn [andb]; try done.
    unfold len in *. lia.
  - rewrite !lookup_take_ge by lia. done.
Qed.
Lemma field_splice_same bs at_ n v : at_ + N.of_nat n <= len bs -> v < 2 ^ (8 * N.of_nat n) -> field (splice bs at_ (le_bytes n v)) at_ (N.of_nat n) = v.
Proof.
  intros H Hv. rewrite (field_slice _ _ _ (le_bytes n v)); [by apply le_val_bytes_small|].
  rewrite <- (len_le_bytes n v) at 1. apply slice_splice_same. by rewrite len_le_bytes.
Qed.
Lemma field_splice_other bs at_ x a n : at_ + len x <= len bs -> a + n <= at_ \/ at_ + len x <= a -> field (splice bs at_ x) a n = field bs a n.
Proof.
  intros H Hd. unfold field. f_equal. apply list_eq. intros i. destruct (decide (i < N.to_nat n)%nat) as [Hi|Hi].
  - rewrite !lookup_take_lt, !lookup_drop, splice_lookup by done.
    destruct (Nat.leb_spec (N.to_nat at_) (N.to_nat a + i)), (Nat.ltb_spec (N.to_nat a + i) (N.to_nat at_ + length x)); cbn [andb]; try done.
    unfold len in *. lia.
  - by rewrite !lookup_take_ge by lia.
Qed.
Lemma field_lt bs offset n : field bs offset n < 2 ^ (8 * n).
Proof.
  unfold field. eapply N.lt_le_trans; [apply le_val_lt|]. apply N.pow_le_mono_r; [done|]. unfold len. rewrite length_take. lia.
Qed.

(** ** Pages in memory *)
Definition page_fits (p : Page.t) : Prop := len (Page.buffer p) = CAPACITY /\ Page.length_ p <= CAPACITY.
Lemma bytes_ok {E} p : page_fits p -> Page.bytes (E := E) p = Ok (take (N.to_nat (Page.length_ p)) (Page.buffer p)).
Proof.
  intros [Hb Hl]. unfold Page.bytes. rewrite (proj2 (slice_ok (Page.buffer p) 0 (Page.length_ p) (take (N.to_nat (Page.length_ p)) (Page.buffer p)))); [done|].
  split_and!; [lia|lia|]. by rewrite N.sub_0_r.
Qed.
Lemma used_len p : page_fits p -> len (take (N.to_nat (Page.length_ p)) (Page.buffer p)) = Page.length_ p.
Proof. intros [Hb Hl]. len_lia. Qed.
Section Fields.
Context (p : Page.t) (Hp : page_fits p).
Lemma page_field n (m : Reader.t -> Codec.Result (N * Reader.t)) offset : format m (le_bytes n) (fun v => v < 2 ^ (8 * N.of_nat n)) ->
  offset + N.of_nat n <= Page.length_ p ->
  (let* r := Page.reader_at p offset in let* '(v, _) := lift_codec (m r) in Ok v) = Ok (field (Page.buffer p) offset (N.of_nat n)).
Proof.
  intros Hm Ho. pose proof Hp as [Hb Hl]. pose proof (used_len p Hp) as Hu. unfold Page.reader_at. rewrite bytes_ok by done. cbn [rbind].
  set (used := take _ _) in *. unfold slice_from. rewrite (proj2 (N.leb_le _ _)) by lia. cbn [ok_or rbind].
  set (rest := drop (N.to_nat offset) used). assert (Hr : rest = le_bytes n (field (Page.buffer p) offset (N.of_nat n)) ++ drop n rest).
  { rewrite <- (take_drop n rest) at 1. f_equal. unfold field. assert (El : take n rest = take (N.to_nat (N.of_nat n)) (drop (N.to_nat offset) (Page.buffer p))).
    { unfold rest, used. rewrite Nat2N.id, skipn_firstn_comm, take_take. f_equal. lia. }
    rewrite <- El. assert (Hn : length (take n rest) = n) by (rewrite length_take; unfold rest; rewrite length_drop; unfold len in *; lia).
    rewrite <- Hn at 2. by rewrite le_bytes_val. }
  assert (Hs : small rest). { unfold small, rest, isize_max. unfold CAPACITY in *. len_lia. }
  assert (E : m (reading [] rest) = Ok (field (Page.buffer p) offset (N.of_nat n), reading ([] ++ le_bytes n (field (Page.buffer p) offset (N.of_nat n))) (drop n rest))).
  { apply Hm; [done|]. split; [apply field_lt|]. exists (drop n rest). by split. }
  rewrite reading_new, E. done.
Qed.
Lemma page_u16 offset : offset + 2 <= Page.length_ p -> Page.u16 p offset = Ok (field (Page.buffer p) offset 2).
Proof. intros. by apply (page_field 2 Reader.u16 offset u16_format). Qed.
Lemma page_u32 offset : offset + 4 <= Page.length_ p -> Page.u32 p offset = Ok (field (Page.buffer p) offset 4).
Proof. intros. by apply (page_field 4 Reader.u32 offset u32_format). Qed.
Lemma page_u64 offset : offset + 8 <= Page.length_ p -> Page.u64 p offset = Ok (field (Page.buffer p) offset 8).
Proof. intros. by apply (page_field 8 Reader.u64 offset u64_format). Qed.
Lemma put_n_ok offset n bs (write : Writer.t -> Codec.Result Writer.t) : (forall w, write w = Writer.put w bs) -> len bs = n -> offset + n <= CAPACITY ->
  Page.put_n p offset n write = Ok (Page.set_buffer p (splice (Page.buffer p) offset bs)).
Proof.
  intros Hw Hn Ho. pose proof Hp as [Hb _]. destruct (slice_exists (Page.buffer p) offset (offset + n)) as (region & E & Hr); [lia|lia|].
  unfold Page.put_n. rewrite E. cbn [ok_or rbind]. rewrite Hw, writing_new, put_writing; [|unfold small, isize_max; unfold CAPACITY in *; lia|rewrite len_nil; lia].
  cbn [lift_codec map_err rbind app]. unfold Page.write_back. do 3 f_equal. unfold writing. cbn [Writer.bytes].
  rewrite drop_ge, app_nil_r; [done|]. unfold len in *. lia.
Qed.
Lemma put_u16_ok offset v : offset + 2 <= CAPACITY -> Page.put_u16 p offset v = Ok (Page.set_buffer p (splice (Page.buffer p) offset (le_bytes 2 v))).
Proof. intros. by apply put_n_ok. Qed.
Lemma put_u32_ok offset v : offset + 4 <= CAPACITY -> Page.put_u32 p offset v = Ok (Page.set_buffer p (splice (Page.buffer p) offset (le_bytes 4 v))).
Proof. intros. by apply put_n_ok. Qed.
Lemma put_u64_ok offset v : offset + 8 <= CAPACITY -> Page.put_u64 p offset v = Ok (Page.set_buffer p (splice (Page.buffer p) offset (le_bytes 8 v))).
Proof. intros. by apply put_n_ok. Qed.
Lemma splice_fits offset bs : offset + len bs <= CAPACITY -> page_fits (Page.set_buffer p (splice (Page.buffer p) offset bs)).
Proof. intros Ho. pose proof Hp as [Hb Hl]. split; [|done]. cbn. rewrite splice_len; [done|lia]. Qed.
End Fields.

(** * The state of a metapage *)
Record MetaState : Type := mkMetaState {
  meta_packed : bool; meta_next : N; meta_owners : N * N; meta_free : N; meta_journal : option RewriteJournal; meta_buckets : list (N * N) }.
Definition u32_pair (pair : N * N) : Prop := fst pair < 2 ^ 32 /\ snd pair < 2 ^ 32 /\ pair_valid (fst pair) (snd pair) = true.
Definition free_valid (block : N) : Prop := block < 2 ^ 32 /\ ((block =? NO_BLOCK) || block_valid block) = true.
Definition journal_valid (j : option RewriteJournal) : bool :=
  match j with Some j => block_valid (journal_head j) && block_valid (journal_tail j) | None => true end.
Definition journal_u32 (j : option RewriteJournal) : Prop :=
  match j with Some j => journal_head j < 2 ^ 32 /\ journal_tail j < 2 ^ 32 | None => True end.
Definition meta_wf (m : MetaState) : Prop :=
  1 <= meta_next m < 2 ^ 64 /\ u32_pair (meta_owners m) /\ free_valid (meta_free m) /\
  journal_valid (meta_journal m) = true /\ journal_u32 (meta_journal m) /\ len (meta_buckets m) = BUCKETS /\ Forall u32_pair (meta_buckets m).
Definition journal_fields (j : option RewriteJournal) : N * N * N :=
  match j with Some j => (journal_head j, journal_tail j, phase_code (journal_phase j)) | None => (0, 0, 0) end.
(** Where a page keeps it. *)
Definition meta_fields (layout : HeapLayout) (bs : list byte) (m : MetaState) : Prop :=
  field bs 16 4 = PROFILE_ID /\ field bs 20 4 = 8192 /\ field bs 24 2 = max_offset layout /\ field bs 26 2 = BUCKETS /\
  field bs 28 4 = (if meta_packed m then 4 else 0) /\ field bs 32 8 = meta_next m /\
  (field bs 40 4, field bs 44 4) = meta_owners m /\ field bs 48 4 = meta_free m /\
  (field bs 52 4, field bs 56 4, field bs 60 4) = journal_fields (meta_journal m) /\
  forall b pair, index (meta_buckets m) b = Some pair -> (field bs (64 + 8 * b) 4, field bs (68 + 8 * b) 4) = pair.
Definition meta_rep (layout : HeapLayout) (p : Page.t) (m : MetaState) : Prop :=
  page_fits p /\ Page.kind p = PageKind.Meta /\ META_HEADER + BUCKETS * 8 <= Page.length_ p /\ meta_fields layout (Page.buffer p) m /\ meta_wf m.
Definition meta_initial : MetaState := mkMetaState false 1 (NO_BLOCK, NO_BLOCK) NO_BLOCK None (replicate (N.to_nat BUCKETS) (NO_BLOCK, NO_BLOCK)).

(** The operations that change it, and what they do to the state. *)
Inductive MetaOp : Type :=
| Reserve | EnablePacked | SetOwners (head tail : N) | SetBucket (b head tail : N) | SetFree (block : N) | SetJournal (journal : option RewriteJournal).
Definition op_wf (op : MetaOp) : Prop :=
  match op with
  | Reserve | EnablePacked => True
  | SetOwners head tail => head < 2 ^ 32 /\ tail < 2 ^ 32
  | SetBucket b head tail => head < 2 ^ 32 /\ tail < 2 ^ 32
  | SetFree block => block < 2 ^ 32
  | SetJournal j => journal_u32 j
  end.
Definition meta_step (m : MetaState) (op : MetaOp) : Result (option Incarnation * MetaState) :=
  match op with
  | Reserve =>
      if meta_next m + 1 <? 2 ^ 64
      then Ok (Some (meta_next m), mkMetaState (meta_packed m) (meta_next m + 1) (meta_owners m) (meta_free m) (meta_journal m) (meta_buckets m))
      else Err (Limit "incarnation space")
  | EnablePacked => Ok (None, mkMetaState true (meta_next m) (meta_owners m) (meta_free m) (meta_journal m) (meta_buckets m))
  | SetOwners head tail =>
      if pair_valid head tail
      then Ok (None, mkMetaState (meta_packed m) (meta_next m) (head, tail) (meta_free m) (meta_journal m) (meta_buckets m))
      else Err (corrupt 40)
  | SetBucket b head tail =>
      if (b <? BUCKETS) && pair_valid head tail
      then Ok (None, mkMetaState (meta_packed m) (meta_next m) (meta_owners m) (meta_free m) (meta_journal m) (<[N.to_nat b := (head, tail)]> (meta_buckets m)))
      else Err (corrupt META_HEADER)
  | SetFree block =>
      if (block =? NO_BLOCK) || block_valid block
      then Ok (None, mkMetaState (meta_packed m) (meta_next m) (meta_owners m) block (meta_journal m) (meta_buckets m))
      else Err (corrupt 48)
  | SetJournal j =>
      if journal_valid j
      then Ok (None, mkMetaState (meta_packed m) (meta_next m) (meta_owners m) (meta_free m) j (meta_buckets m))
      else Err (corrupt 52)
  end.
Definition page_step (p : Page.t) (op : MetaOp) : Result (option Incarnation * Page.t) :=
  match op with
  | Reserve => let* '(i, p) := Page.reserve_incarnation p in Ok (Some i, p)
  | EnablePacked => let* p := Page.enable_packed_postings p in Ok (None, p)
  | SetOwners head tail => let* p := Page.set_owner_chain p head tail in Ok (None, p)
  | SetBucket b head tail => let* p := Page.set_bucket p b head tail in Ok (None, p)
  | SetFree block => let* p := Page.set_free_head p block in Ok (None, p)
  | SetJournal j => let* p := Page.set_rewrite_journal p j in Ok (None, p)
  end.

Lemma meta_require p k : Page.kind p = k -> Page.require p k = Ok tt.
Proof. intros E. unfold Page.require, Page.is_kind. by rewrite bool_decide_eq_true_2. Qed.
(** Fields after writes: the one that was written, and the others. *)
Ltac meta_cbn := cbn [meta_packed meta_next meta_owners meta_free meta_journal meta_buckets].
Ltac page_len :=
  cbn [Page.set_buffer Page.buffer Page.length_ Page.kind Page.block];
  repeat (rewrite splice_len by page_len); rewrite ?len_le_bytes; unfold CAPACITY in *; lia.
Ltac read_fields n :=
  repeat first [rewrite field_splice_other; [|page_len..] | rewrite (field_splice_same _ _ n); [|page_len|done]].

Section Meta.
Context (layout : HeapLayout) (p : Page.t) (m : MetaState) (Hrep : meta_rep layout p m).
Lemma meta_getters :
  Page.packed_postings p = Ok (meta_packed m) /\ Page.owner_chain p = Ok (meta_owners m) /\ Page.free_head p = Ok (meta_free m) /\
  Page.rewrite_journal p = Ok (meta_journal m) /\
  forall b, Page.bucket p b = ok_or (index (meta_buckets m) b) (corrupt META_HEADER).
Proof.
  destruct Hrep as (Hp & Hk & Hl & (_ & _ & _ & _ & Hpacked & _ & Hown & Hfree & Hj & Hb) & (Hn & Ho & [Hf Hfv] & Hjv & Hju & Hbl & Hbs)).
  change (META_HEADER + BUCKETS * 8) with 4160 in Hl. pose proof Hp as [Hbuf Hcap].
  split_and!.
  - unfold Page.packed_postings. rewrite meta_require, page_u32 by (done || lia). cbn [rbind]. rewrite Hpacked. by destruct (meta_packed m).
  - unfold Page.owner_chain. rewrite meta_require, !page_u32 by (done || lia). cbn [rbind].
    destruct (meta_owners m) as [h t]. apply pair_equal_spec in Hown as [-> ->]. destruct Ho as (_ & _ & Hv). cbn [fst snd] in Hv. by rewrite Hv.
  - unfold Page.free_head. rewrite meta_require, page_u32 by (done || lia). cbn [rbind]. rewrite Hfree.
    rewrite <- negb_orb. by rewrite Hfv.
  - unfold Page.rewrite_journal. rewrite meta_require, !page_u32 by (done || lia). cbn [rbind].
    destruct (meta_journal m) as [[h t ph]|]; cbn [journal_fields journal_head journal_tail journal_phase] in Hj; apply pair_equal_spec in Hj as [Hj ->]; apply pair_equal_spec in Hj as [-> ->]; [|done].
    cbn in Hjv. apply andb_true_iff in Hjv as [Hv1 Hv2]. rewrite Hv1, Hv2. apply andb_true_iff in Hv1 as [Hv1 _]. apply negb_true_iff in Hv1. rewrite Hv1, andb_false_r. by destruct ph.
  - intros b. unfold Page.bucket. rewrite meta_require by done. cbn [rbind]. destruct (index (meta_buckets m) b) as [[h t]|] eqn:E; cbn [ok_or].
    + pose proof E as Eb. unfold index in Eb. apply lookup_lt_Some in Eb as Hlt. pose proof (Forall_lookup_1 _ _ _ _ Hbs Eb) as (_ & _ & Hv).
      assert (Hb512 : b < 512) by (unfold len, BUCKETS in Hbl; lia). rewrite (proj2 (N.leb_gt _ _)) by done. cbn [fst snd] in Hv.
      specialize (Hb b (h, t) E). apply pair_equal_spec in Hb as [Eh Et].
      rewrite !page_u32 by (done || (unfold META_HEADER; lia)). cbn [rbind]. unfold META_HEADER.
      replace (64 + b * 8) with (64 + 8 * b) by lia. replace (64 + 8 * b + 4) with (68 + 8 * b) by lia. by rewrite Eh, Et, Hv.
    + unfold index in E. apply lookup_ge_None in E. rewrite (proj2 (N.leb_le _ _)); [done|]. unfold len in Hbl. lia.
Qed.

(** A write inside the fields of the metapage. *)
Lemma meta_write off n v (m' : MetaState) : off + N.of_nat n <= 4160 ->
  meta_fields layout (splice (Page.buffer p) off (le_bytes n v)) m' -> meta_wf m' ->
  meta_rep layout (Page.set_buffer p (splice (Page.buffer p) off (le_bytes n v))) m'.
Proof.
  intros Ho Hf Hw. destruct Hrep as (Hp & Hk & Hl & _). split_and!; [|done|done|done|done].
  apply splice_fits; [done|]. rewrite len_le_bytes. unfold CAPACITY. lia.
Qed.
End Meta.

Lemma meta_step_ok layout p m op : meta_rep layout p m -> op_wf op ->
  match meta_step m op with
  | Ok (i, m') => exists p', page_step p op = Ok (i, p') /\ meta_rep layout p' m' /\ Page.block p' = Page.block p /\ Page.length_ p' = Page.length_ p
  | Err e => page_step p op = Err e
  | Panic => False
  end.
Proof.
  intros Hrep Hop. pose proof Hrep as (Hp & Hk & Hl & (F16 & F20 & F24 & F26 & F28 & F32 & F40 & F48 & F52 & Fb) & Hwf).
  pose proof Hwf as (Hn & Ho & Hf & Hjv & Hju & Hbl & Hbs). pose proof Hp as [Hbuf Hcap]. change (META_HEADER + BUCKETS * 8) with 4160 in Hl.
  assert (Hb512 : forall b pair, index (meta_buckets m) b = Some pair -> b < 512).
  { intros b pair E. unfold index in E. apply lookup_lt_Some in E. unfold len, BUCKETS in Hbl. lia. }
  assert (Hpf : forall off bs, off + len bs <= CAPACITY -> page_fits (Page.set_buffer p (splice (Page.buffer p) off bs))) by (intros; by apply splice_fits).
  destruct op as [| |h t|b h t|f|j]; cbn [meta_step page_step].
  - unfold Page.reserve_incarnation. rewrite meta_require, page_u64, F32 by (done || lia). cbn [rbind]. unfold checked_add.
    destruct (N.ltb_spec (meta_next m + 1) (2 ^ 64)) as [Hlt|]; [|done]. cbn [ok_or rbind].
    unfold identifier_new. rewrite (proj2 (N.eqb_neq _ _)) by lia. cbn [or_corrupt map_err rbind]. rewrite put_u64_ok by (done || (unfold CAPACITY; lia)). cbn [rbind].
    eexists. split; [done|]. split; [|done]. apply (meta_write layout p m Hrep); [lia| |].
    + split_and!; meta_cbn; read_fields 8%nat; try done. intros b pair E. pose proof (Hb512 b pair E). read_fields 8%nat. by apply Fb.
    + split_and!; done || (meta_cbn; lia).
  - unfold Page.enable_packed_postings. rewrite meta_require, page_u32, F28 by (done || lia). cbn [rbind]. rewrite put_u32_ok by (done || (unfold CAPACITY; lia)). cbn [rbind].
    eexists. split; [done|]. split; [|done]. apply (meta_write layout p m Hrep); [lia| |done].
    assert (E4 : N.lor (if meta_packed m then 4 else 0) 4 = 4) by by destruct (meta_packed m). rewrite E4.
    split_and!; meta_cbn; read_fields 4%nat; try done. intros b pair E. pose proof (Hb512 b pair E). read_fields 4%nat. by apply Fb.
  - destruct Hop as [Hh Ht]. unfold Page.set_owner_chain. rewrite meta_require by done. cbn [rbind].
    destruct (pair_valid h t) eqn:Ev; cbn [negb]; [|done]. rewrite put_u32_ok by (done || (unfold CAPACITY; lia)). cbn [rbind].
    rewrite put_u32_ok by ((apply Hpf; page_len) || (unfold CAPACITY; lia)). cbn [rbind]. eexists. split; [done|]. split; [|done].
    split_and!; [apply (splice_fits (Page.set_buffer p _)); [apply Hpf; page_len|page_len]|done|done| |].
    + split_and!; meta_cbn; cbn [Page.set_buffer Page.buffer]; read_fields 4%nat; try done. intros b pair E. pose proof (Hb512 b pair E). read_fields 4%nat. by apply Fb.
    + split_and!; meta_cbn; done || lia.
  - destruct Hop as [Hh Ht]. unfold Page.set_bucket. rewrite meta_require by done. cbn [rbind].
    destruct (N.leb_spec BUCKETS b) as [Hge|Hlt]; cbn [orb]; [by rewrite (proj2 (N.ltb_ge _ _))|]. rewrite (proj2 (N.ltb_lt _ _)) by done. cbn [andb].
    destruct (pair_valid h t) eqn:Ev; cbn [negb]; [|done]. unfold BUCKETS, META_HEADER in Hlt |- *.
    rewrite put_u32_ok by (done || (unfold CAPACITY; lia)). cbn [rbind].
    rewrite put_u32_ok by ((apply Hpf; page_len) || (unfold CAPACITY; lia)). cbn [rbind]. eexists. split; [done|]. split; [|done].
    split_and!; [apply (splice_fits (Page.set_buffer p _)); [apply Hpf; page_len|page_len]|done|done| |].
    + split_and!; meta_cbn; cbn [Page.set_buffer Page.buffer]; read_fields 4%nat; try done. intros c pair E. unfold index in E.
      apply list_lookup_insert_Some in E as [(Ec & <- & _)|[Hne E]].
      * assert (c = b) as -> by lia. replace (64 + 8 * b) with (64 + b * 8) by lia. replace (68 + 8 * b) with (64 + b * 8 + 4) by lia.
        f_equal; read_fields 4%nat; done.
      * pose proof (Hb512 c pair E). assert (c <> b) by (intros ->; done). assert (c < b \/ b < c) as [?|?] by lia; read_fields 4%nat; by apply Fb.
    + split_and!; meta_cbn; try done || lia; [by rewrite len_insert|by apply Forall_insert].
  - unfold Page.set_free_head. rewrite meta_require by done. cbn [rbind]. rewrite <- negb_orb. destruct ((f =? NO_BLOCK) || block_valid f) eqn:Ev; cbn [negb]; [|done].
    rewrite put_u32_ok by (done || (unfold CAPACITY; lia)). cbn [rbind]. eexists. split; [done|]. split; [|done]. apply (meta_write layout p m Hrep); [lia| |].
    + split_and!; meta_cbn; read_fields 4%nat; try done. intros b pair E. pose proof (Hb512 b pair E). read_fields 4%nat. by apply Fb.
    + split_and!; meta_cbn; done || lia.
  - unfold Page.set_rewrite_journal. rewrite meta_require by done. cbn [rbind].
    assert (E : match j with Some j0 => if negb (block_valid (journal_head j0)) || negb (block_valid (journal_tail j0)) then Err (corrupt 52)
        else Ok (journal_head j0, journal_tail j0, phase_code (journal_phase j0)) | None => Ok (0, 0, 0) end =
      if journal_valid j then Ok (journal_fields j) else Err (corrupt 52)).
    { destruct j as [[jh jt ph]|]; [|done]. cbn. by destruct (block_valid jh), (block_valid jt). }
    rewrite E. clear E. destruct (journal_valid j) eqn:Ev; [|done]. destruct (journal_fields j) as [[jh jt] ph] eqn:Ej. cbn [rbind].
    assert (Hj : jh < 2 ^ 32 /\ jt < 2 ^ 32 /\ ph < 2 ^ 32).
    { destruct j as [[a b c]|]; cbn in Ej; apply pair_equal_spec in Ej as [Ej <-]; apply pair_equal_spec in Ej as [<- <-]; [|done].
      destruct Hop. split_and!; [done|done|by destruct c]. }
    destruct Hj as (Hjh & Hjt & Hph). rewrite put_u32_ok by (done || (unfold CAPACITY; lia)). cbn [rbind].
    rewrite put_u32_ok by ((apply Hpf; page_len) || (unfold CAPACITY; lia)). cbn [rbind].
    rewrite put_u32_ok by ((apply (splice_fits (Page.set_buffer p _)); [apply Hpf; page_len|page_len]) || (unfold CAPACITY; lia)). cbn [rbind]. eexists. split; [done|]. split; [|done].
    split_and!; [split; [page_len|done]|done|done| |].
    + split_and!; meta_cbn; cbn [Page.set_buffer Page.buffer]; read_fields 4%nat; try done. intros b pair E. pose proof (Hb512 b pair E). read_fields 4%nat. by apply Fb.
    + split_and!; meta_cbn; done || lia.
Qed.

(** ** A fresh metapage *)
Definition meta_page (p : Page.t) : Prop := page_fits p /\ Page.kind p = PageKind.Meta.
Lemma put_meta p off n v : meta_page p -> off + N.of_nat n <= CAPACITY -> meta_page (Page.set_buffer p (splice (Page.buffer p) off (le_bytes n v))).
Proof. intros [Hp Hk] Ho. split; [|done]. apply splice_fits; [done|]. by rewrite len_le_bytes. Qed.
Lemma set_bucket_eq p b h t : meta_page p -> b < BUCKETS -> pair_valid h t = true ->
  Page.set_bucket p b h t =
    Ok (Page.set_buffer p (splice (splice (Page.buffer p) (64 + b * 8) (le_bytes 4 h)) (64 + b * 8 + 4) (le_bytes 4 t))).
Proof.
  intros Hm Hb Hv. pose proof Hm as [Hp Hk]. unfold Page.set_bucket. rewrite meta_require by done. cbn [rbind].
  rewrite (proj2 (N.leb_gt _ _)), Hv by done. cbn [orb negb]. unfold META_HEADER, BUCKETS in *.
  rewrite put_u32_ok by (done || (unfold CAPACITY; lia)). cbn [rbind].
  rewrite put_u32_ok; [done|apply (put_meta p (64 + b * 8) 4 h Hm)|]; unfold CAPACITY; lia.
Qed.
Lemma fresh_buckets p n : meta_page p -> n <= BUCKETS ->
  exists p', foldM (fun page b => Page.set_bucket page b NO_BLOCK NO_BLOCK) p (range 0 n) = Ok p' /\ meta_page p' /\
    Page.block p' = Page.block p /\ Page.length_ p' = Page.length_ p /\
    (forall off k, off + k <= 64 -> field (Page.buffer p') off k = field (Page.buffer p) off k) /\
    forall b, b < n -> field (Page.buffer p') (64 + 8 * b) 4 = NO_BLOCK /\ field (Page.buffer p') (68 + 8 * b) 4 = NO_BLOCK.
Proof.
  intros Hm. induction n as [|n IH] using N.peano_ind; intros Hn.
  { exists p. split_and!; [done|done|done|done|done|intros; lia]. }
  destruct IH as (q & E & Hq & Hblk & Hlen & Hlow & Hb); [lia|]. replace (N.succ n) with (n + 1) by lia. rewrite range_snoc, foldM_app, E by lia. cbn [rbind foldM].
  rewrite set_bucket_eq by (done || lia). cbn [rbind]. pose proof Hq as [[Hbuf Hcap] _]. unfold BUCKETS in Hn. eexists. split; [done|]. split_and!; [|done|done| |].
  - apply (put_meta (Page.set_buffer q _)); [apply put_meta; [done|]|]; unfold CAPACITY; lia.
  - intros off k Hk. cbn [Page.set_buffer Page.buffer]. read_fields 4%nat. by apply Hlow.
  - intros b Hlt. cbn [Page.set_buffer Page.buffer]. destruct (decide (b = n)) as [->|Hne].
    + replace (64 + 8 * n) with (64 + n * 8) by lia. replace (68 + 8 * n) with (64 + n * 8 + 4) by lia. by split; read_fields 4%nat.
    + destruct (Hb b) as [H1 H2]; [lia|]. assert (b < n) by lia. split; read_fields 4%nat; done.
Qed.
Lemma put_frame p off n v : meta_page p -> v < 2 ^ (8 * N.of_nat n) -> off + N.of_nat n <= 64 ->
  exists p', (forall write, (forall w, write w = Writer.put w (le_bytes n v)) -> Page.put_n p off (N.of_nat n) write = Ok p') /\ meta_page p' /\
    (Page.block p' = Page.block p /\ Page.length_ p' = Page.length_ p) /\
    (forall o k, o + k <= off \/ off + N.of_nat n <= o -> field (Page.buffer p') o k = field (Page.buffer p) o k) /\
    field (Page.buffer p') off (N.of_nat n) = v.
Proof.
  intros Hm Hv Ho. pose proof Hm as [Hp Hk]. pose proof Hp as [Hb _]. exists (Page.set_buffer p (splice (Page.buffer p) off (le_bytes n v))). split_and!.
  - intros write Hw. apply put_n_ok; [done|done|apply len_le_bytes|unfold CAPACITY; lia].
  - apply put_meta; [done|unfold CAPACITY; lia].
  - done.
  - done.
  - intros o k Hd. apply field_splice_other; rewrite len_le_bytes; unfold CAPACITY in *; [lia|done].
  - apply field_splice_same; [unfold CAPACITY in *; lia|done].
Qed.
Lemma zeros_len : len Page.zeros = CAPACITY.
Proof. unfold Page.zeros, len. rewrite length_replicate. lia. Qed.
Lemma field_zeros off n : field Page.zeros off n = 0.
Proof.
  unfold field, Page.zeros. rewrite drop_replicate, take_replicate. generalize (Nat.min (N.to_nat n) (N.to_nat CAPACITY - N.to_nat off)). intros k.
  induction k as [|k IH]; [done|]. cbn. rewrite IH. done.
Qed.
(** The bytes of a page header. *)
Definition head_bytes (tag flags block next : N) : list byte :=
  PAGE_MAGIC ++ le_bytes 2 2 ++ [byte_of tag] ++ [byte_of flags] ++ le_bytes 4 block ++ le_bytes 4 next.
Lemma len_head_bytes tag flags block next : len (head_bytes tag flags block next) = 16.
Proof. done. Qed.
Lemma new_ok block k p : Page.new block k = Ok p <->
  block <> NO_BLOCK /\ (block = 0 <-> k = PageKind.Meta) /\
  exists tag, tag_of_kind k = Some tag /\ p = Page.mk block k PAGE_HEADER false (splice Page.zeros 0 (head_bytes tag 0 block NO_BLOCK)).
Proof.
  unfold Page.new. destruct (N.eqb_spec block NO_BLOCK) as [->|Hne]; cbn [orb]; [naive_solver|].
  assert (Hz : small Page.zeros) by (unfold small, isize_max; rewrite zeros_len; unfold CAPACITY; lia).
  assert (Hb : Bool.eqb (block =? 0) (bool_decide (k = PageKind.Meta)) = true <-> (block = 0 <-> k = PageKind.Meta)).
  { rewrite eqb_true_iff. destruct (N.eqb_spec block 0), (bool_decide_reflect (k = PageKind.Meta)); naive_solver. }
  destruct (Bool.eqb _ _); cbn [negb]; [|naive_solver]. destruct (tag_of_kind k) as [tag|]; cbn [ok_or rbind]; [|naive_solver].
  pose proof zeros_len as Hzl. unfold CAPACITY in Hzl. rewrite writing_new. unfold Writer.u16, Writer.u8, Writer.u32.
  repeat (rewrite put_writing; [cbn [lift_codec map_err rbind]|done|rewrite Hzl; cbn; lia]).
  assert (E : Page.write_back (Page.mk block k PAGE_HEADER false Page.zeros) 0 (writing Page.zeros (head_bytes tag 0 block NO_BLOCK)) =
    Page.mk block k PAGE_HEADER false (splice Page.zeros 0 (head_bytes tag 0 block NO_BLOCK))).
  { unfold Page.write_back, Page.set_buffer. cbn [Page.block Page.kind Page.length_ Page.initialize Page.buffer].
    apply (f_equal (Page.mk block k PAGE_HEADER false)). generalize (head_bytes tag 0 block NO_BLOCK), (len_head_bytes tag 0 block NO_BLOCK). intros hb Hhb.
    unfold splice, writing. cbn [Writer.bytes]. rewrite N.add_0_l, len_app, Hhb.
    assert (El : len (drop (length hb) Page.zeros) = CAPACITY - 16) by (unfold len, CAPACITY in *; rewrite length_drop; lia). rewrite El.
    rewrite (drop_ge Page.zeros (N.to_nat (16 + (CAPACITY - 16)))) by (clear -Hzl; unfold len in Hzl; unfold CAPACITY; lia).
    rewrite app_nil_r. rewrite N.add_0_l, <- Hhb, to_nat_len. done. }
  unfold head_bytes in E. cbn [app] in E |- *. split.
  - intros H. apply Ok_inj in H. rewrite <- H. split; [done|]. split; [by apply Hb|]. exists tag. split; [done|exact E].
  - intros (_ & _ & t & [= <-] & ->). apply (f_equal Ok). exact E.
Qed.
Lemma new_fields block k tag : let p := Page.mk block k PAGE_HEADER false (splice Page.zeros 0 (head_bytes tag 0 block NO_BLOCK)) in
  page_fits p /\ (forall off n, 16 <= off -> field (Page.buffer p) off n = 0) /\ slice (Page.buffer p) 0 16 = Some (head_bytes tag 0 block NO_BLOCK).
Proof.
  cbv zeta. pose proof (len_head_bytes tag 0 block NO_BLOCK) as Hh. generalize dependent (head_bytes tag 0 block NO_BLOCK). intros hb Hh. cbn [Page.buffer Page.length_].
  pose proof zeros_len as Hz. assert (H16 : 0 + len hb <= len Page.zeros) by (rewrite Hh, Hz; unfold CAPACITY; lia). split_and!.
  - split; cbn [Page.buffer Page.length_]; [by rewrite splice_len|unfold PAGE_HEADER, CAPACITY; lia].
  - intros off n Ho. rewrite field_splice_other; [apply field_zeros|done|right; lia].
  - change 16 with (0 + 16). rewrite <- Hh. by apply slice_splice_same.
Qed.
Lemma meta_initial_wf : meta_wf meta_initial.
Proof.
  split; [cbn; lia|]. split; [done|]. split; [done|]. split; [done|]. split; [done|]. cbn [meta_initial meta_buckets].
  split; [unfold len; rewrite length_replicate; lia|]. by apply Forall_replicate.
Qed.
Lemma metadata_ok layout : layout_wf layout -> exists p, Page.metadata layout = Ok p /\ meta_rep layout p meta_initial /\
  Page.block p = 0 /\ Page.length_ p = META_HEADER + BUCKETS * 8.
Proof.
  intros [_ Hlay]. destruct (new_fields 0 PageKind.Meta 1) as (Hfit & Hzero & _). set (p0 := Page.mk 0 PageKind.Meta PAGE_HEADER false _) in *.
  assert (E0 : Page.new 0 PageKind.Meta = Ok p0) by (apply new_ok; split; [done|]; split; [done|]; by exists 1).
  unfold Page.metadata. rewrite E0. cbn [rbind]. set (p1 := Page.set_length p0 _). assert (H1 : meta_page p1) by (split; [split; [apply Hfit|change (4160 <= 8168); lia]|done]).
  assert (Z1 : forall off n, 16 <= off -> field (Page.buffer p1) off n = 0) by exact Hzero. pose proof H1 as [[Hbuf _] _].
  assert (Hlen1 : Page.length_ p1 = META_HEADER + BUCKETS * 8) by done. assert (Hblk1 : Page.block p1 = 0) by done.
  clearbody p1. clear E0 Hfit Hzero p0.
  destruct (put_frame p1 16 4 PROFILE_ID H1) as (p2 & E2 & H2 & S2 & F2 & G2); [done|lia|]. unfold Page.put_u32 at 1. rewrite E2 by done. cbn [rbind].
  destruct (put_frame p2 20 4 8192 H2) as (p3 & E3 & H3 & S3 & F3 & G3); [done|lia|]. unfold Page.put_u32 at 1. rewrite E3 by done. cbn [rbind].
  destruct (put_frame p3 24 2 (max_offset layout) H3) as (p4 & E4 & H4 & S4 & F4 & G4); [change (2 ^ (8 * N.of_nat 2)) with 65536; lia|lia|].
  unfold Page.put_u16 at 1. rewrite E4 by done. cbn [rbind].
  destruct (put_frame p4 26 2 (trunc 16 BUCKETS) H4) as (p5 & E5 & H5 & S5 & F5 & G5); [done|lia|]. unfold Page.put_u16 at 1. rewrite E5 by done. cbn [rbind].
  destruct (put_frame p5 32 8 1 H5) as (p6 & E6 & H6 & S6 & F6 & G6); [done|lia|]. unfold Page.put_u64 at 1. rewrite E6 by done. cbn [rbind foldM].
  destruct (put_frame p6 40 4 NO_BLOCK H6) as (p7 & E7 & H7 & S7 & F7 & G7); [done|lia|]. unfold Page.put_u32 at 1. rewrite E7 by done. cbn [rbind].
  destruct (put_frame p7 44 4 NO_BLOCK H7) as (p8 & E8 & H8 & S8 & F8 & G8); [done|lia|]. unfold Page.put_u32 at 1. rewrite E8 by done. cbn [rbind].
  destruct (put_frame p8 48 4 NO_BLOCK H8) as (p9 & E9 & H9 & S9 & F9 & G9); [done|lia|]. unfold Page.put_u32 at 1. rewrite E9 by done. cbn [rbind].
  destruct (fresh_buckets p9 BUCKETS H9 ltac:(lia)) as (q & Eq & [Hq Hqk] & Hqb & Hql & Hlow & Hbk). exists q. split; [exact Eq|].
  assert (Hblk : Page.block q = 0 /\ Page.length_ q = META_HEADER + BUCKETS * 8) by (rewrite Hqb, Hql; intuition congruence).
  split; [|exact Hblk]. split; [done|]. split; [done|]. split; [lia|]. clear E2 E3 E4 E5 E6 E7 E8 E9 Eq.
  change (N.of_nat 2) with 2 in *. change (N.of_nat 4) with 4 in *. change (N.of_nat 8) with 8 in *.
  assert (Hlo : forall off k, off + k <= 64 -> field (Page.buffer q) off k = field (Page.buffer p9) off k) by done.
  split.
  - cbn [meta_initial]. split_and!; meta_cbn; rewrite ?Hlo by lia.
    + rewrite F9, F8, F7, F6, F5, F4, F3 by lia. exact G2.
    + rewrite F9, F8, F7, F6, F5, F4 by lia. exact G3.
    + rewrite F9, F8, F7, F6, F5 by lia. exact G4.
    + rewrite F9, F8, F7, F6 by lia. exact G5.
    + rewrite F9, F8, F7, F6, F5, F4, F3, F2 by lia. by apply Z1.
    + rewrite F9, F8, F7 by lia. exact G6.
    + rewrite !(F9 _ 4), (F8 40), G8, G7 by lia. done.
    + exact G9.
    + rewrite !(F9 _ 4), !(F8 _ 4), !(F7 _ 4), !(F6 _ 4), !(F5 _ 4), !(F4 _ 4), !(F3 _ 4), !(F2 _ 4), !Z1 by lia. done.
    + intros b pair Eb. unfold index in Eb. apply lookup_replicate in Eb as [-> Hb]. destruct (Hbk b ltac:(lia)) as [-> ->]. done.
  - apply meta_initial_wf.
Qed.

(** * Loading a page *)
(** The link a page of a kind may have. *)
Definition next_ok (block : N) (k : PageKind.t) (next : N) : Prop :=
  next = NO_BLOCK \/
  (next <> 0 /\ next <> block /\ k <> PageKind.Meta /\ (k = PageKind.Owners \/ k = PageKind.Dictionary -> block < next)).
Lemma check_next_ok p : page_fits p -> 16 <= Page.length_ p ->
  (next_ok (Page.block p) (Page.kind p) (field (Page.buffer p) 12 4) /\ Page.check_next p = Ok tt) \/
  (~ next_ok (Page.block p) (Page.kind p) (field (Page.buffer p) 12 4) /\ Page.check_next p = Err (corrupt 12)).
Proof.
  intros Hp Hl. unfold Page.check_next, Page.next. rewrite page_u32 by (done || lia). cbn [rbind]. generalize (field (Page.buffer p) 12 4). intros n.
  unfold next_ok, Page.is_kind, block_valid. destruct (N.eqb_spec n NO_BLOCK); [left; tauto|].
  destruct (N.eqb_spec n 0), (N.eqb_spec n (Page.block p)), (N.leb_spec n (Page.block p)), (Page.kind p); cbn; intuition (congruence || lia).
Qed.
(** The header a page must start with. *)
Definition header_ok (block : N) (k : PageKind.t) (buffer : list byte) : Prop :=
  exists tag flags next tl, buffer = head_bytes tag flags block next ++ tl /\ tag < 2 ^ 8 /\ block < 2 ^ 32 /\ next < 2 ^ 32 /\
    kind_of_tag tag = Some k /\ (flags = 0 \/ flags = 1 /\ k = PageKind.Dictionary) /\ next_ok block k next.
Lemma head_next tag flags block next tl : next < 2 ^ 32 -> field (head_bytes tag flags block next ++ tl) 12 4 = next.
Proof.
  intros Hn. change (le_val (le_bytes 4 next) = next). by apply le_val_bytes_small.
Qed.
Lemma kind_tags tag k : kind_of_tag tag = Some k <-> tag_of_kind k = Some tag.
Proof. unfold kind_of_tag, tag_of_kind. split; [repeat case_match; naive_solver|by destruct k; intros [= <-]]. Qed.
Lemma parse_header_ok block n buffer p : len buffer = CAPACITY -> n <= CAPACITY ->
  Page.parse_header (Page.mk block PageKind.Zero n false buffer) = Ok p <->
  exists k, 16 <= n /\ header_ok block k buffer /\ p = Page.mk block k n false buffer.
Proof.
  intros Hb Hn. unfold Page.parse_header. assert (Hp : forall k, page_fits (Page.mk block k n false buffer)) by done.
  rewrite bytes_ok by done. cbn [rbind Page.length_ Page.buffer Page.block Page.initialize]. rewrite <- (take_drop (N.to_nat n) buffer) in Hb.
  assert (Hu : len (take (N.to_nat n) buffer) = n) by (rewrite take_drop in Hb; clear -Hb Hn; len_lia).
  assert (Hs : small (take (N.to_nat n) buffer)) by (unfold small; rewrite Hu; unfold isize_max, CAPACITY in *; lia).
  pose proof (take_drop (N.to_nat n) buffer) as Et. remember (take (N.to_nat n) buffer) as used. remember (drop (N.to_nat n) buffer) as rest.
  rewrite reading_new. split.
  - intros H. next_lifted H (take_format 4) as m t1 Hm. destruct (bool_decide_reflect (m = PAGE_MAGIC)) as [->|]; cbn [negb] in H; [|done].
    next_lifted H u16_format as v t2 Hv. destruct (N.eqb_spec v 2) as [->|]; cbn [negb] in H; [|done].
    next_lifted H u8_format as tag t3 Htag. destruct (kind_of_tag tag) as [k|] eqn:Ek; cbn [ok_or rbind] in H; [|done].
    next_lifted H u8_format as flags t4 Hfl.
    destruct ((1 <? flags) || (negb (flags =? 0) && negb (bool_decide (k = PageKind.Dictionary)))) eqn:Ef; [done|].
    next_lifted H u32_format as own t5 Hown. destruct (N.eqb_spec own block) as [->|]; cbn [negb] in H; [|done].
    next_lifted H u32_format as nx t6 Hnx.
    assert (Eb : buffer = head_bytes tag flags block nx ++ (t6 ++ rest)) by (rewrite <- Et; unfold head_bytes, Datatypes.id; by rewrite <- !app_assoc).
    assert (H16 : 16 <= n). { rewrite <- Hu. rewrite !len_app. change (len (Datatypes.id PAGE_MAGIC)) with 4. rewrite !len_le_bytes. cbn [len]. unfold len. cbn [length]. lia. }
    destruct (check_next_ok (Page.mk block k n false buffer) (Hp k) H16) as [[Hno Ec]|[_ Ec]]; rewrite Ec in H; cbn [rbind] in H; [|done].
    apply Ok_inj in H as <-. exists k. split; [done|]. split; [|done]. exists tag, flags, nx, (t6 ++ rest). split_and!; try done.
    + apply orb_false_iff in Ef as [Ef Ef2]. apply N.ltb_ge in Ef. destruct (N.eqb_spec flags 0); [by left|right].
      destruct (bool_decide_reflect (k = PageKind.Dictionary)); [|done]. split; [lia|done].
    + cbn [Page.buffer Page.block Page.kind] in Hno. rewrite Eb, head_next in Hno by done. exact Hno.
  - intros (k & H16 & (tag & flags & nx & tl & Eb & Htag & Hblk & Hnx & Ek & Hfl & Hno) & ->).
    assert (Eu : used = head_bytes tag flags block nx ++ drop 16 used).
    { rewrite <- (take_drop 16 used) at 1. f_equal. rewrite Heqused, Eb. rewrite take_take. replace (16 `min` N.to_nat n)%nat with 16%nat by lia. by apply take_app_length'. }
    destruct (check_next_ok (Page.mk block k n false buffer) (Hp k) H16) as [[_ Ec]|[Hc _]].
    2:{ exfalso. apply Hc. cbn [Page.buffer Page.block Page.kind]. rewrite Eb. by rewrite head_next. }
    rewrite Eu in Hs |- *. clear Eu Et. revert Hs. generalize (drop 16 used). intros us Hs. unfold head_bytes in Hs |- *. rewrite <- !app_assoc in Hs |- *.
    give_lifted (take_format 4) PAGE_MAGIC; [done|]. rewrite bool_decide_eq_true_2 by done. cbn [negb].
    give_lifted u16_format 2; [done|]. cbn [N.eqb Pos.eqb negb]. give_lifted u8_format tag; [done|]. rewrite Ek. cbn [ok_or rbind].
    give_lifted u8_format flags; [lia|].
    assert (Ef : ((1 <? flags) || (negb (flags =? 0) && negb (bool_decide (k = PageKind.Dictionary)))) = false).
    { destruct Hfl as [->|[-> ->]]; [done|]. by rewrite bool_decide_eq_true_2. }
    rewrite Ef. give_lifted u32_format block; [done|]. rewrite N.eqb_refl. cbn [negb]. give_lifted u32_format nx; [done|].
    rewrite Ec. done.
Qed.
Lemma reader_at_safe p offset : page_fits p -> safe (Page.reader_at p offset).
Proof. intros Hp. unfold Page.reader_at. rewrite bytes_ok by done. cbn [rbind]. repeat safe_step. Qed.
Lemma page_u32_safe p offset : page_fits p -> safe (Page.u32 p offset).
Proof. intros Hp. unfold Page.u32. apply safe_bind; [by apply reader_at_safe|]. intros r _. unfold lift_codec. repeat safe_step. Qed.
Lemma check_next_safe p : page_fits p -> safe (Page.check_next p).
Proof. intros Hp. unfold Page.check_next, Page.next. apply safe_bind; [by apply page_u32_safe|]. intros n _. repeat safe_step. Qed.
Lemma parse_header_safe p : page_fits p -> safe (Page.parse_header p).
Proof.
  intros Hp. unfold Page.parse_header. rewrite bytes_ok by done. cbn [rbind]. unfold lift_codec.
  repeat first [safe_step | apply check_next_safe; exact Hp].
Qed.
(** The pages an image is accepted as. *)
Definition loads (block n : N) (k : PageKind.t) (buffer : list byte) : Prop :=
  block <> NO_BLOCK /\ (n = 0 /\ k = PageKind.Zero \/ 16 <= n <= CAPACITY /\ header_ok block k buffer).
Definition invalid_page (p : Page.t) : Prop := Page.block p = NO_BLOCK /\ Page.kind p = PageKind.Zero /\ Page.length_ p = 0 /\ Page.initialize p = false.
Lemma load_iff block (read : list byte -> list byte * Result N) :
  len (fst (read Page.zeros)) = CAPACITY -> safe (snd (read Page.zeros)) ->
  (forall p, Page.reload_with block read = (p, Ok tt) <->
     exists n k, snd (read Page.zeros) = Ok n /\ loads block n k (fst (read Page.zeros)) /\ p = Page.mk block k n false (fst (read Page.zeros))) /\
  (forall p r, Page.reload_with block read = (p, r) -> r = Ok tt \/ (exists e, r = Err e) /\ invalid_page p).
Proof.
  intros Hb Hr. unfold Page.reload_with, Page.reload_body, loads. destruct (read Page.zeros) as [buffer r] eqn:Er. cbn [fst snd] in *.
  destruct (N.eqb_spec block NO_BLOCK) as [->|Hne].
  { split; [intros p; split; [done|]|]; [intros (n & k & _ & [Hx _] & _); by destruct Hx|]. intros p r' [= <- <-]. right. split; [by eexists|done]. }
  destruct r as [n|e|]; cbn [rbind]; [|split; [naive_solver|intros p r' [= <- <-]; right; split; [by eexists|done]]|done].
  destruct (N.eqb_spec n 0) as [->|Hn0]; [|destruct (N.ltb_spec CAPACITY n)].
  - split; [|intros p r' [= <- <-]; by left]. intros p. split; [intros [= <-]; exists 0, PageKind.Zero; split_and!; [done|done|by left|done]|].
    intros (n & k & [= <-] & (_ & [[_ ->]|[]]) & ->); [done|lia].
  - split; [|intros p r' [= <- <-]; right; split; [by eexists|done]]. intros p. split; [done|]. intros (m & k & [= <-] & (_ & [[]|[]]) & _); lia.
  - pose proof (parse_header_ok block n buffer) as Hok. pose proof (parse_header_safe (Page.mk block PageKind.Zero n false buffer)) as Hsafe.
    destruct (Page.parse_header _) as [q|e|]; [| |exfalso; by apply Hsafe].
    + destruct (Hok q Hb) as [Hq _]; [lia|]. destruct (Hq eq_refl) as (k & H16 & Hh & ->). split; [|intros p r' [= <- <-]; by left].
      intros p. split; [intros [= <-]; exists n, k; split_and!; [done|done|right; split; [lia|done]|done]|]. intros (m & k' & [= <-] & (_ & [[]|[_ Hh']]) & ->); [lia|].
      destruct (Hok (Page.mk block k' n false buffer) Hb) as [_ Hq']; [lia|]. assert (E : Ok (Page.mk block k n false buffer) = Ok (E := Error) (Page.mk block k' n false buffer)) by (apply Hq'; exists k'; split_and!; [lia|done|done]).
      apply Ok_inj in E. by rewrite E.
    + split; [|intros p r' [= <- <-]; right; split; [by eexists|done]]. intros p. split; [done|]. intros (m & k & [= <-] & (_ & [[]|[? Hh]]) & ->); [lia|].
      destruct (Hok (Page.mk block k n false buffer) Hb) as [_ Hq']; [lia|]. assert (E : Err e = Ok (Page.mk block k n false buffer)) by (apply Hq'; exists k; split_and!; [lia|done|done]). done.
Qed.
(** C26: loading a block accepts exactly an empty image or one with a sound header of that
    block; anything else, a failing read included, is an error and leaves a page that
    is invalid whatever the old image was, and no image makes the loader panic. *)
Theorem reload_exact block (read : list byte -> list byte * Result N) :
  len (fst (read Page.zeros)) = CAPACITY -> safe (snd (read Page.zeros)) ->
  (forall p, Page.reload_with block read = (p, Ok tt) <->
     exists n k, snd (read Page.zeros) = Ok n /\ loads block n k (fst (read Page.zeros)) /\ p = Page.mk block k n false (fst (read Page.zeros))) /\
  (forall p r, Page.reload_with block read = (p, r) -> r = Ok tt \/ (exists e, r = Err e) /\ invalid_page p).
Proof. apply load_iff. Qed.

(** * Sound pages *)
(** What the store accepts: the invariant of every page that is built or changed. *)
Definition page_sound (p : Page.t) : Prop :=
  page_fits p /\ 16 <= Page.length_ p /\ Page.block p <> NO_BLOCK /\ header_ok (Page.block p) (Page.kind p) (Page.buffer p).
(** The store gives back the bytes of a page that was written. *)
Definition stored (p : Page.t) (zeroed : list byte) : list byte * Result N :=
  (splice zeroed 0 (take (N.to_nat (Page.length_ p)) (Page.buffer p)), Ok (Page.length_ p)).

Lemma splice_head (h tl : list byte) at_ x : len h <= at_ -> splice (h ++ tl) at_ x = h ++ splice tl (at_ - len h) x.
Proof.
  intros H. unfold splice. rewrite take_app_ge by (unfold len in H; lia). rewrite <- app_assoc. f_equal. f_equal; [f_equal; unfold len; lia|].
  f_equal. rewrite drop_app_ge by (unfold len in *; lia). f_equal. unfold len in *. lia.
Qed.
Lemma header_splice block k bs at_ x : 16 <= at_ -> header_ok block k bs -> header_ok block k (splice bs at_ x).
Proof.
  intros H (tag & flags & nx & tl & -> & Hr). exists tag, flags, nx, (splice tl (at_ - 16) x). split; [|done]. by apply splice_head.
Qed.
Lemma put_n_inv p off n write bs p' : page_fits p -> (forall w, write w = Writer.put w bs) -> len bs = n -> Page.put_n p off n write = Ok p' ->
  off + n <= CAPACITY /\ p' = Page.set_buffer p (splice (Page.buffer p) off bs).
Proof.
  intros Hp Hw Hn H. assert (Ho : off + n <= CAPACITY).
  { unfold Page.put_n in H. destruct (slice (Page.buffer p) off (off + n)) eqn:E; [|done]. apply slice_ok in E as (_ & E & _). by rewrite (proj1 Hp) in E. }
  split; [done|]. rewrite (put_n_ok p Hp off n bs) in H by done. by apply Ok_inj in H.
Qed.
Section Sound.
Context (p : Page.t) (Hp : page_sound p).
Lemma splice_sound off bs : 16 <= off -> off + len bs <= CAPACITY -> page_sound (Page.set_buffer p (splice (Page.buffer p) off bs)).
Proof.
  intros Ho Hc. destruct Hp as (Hf & Hl & Hn & Hh). split; [by apply splice_fits|]. split; [done|]. split; [done|]. by apply header_splice.
Qed.
Lemma put_sound off n write bs p' : (forall w, write w = Writer.put w bs) -> len bs = n -> 16 <= off -> Page.put_n p off n write = Ok p' ->
  page_sound p' /\ Page.block p' = Page.block p /\ Page.kind p' = Page.kind p /\ Page.length_ p' = Page.length_ p.
Proof.
  intros Hw Hn Ho H. apply (put_n_inv _ _ _ _ bs) in H as [Hc ->]; [|apply Hp|done|done]. split; [|done]. apply splice_sound; [done|by rewrite Hn].
Qed.
Lemma length_sound n : 16 <= n <= CAPACITY -> page_sound (Page.set_length p n).
Proof. intros Hn. destruct Hp as ([Hb Hf] & Hl & Hne & Hh). split; [split; [done|cbn; lia]|]. split; [cbn; lia|done]. Qed.
Lemma set_next_ok n p' : n < 2 ^ 32 -> Page.set_next p n = Ok p' -> next_ok (Page.block p) (Page.kind p) n /\ page_sound p' /\
  p' = Page.set_buffer p (splice (Page.buffer p) 12 (le_bytes 4 n)).
Proof.
  intros Hn. pose proof Hp as (Hf & Hl & Hne & Hh). unfold Page.set_next. rewrite put_u32_ok by (done || (unfold CAPACITY; lia)). cbn [rbind].
  destruct Hh as (tag & flags & nx & tl & Eb & Ht & Hb & Hnx & Hk & Hfl & _).
  assert (Es : splice (Page.buffer p) 12 (le_bytes 4 n) = head_bytes tag flags (Page.block p) n ++ tl) by (rewrite Eb; done).
  intros H. assert (Hf' : page_fits (Page.set_buffer p (splice (Page.buffer p) 12 (le_bytes 4 n)))) by (apply splice_fits; [done|rewrite len_le_bytes; unfold CAPACITY; lia]).
  destruct (check_next_ok _ Hf' Hl) as [[Hno Ec]|[_ Ec]]; rewrite Ec in H; [|done]. cbn [rbind] in H. apply Ok_inj in H as <-.
  cbn [Page.set_buffer Page.buffer Page.block Page.kind] in Hno. rewrite Es, head_next in Hno by done. split; [done|]. split; [|done].
  split; [done|]. split; [done|]. split; [done|]. cbn [Page.set_buffer Page.buffer Page.block Page.kind]. rewrite Es. by exists tag, flags, n, tl.
Qed.
End Sound.
Lemma new_sound block k p : block < 2 ^ 32 -> Page.new block k = Ok p -> page_sound p /\ Page.block p = block /\ Page.kind p = k /\ Page.length_ p = 16.
Proof.
  intros Hb (Hne & Hm & tag & Ht & ->)%new_ok. destruct (new_fields block k tag) as (Hf & _ & _). split; [|done]. split; [done|]. split; [cbn; unfold PAGE_HEADER; lia|].
  split; [done|]. exists tag, 0, NO_BLOCK. eexists. split_and!; [|by destruct k; naive_solver|done|done|by apply kind_tags|by left|by left].
  cbn [Page.buffer Page.block]. done.
Qed.

(** ** Owner references *)
Definition ref_wf (o : OwnerRef) : Prop :=
  block_valid (owner_page o) = true /\ owner_page o < 2 ^ 32 /\ owner_slot o < OWNER_SLOTS /\ 1 <= owner_incarnation o < 2 ^ 64.
Definition ref_bytes (o : OwnerRef) : list byte :=
  le_bytes 4 (owner_page o) ++ le_bytes 2 (owner_slot o) ++ le_bytes 2 0 ++ le_bytes 8 (owner_incarnation o).
Lemma len_ref_bytes o : len (ref_bytes o) = 16.
Proof. done. Qed.
Lemma identifier_ok v i : identifier_new v = Ok i <-> v <> 0 /\ i = v.
Proof. unfold identifier_new. destruct (N.eqb_spec v 0); naive_solver. Qed.
(** reading an owner reference: exactly the encodings of references with a valid page,
    a slot that exists and an incarnation. *)
Lemma ref_format pre s o r' : small (pre ++ s) ->
  OwnerRef_read (reading pre s) = Ok (o, r') <-> ref_wf o /\ exists tl, s = ref_bytes o ++ tl /\ r' = reading (pre ++ ref_bytes o) tl.
Proof.
  intros Hs. unfold OwnerRef_read, ref_wf, ref_bytes. split.
  - intros H. next_lifted H u32_format as page t1 Hpage. next_lifted H u16_format as slot t2 Hslot. next_lifted H u16_format as z t3 Hz.
    next_lifted H u64_format as v t4 Hv. apply rbind_ok in H as (i & Hi & H). unfold or_corrupt in Hi. apply map_err_ok, identifier_ok in Hi as [Hnz ->].
    destruct (block_valid page) eqn:Eb; cbn [negb orb] in H; [|done]. destruct (N.leb_spec OWNER_SLOTS slot); cbn [orb] in H; [done|].
    destruct (N.eqb_spec z 0) as [->|]; cbn [negb] in H; [|done]. apply Ok_inj in H. apply pair_equal_spec in H as [<- <-]. cbn [owner_page owner_slot owner_incarnation].
    split; [split_and!; (done || lia)|]. exists t4. by rewrite <- !app_assoc.
  - intros ((Hb & Hp & Hsl & Hi) & tl & -> & ->). rewrite <- !app_assoc in *. unfold OWNER_SLOTS, CAPACITY, OWNER_HEADER, OWNER_BYTES in Hsl.
    give_lifted u32_format (owner_page o); [done|]. give_lifted u16_format (owner_slot o); [change ((8192 - 24 - 20) / 40) with 203 in Hsl; lia|].
    give_lifted u16_format 0; [done|]. give_lifted u64_format (owner_incarnation o); [lia|].
    assert (E : identifier_new (owner_incarnation o) = Ok (owner_incarnation o)) by (apply identifier_ok; split; [lia|done]). rewrite E. cbn [or_corrupt map_err rbind].
    rewrite Hb. cbn [negb orb]. rewrite (proj2 (N.leb_gt _ _)) by done. cbn [orb negb N.eqb]. rewrite <- !app_assoc. by destruct o.
Qed.
Lemma ref_write out pre o : ref_wf o -> small out -> len pre + 16 <= len out ->
  OwnerRef_write o (writing out pre) = Ok (writing out (pre ++ ref_bytes o)).
Proof.
  intros (Hb & Hp & Hsl & Hi) Hs Hl. unfold OwnerRef_write, ref_bytes. rewrite Hb, (proj2 (N.leb_gt _ _)) by done. cbn [negb orb].
  unfold Writer.u16, Writer.u32, Writer.u64.
  repeat (rewrite put_writing; [cbn [lift_codec map_err rbind]|done|rewrite ?len_app, ?len_le_bytes; lia]). by rewrite <- !app_assoc.
Qed.

(** ** Pages the constructors build *)
Inductive built : Page.t -> Prop :=
| built_metadata layout p : layout_wf layout -> Page.metadata layout = Ok p -> built p
| built_owners block p : block < 2 ^ 32 -> Page.owners block = Ok p -> built p
| built_dictionary block p : block < 2 ^ 32 -> Page.dictionary block = Ok p -> built p
| built_packed block p : block < 2 ^ 32 -> Page.packed_dictionary block = Ok p -> built p
| built_postings block term p : block < 2 ^ 32 -> Page.postings block term = Ok p -> built p
| built_fragment block owner next offset payload p : block < 2 ^ 32 -> ref_wf owner -> next < 2 ^ 32 ->
    Page.fragment block owner next offset payload = Ok p -> built p
| built_free block next p : block < 2 ^ 32 -> next < 2 ^ 32 -> Page.free block next = Ok p -> built p
| built_next p next p' : built p -> next < 2 ^ 32 -> Page.set_next p next = Ok p' -> built p'
| built_op p op i p' : built p -> page_step p op = Ok (i, p') -> built p'.

Ltac put_step H Hp :=
  apply rbind_ok in H as (? & ?Hput & H);
  eapply (put_sound _ Hp) in Hput as (?Hp' & _ & _ & _); [clear Hp|intros; reflexivity|done|try lia].
Lemma fragment_ok block owner next offset payload p : block < 2 ^ 32 -> ref_wf owner -> next < 2 ^ 32 ->
  Page.fragment block owner next offset payload = Ok p ->
  page_sound p /\ Page.block p = block /\ Page.kind p = PageKind.Fragment /\ Page.length_ p = FRAGMENT_HEADER + len payload /\
  1 <= len payload <= FRAGMENT_BYTES /\
  exists p0, Page.set_next p0 next = Ok p /\ page_sound p0 /\ slice (Page.buffer p0) 16 (16 + (20 + len payload)) = Some (ref_bytes owner ++ le_bytes 4 offset ++ payload).
Proof.
  intros Hb Ho Hn H. unfold Page.fragment in H. destruct ((len payload =? 0) || (FRAGMENT_BYTES <? len payload)) eqn:El; [done|].
  apply orb_false_iff in El as [El1%N.eqb_neq El2%N.ltb_ge].
  apply rbind_ok in H as (q & Hq & H). apply new_sound in Hq as (Hs & Hqb & Hqk & Hql); [|done].
  change FRAGMENT_BYTES with 8132 in El2. assert (Hs' : page_sound (Page.set_length q (FRAGMENT_HEADER + len payload))) by (apply length_sound; [done|change (16 <= 36 + len payload <= 8168); lia]).
  set (q' := Page.set_length _ _) in *. pose proof Hs' as ([Hbuf _] & _). apply rbind_ok in H as (region & Hr & H). apply or_panic_ok in Hr.
  assert (Er : region = drop 16 (Page.buffer q')). { unfold slice_from in Hr. rewrite Hbuf in Hr. by apply Some_inj' in Hr. }
  assert (Hlr : len region = 8152) by (rewrite Er; clear -Hbuf; unfold CAPACITY in Hbuf; unfold len in *; rewrite length_drop; lia).
  assert (Hsm : small region) by (unfold small; rewrite Hlr; unfold isize_max; lia).
  rewrite writing_new, ref_write in H by (done || (rewrite len_nil; lia)). cbn [rbind] in H. unfold Writer.u32 in H.
  rewrite put_writing in H; [|done|rewrite !len_app, len_le_bytes, len_ref_bytes, len_nil; lia]. cbn [lift_codec map_err rbind] in H.
  rewrite put_writing in H; [|done|rewrite !len_app, len_le_bytes, len_ref_bytes, len_nil; lia]. cbn [lift_codec map_err rbind] in H.
  rewrite app_nil_l in H. set (bs := (ref_bytes owner ++ le_bytes 4 offset) ++ payload) in *.
  assert (Hlbs : len bs = 20 + len payload) by (unfold bs; rewrite !len_app, len_le_bytes, len_ref_bytes; lia).
  assert (Ew : Page.write_back q' PAGE_HEADER (writing region bs) = Page.set_buffer q' (splice (Page.buffer q') 16 (Writer.bytes (writing region bs)))) by done.
  assert (Hlw : len (Writer.bytes (writing region bs)) = 8152) by (unfold writing; cbn [Writer.bytes]; rewrite len_app; unfold len in *; rewrite length_drop; lia).
  rewrite Ew in H. clear Ew. pose proof (splice_sound q' Hs' 16 (Writer.bytes (writing region bs)) ltac:(lia)) as Hs2. rewrite Hlw in Hs2. specialize (Hs2 ltac:(unfold CAPACITY; lia)).
  pose proof H as H'. apply (set_next_ok _ Hs2) in H as (_ & Hs3 & ->); [|done]. split; [done|]. split; [done|]. split; [done|]. split; [done|]. split; [unfold FRAGMENT_BYTES, CAPACITY, FRAGMENT_HEADER; lia|].
  eexists. split; [exact H'|]. split; [done|]. cbn [Page.set_buffer Page.buffer]. rewrite <- Hlbs.
  assert (Eb : ref_bytes owner ++ le_bytes 4 offset ++ payload = bs) by (unfold bs; by rewrite app_assoc). rewrite Eb.
  unfold splice, writing. cbn [Writer.bytes]. rewrite <- app_assoc. apply slice_app; rewrite len_take; unfold CAPACITY in Hbuf; lia.
Qed.
Lemma set_byte_sound p at_ v p' : page_sound p -> 16 <= at_ -> Page.set_byte p at_ v = Ok p' -> page_sound p'.
Proof.
  intros (Hf & Hl & Hne & tag & flags & nx & tl & Eb & Hh) Ha H. unfold Page.set_byte in H. destruct (N.ltb_spec at_ (len (Page.buffer p))); [|done].
  apply Ok_inj in H as <-. split; [split; [cbn; by rewrite len_insert; apply Hf|apply Hf]|]. split; [done|]. split; [done|].
  exists tag, flags, nx. eexists. split; [|exact Hh]. cbn [Page.set_buffer Page.buffer Page.block]. rewrite Eb.
  apply insert_app_r_alt. change (length (head_bytes tag flags (Page.block p) nx)) with 16%nat. lia.
Qed.
Lemma put_u16_sound p off v p' : Page.put_u16 p off v = Ok p' -> 16 <= off -> page_sound p -> page_sound p'.
Proof. intros H Ho Hp. by apply (put_sound p Hp off 2 _ (le_bytes 2 v) p') in H as [? _]. Qed.
Lemma put_u32_sound p off v p' : Page.put_u32 p off v = Ok p' -> 16 <= off -> page_sound p -> page_sound p'.
Proof. intros H Ho Hp. by apply (put_sound p Hp off 4 _ (le_bytes 4 v) p') in H as [? _]. Qed.
Lemma put_u64_sound p off v p' : Page.put_u64 p off v = Ok p' -> 16 <= off -> page_sound p -> page_sound p'.
Proof. intros H Ho Hp. by apply (put_sound p Hp off 8 _ (le_bytes 8 v) p') in H as [? _]. Qed.
Create HintDb pages.
#[export] Hint Resolve put_u16_sound put_u32_sound put_u64_sound : pages.
#[export] Hint Extern 1 (16 <= _) => lia : pages.
Lemma page_step_sound p op i p' : page_sound p -> page_step p op = Ok (i, p') -> page_sound p'.
Proof.
  intros Hp H. destruct op as [| |h t|b h t|f|j]; cbn [page_step] in H.
  - unfold Page.reserve_incarnation in H. inv_ok. eauto with pages.
  - unfold Page.enable_packed_postings in H. inv_ok. eauto with pages.
  - unfold Page.set_owner_chain in H. inv_ok. eauto with pages.
  - unfold Page.set_bucket in H. inv_ok. unfold META_HEADER in *. eauto with pages.
  - unfold Page.set_free_head in H. inv_ok. eauto with pages.
  - unfold Page.set_rewrite_journal in H. apply rbind_ok in H as (q & H & E). apply Ok_inj in E. apply pair_equal_spec in E as [_ <-].
    apply rbind_ok in H as (u & _ & H). apply rbind_ok in H as ([[a b] c] & _ & H). inv_ok. eauto 6 with pages.
Qed.
Lemma foldM_keeps {A} (f : Page.t -> A -> Result Page.t) l p p' :
  (forall q x q', x ∈ l -> page_sound q -> f q x = Ok q' -> page_sound q') -> page_sound p -> foldM f p l = Ok p' -> page_sound p'.
Proof.
  revert p. induction l as [|x l IH]; intros p Hf Hp H; [by apply Ok_inj in H as <-|]. cbn [foldM] in H. apply rbind_ok in H as (q & Hq & H).
  apply (IH q); [intros; eapply Hf; eauto; by right|eapply Hf; eauto; by left|done].
Qed.
Lemma metadata_sound layout p : Page.metadata layout = Ok p -> page_sound p.
Proof.
  unfold Page.metadata. intros H. apply rbind_ok in H as (q & Hq & H). apply new_sound in Hq as (Hs & _); [|done].
  assert (Hl : page_sound (Page.set_length q (META_HEADER + BUCKETS * 8))) by (apply length_sound; [done|change (16 <= 4160 <= 8168); lia]).
  clear Hs. revert H Hl. generalize (Page.set_length q (META_HEADER + BUCKETS * 8)). intros q0 H Hl.
  do 5 (apply rbind_ok in H as (? & ? & H)). apply rbind_ok in H as (q1 & Hloop & H).
  assert (Hq1 : page_sound q1).
  { eapply foldM_keeps; [| |exact Hloop]; [|eauto 8 with pages]. intros a off a' Hx Ha E.
    assert (16 <= off) by (rewrite !elem_of_cons, elem_of_nil in Hx; lia). cbn beta in E. eauto with pages. }
  eapply foldM_keeps; [|exact Hq1|exact H]. intros a b a' _ Ha E.
  apply (page_step_sound a (SetBucket b NO_BLOCK NO_BLOCK) None a' Ha). cbn [page_step]. by rewrite E.
Qed.
Lemma built_sound p : built p -> page_sound p.
Proof.
  induction 1 as [layout p _ H|block p Hb H|block p Hb H|block p Hb H|block term p Hb H|block owner next offset payload p Hb Ho Hn H|block next p Hb Hn H|p next p' _ IH Hn H|p op i p' _ IH H].
  - by apply metadata_sound in H.
  - unfold Page.owners in H. inv_ok. apply length_sound; [by eapply new_sound|]. change (16 <= 20 <= 8168). lia.
  - by apply new_sound in H as [H _].
  - unfold Page.packed_dictionary, Page.dictionary in H. apply rbind_ok in H as (q & Hq & H).
    pose proof Hq as Hq'. apply new_ok in Hq' as (Hne & _ & tag & [= <-] & ->). apply new_sound in Hq as [(Hf & Hl & _) _]; [|done].
    unfold Page.set_byte in H. cbn [Page.buffer] in H. apply Ok_inj in H as <-. 
    split; [split; [done|done]|]. split; [done|]. split; [done|]. exists 3, 1, NO_BLOCK. eexists. split; [reflexivity|]. split_and!; try done; [by right|by left].
  - unfold Page.postings in H. inv_ok. match goal with H : Page.new _ _ = Ok _ |- _ => apply new_sound in H as [Hs _]; [|done] end.
    pose proof (length_sound _ Hs POSTING_HEADER ltac:(change (16 <= 24 <= 8168); lia)). eauto with pages.
  - by apply fragment_ok in H as [H _].
  - unfold Page.free in H. apply rbind_ok in H as (q & Hq & H). apply new_sound in Hq as [Hs _]; [|done]. by eapply set_next_ok in H as (_ & H & _).
  - by eapply set_next_ok in H as (_ & H' & _).
  - by eapply page_step_sound.
Qed.

(** ** Reloading *)
Lemma stored_len p : page_sound p -> len (fst (stored p Page.zeros)) = CAPACITY.
Proof.
  intros (Hf & _). unfold stored. cbn [fst]. rewrite splice_len; [apply zeros_len|]. rewrite used_len by done. destruct Hf. rewrite zeros_len. lia.
Qed.
Lemma stored_prefix p : page_sound p -> take (N.to_nat (Page.length_ p)) (fst (stored p Page.zeros)) = take (N.to_nat (Page.length_ p)) (Page.buffer p).
Proof.
  intros (Hf & _). pose proof (used_len p Hf) as Hu. unfold stored, splice. cbn [fst take]. rewrite take_0, app_nil_l.
  rewrite take_app_le by (clear -Hu; unfold len in Hu; lia). rewrite take_take. f_equal. lia.
Qed.
Lemma stored_header p : page_sound p -> header_ok (Page.block p) (Page.kind p) (fst (stored p Page.zeros)).
Proof.
  intros Hp. pose proof Hp as (Hf & Hl & _ & tag & flags & nx & tl & Eb & Hh). pose proof (stored_prefix p Hp) as Es.
  rewrite Eb, take_app_ge in Es by (change (length (head_bytes tag flags (Page.block p) nx)) with 16%nat; lia).
  exists tag, flags, nx. eexists. split; [|exact Hh]. rewrite <- (take_drop (N.to_nat (Page.length_ p)) (fst (stored p Page.zeros))) at 1.
  rewrite Es, <- app_assoc. done.
Qed.
(** every page that the constructors, relinking and the operations of the metapage
    build loads back from the bytes that are stored: the same block, kind and bytes. *)
Theorem built_reload p : built p ->
  exists q, Page.reload_with (Page.block p) (stored p) = (q, Ok tt) /\
    Page.block q = Page.block p /\ Page.kind q = Page.kind p /\ Page.bytes (E := Error) q = Page.bytes p.
Proof.
  intros Hp%built_sound. pose proof Hp as (Hf & Hl & Hne & _).
  exists (Page.mk (Page.block p) (Page.kind p) (Page.length_ p) false (fst (stored p Page.zeros))).
  destruct (load_iff (Page.block p) (stored p)) as [H _]; [by apply stored_len|done|]. split_and!; [|done|done|].
  - apply H. exists (Page.length_ p), (Page.kind p). split; [done|]. split; [|done]. split; [done|]. right. split; [split; [done|apply Hf]|by apply stored_header].
  - rewrite !bytes_ok by (done || (split; [by apply stored_len|apply Hf])). cbn [Page.length_ Page.buffer]. by rewrite stored_prefix.
Qed.

(** * Runs of operations *)
(** An operation that fails leaves the page as it is: the [&mut self] operations of
    page.rs check everything before their first write, and the writes that follow lie
    inside what was checked, so no failure comes after a write. *)
Definition attempt {S Op R} (step : S -> Op -> Result (R * S)) (s : S) (op : Op) : Result R * S :=
  match step s op with Ok (r, s) => (Ok r, s) | Err e => (Err e, s) | Panic => (Panic, s) end.
Fixpoint run {S Op R} (step : S -> Op -> Result (R * S)) (s : S) (ops : list Op) : list (Result R) * S :=
  match ops with
  | [] => ([], s)
  | op :: ops => let '(r, s) := attempt step s op in let '(rs, s) := run step s ops in (r :: rs, s)
  end.
(** A step relation between pages and abstract states extends to runs. *)
Section Refine.
Context {P M Op R : Type} (pstep : P -> Op -> Result (R * P)) (mstep : M -> Op -> Result (R * M)) (rep : P -> M -> Prop) (wf : Op -> Prop).
Context (Hsim : forall p m op, rep p m -> wf op ->
  match mstep m op with
  | Ok (r, m') => exists p', pstep p op = Ok (r, p') /\ rep p' m'
  | Err e => pstep p op = Err e
  | Panic => False
  end).
Lemma run_refine ops : forall p m, rep p m -> Forall wf ops ->
  fst (run pstep p ops) = fst (run mstep m ops) /\ rep (snd (run pstep p ops)) (snd (run mstep m ops)) /\ Forall safe (fst (run pstep p ops)).
Proof.
  induction ops as [|op ops IH]; intros p m Hrep Hops; [by split_and!|].
  apply list.Forall_cons in Hops as [Hop Hops]. cbn [run]. unfold attempt. pose proof (Hsim p m op Hrep Hop) as Hs.
  destruct (mstep m op) as [[r m']|e|]; [destruct Hs as (p' & -> & Hrep')|rewrite Hs|done].
  - specialize (IH p' m' Hrep' Hops). destruct (run pstep p' ops) as [rs q], (run mstep m' ops) as [rs' q']. cbn [fst snd] in *.
    destruct IH as (-> & Hq & Hsafe). split_and!; [done|done|by constructor].
  - specialize (IH p m Hrep Hops). destruct (run pstep p ops) as [rs q], (run mstep m ops) as [rs' q']. cbn [fst snd] in *.
    destruct IH as (-> & Hq & Hsafe). split_and!; [done|done|by constructor].
Qed.
End Refine.
(** What every step keeps, every run keeps. *)
Lemma run_invariant {S Op R} (step : S -> Op -> Result (R * S)) (I : S -> Prop) (wf : Op -> Prop) (le : S -> S -> Prop) {Hle : PreOrder le} ops : forall s,
  (forall s op r s', I s -> wf op -> step s op = Ok (r, s') -> I s' /\ le s s') -> I s -> Forall wf ops -> I (snd (run step s ops)) /\ le s (snd (run step s ops)).
Proof.
  induction ops as [|op ops IH]; intros s Hs Hi Hw; [by split|]. apply list.Forall_cons in Hw as [Hop Hw]. cbn [run]. unfold attempt.
  destruct (step s op) as [[r s']|e|] eqn:E.
  - apply Hs in E as [Hi' Hl]; [|done|done]. specialize (IH s' Hs Hi' Hw). destruct (run step s' ops). cbn [snd] in *. destruct IH as [IH1 IH2]. split; [done|by etrans].
  - specialize (IH s Hs Hi Hw). by destruct (run step s ops).
  - specialize (IH s Hs Hi Hw). by destruct (run step s ops).
Qed.
(** ** The metapage *)
Definition handed (rs : list (Result (option Incarnation))) : list N :=
  omap (fun r => match r with Ok i => i | _ => None end) rs.
Lemma step_next m op i m' : meta_step m op = Ok (i, m') ->
  meta_next m <= meta_next m' /\ range (meta_next m) (meta_next m') = match i with Some i => [i] | None => [] end.
Proof.
  intros H. destruct op; cbn [meta_step] in H; repeat match type of H with context [if ?b then _ else _] => destruct b end; try done; apply Ok_inj in H; apply pair_equal_spec in H as [Hi Hm]; rewrite <- Hi, <- Hm;
    meta_cbn; (split; [lia|]); first [apply range_nil; lia | by rewrite range_snoc, range_nil by lia].
Qed.
Lemma handed_range ops : forall m, meta_next m <= meta_next (snd (run meta_step m ops)) /\
  handed (fst (run meta_step m ops)) = range (meta_next m) (meta_next (snd (run meta_step m ops))).
Proof.
  induction ops as [|op ops IH]; intros m; [split; [done|by rewrite range_nil]|]. cbn [run]. unfold attempt.
  destruct (meta_step m op) as [[i m']|e|] eqn:Em.
  - apply step_next in Em as [Hm1 Hm2]. specialize (IH m'). destruct (run meta_step m' ops) as [rs q]. cbn [fst snd] in *. destruct IH as [Hle Hh].
    split; [lia|]. rewrite (range_app _ (meta_next m')) by lia. rewrite Hm2, <- Hh. by destruct i.
  - specialize (IH m). destruct (run meta_step m ops) as [rs q]. cbn [fst snd] in *. done.
  - specialize (IH m). destruct (run meta_step m ops) as [rs q]. cbn [fst snd] in *. done.
Qed.
(** C13: The identity of the store's root: in any run of operations on a fresh metapage the
    page and the abstract state agree on every result and error, its readers return the
    abstract state, nothing panics, and the incarnations handed out are 1, 2, 3, ... *)
Theorem metapage_run layout ops : layout_wf layout -> Forall op_wf ops ->
  exists p0 p, Page.metadata layout = Ok p0 /\
    run page_step p0 ops = (fst (run meta_step meta_initial ops), p) /\
    (let m := snd (run meta_step meta_initial ops) in
     Page.packed_postings p = Ok (meta_packed m) /\ Page.owner_chain p = Ok (meta_owners m) /\ Page.free_head p = Ok (meta_free m) /\
     Page.rewrite_journal p = Ok (meta_journal m) /\
     (forall b, Page.bucket p b = ok_or (index (meta_buckets m) b) (corrupt META_HEADER)) /\
     handed (fst (run meta_step meta_initial ops)) = range 1 (meta_next m)) /\
    Forall safe (fst (run meta_step meta_initial ops)).
Proof.
  intros Hlay Hops. destruct (metadata_ok layout Hlay) as (p0 & E & Hrep & _). exists p0, (snd (run page_step p0 ops)). split; [done|].
  destruct (run_refine page_step meta_step (meta_rep layout) op_wf) with (ops := ops) (p := p0) (m := meta_initial) as (Er & Hrep' & Hsafe); [|done|done|].
  { intros p m op Hr Hop. pose proof (meta_step_ok layout p m op Hr Hop) as Hs. destruct (meta_step m op) as [[r m']|e|]; [|done|done].
    destruct Hs as (p' & Hs1 & Hs2 & _). exists p'. split; assumption. }
  destruct (handed_range ops meta_initial) as [_ Hh]. rewrite Er in Hsafe. rewrite <- Er at 1.
  split; [apply surjective_pairing|]. split; [|done]. pose proof (meta_getters _ _ _ Hrep') as (G1 & G2 & G3 & G4 & G5). by split_and!.
Qed.

(** ** Instances *)
Definition sample_ops : list MetaOp :=
  [Reserve; SetBucket 3 5 9; SetOwners 5 4; Reserve; SetOwners 5 6; SetJournal (Some (mkRewriteJournal 7 8 Retiring)); EnablePacked; Reserve; SetFree 0].
Lemma metapage_run_witness :
  (exists p0 p, Page.metadata (mkHeapLayout 291) = Ok p0 /\ run page_step p0 sample_ops = (fst (run meta_step meta_initial sample_ops), p) /\
     Page.bucket p 3 = Ok (5, 9) /\ Page.owner_chain p = Ok (5, 6)) /\
  handed (fst (run meta_step meta_initial sample_ops)) = [1; 2; 3].
Proof.
  destruct (metapage_run (mkHeapLayout 291) sample_ops) as (p0 & p & H0 & Hr & (_ & Ho & _ & _ & Hb & Hh) & _).
  { unfold layout_wf. cbn. lia. }
  { repeat constructor. }
  split; [|exact Hh]. exists p0, p. split; [exact H0|]. split; [exact Hr|]. split; [exact (Hb 3)|exact Ho].
Defined.
Definition sample_owner : OwnerRef := mkOwnerRef 3 4 17.
Lemma built_reload_witness :
  match Page.fragment 7 sample_owner 9 0 [byte_of 65; byte_of 66] with
  | Ok p => exists q, Page.reload_with 7 (stored p) = (q, Ok tt) /\ Page.kind q = PageKind.Fragment /\ Page.bytes (E := Error) q = Page.bytes p
  | _ => False
  end.
Proof.
  assert (E : match Page.fragment 7 sample_owner 9 0 [byte_of 65; byte_of 66] with
    | Ok p => (Page.block p =? 7) && bool_decide (Page.kind p = PageKind.Fragment) | _ => false end = true) by (vm_compute; reflexivity).
  destruct (Page.fragment 7 sample_owner 9 0 [byte_of 65; byte_of 66]) as [p|e|] eqn:H; [|discriminate E|discriminate E].
  apply andb_true_iff in E as [Eb%N.eqb_eq Ek%bool_decide_eq_true]. rewrite <- Eb, <- Ek.
  destruct (built_reload p) as (q & Hq & _ & Hk & Hb); [|exists q; split; [exact Hq|split; [exact Hk|exact Hb]]].
  eapply (built_fragment 7 sample_owner 9 0); [reflexivity| |reflexivity|exact H]. unfold ref_wf. split; [reflexivity|]. split; [reflexivity|]. split; [reflexivity|].
  cbn. lia.
Defined.
Lemma reload_exact_witness : Page.reload_with 4 (fun _ => (Page.zeros, Ok 0)) = (Page.mk 4 PageKind.Zero 0 false Page.zeros, Ok tt).
Proof.
  destruct (reload_exact 4 (fun _ => (Page.zeros, Ok 0))) as [H _]; [exact zeros_len|discriminate|]. apply H.
  exists 0, PageKind.Zero. split; [reflexivity|]. split; [|reflexivity]. split; [discriminate|]. left. split; reflexivity.
Defined.
