(* ===== verification/PageOwners.v ===== *)
(** Owner pages: [src/crates/pin-core/src/mutable/page.rs], [Page::owner_count] to
    [Page::change_owner].

    An owner page is an array of fixed slots, one per published document, that grows
    towards the small payloads stored behind it. Slots are never reused; a slot goes
    through the publication states. The abstract state of a page is the list of its
    slots. The theorems: the readers return the abstract slots, [append_owner] adds one
    or refuses without a change, [change_owner] is the publication state machine, and
    in any run a slot keeps its identity and never becomes live twice. *)
From S2P Require Export Pages.

(** [slice::copy_within] *)
Definition copy_within {A} (l : list A) (a b dst : N) : option (list A) :=
  match slice l a b with
  | Some x => if dst + len x <=? len l then Some (splice l dst x) else None
  | None => None
  end.
(** [l[a..b].copy_from_slice(src)] *)
Definition copy_from {A} (l : list A) (a b : N) (src : list A) : option (list A) :=
  match slice l a b with
  | Some x => if len x =? len src then Some (splice l a src) else None
  | None => None
  end.

(** [Owner] *)
Record Owner : Type := mkOwner {
  reference : OwnerRef; own_root : RootTid; own_publication : Publication; own_live : bool;
  own_tokens : N; own_terms : N; data_head : N; data_bytes : N; inline : list byte }.
(** [OwnerChange] *)
Inductive OwnerChange : Type := PayloadReady (head : N) | Publish | Remove | Abandon.

Definition publication_of_tag (tag : N) : option Publication :=
  match tag with 0 => Some Allocated | 1 => Some FragmentsWritten | 2 => Some Published | 3 => Some Abandoned | _ => None end.
Definition is_empty {A} (l : list A) : bool := match l with [] => true | _ => false end.
(** [(16..=MAX_DOCUMENT_BYTES).contains(&n)] *)
Definition payload_size_ok (n : N) : bool := (16 <=? n) && (n <=? MAX_DOCUMENT_BYTES).

Module OwnerPage.
(** [Page::owner_count] *)
Definition owner_count (self : Page.t) : Result N :=
  let* _ := Page.require self PageKind.Owners in
  let* count := Page.u16 self 16 in
  let* reserved := Page.u16 self 18 in
  if negb (reserved =? 0) || (Page.length_ self <? OWNER_HEADER + count * OWNER_BYTES) then Err (corrupt 16) else Ok count.

(** [Page::owner] *)
Definition owner (self : Page.t) (slot : N) (layout : HeapLayout) : Result Owner :=
  let* count := owner_count self in
  if count <=? slot then Err (corrupt 16) else
  let offset := OWNER_HEADER + slot * OWNER_BYTES in
  let* record := or_panic (slice (Page.buffer self) offset (offset + OWNER_BYTES)) in
  let* '(v, reader) := lift_codec (Reader.u64 (Reader.new record)) in
  let* incarnation := or_corrupt offset (identifier_new v) in
  let* '(b, reader) := lift_codec (Reader.u32 reader) in
  let* '(o, reader) := lift_codec (Reader.u16 reader) in
  let* root := or_corrupt (offset + 8) (RootTid_new b o layout) in
  let* '(tag, reader) := lift_codec (Reader.u8 reader) in
  let* publication := ok_or (publication_of_tag tag) (corrupt (offset + 14)) in
  let* '(flag, reader) := lift_codec (Reader.u8 reader) in
  let* live :=
    match flag with
    | 0 => Ok false
    | 1 => if bool_decide (publication = Published) then Ok true else Err (corrupt (offset + 15))
    | _ => Err (corrupt (offset + 15))
    end in
  let* '(tokens, reader) := lift_codec (Reader.u32 reader) in
  let* '(terms, reader) := lift_codec (Reader.u32 reader) in
  let* '(head, reader) := lift_codec (Reader.u32 reader) in
  let* '(bytes, reader) := lift_codec (Reader.u32 reader) in
  let* '(inline_offset, reader) := lift_codec (Reader.u16 reader) in
  let* '(inline_len, reader) := lift_codec (Reader.u16 reader) in
  let* '(reserved, reader) := lift_codec (Reader.u32 reader) in
  if negb (reserved =? 0) || (MAX_DOCUMENT_TOKENS <? tokens) || (tokens <? terms) || negb (payload_size_ok bytes)
     || (negb (head =? NO_BLOCK) && negb (block_valid head))
  then Err (corrupt (offset + 16)) else
  let* inline :=
    if inline_len =? 0 then if negb (inline_offset =? 0) then Err (corrupt (offset + 32)) else Ok []
    else
      let* count := owner_count self in
      if negb (inline_len =? bytes) || negb (head =? NO_BLOCK) || (inline_offset <? OWNER_HEADER + count * OWNER_BYTES)
      then Err (corrupt (offset + 32)) else
      let* used := Page.bytes self in
      ok_or (slice used inline_offset (inline_offset + inline_len)) (corrupt (offset + 32)) in
  if (bool_decide (publication = FragmentsWritten) || live) && is_empty inline && (head =? NO_BLOCK) then Err (corrupt (offset + 24)) else
  if bool_decide (publication = Allocated) && negb (head =? NO_BLOCK) then Err (corrupt (offset + 24)) else
  Ok (mkOwner (mkOwnerRef (Page.block self) slot incarnation) root publication live tokens terms head bytes inline).

(** One iteration of the loop that moves the inline offsets. *)
Definition shift_inline (self : Page.t) (slot : N) : Result Page.t :=
  let record := OWNER_HEADER + slot * OWNER_BYTES in
  let* inline_offset := Page.u16 self (record + 32) in
  if negb (inline_offset =? 0)
  then let* moved := ok_or (checked_add 16 inline_offset OWNER_BYTES) (corrupt (record + 32)) in Page.put_u16 self (record + 32) moved
  else Ok self.
(** The record that [append_owner] writes. *)
Definition write_record (w : Writer.t) (incarnation : Incarnation) (root : RootTid) (tokens terms size : N) (inline : list byte) (inline_offset : N) : Result Writer.t :=
  let* w := lift_codec (Writer.u64 w incarnation) in
  let* w := lift_codec (Writer.u32 w (Identity.block root)) in
  let* w := lift_codec (Writer.u16 w (root_offset root)) in
  let* w := lift_codec (Writer.u8 w 0) in
  let* w := lift_codec (Writer.u8 w 0) in
  let* w := lift_codec (Writer.u32 w tokens) in
  let* w := lift_codec (Writer.u32 w terms) in
  let* w := lift_codec (Writer.u32 w NO_BLOCK) in
  let* w := lift_codec (Writer.u32 w (trunc 32 size)) in
  let* w := lift_codec (Writer.u16 w (if is_empty inline then 0 else trunc 16 inline_offset)) in
  let* w := lift_codec (Writer.u16 w (trunc 16 (len inline))) in
  lift_codec (Writer.u32 w 0).
(** [Page::append_owner]; the sums of lengths are below 3 * [CAPACITY]. *)
Definition append_owner (self : Page.t) (incarnation : Incarnation) (root : RootTid) (tokens terms : N) (payload : list byte)
  : Result (option OwnerRef * Page.t) :=
  let* count := owner_count self in
  if (MAX_DOCUMENT_TOKENS <? tokens) || (tokens <? terms) || negb (payload_size_ok (len payload)) then Err InvalidDocument else
  let inline := if len payload <=? INLINE_BYTES then payload else [] in
  let new_len := Page.length_ self + OWNER_BYTES + len inline in
  if CAPACITY <? new_len then Ok (None, self) else
  let offset := OWNER_HEADER + count * OWNER_BYTES in
  let* moved := or_panic (copy_within (Page.buffer self) offset (Page.length_ self) (offset + OWNER_BYTES)) in
  let* self := foldM shift_inline (Page.set_buffer self moved) (range 0 count) in
  let inline_offset := Page.length_ self + OWNER_BYTES in
  let self := Page.set_length self new_len in
  let* region := or_panic (slice (Page.buffer self) offset (offset + OWNER_BYTES)) in
  let* w := write_record (Writer.new region) incarnation root tokens terms (len payload) inline inline_offset in
  let self := Page.write_back self offset w in
  let* filled := or_panic (copy_from (Page.buffer self) inline_offset new_len inline) in
  let* next := add_w 16 count 1 in
  let* self := Page.put_u16 (Page.set_buffer self filled) 16 next in
  Ok (Some (mkOwnerRef (Page.block self) count incarnation), self).

(** The transition table of [Page::change_owner]: the new state, liveness and head. *)
Definition transition (owner : Owner) (change : OwnerChange) : Result (N * bool * N) :=
  match change with
  | PayloadReady head =>
      if bool_decide (own_publication owner = Allocated)
      then if (is_empty (inline owner) && negb (block_valid head)) || (negb (is_empty (inline owner)) && negb (head =? NO_BLOCK))
           then Err (corrupt 24) else Ok (1, false, head)
      else Err InvalidState
  | Publish => if bool_decide (own_publication owner = FragmentsWritten) then Ok (2, true, data_head owner) else Err InvalidState
  | Remove => if bool_decide (own_publication owner = Published) && own_live owner then Ok (2, false, NO_BLOCK) else Err InvalidState
  | Abandon =>
      if bool_decide (own_publication owner = Allocated) || bool_decide (own_publication owner = FragmentsWritten)
      then Ok (3, false, NO_BLOCK) else Err InvalidState
  end.
(** [Page::change_owner] *)
Definition change_owner (self : Page.t) (ref : OwnerRef) (change : OwnerChange) (layout : HeapLayout) : Result Page.t :=
  let* o := owner self (owner_slot ref) layout in
  if negb (bool_decide (reference o = ref)) then Err (corrupt 16) else
  let* '(state, live, head) := transition o change in
  let offset := OWNER_HEADER + owner_slot ref * OWNER_BYTES in
  let* self := Page.set_byte self (offset + 14) state in
  let* self := Page.set_byte self (offset + 15) (N.b2n live) in
  Page.put_u32 self (offset + 24) head.

(** The owners of [Page::validate]: payloads follow the slots in order, to the end. *)
Definition validate_slot (self : Page.t) (layout : HeapLayout) (payload slot : N) : Result N :=
  let* o := owner self slot layout in
  if negb (is_empty (inline o)) then
    let offset := OWNER_HEADER + slot * OWNER_BYTES in
    let* at_ := Page.u16 self (offset + 32) in
    if negb (at_ =? payload) then Err (corrupt (offset + 32)) else Ok (payload + len (inline o))
  else Ok payload.
Definition validate_owners (self : Page.t) (layout : HeapLayout) : Result unit :=
  let* count := owner_count self in
  let* payload := foldM (validate_slot self layout) (OWNER_HEADER + count * OWNER_BYTES) (range 0 count) in
  if negb (payload =? Page.length_ self) then Err (corrupt payload) else Ok tt.
End OwnerPage.

(** * The slots of a page *)
Record Slot : Type := mkSlot {
  s_inc : Incarnation; s_root : RootTid; s_pub : Publication; s_live : bool;
  s_tokens : N; s_terms : N; s_head : N; s_bytes : N; s_inline : list byte }.
Definition pub_code (p : Publication) : N := match p with Allocated => 0 | FragmentsWritten => 1 | Published => 2 | Abandoned => 3 end.
Definition slot_wf (layout : HeapLayout) (s : Slot) : Prop :=
  1 <= s_inc s < 2 ^ 64 /\ root_wf layout (s_root s) /\ (s_live s = true -> s_pub s = Published) /\
  s_tokens s <= MAX_DOCUMENT_TOKENS /\ s_terms s <= s_tokens s /\ 16 <= s_bytes s <= MAX_DOCUMENT_BYTES /\
  s_head s < 2 ^ 32 /\ (s_head s = NO_BLOCK \/ block_valid (s_head s) = true) /\
  (s_inline s = [] \/ len (s_inline s) = s_bytes s /\ s_head s = NO_BLOCK) /\
  (s_pub s = FragmentsWritten \/ s_live s = true -> s_inline s <> [] \/ s_head s <> NO_BLOCK) /\
  (s_pub s = Allocated -> s_head s = NO_BLOCK).
(** What a reader gets of slot [i]. *)
Definition slot_owner (blk i : N) (s : Slot) : Owner :=
  mkOwner (mkOwnerRef blk i (s_inc s)) (s_root s) (s_pub s) (s_live s) (s_tokens s) (s_terms s) (s_head s) (s_bytes s) (s_inline s).

(** Their bytes: fixed records, then the payloads in the same order. *)
Definition slot_bytes (s : Slot) (at_ : N) : list byte :=
  le_bytes 8 (s_inc s) ++ le_bytes 4 (Identity.block (s_root s)) ++ le_bytes 2 (root_offset (s_root s)) ++ [byte_of (pub_code (s_pub s))] ++ [byte_of (N.b2n (s_live s))] ++
  le_bytes 4 (s_tokens s) ++ le_bytes 4 (s_terms s) ++ le_bytes 4 (s_head s) ++ le_bytes 4 (s_bytes s) ++
  le_bytes 2 (if is_empty (s_inline s) then 0 else at_) ++ le_bytes 2 (len (s_inline s)) ++ le_bytes 4 0.
Definition payloads (l : list Slot) : list byte := concat (s_inline <$> l).
Fixpoint records (at_ : N) (l : list Slot) : list byte :=
  match l with [] => [] | s :: l => slot_bytes s at_ ++ records (at_ + len (s_inline s)) l end.
Definition owners_head (blk next n : N) : list byte := head_bytes 2 0 blk next ++ le_bytes 2 n ++ le_bytes 2 0.
Definition slots_end (l : list Slot) : N := OWNER_HEADER + OWNER_BYTES * len l.
Definition owners_image (blk next : N) (l : list Slot) : list byte :=
  owners_head blk next (len l) ++ records (slots_end l) l ++ payloads l.
Definition owners_rep (layout : HeapLayout) (p : Page.t) (next : N) (l : list Slot) : Prop :=
  Page.kind p = PageKind.Owners /\ len (Page.buffer p) = CAPACITY /\ Page.length_ p <= CAPACITY /\
  Page.length_ p = slots_end l + len (payloads l) /\ Forall (slot_wf layout) l /\
  Page.block p < 2 ^ 32 /\ Page.block p <> NO_BLOCK /\
  next < 2 ^ 32 /\ next_ok (Page.block p) PageKind.Owners next /\ exists rest,
    Page.buffer p = owners_head (Page.block p) next (len l) ++ records (slots_end l) l ++ payloads l ++ rest.

Lemma len_slot_bytes s at_ : len (slot_bytes s at_) = 40.
Proof. done. Qed.
Lemma len_owners_head blk next n : len (owners_head blk next n) = 20.
Proof. done. Qed.
Lemma payloads_cons s l : payloads (s :: l) = s_inline s ++ payloads l.
Proof. done. Qed.
Lemma payloads_app a b : payloads (a ++ b) = payloads a ++ payloads b.
Proof. unfold payloads. by rewrite fmap_app, concat_app. Qed.
Lemma records_app at_ a b : records at_ (a ++ b) = records at_ a ++ records (at_ + len (payloads a)) b.
Proof.
  revert at_. induction a as [|s a IH]; intros at_; [cbn [app records payloads fmap list_fmap concat]; by rewrite len_nil, N.add_0_r|].
  cbn [app records]. rewrite IH, payloads_cons, len_app, <- app_assoc, N.add_assoc. done.
Qed.
Lemma len_records at_ l : len (records at_ l) = OWNER_BYTES * len l.
Proof.
  revert at_. induction l as [|s l IH]; intros at_; [done|]. cbn [records]. rewrite len_app, len_slot_bytes, IH, len_cons. unfold OWNER_BYTES. lia.
Qed.
Section Rep.
Context (layout : HeapLayout) (p : Page.t) (next : N) (l : list Slot) (Hlay : layout_wf layout) (Hrep : owners_rep layout p next l).
Lemma rep_fits : page_fits p.
Proof. split; apply Hrep. Qed.
Lemma rep_count : len l <= 203.
Proof. destruct Hrep as (_ & _ & Hc & He & _). unfold slots_end, OWNER_HEADER, OWNER_BYTES, CAPACITY in *. lia. Qed.
Lemma owner_count_ok : OwnerPage.owner_count p = Ok (len l).
Proof.
  pose proof rep_count as Hc. pose proof rep_fits as Hf. destruct Hrep as (Hk & _ & _ & He & _ & _ & _ & _ & _ & rest & Eb).
  unfold slots_end, OWNER_HEADER, OWNER_BYTES in He. unfold OwnerPage.owner_count. rewrite meta_require, !page_u16 by (done || lia). cbn [rbind].
  assert (E16 : field (Page.buffer p) 16 2 = len l).
  { rewrite Eb. change (le_val (le_bytes 2 (len l)) = len l). apply le_val_bytes_small. change (2 ^ (8 * N.of_nat 2)) with 65536. lia. }
  assert (E18 : field (Page.buffer p) 18 2 = 0) by by rewrite Eb.
  rewrite E16, E18. cbn [N.eqb negb orb]. unfold OWNER_HEADER, OWNER_BYTES. rewrite (proj2 (N.ltb_ge _ _)) by lia. done.
Qed.
End Rep.
Section Slot.
Context (layout : HeapLayout) (p : Page.t) (next : N) (pre suf : list Slot) (s : Slot) (Hlay : layout_wf layout) (Hrep : owners_rep layout p next (pre ++ s :: suf)).
Let at_ := slots_end (pre ++ s :: suf) + len (payloads pre).
Lemma slot_at_lt : at_ + len (s_inline s) <= CAPACITY.
Proof.
  destruct Hrep as (_ & _ & Hc & He & _). rewrite payloads_app, payloads_cons, !len_app in He. unfold at_. lia.
Qed.
Lemma slot_slice : slice (Page.buffer p) (OWNER_HEADER + len pre * OWNER_BYTES) (OWNER_HEADER + len pre * OWNER_BYTES + OWNER_BYTES) = Some (slot_bytes s at_).
Proof.
  destruct Hrep as (_ & _ & _ & _ & _ & _ & _ & _ & _ & rest & Eb). rewrite Eb, records_app. cbn [records]. fold at_.
  rewrite <- !app_assoc. rewrite (app_assoc (owners_head _ _ _)).
  apply slice_app; rewrite len_app, len_owners_head, len_records; [unfold OWNER_HEADER; lia|rewrite len_slot_bytes; unfold OWNER_HEADER, OWNER_BYTES; lia].
Qed.
Lemma inline_slice : slice (take (N.to_nat (Page.length_ p)) (Page.buffer p)) at_ (at_ + len (s_inline s)) = Some (s_inline s).
Proof.
  destruct Hrep as (_ & _ & _ & He & _ & _ & _ & _ & _ & rest & Eb).
  assert (Et : take (N.to_nat (Page.length_ p)) (Page.buffer p) =
    owners_head (Page.block p) next (len (pre ++ s :: suf)) ++ records (slots_end (pre ++ s :: suf)) (pre ++ s :: suf) ++ payloads (pre ++ s :: suf)).
  { rewrite Eb, !app_assoc. apply take_app_length'. rewrite <- to_nat_len. f_equal. rewrite !len_app, len_owners_head, len_records, He. unfold slots_end, OWNER_HEADER. lia. }
  rewrite Et, payloads_app, payloads_cons, !app_assoc. rewrite <- (app_assoc _ (s_inline s)). apply slice_app.
  - rewrite !len_app, len_owners_head, len_records. unfold at_, slots_end, OWNER_HEADER. lia.
  - rewrite !len_app, len_owners_head, len_records. unfold at_, slots_end, OWNER_HEADER. lia.
Qed.
End Slot.
Lemma index_split {A} (l : list A) i x : index l i = Some x <-> exists pre suf, l = pre ++ x :: suf /\ i = len pre.
Proof.
  unfold index. split.
  - intros (pre & suf & -> & Hi)%list_elem_of_split_length. exists pre, suf. split; [done|unfold len; lia].
  - intros (pre & suf & -> & ->). rewrite to_nat_len. by apply list_lookup_middle.
Qed.
Lemma index_none {A} (l : list A) i : index l i = None <-> len l <= i.
Proof. unfold index, len. rewrite lookup_ge_None. lia. Qed.
Lemma le_pow16 : 2 ^ (8 * N.of_nat 2) = 65536.
Proof. done. Qed.
(** The readers of a represented page. *)
Lemma owner_ok layout p next l slot : layout_wf layout -> owners_rep layout p next l ->
  OwnerPage.owner p slot layout = match index l slot with Some s => Ok (slot_owner (Page.block p) slot s) | None => Err (corrupt 16) end.
Proof.
  intros Hlay Hrep. unfold OwnerPage.owner. pose proof (owner_count_ok layout p next l Hrep) as Ec. rewrite Ec. cbn [rbind].
  destruct (index l slot) as [s|] eqn:Es.
  2:{ apply index_none in Es. by rewrite (proj2 (N.leb_le _ _)). }
  apply index_split in Es as (pre & suf & -> & ->). rewrite (proj2 (N.leb_gt _ _)) by (rewrite len_app, len_cons; lia).
  rewrite (slot_slice _ _ _ _ _ _ Hrep). cbn [or_panic ok_or rbind]. pose proof (slot_at_lt _ _ _ _ _ _ Hrep) as Hat.
  pose proof (inline_slice _ _ _ _ _ _ Hrep) as Hin. pose proof (rep_fits _ _ _ _ Hrep) as Hfit. pose proof (rep_count _ _ _ _ Hrep) as Hn.
  set (at_ := slots_end _ + len (payloads pre)) in *.
  assert (Hwf : slot_wf layout s). { destruct Hrep as (_ & _ & _ & _ & Hall & _). apply Forall_app in Hall as [_ Hall]. by apply list.Forall_cons in Hall as [? _]. }
  destruct Hwf as (Hi & Hr & Hlive & Htok & Hter & Hby & Hh & Hhv & Hil & Hdata & Halloc). pose proof Hr as [Hrb Hro]. unfold layout_wf in Hlay.
  assert (Hat0 : 20 <= at_) by (unfold at_, slots_end, OWNER_HEADER; lia). unfold CAPACITY in Hat.
  assert (Hsm : small (slot_bytes s at_)) by (unfold small; rewrite len_slot_bytes; unfold isize_max; lia).
  rewrite reading_new. unfold slot_bytes in Hsm |- *. 
  assert (Eid : identifier_new (s_inc s) = Ok (s_inc s)) by (apply identifier_ok; split; [lia|done]).
  assert (Ert : RootTid_new (Identity.block (s_root s)) (root_offset (s_root s)) layout = Ok (s_root s)) by by apply RootTid_new_of_wf.
  give_lifted u64_format (s_inc s); [lia|]. rewrite Eid. cbn [or_corrupt map_err rbind].
  give_lifted u32_format (Identity.block (s_root s)); [unfold Identity.u32_max in Hrb; lia|].
  give_lifted u16_format (root_offset (s_root s)); [change (2 ^ 16) with 65536; lia|]. rewrite Ert. cbn [or_corrupt map_err rbind].
  give_lifted u8_format (pub_code (s_pub s)); [by destruct (s_pub s)|].
  assert (Ep : publication_of_tag (pub_code (s_pub s)) = Some (s_pub s)) by by destruct (s_pub s). rewrite Ep. cbn [ok_or rbind].
  give_lifted u8_format (N.b2n (s_live s)); [by destruct (s_live s)|].
  set (flag := match N.b2n (s_live s) with 0 => Ok false | 1 => _ | _ => _ end : Result bool).
  assert (Ef : flag = Ok (s_live s)). { unfold flag. destruct (s_live s); [|done]. cbn [N.b2n]. by rewrite bool_decide_eq_true_2 by auto. }
  rewrite Ef. cbn [rbind]. clear flag Ef. unfold MAX_DOCUMENT_TOKENS in Htok. unfold MAX_DOCUMENT_BYTES in Hby. change (N.shiftl 8 20) with 8388608 in Hby.
  give_lifted u32_format (s_tokens s); [lia|]. give_lifted u32_format (s_terms s); [lia|]. give_lifted u32_format (s_head s); [done|].
  give_lifted u32_format (s_bytes s); [lia|]. give_lifted u16_format (if is_empty (s_inline s) then 0 else at_); [destruct (is_empty _); change (2 ^ 16) with 65536; lia|].
  give_lifted u16_format (len (s_inline s)); [change (2 ^ 16) with 65536; lia|]. rewrite <- (app_nil_r (le_bytes 4 0)). give_lifted u32_format 0; [done|].
  cbn [N.eqb negb orb]. unfold MAX_DOCUMENT_TOKENS. rewrite (proj2 (N.ltb_ge _ _) Htok), (proj2 (N.ltb_ge _ _) Hter).
  assert (Eb : payload_size_ok (s_bytes s) = true) by (apply andb_true_iff; split; apply N.leb_le; [lia|change (s_bytes s <= 8388608); lia]). rewrite Eb.
  assert (Eh : negb (s_head s =? NO_BLOCK) && negb (block_valid (s_head s)) = false).
  { destruct Hhv as [->|Hhv]; [done|]. rewrite Hhv. apply andb_false_r. }
  rewrite Eh. cbn [negb orb].
  set (ri := if len (s_inline s) =? 0 then _ else _). assert (Ei : ri = Ok (s_inline s)).
  { unfold ri. destruct (s_inline s) as [|b0 il] eqn:Ein; [done|]. rewrite <- Ein in *. rewrite (proj2 (N.eqb_neq (len (s_inline s)) 0)) by (rewrite Ein, len_cons; lia).
    assert (Enil : is_empty (s_inline s) = false) by by rewrite Ein. rewrite Enil.
    destruct Hil as [Hil|[Hil Hil2]]; [by rewrite Hil in Ein|]. rewrite Hil, Hil2, !N.eqb_refl. cbn [negb orb].
    rewrite (proj2 (N.ltb_ge _ _)) by (unfold at_, slots_end; lia). rewrite bytes_ok by done. cbn [rbind]. rewrite <- Hil, Hin. done. }
  rewrite Ei. cbn [rbind]. clear ri Ei.
  assert (E1 : (bool_decide (s_pub s = FragmentsWritten) || s_live s) && is_empty (s_inline s) && (s_head s =? NO_BLOCK) = false).
  { destruct (bool_decide_reflect (s_pub s = FragmentsWritten)), (s_live s); cbn [orb andb]; try done;
      (destruct Hdata as [Hd|Hd]; [by auto|by destruct (s_inline s)|by rewrite (proj2 (N.eqb_neq _ _)), andb_false_r by done]). }
  assert (E2 : bool_decide (s_pub s = Allocated) && negb (s_head s =? NO_BLOCK) = false).
  { destruct (bool_decide_reflect (s_pub s = Allocated)) as [Ea|]; [|done]. by rewrite (Halloc Ea). }
  rewrite E1, E2. done.
Qed.

(** ** Appending a slot *)
Lemma splice_mid {A} (a b c x : list A) i : i = len a -> len x = len b -> splice (a ++ b ++ c) i x = a ++ x ++ c.
Proof.
  intros -> Hx. unfold splice. rewrite to_nat_len, take_app_length. f_equal. f_equal. rewrite app_assoc. apply drop_app_length'. rewrite length_app. unfold len in *. lia.
Qed.
Lemma field_mid a n v c i : i = len a -> v < 2 ^ (8 * N.of_nat n) -> field (a ++ le_bytes n v ++ c) i (N.of_nat n) = v.
Proof.
  intros -> Hv. rewrite (field_slice _ _ _ (le_bytes n v)); [by apply le_val_bytes_small|]. apply slice_app; [done|]. by rewrite len_le_bytes.
Qed.
Lemma field_mid16 a v c i : i = len a -> v < 65536 -> field (a ++ le_bytes 2 v ++ c) i 2 = v.
Proof. apply (field_mid a 2). Qed.
Definition slot_front (s : Slot) : list byte :=
  le_bytes 8 (s_inc s) ++ le_bytes 4 (Identity.block (s_root s)) ++ le_bytes 2 (root_offset (s_root s)) ++ [byte_of (pub_code (s_pub s))] ++ [byte_of (N.b2n (s_live s))] ++
  le_bytes 4 (s_tokens s) ++ le_bytes 4 (s_terms s) ++ le_bytes 4 (s_head s) ++ le_bytes 4 (s_bytes s).
Definition slot_back (s : Slot) : list byte := le_bytes 2 (len (s_inline s)) ++ le_bytes 4 0.
Lemma slot_bytes_split s at_ : slot_bytes s at_ = slot_front s ++ le_bytes 2 (if is_empty (s_inline s) then 0 else at_) ++ slot_back s.
Proof. unfold slot_bytes, slot_front, slot_back. by rewrite <- !app_assoc. Qed.
Lemma shift_one q a s at_ z i : page_fits q -> Page.buffer q = a ++ slot_bytes s at_ ++ z -> len a = OWNER_HEADER + i * OWNER_BYTES ->
  len a + 40 <= Page.length_ q -> 0 < at_ < 60000 ->
  OwnerPage.shift_inline q i = Ok (Page.set_buffer q (a ++ slot_bytes s (at_ + OWNER_BYTES) ++ z)).
Proof.
  intros Hq Eb Ea Hl Hat. unfold OwnerPage.shift_inline. rewrite <- Ea. rewrite page_u16 by (done || lia). rewrite Eb, slot_bytes_split. cbn [rbind].
  rewrite <- !app_assoc, app_assoc. rewrite field_mid16; [|by rewrite len_app|destruct (is_empty _); lia].
  destruct (is_empty (s_inline s)) eqn:Ei.
  - cbn [N.eqb negb]. do 2 f_equal. destruct q as [blk k n init buf]. cbn [Page.set_buffer Page.buffer Page.block Page.kind Page.length_ Page.initialize] in *.
    f_equal. rewrite Eb, !slot_bytes_split, Ei. done.
  - rewrite (proj2 (N.eqb_neq _ _)) by lia. cbn [negb]. unfold checked_add. rewrite (proj2 (N.ltb_lt _ _)) by (change (2 ^ 16) with 65536; unfold OWNER_BYTES; lia).
    cbn [ok_or rbind]. destruct Hq as [Hb Hn]. rewrite put_u16_ok by (done || lia). do 2 f_equal. rewrite Eb, slot_bytes_split, Ei, <- !app_assoc, app_assoc.
    rewrite splice_mid by (rewrite ?len_app; done). by rewrite slot_bytes_split, Ei, <- !app_assoc.
Qed.
Lemma set_buffer_fits q b : page_fits q -> len b = len (Page.buffer q) -> page_fits (Page.set_buffer q b).
Proof. intros [Hb Hl] E. split; [by rewrite <- Hb|done]. Qed.
Lemma set_buffer_twice q b c : Page.set_buffer (Page.set_buffer q b) c = Page.set_buffer q c.
Proof. done. Qed.
Lemma shift_all l : forall q a at_ z i, page_fits q -> Page.buffer q = a ++ records at_ l ++ z -> len a = OWNER_HEADER + i * OWNER_BYTES ->
  len a + OWNER_BYTES * len l <= Page.length_ q -> 0 < at_ -> at_ + len (payloads l) < 60000 ->
  foldM OwnerPage.shift_inline q (range i (i + len l)) = Ok (Page.set_buffer q (a ++ records (at_ + OWNER_BYTES) l ++ z)).
Proof.
  induction l as [|s l IH]; intros q a at_ z i Hq Eb Ea Hl Hat Hat2.
  { rewrite range_nil by (rewrite len_nil; lia). cbn [foldM records] in *. rewrite <- Eb. by destruct q. }
  rewrite range_cons by (rewrite len_cons; lia). cbn [foldM records] in *. rewrite <- !app_assoc in Eb.
  rewrite payloads_cons, len_app in Hat2. rewrite len_cons in Hl |- *. unfold OWNER_BYTES in Hl.
  rewrite (shift_one q a s at_ (records (at_ + len (s_inline s)) l ++ z)) by (done || lia). cbn [rbind].
  replace (i + (1 + len l)) with (i + 1 + len l) by lia.
  set (q' := Page.set_buffer q _). pose proof (IH q' (a ++ slot_bytes s (at_ + OWNER_BYTES)) (at_ + len (s_inline s)) z (i + 1)) as E.
  rewrite E; clear E.
  - unfold q'. rewrite set_buffer_twice. replace (at_ + len (s_inline s) + OWNER_BYTES) with (at_ + OWNER_BYTES + len (s_inline s)) by lia. by rewrite <- !app_assoc.
  - apply set_buffer_fits; [done|]. rewrite Eb, !len_app, !len_slot_bytes. done.
  - unfold q'. cbn [Page.set_buffer Page.buffer]. by rewrite <- app_assoc.
  - rewrite len_app, len_slot_bytes, Ea. unfold OWNER_BYTES. lia.
  - rewrite len_app, len_slot_bytes. unfold q', OWNER_BYTES. cbn [Page.set_buffer Page.length_]. lia.
  - lia.
  - lia.
Qed.
Definition new_slot (inc : Incarnation) (root : RootTid) (tokens terms : N) (payload : list byte) : Slot :=
  mkSlot inc root Allocated false tokens terms NO_BLOCK (len payload) (if len payload <=? INLINE_BYTES then payload else []).
Definition document_ok (tokens terms : N) (payload : list byte) : bool :=
  negb ((MAX_DOCUMENT_TOKENS <? tokens) || (tokens <? terms) || negb (payload_size_ok (len payload))).
Lemma new_slot_wf layout inc root tokens terms payload : 1 <= inc < 2 ^ 64 -> root_wf layout root -> document_ok tokens terms payload = true ->
  slot_wf layout (new_slot inc root tokens terms payload).
Proof.
  intros Hi Hr H. unfold document_ok, payload_size_ok in H. apply negb_true_iff in H. apply orb_false_iff in H as [H H3]. apply orb_false_iff in H as [H1%N.ltb_ge H2%N.ltb_ge].
  apply negb_false_iff, andb_true_iff in H3 as [H3%N.leb_le H4%N.leb_le]. unfold slot_wf, new_slot. cbn [s_inc s_root s_pub s_live s_tokens s_terms s_head s_bytes s_inline].
  split_and!; try done; [lia|lia|by left| |by intros []].
  destruct (len payload <=? INLINE_BYTES); [right; by split|by left].
Qed.
Lemma copy_within_gap {A} (a b c : list A) k : k <= len c ->
  exists x c', copy_within (a ++ b ++ c) (len a) (len a + len b) (len a + k) = Some (a ++ x ++ b ++ c') /\ len x = k /\ len c' = len c - k.
Proof.
  intros Hk. exists (take (N.to_nat k) (b ++ c)), (drop (N.to_nat (k + len b)) (b ++ c)).
  assert (Hx : len (take (N.to_nat k) (b ++ c)) = k) by (rewrite len_take, len_app; lia).
  split; [|split; [done|rewrite len_drop, len_app; lia]]. unfold copy_within. rewrite slice_app by done.
  rewrite (proj2 (N.leb_le _ _)) by (rewrite !len_app; lia). f_equal.
  assert (Ex : b ++ c = take (N.to_nat k) (b ++ c) ++ take (length b) (drop (N.to_nat k) (b ++ c)) ++ drop (N.to_nat (k + len b)) (b ++ c)).
  { rewrite <- (take_drop (N.to_nat k) (b ++ c)) at 1. f_equal. rewrite <- (take_drop (length b) (drop _ (b ++ c))) at 1. f_equal. rewrite drop_drop. f_equal. unfold len. lia. }
  rewrite Ex at 1. rewrite app_assoc. rewrite splice_mid; [by rewrite <- app_assoc|by rewrite len_app, Hx|].
  rewrite len_take, len_drop, len_app. unfold len in *. lia.
Qed.
Lemma copy_from_over {A} (a b src : list A) : len src <= len b -> copy_from (a ++ b) (len a) (len a + len src) src = Some (a ++ src ++ drop (length src) b).
Proof.
  intros Hl. rewrite <- (take_drop (length src) b) at 1. assert (Ht : len (take (length src) b) = len src) by (rewrite len_take; unfold len in *; lia).
  unfold copy_from. rewrite slice_app by (rewrite ?Ht; done). rewrite Ht, N.eqb_refl. f_equal. by rewrite splice_mid.
Qed.
Lemma writing_all X bs : len bs = len X -> Writer.bytes (writing X bs) = bs.
Proof. intros H. unfold writing. cbn [Writer.bytes]. rewrite drop_ge, app_nil_r; [done|]. unfold len in H. lia. Qed.
Lemma write_record_ok X inc root tokens terms payload at_ : let s := new_slot inc root tokens terms payload in
  len X = 40 -> len payload <= MAX_DOCUMENT_BYTES -> at_ + len (s_inline s) < 65536 ->
  OwnerPage.write_record (Writer.new X) inc root tokens terms (len payload) (s_inline s) at_ = Ok (writing X (slot_bytes s at_)).
Proof.
  cbv zeta. intros HX Hpl Hat. assert (HsX : small X) by (unfold small; rewrite HX; unfold isize_max; lia).
  change MAX_DOCUMENT_BYTES with 8388608 in Hpl. change 65536 with (2 ^ 16) in Hat. assert (Hpl' : len payload < 2 ^ 32) by lia.
  unfold OwnerPage.write_record. rewrite !trunc_small by lia. rewrite writing_new. unfold Writer.u64, Writer.u32, Writer.u16, Writer.u8.
  repeat (rewrite put_writing; [cbn [lift_codec map_err rbind]|done|rewrite HX, ?len_app, ?len_cons, ?len_le_bytes, ?len_nil; lia]).
  unfold slot_bytes. by rewrite app_nil_l, <- !app_assoc.
Qed.
Section Append.
Context (layout : HeapLayout) (p : Page.t) (next : N) (l : list Slot) (Hlay : layout_wf layout) (Hrep : owners_rep layout p next l).
Context (inc : Incarnation) (root : RootTid) (tokens terms : N) (payload : list byte).
Context (Hinc : 1 <= inc < 2 ^ 64) (Hroot : root_wf layout root).
Let s := new_slot inc root tokens terms payload.
Let at_ := slots_end l + OWNER_BYTES + len (payloads l).
Lemma append_room : at_ + len (s_inline s) <= CAPACITY -> document_ok tokens terms payload = true ->
  exists p', OwnerPage.append_owner p inc root tokens terms payload = Ok (Some (mkOwnerRef (Page.block p) (len l) inc), p') /\
    owners_rep layout p' next (l ++ [s]) /\ Page.block p' = Page.block p.
Proof.
  intros Hfit Hdoc. pose proof (new_slot_wf layout inc root tokens terms payload Hinc Hroot Hdoc) as Hs. fold s in Hs.
  pose proof (rep_count _ _ _ _ Hrep) as Hn. pose proof (rep_fits _ _ _ _ Hrep) as Hpf.
  pose proof Hrep as (Hk & Hbuf & Hcap & Hlen & Hall & Hblk & Hne & Hnx & Hno & rest & Eb).
  unfold OwnerPage.append_owner. rewrite (owner_count_ok layout p next l Hrep). cbn [rbind].
  unfold document_ok in Hdoc. apply negb_true_iff in Hdoc. rewrite Hdoc.
  change (if len payload <=? INLINE_BYTES then payload else []) with (s_inline s). set (il := s_inline s) in *. cbv zeta.
  assert (Hnl : Page.length_ p + OWNER_BYTES + len il = at_ + len il) by (unfold at_; lia). rewrite Hnl. rewrite (proj2 (N.ltb_ge _ _)) by done.
  assert (Ho : OWNER_HEADER + len l * OWNER_BYTES = slots_end l) by (unfold slots_end; lia). rewrite Ho.
  set (hd := owners_head (Page.block p) next) in *. set (R := records (slots_end l) l) in *. set (P := payloads l) in *.
  assert (Hhd : forall n, len (hd n) = 20) by done. assert (HR : len R = OWNER_BYTES * len l) by apply len_records.
  (* the payloads move up by one record *)
  assert (HP : Page.length_ p = len (hd (len l)) + len R + len P) by (rewrite Hlen, Hhd, HR; unfold slots_end, OWNER_HEADER; lia).
  assert (Hrest : len rest = CAPACITY - Page.length_ p) by (rewrite Eb, !len_app in Hbuf; lia).
  assert (H40 : OWNER_BYTES + len il <= len rest) by (unfold at_ in Hfit; lia).
  assert (He : slots_end l = len (hd (len l) ++ R)) by (rewrite len_app, Hhd, HR; unfold slots_end, OWNER_HEADER; lia).
  destruct (copy_within_gap (hd (len l) ++ R) P rest OWNER_BYTES) as (X & rest' & Emv & HX & Hrest'); [lia|].
  assert (Em : copy_within (Page.buffer p) (slots_end l) (Page.length_ p) (slots_end l + OWNER_BYTES) = Some ((hd (len l) ++ R) ++ X ++ P ++ rest')).
  { rewrite <- Emv, Eb, He, (app_assoc (hd _)). f_equal. rewrite HP, len_app. lia. }
  rewrite Em. cbn [or_panic ok_or rbind]. clear Emv Em.
  (* every slot's payload offset moves with them *)
  set (q0 := Page.set_buffer p _). assert (Hq0 : page_fits q0).
  { apply set_buffer_fits; [done|]. rewrite !len_app, HX, Hrest', Hbuf. unfold OWNER_BYTES in *. lia. }
  pose proof (shift_all l q0 (hd (len l)) (slots_end l) (X ++ P ++ rest') 0 Hq0) as Es. rewrite N.add_0_l in Es.
  rewrite Es; [clear Es|unfold q0; by rewrite <- app_assoc|done| |unfold slots_end, OWNER_HEADER; lia|fold P; unfold at_, CAPACITY in *; lia].
  2:{ unfold q0. cbn [Page.set_buffer Page.length_]. rewrite HP, HR. lia. }
  cbn [rbind]. unfold q0. rewrite set_buffer_twice. set (R' := records (slots_end l + OWNER_BYTES) l).
  assert (HR' : len R' = OWNER_BYTES * len l) by apply len_records.
  cbn [Page.set_length Page.set_buffer Page.buffer Page.length_ Page.block Page.kind Page.initialize].
  assert (He' : slots_end l = len (hd (len l) ++ R')) by (rewrite len_app, Hhd, HR'; unfold slots_end, OWNER_HEADER; lia).
  rewrite (app_assoc (hd _)). rewrite (slice_app (hd (len l) ++ R') X) by (rewrite ?HX; unfold OWNER_BYTES; lia). cbn [or_panic ok_or rbind].
  (* the record and its payload *)
  assert (Hat0 : Page.length_ p + OWNER_BYTES = at_) by (unfold at_; lia). rewrite Hat0.
  assert (Hpl : len payload <= MAX_DOCUMENT_BYTES). { pose proof Hs as (_ & _ & _ & _ & _ & Hb & _). apply Hb. }
  pose proof (write_record_ok X inc root tokens terms payload at_ HX Hpl) as Ew. fold s il in Ew. rewrite Ew by (unfold CAPACITY in Hfit; lia). clear Ew. cbn [rbind]. remember (slot_bytes s at_) as S eqn:ES.
  assert (HS : len S = 40) by (rewrite ES; apply len_slot_bytes).
  unfold Page.write_back. cbn [Page.set_length Page.set_buffer Page.buffer Page.length_ Page.block Page.kind Page.initialize].
  rewrite (splice_mid (hd (len l) ++ R') X), writing_all by (rewrite ?writing_all; rewrite ?HX, ?HS; done).
  replace ((hd (len l) ++ R') ++ S ++ P ++ rest') with ((hd (len l) ++ R' ++ S ++ P) ++ rest') by by rewrite <- !app_assoc.
  assert (Hap : at_ = len (hd (len l) ++ R' ++ S ++ P)) by (rewrite !len_app, HS, Hhd, HR'; unfold at_, slots_end, OWNER_HEADER, OWNER_BYTES; lia).
  rewrite Hap. rewrite copy_from_over by lia. rewrite <- Hap. replace ((hd (len l) ++ R' ++ S ++ P) ++ il ++ drop (length il) rest') with (hd (len l) ++ R' ++ S ++ P ++ il ++ drop (length il) rest') by by rewrite <- !app_assoc.
  cbn [or_panic ok_or rbind]. unfold add_w, checked_add. rewrite (proj2 (N.ltb_lt _ _)) by (change (2 ^ 16) with 65536; lia). cbn [or_panic ok_or rbind].
  set (Z := R' ++ S ++ P ++ il ++ drop (length il) rest') in *.
  assert (HZ : len Z = CAPACITY - 20) by (unfold Z; rewrite !len_app, len_drop, HR', HS; unfold len in *; unfold at_, slots_end, OWNER_HEADER, OWNER_BYTES, CAPACITY in *; lia).
  rewrite put_u16_ok; [|split; [cbn [Page.set_length Page.set_buffer Page.buffer]; rewrite len_app, HZ, Hhd; done|exact Hfit]|unfold CAPACITY; lia].
  cbn [rbind Page.set_length Page.set_buffer Page.buffer Page.length_ Page.block Page.kind Page.initialize].
  eexists. split; [done|]. split; [|done]. assert (El1 : len (l ++ [s]) = len l + 1) by (rewrite len_app, len_cons, len_nil; lia).
  assert (Ee1 : slots_end (l ++ [s]) = slots_end l + OWNER_BYTES) by (unfold slots_end; rewrite El1; lia).
  assert (Ep1 : payloads (l ++ [s]) = P ++ il) by (rewrite payloads_app, payloads_cons; unfold P, il; by rewrite app_nil_r).
  unfold owners_rep. cbn [Page.set_length Page.set_buffer Page.buffer Page.length_ Page.block Page.kind Page.initialize].
  split; [done|]. split; [rewrite splice_len; rewrite len_app, HZ, Hhd; done|]. split; [exact Hfit|]. split; [rewrite Ee1, Ep1, len_app; unfold at_; lia|].
  split; [apply Forall_app; split; [done|by apply list.Forall_singleton]|]. split; [done|]. split; [done|].
  split; [done|]. split; [done|]. exists (drop (length il) rest'). rewrite El1, Ee1, Ep1, records_app. fold R' P. cbn [records]. rewrite app_nil_r.
  replace (slots_end l + OWNER_BYTES + len P) with at_ by done. rewrite <- ES. unfold Z. rewrite <- !app_assoc. done.
Qed.
End Append.
(** Every branch of [append_owner]. *)
Definition append_slot (blk : N) (l : list Slot) (inc : Incarnation) (root : RootTid) (tokens terms : N) (payload : list byte)
  : Result (option OwnerRef * list Slot) :=
  let s := new_slot inc root tokens terms payload in
  if negb (document_ok tokens terms payload) then Err InvalidDocument else
  if CAPACITY <? slots_end (l ++ [s]) + len (payloads (l ++ [s])) then Ok (None, l) else
  Ok (Some (mkOwnerRef blk (len l) inc), l ++ [s]).
Lemma append_owner_ok layout p next l inc root tokens terms payload : layout_wf layout -> owners_rep layout p next l ->
  1 <= inc < 2 ^ 64 -> root_wf layout root ->
  match append_slot (Page.block p) l inc root tokens terms payload with
  | Ok (r, l') => exists p', OwnerPage.append_owner p inc root tokens terms payload = Ok (r, p') /\ owners_rep layout p' next l' /\ Page.block p' = Page.block p
  | Err e => OwnerPage.append_owner p inc root tokens terms payload = Err e
  | Panic => False
  end.
Proof.
  intros Hlay Hrep Hi Hr. unfold append_slot. destruct (document_ok tokens terms payload) eqn:Ed; cbn [negb].
  - set (s := new_slot inc root tokens terms payload).
    assert (E : slots_end (l ++ [s]) + len (payloads (l ++ [s])) = slots_end l + OWNER_BYTES + len (payloads l) + len (s_inline s)).
    { unfold slots_end. rewrite payloads_app, payloads_cons, !len_app, len_cons. change (len (payloads [])) with 0. change (len (@nil Slot)) with 0. unfold OWNER_BYTES. lia. }
    rewrite E. destruct (N.ltb_spec CAPACITY (slots_end l + OWNER_BYTES + len (payloads l) + len (s_inline s))) as [Hfull|Hfit].
    + exists p. split; [|done]. unfold OwnerPage.append_owner. rewrite (owner_count_ok layout p next l Hrep). cbn [rbind].
      unfold document_ok in Ed. apply negb_true_iff in Ed. rewrite Ed. change (if len payload <=? INLINE_BYTES then payload else []) with (s_inline s).
      destruct Hrep as (_ & _ & _ & He & _). rewrite (proj2 (N.ltb_lt _ _)) by lia. done.
    + by apply append_room.
  - unfold OwnerPage.append_owner. rewrite (owner_count_ok layout p next l Hrep). cbn [rbind]. unfold document_ok in Ed. apply negb_false_iff in Ed. by rewrite Ed.
Qed.

(** ** Changing a slot *)
Definition with_state (s : Slot) (pub : Publication) (live : bool) (head : N) : Slot :=
  mkSlot (s_inc s) (s_root s) pub live (s_tokens s) (s_terms s) head (s_bytes s) (s_inline s).
Definition slot_step (s : Slot) (change : OwnerChange) : Result Slot :=
  match change, s_pub s with
  | PayloadReady head, Allocated =>
      if if is_empty (s_inline s) then block_valid head else head =? NO_BLOCK then Ok (with_state s FragmentsWritten false head) else Err (corrupt 24)
  | Publish, FragmentsWritten => Ok (with_state s Published true (s_head s))
  | Remove, Published => if s_live s then Ok (with_state s Published false NO_BLOCK) else Err InvalidState
  | Abandon, Allocated | Abandon, FragmentsWritten => Ok (with_state s Abandoned false NO_BLOCK)
  | _, _ => Err InvalidState
  end.
Definition change_wf (change : OwnerChange) : Prop := match change with PayloadReady head => head < 2 ^ 32 | _ => True end.
Lemma slot_step_transition blk i s change :
  OwnerPage.transition (slot_owner blk i s) change =
  match slot_step s change with Ok s' => Ok (pub_code (s_pub s'), s_live s', s_head s') | Err e => Err e | Panic => Panic end.
Proof.
  unfold OwnerPage.transition, slot_step, slot_owner. cbn [own_publication own_live inline data_head].
  destruct change; [|by destruct (s_pub s)|by destruct (s_pub s), (s_live s)|by destruct (s_pub s)].
  destruct (s_pub s); try done. rewrite bool_decide_eq_true_2 by done. destruct (is_empty (s_inline s)); cbn [andb orb negb]; [by destruct (block_valid head)|by destruct (head =? NO_BLOCK)].
Qed.
Lemma with_state_wf layout s pub live head : slot_wf layout s -> (live = true -> pub = Published) -> head < 2 ^ 32 ->
  (head = NO_BLOCK \/ block_valid head = true) -> (s_inline s = [] \/ head = NO_BLOCK) ->
  (pub = FragmentsWritten \/ live = true -> s_inline s <> [] \/ head <> NO_BLOCK) -> (pub = Allocated -> head = NO_BLOCK) ->
  slot_wf layout (with_state s pub live head).
Proof.
  intros (H1 & H2 & H3 & H4 & H5 & H6 & H7 & H8 & H9 & H10 & H11) Hl Hh Hv Hi Hd Ha. unfold slot_wf, with_state.
  cbn [s_inc s_root s_pub s_live s_tokens s_terms s_head s_bytes s_inline]. do 8 (split; [done|]). split; [|done].
  destruct H9 as [H9|[H9 _]]; [by left|]. destruct Hi as [Hi|Hi]; [by left|by right].
Qed.
Lemma slot_step_wf layout s change s' : slot_wf layout s -> change_wf change -> slot_step s change = Ok s' -> slot_wf layout s'.
Proof.
  intros Hw Hc H. pose proof Hw as (_ & _ & _ & _ & _ & _ & Hh & Hv & Hi & Hd & _). unfold slot_step in H. assert (Hn : NO_BLOCK < 2 ^ 32) by done.
  assert (Hnone : forall pub, pub <> FragmentsWritten -> slot_wf layout (with_state s pub false NO_BLOCK)).
  { intros pub Hp. apply with_state_wf; try done; [by left|by right|]. by intros [|]. }
  destruct change as [head| | |], (s_pub s) eqn:Ep; try done.
  - destruct (is_empty (s_inline s)) eqn:Ei.
    + destruct (s_inline s) as [|b0 il] eqn:Ein; [|done]. destruct (block_valid head) eqn:Eb; [|done]. apply Ok_inj in H as <-.
      apply with_state_wf; try done; [by right|by left|]. intros _. right. intros ->. done.
    + destruct (N.eqb_spec head NO_BLOCK) as [->|]; [|done]. apply Ok_inj in H as <-. apply with_state_wf; try done; [by left|by right|].
      intros _. left. by destruct (s_inline s).
  - apply Ok_inj in H as <-. apply with_state_wf; try done; [|by intros _; apply Hd; left]. destruct Hi as [Hi|[_ Hi]]; [by left|by right].
  - destruct (s_live s); [|done]. apply Ok_inj in H as <-. by apply Hnone.
  - apply Ok_inj in H as <-. by apply Hnone.
  - apply Ok_inj in H as <-. by apply Hnone.
Qed.
Lemma set_byte_mid q a b c v i : Page.buffer q = a ++ [b] ++ c -> i = len a -> Page.set_byte q i v = Ok (Page.set_buffer q (a ++ [byte_of v] ++ c)).
Proof.
  intros E ->. unfold Page.set_byte. rewrite E. rewrite (proj2 (N.ltb_lt _ _)) by (rewrite !len_app, len_cons; lia). do 2 f_equal.
  rewrite to_nat_len. by rewrite insert_app_r_alt, Nat.sub_diag by lia.
Qed.
Lemma put_u32_mid q a x c v i : len (Page.buffer q) = CAPACITY -> Page.length_ q <= CAPACITY -> Page.buffer q = a ++ x ++ c -> len x = 4 -> i = len a ->
  Page.put_u32 q i v = Ok (Page.set_buffer q (a ++ le_bytes 4 v ++ c)).
Proof.
  intros Hb Hl E Hx ->. rewrite put_u32_ok; [|by split|rewrite <- Hb, E, !len_app; lia]. rewrite E. by rewrite splice_mid.
Qed.
Definition slot_id (s : Slot) : list byte := le_bytes 8 (s_inc s) ++ le_bytes 4 (Identity.block (s_root s)) ++ le_bytes 2 (root_offset (s_root s)).
Definition slot_counts (s : Slot) : list byte := le_bytes 4 (s_tokens s) ++ le_bytes 4 (s_terms s).
Definition slot_data (s : Slot) (at_ : N) : list byte :=
  le_bytes 4 (s_bytes s) ++ le_bytes 2 (if is_empty (s_inline s) then 0 else at_) ++ le_bytes 2 (len (s_inline s)) ++ le_bytes 4 0.
Lemma slot_bytes_state s at_ : slot_bytes s at_ =
  slot_id s ++ [byte_of (pub_code (s_pub s))] ++ [byte_of (N.b2n (s_live s))] ++ slot_counts s ++ le_bytes 4 (s_head s) ++ slot_data s at_.
Proof. unfold slot_bytes, slot_id, slot_counts, slot_data. by rewrite <- !app_assoc. Qed.
Lemma records_state at_ pre s suf pub live head : let s' := with_state s pub live head in
  records at_ (pre ++ s' :: suf) = records at_ pre ++ slot_bytes s' (at_ + len (payloads pre)) ++ records (at_ + len (payloads pre) + len (s_inline s)) suf /\
  payloads (pre ++ s' :: suf) = payloads (pre ++ s :: suf) /\ len (pre ++ s' :: suf) = len (pre ++ s :: suf).
Proof. cbv zeta. rewrite records_app, !payloads_app, !len_app, !len_cons. done. Qed.
Lemma write_state layout p next pre s suf pub live head : owners_rep layout p next (pre ++ s :: suf) -> slot_wf layout (with_state s pub live head) ->
  let offset := OWNER_HEADER + len pre * OWNER_BYTES in
  exists p', (let* q := Page.set_byte p (offset + 14) (pub_code pub) in let* q := Page.set_byte q (offset + 15) (N.b2n live) in Page.put_u32 q (offset + 24) head) = Ok p' /\
    owners_rep layout p' next (pre ++ with_state s pub live head :: suf) /\ Page.block p' = Page.block p.
Proof.
  intros (Hk & Hbuf & Hcap & Hlen & Hall & Hblk & Hne & Hnx & Hno & rest & Eb) Hs'. cbv zeta.
  destruct (records_state (slots_end (pre ++ s :: suf)) pre s suf pub live head) as (Er & Ep & El). set (s' := with_state s pub live head) in *.
  rewrite records_app in Eb. cbn [records] in Eb. set (e := slots_end (pre ++ s :: suf)) in *. set (at_ := e + len (payloads pre)) in *.
  rewrite slot_bytes_state in Eb. set (hd := owners_head _ _ _) in *. set (A := hd ++ records e pre).
  assert (HA : OWNER_HEADER + len pre * OWNER_BYTES = len A) by (unfold A; rewrite len_app, len_records; change (len hd) with 20; unfold OWNER_HEADER; lia).
  rewrite HA. set (Z := records (at_ + len (s_inline s)) suf ++ payloads (pre ++ s :: suf) ++ rest). set (D := slot_data s at_) in *. set (Cn := slot_counts s) in *. set (I := slot_id s) in *.
  assert (Eb' : Page.buffer p = (A ++ I) ++ [byte_of (pub_code (s_pub s))] ++ ([byte_of (N.b2n (s_live s))] ++ Cn ++ le_bytes 4 (s_head s) ++ D ++ Z)).
  { rewrite Eb. unfold A, Z. rewrite <- !app_assoc. done. }
  rewrite (set_byte_mid _ _ _ _ (pub_code pub) _ Eb') by (rewrite len_app; done). cbn [rbind].
  rewrite (set_byte_mid _ ((A ++ I) ++ [byte_of (pub_code pub)]) (byte_of (N.b2n (s_live s))) (Cn ++ le_bytes 4 (s_head s) ++ D ++ Z) (N.b2n live));
    [|cbn [Page.set_buffer Page.buffer]; by rewrite <- !app_assoc|rewrite !len_app; change (len I) with 14; rewrite len_cons, len_nil; lia]. cbn [rbind]. rewrite set_buffer_twice.
  assert (Hb' : len (((A ++ I) ++ [byte_of (pub_code pub)]) ++ [byte_of (N.b2n live)] ++ Cn ++ le_bytes 4 (s_head s) ++ D ++ Z) = CAPACITY).
  { rewrite Eb' in Hbuf. rewrite !len_app, !len_cons in Hbuf |- *. lia. }
  rewrite (put_u32_mid _ (((A ++ I) ++ [byte_of (pub_code pub)]) ++ [byte_of (N.b2n live)] ++ Cn) (le_bytes 4 (s_head s)) (D ++ Z) head);
    [|exact Hb'|exact Hcap|cbn [Page.set_buffer Page.buffer]; by rewrite <- !app_assoc|done|rewrite !len_app; change (len I) with 14; change (len Cn) with 8; rewrite !len_cons, !len_nil; lia].
  rewrite set_buffer_twice. eexists. split; [done|]. split; [|done].
  unfold owners_rep. cbn [Page.set_buffer Page.buffer Page.length_ Page.block Page.kind]. rewrite Ep. unfold slots_end. rewrite El.
  split; [done|]. split; [rewrite Eb' in Hbuf; rewrite !len_app, !len_cons, !len_le_bytes in Hbuf |- *; lia|]. split; [done|]. split; [exact Hlen|]. split.
  { apply Forall_app in Hall as [Ha1 Ha2]. apply list.Forall_cons in Ha2 as [_ Ha2]. apply Forall_app. split; [done|]. by apply list.Forall_cons. }
  split; [done|]. split; [done|]. split; [done|]. split; [done|]. exists rest. fold (slots_end (pre ++ s :: suf)). fold e. rewrite Er. fold at_. rewrite slot_bytes_state.
  change (slot_data s' at_) with D. change (slot_counts s') with Cn. change (slot_id s') with I. unfold A, Z. rewrite <- !app_assoc. done.
Qed.
(** Every branch of [change_owner]. *)
Definition change_slot (blk : N) (l : list Slot) (ref : OwnerRef) (change : OwnerChange) : Result (list Slot) :=
  let* s := ok_or (index l (owner_slot ref)) (corrupt 16) in
  if negb (bool_decide (mkOwnerRef blk (owner_slot ref) (s_inc s) = ref)) then Err (corrupt 16) else
  let* s' := slot_step s change in
  Ok (<[N.to_nat (owner_slot ref) := s']> l).
Lemma slot_step_with s change s' : slot_step s change = Ok s' -> s' = with_state s (s_pub s') (s_live s') (s_head s').
Proof.
  unfold slot_step. intros H. destruct change, (s_pub s); try done; repeat match type of H with context [if ?b then _ else _] => destruct b; try done end;
    by apply Ok_inj in H as <-.
Qed.
Lemma change_owner_ok layout p next l ref change : layout_wf layout -> owners_rep layout p next l -> change_wf change ->
  match change_slot (Page.block p) l ref change with
  | Ok l' => exists p', OwnerPage.change_owner p ref change layout = Ok p' /\ owners_rep layout p' next l' /\ Page.block p' = Page.block p
  | Err e => OwnerPage.change_owner p ref change layout = Err e
  | Panic => False
  end.
Proof.
  intros Hlay Hrep Hc. unfold change_slot, OwnerPage.change_owner. rewrite (owner_ok layout p next l) by done.
  destruct (index l (owner_slot ref)) as [s|] eqn:Ei; cbn [ok_or rbind]; [|done]. cbn [slot_owner reference].
  destruct (bool_decide_reflect (mkOwnerRef (Page.block p) (owner_slot ref) (s_inc s) = ref)) as [Er|]; cbn [negb]; [|done].
  rewrite slot_step_transition. apply index_split in Ei as (pre & suf & -> & Hi).
  assert (Hs : slot_wf layout s). { destruct Hrep as (_ & _ & _ & _ & Hall & _). apply Forall_app in Hall as [_ Hall]. by apply list.Forall_cons in Hall as [? _]. }
  destruct (slot_step s change) as [s'|e|] eqn:Es; cbn [rbind]; [| done|].
  - pose proof (slot_step_wf layout s change s' Hs Hc Es) as Hs'. pose proof (slot_step_with s change s' Es) as Ew. rewrite Ew in Hs'.
    destruct (write_state layout p next pre s suf _ _ _ Hrep Hs') as (p' & Ep & Hrep' & Hb). rewrite Hi. exists p'. rewrite Ep. split; [done|]. split; [|done].
    rewrite <- Ew in Hrep'. rewrite to_nat_len, insert_app_r_alt, Nat.sub_diag by lia. done.
  - unfold slot_step in Es. destruct change, (s_pub s); try done; repeat match type of Es with context [if ?b then _ else _] => destruct b; try done end.
Qed.
(** ** Validation and fresh pages *)
Lemma validate_slots layout p next l : layout_wf layout -> owners_rep layout p next l -> forall pre suf, l = pre ++ suf ->
  foldM (OwnerPage.validate_slot p layout) (slots_end l + len (payloads pre)) (range (len pre) (len l)) = Ok (slots_end l + len (payloads l)).
Proof.
  intros Hlay Hrep pre suf. revert pre. induction suf as [|s suf IH]; intros pre Hl.
  { rewrite app_nil_r in Hl. subst pre. by rewrite range_nil by lia. }
  assert (Hlt : len pre < len l) by (rewrite Hl, len_app, len_cons; lia). rewrite range_cons by done. cbn [foldM].
  unfold OwnerPage.validate_slot at 1. rewrite (owner_ok layout p next l) by done.
  assert (Ei : index l (len pre) = Some s) by (apply index_split; by exists pre, suf). rewrite Ei. cbn [rbind slot_owner inline].
  assert (En : slots_end l + len (payloads pre) + len (s_inline s) = slots_end l + len (payloads (pre ++ [s]))).
  { rewrite payloads_app, payloads_cons, !len_app. change (len (payloads [])) with 0. lia. }
  assert (Elen : len pre + 1 = len (pre ++ [s])) by (rewrite len_app, len_cons, len_nil; lia).
  specialize (IH (pre ++ [s])). rewrite <- app_assoc in IH. specialize (IH Hl). rewrite <- En, <- Elen in IH.
  destruct (is_empty (s_inline s)) eqn:Ee; cbn [negb].
  - cbn [rbind]. assert (E0 : len (s_inline s) = 0) by by destruct (s_inline s). by rewrite E0, N.add_0_r in IH.
  - subst l. pose proof (slot_slice _ _ _ _ _ _ Hrep) as Hsl. pose proof (rep_fits _ _ _ _ Hrep) as Hf. pose proof (rep_count _ _ _ _ Hrep) as Hn.
    pose proof (slot_at_lt _ _ _ _ _ _ Hrep) as Hat. set (at_ := slots_end (pre ++ s :: suf) + len (payloads pre)) in *.
    pose proof Hrep as (_ & _ & Hcap & Hlen & _ & _ & _ & _ & _ & rest & Eb). rewrite records_app in Eb. cbn [records] in Eb.
    rewrite page_u16; [|done|rewrite Hlen; unfold slots_end, OWNER_HEADER, OWNER_BYTES; lia].
    assert (Ef : field (Page.buffer p) (OWNER_HEADER + len pre * OWNER_BYTES + 32) 2 = at_).
    { rewrite Eb. fold at_. rewrite slot_bytes_split, Ee. rewrite <- !app_assoc. rewrite (app_assoc (owners_head _ _ _)), (app_assoc _ (slot_front s)).
      apply field_mid16; [rewrite !len_app, len_records; change (len (slot_front s)) with 32; change (len (owners_head _ _ _)) with 20; unfold OWNER_HEADER; lia|unfold CAPACITY in Hat; lia]. }
    rewrite Ef. cbn [rbind]. rewrite N.eqb_refl. cbn [negb rbind]. exact IH.
Qed.
Lemma validate_owners_ok layout p next l : layout_wf layout -> owners_rep layout p next l -> OwnerPage.validate_owners p layout = Ok tt.
Proof.
  intros Hlay Hrep. unfold OwnerPage.validate_owners. rewrite (owner_count_ok layout p next l Hrep). cbn [rbind].
  pose proof (validate_slots layout p next l Hlay Hrep [] l eq_refl) as E. change (len (payloads [])) with 0 in E. rewrite N.add_0_r in E. change (len (@nil Slot)) with 0 in E.
  replace (OWNER_HEADER + len l * OWNER_BYTES) with (slots_end l) by (unfold slots_end; lia). rewrite E. cbn [rbind].
  destruct Hrep as (_ & _ & _ & He & _). by rewrite He, N.eqb_refl.
Qed.
Lemma owners_fresh layout block p : block < 2 ^ 32 -> Page.owners block = Ok p -> owners_rep layout p NO_BLOCK [] /\ Page.block p = block.
Proof.
  intros Hb H. unfold Page.owners in H. apply rbind_ok in H as (q & Hq & H). apply Ok_inj in H as <-. apply new_ok in Hq as (Hne & _ & tag & [= <-] & ->).
  split; [|done]. unfold owners_rep. cbn [Page.set_length Page.buffer Page.length_ Page.block Page.kind].
  split; [done|]. split; [done|]. split; [done|]. split; [done|]. split; [done|]. split; [done|]. split; [done|]. split; [done|]. split; [by left|].
  by exists (drop 20 Page.zeros).
Qed.

(** * Runs of an owner page *)
Inductive OwnerOp : Type :=
| Append (incarnation : Incarnation) (root : RootTid) (tokens terms : N) (payload : list byte)
| Change (ref : OwnerRef) (change : OwnerChange).
Definition owner_op_wf (layout : HeapLayout) (op : OwnerOp) : Prop :=
  match op with Append inc root _ _ _ => 1 <= inc < 2 ^ 64 /\ root_wf layout root | Change _ change => change_wf change end.
Definition owner_page_step (layout : HeapLayout) (p : Page.t) (op : OwnerOp) : Result (option OwnerRef * Page.t) :=
  match op with
  | Append inc root tokens terms payload => OwnerPage.append_owner p inc root tokens terms payload
  | Change ref change => let* p := OwnerPage.change_owner p ref change layout in Ok (None, p)
  end.
Definition slots_step (blk : N) (l : list Slot) (op : OwnerOp) : Result (option OwnerRef * list Slot) :=
  match op with
  | Append inc root tokens terms payload => append_slot blk l inc root tokens terms payload
  | Change ref change => let* l := change_slot blk l ref change in Ok (None, l)
  end.
Definition page_slots (layout : HeapLayout) (blk next : N) (p : Page.t) (l : list Slot) : Prop := owners_rep layout p next l /\ Page.block p = blk.
Lemma owner_sim layout blk next p l op : layout_wf layout -> page_slots layout blk next p l -> owner_op_wf layout op ->
  match slots_step blk l op with
  | Ok (r, l') => exists p', owner_page_step layout p op = Ok (r, p') /\ page_slots layout blk next p' l'
  | Err e => owner_page_step layout p op = Err e
  | Panic => False
  end.
Proof.
  intros Hlay [Hrep Hb] Hop. destruct op as [inc root tokens terms payload|ref change]; cbn [slots_step owner_page_step owner_op_wf] in *.
  - pose proof (append_owner_ok layout p next l inc root tokens terms payload Hlay Hrep (proj1 Hop) (proj2 Hop)) as H. rewrite Hb in H.
    destruct (append_slot blk l inc root tokens terms payload) as [[r l']|e|]; [|done|done]. destruct H as (p' & E & Hrep' & Hb'). exists p'. split; [done|]. by split.
  - pose proof (change_owner_ok layout p next l ref change Hlay Hrep Hop) as H. rewrite Hb in H.
    destruct (change_slot blk l ref change) as [l'|e|]; cbn [rbind]; [|by rewrite H|done]. destruct H as (p' & -> & Hrep' & Hb'). exists p'. split; [done|]. by split.
Qed.
(** ** The life of a slot *)
(** Its stage: allocated, prepared, live, dead. *)
Definition stage (pub : Publication) (live : bool) : N :=
  match pub with Allocated => 0 | FragmentsWritten => 1 | Published => if live then 2 else 3 | Abandoned => 3 end.
Definition slot_later (s s' : Slot) : Prop :=
  s_inc s' = s_inc s /\ s_root s' = s_root s /\ s_tokens s' = s_tokens s /\ s_terms s' = s_terms s /\ s_bytes s' = s_bytes s /\ s_inline s' = s_inline s /\
  stage (s_pub s) (s_live s) <= stage (s_pub s') (s_live s') /\ (stage (s_pub s) (s_live s) = stage (s_pub s') (s_live s') -> s' = s).
Definition slots_later (l l' : list Slot) : Prop := forall i s, index l i = Some s -> exists s', index l' i = Some s' /\ slot_later s s'.
#[export] Instance slot_later_po : PreOrder slot_later.
Proof.
  split; [intros s; by split_and!|]. intros a b c (A1 & A2 & A3 & A4 & A5 & A6 & A7 & A8) (B1 & B2 & B3 & B4 & B5 & B6 & B7 & B8).
  split_and!; try congruence; [lia|]. intros E. assert (E1 : b = a) by (apply A8; lia). subst b. apply B8. lia.
Qed.
#[export] Instance slots_later_po : PreOrder slots_later.
Proof.
  split; [intros l i s H; by exists s|]. intros a b c A B i s (s' & Hs & Hl)%A. destruct (B i s' Hs) as (s'' & Hs' & Hl'). exists s''. split; [done|]. by etrans.
Qed.
Lemma slot_step_stage layout s change s' : slot_wf layout s -> slot_step s change = Ok s' -> slot_later s s' /\ stage (s_pub s) (s_live s) < stage (s_pub s') (s_live s').
Proof.
  intros (_ & _ & Hl & _) H. assert (Hlt : stage (s_pub s) (s_live s) < stage (s_pub s') (s_live s') /\ s' = with_state s (s_pub s') (s_live s') (s_head s')).
  { split; [|by eapply slot_step_with]. unfold slot_step in H. destruct change, (s_pub s); try done;
      repeat match type of H with context [if ?b then _ else _] => destruct b eqn:?; try done end; apply Ok_inj in H as <-; done. }
  destruct Hlt as [Hlt Hw]. split; [|done]. rewrite Hw. unfold slot_later, with_state. cbn. rewrite Hw in Hlt. cbn in Hlt. split_and!; try done; lia.
Qed.
Lemma slots_step_later blk layout l op r l' : Forall (slot_wf layout) l -> slots_step blk l op = Ok (r, l') -> slots_later l l'.
Proof.
  intros Hall H. destruct op as [inc root tokens terms payload|ref change]; cbn [slots_step] in H.
  - unfold append_slot in H. destruct (negb _); [done|]. destruct (_ <? _); apply Ok_inj in H; apply pair_equal_spec in H as [_ <-]; [done|].
    intros i s Hi. exists s. split; [|done]. unfold index in *. by apply lookup_app_l_Some.
  - unfold change_slot in H. apply rbind_ok in H as (l1 & H & E). apply Ok_inj in E. apply pair_equal_spec in E as [_ <-].
    apply rbind_ok in H as (s & Hs & H). destruct (index l (owner_slot ref)) as [s0|] eqn:Ei; [|done]. apply Ok_inj in Hs as ->.
    destruct (negb _); [done|]. apply rbind_ok in H as (s' & Hst & H). apply Ok_inj in H as <-.
    assert (Hw : slot_wf layout s). { rewrite list.Forall_forall in Hall. apply Hall. by eapply list_elem_of_lookup_2. }
    apply (slot_step_stage layout) in Hst as [Hst _]; [|done]. intros i t Hi. destruct (decide (i = owner_slot ref)) as [->|Hne].
    + rewrite Ei in Hi. injection Hi as <-. exists s'. split; [|done]. unfold index in *. apply list_lookup_insert_eq. by eapply lookup_lt_Some.
    + exists t. split; [|done]. unfold index in *. rewrite list_lookup_insert_ne; [done|lia].
Qed.
Lemma slots_step_wf layout blk l op r l' : Forall (slot_wf layout) l -> owner_op_wf layout op -> slots_step blk l op = Ok (r, l') -> Forall (slot_wf layout) l'.
Proof.
  intros Hall Hop H. destruct op as [inc root tokens terms payload|ref change]; cbn [slots_step owner_op_wf] in *.
  - unfold append_slot in H. destruct (document_ok tokens terms payload) eqn:Ed; cbn [negb] in H; [|done].
    destruct (_ <? _); apply Ok_inj in H; apply pair_equal_spec in H as [_ <-]; [done|]. apply Forall_app. split; [done|]. apply list.Forall_singleton. destruct Hop. by apply new_slot_wf.
  - unfold change_slot in H. apply rbind_ok in H as (l1 & H & E). apply Ok_inj in E. apply pair_equal_spec in E as [_ <-].
    apply rbind_ok in H as (s & Hs & H). destruct (index l (owner_slot ref)) as [s0|] eqn:Ei; [|done]. apply Ok_inj in Hs as ->.
    destruct (negb _); [done|]. apply rbind_ok in H as (s' & Hst & H). apply Ok_inj in H as <-. apply Forall_insert; [done|].
    eapply slot_step_wf; [|done|done]. rewrite list.Forall_forall in Hall. apply Hall. by eapply list_elem_of_lookup_2.
Qed.
Lemma slots_run_later layout blk ops l : Forall (slot_wf layout) l -> Forall (owner_op_wf layout) ops -> slots_later l (snd (run (slots_step blk) l ops)).
Proof.
  intros Hl Ho. apply (run_invariant (slots_step blk) (Forall (slot_wf layout)) (owner_op_wf layout) slots_later ops l); [|done|done].
  intros a op r b Ha Hw H. split; [by eapply slots_step_wf|by eapply slots_step_later].
Qed.

(** C9: an owner page is the list of its slots: after any run of appends and changes on a
    fresh page, the page gave the results and errors of the abstract list, nothing
    panicked, its readers return exactly the slots of the list and it validates. *)
Theorem owner_page_run layout blk ops : layout_wf layout -> blk < 2 ^ 32 -> block_valid blk = true -> Forall (owner_op_wf layout) ops ->
  exists p0 p, Page.owners blk = Ok p0 /\ run (owner_page_step layout) p0 ops = (fst (run (slots_step blk) [] ops), p) /\
    (let l := snd (run (slots_step blk) [] ops) in
     OwnerPage.owner_count p = Ok (len l) /\ OwnerPage.validate_owners p layout = Ok tt /\
     forall i, OwnerPage.owner p i layout = match index l i with Some s => Ok (slot_owner blk i s) | None => Err (corrupt 16) end) /\
    Forall safe (fst (run (slots_step blk) [] ops)).
Proof.
  intros Hlay Hb Hv Hops. apply andb_true_iff in Hv as [Hv1 Hv2]. apply negb_true_iff, N.eqb_neq in Hv1, Hv2.
  destruct (Page.owners blk) as [p0|e|] eqn:E0; [| |].
  2,3: exfalso; unfold Page.owners in E0; assert (En : Page.new blk PageKind.Owners = Ok (Page.mk blk PageKind.Owners PAGE_HEADER false (splice Page.zeros 0 (head_bytes 2 0 blk NO_BLOCK))))
    by (apply new_ok; split; [done|]; split; [done|]; by exists 2); rewrite En in E0; discriminate E0.
  apply (owners_fresh layout) in E0 as H0; [|done]. exists p0, (snd (run (owner_page_step layout) p0 ops)). split; [done|].
  destruct (run_refine (owner_page_step layout) (slots_step blk) (page_slots layout blk NO_BLOCK) (owner_op_wf layout)) with (ops := ops) (p := p0) (m := @nil Slot)
    as (Er & [Hrep Hblk] & Hsafe); [intros; by apply owner_sim|done|done|].
  rewrite Er in Hsafe. rewrite <- Er at 1. split; [apply surjective_pairing|]. split; [|done]. cbv zeta. split; [by eapply owner_count_ok|].
  split; [by eapply validate_owners_ok|]. intros i. by rewrite (owner_ok layout _ NO_BLOCK _ i Hlay Hrep), Hblk.
Qed.
(** C12: slots are stable and one-way: whatever operations follow, an owner that a page
    holds keeps its reference, root, counts and payload, its stage never falls, and a
    removed or abandoned owner never changes again - so no owner is published twice. *)
Theorem owner_lifecycle layout p next l ops i o : layout_wf layout -> owners_rep layout p next l -> Forall (owner_op_wf layout) ops ->
  OwnerPage.owner p i layout = Ok o ->
  exists o', OwnerPage.owner (snd (run (owner_page_step layout) p ops)) i layout = Ok o' /\
    reference o' = reference o /\ own_root o' = own_root o /\ own_tokens o' = own_tokens o /\ own_terms o' = own_terms o /\
    data_bytes o' = data_bytes o /\ inline o' = inline o /\
    stage (own_publication o) (own_live o) <= stage (own_publication o') (own_live o') /\
    (stage (own_publication o) (own_live o) = 3 -> o' = o).
Proof.
  intros Hlay Hrep Hops Ho. rewrite (owner_ok layout p next l) in Ho by done. destruct (index l i) as [s|] eqn:Ei; [|done]. apply Ok_inj in Ho as <-.
  destruct (run_refine (owner_page_step layout) (slots_step (Page.block p)) (page_slots layout (Page.block p) next) (owner_op_wf layout)) with (ops := ops) (p := p) (m := l)
    as (_ & [Hrep' Hblk] & _); [intros; by apply owner_sim|done|done|].
  assert (Hall : Forall (slot_wf layout) l) by apply Hrep.
  destruct (slots_run_later layout (Page.block p) ops l Hall Hops i s Ei) as (s' & Ei' & L1 & L2 & L3 & L4 & L5 & L6 & L7 & L8).
  exists (slot_owner (Page.block p) i s'). rewrite (owner_ok layout _ next _ i Hlay Hrep'), Ei', Hblk. split; [done|]. unfold slot_owner.
  cbn [reference own_root own_publication own_live own_tokens own_terms data_bytes inline]. rewrite L1. split_and!; try done.
  intros E3. rewrite L8; [done|]. assert (stage (s_pub s') (s_live s') <= 3) by (by destruct (s_pub s'), (s_live s')). lia.
Qed.

(** * Validation is exact *)
Lemma slice_join {A} (l x y : list A) a b c : slice l a b = Some x -> slice l b c = Some y -> slice l a c = Some (x ++ y).
Proof.
  intros (Hab & Hb & ->)%slice_ok (Hbc & Hc & ->)%slice_ok. apply slice_ok. split_and!; [lia|done|].
  replace (N.to_nat (c - a)) with (N.to_nat (b - a) + N.to_nat (c - b))%nat by lia. rewrite <- take_take_drop, drop_drop. do 3 f_equal. lia.
Qed.
Lemma slice_empty {A} (l : list A) a : a <= len l -> slice l a a = Some [].
Proof. intros H. apply slice_ok. split_and!; [lia|done|]. by rewrite N.sub_diag. Qed.
Lemma slice_bounds {A} (l x : list A) a b : slice l a b = Some x -> a <= b /\ b <= len l /\ len x = b - a.
Proof. intros (H1 & H2 & ->)%slice_ok. split_and!; [done|done|]. len_lia. Qed.
Lemma publication_of_tag_ok t p : publication_of_tag t = Some p -> t = pub_code p.
Proof. unfold publication_of_tag. intros H. repeat case_match; try done; by injection H as <-. Qed.
(** What a successful read of an owner says of the bytes. *)
Definition slot_at (p : Page.t) (i : N) (s : Slot) (at_ : N) : Prop :=
  slice (Page.buffer p) (OWNER_HEADER + i * OWNER_BYTES) (OWNER_HEADER + i * OWNER_BYTES + OWNER_BYTES) = Some (slot_bytes s at_) /\ at_ < 65536 /\
  slice (take (N.to_nat (Page.length_ p)) (Page.buffer p)) at_ (at_ + len (s_inline s)) = Some (s_inline s).
Lemma owner_inv layout p i o : layout_wf layout -> page_fits p -> OwnerPage.owner p i layout = Ok o ->
  exists s at_, o = slot_owner (Page.block p) i s /\ slot_wf layout s /\ (s_inline s <> [] -> slot_at p i s at_) /\
    (s_inline s = [] -> forall a, slice (Page.buffer p) (OWNER_HEADER + i * OWNER_BYTES) (OWNER_HEADER + i * OWNER_BYTES + OWNER_BYTES) = Some (slot_bytes s a)).
Proof.
  intros Hlay Hp H. unfold OwnerPage.owner in H. apply rbind_ok in H as (n & Hn & H). destruct (N.leb_spec n i); [done|].
  apply rbind_ok in H as (rec & Hrec & H). apply or_panic_ok in Hrec. pose proof (slice_bounds _ _ _ _ Hrec) as (_ & _ & Hl).
  assert (Hrl : len rec = 40) by (rewrite Hl; unfold OWNER_BYTES; lia). clear Hl. assert (Hsm : small rec) by (unfold small; rewrite Hrl; unfold isize_max; lia).
  rewrite reading_new in H.
  next_lifted H u64_format as inc t1 Hinc. apply rbind_ok in H as (inc' & Hi & H). unfold or_corrupt in Hi. apply map_err_ok, identifier_ok in Hi as [Hi0 ->].
  next_lifted H u32_format as rb t2 Hrb. next_lifted H u16_format as ro t3 Hro. apply rbind_ok in H as (root & Hroot & H). apply map_err_ok in Hroot.
  pose proof (RootTid_new_wf _ _ _ _ Hrb Hroot) as Hrwf. apply RootTid_new_ok in Hroot as (Er & _ & _).
  next_lifted H u8_format as tag t4 Htag. apply rbind_ok in H as (pub & Hpub & H). destruct (publication_of_tag tag) as [pub'|] eqn:Ept; [|done]. apply Ok_inj in Hpub as ->. apply publication_of_tag_ok in Ept as ->.
  next_lifted H u8_format as flag t5 Hflag. apply rbind_ok in H as (live & Hlive & H).
  assert (Hlv : flag = N.b2n live /\ (live = true -> pub = Published)).
  { destruct flag as [|[f|f|]]; [apply Ok_inj in Hlive as <-; by split|done|done|]. destruct (bool_decide_reflect (pub = Published)); [|done]. apply Ok_inj in Hlive as <-. by split. }
  destruct Hlv as [-> Hlp]. clear Hlive.
  next_lifted H u32_format as tokens t6 Htok. next_lifted H u32_format as terms t7 Hter. next_lifted H u32_format as head t8 Hhead. next_lifted H u32_format as bytes t9 Hbytes.
  next_lifted H u16_format as io t10 Hio. next_lifted H u16_format as il t11 Hil. next_lifted H u32_format as z t12 Hz.
  destruct (negb (z =? 0) || (MAX_DOCUMENT_TOKENS <? tokens) || (tokens <? terms) || negb (payload_size_ok bytes) || (negb (head =? NO_BLOCK) && negb (block_valid head))) eqn:Ec; [done|].
  apply orb_false_iff in Ec as [Ec Ehd]. apply orb_false_iff in Ec as [Ec Epl]. apply orb_false_iff in Ec as [Ec Ett]. apply orb_false_iff in Ec as [Ez Etok].
  apply negb_false_iff, N.eqb_eq in Ez. subst z. apply N.ltb_ge in Etok, Ett. apply negb_false_iff, andb_true_iff in Epl as [Ep1%N.leb_le Ep2%N.leb_le].
  apply rbind_ok in H as (inl & Hinl & H).
  assert (t12 = []) as -> by (apply len_zero; rewrite !len_app, !len_le_bytes, !len_cons, !len_nil in Hrl; lia). rewrite app_nil_r in Hrec. clear Hsm Hrl.
  destruct ((bool_decide (pub = FragmentsWritten) || live) && is_empty inl && (head =? NO_BLOCK)) eqn:Ed; [done|].
  destruct (bool_decide (pub = Allocated) && negb (head =? NO_BLOCK)) eqn:Ea; [done|]. apply Ok_inj in H as <-.
  assert (Hd : pub = FragmentsWritten \/ live = true -> inl <> [] \/ head <> NO_BLOCK).
  { intros Hx. destruct inl as [|b0 inl]; [right|by left]. intros ->. destruct Hx as [->| ->]; [done|]. by rewrite orb_true_r in Ed. }
  assert (Ha : pub = Allocated -> head = NO_BLOCK). { intros ->. destruct (N.eqb_spec head NO_BLOCK); [done|]. by rewrite bool_decide_eq_true_2 in Ea. }
  assert (Hh : head = NO_BLOCK \/ block_valid head = true) by (destruct (N.eqb_spec head NO_BLOCK); [by left|right; by destruct (block_valid head)]).
  assert (Hw : (inl = [] \/ len inl = bytes /\ head = NO_BLOCK) -> slot_wf layout (mkSlot inc root pub live tokens terms head bytes inl)).
  { intros Hx. unfold slot_wf. cbn [s_inc s_root s_pub s_live s_tokens s_terms s_head s_bytes s_inline]. split; [lia|]. split; [done|]. split; [done|]. split; [done|]. split; [done|]. split; [lia|]. by split. }
  destruct (N.eqb_spec il 0) as [->|Hil0].
  - destruct (N.eqb_spec io 0) as [->|]; cbn [negb] in Hinl; [|done]. apply Ok_inj in Hinl as <-. exists (mkSlot inc root pub live tokens terms head bytes []), 0.
    split; [done|]. split; [apply Hw; by left|]. split; [done|]. intros _ a. rewrite Hrec, Er. done.
  - rewrite Hn in Hinl. cbn [rbind] in Hinl. destruct (negb (il =? bytes) || negb (head =? NO_BLOCK) || (io <? OWNER_HEADER + n * OWNER_BYTES)) eqn:Ei; [done|].
    apply orb_false_iff in Ei as [Ei _]. apply orb_false_iff in Ei as [Ei1%negb_false_iff%N.eqb_eq Ei2%negb_false_iff%N.eqb_eq].
    rewrite bytes_ok in Hinl by done. cbn [rbind] in Hinl. destruct (slice _ io (io + il)) as [x|] eqn:Es; [|done]. apply Ok_inj in Hinl as ->.
    pose proof (slice_bounds _ _ _ _ Es) as (_ & _ & Hx). assert (Hx' : len inl = il) by lia.
    exists (mkSlot inc root pub live tokens terms head bytes inl), io. split; [done|]. split; [apply Hw; right; split; [lia|done]|].
    assert (Hne : inl <> []) by (intros ->; rewrite len_nil in Hx'; lia). split; [|done]. intros _. unfold slot_at. cbn [s_inline]. rewrite Hx'. split; [|split; [exact Hio|exact Es]].
    rewrite Hrec, Er. unfold slot_bytes. cbn [s_inc s_root s_pub s_live s_tokens s_terms s_head s_bytes s_inline Identity.block root_offset]. rewrite Hx'.
    destruct inl; [done|]. done.
Qed.
(** The loop of the validation, forwards: the slots read so far. *)
Lemma validate_loop layout p n : layout_wf layout -> page_fits p -> OWNER_HEADER + n * OWNER_BYTES <= Page.length_ p ->
  forall k payload, k <= n ->
  foldM (OwnerPage.validate_slot p layout) (OWNER_HEADER + n * OWNER_BYTES) (range 0 k) = Ok payload ->
  exists l, len l = k /\ Forall (slot_wf layout) l /\ payload = OWNER_HEADER + n * OWNER_BYTES + len (payloads l) /\
    slice (Page.buffer p) OWNER_HEADER (OWNER_HEADER + k * OWNER_BYTES) = Some (records (OWNER_HEADER + n * OWNER_BYTES) l) /\
    slice (take (N.to_nat (Page.length_ p)) (Page.buffer p)) (OWNER_HEADER + n * OWNER_BYTES) payload = Some (payloads l).
Proof.
  intros Hlay Hp He k. pose proof Hp as [Hb Hl]. pose proof (used_len p Hp) as Hu. induction k as [|k IH] using N.peano_ind; intros payload Hk H.
  { rewrite range_nil in H by done. apply Ok_inj in H as <-. exists []. split_and!; try done; [by rewrite N.add_0_r| |].
    - rewrite N.mul_0_l, N.add_0_r. apply slice_empty. rewrite Hb. unfold OWNER_HEADER, CAPACITY. lia.
    - apply slice_empty. by rewrite Hu. }
  replace (N.succ k) with (k + 1) in H |- * by lia. rewrite range_snoc, foldM_app in H by lia. apply rbind_ok in H as (pl & H1 & H).
  destruct (IH pl) as (l & Hll & Hwf & Hpl & Hrec & Hpay); [lia|done|]. cbn [foldM] in H. apply rbind_ok in H as (pl' & H & E). apply Ok_inj in E as ->.
  unfold OwnerPage.validate_slot in H. apply rbind_ok in H as (o & Ho & H). apply (owner_inv layout) in Ho as (s & at_ & -> & Hs & Hne & Hem); [|done|done].
  cbn [slot_owner inline] in H. set (e := OWNER_HEADER + n * OWNER_BYTES) in *.
  assert (Hstep : pl <= payload /\ payload = pl + len (s_inline s) /\
    slice (Page.buffer p) (OWNER_HEADER + k * OWNER_BYTES) (OWNER_HEADER + k * OWNER_BYTES + OWNER_BYTES) = Some (slot_bytes s pl) /\
    slice (take (N.to_nat (Page.length_ p)) (Page.buffer p)) pl payload = Some (s_inline s)).
  { destruct (is_empty (s_inline s)) eqn:Ee; cbn [negb] in H.
    - apply Ok_inj in H as <-. assert (En : s_inline s = []) by by destruct (s_inline s). rewrite En. split; [lia|]. split; [rewrite len_nil; lia|]. split; [by apply Hem|].
      apply slice_empty. apply slice_bounds in Hpay. lia.
    - destruct Hne as (Hsl & Hat & Hin); [by intros E; rewrite E in Ee|]. pose proof Hsl as (_ & Hlt & _)%slice_ok. rewrite Hb in Hlt.
      apply rbind_ok in H as (v & Hv & H). destruct (N.eqb_spec v pl) as [->|]; cbn [negb] in H; [|done]. apply Ok_inj in H as <-.
      rewrite page_u16 in Hv; [|done|unfold OWNER_HEADER, OWNER_BYTES in *; lia]. apply Ok_inj in Hv.
      assert (Ef : field (Page.buffer p) (OWNER_HEADER + k * OWNER_BYTES + 32) 2 = at_).
      { apply slice_ok in Hsl as (_ & _ & Hsl). rewrite <- (take_drop (N.to_nat (OWNER_HEADER + k * OWNER_BYTES)) (Page.buffer p)).
        rewrite <- (take_drop 40 (drop _ (Page.buffer p))). replace (N.to_nat (OWNER_HEADER + k * OWNER_BYTES + OWNER_BYTES - (OWNER_HEADER + k * OWNER_BYTES))) with 40%nat in Hsl by (unfold OWNER_BYTES; lia).
        rewrite <- Hsl, slot_bytes_split, Ee, <- !app_assoc, app_assoc. apply field_mid16; [|done].
        rewrite len_app, len_take. change (len (slot_front s)) with 32. unfold OWNER_BYTES in *. lia. }
      rewrite Ef in Hv. subst at_. split; [lia|]. split; [done|]. by split. }
  destruct Hstep as (_ & Hp' & Hsl & Hin). exists (l ++ [s]). rewrite len_app, len_cons, len_nil. split; [lia|]. split; [apply Forall_app; split; [done|by apply list.Forall_singleton]|].
  rewrite payloads_app, payloads_cons, records_app. cbn [records payloads fmap list_fmap concat]. rewrite !app_nil_r. split; [rewrite len_app; lia|].
  rewrite <- Hpl. split; [|by eapply slice_join]. eapply slice_join; [exact Hrec|]. rewrite <- Hsl. f_equal. lia.
Qed.
Lemma slice_of_take {A} (l x : list A) n a b : slice (take n l) a b = Some x -> slice l a b = Some x.
Proof.
  intros (Hab & Hb & ->)%slice_ok. rewrite len_take in Hb. apply slice_ok. split_and!; [done|lia|].
  rewrite skipn_firstn_comm, take_take. f_equal. unfold len in *. lia.
Qed.
Lemma slice_field bs off (n : nat) : off + N.of_nat n <= len bs -> slice bs off (off + N.of_nat n) = Some (le_bytes n (field bs off (N.of_nat n))).
Proof.
  intros H. apply slice_ok. split_and!; [lia|done|]. unfold field. rewrite !Nat2N.id. replace (N.to_nat (off + N.of_nat n - off)) with n by lia.
  assert (Hn : length (take n (drop (N.to_nat off) bs)) = n) by (rewrite length_take, length_drop; unfold len in H; lia). rewrite <- Hn at 1. by rewrite le_bytes_val.
Qed.
Lemma validated_owners layout p : layout_wf layout -> page_sound p -> Page.kind p = PageKind.Owners ->
  (OwnerPage.validate_owners p layout = Ok tt <-> exists next l, owners_rep layout p next l).
Proof.
  intros Hlay (Hp & H16 & Hne & Hh) Hk. split; [|by intros (next & l & ?); eapply validate_owners_ok].
  unfold OwnerPage.validate_owners. intros H. apply rbind_ok in H as (n & Hn & H). apply rbind_ok in H as (pl & Hloop & H).
  destruct (N.eqb_spec pl (Page.length_ p)) as [->|]; cbn [negb] in H; [|done]. clear H.
  unfold OwnerPage.owner_count in Hn. rewrite meta_require in Hn by done. cbn [rbind] in Hn. apply rbind_ok in Hn as (c & Hc & Hn). apply rbind_ok in Hn as (z & Hz & Hn).
  destruct (N.eqb_spec z 0) as [->|]; cbn [negb orb] in Hn; [|done]. destruct (N.ltb_spec (Page.length_ p) (OWNER_HEADER + c * OWNER_BYTES)) as [|He]; [done|]. apply Ok_inj in Hn as ->.
  pose proof Hp as [Hb Hl]. assert (He' := He). unfold OWNER_HEADER in He'. rewrite page_u16 in Hc, Hz by (done || lia). apply Ok_inj in Hc, Hz.
  destruct (validate_loop layout p n Hlay Hp He n _ ltac:(lia) Hloop) as (l & Hll & Hwf & Hlen & Hrec & Hpay). apply slice_of_take in Hpay.
  destruct Hh as (tag & flags & next & tl & Eb & _ & Hblk & Hnx & Ht & Hfl & Hno). rewrite Hk in *. apply kind_tags in Ht. injection Ht as <-.
  assert (flags = 0) as -> by (destruct Hfl as [?|[_ ?]]; done).
  exists next, l. unfold owners_rep. assert (Hse : OWNER_HEADER + n * OWNER_BYTES = slots_end l) by (unfold slots_end; lia). rewrite Hse in *.
  split; [done|]. split; [done|]. split; [done|]. split; [done|]. split; [done|]. split; [done|]. split; [done|]. split; [done|]. split; [done|].
  exists (drop (N.to_nat (Page.length_ p)) (Page.buffer p)).
  assert (S0 : slice (Page.buffer p) 0 16 = Some (head_bytes 2 0 (Page.block p) next)).
  { rewrite Eb. apply (slice_app [] (head_bytes 2 0 (Page.block p) next) tl); done. }
  pose proof (slice_field (Page.buffer p) 16 2 ltac:(rewrite Hb; unfold CAPACITY; lia)) as S1. pose proof (slice_field (Page.buffer p) 18 2 ltac:(rewrite Hb; unfold CAPACITY; lia)) as S2.
  change (N.of_nat 2) with 2 in S1, S2. rewrite Hc in S1. rewrite Hz in S2. change (16 + 2) with 18 in S1. change (18 + 2) with 20 in S2.
  pose proof (slice_join _ _ _ _ _ _ (slice_join _ _ _ _ _ _ (slice_join _ _ _ _ _ _ (slice_join _ _ _ _ _ _ S0 S1) S2) Hrec) Hpay) as S.
  apply slice_ok in S as (_ & _ & S). rewrite N.sub_0_r in S. rewrite <- (take_drop (N.to_nat (Page.length_ p)) (Page.buffer p)) at 1. change (drop (N.to_nat 0) (Page.buffer p)) with (Page.buffer p) in S.
  rewrite <- S, Hll. unfold owners_head. by rewrite <- !app_assoc.
Qed.
(** C22: the validation of an owner page accepts exactly the images of lists of well-formed
    slots: fixed records in order, their payloads packed behind them to the last byte. *)
Theorem owners_validate_exact layout p : layout_wf layout -> page_sound p -> Page.kind p = PageKind.Owners ->
  (OwnerPage.validate_owners p layout = Ok tt <-> exists next l, owners_rep layout p next l).
Proof. apply validated_owners. Qed.

(** ** Instances *)
Definition sample_layout : HeapLayout := mkHeapLayout 291.
Definition sample_payload : list byte := replicate 20 (byte_of 7).
Definition sample_owner_ops : list OwnerOp :=
  [Append 1 (mkRootTid 3 4) 2 1 sample_payload; Change (mkOwnerRef 5 0 1) (PayloadReady NO_BLOCK); Change (mkOwnerRef 5 0 1) Publish;
   Append 2 (mkRootTid 3 5) 1 1 sample_payload; Change (mkOwnerRef 5 0 1) Remove; Change (mkOwnerRef 5 0 1) Publish; Change (mkOwnerRef 5 1 9) Abandon].
Lemma sample_layout_wf : layout_wf sample_layout.
Proof. unfold layout_wf. cbn. lia. Qed.
Lemma sample_owner_ops_wf : Forall (owner_op_wf sample_layout) sample_owner_ops.
Proof. repeat constructor; cbn; unfold Identity.u32_max; lia. Qed.
Lemma owner_page_run_witness :
  (exists p0 p, Page.owners 5 = Ok p0 /\ snd (run (owner_page_step sample_layout) p0 sample_owner_ops) = p /\ OwnerPage.owner_count p = Ok 2 /\
     OwnerPage.owner p 0 sample_layout = Ok (mkOwner (mkOwnerRef 5 0 1) (mkRootTid 3 4) Published false 2 1 NO_BLOCK 20 sample_payload)) /\
  fst (run (slots_step 5) [] sample_owner_ops) =
    [Ok (Some (mkOwnerRef 5 0 1)); Ok None; Ok None; Ok (Some (mkOwnerRef 5 1 2)); Ok None; Err InvalidState; Err (corrupt 16)].
Proof.
  split; [|vm_compute; reflexivity].
  destruct (owner_page_run sample_layout 5 sample_owner_ops sample_layout_wf) as (p0 & p & H0 & Hr & (Hc & _ & Ho) & _); [reflexivity|reflexivity|exact sample_owner_ops_wf|].
  exists p0, p. split; [exact H0|]. split; [exact (f_equal snd Hr)|]. split; [exact Hc|exact (Ho 0)].
Defined.
(** A page with one live owner. *)
Definition sample_slot : Slot := mkSlot 1 (mkRootTid 3 4) Published true 2 1 NO_BLOCK 20 sample_payload.
Definition sample_page : Page.t :=
  Page.mk 5 PageKind.Owners 80 false (owners_image 5 NO_BLOCK [sample_slot] ++ replicate (N.to_nat 8088) (byte_of 0)).
Lemma sample_page_rep : owners_rep sample_layout sample_page NO_BLOCK [sample_slot].
Proof.
  assert (Hw : slot_wf sample_layout sample_slot).
  { unfold slot_wf. cbn. unfold root_wf, Identity.u32_max, MAX_DOCUMENT_TOKENS. cbn. change MAX_DOCUMENT_BYTES with 8388608.
    split; [lia|]. split; [lia|]. split; [done|]. split; [lia|]. split; [lia|]. split; [lia|]. split; [done|]. split; [by left|]. split; [right; by split|]. split; [by left|done]. }
  unfold owners_rep. split; [done|]. split; [by vm_compute|]. split; [by vm_compute|]. split; [by vm_compute|]. split; [by apply list.Forall_singleton|].
  split; [done|]. split; [done|]. split; [done|]. split; [by left|]. exists (replicate (N.to_nat 8088) (byte_of 0)). unfold sample_page. cbn [Page.buffer Page.block]. unfold owners_image. by rewrite <- !app_assoc.
Qed.
Lemma owner_lifecycle_witness :
  exists o', OwnerPage.owner (snd (run (owner_page_step sample_layout) sample_page [Change (mkOwnerRef 5 0 1) Remove; Change (mkOwnerRef 5 0 1) Publish])) 0 sample_layout = Ok o' /\
    reference o' = mkOwnerRef 5 0 1.
Proof.
  destruct (owner_lifecycle sample_layout sample_page NO_BLOCK [sample_slot] [Change (mkOwnerRef 5 0 1) Remove; Change (mkOwnerRef 5 0 1) Publish] 0
    (slot_owner 5 0 sample_slot) sample_layout_wf sample_page_rep) as (o' & Ho & Hr & _).
  - repeat constructor.
  - rewrite (owner_ok sample_layout sample_page NO_BLOCK [sample_slot] 0 sample_layout_wf sample_page_rep). reflexivity.
  - exists o'. split; [exact Ho|exact Hr].
Defined.
Lemma owners_validate_exact_witness : OwnerPage.validate_owners sample_page sample_layout = Ok tt.
Proof.
  apply (owners_validate_exact sample_layout sample_page sample_layout_wf); [|reflexivity|exists NO_BLOCK, [sample_slot]; exact sample_page_rep].
  split; [apply (rep_fits _ _ _ _ sample_page_rep)|]. split; [discriminate|]. split; [discriminate|]. exists 2, 0, NO_BLOCK. eexists.
  split; [unfold sample_page, owners_image, owners_head; cbn [Page.buffer Page.block]; rewrite <- !app_assoc; reflexivity|].
  split; [reflexivity|]. split; [reflexivity|]. split; [reflexivity|]. split; [reflexivity|]. split; [left; reflexivity|left; reflexivity].
Defined.
