(* ===== verification/PagePostings.v ===== *)
(** Posting pages: [src/crates/pin-core/src/mutable/page.rs], the open, sealed and direct
    posting pages, their builder and their decoder, and the fragments of large payloads.

    A posting page lists references to owners in ascending order. An open page stores
    them at full width and is appended to; a sealed page stores ascending deltas as
    varints; a direct page adds a table of root coordinates. The theorems: the decoder
    returns exactly the lists that the encodings stand for, the builder's pages read
    back as what was pushed, and the loop over a page ends for any image. *)
From S2P Require Export PageOwners.

(** [write_delta] *)
Definition write_delta (w : Writer.t) (owner : OwnerRef) (previous : option OwnerRef) : Result Writer.t :=
  let* '(page, slot, incarnation) :=
    match previous with
    | Some previous =>
        if (owner_page owner <? owner_page previous)
           || ((owner_page owner =? owner_page previous) && (owner_slot owner <=? owner_slot previous))
           || (owner_incarnation owner <=? owner_incarnation previous)
        then Err InvalidState else
        let* page := sub_w (owner_page owner) (owner_page previous) in
        let* slot := if owner_page owner =? owner_page previous then sub_w (owner_slot owner) (owner_slot previous) else Ok (owner_slot owner) in
        let* incarnation := sub_w (owner_incarnation owner) (owner_incarnation previous) in
        Ok (page, slot, incarnation)
    | None => Ok (owner_page owner, owner_slot owner, owner_incarnation owner)
    end in
  if negb (block_valid (owner_page owner)) || (OWNER_SLOTS <=? owner_slot owner) then Err InvalidState else
  let* w := lift_codec (Writer.var_u32 w page) in
  let* w := lift_codec (Writer.var_u32 w slot) in
  lift_codec (Writer.var_u64 w incarnation).
(** [read_delta] *)
Definition read_delta (reader : Reader.t) (previous : option OwnerRef) : Result (OwnerRef * Reader.t) :=
  let start := Reader.offset reader in
  let* '(page_delta, reader) := lift_codec (Reader.var_u32 reader) in
  let* '(slot_delta, reader) := lift_codec (Reader.var_u32 reader) in
  let* '(incarnation_delta, reader) := lift_codec (Reader.var_u64 reader) in
  let* '(page, slot, incarnation) :=
    match previous with
    | Some previous =>
        if (incarnation_delta =? 0) || ((page_delta =? 0) && (slot_delta =? 0)) then Err (corrupt start) else
        let* page := ok_or (checked_add 32 (owner_page previous) page_delta) (corrupt start) in
        let* slot := if page_delta =? 0 then ok_or (checked_add 32 (owner_slot previous) slot_delta) (corrupt start) else Ok slot_delta in
        let* incarnation := ok_or (checked_add 64 (owner_incarnation previous) incarnation_delta) (corrupt start) in
        Ok (page, slot, incarnation)
    | None => Ok (page_delta, slot_delta, incarnation_delta)
    end in
  if negb (block_valid page) || (OWNER_SLOTS <=? slot) then Err (corrupt start) else
  let* incarnation := or_corrupt start (identifier_new incarnation) in
  Ok (mkOwnerRef page (trunc 16 slot) incarnation, reader).

(** [Postings]: its iterator. *)
Module Postings.
Record t : Type := mk { reader : Reader.t; compressed : bool; remaining : N; previous : option OwnerRef; failed : bool }.
(** [Iterator::next] *)
Definition next (self : t) : option (Result OwnerRef) * t :=
  if failed self then (None, self) else
  if remaining self =? 0 then
    if Reader.remaining (reader self) =? 0 then (None, self)
    else (Some (Err (corrupt (Reader.offset (reader self)))), mk (reader self) (compressed self) (remaining self) (previous self) true)
  else
    let result := if compressed self then read_delta (reader self) (previous self) else OwnerRef_read (reader self) in
    match result with
    | Ok (owner, r) => (Some (Ok owner), mk r (compressed self) (remaining self - 1) (Some owner) false)
    | Err e => (Some (Err e), mk (reader self) (compressed self) (remaining self - 1) (previous self) true)
    | Panic => (Some Panic, self)
    end.
(** [for reference in postings { let reference = reference?; state = f(state, reference)?; }];
    one step more than the count notices bytes that are left over. *)
Fixpoint each_fuel {S} (f : S -> OwnerRef -> Result S) (fuel : nat) (s : S) (self : t) : Result S :=
  match fuel with
  | O => Ok s
  | S fuel =>
      match next self with
      | (None, _) => Ok s
      | (Some r, self) => let* owner := r in let* s := f s owner in each_fuel f fuel s self
      end
  end.
Definition each {S} (f : S -> OwnerRef -> Result S) (s : S) (self : t) : Result S := each_fuel f (N.to_nat (remaining self) + 2) s self.
End Postings.

Module PostingPage.
Definition is_posting (k : PageKind.t) : bool :=
  match k with PageKind.Postings | PageKind.SealedPostings | PageKind.DirectPostings => true | _ => false end.
(** [Page::posting_term] *)
Definition posting_term (self : Page.t) : Result TermRef :=
  if negb (is_posting (Page.kind self)) then Err (corrupt 6) else
  let* _ :=
    if Page.is_kind self PageKind.Postings then
      let* reserved := Page.u16 self 22 in if negb (reserved =? 0) then Err (corrupt 22) else Ok tt
    else Ok tt in
  let* page := Page.u32 self 16 in
  let* offset := Page.u16 self 20 in
  Ok (mkTermRef page offset).
(** [Page::posting_start] *)
Definition posting_start (self : Page.t) : Result N :=
  if Page.is_kind self PageKind.DirectPostings
  then let* count := Page.u16 self 22 in Ok (DIRECT_HEADER + count * 8)
  else Ok (POSTING_HEADER + 0).
(** [Page::posting_refs] *)
Definition posting_refs (self : Page.t) : Result Postings.t :=
  let* _ := posting_term self in
  let compressed := negb (Page.is_kind self PageKind.Postings) in
  let* count :=
    if compressed then
      let* count := Page.u16 self 22 in
      if count =? 0 then Err (corrupt 22) else
      let* room := sub_w (Page.length_ self) POSTING_HEADER in
      if room / 3 <? count then Err (corrupt 22) else Ok count
    else
      let* room := sub_w (Page.length_ self) POSTING_HEADER in
      if negb (room mod 16 =? 0) then Err (corrupt POSTING_HEADER) else Ok (trunc 16 (room / 16)) in
  let* start := posting_start self in
  let* used := Page.bytes self in
  let* rest := ok_or (slice_from used start) (corrupt 22) in
  Ok (Postings.mk (Reader.new rest) compressed count None false).
(** [Page::posting_records], [posting_count] *)
Definition posting_records (self : Page.t) : Result N := let* p := posting_refs self in Ok (Postings.remaining p).
Definition posting_count (self : Page.t) : Result N := let* _ := Page.require self PageKind.DirectPostings in Page.u16 self 22.
(** [for reference in self.posting_refs()? { let reference = reference?; ... }] *)
Definition references (self : Page.t) : Result (list OwnerRef) :=
  let* p := posting_refs self in Postings.each (fun refs r => Ok (refs ++ [r])) [] p.

(** [Page::direct_endpoints] *)
Definition direct_endpoints (self : Page.t) : Result (OwnerRef * OwnerRef) :=
  let* _ := Page.require self PageKind.DirectPostings in
  let* used := Page.bytes self in
  let* first := ok_or (slice used POSTING_HEADER (POSTING_HEADER + 16)) (corrupt POSTING_HEADER) in
  let* last := ok_or (slice used (POSTING_HEADER + 16) DIRECT_HEADER) (corrupt (POSTING_HEADER + 16)) in
  let* '(first, _) := OwnerRef_read (Reader.new first) in
  let* '(last, _) := OwnerRef_read (Reader.new last) in
  Ok (first, last).
(** [Page::direct_root] *)
Definition direct_root (self : Page.t) (slot : N) (layout : HeapLayout) : Result (option RootTid) :=
  let* _ := Page.require self PageKind.DirectPostings in
  let* count := Page.u16 self 22 in
  if count <=? slot then Err (corrupt 22) else
  let offset := DIRECT_HEADER + slot * 8 in
  let* used := Page.bytes self in
  let* bytes := ok_or (slice used offset (offset + 8)) (corrupt offset) in
  let* '(b, reader) := lift_codec (Reader.u32 (Reader.new bytes)) in
  let* '(o, reader) := lift_codec (Reader.u16 reader) in
  let* '(live, reader) := lift_codec (Reader.u8 reader) in
  if 1 <? live then Err (corrupt POSTING_HEADER) else
  let* '(reserved, reader) := lift_codec (Reader.u8 reader) in
  if negb (reserved =? 0) then Err (corrupt POSTING_HEADER) else
  let* root := or_corrupt POSTING_HEADER (RootTid_new b o layout) in
  Ok (if live =? 1 then Some root else None).
(** [Page::remove_direct_root] *)
Definition remove_direct_root (self : Page.t) (slot : N) (layout : HeapLayout) : Result Page.t :=
  let* _ := direct_root self slot layout in
  Page.set_byte self (DIRECT_HEADER + slot * 8 + 6) 0.
(** [Page::append_posting] *)
Definition append_posting (self : Page.t) (owner : OwnerRef) : Result (bool * Page.t) :=
  let* _ := Page.require self PageKind.Postings in
  if CAPACITY <? Page.length_ self + 16 then Ok (false, self) else
  let* region := or_panic (slice (Page.buffer self) (Page.length_ self) (Page.length_ self + 16)) in
  let* w := OwnerRef_write owner (Writer.new region) in
  Ok (true, Page.set_length (Page.write_back self (Page.length_ self) w) (Page.length_ self + 16)).
(** [Page::fragment_data] *)
Definition fragment_data (self : Page.t) : Result (OwnerRef * N * list byte) :=
  let* _ := Page.require self PageKind.Fragment in
  let* used := Page.bytes self in
  let* rest := or_panic (slice_from used PAGE_HEADER) in
  let* '(owner, reader) := OwnerRef_read (Reader.new rest) in
  let* '(offset, reader) := lift_codec (Reader.u32 reader) in
  let* '(payload, _) := lift_codec (Reader.take reader (Reader.remaining reader)) in
  Ok (owner, offset, payload).

(** The order that [Page::validate] checks. *)
Definition ref_before (a b : OwnerRef) : bool :=
  ((owner_page a <? owner_page b) || ((owner_page a =? owner_page b) && (owner_slot a <? owner_slot b)))
  && (owner_incarnation a <? owner_incarnation b).
Definition check_reference (state : option OwnerRef * option OwnerRef) (r : OwnerRef) : Result (option OwnerRef * option OwnerRef) :=
  let '(first, previous) := state in
  if match previous with Some q => negb (ref_before q r) | None => false end then Err (corrupt POSTING_HEADER)
  else Ok (match first with Some _ => first | None => Some r end, Some r).
(** The posting pages of [Page::validate]. *)
Definition validate_postings (self : Page.t) (layout : HeapLayout) : Result unit :=
  let* term := posting_term self in
  if negb (block_valid (term_page term)) || (term_offset term <? PAGE_HEADER) then Err (corrupt 16) else
  let* p := posting_refs self in
  let* '(first, previous) := Postings.each check_reference (None, None) p in
  if negb (Page.is_kind self PageKind.DirectPostings) then Ok tt else
  let* '(header_first, header_last) := direct_endpoints self in
  if negb (bool_decide (first = Some header_first)) || negb (bool_decide (previous = Some header_last)) then Err (corrupt POSTING_HEADER) else
  let* count := Page.u16 self 22 in
  foldM (fun _ slot => let* _ := direct_root self slot layout in Ok tt) tt (range 0 count).
(** The fragments of [Page::validate]. *)
Definition validate_fragment (self : Page.t) : Result unit :=
  let* '(_, offset, payload) := fragment_data self in
  if (len payload =? 0) || match checked_add usize offset (len payload) with Some e => MAX_DOCUMENT_BYTES <? e | None => true end
  then Err (corrupt 32) else Ok tt.
End PostingPage.

(** [SealedBuilder] *)
Module SealedBuilder.
Record t : Type := mk { page : Page.t; previous : option OwnerRef; count : N }.
Definition set_kind (p : Page.t) (k : PageKind.t) : Page.t := Page.mk (Page.block p) k (Page.length_ p) (Page.initialize p) (Page.buffer p).
(** [SealedBuilder::new], [new_direct] *)
Definition new (block : N) (term : TermRef) : Result t :=
  let* page := Page.postings block term in
  let* page := Page.set_byte (set_kind page PageKind.SealedPostings) 6 7 in
  Ok (mk page None 0).
Definition new_direct (block : N) (term : TermRef) : Result t :=
  let* builder := new block term in
  let* page := Page.set_byte (set_kind (page builder) PageKind.DirectPostings) 6 9 in
  Ok (mk (Page.set_length page DIRECT_HEADER) (previous builder) (count builder)).
(** The delta in its scratch array. *)
Definition delta (self : t) (owner : OwnerRef) : Result (list byte) :=
  let* w := write_delta (Writer.new (replicate 20 (byte_of 0))) owner (previous self) in
  or_panic (slice (Writer.bytes w) 0 (Writer.written w)).
(** [self.page.bytes[self.page.len..self.page.len + len].copy_from_slice(..)] *)
Definition put_tail (self : Page.t) (bytes : list byte) : Result Page.t :=
  let* buffer := or_panic (copy_from (Page.buffer self) (Page.length_ self) (Page.length_ self + len bytes) bytes) in
  Ok (Page.set_length (Page.set_buffer self buffer) (Page.length_ self + len bytes)).
(** [SealedBuilder::push] *)
Definition push (self : t) (owner : OwnerRef) : Result (bool * t) :=
  let* _ := Page.require (page self) PageKind.SealedPostings in
  let* bytes := delta self owner in
  if CAPACITY <? Page.length_ (page self) + len bytes then Ok (false, self) else
  let* p := put_tail (page self) bytes in
  let* count := add_w 16 (count self) 1 in
  let* p := Page.put_u16 p 22 count in
  Ok (true, mk p (Some owner) count).
(** An owner in full at a fixed place of the header. *)
Definition put_owner (self : Page.t) (a b : N) (owner : OwnerRef) : Result Page.t :=
  let* region := or_panic (slice (Page.buffer self) a b) in
  let* w := OwnerRef_write owner (Writer.new region) in
  Ok (Page.write_back self a w).
(** The coordinates of a root. *)
Definition put_coordinate (self : Page.t) (start : N) (root : RootTid) : Result Page.t :=
  let* region := or_panic (slice (Page.buffer self) start (start + 8)) in
  let* w := lift_codec (Writer.u32 (Writer.new region) (Identity.block root)) in
  let* w := lift_codec (Writer.u16 w (root_offset root)) in
  let* w := lift_codec (Writer.u8 w 1) in
  let* w := lift_codec (Writer.u8 w 0) in
  Ok (Page.write_back self start w).
(** [SealedBuilder::push_direct] *)
Definition push_direct (self : t) (owner : OwnerRef) (root : RootTid) : Result (bool * t) :=
  let* _ := Page.require (page self) PageKind.DirectPostings in
  let* bytes := delta self owner in
  if CAPACITY <? Page.length_ (page self) + len bytes + 8 then Ok (false, self) else
  let start := DIRECT_HEADER + count self * 8 in
  let* moved := or_panic (copy_within (Page.buffer (page self)) start (Page.length_ (page self)) (start + 8)) in
  let* p := put_coordinate (Page.set_buffer (page self) moved) start root in
  let* p := put_tail (Page.set_length p (Page.length_ p + 8)) bytes in
  let* p := if count self =? 0 then put_owner p POSTING_HEADER (POSTING_HEADER + 16) owner else Ok p in
  let* p := put_owner p (POSTING_HEADER + 16) DIRECT_HEADER owner in
  let* count := add_w 16 (count self) 1 in
  let* p := Page.put_u16 p 22 count in
  Ok (true, mk p (Some owner) count).
(** [SealedBuilder::finish] *)
Definition finish (self : t) : Result Page.t := if count self =? 0 then Err InvalidState else Ok (page self).
End SealedBuilder.

(** [OwnedPostings]: the same decoder, resumed at a byte offset. *)
Module OwnedPostings.
Record t : Type := mk { page : Page.t; offset : N; compressed : bool; remaining : N; previous : option OwnerRef; failed : bool }.
Definition new (page : Page.t) : Result t :=
  let* postings := PostingPage.posting_refs page in
  let* offset := PostingPage.posting_start page in
  Ok (mk page offset (Postings.compressed postings) (Postings.remaining postings) None false).
(** [OwnedPostings::current_direct] *)
Definition current_direct (self : t) (layout : HeapLayout) : Result (option (option RootTid)) :=
  if negb (Page.is_kind (page self) PageKind.DirectPostings) then Ok None else
  let* count := Page.u16 (page self) 22 in
  let* consumed := add_w 16 (remaining self) 1 in
  let* slot := ok_or (checked_sub count consumed) InvalidState in
  let* root := PostingPage.direct_root (page self) slot layout in
  Ok (Some root).
(** [Iterator::next] *)
Definition next (self : t) : res Error (option (Result OwnerRef) * t) :=
  if failed self then Ok (None, self) else
  let* used := Page.bytes (page self) in
  match slice_from used (offset self) with
  | None => Ok (Some (Err InvalidState), mk (page self) (offset self) (compressed self) (remaining self) (previous self) true)
  | Some bytes =>
      let '(value, p) := Postings.next (Postings.mk (Reader.new bytes) (compressed self) (remaining self) (previous self) false) in
      Ok (value, mk (page self) (offset self + Reader.offset (Postings.reader p)) (compressed self) (Postings.remaining p) (Postings.previous p) (Postings.failed p))
  end.
End OwnedPostings.

(** * Deltas *)
Definition after (previous : option OwnerRef) (o : OwnerRef) : Prop := match previous with Some q => PostingPage.ref_before q o = true | None => True end.
Definition opt_wf (previous : option OwnerRef) : Prop := match previous with Some q => ref_wf q | None => True end.
Definition delta_fields (previous : option OwnerRef) (o : OwnerRef) : N * N * N :=
  match previous with
  | Some q => (owner_page o - owner_page q, if owner_page o =? owner_page q then owner_slot o - owner_slot q else owner_slot o, owner_incarnation o - owner_incarnation q)
  | None => (owner_page o, owner_slot o, owner_incarnation o)
  end.
Definition delta_bytes (previous : option OwnerRef) (o : OwnerRef) : list byte :=
  let '(page, slot, incarnation) := delta_fields previous o in varint 5 page ++ varint 5 slot ++ varint 10 incarnation.
Lemma ref_before_spec a b : PostingPage.ref_before a b = true <->
  (owner_page a < owner_page b \/ owner_page a = owner_page b /\ owner_slot a < owner_slot b) /\ owner_incarnation a < owner_incarnation b.
Proof.
  unfold PostingPage.ref_before. destruct (N.ltb_spec (owner_page a) (owner_page b)), (N.eqb_spec (owner_page a) (owner_page b)), (N.ltb_spec (owner_slot a) (owner_slot b)),
    (N.ltb_spec (owner_incarnation a) (owner_incarnation b)); cbn; intuition (lia || done).
Qed.
Lemma slots_lt n : n < OWNER_SLOTS -> n < 203.
Proof. done. Qed.
Lemma delta_fields_wf previous o p s i : opt_wf previous -> ref_wf o -> after previous o -> delta_fields previous o = (p, s, i) ->
  p < 2 ^ 32 /\ s < 203 /\ i < 2 ^ 64 /\ i <> 0.
Proof.
  intros Hq (Hb & Hp & Hs%slots_lt & Hi) Ha E. destruct previous as [q|]; cbn in E.
  - destruct Hq as (_ & Hqp & Hqs & Hqi). apply ref_before_spec in Ha. injection E as <- <- <-. split_and!; try lia. destruct (_ =? _); lia.
  - injection E as <- <- <-. split_and!; lia.
Qed.
Lemma read_delta_exact previous pre s o r' : opt_wf previous -> small (pre ++ s) ->
  read_delta (reading pre s) previous = Ok (o, r') <->
  ref_wf o /\ after previous o /\ exists tl, s = delta_bytes previous o ++ tl /\ r' = reading (pre ++ delta_bytes previous o) tl.
Proof.
  intros Hq Hs. unfold read_delta. split.
  - intros H. next_lifted H var_u32_format as pd t1 Hpd. next_lifted H var_u32_format as sd t2 Hsd. next_lifted H var_u64_format as id t3 Hid.
    apply rbind_ok in H as ([[pg sl] inc] & Hf & H). destruct (block_valid pg) eqn:Eb; cbn [negb orb] in H; [|done].
    destruct (N.leb_spec OWNER_SLOTS sl) as [|Hsl]; [done|]. apply rbind_ok in H as (inc' & Hi & H). apply map_err_ok, identifier_ok in Hi as [Hi ->].
    apply Ok_inj in H. apply pair_equal_spec in H as [<- <-]. pose proof (slots_lt sl Hsl). rewrite (trunc_small 16 sl) by lia.
    assert (Hgoal : ref_wf (mkOwnerRef pg sl inc) /\ after previous (mkOwnerRef pg sl inc) /\ delta_fields previous (mkOwnerRef pg sl inc) = (pd, sd, id)).
    { unfold ref_wf. cbn [owner_page owner_slot owner_incarnation]. destruct previous as [q|].
      - destruct ((id =? 0) || ((pd =? 0) && (sd =? 0))) eqn:Ez; [done|]. apply orb_false_iff in Ez as [Ez1%N.eqb_neq Ez2].
        apply rbind_ok in Hf as (pg' & Hpg & Hf). apply rbind_ok in Hf as (sl' & Hsl' & Hf). apply rbind_ok in Hf as (inc' & Hinc & Hf). apply Ok_inj in Hf. injection Hf as -> -> ->.
        unfold checked_add in Hpg, Hinc. destruct (N.ltb_spec (owner_page q + pd) (2 ^ 32)); [|done]. apply Ok_inj in Hpg as <-.
        destruct (N.ltb_spec (owner_incarnation q + id) (2 ^ 64)); [|done]. apply Ok_inj in Hinc as <-.
        destruct (N.eqb_spec pd 0) as [->|Hpd0].
        + unfold checked_add in Hsl'. destruct (N.ltb_spec (owner_slot q + sd) (2 ^ 32)); [|done]. apply Ok_inj in Hsl' as <-. cbn [andb] in Ez2. apply N.eqb_neq in Ez2.
          split; [split_and!; (done || lia)|]. split; [apply ref_before_spec; cbn; lia|]. unfold delta_fields. cbn [owner_page owner_slot owner_incarnation].
          rewrite N.add_0_r, N.eqb_refl. repeat f_equal; lia.
        + apply Ok_inj in Hsl' as <-. split; [split_and!; (done || lia)|]. split; [apply ref_before_spec; cbn; lia|]. unfold delta_fields. cbn [owner_page owner_slot owner_incarnation].
          rewrite (proj2 (N.eqb_neq _ _)) by lia. repeat f_equal; lia.
      - apply Ok_inj in Hf. injection Hf as -> -> ->. split; [split_and!; (done || lia)|]. by split. }
    destruct Hgoal as (G1 & G2 & G3). split; [done|]. split; [done|]. exists t3. unfold delta_bytes. rewrite G3. by rewrite <- !app_assoc.
  - intros (Hw & Ha & tl & -> & ->). unfold delta_bytes in *. destruct (delta_fields previous o) as [[pd sd] id] eqn:Ef.
    destruct (delta_fields_wf previous o pd sd id Hq Hw Ha Ef) as (Hpd & Hsd & Hid & Hid0). rewrite <- !app_assoc in *.
    give_lifted var_u32_format pd; [done|]. give_lifted var_u32_format sd; [lia|]. give_lifted var_u64_format id; [done|].
    destruct Hw as (Hb & Hp & Hsl & Hi). pose proof (slots_lt _ Hsl) as Hsl'.
    set (m := match previous with Some _ => _ | None => _ end). assert (Em : m = Ok (owner_page o, owner_slot o, owner_incarnation o)).
    { unfold m. destruct previous as [q|]; cbn in Ef; injection Ef as <- <- <-; [|done]. destruct Hq as (_ & Hqp & Hqs%slots_lt & Hqi). apply ref_before_spec in Ha.
      rewrite (proj2 (N.eqb_neq (owner_incarnation o - owner_incarnation q) 0)) by lia. cbn [orb]. unfold checked_add.
      replace (owner_page q + (owner_page o - owner_page q)) with (owner_page o) by lia. replace (owner_incarnation q + (owner_incarnation o - owner_incarnation q)) with (owner_incarnation o) by lia.
      rewrite (proj2 (N.ltb_lt _ _)) by done. rewrite (proj2 (N.ltb_lt (owner_incarnation o) _)) by lia.
      destruct (N.eqb_spec (owner_page o) (owner_page q)) as [Ep|Ep].
      - rewrite (proj2 (N.eqb_eq (owner_page o - owner_page q) 0)) by lia. rewrite (proj2 (N.eqb_neq (owner_slot o - owner_slot q) 0)) by lia. cbn [andb ok_or rbind].
        replace (owner_slot q + (owner_slot o - owner_slot q)) with (owner_slot o) by lia. by rewrite (proj2 (N.ltb_lt (owner_slot o) _)) by lia.
      - by rewrite (proj2 (N.eqb_neq (owner_page o - owner_page q) 0)) by lia. }
    rewrite Em. cbn [rbind]. rewrite Hb, (proj2 (N.leb_gt _ _)) by done. cbn [negb orb].
    assert (E : identifier_new (owner_incarnation o) = Ok (owner_incarnation o)) by (apply identifier_ok; split; [lia|done]). rewrite E. cbn [or_corrupt map_err rbind].
    rewrite (trunc_small 16) by lia. rewrite <- !app_assoc. by destruct o.
Qed.
Lemma delta_len previous o : opt_wf previous -> ref_wf o -> after previous o -> 3 <= len (delta_bytes previous o) <= 20.
Proof.
  intros Hq Hw Ha. unfold delta_bytes. destruct (delta_fields previous o) as [[p s] i] eqn:E. destruct (delta_fields_wf previous o p s i Hq Hw Ha E) as (Hp & Hs & Hi & _).
  pose proof (varint_len 5 p ltac:(lia)) as L1. pose proof (varint_len 5 s ltac:(lia)) as L2. pose proof (varint_len 10 i ltac:(lia)) as L3.
  change (7 * N.of_nat 5) with 35 in *. change (7 * N.of_nat 10) with 70 in *. rewrite !len_app.
  assert (2 ^ 32 < 2 ^ 35) by done. assert (2 ^ 64 < 2 ^ 70) by done. assert (203 < 2 ^ 35) by done. lia.
Qed.
(** [write_delta] writes the delta of an owner that follows, and refuses any other. *)
Definition admissible (previous : option OwnerRef) (o : OwnerRef) : bool :=
  match previous with Some q => PostingPage.ref_before q o | None => true end && block_valid (owner_page o) && (owner_slot o <? OWNER_SLOTS).
Lemma write_delta_ok out pre previous o : opt_wf previous -> ref_wf o -> after previous o -> small out -> len pre + 20 <= len out ->
  write_delta (writing out pre) o previous = Ok (writing out (pre ++ delta_bytes previous o)).
Proof.
  intros Hq Hw Ha Hs Hl. pose proof (delta_len previous o Hq Hw Ha) as Hd. unfold write_delta, delta_bytes in *.
  destruct (delta_fields previous o) as [[p s] i] eqn:E. destruct (delta_fields_wf previous o p s i Hq Hw Ha E) as (Hp & Hsl & Hi & _).
  set (m := match previous with Some _ => _ | None => _ end). assert (Em : m = Ok (p, s, i)).
  { unfold m. destruct previous as [q|]; cbn in E; injection E as <- <- <-; [|done]. apply ref_before_spec in Ha as [Ha1 Ha2].
    assert (Ec : (owner_page o <? owner_page q) || ((owner_page o =? owner_page q) && (owner_slot o <=? owner_slot q)) || (owner_incarnation o <=? owner_incarnation q) = false).
    { rewrite (proj2 (N.ltb_ge _ _)), (proj2 (N.leb_gt (owner_incarnation o) _)) by lia. rewrite orb_false_r. cbn [orb].
      destruct (N.eqb_spec (owner_page o) (owner_page q)); [|done]. rewrite (proj2 (N.leb_gt _ _)) by lia. done. }
    rewrite Ec. unfold sub_w, checked_sub. rewrite (proj2 (N.leb_le (owner_page q) _)), (proj2 (N.leb_le (owner_incarnation q) _)) by lia. cbn [or_panic rbind].
    destruct (N.eqb_spec (owner_page o) (owner_page q)); [|done]. by rewrite (proj2 (N.leb_le (owner_slot q) _)) by lia. }
  rewrite Em. cbn [rbind]. destruct Hw as (Hb & _ & Hsw & _). rewrite Hb, (proj2 (N.leb_gt _ _)) by done. cbn [negb orb].
  rewrite !len_app in Hd. rewrite var_u32_writing by (done || lia). cbn [lift_codec map_err rbind].
  rewrite var_u32_writing by (done || (rewrite ?len_app; lia)). cbn [lift_codec map_err rbind].
  rewrite var_u64_writing by (done || (rewrite ?len_app; lia)). cbn [lift_codec map_err]. by rewrite <- !app_assoc.
Qed.
Lemma write_delta_refuses w previous o : admissible previous o = false -> write_delta w o previous = Err InvalidState.
Proof.
  intros H. unfold write_delta. destruct ((match previous with Some q => PostingPage.ref_before q o | None => true end)) eqn:Ea.
  - assert (Hbad : negb (block_valid (owner_page o)) || (OWNER_SLOTS <=? owner_slot o) = true).
    { unfold admissible in H. rewrite Ea in H. cbn [andb] in H. destruct (block_valid (owner_page o)); [|done]. cbn [andb] in H. apply N.ltb_ge in H. cbn. by apply N.leb_le. }
    destruct previous as [q|]; [|cbn [rbind]; by rewrite Hbad]. apply ref_before_spec in Ea as [Ea1 Ea2].
    destruct (_ || _ || _); [done|]. unfold sub_w, checked_sub. rewrite (proj2 (N.leb_le (owner_page q) _)), (proj2 (N.leb_le (owner_incarnation q) _)) by lia. cbn [or_panic rbind].
    destruct (N.eqb_spec (owner_page o) (owner_page q)); [|cbn [rbind]; by rewrite Hbad].
    rewrite (proj2 (N.leb_le (owner_slot q) _)) by lia. cbn [or_panic rbind]. by rewrite Hbad.
  - destruct previous as [q|]; [|done]. apply not_true_iff_false in Ea. rewrite ref_before_spec in Ea.
    assert (Ec : (owner_page o <? owner_page q) || ((owner_page o =? owner_page q) && (owner_slot o <=? owner_slot q)) || (owner_incarnation o <=? owner_incarnation q) = true).
    { destruct (N.ltb_spec (owner_page o) (owner_page q)), (N.eqb_spec (owner_page o) (owner_page q)), (N.leb_spec (owner_slot o) (owner_slot q)), (N.leb_spec (owner_incarnation o) (owner_incarnation q)); cbn; try done; lia. }
    by rewrite Ec.
Qed.
(** ** Streams of references *)
(** A reference of a stream, as a delta or in full, and a list of them. *)
Definition item_bytes (compressed : bool) (previous : option OwnerRef) (o : OwnerRef) : list byte :=
  if compressed then delta_bytes previous o else ref_bytes o.
Definition item_ok (compressed : bool) (previous : option OwnerRef) (o : OwnerRef) : Prop := ref_wf o /\ (compressed = true -> after previous o).
Fixpoint stream (compressed : bool) (previous : option OwnerRef) (l : list OwnerRef) : list byte :=
  match l with [] => [] | o :: l => item_bytes compressed previous o ++ stream compressed (Some o) l end.
Fixpoint stream_ok (compressed : bool) (previous : option OwnerRef) (l : list OwnerRef) : Prop :=
  match l with [] => True | o :: l => item_ok compressed previous o /\ stream_ok compressed (Some o) l end.
Fixpoint tail_of (previous : option OwnerRef) (l : list OwnerRef) : option OwnerRef := match l with [] => previous | o :: l => tail_of (Some o) l end.
Section Stream.
Context (c : bool).
Lemma stream_snoc previous l o : stream c previous (l ++ [o]) = stream c previous l ++ item_bytes c (tail_of previous l) o.
Proof.
  revert previous. induction l as [|x l IH]; intros previous; [cbn; by rewrite app_nil_r|]. cbn [app stream tail_of]. rewrite IH, <- app_assoc. done.
Qed.
Lemma stream_ok_snoc previous l o : stream_ok c previous (l ++ [o]) <-> stream_ok c previous l /\ item_ok c (tail_of previous l) o.
Proof. revert previous. induction l as [|x l IH]; intros previous; [cbn; tauto|]. cbn [app stream_ok tail_of]. rewrite IH. tauto. Qed.
Lemma tail_snoc previous l o : tail_of previous (l ++ [o]) = Some o.
Proof. revert previous. induction l as [|x l IH]; intros previous; [done|]. apply IH. Qed.
Lemma tail_wf previous l : opt_wf previous -> stream_ok c previous l -> opt_wf (tail_of previous l).
Proof.
  revert previous. induction l as [|x l IH]; intros previous Hq Hc; [done|]. destruct Hc as [[Hx _] Hc]. by apply IH.
Qed.
Lemma item_len previous o : opt_wf previous -> item_ok c previous o -> 3 <= len (item_bytes c previous o) <= 20.
Proof. intros Hq [Hw Ha]. unfold item_bytes. destruct c; [apply delta_len; auto|by rewrite len_ref_bytes]. Qed.
Lemma stream_len previous l : opt_wf previous -> stream_ok c previous l -> 3 * len l <= len (stream c previous l).
Proof.
  revert previous. induction l as [|x l IH]; intros previous Hq Hc; [done|]. destruct Hc as [Hx Hc]. cbn [stream]. rewrite len_app, len_cons.
  pose proof (item_len previous x Hq Hx). specialize (IH (Some x) (proj1 Hx) Hc). lia.
Qed.
Lemma read_item previous pre s o r' : opt_wf previous -> small (pre ++ s) ->
  (if c then read_delta (reading pre s) previous else OwnerRef_read (reading pre s)) = Ok (o, r') <->
  item_ok c previous o /\ exists tl, s = item_bytes c previous o ++ tl /\ r' = reading (pre ++ item_bytes c previous o) tl.
Proof.
  intros Hq Hs. unfold item_ok, item_bytes. destruct c.
  - rewrite read_delta_exact by done. naive_solver.
  - rewrite ref_format by done. naive_solver.
Qed.
Lemma reading_remaining pre s : Reader.remaining (reading pre s) = len s.
Proof. unfold Reader.remaining, reading. cbn. rewrite len_app. lia. Qed.
(** A loop over a stream succeeds exactly on the bytes of a list, of the expected
    length, that the loop's body accepts. *)
Lemma each_exact {S} (f : S -> OwnerRef -> Result S) fuel : forall n previous pre s st st', opt_wf previous -> small (pre ++ s) -> (N.to_nat n < fuel)%nat ->
  Postings.each_fuel f fuel st (Postings.mk (reading pre s) c n previous false) = Ok st' <->
  exists l, len l = n /\ stream_ok c previous l /\ s = stream c previous l /\ foldM f st l = Ok st'.
Proof.
  induction fuel as [|fuel IH]; intros n previous pre s st st' Hq Hs Hf; [lia|]. cbn [Postings.each_fuel]. unfold Postings.next.
  cbn [Postings.failed Postings.remaining Postings.reader Postings.compressed Postings.previous]. rewrite reading_remaining.
  destruct (N.eqb_spec n 0) as [->|Hn].
  { destruct (N.eqb_spec (len s) 0) as [->%len_zero|Hl]; cbn [rbind].
    - split; [intros H; by exists []|]. intros (l & Hl & _ & _ & H). by apply len_zero in Hl as ->.
    - split; [done|]. intros (l & Hl' & _ & -> & _). by apply len_zero in Hl' as ->. }
  pose proof (fun o r' => read_item previous pre s o r' Hq Hs) as Hread.
  assert (Hback : forall l, len l = n -> stream_ok c previous l -> s = stream c previous l -> exists o l', l = o :: l' /\
    (if c then read_delta (reading pre s) previous else OwnerRef_read (reading pre s)) = Ok (o, reading (pre ++ item_bytes c previous o) (stream c (Some o) l'))).
  { intros l Hl Hlok Hs'. destruct l as [|x l]; [by rewrite len_nil in Hl|]. exists x, l. split; [done|]. apply Hread. destruct Hlok as [Hx _]. split; [done|].
    exists (stream c (Some x) l). by split. }
  destruct (if c then read_delta (reading pre s) previous else OwnerRef_read (reading pre s)) as [[o r']|e|]; cbn [rbind].
  - destruct (proj1 (Hread o r') eq_refl) as (Hok & tl & Hsi & Hr'). rewrite rbind_ok. subst r'.
    assert (Hs2 : small ((pre ++ item_bytes c previous o) ++ tl)) by (rewrite <- app_assoc, <- Hsi; done). split.
    + intros (st1 & Hf1 & H). apply IH in H as (l & Hl & Hlok & -> & Hfold); [|apply Hok|done|lia].
      exists (o :: l). rewrite len_cons. split; [lia|]. split; [done|]. split; [done|]. cbn [foldM]. by rewrite Hf1.
    + intros (l & Hl & Hlok & Hs' & Hfold). destruct (Hback l Hl Hlok Hs') as (x & l' & -> & E). apply Ok_inj in E. apply pair_equal_spec in E as [<- Er].
      assert (Et : tl = stream c (Some o) l'). { rewrite Hsi in Hs'. cbn [stream] in Hs'. by apply app_inv_head in Hs'. }
      cbn [foldM] in Hfold. apply rbind_ok in Hfold as (st1 & Hf1 & Hfold). exists st1. split; [done|]. apply IH; [apply Hok|done|lia|].
      exists l'. rewrite len_cons in Hl. destruct Hlok as [_ Hlok]. split_and!; [lia|done|done|done].
  - split; [done|]. intros (l & Hl & Hlok & Hs' & _). by destruct (Hback l Hl Hlok Hs') as (x & l' & _ & E).
  - split; [done|]. intros (l & Hl & Hlok & Hs' & _). by destruct (Hback l Hl Hlok Hs') as (x & l' & _ & E).
Qed.
End Stream.

(** * Posting pages *)
Definition posting_tag (k : PageKind.t) : N := match k with PageKind.Postings => 4 | PageKind.SealedPostings => 7 | _ => 9 end.
Definition is_compressed (k : PageKind.t) : bool := negb (bool_decide (k = PageKind.Postings)).
(** A root of a direct page and whether it is still there. *)
Definition coordinate (x : RootTid * bool) : list byte :=
  le_bytes 4 (Identity.block (fst x)) ++ le_bytes 2 (root_offset (fst x)) ++ [byte_of (N.b2n (snd x))] ++ [byte_of 0].
Definition endpoints (l : list OwnerRef) : list byte :=
  match l with [] => replicate 32 (byte_of 0) | first :: _ => ref_bytes first ++ match tail_of None l with Some o => ref_bytes o | None => [] end end.
Definition head_counted (k : PageKind.t) (blk next : N) (term : TermRef) (n : N) : list byte :=
  head_bytes (posting_tag k) 0 blk next ++ le_bytes 4 (term_page term) ++ le_bytes 2 (term_offset term) ++ le_bytes 2 n.
Definition posting_head (k : PageKind.t) (blk next : N) (term : TermRef) (l : list OwnerRef) : list byte :=
  head_counted k blk next term (if is_compressed k then len l else 0).
Definition posting_body (k : PageKind.t) (l : list OwnerRef) (roots : list (RootTid * bool)) : list byte :=
  (if bool_decide (k = PageKind.DirectPostings) then endpoints l ++ (roots ≫= coordinate) else []) ++ stream (is_compressed k) None l.
Record posting_rep (p : Page.t) (term : TermRef) (next : N) (l : list OwnerRef) (roots : list (RootTid * bool)) : Prop := {
  rep_kind : PostingPage.is_posting (Page.kind p) = true;
  rep_full : len (Page.buffer p) = CAPACITY;
  rep_short : Page.length_ p <= CAPACITY;
  rep_block : Page.block p < 2 ^ 32 /\ Page.block p <> NO_BLOCK;
  rep_next : next < 2 ^ 32 /\ next_ok (Page.block p) (Page.kind p) next;
  rep_term : term_page term < 2 ^ 32 /\ term_offset term < 2 ^ 16;
  rep_refs : stream_ok (is_compressed (Page.kind p)) None l;
  rep_roots : Page.kind p = PageKind.DirectPostings -> len roots = len l;
  rep_length : Page.length_ p = POSTING_HEADER + len (posting_body (Page.kind p) l roots);
  rep_bytes : exists rest, Page.buffer p = posting_head (Page.kind p) (Page.block p) next term l ++ posting_body (Page.kind p) l roots ++ rest }.
Lemma len_posting_head k blk next term l : len (posting_head k blk next term l) = 24.
Proof. done. Qed.
Lemma len_coordinates roots : len (roots ≫= coordinate) = 8 * len roots.
Proof. by apply len_bind_const. Qed.
Lemma len_endpoints l : len (endpoints l) = 32.
Proof.
  destruct l as [|o l]; [done|]. unfold endpoints. cbn [tail_of].
  assert (Hs : exists x, tail_of (Some o) l = Some x). { revert o. induction l as [|y l IH]; intros o; [by exists o|]. cbn [tail_of]. apply IH. }
  destruct Hs as (x & ->). by rewrite len_app, !len_ref_bytes.
Qed.
Section Rep.
Context (p : Page.t) (term : TermRef) (next : N) (l : list OwnerRef) (roots : list (RootTid * bool)) (Hrep : posting_rep p term next l roots).
Lemma rep_page_fits : page_fits p.
Proof. split; apply Hrep. Qed.
Lemma refs_few : len l < 2722.
Proof.
  pose proof (stream_len (is_compressed (Page.kind p)) None l I (rep_refs _ _ _ _ _ Hrep)) as Hs. pose proof (rep_length _ _ _ _ _ Hrep) as Hl.
  pose proof (rep_short _ _ _ _ _ Hrep) as Hc. unfold posting_body in Hl. rewrite len_app in Hl. unfold POSTING_HEADER, CAPACITY in *. lia.
Qed.
Lemma rep_used : take (N.to_nat (Page.length_ p)) (Page.buffer p) =
  posting_head (Page.kind p) (Page.block p) next term l ++ posting_body (Page.kind p) l roots.
Proof.
  destruct (rep_bytes _ _ _ _ _ Hrep) as (rest & Eb). rewrite Eb, app_assoc. apply take_app_length'.
  rewrite <- to_nat_len, len_app, len_posting_head, (rep_length _ _ _ _ _ Hrep). done.
Qed.
Lemma rep_fields : field (Page.buffer p) 16 4 = term_page term /\ field (Page.buffer p) 20 2 = term_offset term /\
  field (Page.buffer p) 22 2 = (if is_compressed (Page.kind p) then len l else 0).
Proof.
  destruct (rep_bytes _ _ _ _ _ Hrep) as (rest & Eb). destruct (rep_term _ _ _ _ _ Hrep) as [Ht1 Ht2]. pose proof refs_few as Hn. rewrite Eb. split_and!.
  - change (le_val (le_bytes 4 (term_page term)) = term_page term). by apply le_val_bytes_small.
  - change (le_val (le_bytes 2 (term_offset term)) = term_offset term). by apply le_val_bytes_small.
  - set (n := if is_compressed (Page.kind p) then len l else 0). change (le_val (le_bytes 2 n) = n). apply le_val_bytes_small.
    change (2 ^ (8 * N.of_nat 2)) with 65536. unfold n. destruct (is_compressed _); lia.
Qed.
Lemma rep_len : 24 <= Page.length_ p /\ (is_compressed (Page.kind p) = true -> 3 * len l <= Page.length_ p - 24) /\
  (Page.kind p = PageKind.Postings -> Page.length_ p = 24 + 16 * len l) /\ (Page.kind p = PageKind.DirectPostings -> 56 + 8 * len l <= Page.length_ p).
Proof.
  pose proof (rep_length _ _ _ _ _ Hrep) as Hl. unfold POSTING_HEADER, posting_body in Hl. rewrite len_app in Hl. pose proof (rep_refs _ _ _ _ _ Hrep) as Hr.
  pose proof (stream_len (is_compressed (Page.kind p)) None l I Hr) as Hs. split_and!; [lia|intros; lia| |].
  - intros Hk. rewrite Hk in *. rewrite bool_decide_eq_false_2 in Hl by done. change (is_compressed PageKind.Postings) with false in *.
    rewrite len_nil in Hl. rewrite Hl. assert (E : forall q l0, len (stream false q l0) = 16 * len l0).
    { intros q l0. revert q. induction l0 as [|o l0 IH]; intros q; [done|]. cbn [stream item_bytes]. rewrite len_app, len_ref_bytes, IH, len_cons. lia. }
    rewrite E. lia.
  - intros Hk. pose proof (rep_roots _ _ _ _ _ Hrep Hk) as Hro. rewrite Hk in *. rewrite bool_decide_eq_true_2 in Hl by done.
    rewrite len_app, len_endpoints, len_coordinates in Hl. lia.
Qed.
Lemma posting_term_ok : PostingPage.posting_term p = Ok term.
Proof.
  pose proof rep_page_fits as Hf. destruct rep_fields as (F1 & F2 & F3). destruct rep_len as (Hl & _). unfold PostingPage.posting_term.
  rewrite (rep_kind _ _ _ _ _ Hrep). cbn [negb]. rewrite !page_u16, page_u32, F1, F2, F3 by (done || lia). cbn [rbind].
  unfold Page.is_kind, is_compressed. destruct (bool_decide_reflect (Page.kind p = PageKind.Postings)); cbn; by destruct term.
Qed.
Lemma posting_start_ok : PostingPage.posting_start p = Ok (Page.length_ p - len (stream (is_compressed (Page.kind p)) None l)).
Proof.
  pose proof rep_page_fits as Hf. destruct rep_fields as (F1 & F2 & F3). destruct rep_len as (Hl & _ & _ & Hd). unfold PostingPage.posting_start, Page.is_kind.
  pose proof (rep_length _ _ _ _ _ Hrep) as Hlen. unfold POSTING_HEADER, posting_body in Hlen. rewrite len_app in Hlen.
  pose proof (rep_roots _ _ _ _ _ Hrep) as Hro. rewrite page_u16, F3 by (done || lia). cbn [rbind].
  destruct (bool_decide_reflect (Page.kind p = PageKind.DirectPostings)) as [Hk|Hk].
  - specialize (Hd Hk). specialize (Hro Hk). rewrite Hk in *. change (is_compressed PageKind.DirectPostings) with true in *. cbn beta iota in *.
    rewrite len_app, len_endpoints, len_coordinates in Hlen. f_equal. unfold DIRECT_HEADER, POSTING_HEADER. lia.
  - rewrite len_nil in Hlen. f_equal. unfold POSTING_HEADER. lia.
Qed.
Lemma posting_refs_ok : (is_compressed (Page.kind p) = true -> l <> []) -> PostingPage.posting_refs p =
  Ok (Postings.mk (reading [] (stream (is_compressed (Page.kind p)) None l)) (is_compressed (Page.kind p)) (len l) None false).
Proof.
  intros Hne. pose proof rep_page_fits as Hf. destruct rep_fields as (F1 & F2 & F3). destruct rep_len as (Hl & Hc & Hp & _). unfold PostingPage.posting_refs.
  rewrite posting_term_ok. cbn [rbind]. rewrite page_u16, F3 by (done || lia). cbn [rbind]. unfold sub_w, checked_sub. rewrite (proj2 (N.leb_le _ _)) by (unfold POSTING_HEADER; lia). cbn [or_panic rbind].
  set (m := if negb _ then _ else _). assert (Em : m = Ok (len l)).
  { unfold m, Page.is_kind, is_compressed in *. destruct (bool_decide_reflect (Page.kind p = PageKind.Postings)) as [Hk|Hk]; cbn [negb] in *.
    - rewrite (Hp Hk). unfold POSTING_HEADER. replace (24 + 16 * len l - 24) with (len l * 16) by lia. rewrite N.Div0.mod_mul, N.div_mul by done. cbn [N.eqb negb].
      pose proof refs_few. rewrite trunc_small; [done|]. change (2 ^ 16) with 65536. lia.
    - specialize (Hc eq_refl). specialize (Hne eq_refl).
      rewrite (proj2 (N.eqb_neq _ _)) by (destruct l; [done|rewrite len_cons; lia]). unfold POSTING_HEADER. rewrite (proj2 (N.ltb_ge _ _)); [done|]. apply N.div_le_lower_bound; [done|]. lia. }
  rewrite Em. cbn [rbind]. rewrite posting_start_ok. cbn [rbind]. rewrite bytes_ok by done. cbn [rbind]. rewrite rep_used.
  assert (Esl : slice_from (posting_head (Page.kind p) (Page.block p) next term l ++ posting_body (Page.kind p) l roots) (Page.length_ p - len (stream (is_compressed (Page.kind p)) None l)) =
    Some (stream (is_compressed (Page.kind p)) None l)).
  { rewrite (rep_length _ _ _ _ _ Hrep). unfold posting_body. rewrite app_assoc. set (a := _ ++ (if bool_decide _ then _ else _)). unfold slice_from. rewrite (proj2 (N.leb_le _ _)).
    - f_equal. apply drop_app_length'. unfold a. rewrite !len_app, <- to_nat_len. f_equal. rewrite !len_app, len_posting_head. unfold POSTING_HEADER. lia.
    - unfold a. rewrite !len_app, len_posting_head. unfold POSTING_HEADER. lia. }
  rewrite Esl. done.
Qed.
Lemma references_ok : (is_compressed (Page.kind p) = true -> l <> []) -> PostingPage.references p = Ok l.
Proof.
  intros Hne. unfold PostingPage.references. rewrite posting_refs_ok by done. cbn [rbind]. pose proof (rep_refs _ _ _ _ _ Hrep) as Hr. pose proof (rep_length _ _ _ _ _ Hrep) as Hl.
  pose proof (rep_short _ _ _ _ _ Hrep) as Hc. unfold posting_body in Hl. rewrite len_app in Hl.
  unfold Postings.each. cbn [Postings.remaining]. apply each_exact; [done|cbn [app]; unfold small, isize_max; unfold CAPACITY in *; lia|lia|].
  exists l. split_and!; [done|done|done|]. enough (E : forall a, foldM (fun (refs : list OwnerRef) r => Ok (E := Error) (refs ++ [r])) a l = Ok (a ++ l)) by apply E.
  clear. induction l as [|x l0 IH]; intros a; [by rewrite app_nil_r|]. cbn [foldM rbind]. rewrite IH. by rewrite <- app_assoc.
Qed.
(** The fixed part of a direct page. *)
Hypothesis Hdirect : Page.kind p = PageKind.DirectPostings.
Lemma direct_used : take (N.to_nat (Page.length_ p)) (Page.buffer p) =
  posting_head PageKind.DirectPostings (Page.block p) next term l ++ endpoints l ++ (roots ≫= coordinate) ++ stream true None l.
Proof. rewrite rep_used, Hdirect. unfold posting_body. rewrite bool_decide_eq_true_2 by done. by rewrite <- app_assoc. Qed.
Lemma direct_require : Page.require p PageKind.DirectPostings = Ok tt.
Proof. by apply meta_require. Qed.
Lemma posting_count_ok : PostingPage.posting_count p = Ok (len l).
Proof.
  destruct rep_fields as (_ & _ & F3). destruct rep_len as (Hl & _). unfold PostingPage.posting_count. rewrite direct_require. cbn [rbind].
  rewrite page_u16, F3 by (apply rep_page_fits || lia). by rewrite Hdirect.
Qed.
Lemma direct_endpoints_ok first last_ : l <> [] -> head l = Some first -> tail_of None l = Some last_ -> PostingPage.direct_endpoints p = Ok (first, last_).
Proof.
  intros Hne Hh Ht. pose proof (rep_refs _ _ _ _ _ Hrep) as Hr. pose proof (tail_wf _ None l I Hr) as Hlw. rewrite Ht in Hlw.
  assert (El : exists l0, l = first :: l0) by (clear -Hh; destruct l as [|x l0]; [done|]; injection Hh as ->; by exists l0). destruct El as [l0 El].
  assert (Hfw : ref_wf first) by (rewrite El in Hr; apply Hr).
  unfold PostingPage.direct_endpoints. rewrite direct_require, bytes_ok by apply rep_page_fits. cbn [rbind]. rewrite direct_used.
  assert (Ee : endpoints l = ref_bytes first ++ ref_bytes last_). { rewrite El in Ht |- *. unfold endpoints. by rewrite Ht. }
  rewrite Ee. rewrite <- !app_assoc. set (hd := posting_head _ _ _ _ _). set (z := (roots ≫= coordinate) ++ stream true None l).
  assert (Hhd : len hd = 24) by apply len_posting_head.
  rewrite (slice_app hd (ref_bytes first)) by (rewrite ?len_ref_bytes; unfold POSTING_HEADER; lia). cbn [ok_or rbind].
  rewrite (app_assoc hd). rewrite (slice_app (hd ++ ref_bytes first) (ref_bytes last_)) by (rewrite ?len_app, ?len_ref_bytes; unfold DIRECT_HEADER, POSTING_HEADER; lia). cbn [ok_or rbind].
  assert (Hs : forall o, small ([] ++ ref_bytes o)) by (intros o; unfold small, isize_max; cbn [app]; rewrite len_ref_bytes; lia).
  assert (E1 : forall o, ref_wf o -> OwnerRef_read (Reader.new (ref_bytes o)) = Ok (o, reading ([] ++ ref_bytes o) [])).
  { intros o Ho. rewrite reading_new. apply ref_format; [done|]. split; [done|]. exists []. by rewrite app_nil_r. }
  rewrite !E1 by done. done.
Qed.
Lemma direct_root_ok layout i : Forall (fun x => root_wf layout (fst x)) roots -> layout_wf layout ->
  PostingPage.direct_root p i layout = match index roots i with Some (r, live) => Ok (if live then Some r else None) | None => Err (corrupt 22) end.
Proof.
  intros Hall Hlay. unfold PostingPage.direct_root. rewrite direct_require. destruct rep_fields as (_ & _ & F3). destruct rep_len as (Hl & _). cbn [rbind].
  rewrite page_u16, F3 by (apply rep_page_fits || lia). rewrite Hdirect. change (is_compressed PageKind.DirectPostings) with true. cbn [rbind].
  rewrite <- (rep_roots _ _ _ _ _ Hrep Hdirect). destruct (index roots i) as [[r live]|] eqn:Ei.
  2:{ apply index_none in Ei. by rewrite (proj2 (N.leb_le _ _)). }
  apply index_split in Ei as (a & b & Er & ->). pose proof direct_used as Hu. rewrite Er in Hall, Hu |- *. rewrite (proj2 (N.leb_gt _ _)) by (rewrite len_app, len_cons; lia).
  rewrite bytes_ok by apply rep_page_fits. cbn [rbind]. rewrite Hu.
  rewrite bind_app, bind_cons. rewrite <- !app_assoc. set (hd := posting_head _ _ _ _ _).
  rewrite (app_assoc hd), (app_assoc (hd ++ _)). rewrite slice_app; [|rewrite !len_app, len_endpoints, len_coordinates; change (len hd) with 24; change (len (coordinate (r, live))) with 8; unfold DIRECT_HEADER, POSTING_HEADER; lia..].
  cbn [ok_or rbind]. apply Forall_app in Hall as [_ Hall]. apply list.Forall_cons in Hall as [Hw _]. cbn [fst] in Hw. pose proof Hw as [Hw1 Hw2]. unfold layout_wf in Hlay.
  rewrite reading_new. unfold coordinate. cbn [fst snd].
  assert (Hsm : small ([] ++ le_bytes 4 (Identity.block r) ++ le_bytes 2 (root_offset r) ++ [byte_of (N.b2n live)] ++ [byte_of 0])) by (unfold small; change (8 <= isize_max); unfold isize_max; lia).
  give_lifted u32_format (Identity.block r); [unfold Identity.u32_max in Hw1; lia|]. give_lifted u16_format (root_offset r); [change (2 ^ 16) with 65536; lia|].
  give_lifted u8_format (N.b2n live); [by destruct live|]. rewrite (proj2 (N.ltb_ge 1 _)) by (destruct live; cbn; lia).
  rewrite <- (app_nil_r [byte_of 0]). give_lifted u8_format 0; [done|]. cbn [N.eqb negb].
  assert (Ert : RootTid_new (Identity.block r) (root_offset r) layout = Ok r) by by apply RootTid_new_of_wf.
  rewrite Ert. cbn [or_corrupt map_err rbind]. by destruct live.
Qed.
End Rep.

(** ** Growing a page *)
Lemma splice_tail {A} (a b x : list A) : len x <= len b -> splice (a ++ b) (len a) x = a ++ x ++ drop (length x) b.
Proof.
  intros H. rewrite <- (take_drop (length x) b) at 1. rewrite splice_mid; [done|done|]. rewrite len_take. unfold len in *. lia.
Qed.
Lemma put_region p a x c w o : page_fits p -> Page.buffer p = a ++ x ++ c -> len x = 16 -> ref_wf o -> w = len a ->
  SealedBuilder.put_owner p w (w + 16) o = Ok (Page.set_buffer p (a ++ ref_bytes o ++ c)).
Proof.
  intros Hp Eb Hx Ho ->. unfold SealedBuilder.put_owner. rewrite Eb, slice_app by (rewrite ?Hx; done). cbn [or_panic rbind].
  rewrite writing_new, ref_write by (done || (unfold small, isize_max; lia) || (rewrite len_nil; lia)). cbn [rbind]. rewrite app_nil_l.
  unfold Page.write_back. do 2 f_equal. rewrite writing_all by (by rewrite Hx). rewrite Eb. by apply splice_mid.
Qed.
Lemma append_posting_ok p term next l roots o : posting_rep p term next l roots -> Page.kind p = PageKind.Postings -> ref_wf o ->
  if CAPACITY <? Page.length_ p + 16 then PostingPage.append_posting p o = Ok (false, p)
  else exists p', PostingPage.append_posting p o = Ok (true, p') /\ posting_rep p' term next (l ++ [o]) roots /\
    Page.block p' = Page.block p /\ Page.kind p' = PageKind.Postings /\ Page.length_ p' = Page.length_ p + 16.
Proof.
  intros Hrep Hk Ho. pose proof Hrep as [_ Hbuf Hcap Hblk Hnext Hterm Hrefs _ Hlen (rest & Eb)]. unfold PostingPage.append_posting. rewrite meta_require by done. cbn [rbind].
  destruct (N.ltb_spec CAPACITY (Page.length_ p + 16)) as [|Hroom]; [done|]. rewrite Hk in *. change (is_compressed PageKind.Postings) with false in *.
  set (a := posting_head PageKind.Postings (Page.block p) next term l ++ posting_body PageKind.Postings l roots).
  assert (Ha : len a = Page.length_ p) by (unfold a; rewrite len_app, len_posting_head, Hlen; done).
  assert (Eb' : Page.buffer p = a ++ take 16 rest ++ drop 16 rest) by (rewrite take_drop, Eb; unfold a; by rewrite <- app_assoc).
  assert (Hr : 16 <= len rest) by (rewrite Eb', take_drop, len_app, Ha in Hbuf; lia).
  assert (Hx : len (take 16 rest) = 16) by (rewrite len_take; lia).
  assert (Esl : slice (Page.buffer p) (Page.length_ p) (Page.length_ p + 16) = Some (take 16 rest)) by (rewrite Eb'; apply slice_app; rewrite ?Ha, ?Hx; done).
  rewrite Esl. cbn [or_panic rbind].
  rewrite writing_new, ref_write by (done || (unfold small, isize_max; lia) || (rewrite len_nil; lia)). cbn [rbind]. rewrite app_nil_l.
  assert (Ew : Page.write_back p (Page.length_ p) (writing (take 16 rest) (ref_bytes o)) = Page.set_buffer p (a ++ ref_bytes o ++ drop 16 rest)).
  { unfold Page.write_back. f_equal. rewrite writing_all by (by rewrite Hx). rewrite Eb'. by apply splice_mid. }
  rewrite Ew. eexists. split; [done|]. split; [|done]. constructor; cbn [Page.set_length Page.set_buffer Page.kind Page.block Page.buffer Page.length_]; rewrite ?Hk; try done.
  - rewrite Eb' in Hbuf. rewrite !len_app, len_ref_bytes in *. lia.
  - apply stream_ok_snoc. split; [done|]. by split.
  - rewrite Hlen. unfold posting_body. rewrite !len_app. change (is_compressed PageKind.Postings) with false. rewrite stream_snoc, len_app. cbn [item_bytes]. rewrite len_ref_bytes, !bool_decide_eq_false_2 by done. lia.
  - exists (drop 16 rest). unfold a, posting_head, posting_body. change (is_compressed PageKind.Postings) with false. rewrite !bool_decide_eq_false_2 by done. rewrite stream_snoc. unfold item_bytes. rewrite <- !app_assoc. done.
Qed.

(** ** The builder *)
Record builder_rep (b : SealedBuilder.t) (term : TermRef) (l : list OwnerRef) (roots : list (RootTid * bool)) : Prop := {
  b_page : posting_rep (SealedBuilder.page b) term NO_BLOCK l roots;
  b_count : SealedBuilder.count b = len l;
  b_previous : SealedBuilder.previous b = tail_of None l }.
Definition ref_typed (o : OwnerRef) : Prop := owner_page o < 2 ^ 32 /\ owner_slot o < 2 ^ 16 /\ 1 <= owner_incarnation o < 2 ^ 64.
Lemma admissible_ok previous o : ref_typed o -> admissible previous o = true <-> ref_wf o /\ after previous o.
Proof.
  intros (H1 & H2 & H3). unfold admissible, ref_wf, after. rewrite !andb_true_iff, N.ltb_lt. destruct previous; naive_solver.
Qed.
Lemma builder_delta b o : opt_wf (SealedBuilder.previous b) -> ref_typed o ->
  SealedBuilder.delta b o = if admissible (SealedBuilder.previous b) o then Ok (delta_bytes (SealedBuilder.previous b) o) else Err InvalidState.
Proof.
  intros Hq Ht. unfold SealedBuilder.delta. destruct (admissible (SealedBuilder.previous b) o) eqn:Ea; [|by rewrite write_delta_refuses].
  apply admissible_ok in Ea as [Hw Ha]; [|done]. pose proof (delta_len _ o Hq Hw Ha) as Hl. rewrite writing_new, write_delta_ok by (done || (unfold small, isize_max; cbn; lia)). cbn [rbind app].
  unfold writing, Writer.written. cbn [Writer.bytes Writer.cursor].
  match goal with |- or_panic (slice (?d ++ ?z) _ _) = _ => assert (Es : slice (d ++ z) 0 (len d) = Some d) by by apply (slice_app [] d z) end.
  by rewrite Es.
Qed.
Lemma put_tail_ok p a x rest : Page.buffer p = a ++ rest -> Page.length_ p = len a -> len x <= len rest ->
  SealedBuilder.put_tail p x = Ok (Page.set_length (Page.set_buffer p (a ++ x ++ drop (length x) rest)) (Page.length_ p + len x)).
Proof. intros Eb Hl Hx. unfold SealedBuilder.put_tail. rewrite Eb, Hl, copy_from_over by done. done. Qed.
Lemma put_count_ok p k blk next term n n' z : page_fits p -> Page.buffer p = head_counted k blk next term n ++ z ->
  Page.put_u16 p 22 n' = Ok (Page.set_buffer p (head_counted k blk next term n' ++ z)).
Proof. intros Hp Eb. rewrite put_u16_ok by (done || (unfold CAPACITY; lia)). rewrite Eb. done. Qed.
Lemma builder_new_eq blk term b : SealedBuilder.new blk term = Ok b ->
  b = SealedBuilder.mk (Page.mk blk PageKind.SealedPostings 24 false (posting_head PageKind.SealedPostings blk NO_BLOCK term [] ++ drop 24 Page.zeros)) None 0 /\
  blk <> NO_BLOCK /\ block_valid (term_page term) = true /\ PAGE_HEADER <= term_offset term.
Proof.
  intros H. unfold SealedBuilder.new in H. apply rbind_ok in H as (p & Hp & H). unfold Page.postings in Hp.
  destruct (negb (block_valid (term_page term)) || (term_offset term <? PAGE_HEADER)) eqn:Ev; [done|]. apply orb_false_iff in Ev as [Ev1%negb_false_iff Ev2%N.ltb_ge].
  apply rbind_ok in Hp as (q & Hq & Hp). apply new_ok in Hq as (Hne & Hm & tag & [= <-] & ->).
  set (q := Page.set_length _ _) in Hp. assert (Hq : page_fits q) by done.
  rewrite put_u32_ok in Hp by (done || (unfold CAPACITY; lia)). cbn [rbind] in Hp.
  rewrite put_u16_ok in Hp by (done || (unfold CAPACITY; lia)). apply Ok_inj in Hp. subst p.
  unfold Page.set_byte in H. cbn [rbind] in H. apply Ok_inj in H. by subst b.
Qed.
Lemma builder_new_ok blk term b : blk < 2 ^ 32 -> term_page term < 2 ^ 32 -> term_offset term < 2 ^ 16 -> SealedBuilder.new blk term = Ok b ->
  builder_rep b term [] [] /\ Page.block (SealedBuilder.page b) = blk /\ Page.kind (SealedBuilder.page b) = PageKind.SealedPostings.
Proof.
  intros Hb Ht1 Ht2 H. apply builder_new_eq in H as (-> & Hne & _). split; [|done]. split; [|done|done]. cbn [SealedBuilder.page].
  constructor; cbn [Page.kind Page.block Page.buffer Page.length_]; try done; [split; [done|by left]|]. by exists (drop 24 Page.zeros).
Qed.
Lemma builder_direct_ok blk term b : blk < 2 ^ 32 -> term_page term < 2 ^ 32 -> term_offset term < 2 ^ 16 -> SealedBuilder.new_direct blk term = Ok b ->
  builder_rep b term [] [] /\ Page.block (SealedBuilder.page b) = blk /\ Page.kind (SealedBuilder.page b) = PageKind.DirectPostings.
Proof.
  intros Hb Ht1 Ht2 H. unfold SealedBuilder.new_direct in H. apply rbind_ok in H as (b0 & H0 & H). apply builder_new_eq in H0 as (-> & Hne & _).
  unfold Page.set_byte in H. cbn [SealedBuilder.page SealedBuilder.set_kind Page.buffer rbind] in H. apply Ok_inj in H. subst b.
  split; [|done]. split; [|done|done]. cbn [SealedBuilder.page].
  constructor; cbn [Page.kind Page.block Page.buffer Page.length_ Page.set_length Page.set_buffer SealedBuilder.set_kind]; try done; [split; [done|by left]|].
  by exists (drop 56 Page.zeros).
Qed.
(** [push] appends one reference, reports a full page, or refuses one out of order. *)
Lemma push_ok b term l o : builder_rep b term l [] -> Page.kind (SealedBuilder.page b) = PageKind.SealedPostings -> ref_typed o ->
  if negb (admissible (tail_of None l) o) then SealedBuilder.push b o = Err InvalidState else
  if CAPACITY <? Page.length_ (SealedBuilder.page b) + len (delta_bytes (tail_of None l) o) then SealedBuilder.push b o = Ok (false, b) else
  exists b', SealedBuilder.push b o = Ok (true, b') /\ builder_rep b' term (l ++ [o]) [] /\
    Page.block (SealedBuilder.page b') = Page.block (SealedBuilder.page b) /\ Page.kind (SealedBuilder.page b') = PageKind.SealedPostings.
Proof.
  intros [Hp Hc Hpr] Hk Ht. pose proof (rep_page_fits _ _ _ _ _ Hp) as Hf. pose proof (refs_few _ _ _ _ _ Hp) as Hn. pose proof Hp as [_ Hbuf Hcap Hblk Hnext Hterm Hrefs _ Hlen (rest & Eb)].
  destruct b as [p previous count]. cbn [SealedBuilder.page SealedBuilder.count SealedBuilder.previous] in *. rewrite Hk in *. change (is_compressed PageKind.SealedPostings) with true in *.
  assert (Hq : opt_wf previous) by (rewrite Hpr; by eapply tail_wf). unfold SealedBuilder.push. cbn [SealedBuilder.page SealedBuilder.count].
  rewrite meta_require by done. cbn [rbind]. rewrite builder_delta by done. cbn [SealedBuilder.previous]. rewrite Hpr.
  destruct (admissible (tail_of None l) o) eqn:Ea; cbn [negb rbind]; [|done]. apply admissible_ok in Ea as [Hw Ha]; [|done]. set (d := delta_bytes _ o).
  destruct (N.ltb_spec CAPACITY (Page.length_ p + len d)) as [|Hroom]; [done|].
  set (n := len l) in *. change (posting_head PageKind.SealedPostings (Page.block p) NO_BLOCK term l) with (head_counted PageKind.SealedPostings (Page.block p) NO_BLOCK term n) in Eb.
  change (posting_body PageKind.SealedPostings l []) with (stream true None l) in *. set (hd := head_counted PageKind.SealedPostings (Page.block p) NO_BLOCK term n) in *.
  assert (Ha1 : Page.length_ p = len (hd ++ stream true None l)) by (rewrite len_app, Hlen; done).
  assert (Hrest : len rest = CAPACITY - Page.length_ p) by (rewrite Eb, app_assoc, len_app, <- Ha1 in Hbuf; lia).
  rewrite app_assoc in Eb. rewrite (put_tail_ok p _ d rest Eb Ha1) by lia. cbn [rbind].
  rewrite Hc. unfold add_w, checked_add. rewrite (proj2 (N.ltb_lt _ _)) by (change (2 ^ 16) with 65536; lia). cbn [or_panic rbind].
  set (z := stream true None l ++ d ++ drop (length d) rest).
  assert (Hz : 24 + len z = CAPACITY).
  { unfold z. rewrite !len_app, len_drop. rewrite len_app in Ha1. change (len hd) with 24 in Ha1. unfold len in *. lia. }
  rewrite (put_count_ok _ PageKind.SealedPostings (Page.block p) NO_BLOCK term n (n + 1) z); cycle 1.
  { split; cbn [Page.set_length Page.set_buffer Page.buffer Page.length_]; [|lia]. rewrite <- app_assoc. fold z. rewrite len_app. change (len hd) with 24. lia. }
  { cbn [Page.set_length Page.set_buffer Page.buffer]. unfold z. by rewrite <- app_assoc. }
  cbn [rbind]. eexists. split; [done|]. split; [|done]. assert (El : len (l ++ [o]) = n + 1) by (rewrite len_app, len_cons, len_nil; unfold n; lia).
  split; cbn [SealedBuilder.page SealedBuilder.count SealedBuilder.previous]; [|lia|by rewrite tail_snoc].
  constructor; cbn [Page.set_length Page.set_buffer Page.kind Page.block Page.buffer Page.length_]; rewrite ?Hk; try done.
  - rewrite len_app. change (len (head_counted PageKind.SealedPostings (Page.block p) NO_BLOCK term (n + 1))) with 24. lia.
  - apply stream_ok_snoc. split; [done|]. split; [done|]. by intros _.
  - rewrite Hlen. change (posting_body PageKind.SealedPostings (l ++ [o]) []) with (stream true None (l ++ [o])). rewrite stream_snoc, len_app. cbn [item_bytes]. fold d. lia.
  - exists (drop (length d) rest). unfold posting_head. change (is_compressed PageKind.SealedPostings) with true. rewrite El.
    change (posting_body PageKind.SealedPostings (l ++ [o]) []) with (stream true None (l ++ [o])). rewrite stream_snoc. unfold z. rewrite <- app_assoc. done.
Qed.

Lemma put_coordinate_ok p a x c w r : page_fits p -> Page.buffer p = a ++ x ++ c -> len x = 8 -> w = len a ->
  SealedBuilder.put_coordinate p w r = Ok (Page.set_buffer p (a ++ coordinate (r, true) ++ c)).
Proof.
  intros Hp Eb Hx ->. unfold SealedBuilder.put_coordinate. rewrite Eb, slice_app by (rewrite ?Hx; done). cbn [or_panic rbind].
  rewrite writing_new. unfold Writer.u32, Writer.u16, Writer.u8. assert (Hs : small x) by (unfold small, isize_max; lia).
  repeat (rewrite put_writing; [cbn [lift_codec map_err rbind]|done|rewrite Hx, ?len_app, ?len_cons, ?len_le_bytes, ?len_nil; lia]).
  unfold Page.write_back. do 2 f_equal. rewrite writing_all by (by rewrite Hx). rewrite Eb, splice_mid by (done || by rewrite Hx).
  unfold coordinate. by rewrite <- !app_assoc.
Qed.
Lemma endpoints_snoc l o : ref_wf o -> exists e1 e2, endpoints l = e1 ++ e2 /\ len e1 = 16 /\ len e2 = 16 /\
  endpoints (l ++ [o]) = (if len l =? 0 then ref_bytes o else e1) ++ ref_bytes o.
Proof.
  intros Ho. pose proof (len_endpoints l) as Hl. exists (take 16 (endpoints l)), (drop 16 (endpoints l)). rewrite take_drop, len_take, len_drop, Hl. split_and!; [done|done|done|].
  destruct l as [|x l]; [done|]. rewrite (proj2 (N.eqb_neq _ _)) by (rewrite len_cons; lia). unfold endpoints at 1. cbn [app]. change (x :: l ++ [o]) with ((x :: l) ++ [o]). rewrite tail_snoc. done.
Qed.
Section PushDirect.
Context (p : Page.t) (term : TermRef) (next : N) (l : list OwnerRef) (roots : list (RootTid * bool)) (Hp : posting_rep p term next l roots).
Context (Hk : Page.kind p = PageKind.DirectPostings) (o : OwnerRef) (Ho : item_ok true (tail_of None l) o) (r : RootTid).
Let d := delta_bytes (tail_of None l) o.
Lemma push_direct_page : Page.length_ p + len d + 8 <= CAPACITY ->
  exists p', (let start := DIRECT_HEADER + len l * 8 in
    let* moved := or_panic (copy_within (Page.buffer p) start (Page.length_ p) (start + 8)) in
    let* p := SealedBuilder.put_coordinate (Page.set_buffer p moved) start r in
    let* p := SealedBuilder.put_tail (Page.set_length p (Page.length_ p + 8)) d in
    let* p := if len l =? 0 then SealedBuilder.put_owner p POSTING_HEADER (POSTING_HEADER + 16) o else Ok p in
    let* p := SealedBuilder.put_owner p (POSTING_HEADER + 16) DIRECT_HEADER o in
    let* count := add_w 16 (len l) 1 in
    let* p := Page.put_u16 p 22 count in Ok (count, p)) = Ok (len l + 1, p') /\
    posting_rep p' term next (l ++ [o]) (roots ++ [(r, true)]) /\ Page.block p' = Page.block p /\ Page.kind p' = PageKind.DirectPostings.
Proof.
  intros Hroom. pose proof (refs_few _ _ _ _ _ Hp) as Hn. pose proof Hp as [_ Hbuf Hcap Hblk Hnext Hterm Hrefs Hroots Hlen (rest & Eb)]. specialize (Hroots Hk). cbv zeta.
  rewrite Hk in *. change (is_compressed PageKind.DirectPostings) with true in *. set (n := len l) in *.
  change (posting_head PageKind.DirectPostings (Page.block p) next term l) with (head_counted PageKind.DirectPostings (Page.block p) next term n) in Eb.
  assert (Ebody : forall l' roots', posting_body PageKind.DirectPostings l' roots' = endpoints l' ++ (roots' ≫= coordinate) ++ stream true None l') by (intros; unfold posting_body; rewrite bool_decide_eq_true_2 by done; by rewrite <- app_assoc).
  rewrite Ebody in *. set (hd := head_counted PageKind.DirectPostings (Page.block p) next term) in *. assert (Hhd : forall m, len (hd m) = 24) by done.
  destruct (endpoints_snoc l o (proj1 Ho)) as (e1 & e2 & Ee & He1 & He2 & Ee'). rewrite Ee in *. set (cs := roots ≫= coordinate) in *. set (st := stream true None l) in *.
  assert (Hcs : len cs = 8 * n) by (unfold cs; rewrite len_coordinates, Hroots; done).
  rewrite !len_app, He1, He2, Hcs in Hlen. unfold POSTING_HEADER in Hlen.
  assert (Hrest : len rest = CAPACITY - Page.length_ p) by (rewrite Eb, !len_app, Hhd, He1, He2, Hcs in Hbuf; lia).
  assert (Hst : DIRECT_HEADER + n * 8 = len (hd n ++ e1 ++ e2 ++ cs)) by (rewrite !len_app, Hhd, He1, He2, Hcs; unfold DIRECT_HEADER, POSTING_HEADER; lia).
  destruct (copy_within_gap (hd n ++ e1 ++ e2 ++ cs) st rest 8) as (x & rest' & Em & Hx & Hrest'); [lia|].
  rewrite Hst. assert (Em' : copy_within (Page.buffer p) (len (hd n ++ e1 ++ e2 ++ cs)) (Page.length_ p) (len (hd n ++ e1 ++ e2 ++ cs) + 8) = Some ((hd n ++ e1 ++ e2 ++ cs) ++ x ++ st ++ rest')).
  { rewrite <- Em, Eb. f_equal; [by rewrite <- !app_assoc|rewrite <- Hst, Hlen; unfold DIRECT_HEADER, POSTING_HEADER; lia]. }
  rewrite Em'. cbn [or_panic rbind]. clear Em Em'.
  set (q0 := Page.set_buffer p _). assert (Hb0 : len (Page.buffer q0) = CAPACITY).
  { unfold q0. cbn [Page.set_buffer Page.buffer]. rewrite len_app, <- Hst, !len_app, Hx, Hrest', Hrest. unfold DIRECT_HEADER, POSTING_HEADER. lia. }
  assert (Hq0 : page_fits q0) by (split; [exact Hb0|exact Hcap]).
  rewrite (put_coordinate_ok q0 (hd n ++ e1 ++ e2 ++ cs) x (st ++ rest') _ r Hq0 eq_refl Hx eq_refl). cbn [rbind]. unfold q0 in *. clear q0 Hq0. cbn [Page.set_buffer Page.buffer] in Hb0.
  set (co := coordinate (r, true)). assert (Hco : len co = 8) by done.
  assert (Hd : len d <= len rest') by lia.
  rewrite (put_tail_ok _ ((hd n ++ e1 ++ e2 ++ cs) ++ co ++ st) d rest'); cycle 1.
  { cbn [Page.set_length Page.set_buffer Page.buffer]. by rewrite <- !app_assoc. }
  { cbn [Page.set_length Page.set_buffer Page.length_]. rewrite len_app, <- Hst, len_app, Hco, Hlen. unfold DIRECT_HEADER, POSTING_HEADER. lia. }
  { exact Hd. }
  cbn [rbind Page.set_length Page.set_buffer Page.length_ Page.block Page.kind Page.initialize Page.buffer].
  set (z := cs ++ co ++ st ++ d ++ drop (length d) rest').
  assert (Hz : 24 + 32 + len z = CAPACITY).
  { unfold z. rewrite !len_app in Hb0. rewrite !len_app, len_drop. rewrite Hhd, He1, He2, Hx in Hb0. rewrite Hco. unfold len in *. lia. }
  replace (((hd n ++ e1 ++ e2 ++ cs) ++ co ++ st) ++ d ++ drop (length d) rest') with (hd n ++ e1 ++ e2 ++ z) by (unfold z; by rewrite <- !app_assoc).
  match goal with |- context [SealedBuilder.put_owner ?q POSTING_HEADER _ o] =>
    replace q with (Page.mk (Page.block p) (Page.kind p) (Page.length_ p + 8 + len d) (Page.initialize p) (hd n ++ e1 ++ e2 ++ z)) by done end.
  set (q1 := Page.mk _ _ _ _ _). set (e1' := if n =? 0 then ref_bytes o else e1).
  assert (He1' : len e1' = 16) by (unfold e1'; by destruct (n =? 0)).
  assert (Hfit : forall a b m, len a = 16 -> len b = 16 -> page_fits (Page.set_buffer q1 (hd m ++ a ++ b ++ z))).
  { intros a b m Ha Hb. split; cbn [Page.set_buffer Page.buffer Page.length_ q1]; [rewrite !len_app, Hhd, Ha, Hb; lia|lia]. }
  assert (E1 : (if n =? 0 then SealedBuilder.put_owner q1 POSTING_HEADER (POSTING_HEADER + 16) o else Ok q1) = Ok (Page.set_buffer q1 (hd n ++ e1' ++ e2 ++ z))).
  { unfold e1'. destruct (n =? 0); [|done]. apply (put_region q1 (hd n) e1 (e2 ++ z)); try done; [exact (Hfit e1 e2 n He1 He2)|apply Ho]. }
  rewrite E1. cbn [rbind]. change DIRECT_HEADER with (POSTING_HEADER + 16 + 16).
  rewrite (put_region _ (hd n ++ e1') e2 z (POSTING_HEADER + 16) o); [|by apply Hfit|by rewrite <- app_assoc|done|apply Ho|by rewrite len_app, Hhd, He1'].
  cbn [rbind]. unfold add_w, checked_add. rewrite (proj2 (N.ltb_lt _ _)) by (change (2 ^ 16) with 65536; lia). cbn [or_panic rbind]. rewrite set_buffer_twice.
  rewrite (put_count_ok _ PageKind.DirectPostings (Page.block p) next term n (n + 1) (e1' ++ ref_bytes o ++ z)); cycle 1.
  { rewrite <- app_assoc. by apply Hfit. }
  { cbn [Page.set_buffer Page.buffer]. by rewrite <- app_assoc. }
  cbn [rbind]. rewrite set_buffer_twice. eexists. split; [done|]. assert (El : len (l ++ [o]) = n + 1) by (rewrite len_app, len_cons, len_nil; unfold n; lia).
  assert (Ero : len (roots ++ [(r, true)]) = n + 1) by (rewrite len_app, len_cons, len_nil, Hroots; lia).
  split; [|unfold q1; split; [done|exact Hk]]. unfold q1. constructor; cbn [Page.set_buffer Page.kind Page.block Page.buffer Page.length_]; rewrite ?Hk; try done.
  - rewrite !len_app. change (len (head_counted PageKind.DirectPostings (Page.block p) next term (n + 1))) with 24. rewrite He1', len_ref_bytes. lia.
  - lia.
  - apply stream_ok_snoc. by split.
  - intros _. by rewrite El, Ero.
  - rewrite Ebody, Ee', bind_app, bind_cons. cbn [mbind list_bind]. rewrite app_nil_r. change (is_compressed PageKind.DirectPostings) with true. fold n e1' cs co. rewrite stream_snoc. cbn [item_bytes]. fold st d.
    rewrite !len_app, He1', len_ref_bytes, Hco, Hcs, Hlen. unfold POSTING_HEADER. lia.
  - exists (drop (length d) rest'). unfold posting_head. change (is_compressed PageKind.DirectPostings) with true. rewrite El, Ebody, Ee', bind_app, bind_cons. cbn [mbind list_bind]. rewrite app_nil_r.
    fold n e1' cs co. rewrite stream_snoc. cbn [item_bytes]. fold st d. unfold z. by rewrite <- !app_assoc.
Qed.
End PushDirect.
(** [push_direct] appends one reference and its root. *)
Lemma push_direct_ok b term l roots o r : builder_rep b term l roots -> Page.kind (SealedBuilder.page b) = PageKind.DirectPostings -> ref_typed o ->
  if negb (admissible (tail_of None l) o) then SealedBuilder.push_direct b o r = Err InvalidState else
  if CAPACITY <? Page.length_ (SealedBuilder.page b) + len (delta_bytes (tail_of None l) o) + 8 then SealedBuilder.push_direct b o r = Ok (false, b) else
  exists b', SealedBuilder.push_direct b o r = Ok (true, b') /\ builder_rep b' term (l ++ [o]) (roots ++ [(r, true)]) /\
    Page.block (SealedBuilder.page b') = Page.block (SealedBuilder.page b) /\ Page.kind (SealedBuilder.page b') = PageKind.DirectPostings.
Proof.
  intros [Hp Hc Hpr] Hk Ht. destruct b as [p previous count]. cbn [SealedBuilder.page SealedBuilder.count SealedBuilder.previous] in *. subst count.
  pose proof (rep_refs _ _ _ _ _ Hp) as Hrefs. assert (Hq : opt_wf previous) by (rewrite Hpr; by eapply tail_wf).
  unfold SealedBuilder.push_direct. cbn [SealedBuilder.page SealedBuilder.count]. rewrite meta_require by done. cbn [rbind]. rewrite builder_delta by done. cbn [SealedBuilder.previous]. rewrite Hpr.
  destruct (admissible (tail_of None l) o) eqn:Ea; cbn [negb rbind]; [|done]. apply admissible_ok in Ea as [Hw Ha]; [|done].
  destruct (N.ltb_spec CAPACITY (Page.length_ p + len (delta_bytes (tail_of None l) o) + 8)) as [|Hroom]; [done|].
  destruct (push_direct_page p term NO_BLOCK l roots Hp Hk o (conj Hw (fun _ => Ha)) r Hroom) as (p' & E & Hrep & Hblk & Hk'). cbv zeta in E.
  do 6 (apply rbind_ok in E as (? & ?E & E); rewrite E0; clear E0; cbn [rbind]). apply rbind_ok in E as (p2 & E0 & E). apply Ok_inj in E. apply pair_equal_spec in E as [-> ->]. rewrite E0. cbn [rbind].
  eexists. split; [done|]. split; [|done]. split; cbn [SealedBuilder.page SealedBuilder.count SealedBuilder.previous]; [done|rewrite len_app, len_cons, len_nil; lia|by rewrite tail_snoc].
Qed.
(** ** Validation *)
Fixpoint ordered (previous : option OwnerRef) (l : list OwnerRef) : Prop :=
  match l with [] => True | o :: l => after previous o /\ ordered (Some o) l end.
Lemma ordered_stream previous l : stream_ok true previous l <-> Forall ref_wf l /\ ordered previous l.
Proof.
  revert previous. induction l as [|o l IH]; intros previous; [by split|]. cbn [stream_ok ordered]. rewrite IH, list.Forall_cons. unfold item_ok. intuition.
Qed.
Lemma check_references first previous l st : foldM PostingPage.check_reference (first, previous) l = Ok st <->
  ordered previous l /\ st = (match first with Some _ => first | None => head l end, tail_of previous l).
Proof.
  revert first previous. induction l as [|o l IH]; intros first previous.
  { cbn. split; [intros H; apply Ok_inj in H as <-; by destruct first|]. intros [_ ->]. by destruct first. }
  cbn [foldM ordered head tail_of]. unfold PostingPage.check_reference at 1. destruct previous as [q|]; cbn [after].
  - destruct (PostingPage.ref_before q o); cbn [negb rbind]; [|split; [done|intros [[[=] _] _]]]. rewrite IH. destruct first; intuition.
  - cbn [rbind]. rewrite IH. destruct first; intuition.
Qed.
Record posting_valid (layout : HeapLayout) (p : Page.t) (term : TermRef) (next : N) (l : list OwnerRef) (roots : list (RootTid * bool)) : Prop := {
  v_rep : posting_rep p term next l roots;
  v_term : block_valid (term_page term) = true /\ PAGE_HEADER <= term_offset term;
  v_order : ordered None l;
  v_some : is_compressed (Page.kind p) = true -> l <> [];
  v_roots : Page.kind p = PageKind.DirectPostings -> Forall (fun x => root_wf layout (fst x)) roots }.
Lemma fold_collect (a l : list OwnerRef) : foldM (fun (refs : list OwnerRef) r => Ok (E := Error) (refs ++ [r])) a l = Ok (a ++ l).
Proof. revert a. induction l as [|x l IH]; intros a; [by rewrite app_nil_r|]. cbn [foldM rbind]. rewrite IH. by rewrite <- app_assoc. Qed.
Lemma each_of_stream c l {S} (f : S -> OwnerRef -> Result S) st st' : small (stream c None l) -> stream_ok c None l ->
  Postings.each f st (Postings.mk (reading [] (stream c None l)) c (len l) None false) = Ok st' <-> foldM f st l = Ok st'.
Proof.
  intros Hs Hok. unfold Postings.each. cbn [Postings.remaining].
  assert (Hx : forall T (g : T -> OwnerRef -> Result T) a a', Postings.each_fuel g (N.to_nat (len l) + 2) a (Postings.mk (reading [] (stream c None l)) c (len l) None false) = Ok a' <->
    exists l', len l' = len l /\ stream_ok c None l' /\ stream c None l = stream c None l' /\ foldM g a l' = Ok a').
  { intros T g a a'. apply each_exact; [done|done|lia]. }
  rewrite Hx. split; [|intros H; by exists l]. intros (l' & Hl & Hok' & E & H). enough (l' = l) as -> by done.
  pose proof (proj2 (Hx _ (fun refs r => Ok (refs ++ [r])) [] l)) as H1. pose proof (proj2 (Hx _ (fun refs r => Ok (refs ++ [r])) [] l')) as H2.
  rewrite H1 in H2 by (exists l; split_and!; [done|done|done|apply fold_collect]).
  assert (E2 : Ok (E := Error) l = Ok l') by (apply H2; exists l'; split_and!; [done|done|done|apply fold_collect]). by apply Ok_inj in E2.
Qed.
Lemma validate_postings_ok layout p term next l roots : layout_wf layout -> posting_valid layout p term next l roots -> PostingPage.validate_postings p layout = Ok tt.
Proof.
  intros Hlay [Hrep [Ht1 Ht2] Hord Hne Hroots]. unfold PostingPage.validate_postings. rewrite (posting_term_ok _ _ _ _ _ Hrep). cbn [rbind]. rewrite Ht1, (proj2 (N.ltb_ge _ _)) by done. cbn [negb orb].
  rewrite (posting_refs_ok _ _ _ _ _ Hrep) by done. cbn [rbind]. pose proof (rep_refs _ _ _ _ _ Hrep) as Hr. pose proof (rep_length _ _ _ _ _ Hrep) as Hl. pose proof (rep_short _ _ _ _ _ Hrep) as Hc.
  assert (E : Postings.each PostingPage.check_reference (None, None) (Postings.mk (reading [] (stream (is_compressed (Page.kind p)) None l)) (is_compressed (Page.kind p)) (len l) None false) = Ok (head l, tail_of None l)).
  { apply each_of_stream; [unfold posting_body in Hl; rewrite len_app in Hl; unfold small, isize_max; unfold CAPACITY in *; lia|done|]. by apply check_references. }
  rewrite E. cbn [rbind]. unfold Page.is_kind. destruct (bool_decide_reflect (Page.kind p = PageKind.DirectPostings)) as [Hk|]; cbn [negb]; [|done].
  assert (Hne' : l <> []) by (apply Hne; by rewrite Hk). assert (Hh : exists first, head l = Some first) by (destruct l; [done|by eexists]). destruct Hh as [first Hh].
  assert (Ht : exists la, tail_of None l = Some la). { clear -Hne'. destruct (exists_last Hne') as (l0 & x & ->). exists x. apply tail_snoc. } destruct Ht as [la Hla].
  rewrite (direct_endpoints_ok _ _ _ _ _ Hrep Hk first la) by done. cbn [rbind]. rewrite Hh, Hla, !bool_decide_eq_true_2 by done. cbn [negb orb].
  destruct (rep_fields _ _ _ _ _ Hrep) as (_ & _ & F3). destruct (rep_len _ _ _ _ _ Hrep) as (Hl24 & _). rewrite page_u16, F3 by ((by eapply rep_page_fits) || lia). rewrite Hk. change (is_compressed PageKind.DirectPostings) with true. cbn [rbind].
  rewrite <- (rep_roots _ _ _ _ _ Hrep Hk). specialize (Hroots Hk).
  assert (Hall : forall n, n <= len roots -> foldM (fun (_ : unit) slot => let* _ := PostingPage.direct_root p slot layout in Ok tt) tt (range 0 n) = Ok tt).
  { intros n. induction n as [|n IH] using N.peano_ind; intros Hn; [done|]. replace (N.succ n) with (n + 1) by lia. rewrite range_snoc, foldM_app, IH by lia. cbn [rbind foldM].
    rewrite (direct_root_ok _ _ _ _ _ Hrep Hk layout n Hroots Hlay). destruct (index roots n) as [[r live]|] eqn:Ei; [done|]. apply index_none in Ei. lia. }
  by apply Hall.
Qed.
(** What accepted pages look like. *)
Lemma read_ref_all bs o r' : len bs = 16 -> OwnerRef_read (Reader.new bs) = Ok (o, r') -> bs = ref_bytes o /\ ref_wf o.
Proof.
  intros Hl H. rewrite reading_new in H. apply ref_format in H as (Hw & tl & -> & _); [|unfold small, isize_max; cbn [app]; lia].
  rewrite len_app, len_ref_bytes in Hl. assert (tl = []) as -> by (apply len_zero; lia). by rewrite app_nil_r.
Qed.
Section Accepted.
Context (layout : HeapLayout) (p : Page.t) (Hlay : layout_wf layout) (Hp : page_fits p).
Let used := take (N.to_nat (Page.length_ p)) (Page.buffer p).
Lemma direct_root_inv i x : PostingPage.direct_root p i layout = Ok x ->
  exists r live, slice used (DIRECT_HEADER + i * 8) (DIRECT_HEADER + i * 8 + 8) = Some (coordinate (r, live)) /\ root_wf layout r.
Proof.
  intros H. unfold PostingPage.direct_root in H. apply rbind_ok in H as (u & _ & H). apply rbind_ok in H as (n & _ & H). destruct (n <=? i); [done|].
  rewrite bytes_ok in H by done. cbn [rbind] in H. fold used in H. apply rbind_ok in H as (bs & Hbs & H). destruct (slice used _ _) as [bs'|] eqn:Es; [|done]. apply Ok_inj in Hbs as ->.
  apply slice_bounds in Es as Hl. assert (Hbl : len bs = 8) by lia. assert (Hsm : small bs) by (unfold small, isize_max; lia). rewrite reading_new in H.
  next_lifted H u32_format as b t1 Hb. next_lifted H u16_format as o t2 Ho. next_lifted H u8_format as live t3 Hlv. destruct (N.ltb_spec 1 live); [done|].
  next_lifted H u8_format as z t4 Hz. destruct (N.eqb_spec z 0) as [->|]; cbn [negb] in H; [|done].
  apply rbind_ok in H as (r & Hr & _). apply map_err_ok in Hr. pose proof (RootTid_new_wf _ _ _ _ Hb Hr) as Hw. apply RootTid_new_ok in Hr as (-> & _).
  rewrite !len_app, !len_le_bytes, !len_cons, len_nil in Hbl. assert (t4 = []) as -> by (apply len_zero; lia).
  exists (mkRootTid b o), (negb (live =? 0)). split; [|done]. unfold coordinate. cbn [fst snd Identity.block root_offset]. rewrite app_nil_r.
  assert (live = 0 \/ live = 1) as [-> | ->] by lia; done.
Qed.
Lemma endpoints_inv first la : PostingPage.direct_endpoints p = Ok (first, la) -> slice used 24 56 = Some (ref_bytes first ++ ref_bytes la).
Proof.
  intros H. unfold PostingPage.direct_endpoints in H. apply rbind_ok in H as (u & _ & H). rewrite bytes_ok in H by done. cbn [rbind] in H. fold used in H.
  apply rbind_ok in H as (b1 & H1 & H). apply rbind_ok in H as (b2 & H2 & H). apply rbind_ok in H as ([o1 r1] & R1 & H). apply rbind_ok in H as ([o2 r2] & R2 & H).
  apply Ok_inj in H. injection H as -> ->.
  destruct (slice used POSTING_HEADER (POSTING_HEADER + 16)) as [x1|] eqn:E1; [|done]. apply Ok_inj in H1 as ->. destruct (slice used (POSTING_HEADER + 16) DIRECT_HEADER) as [x2|] eqn:E2; [|done]. apply Ok_inj in H2 as ->.
  apply slice_bounds in E1 as L1. apply slice_bounds in E2 as L2. unfold DIRECT_HEADER, POSTING_HEADER in L1, L2.
  apply read_ref_all in R1 as [-> _]; [|lia]. apply read_ref_all in R2 as [-> _]; [|lia]. eapply slice_join; [exact E1|exact E2].
Qed.
Lemma direct_roots_inv n : DIRECT_HEADER + n * 8 <= Page.length_ p ->
  foldM (fun (_ : unit) slot => let* _ := PostingPage.direct_root p slot layout in Ok tt) tt (range 0 n) = Ok tt ->
  exists roots, len roots = n /\ Forall (fun x => root_wf layout (fst x)) roots /\ slice used DIRECT_HEADER (DIRECT_HEADER + n * 8) = Some (roots ≫= coordinate).
Proof.
  pose proof (used_len p Hp) as Hu. fold used in Hu. induction n as [|n IH] using N.peano_ind; intros Hl H.
  { exists []. split; [done|]. split; [done|]. rewrite N.mul_0_l, N.add_0_r. apply slice_empty. lia. }
  replace (N.succ n) with (n + 1) in * by lia. rewrite range_snoc, foldM_app in H by lia. apply rbind_ok in H as ([] & H & H1).
  destruct IH as (roots & Hn & Hw & Hs); [lia|done|]. cbn [foldM] in H1. apply rbind_ok in H1 as (u & H1 & _). apply rbind_ok in H1 as (x & H1 & _).
  apply direct_root_inv in H1 as (r & live & E & Hr). exists (roots ++ [(r, live)]). split; [rewrite len_app, len_cons, len_nil; lia|].
  split; [apply Forall_app; split; [done|by apply list.Forall_singleton]|]. rewrite bind_app, bind_cons. cbn [mbind list_bind]. rewrite app_nil_r.
  replace (DIRECT_HEADER + (n + 1) * 8) with (DIRECT_HEADER + n * 8 + 8) by lia. by eapply slice_join.
Qed.
Lemma posting_refs_inv it : PostingPage.posting_refs p = Ok it ->
  let c := is_compressed (Page.kind p) in
  24 <= Page.length_ p /\ exists start, PostingPage.posting_start p = Ok start /\ start <= Page.length_ p /\
    it = Postings.mk (reading [] (drop (N.to_nat start) used)) c (Postings.remaining it) None false /\
    (c = true -> 0 < Postings.remaining it /\ field (Page.buffer p) 22 2 = Postings.remaining it) /\
    (c = false -> (Page.length_ p - 24) mod 16 = 0).
Proof.
  intros H. cbv zeta. unfold PostingPage.posting_refs in H. apply rbind_ok in H as (term & Ht & H).
  assert (Hc : negb (Page.is_kind p PageKind.Postings) = is_compressed (Page.kind p)) by done. rewrite Hc in H. clear Hc.
  apply rbind_ok in H as (n & Hn & H). apply rbind_ok in H as (start & Hst & H). rewrite bytes_ok in H by done. cbn [rbind] in H. fold used in H.
  apply rbind_ok in H as (rest & Hrest & H). apply Ok_inj in H. destruct (slice_from used start) as [x|] eqn:Es; [|done]. apply Ok_inj in Hrest as ->.
  unfold slice_from in Es. destruct (N.leb_spec start (len used)) as [Hle|]; [|done]. apply Some_inj' in Es. pose proof (used_len p Hp) as Hu. fold used in Hu.
  unfold sub_w, checked_sub in Hn.
  assert (H24 : 24 <= Page.length_ p /\ (is_compressed (Page.kind p) = true -> 0 < n /\ field (Page.buffer p) 22 2 = n) /\ (is_compressed (Page.kind p) = false -> (Page.length_ p - 24) mod 16 = 0)).
  { unfold POSTING_HEADER in Hn. destruct (is_compressed (Page.kind p)).
    - apply rbind_ok in Hn as (m & Hm & Hn). destruct (N.eqb_spec m 0); [done|]. destruct (N.leb_spec 24 (Page.length_ p)) as [Hl|]; [|done]. cbn [or_panic rbind] in Hn.
      rewrite page_u16 in Hm by (done || lia). apply Ok_inj in Hm. destruct (_ <? m); [done|]. apply Ok_inj in Hn as <-. split; [lia|]. split; [intros _; split; [lia|done]|done].
    - destruct (N.leb_spec 24 (Page.length_ p)) as [Hl|]; [|done]. cbn [or_panic rbind] in Hn. destruct (N.eqb_spec ((Page.length_ p - 24) mod 16) 0); [|done]. split; [done|]. by split. }
  destruct H24 as (H24 & Hc1 & Hc2). split; [done|]. exists start. split; [done|]. split; [lia|]. rewrite <- H. cbn [Postings.remaining]. split; [by rewrite Es|]. by split.
Qed.
End Accepted.
(** The header and the three fields behind it. *)
Lemma head_slice p : page_sound p -> PostingPage.is_posting (Page.kind p) = true ->
  exists next, next < 2 ^ 32 /\ next_ok (Page.block p) (Page.kind p) next /\ Page.block p < 2 ^ 32 /\
    slice (Page.buffer p) 0 24 = Some (head_counted (Page.kind p) (Page.block p) next (mkTermRef (field (Page.buffer p) 16 4) (field (Page.buffer p) 20 2)) (field (Page.buffer p) 22 2)).
Proof.
  intros (Hp & _ & _ & tag & flags & next & tl & Eb & _ & Hblk & Hnx & Ht & Hfl & Hno) Hk. apply kind_tags in Ht.
  assert (tag = posting_tag (Page.kind p)) as -> by (destruct (Page.kind p); naive_solver).
  assert (flags = 0) as -> by (destruct Hfl as [?|[_ Hd]]; [done|by rewrite Hd in Hk]).
  exists next. split; [done|]. split; [done|]. split; [done|]. pose proof Hp as [Hb _].
  assert (S0 : slice (Page.buffer p) 0 16 = Some (head_bytes (posting_tag (Page.kind p)) 0 (Page.block p) next)).
  { rewrite Eb. apply (slice_app [] (head_bytes (posting_tag (Page.kind p)) 0 (Page.block p) next) tl); done. }
  pose proof (slice_field (Page.buffer p) 16 4 ltac:(rewrite Hb; unfold CAPACITY; lia)) as S1.
  pose proof (slice_field (Page.buffer p) 20 2 ltac:(rewrite Hb; unfold CAPACITY; lia)) as S2.
  pose proof (slice_field (Page.buffer p) 22 2 ltac:(rewrite Hb; unfold CAPACITY; lia)) as S3.
  change (N.of_nat 4) with 4 in S1. change (N.of_nat 2) with 2 in S2, S3. change (16 + 4) with 20 in S1. change (20 + 2) with 22 in S2. change (22 + 2) with 24 in S3.
  pose proof (slice_join _ _ _ _ _ _ S0 (slice_join _ _ _ _ _ _ S1 (slice_join _ _ _ _ _ _ S2 S3))) as S. exact S.
Qed.
Lemma slice_rest (l : list byte) n a : a <= N.of_nat n -> (n <= length l)%nat -> slice l a (N.of_nat n) = Some (drop (N.to_nat a) (take n l)).
Proof.
  intros Ha Hn. apply slice_ok. split_and!; [done|unfold len; lia|]. rewrite skipn_firstn_comm. f_equal. lia.
Qed.
Lemma validated_postings layout p : layout_wf layout -> page_sound p -> PostingPage.is_posting (Page.kind p) = true ->
  (PostingPage.validate_postings p layout = Ok tt <-> exists term next l roots, posting_valid layout p term next l roots).
Proof.
  intros Hlay Hsound Hk. split; [|by intros (? & ? & ? & ? & ?); eapply validate_postings_ok].
  intros H. pose proof Hsound as (Hp & H16 & Hne & _). pose proof Hp as [Hb Hcap]. destruct (head_slice p Hsound Hk) as (next & Hnx & Hno & Hblk & Sh).
  unfold PostingPage.validate_postings in H. apply rbind_ok in H as (term & Ht & H). destruct (negb (block_valid (term_page term)) || (term_offset term <? PAGE_HEADER)) eqn:Ev; [done|].
  apply orb_false_iff in Ev as [Ev1%negb_false_iff Ev2%N.ltb_ge]. apply rbind_ok in H as (it & Hit & H).
  apply posting_refs_inv in Hit as (H24 & start & Hst & Hsl & Ei & Hc & Hnc); [|done].
  assert (Eterm : term = mkTermRef (field (Page.buffer p) 16 4) (field (Page.buffer p) 20 2) /\ (is_compressed (Page.kind p) = false -> field (Page.buffer p) 22 2 = 0)).
  { unfold PostingPage.posting_term in Ht. rewrite Hk in Ht. cbn [negb] in Ht. apply rbind_ok in Ht as (u & Hu & Ht). rewrite !page_u32, page_u16 in Ht by (done || lia). apply Ok_inj in Ht. split; [done|].
    intros Hz. unfold Page.is_kind in Hu. unfold is_compressed in Hz. destruct (bool_decide_reflect (Page.kind p = PageKind.Postings)); [|done].
    rewrite page_u16 in Hu by (done || lia). cbn [rbind] in Hu. by destruct (N.eqb_spec (field (Page.buffer p) 22 2) 0). }
  destruct Eterm as [Eterm Hz]. apply rbind_ok in H as ([first previous] & He & H). rewrite Ei in He. unfold Postings.each in He. cbn [Postings.remaining] in He.
  set (used := take (N.to_nat (Page.length_ p)) (Page.buffer p)) in *. pose proof (used_len p Hp) as Hul. fold used in Hul.
  apply each_exact in He as (l & Hl & Hok & Es & Hchk); [|done|unfold small, isize_max; cbn [app]; rewrite len_drop; unfold CAPACITY in *; lia|lia].
  apply check_references in Hchk as [Hord Hst']. apply pair_equal_spec in Hst' as [-> ->].
  (* the fixed part between the header and the stream *)
  assert (Hmid : exists roots, (Page.kind p = PageKind.DirectPostings -> len roots = len l /\ Forall (fun x => root_wf layout (fst x)) roots) /\
    slice used 24 start = Some (if bool_decide (Page.kind p = PageKind.DirectPostings) then endpoints l ++ (roots ≫= coordinate) else [])).
  { unfold PostingPage.posting_start in Hst. unfold Page.is_kind in *. destruct (bool_decide_reflect (Page.kind p = PageKind.DirectPostings)) as [Hd|Hd]; cbn [negb] in H.
    - apply rbind_ok in H as ([hf hl] & Hends & H). destruct (bool_decide_reflect (head l = Some hf)) as [Ehf|]; [|done]. destruct (bool_decide_reflect (tail_of None l = Some hl)) as [Ehl|]; [|done]. cbn [negb orb] in H.
      rewrite page_u16 in Hst by (done || lia). cbn [rbind] in Hst. apply Ok_inj in Hst. rewrite page_u16 in H by (done || lia). cbn [rbind] in H.
      destruct Hc as [_ Hcf]; [by rewrite Hd|]. rewrite Hcf in *. rewrite <- Hl in *. clear Hcf.
      apply endpoints_inv in Hends; [|done]. fold used in Hends. apply (direct_roots_inv layout p Hp) in H as (roots & Hrl & Hrw & Hrs); [|lia].
      exists roots. split; [by intros _|]. fold used in Hrs. rewrite <- Hst. assert (Ee : endpoints l = ref_bytes hf ++ ref_bytes hl). { unfold endpoints. destruct l; [done|]. cbn in Ehf. injection Ehf as ->. by rewrite Ehl. }
      rewrite Ee. eapply slice_join; [exact Hends|exact Hrs].
    - apply Ok_inj in Hst. subst start. exists []. split; [done|]. apply slice_empty. rewrite Hul. done. }
  destruct Hmid as (roots & Hroots & Hmid). exists term, next, l, roots.
  assert (Hbody : slice used 24 (Page.length_ p) = Some (posting_body (Page.kind p) l roots)).
  { unfold posting_body. eapply slice_join; [exact Hmid|]. rewrite <- Es. rewrite <- Hul. apply slice_ok. split_and!; [lia|done|]. rewrite take_ge; [done|]. rewrite length_drop. unfold len. lia. }
  pose proof (slice_bounds _ _ _ _ Hbody) as (_ & _ & Hbl).
  split; [|done|done|intros Hc'; destruct Hc as [Hc0 _]; [done|]; intros ->; rewrite len_nil in Hl; lia|apply Hroots].
  constructor; try done; [rewrite Eterm; split; [exact (field_lt (Page.buffer p) 16 4)|exact (field_lt (Page.buffer p) 20 2)]|apply Hroots|unfold POSTING_HEADER; lia|].
  exists (drop (N.to_nat (Page.length_ p)) (Page.buffer p)). apply slice_of_take in Hbody. pose proof (slice_join _ _ _ _ _ _ Sh Hbody) as S. apply slice_ok in S as (_ & _ & S). rewrite N.sub_0_r in S.
  rewrite <- (take_drop (N.to_nat (Page.length_ p)) (Page.buffer p)) at 1. change (drop (N.to_nat 0) (Page.buffer p)) with (Page.buffer p) in S. rewrite <- S, <- app_assoc. f_equal.
  unfold posting_head. rewrite <- Eterm. destruct (is_compressed (Page.kind p)); [|by rewrite Hz]. destruct Hc as [_ Hc]; [done|]. by rewrite Hc, Hl.
Qed.
(** C23: the validation of a posting page accepts exactly the encodings of ascending lists of
    references: open pages in full, sealed pages by deltas, direct pages with the
    endpoints of the list and one well-formed root per reference. *)
Theorem postings_validate_exact layout p : layout_wf layout -> page_sound p -> PostingPage.is_posting (Page.kind p) = true ->
  (PostingPage.validate_postings p layout = Ok tt <-> exists term next l roots, posting_valid layout p term next l roots).
Proof. apply validated_postings. Qed.

(** ** Clearing a root *)
Lemma remove_direct_root_ok layout p term next l roots i r live : layout_wf layout -> posting_valid layout p term next l roots -> Page.kind p = PageKind.DirectPostings ->
  index roots i = Some (r, live) ->
  exists p', PostingPage.remove_direct_root p i layout = Ok p' /\ posting_valid layout p' term next l (<[N.to_nat i := (r, false)]> roots) /\
    Page.block p' = Page.block p /\ Page.kind p' = PageKind.DirectPostings.
Proof.
  intros Hlay [Hrep Hterm Hord Hsome Hroots] Hk Hi. specialize (Hroots Hk). unfold PostingPage.remove_direct_root. rewrite (direct_root_ok _ _ _ _ _ Hrep Hk layout i Hroots Hlay), Hi. cbn [rbind].
  apply index_split in Hi as (a & b & -> & ->). rewrite to_nat_len, insert_app_r_alt, Nat.sub_diag by lia. cbn [insert list_insert].
  pose proof Hrep as [_ Hbuf Hcap Hblk Hnext Ht Hrefs Hro Hlen (rest & Eb)]. specialize (Hro Hk). rewrite Hk in *. change (is_compressed PageKind.DirectPostings) with true in *.
  assert (Ebody : forall roots', posting_body PageKind.DirectPostings l roots' = endpoints l ++ (roots' ≫= coordinate) ++ stream true None l) by (intros; unfold posting_body; rewrite bool_decide_eq_true_2 by done; by rewrite <- app_assoc).
  rewrite Ebody, bind_app, bind_cons in Eb. set (hd := posting_head PageKind.DirectPostings (Page.block p) next term l) in *. set (z := (b ≫= coordinate) ++ stream true None l ++ rest).
  set (pre := hd ++ endpoints l ++ (a ≫= coordinate) ++ le_bytes 4 (Identity.block r) ++ le_bytes 2 (root_offset r)).
  assert (Eb' : Page.buffer p = pre ++ [byte_of (N.b2n live)] ++ ([byte_of 0] ++ z)).
  { rewrite Eb. unfold pre, z.
    change (coordinate (r, live)) with (le_bytes 4 (Identity.block r) ++ le_bytes 2 (root_offset r) ++ [byte_of (N.b2n live)] ++ [byte_of 0]). rewrite <- !app_assoc. done. }
  rewrite (set_byte_mid p _ _ _ 0 _ Eb'); [|unfold pre; rewrite !len_app, len_endpoints, len_coordinates, !len_le_bytes; change (len hd) with 24; unfold DIRECT_HEADER, POSTING_HEADER; lia].
  eexists. split; [done|]. split; [|by split].
  assert (Hn' : len (a ++ (r, false) :: b) = len (a ++ (r, live) :: b)) by (rewrite !len_app, !len_cons; done).
  split; [|done|done|intros _; by apply Hsome|intros _; apply Forall_app in Hroots as [Ha Hb]; apply list.Forall_cons in Hb as [? Hb]; apply Forall_app; split; [done|by apply list.Forall_cons]].
  constructor; cbn [Page.set_buffer Page.kind Page.block Page.buffer Page.length_]; rewrite ?Hk; try done.
  - rewrite Eb' in Hbuf. rewrite !len_app, !len_cons in *. done.
  - intros _. by rewrite Hn'.
  - rewrite Hlen, !Ebody, !len_app, !len_coordinates, !len_app, !len_cons. done.
  - exists rest. rewrite Ebody, bind_app, bind_cons. fold hd. unfold pre, z.
    change (coordinate (r, false)) with (le_bytes 4 (Identity.block r) ++ le_bytes 2 (root_offset r) ++ [byte_of 0] ++ [byte_of 0]). rewrite <- !app_assoc. done.
Qed.
(** ** The decoder on any bytes *)
Lemma read_ref_safe r : safe (OwnerRef_read r).
Proof. unfold OwnerRef_read, lift_codec, or_corrupt. repeat first [safe_step | progress unfold identifier_new]. Qed.
Lemma read_delta_safe r previous : safe (read_delta r previous).
Proof. unfold read_delta, lift_codec, or_corrupt. destruct previous; repeat first [safe_step | progress unfold identifier_new]. Qed.
(** One step always answers; while it yields references it uses up the count. *)
Lemma next_measure q r q' : Postings.next q = (Some r, q') ->
  safe r /\ (Postings.failed q' = true \/ Postings.remaining q' < Postings.remaining q) /\ Postings.remaining q' <= Postings.remaining q /\ ((exists o, r = Ok o) -> Postings.failed q' = false /\ Postings.remaining q' < Postings.remaining q).
Proof.
  unfold Postings.next. destruct (Postings.failed q); [done|]. destruct (N.eqb_spec (Postings.remaining q) 0).
  { destruct (_ =? 0); [done|]. intros [= <- <-]. cbn. split; [done|]. split; [by left|]. split; [done|]. by intros (? & ?). }
  destruct (if Postings.compressed q then read_delta (Postings.reader q) (Postings.previous q) else OwnerRef_read (Postings.reader q)) as [[o r']|e|] eqn:E; intros [= <- <-]; cbn.
  - split; [done|]. split; [right; lia|]. split; [lia|]. intros _. split; [done|lia].
  - split; [done|]. split; [by left|]. split; [lia|]. by intros (? & ?).
  - exfalso. revert E. destruct (Postings.compressed q); [apply read_delta_safe|apply read_ref_safe].
Qed.
Lemma each_fuel_enough {S} (f : S -> OwnerRef -> Result S) n : forall m st q, (N.to_nat (Postings.remaining q) + 2 <= n)%nat -> (n <= m)%nat ->
  Postings.each_fuel f m st q = Postings.each_fuel f n st q.
Proof.
  induction n as [|n IH]; intros m st q Hn Hm; [lia|]. destruct m as [|m]; [lia|]. cbn [Postings.each_fuel].
  destruct (Postings.next q) as [[r|] q'] eqn:E; [|done]. apply next_measure in E as (_ & _ & _ & Hok). destruct r as [o|e|]; [|done|done]. cbn [rbind].
  destruct (f st o) as [st'|e|]; [|done|done]. cbn [rbind]. destruct Hok as [_ Hlt]; [by eexists|]. apply IH; lia.
Qed.
(** The owning decoder resumes where it stopped: the same references and failures;
    only the offsets in errors count from the point of the resumption. *)
Definition agree (x y : option (Result OwnerRef)) : Prop :=
  match x, y with
  | None, None => True
  | Some (Ok a), Some (Ok b) => a = b
  | Some (Err _), Some (Err _) => True
  | _, _ => False
  end.
Definition resumes (q : Postings.t) (o : OwnedPostings.t) : Prop :=
  exists pre s, q = Postings.mk (reading pre s) (OwnedPostings.compressed o) (OwnedPostings.remaining o) (OwnedPostings.previous o) (OwnedPostings.failed o) /\
    page_fits (OwnedPostings.page o) /\ small (pre ++ s) /\ opt_wf (OwnedPostings.previous o) /\
    (OwnedPostings.failed o = false -> slice_from (take (N.to_nat (Page.length_ (OwnedPostings.page o))) (Page.buffer (OwnedPostings.page o))) (OwnedPostings.offset o) = Some s).
Lemma slice_from_app {A} (l : list A) a x y : slice_from l a = Some (x ++ y) -> slice_from l (a + len x) = Some y.
Proof.
  unfold slice_from. destruct (N.leb_spec a (len l)) as [Ha|]; [|done]. intros H%Some_inj'. pose proof (f_equal len H) as Hl. rewrite len_drop, len_app in Hl.
  rewrite (proj2 (N.leb_le _ _)) by lia. f_equal. replace (N.to_nat (a + len x)) with (N.to_nat a + length x)%nat by (unfold len; lia). rewrite <- drop_drop, H. apply drop_app_length.
Qed.
Lemma resume_step q o : resumes q o -> exists y o', OwnedPostings.next o = Ok (y, o') /\ agree (fst (Postings.next q)) y /\ resumes (snd (Postings.next q)) o'.
Proof.
  intros (pre & s & -> & Hp & Hs & Hq & Hsl). destruct o as [p off c n previous failed]. cbn [OwnedPostings.page OwnedPostings.offset OwnedPostings.compressed OwnedPostings.remaining OwnedPostings.previous OwnedPostings.failed] in *.
  unfold OwnedPostings.next, Postings.next. cbn [OwnedPostings.page OwnedPostings.offset OwnedPostings.compressed OwnedPostings.remaining OwnedPostings.previous OwnedPostings.failed Postings.failed Postings.remaining Postings.reader Postings.compressed Postings.previous].
  destruct failed. { exists None, (OwnedPostings.mk p off c n previous true). split; [done|]. split; [done|]. by exists pre, s. }
  specialize (Hsl eq_refl). rewrite bytes_ok by done. cbn [rbind]. rewrite Hsl. rewrite reading_new, !reading_remaining.
  assert (Hs0 : small ([] ++ s)) by (unfold small in *; rewrite len_app in Hs; cbn [app]; lia).
  destruct (N.eqb_spec n 0) as [->|Hn].
  { destruct (len s =? 0); eexists; eexists; (split; [reflexivity|]); (split; [done|]); exists pre, s; cbn [OwnedPostings.page OwnedPostings.offset OwnedPostings.compressed OwnedPostings.remaining OwnedPostings.previous OwnedPostings.failed Postings.reader Postings.remaining Postings.previous Postings.failed Postings.compressed fst snd];
      (split; [done|]); (split; [done|]); (split; [done|]); (split; [done|]); [intros _; cbn [Reader.offset reading Reader.cursor]; by rewrite len_nil, N.add_0_r|done]. }
  pose proof (fun o r' => read_item c previous pre s o r' Hq Hs) as R1. pose proof (fun o r' => read_item c previous [] s o r' Hq Hs0) as R2.
  assert (S1 : safe (if c then read_delta (reading pre s) previous else OwnerRef_read (reading pre s))) by (destruct c; [apply read_delta_safe|apply read_ref_safe]).
  assert (S2 : safe (if c then read_delta (reading [] s) previous else OwnerRef_read (reading [] s))) by (destruct c; [apply read_delta_safe|apply read_ref_safe]).
  destruct (if c then read_delta (reading pre s) previous else OwnerRef_read (reading pre s)) as [[o1 r1]|e1|]; [| |by destruct S1].
  - destruct (proj1 (R1 o1 r1) eq_refl) as (Hok & tl & Es & ->). assert (E2 := proj2 (R2 o1 (reading ([] ++ item_bytes c previous o1) tl)) (conj Hok (ex_intro _ tl (conj Es eq_refl)))).
    rewrite E2. eexists. eexists. split; [reflexivity|]. split; [done|]. exists (pre ++ item_bytes c previous o1), tl.
    cbn [OwnedPostings.page OwnedPostings.offset OwnedPostings.compressed OwnedPostings.remaining OwnedPostings.previous OwnedPostings.failed Postings.reader Postings.remaining Postings.previous Postings.failed Postings.compressed fst snd].
    split; [done|]. split; [done|]. split; [by rewrite <- app_assoc, <- Es|]. split; [apply Hok|]. intros _. unfold Reader.offset, reading. cbn [Reader.cursor app]. apply slice_from_app. by rewrite <- Es.
  - destruct (if c then read_delta (reading [] s) previous else OwnerRef_read (reading [] s)) as [[o2 r2]|e2|]; [| |by destruct S2].
    + destruct (proj1 (R2 o2 r2) eq_refl) as (Hok & tl & Es & _). by destruct (R1 o2 (reading (pre ++ item_bytes c previous o2) tl)) as [_ Hx]; discriminate Hx; [split; [done|by exists tl]].
    + eexists. eexists. split; [reflexivity|]. split; [done|]. exists pre, s. cbn. split; [done|]. split; [done|]. split; [done|]. by split.
Qed.
(** * Properties *)
(** Successive pushes that all found room. *)
Fixpoint pushed (b : SealedBuilder.t) (l : list OwnerRef) (b' : SealedBuilder.t) : Prop :=
  match l with [] => b' = b | o :: l => exists b1, SealedBuilder.push b o = Ok (true, b1) /\ pushed b1 l b' end.
Fixpoint pushed_direct (b : SealedBuilder.t) (l : list (OwnerRef * RootTid)) (b' : SealedBuilder.t) : Prop :=
  match l with [] => b' = b | (o, r) :: l => exists b1, SealedBuilder.push_direct b o r = Ok (true, b1) /\ pushed_direct b1 l b' end.
Lemma pushed_rep term l : forall b l0 b', builder_rep b term l0 [] -> Page.kind (SealedBuilder.page b) = PageKind.SealedPostings -> Forall ref_typed l -> pushed b l b' ->
  builder_rep b' term (l0 ++ l) [] /\ Page.block (SealedBuilder.page b') = Page.block (SealedBuilder.page b) /\ Page.kind (SealedBuilder.page b') = PageKind.SealedPostings.
Proof.
  induction l as [|o l IH]; intros b l0 b' Hb Hk Ht H; [cbn in H; subst b'; by rewrite app_nil_r|]. destruct H as (b1 & Hp & H). apply list.Forall_cons in Ht as [Ht Hts].
  pose proof (push_ok b term l0 o Hb Hk Ht) as Ho. rewrite Hp in Ho. destruct (negb (admissible _ o)); [done|]. destruct (_ <? _); [done|]. destruct Ho as (b2 & E & Hb2 & Hblk & Hk2).
  apply Ok_inj in E. injection E as <-. destruct (IH b1 (l0 ++ [o]) b' Hb2 Hk2 Hts H) as (R1 & R2 & R3). rewrite <- app_assoc in R1. split; [exact R1|]. split; [congruence|done].
Qed.
Lemma pushed_direct_rep term l : forall b l0 r0 b', builder_rep b term l0 r0 -> Page.kind (SealedBuilder.page b) = PageKind.DirectPostings -> Forall ref_typed l.*1 -> pushed_direct b l b' ->
  builder_rep b' term (l0 ++ l.*1) (r0 ++ ((fun r => (r, true)) <$> l.*2)) /\ Page.block (SealedBuilder.page b') = Page.block (SealedBuilder.page b) /\ Page.kind (SealedBuilder.page b') = PageKind.DirectPostings.
Proof.
  induction l as [|[o r] l IH]; intros b l0 r0 b' Hb Hk Ht H; [cbn in H; subst b'; by rewrite !app_nil_r|]. destruct H as (b1 & Hp & H). cbn in Ht. apply list.Forall_cons in Ht as [Ht Hts].
  pose proof (push_direct_ok b term l0 r0 o r Hb Hk Ht) as Ho. rewrite Hp in Ho. destruct (negb (admissible _ o)); [done|]. destruct (_ <? _); [done|]. destruct Ho as (b2 & E & Hb2 & Hblk & Hk2).
  apply Ok_inj in E. injection E as <-. destruct (IH b1 (l0 ++ [o]) (r0 ++ [(r, true)]) b' Hb2 Hk2 Hts H) as (R1 & R2 & R3). rewrite <- !app_assoc in R1. split; [exact R1|]. split; [congruence|done].
Qed.
(** C20: a sealed page is what was pushed: every page that the builder finishes validates,
    belongs to its term and decodes to the pushed references in order; a push refuses a
    reference that does not follow the last one, reports a full page without changing
    it, and otherwise succeeds. *)
Theorem sealed_page_exact layout blk term b l b' : layout_wf layout -> blk < 2 ^ 32 -> term_page term < 2 ^ 32 -> term_offset term < 2 ^ 16 ->
  SealedBuilder.new blk term = Ok b -> Forall ref_typed l -> pushed b l b' ->
  (forall o, ref_typed o ->
     match SealedBuilder.push b' o with
     | Ok (true, _) => admissible (tail_of None l) o = true
     | Ok (false, b1) => b1 = b' /\ CAPACITY < Page.length_ (SealedBuilder.page b') + len (delta_bytes (tail_of None l) o)
     | Err e => e = InvalidState /\ admissible (tail_of None l) o = false
     | Panic => False
     end) /\
  match SealedBuilder.finish b' with
  | Ok p => l <> [] /\ Page.block p = blk /\ PostingPage.validate_postings p layout = Ok tt /\ PostingPage.posting_term p = Ok term /\
            PostingPage.posting_records p = Ok (len l) /\ PostingPage.references p = Ok l
  | Err e => e = InvalidState /\ l = []
  | Panic => False
  end.
Proof.
  intros Hlay Hb Ht1 Ht2 Hnew Hl Hpu. pose proof Hnew as Hn. apply builder_new_eq in Hn as (_ & _ & Hv1 & Hv2).
  apply builder_new_ok in Hnew as (H0 & Hblk & Hk); [|done..]. destruct (pushed_rep term l b [] b' H0 Hk Hl Hpu) as (Hr & Hblk' & Hk'). cbn [app] in Hr. split.
  - intros o Ho. pose proof (push_ok b' term l o Hr Hk' Ho) as Hp. destruct (admissible (tail_of None l) o); cbn [negb] in Hp; [|by rewrite Hp].
    destruct (N.ltb_spec CAPACITY (Page.length_ (SealedBuilder.page b') + len (delta_bytes (tail_of None l) o))); [by rewrite Hp|]. by destruct Hp as (b2 & -> & _).
  - destruct Hr as [Hp Hc _]. unfold SealedBuilder.finish. rewrite Hc. destruct (N.eqb_spec (len l) 0) as [E%len_zero|Hne]; [done|]. assert (Hne' : l <> []) by (intros ->; done).
    split; [done|]. split; [congruence|]. assert (Hval : posting_valid layout (SealedBuilder.page b') term NO_BLOCK l []).
    { split; [done|done| |done|by rewrite Hk']. pose proof (rep_refs _ _ _ _ _ Hp) as Hrf. rewrite Hk' in Hrf. by apply ordered_stream in Hrf as [_ ?]. }
    split; [by eapply validate_postings_ok|]. split; [by eapply posting_term_ok|]. split; [|by eapply references_ok].
    unfold PostingPage.posting_records. by rewrite (posting_refs_ok _ _ _ _ _ Hp).
Qed.
(** C21: a direct page is what was pushed: it validates, decodes to the pushed references,
    bounds them by its endpoints and gives the root of each; clearing a root leaves the
    references and the other roots as they were. *)
Theorem direct_page_exact layout blk term b l b' p : layout_wf layout -> blk < 2 ^ 32 -> term_page term < 2 ^ 32 -> term_offset term < 2 ^ 16 ->
  SealedBuilder.new_direct blk term = Ok b -> Forall ref_typed l.*1 -> Forall (root_wf layout) l.*2 -> pushed_direct b l b' -> SealedBuilder.finish b' = Ok p ->
  PostingPage.validate_postings p layout = Ok tt /\ PostingPage.posting_term p = Ok term /\ PostingPage.references p = Ok l.*1 /\ PostingPage.posting_count p = Ok (len l) /\
  (exists first la, head l.*1 = Some first /\ tail_of None l.*1 = Some la /\ PostingPage.direct_endpoints p = Ok (first, la)) /\
  (forall i, PostingPage.direct_root p i layout = match index l.*2 i with Some r => Ok (Some r) | None => Err (corrupt 22) end) /\
  forall i, i < len l -> exists p', PostingPage.remove_direct_root p i layout = Ok p' /\ PostingPage.validate_postings p' layout = Ok tt /\ PostingPage.references p' = Ok l.*1 /\
    PostingPage.direct_root p' i layout = Ok None /\ forall j, j <> i -> PostingPage.direct_root p' j layout = PostingPage.direct_root p j layout.
Proof.
  intros Hlay Hb Ht1 Ht2 Hnew Hl Hroots Hpu Hfin. pose proof Hnew as Hn. unfold SealedBuilder.new_direct in Hn. apply rbind_ok in Hn as (b0 & Hn & _). apply builder_new_eq in Hn as (_ & _ & Hv1 & Hv2).
  apply builder_direct_ok in Hnew as (H0 & Hblk & Hk); [|done..]. destruct (pushed_direct_rep term l b [] [] b' H0 Hk Hl Hpu) as (Hr & Hblk' & Hk'). cbn [app] in Hr.
  destruct Hr as [Hp Hc _]. unfold SealedBuilder.finish in Hfin. rewrite Hc in Hfin. destruct (N.eqb_spec (len l.*1) 0) as [|Hne]; [done|]. apply Ok_inj in Hfin as <-.
  assert (Hne' : l.*1 <> []) by (intros E; by rewrite E in Hne). set (p := SealedBuilder.page b') in *. set (roots := (fun r : RootTid => (r, true)) <$> l.*2) in *.
  assert (Hrw : Forall (fun x => root_wf layout (fst x)) roots) by (unfold roots; by rewrite Forall_fmap).
  assert (Hval : posting_valid layout p term NO_BLOCK l.*1 roots).
  { split; [done|done| |done|done]. pose proof (rep_refs _ _ _ _ _ Hp) as Hrf. rewrite Hk' in Hrf. by apply ordered_stream in Hrf as [_ ?]. }
  split; [by eapply validate_postings_ok|]. split; [by eapply posting_term_ok|]. split; [by eapply references_ok|].
  split; [rewrite (posting_count_ok _ _ _ _ _ Hp Hk'); unfold len; by rewrite length_fmap|]. split.
  - destruct l as [|[o r] l]; [done|]. exists o. destruct (exists_last Hne') as (l0 & x & El). exists x. split; [done|]. rewrite El. rewrite tail_snoc. split; [done|].
    eapply direct_endpoints_ok; [exact Hp|done|done|done|]. rewrite El. apply tail_snoc.
  - split; [intros i; rewrite (direct_root_ok _ _ _ _ _ Hp Hk' layout i Hrw Hlay); unfold roots, index; rewrite list_lookup_fmap; by destruct (l.*2 !! N.to_nat i)|].
    intros i Hi. assert (Hlr : len roots = len l) by (unfold roots, len; by rewrite !length_fmap). destruct (index roots i) as [[r live]|] eqn:Ei; [|apply index_none in Ei; lia].
    destruct (remove_direct_root_ok layout p term NO_BLOCK l.*1 roots i r live Hlay Hval Hk' Ei) as (p' & E & Hval' & _ & Hk2). exists p'. split; [done|]. split; [by eapply validate_postings_ok|].
    destruct Hval' as [Hp2 _ _ _ Hrw2]. specialize (Hrw2 Hk2). split; [by eapply references_ok|].
    assert (Hil : (N.to_nat i < length roots)%nat) by (unfold len in *; lia).
    split; [rewrite (direct_root_ok _ _ _ _ _ Hp2 Hk2 layout i Hrw2 Hlay); unfold index; by rewrite list_lookup_insert_eq|].
    intros j Hj. rewrite (direct_root_ok _ _ _ _ _ Hp2 Hk2 layout j Hrw2 Hlay), (direct_root_ok _ _ _ _ _ Hp Hk' layout j Hrw Hlay). unfold index. by rewrite list_lookup_insert_ne by lia.
Qed.
(** ** Iteration *)
Fixpoint drain (n : nat) (q : Postings.t) : list (option (Result OwnerRef)) :=
  match n with O => [] | S n => fst (Postings.next q) :: drain n (snd (Postings.next q)) end.
Fixpoint owned_drain (n : nat) (o : OwnedPostings.t) : Result (list (option (Result OwnerRef))) :=
  match n with
  | O => Ok []
  | S n => let* '(x, o) := OwnedPostings.next o in let* xs := owned_drain n o in Ok (x :: xs)
  end.
Fixpoint steps (n : nat) (q : Postings.t) : Postings.t := match n with O => q | S n => steps n (snd (Postings.next q)) end.
(** C25: the owning decoder is the borrowing one: on every page that fits its buffer it
    starts where the other starts and, resumed any number of times, yields the same
    references, the same end and a failure at the same step; neither panics. *)
Theorem owned_postings_agree p q : page_fits p -> PostingPage.posting_refs p = Ok q ->
  exists o, OwnedPostings.new p = Ok o /\ forall n, exists xs, owned_drain n o = Ok xs /\ Forall2 agree (drain n q) xs.
Proof.
  intros Hp Hq. pose proof (posting_refs_inv p Hp q Hq) as (H24 & start & Hst & Hle & Ei & _). unfold OwnedPostings.new. rewrite Hq, Hst. cbn [rbind].
  eexists. split; [done|]. set (o := OwnedPostings.mk _ _ _ _ _ _).
  assert (Hr : resumes q o).
  { exists [], (drop (N.to_nat start) (take (N.to_nat (Page.length_ p)) (Page.buffer p))). rewrite Ei at 1. pose proof (used_len p Hp) as Hu. destruct Hp as [Hb Hc]. unfold o. rewrite Ei.
    cbn [OwnedPostings.page OwnedPostings.offset OwnedPostings.compressed OwnedPostings.remaining OwnedPostings.previous OwnedPostings.failed Postings.compressed Postings.remaining].
    split; [done|]. split; [by split|]. split; [unfold small, isize_max; cbn [app]; rewrite len_drop; unfold CAPACITY in *; lia|]. split; [done|]. intros _. unfold slice_from. by rewrite (proj2 (N.leb_le _ _)) by lia. }
  clearbody o. clear -Hr. intros n. revert q o Hr. induction n as [|n IH]; intros q o Hr; [by exists []|]. cbn [owned_drain drain].
  destruct (resume_step q o Hr) as (y & o' & E & Ha & Hr'). rewrite E. cbn [rbind]. destruct (IH _ _ Hr') as (xs & Exs & Hxs). rewrite Exs. cbn [rbind]. eexists. split; [done|]. by constructor.
Qed.
Lemma next_none q q' : Postings.next q = (None, q') -> q' = q.
Proof.
  unfold Postings.next. destruct (Postings.failed q); [by intros [= <-]|]. destruct (_ =? 0); [destruct (_ =? 0); by intros [= <-]|].
  destruct (if Postings.compressed q then _ else _) as [[o r]|e|]; by intros [= <-].
Qed.
Lemma next_failed q : Postings.failed q = true -> Postings.next q = (None, q).
Proof. intros H. unfold Postings.next. by rewrite H. Qed.
Lemma steps_failed n q : Postings.failed q = true -> fst (Postings.next (steps n q)) = None.
Proof. induction n as [|n IH]; intros H; cbn [steps]; rewrite (next_failed q H); [done|by apply IH]. Qed.
(** C27: the decoding loop of a page ends whatever the bytes: after as many steps as the
    count and one more the iterator answers nothing, for ever, and a loop over it gives
    the same result with any larger bound on its steps. *)
Theorem postings_loop_ends (q : Postings.t) :
  (forall n, (N.to_nat (Postings.remaining q) < n)%nat -> fst (Postings.next (steps n q)) = None) /\
  forall (S : Type) (f : S -> OwnerRef -> Result S) m st, (N.to_nat (Postings.remaining q) + 2 <= m)%nat -> Postings.each_fuel f m st q = Postings.each f st q.
Proof.
  split; [|intros S f m st Hm; unfold Postings.each; by apply each_fuel_enough].
  intros n. revert q. induction n as [|n IH]; intros q Hn; [lia|]. cbn [steps].
  destruct (Postings.next q) as [[r|] q'] eqn:E; cbn [snd].
  - apply next_measure in E as (_ & [Hf|Hlt] & _ & _); [by apply steps_failed|]. apply IH. lia.
  - pose proof (next_none q q' E) as ->. assert (Hs : forall k, steps k q = q) by (induction k as [|k IHk]; [done|]; cbn [steps]; by rewrite E). by rewrite Hs, E.
Qed.
(** ** Fragments *)
Lemma fragment_data_exact p o off payload : page_fits p -> Page.kind p = PageKind.Fragment -> 16 <= Page.length_ p ->
  PostingPage.fragment_data p = Ok (o, off, payload) <->
  ref_wf o /\ off < 2 ^ 32 /\ slice (take (N.to_nat (Page.length_ p)) (Page.buffer p)) 16 (Page.length_ p) = Some (ref_bytes o ++ le_bytes 4 off ++ payload).
Proof.
  intros Hp Hk Hl. unfold PostingPage.fragment_data. rewrite meta_require, bytes_ok by done. cbn [rbind]. set (used := take _ _). pose proof (used_len p Hp) as Hu. fold used in Hu. pose proof Hp as [_ Hc].
  unfold slice_from, PAGE_HEADER. rewrite (proj2 (N.leb_le _ _)) by lia. cbn [or_panic rbind]. set (s := drop (N.to_nat 16) used).
  assert (Es : slice used 16 (Page.length_ p) = Some s). { apply slice_ok. split_and!; [done|lia|]. unfold s. rewrite take_ge; [done|]. rewrite length_drop. unfold len in Hu. lia. }
  rewrite Es. assert (Hs : small ([] ++ s)) by (unfold small, isize_max, s; cbn [app]; rewrite len_drop; unfold CAPACITY in Hc; lia). rewrite reading_new. split.
  - intros H. apply rbind_ok in H as ([o' r1] & H1 & H). apply ref_format in H1 as (Hw & tl & Etl & ->); [|done]. rewrite Etl in Hs.
    assert (Hs2 : small (([] ++ ref_bytes o') ++ tl)) by done. next_lifted H u32_format as off' t2 Hoff. apply rbind_ok in H as ([pl r2] & H2 & H). apply Ok_inj in H. injection H as -> -> ->.
    apply lift_codec_ok in H2. rewrite reading_remaining in H2. apply take_format in H2 as (Hlp & t3 & E3 & _); [|small_lia]. split; [done|]. split; [done|]. f_equal. rewrite Etl. f_equal. f_equal.
    rewrite E3 in Hlp |- *. unfold Datatypes.id in *. rewrite len_app in Hlp. assert (t3 = []) as -> by (apply len_zero; lia). apply app_nil_r.
  - intros (Hw & Hoff & [= Etl]). rewrite Etl in Hs |- *. rewrite (proj2 (ref_format [] _ o (reading ([] ++ ref_bytes o) (le_bytes 4 off ++ payload)) Hs)) by (split; [done|by eexists]). cbn [rbind].
    assert (Hs2 : small (([] ++ ref_bytes o) ++ le_bytes 4 off ++ payload)) by done.
    give_lifted u32_format off; [done|]. rewrite reading_remaining. assert (E : Reader.take (reading (([] ++ ref_bytes o) ++ le_bytes 4 off) payload) (len payload) = Ok (payload, reading ((([] ++ ref_bytes o) ++ le_bytes 4 off) ++ payload) [])).
    { rewrite <- (app_nil_r payload) at 1. apply take_reading; [done|]. rewrite app_nil_r. small_lia. }
    rewrite E. done.
Qed.
(** a fragment page is what it was built from: the owner, the offset and the bytes of
    the payload come back, in any order of linking, and it validates exactly when the
    payload ends within the size of a document. *)
Theorem fragment_roundtrip block owner next offset payload p : block < 2 ^ 32 -> ref_wf owner -> next < 2 ^ 32 -> offset < 2 ^ 32 ->
  Page.fragment block owner next offset payload = Ok p ->
  PostingPage.fragment_data p = Ok (owner, offset, payload) /\ Page.next p = Ok next /\ Page.block p = block /\
  (PostingPage.validate_fragment p = Ok tt <-> offset + len payload <= MAX_DOCUMENT_BYTES).
Proof.
  intros Hb Ho Hn Hoff H. apply fragment_ok in H as (Hs & Hblk & Hk & Hl & Hpl & p0 & Hset & Hs0 & Hsl); [|done..].
  pose proof Hs as (Hp & _). pose proof Hp as [Hbuf Hcap]. unfold FRAGMENT_HEADER in Hl.
  pose proof (set_next_ok p0 Hs0 next p Hn Hset) as (_ & _ & Ep). pose proof Hs0 as ([Hbuf0 _] & _).
  assert (Hd : PostingPage.fragment_data p = Ok (owner, offset, payload)).
  { apply fragment_data_exact; [done|done|lia|]. split; [done|]. split; [done|].
    assert (E : slice (Page.buffer p) 16 (Page.length_ p) = Some (ref_bytes owner ++ le_bytes 4 offset ++ payload)).
    { rewrite Hl, Ep. cbn [Page.set_buffer Page.buffer]. rewrite slice_splice_other; [|rewrite len_le_bytes, Hbuf0; unfold CAPACITY; lia|rewrite len_le_bytes; lia].
      rewrite <- Hsl. f_equal. lia. }
    apply slice_ok in E as (H1 & H2 & E). apply slice_ok. rewrite used_len by done. split_and!; [done|done|]. rewrite E, skipn_firstn_comm, take_take. f_equal. lia. }
  split; [done|]. split.
  { unfold Page.next. rewrite page_u32 by (done || lia). rewrite Ep. cbn [Page.set_buffer Page.buffer]. f_equal. apply (field_splice_same _ 12 4); [rewrite Hbuf0; unfold CAPACITY; lia|done]. }
  split; [done|]. unfold PostingPage.validate_fragment. rewrite Hd. cbn [rbind]. rewrite (proj2 (N.eqb_neq (len payload) 0)) by lia. cbn [orb].
  unfold checked_add. rewrite (proj2 (N.ltb_lt _ _)) by (unfold FRAGMENT_BYTES, CAPACITY, FRAGMENT_HEADER, usize in *; lia).
  destruct (N.ltb_spec MAX_DOCUMENT_BYTES (offset + len payload)); split; intros; (done || lia).
Qed.

(** ** Instances *)
Definition sample_term : TermRef := mkTermRef 3 48.
Definition sample_refs : list OwnerRef := [mkOwnerRef 4 7 19; mkOwnerRef 4 9 25; mkOwnerRef 6 0 300].
Definition sample_roots : list RootTid := [mkRootTid 1 2; mkRootTid 1 3; mkRootTid 0 8].
Definition is_ok {E A} (r : res E A) : bool := match r with Ok _ => true | _ => false end.
Definition push_sample (m : Result SealedBuilder.t) : Result SealedBuilder.t :=
  let* b := m in
  foldM (fun b o => let* '(fit, b) := SealedBuilder.push b o in if (fit : bool) then Ok b else Err InvalidState) b sample_refs.
Definition push_direct_sample (m : Result SealedBuilder.t) : Result SealedBuilder.t :=
  let* b := m in
  foldM (fun b '(o, r) => let* '(fit, b) := SealedBuilder.push_direct b o r in if (fit : bool) then Ok b else Err InvalidState) b (zip sample_refs sample_roots).
Lemma fold_pushed l b b' : foldM (fun b o => let* '(fit, b) := SealedBuilder.push b o in if (fit : bool) then Ok b else Err InvalidState) b l = Ok b' -> pushed b l b'.
Proof.
  revert b. induction l as [|o l IH]; intros b H; [by apply Ok_inj in H|]. cbn [foldM] in H. apply rbind_ok in H as (b1 & H1 & H). apply rbind_ok in H1 as ([fit b2] & Hp & H1).
  destruct fit; [|done]. apply Ok_inj in H1 as ->. exists b1. split; [done|by apply IH].
Qed.
Lemma fold_pushed_direct l b b' : foldM (fun b '(o, r) => let* '(fit, b) := SealedBuilder.push_direct b o r in if (fit : bool) then Ok b else Err InvalidState) b l = Ok b' -> pushed_direct b l b'.
Proof.
  revert b. induction l as [|[o r] l IH]; intros b H; [by apply Ok_inj in H|]. cbn [foldM] in H. apply rbind_ok in H as (b1 & H1 & H). apply rbind_ok in H1 as ([fit b2] & Hp & H1).
  destruct fit; [|done]. apply Ok_inj in H1 as ->. exists b1. split; [done|by apply IH].
Qed.
Lemma sample_typed : Forall ref_typed sample_refs.
Proof. repeat constructor; cbn; lia. Qed.
Lemma push_sample_ok : is_ok (push_sample (SealedBuilder.new 9 sample_term)) = true.
Proof. vm_compute. reflexivity. Qed.
Lemma push_direct_sample_ok : match push_direct_sample (SealedBuilder.new_direct 9 sample_term) with Ok b => is_ok (SealedBuilder.finish b) | _ => false end = true.
Proof. vm_compute. reflexivity. Qed.
Lemma sealed_page_exact_witness :
  match push_sample (SealedBuilder.new 9 sample_term) with
  | Ok b => match SealedBuilder.finish b with Ok p => PostingPage.validate_postings p sample_layout = Ok tt /\ PostingPage.references p = Ok sample_refs | _ => False end
  | _ => False
  end.
Proof.
  pose proof push_sample_ok as E. destruct (SealedBuilder.new 9 sample_term) as [b|e|] eqn:Hn; [|discriminate E|discriminate E].
  destruct (push_sample (Ok b)) as [b'|e|] eqn:Hp; [clear E|discriminate E|discriminate E]. apply fold_pushed in Hp.
  destruct (sealed_page_exact sample_layout 9 sample_term b sample_refs b') as [_ H]; [exact sample_layout_wf|reflexivity|reflexivity|reflexivity|exact Hn|exact sample_typed|exact Hp|].
  destruct (SealedBuilder.finish b') as [p|e|]; [|destruct H as [_ H]; discriminate H|exact H]. destruct H as (_ & _ & Hv & _ & _ & Hr). split; [exact Hv|exact Hr].
Defined.
Lemma direct_page_exact_witness :
  match push_direct_sample (SealedBuilder.new_direct 9 sample_term) with
  | Ok b => match SealedBuilder.finish b with Ok p => PostingPage.references p = Ok sample_refs /\ PostingPage.direct_root p 1 sample_layout = Ok (Some (mkRootTid 1 3)) | _ => False end
  | _ => False
  end.
Proof.
  pose proof push_direct_sample_ok as E. destruct (SealedBuilder.new_direct 9 sample_term) as [b|e|] eqn:Hn; [|discriminate E|discriminate E].
  destruct (push_direct_sample (Ok b)) as [b'|e|] eqn:Hp; [|discriminate E|discriminate E]. destruct (SealedBuilder.finish b') as [p|e|] eqn:Ef; [clear E|discriminate E|discriminate E].
  apply fold_pushed_direct in Hp.
  destruct (direct_page_exact sample_layout 9 sample_term b (zip sample_refs sample_roots) b' p) as (_ & _ & Hr & _ & _ & Hroot & _);
    [exact sample_layout_wf|reflexivity|reflexivity|reflexivity|exact Hn|exact sample_typed| |exact Hp|exact Ef|].
  { repeat constructor; cbn; unfold Identity.u32_max; lia. }
  split; [exact Hr|exact (Hroot 1)].
Defined.
(** An open page. *)
Definition sample_open : Page.t :=
  Page.mk 9 PageKind.Postings 72 false
    (posting_head PageKind.Postings 9 NO_BLOCK sample_term sample_refs ++ posting_body PageKind.Postings sample_refs [] ++ replicate (N.to_nat 8096) (byte_of 0)).
Lemma sample_ref_wf : Forall ref_wf sample_refs.
Proof. repeat constructor; cbn; lia. Qed.
Lemma sample_open_valid : posting_valid sample_layout sample_open sample_term NO_BLOCK sample_refs [].
Proof.
  split; [|split; [reflexivity|discriminate]| |discriminate|discriminate].
  - constructor; cbn [Page.kind Page.block Page.buffer Page.length_ sample_open]; [reflexivity|vm_compute; reflexivity|discriminate|split; [reflexivity|discriminate]|split; [reflexivity|by left]|split; reflexivity| |discriminate|vm_compute; reflexivity|].
    + pose proof sample_ref_wf as H. inversion_clear H as [|? ? H1 H']. inversion_clear H' as [|? ? H2 H'']. inversion_clear H'' as [|? ? H3 _]. split; [by split|]. split; [by split|]. split; [by split|exact I].
    + by exists (replicate (N.to_nat 8096) (byte_of 0)).
  - split; [exact I|]. split; [reflexivity|]. split; [reflexivity|exact I].
Qed.
Lemma sample_open_sound : page_sound sample_open.
Proof.
  split; [split; [vm_compute; reflexivity|discriminate]|]. split; [discriminate|]. split; [discriminate|]. exists 4, 0, NO_BLOCK. eexists.
  split; [unfold sample_open, posting_head, head_counted; cbn [Page.buffer Page.block]; rewrite <- !app_assoc; reflexivity|].
  split; [reflexivity|]. split; [reflexivity|]. split; [reflexivity|]. split; [reflexivity|]. split; [left; reflexivity|left; reflexivity].
Qed.
Lemma postings_validate_exact_witness : PostingPage.validate_postings sample_open sample_layout = Ok tt.
Proof.
  apply (postings_validate_exact sample_layout sample_open sample_layout_wf sample_open_sound eq_refl). exists sample_term, NO_BLOCK, sample_refs, []. exact sample_open_valid.
Defined.
Lemma owned_postings_agree_witness : exists o, OwnedPostings.new sample_open = Ok o /\ exists xs, owned_drain 4 o = Ok xs /\ length xs = 4%nat.
Proof.
  destruct (owned_postings_agree sample_open (Postings.mk (reading [] (stream false None sample_refs)) false 3 None false)) as (o & Ho & H).
  - exact (proj1 sample_open_sound).
  - exact (posting_refs_ok _ _ _ _ _ (v_rep _ _ _ _ _ _ sample_open_valid) ltac:(discriminate)).
  - exists o. split; [exact Ho|]. destruct (H 4%nat) as (xs & Hxs & Hall). exists xs. split; [exact Hxs|]. apply Forall2_length in Hall. rewrite <- Hall. reflexivity.
Defined.
Lemma postings_loop_ends_witness : fst (Postings.next (steps 4 (Postings.mk (reading [] (stream false None sample_refs)) false 3 None false))) = None.
Proof. apply (postings_loop_ends (Postings.mk (reading [] (stream false None sample_refs)) false 3 None false)). cbn. lia. Defined.
Lemma fragment_roundtrip_witness :
  match Page.fragment 7 sample_owner 9 0 [byte_of 65; byte_of 66] with
  | Ok p => PostingPage.fragment_data p = Ok (sample_owner, 0, [byte_of 65; byte_of 66]) /\ Page.next p = Ok 9
  | _ => False
  end.
Proof.
  assert (E : is_ok (Page.fragment 7 sample_owner 9 0 [byte_of 65; byte_of 66]) = true) by (vm_compute; reflexivity).
  destruct (Page.fragment 7 sample_owner 9 0 [byte_of 65; byte_of 66]) as [p|e|] eqn:H; [clear E|discriminate E|discriminate E].
  destruct (fragment_roundtrip 7 sample_owner 9 0 [byte_of 65; byte_of 66] p) as (Hd & Hn & _); [reflexivity| |reflexivity|reflexivity|exact H|split; [exact Hd|exact Hn]].
  unfold ref_wf. split; [reflexivity|]. split; [reflexivity|]. split; [reflexivity|]. cbn. lia.
Defined.
