(* ===== verification/PageTerms.v ===== *)
(** Dictionary pages: [src/crates/pin-core/src/mutable/page.rs], [Page::terms] to
    [Page::set_inline_second], the iterator [Terms] and [bucket_for].

    A dictionary page is a sequence of entries, one per term, that only grows; an entry
    keeps the first owner of its term, the chain of posting pages of the others, and in
    the packed format one more owner in place of a chain. The abstract state of a page
    is the list of its entries. The theorems: the iterator yields exactly the entries
    that the bytes encode, and every operation does to the page what it does to the
    list. *)
From S2P Require Export PagePostings.

(** [Term] *)
Record Term : Type := mkTerm {
  t_reference : TermRef; t_text : list byte; t_first : OwnerRef; t_head : N; t_tail : N;
  t_inline : option OwnerRef; t_shadow : option OwnerRef }.

(** [bucket_for] *)
Definition bucket_for (term : list byte) : N :=
  let hash := fold_left (fun hash byte => trunc 64 (N.lxor hash (byte_val byte) * 0x100000001b3)) term 0xcbf29ce484222325 in
  N.land hash (BUCKETS - 1).

(** [Terms] *)
Module Terms.
Record t : Type := mk { page : N; reader : Reader.t; packed : bool; failed : bool }.
(** The second owner of a packed entry: in place of a chain, or behind a chain. *)
Definition second (self : t) (offset size head tail inline : N) (first : OwnerRef) (reader : Reader.t) : Result (option OwnerRef * option OwnerRef * Reader.t) :=
  if packed self then
    let* '(bytes, reader) := lift_codec (Reader.take reader 16) in
    if negb (inline =? 0) then
      let* '(second, _) := OwnerRef_read (Reader.new bytes) in
      if negb (PostingPage.ref_before first second)
         || ((inline =? 1) && negb ((head =? page self) && (tail =? page self)))
         || ((inline =? 2) && ((head =? NO_BLOCK) || (tail =? NO_BLOCK) || (head =? page self) || (tail =? page self)))
      then Err (corrupt (offset + DICTIONARY_ENTRY + size))
      else if inline =? 1 then Ok (Some second, None, reader) else Ok (None, Some second, reader)
    else
      if negb (bool_decide (bytes = replicate 16 (byte_of 0))) || (head =? page self) || (tail =? page self)
      then Err (corrupt (offset + DICTIONARY_ENTRY + size)) else Ok (None, None, reader)
  else Ok (None, None, reader).
(** The closure of [Iterator::next]. *)
Definition entry (self : t) : Result (Term * Reader.t) :=
  let offset := Reader.offset (reader self) + PAGE_HEADER in
  let* '(size, reader) := lift_codec (Reader.u16 (reader self)) in
  if (size =? 0) || (MAX_TERM_BYTES <? size) then Err (corrupt offset) else
  let* '(reserved, reader) := lift_codec (Reader.u16 reader) in
  if negb (reserved =? 0) then Err (corrupt offset) else
  let* '(head, reader) := lift_codec (Reader.u32 reader) in
  let* '(tail, reader) := lift_codec (Reader.u32 reader) in
  let* '(first, reader) := OwnerRef_read reader in
  let* '(inline, reader) := lift_codec (Reader.u32 reader) in
  if negb (posting_pair_valid head tail) || ((if packed self then 2 else 0) <? inline) then Err (corrupt (offset + 4)) else
  let* '(text, reader) := lift_codec (Reader.take reader size) in
  if negb (utf8_valid text) then Err (corrupt (offset + DICTIONARY_ENTRY)) else
  let* '(inline_second, shadow_second, reader) := second self offset size head tail inline first reader in
  Ok (mkTerm (mkTermRef (page self) (trunc 16 offset)) text first head tail inline_second shadow_second, reader).
(** [Iterator::next] *)
Definition next (self : t) : option (Result Term) * t :=
  if failed self || (Reader.remaining (reader self) =? 0) then (None, self) else
  match entry self with
  | Ok (term, r) => (Some (Ok term), mk (page self) r (packed self) false)
  | Err e => (Some (Err e), mk (page self) (reader self) (packed self) true)
  | Panic => (Some Panic, self)
  end.
(** All that the iterator yields; every entry uses up bytes, so their number bounds it. *)
Fixpoint items_fuel (fuel : nat) (self : t) : list (Result Term) :=
  match fuel with
  | O => []
  | S fuel => match next self with (None, _) => [] | (Some r, self) => r :: items_fuel fuel self end
  end.
Definition items (self : t) : list (Result Term) := items_fuel (S (N.to_nat (Reader.remaining (reader self)))) self.
End Terms.

Module TermPage.
(** [Page::terms] *)
Definition terms (self : Page.t) : Result Terms.t :=
  let* _ := Page.require self PageKind.Dictionary in
  let* used := Page.bytes self in
  let* rest := or_panic (slice_from used PAGE_HEADER) in
  let* packed := Page.packed_dictionary_format self in
  Ok (Terms.mk (Page.block self) (Reader.new rest) packed false).
(** [for term in self.terms()? { let term = term?; state = f(state, term)?; }] *)
Definition each {S} (f : S -> Term -> Result S) (s : S) (self : Page.t) : Result S :=
  let* ts := terms self in foldM (fun s r => let* t := r in f s t) s (Terms.items ts).
(** [Page::append_term] *)
Definition append_term (self : Page.t) (term : list byte) (first : OwnerRef) : Result (option TermRef * Page.t) :=
  let* _ := Page.require self PageKind.Dictionary in
  if (len term =? 0) || (MAX_TERM_BYTES <? len term) then Err InvalidDocument else
  let* packed := Page.packed_dictionary_format self in
  let next := Page.length_ self + DICTIONARY_ENTRY + len term + (if packed : bool then 16 else 0) in
  if CAPACITY <? next then Ok (None, self) else
  let reference := mkTermRef (Page.block self) (trunc 16 (Page.length_ self)) in
  let* region := or_panic (slice (Page.buffer self) (Page.length_ self) next) in
  let* w := lift_codec (Writer.u16 (Writer.new region) (trunc 16 (len term))) in
  let* w := lift_codec (Writer.u16 w 0) in
  let* w := lift_codec (Writer.u32 w NO_BLOCK) in
  let* w := lift_codec (Writer.u32 w NO_BLOCK) in
  let* w := OwnerRef_write first w in
  let* w := lift_codec (Writer.u32 w 0) in
  let* w := lift_codec (Writer.put w term) in
  let* w := if packed : bool then lift_codec (Writer.put w (replicate 16 (byte_of 0))) else Ok w in
  Ok (Some reference, Page.set_length (Page.write_back self (Page.length_ self) w) next).
Fixpoint find (reference : TermRef) (items : list (Result Term)) : Result Term :=
  match items with
  | [] => Err (corrupt (term_offset reference))
  | r :: items => let* term := r in if bool_decide (t_reference term = reference) then Ok term else find reference items
  end.
(** [Page::term] *)
Definition term (self : Page.t) (reference : TermRef) : Result Term :=
  if negb (term_page reference =? Page.block self) then Err (corrupt 8) else
  let* ts := terms self in find reference (Terms.items ts).
(** [Page::set_posting_chain] *)
Definition set_posting_chain (self : Page.t) (reference : TermRef) (head tail : N) : Result Page.t :=
  let* t := term self reference in
  if match t_inline t with Some _ => true | None => false end then Err InvalidState else
  if negb (posting_pair_valid head tail) then Err (corrupt (term_offset reference)) else
  let* self := Page.put_u32 self (term_offset reference + 4) head in
  Page.put_u32 self (term_offset reference + 8) tail.
(** [Page::promote_inline_second] *)
Definition promote_inline_second (self : Page.t) (reference : TermRef) (block : N) : Result (OwnerRef * Page.t) :=
  let* t := term self reference in
  let* second := ok_or (t_inline t) InvalidState in
  if negb (block_valid block) || (block =? Page.block self) then Err InvalidState else
  let* self := Page.put_u32 self (term_offset reference + 28) 2 in
  let* self := Page.put_u32 self (term_offset reference + 4) block in
  let* self := Page.put_u32 self (term_offset reference + 8) block in
  Ok (second, self).
(** [Page::set_inline_second] *)
Definition set_inline_second (self : Page.t) (reference : TermRef) (second : option OwnerRef) : Result Page.t :=
  let* packed := Page.packed_dictionary_format self in
  if negb packed then Err InvalidState else
  let* t := term self reference in
  let at_ := term_offset reference + DICTIONARY_ENTRY + len (t_text t) in
  match second with
  | Some owner =>
      if match t_inline t with Some _ => true | None => false end || negb (t_head t =? NO_BLOCK) || negb (t_tail t =? NO_BLOCK)
         || negb (PostingPage.ref_before (t_first t) owner)
      then Err InvalidState else
      let* region := or_panic (slice (Page.buffer self) at_ (at_ + 16)) in
      let* w := OwnerRef_write owner (Writer.new region) in
      let self := Page.write_back self at_ w in
      let* self := Page.put_u32 self (term_offset reference + 28) 1 in
      let* self := Page.put_u32 self (term_offset reference + 4) (Page.block self) in
      Page.put_u32 self (term_offset reference + 8) (Page.block self)
  | None =>
      if match t_inline t with Some _ => false | None => true end || negb (t_head t =? Page.block self) || negb (t_tail t =? Page.block self)
      then Err InvalidState else
      let* self := Page.put_u32 self (term_offset reference + 28) 0 in
      let* region := or_panic (slice (Page.buffer self) at_ (at_ + 16)) in
      let self := Page.set_buffer self (splice (Page.buffer self) at_ (replicate (length region) (byte_of 0))) in
      let* self := Page.put_u32 self (term_offset reference + 4) NO_BLOCK in
      Page.put_u32 self (term_offset reference + 8) NO_BLOCK
  end.
(** The dictionary of [Page::validate]. *)
Definition validate_dictionary (self : Page.t) : Result unit := each (fun _ _ => Ok tt) tt self.
End TermPage.

(** * The entries of a page *)
Inductive Second : Type := Alone | Inline (o : OwnerRef) | Shadow (o : OwnerRef).
Record Entry : Type := mkEntry { e_text : list byte; e_first : OwnerRef; e_head : N; e_tail : N; e_second : Second }.
Definition inline_code (s : Second) : N := match s with Alone => 0 | Inline _ => 1 | Shadow _ => 2 end.
Definition inline_of (s : Second) : option OwnerRef := match s with Inline o => Some o | _ => None end.
Definition shadow_of (s : Second) : option OwnerRef := match s with Shadow o => Some o | _ => None end.
Definition second_wf (blk : N) (e : Entry) : Prop :=
  match e_second e with
  | Alone => e_head e <> blk /\ e_tail e <> blk
  | Inline o => ref_wf o /\ PostingPage.ref_before (e_first e) o = true /\ e_head e = blk /\ e_tail e = blk
  | Shadow o => ref_wf o /\ PostingPage.ref_before (e_first e) o = true /\ e_head e <> NO_BLOCK /\ e_tail e <> NO_BLOCK /\ e_head e <> blk /\ e_tail e <> blk
  end.
Definition entry_wf (packed : bool) (blk : N) (e : Entry) : Prop :=
  1 <= len (e_text e) <= MAX_TERM_BYTES /\ utf8_valid (e_text e) = true /\ ref_wf (e_first e) /\ e_head e < 2 ^ 32 /\ e_tail e < 2 ^ 32 /\
  posting_pair_valid (e_head e) (e_tail e) = true /\ if packed then second_wf blk e else e_second e = Alone.
Definition second_bytes (s : Second) : list byte := match s with Alone => replicate 16 (byte_of 0) | Inline o | Shadow o => ref_bytes o end.
Definition entry_fixed (e : Entry) : list byte :=
  le_bytes 2 (len (e_text e)) ++ le_bytes 2 0 ++ le_bytes 4 (e_head e) ++ le_bytes 4 (e_tail e) ++ ref_bytes (e_first e) ++ le_bytes 4 (inline_code (e_second e)).
Definition entry_bytes (packed : bool) (e : Entry) : list byte :=
  entry_fixed e ++ e_text e ++ if packed then second_bytes (e_second e) else [].
Definition entry_size (packed : bool) (e : Entry) : N := DICTIONARY_ENTRY + len (e_text e) + if packed then 16 else 0.
(** What a reader gets of an entry at an offset. *)
Definition entry_term (blk at_ : N) (e : Entry) : Term :=
  mkTerm (mkTermRef blk at_) (e_text e) (e_first e) (e_head e) (e_tail e) (inline_of (e_second e)) (shadow_of (e_second e)).
Fixpoint entry_terms (packed : bool) (blk at_ : N) (l : list Entry) : list Term :=
  match l with [] => [] | e :: l => entry_term blk at_ e :: entry_terms packed blk (at_ + entry_size packed e) l end.
Lemma len_second s : len (second_bytes s) = 16.
Proof. by destruct s. Qed.
Lemma len_entry_bytes packed e : len (entry_bytes packed e) = entry_size packed e.
Proof.
  unfold entry_bytes, entry_size. rewrite !len_app. change (len (entry_fixed e)) with 32. unfold DICTIONARY_ENTRY. destruct packed; [rewrite len_second; lia|rewrite len_nil; lia].
Qed.

Section Entries.
Context (packed : bool) (blk : N).
Lemma second_exact rd offset size e pre s x y r' : small (pre ++ s) -> ref_wf (e_first e) -> inline_code (e_second e) <= 2 ->
  Terms.second (Terms.mk blk rd packed false) offset size (e_head e) (e_tail e) (inline_code (e_second e)) (e_first e) (reading pre s) = Ok (x, y, r') <->
  exists o2 tl, let e' := mkEntry (e_text e) (e_first e) (e_head e) (e_tail e) o2 in
    inline_code o2 = inline_code (e_second e) /\ (if packed then second_wf blk e' else True) /\ x = (if packed then inline_of o2 else None) /\ y = (if packed then shadow_of o2 else None) /\
    s = (if packed then second_bytes o2 else []) ++ tl /\ r' = reading (pre ++ (if packed then second_bytes o2 else [])) tl.
Proof.
  intros Hs Hf Hc. unfold Terms.second. cbn [Terms.packed Terms.page]. destruct packed.
  2:{ split; [intros H; apply Ok_inj in H; injection H as <- <- <-|intros (o2 & tl & _ & _ & -> & -> & -> & ->); by rewrite app_nil_r].
      exists (e_second e), s. rewrite app_nil_r. by split_and!. }
  assert (Hread : forall bs o r, len bs = 16 -> OwnerRef_read (Reader.new bs) = Ok (o, r) -> ref_wf o /\ bs = ref_bytes o) by (intros bs o r Hl H; by apply read_ref_all in H as [? ?]).
  assert (Hread' : forall o, ref_wf o -> exists r, OwnerRef_read (Reader.new (ref_bytes o)) = Ok (o, r)).
  { intros o Ho. exists (reading ([] ++ ref_bytes o) []). rewrite reading_new. apply ref_format; [unfold small, isize_max; cbn [app]; rewrite len_ref_bytes; lia|]. split; [done|]. exists []. by rewrite app_nil_r. }
  split.
  - intros H. next_lifted H (take_format 16) as bs tl Hbs. unfold Datatypes.id in *.
    destruct (e_second e) as [|o|o] eqn:Es; cbn [inline_code N.eqb Pos.eqb negb andb] in H.
    + destruct (bool_decide_reflect (bs = replicate 16 (byte_of 0))) as [->|]; cbn [negb orb] in H; [|done].
      destruct (N.eqb_spec (e_head e) blk); [done|]. destruct (N.eqb_spec (e_tail e) blk); [done|]. cbn [orb] in H. apply Ok_inj in H. injection H as <- <- <-.
      exists Alone, tl. cbn. by split_and!.
    + apply rbind_ok in H as ([o2 r2] & H2 & H). apply Hread in H2 as [Hw ->]; [|done]. rewrite orb_false_r in H.
      destruct (PostingPage.ref_before (e_first e) o2) eqn:Eb; cbn [negb orb] in H; [|done]. destruct (N.eqb_spec (e_head e) blk) as [E1|]; cbn [andb negb] in H; [|done].
      destruct (N.eqb_spec (e_tail e) blk) as [E2|]; cbn [negb] in H; [|done]. apply Ok_inj in H. injection H as <- <- <-. exists (Inline o2), tl. unfold second_wf. cbn. by split_and!.
    + apply rbind_ok in H as ([o2 r2] & H2 & H). apply Hread in H2 as [Hw ->]; [|done]. rewrite orb_false_r in H.
      destruct (PostingPage.ref_before (e_first e) o2) eqn:Eb; cbn [negb orb] in H; [|done].
      destruct (N.eqb_spec (e_head e) NO_BLOCK); [done|]. destruct (N.eqb_spec (e_tail e) NO_BLOCK); [done|]. destruct (N.eqb_spec (e_head e) blk); [done|]. destruct (N.eqb_spec (e_tail e) blk); [done|].
      cbn [orb] in H. apply Ok_inj in H. injection H as <- <- <-. exists (Shadow o2), tl. unfold second_wf. cbn. by split_and!.
  - intros (o2 & tl & Hcode & Hw & -> & -> & -> & ->). give_lifted (take_format 16) (second_bytes o2); [by apply len_second|]. unfold Datatypes.id. rewrite <- Hcode.
    unfold second_wf in Hw. cbn [e_second e_first e_head e_tail] in Hw. destruct o2 as [|o2|o2]; cbn [inline_code N.eqb Pos.eqb negb andb second_bytes].
    + destruct Hw as [Hw1 Hw2]. rewrite bool_decide_eq_true_2 by done. by rewrite (proj2 (N.eqb_neq _ _) Hw1), (proj2 (N.eqb_neq _ _) Hw2).
    + destruct Hw as (Hw & Hb & -> & ->). destruct (Hread' o2 Hw) as (r & ->). cbn [rbind]. rewrite Hb, N.eqb_refl. done.
    + destruct Hw as (Hw & Hb & W1 & W2 & W3 & W4). destruct (Hread' o2 Hw) as (r & ->). cbn [rbind]. rewrite Hb.
      by rewrite (proj2 (N.eqb_neq _ _) W1), (proj2 (N.eqb_neq _ _) W2), (proj2 (N.eqb_neq _ _) W3), (proj2 (N.eqb_neq _ _) W4).
Qed.
Lemma give_ref pre o tl : small (pre ++ ref_bytes o ++ tl) -> ref_wf o -> OwnerRef_read (reading pre (ref_bytes o ++ tl)) = Ok (o, reading (pre ++ ref_bytes o) tl).
Proof. intros Hs Ho. apply ref_format; [done|]. split; [done|]. by exists tl. Qed.
Lemma give_second rd offset size e pre tl : let bs := if packed then second_bytes (e_second e) else [] in
  small (pre ++ bs ++ tl) -> ref_wf (e_first e) -> inline_code (e_second e) <= 2 -> (if packed then second_wf blk e else True) ->
  Terms.second (Terms.mk blk rd packed false) offset size (e_head e) (e_tail e) (inline_code (e_second e)) (e_first e) (reading pre (bs ++ tl)) =
    Ok (if packed then inline_of (e_second e) else None, if packed then shadow_of (e_second e) else None, reading (pre ++ bs) tl).
Proof. intros bs Hs Hf Hc Hw. apply second_exact; [done|done|done|]. exists (e_second e), tl. destruct e. by split_and!. Qed.
Lemma entry_exact pre s t r' : small (pre ++ s) ->
  Terms.entry (Terms.mk blk (reading pre s) packed false) = Ok (t, r') <->
  exists e tl, entry_wf packed blk e /\ s = entry_bytes packed e ++ tl /\ r' = reading (pre ++ entry_bytes packed e) tl /\ t = entry_term blk (trunc 16 (len pre + 16)) e.
Proof.
  intros Hs. unfold Terms.entry. cbn [Terms.reader Terms.packed Terms.page]. change (Reader.offset (reading pre s)) with (len pre). change PAGE_HEADER with 16. split.
  - intros H. next_lifted H u16_format as size t1 Hsize. destruct ((size =? 0) || (MAX_TERM_BYTES <? size)) eqn:Ez; [done|]. apply orb_false_iff in Ez as [Ez1%N.eqb_neq Ez2%N.ltb_ge].
    next_lifted H u16_format as z t2 Hz. destruct (N.eqb_spec z 0) as [->|]; cbn [negb] in H; [|done].
    next_lifted H u32_format as head t3 Hhead. next_lifted H u32_format as tail t4 Htail.
    apply rbind_ok in H as ([first r1] & H1 & H). apply ref_format in H1 as (Hfirst & t5 & -> & ->); [|by rewrite <- ?app_assoc in *].
    assert (Hs5 : small ((((((pre ++ le_bytes 2 size) ++ le_bytes 2 0) ++ le_bytes 4 head) ++ le_bytes 4 tail) ++ ref_bytes first) ++ t5)) by (by rewrite <- ?app_assoc in *).
    next_lifted H u32_format as inline t6 Hinl.
    destruct (posting_pair_valid head tail) eqn:Ep; cbn [negb orb] in H; [|done]. destruct (N.ltb_spec (if packed then 2 else 0) inline) as [|Hin]; [done|].
    next_lifted H (take_format size) as text t7 Htext. unfold Datatypes.id in *. destruct (utf8_valid text) eqn:Eu; cbn [negb] in H; [|done].
    apply rbind_ok in H as ([[x y] r2] & H2 & H). apply Ok_inj in H. apply pair_equal_spec in H as [<- <-].
    set (e0 := mkEntry text first head tail (match inline with 0 => Alone | 1 => Inline first | _ => Shadow first end)).
    assert (Hcode : inline_code (e_second e0) = inline). { assert (inline = 0 \/ inline = 1 \/ inline = 2) as [->|[->| ->]] by (destruct packed; lia); done. }
    rewrite <- Hcode in H2. apply (second_exact _ _ _ e0) in H2 as (o2 & tl & Hc & Hw & -> & -> & -> & ->); [|rewrite Hcode; by rewrite <- ?app_assoc in *|done|rewrite Hcode; destruct packed; lia].
    cbn [e_text e_first e_head e_tail e0] in *. fold e0 in Hc. rewrite Hcode in Hc.
    assert (Ho : packed = false -> o2 = Alone). { intros ->. assert (inline = 0) as -> by lia. by destruct o2. }
    exists (mkEntry text first head tail o2), tl. split_and!.
    + unfold entry_wf. cbn [e_text e_first e_head e_tail e_second]. split; [lia|]. split; [done|]. split; [done|]. split; [done|]. split; [done|]. split; [done|]. destruct packed; [done|by apply Ho].
    + unfold entry_bytes, entry_fixed. cbn [e_text e_first e_head e_tail e_second]. rewrite ?Hcode, Hc, Htext, <- ?app_assoc. done.
    + unfold entry_bytes, entry_fixed. cbn [e_text e_first e_head e_tail e_second]. rewrite ?Hcode, Hc, Htext, <- ?app_assoc. done.
    + unfold entry_term. cbn [e_text e_first e_head e_tail e_second]. destruct packed; [done|]. by rewrite Ho.
  - intros (e & tl & (Hlen & Hu & Hfirst & Hhead & Htail & Hpair & Hsec) & -> & -> & ->). unfold entry_bytes, entry_fixed in *. rewrite <- !app_assoc in *. unfold MAX_TERM_BYTES in *.
    give_lifted u16_format (len (e_text e)); [change (2 ^ 16) with 65536; lia|]. rewrite (proj2 (N.eqb_neq _ _)), (proj2 (N.ltb_ge _ _)) by lia. cbn [orb].
    give_lifted u16_format 0; [done|]. cbn [N.eqb negb]. give_lifted u32_format (e_head e); [done|]. give_lifted u32_format (e_tail e); [done|].
    rewrite give_ref by (rewrite <- ?app_assoc in *; done). cbn [rbind].
    give_lifted u32_format (inline_code (e_second e)); [by destruct (e_second e)|]. rewrite Hpair. cbn [negb orb].
    assert (Hc : inline_code (e_second e) <= if packed then 2 else 0) by (destruct packed; [by destruct (e_second e)|by rewrite Hsec]).
    rewrite (proj2 (N.ltb_ge _ _)) by done. give_lifted (take_format (len (e_text e))) (e_text e); [done|]. unfold Datatypes.id. rewrite Hu. cbn [negb].
    rewrite give_second; [|rewrite <- ?app_assoc in *; done|done|destruct packed; lia|by destruct packed]. cbn [rbind].
    rewrite <- !app_assoc. unfold entry_term. do 2 f_equal. destruct packed; [done|]. by rewrite Hsec.
Qed.
End Entries.

(** ** The entries behind a header *)
Definition entries (packed : bool) (l : list Entry) : list byte := l ≫= entry_bytes packed.
Lemma entries_cons packed e l : entries packed (e :: l) = entry_bytes packed e ++ entries packed l.
Proof. done. Qed.
Lemma entries_app packed a b : entries packed (a ++ b) = entries packed a ++ entries packed b.
Proof. apply bind_app. Qed.
Lemma entry_terms_app packed blk a b at_ : entry_terms packed blk at_ (a ++ b) = entry_terms packed blk at_ a ++ entry_terms packed blk (at_ + len (entries packed a)) b.
Proof.
  revert at_. induction a as [|e a IH]; intros at_; [cbn; by rewrite N.add_0_r|]. cbn [app entry_terms]. rewrite IH, entries_cons, len_app, len_entry_bytes, N.add_assoc. done.
Qed.
Section Items.
Context (packed : bool) (blk : N).
Let iter pre s := Terms.mk blk (reading pre s) packed false.
Lemma next_entry e pre tl : small (pre ++ entry_bytes packed e ++ tl) -> entry_wf packed blk e -> len pre + 16 < 2 ^ 16 ->
  Terms.next (iter pre (entry_bytes packed e ++ tl)) = (Some (Ok (entry_term blk (len pre + 16) e)), iter (pre ++ entry_bytes packed e) tl).
Proof.
  intros Hs He Ho. unfold Terms.next, iter. cbn [Terms.failed Terms.reader Terms.page Terms.packed]. rewrite reading_remaining, len_app, len_entry_bytes. unfold entry_size, DICTIONARY_ENTRY.
  rewrite (proj2 (N.eqb_neq _ _)) by (destruct packed; lia). cbn [orb].
  rewrite (proj2 (entry_exact packed blk pre _ (entry_term blk (len pre + 16) e) (reading (pre ++ entry_bytes packed e) tl) Hs)); [done|]. exists e, tl. rewrite trunc_small by done. by split_and!.
Qed.
(** The iterator yields the entries of their encoding. *)
Lemma items_entries l : forall fuel pre, Forall (entry_wf packed blk) l -> small (pre ++ entries packed l) -> len pre + 16 + len (entries packed l) < 2 ^ 16 -> (length l < fuel)%nat ->
  Terms.items_fuel fuel (iter pre (entries packed l)) = Ok <$> entry_terms packed blk (len pre + 16) l.
Proof.
  induction l as [|e l IH]; intros [|fuel] pre Hl Hs Hlen Hf; try lia; cbn [Terms.items_fuel].
  - unfold Terms.next, iter. cbn [Terms.failed Terms.reader]. by rewrite reading_remaining.
  - apply list.Forall_cons in Hl as [He Hl]. rewrite entries_cons in *. rewrite len_app, len_entry_bytes in Hlen. rewrite next_entry by (done || lia). cbn [entry_terms fmap list_fmap].
    f_equal. cbn [length] in Hf. rewrite IH; [|done|by rewrite <- app_assoc|rewrite len_app, len_entry_bytes; lia|lia]. rewrite len_app, len_entry_bytes. do 2 f_equal. lia.
Qed.
(** Only encodings of entries yield no error. *)
Lemma items_inv fuel : forall pre s, small (pre ++ s) -> (length s < fuel)%nat -> Forall (fun r => is_ok r = true) (Terms.items_fuel fuel (iter pre s)) ->
  exists l, Forall (entry_wf packed blk) l /\ s = entries packed l.
Proof.
  induction fuel as [|fuel IH]; intros pre s Hs Hf H; [lia|]. cbn [Terms.items_fuel] in H. unfold Terms.next, iter in H. cbn [Terms.failed Terms.reader Terms.page Terms.packed orb] in H.
  rewrite reading_remaining in H. destruct (N.eqb_spec (len s) 0) as [->%len_zero|_]; [by exists []|].
  destruct (Terms.entry _) as [[t r]|e|] eqn:E; try by apply list.Forall_cons in H as [H _]. apply list.Forall_cons in H as [_ H].
  apply entry_exact in E as (e & tl & He & -> & -> & _); [|done]. 
  apply IH in H as (l & Hl & ->); [by exists (e :: l); split; [constructor|]|by rewrite <- app_assoc|].
  pose proof (len_entry_bytes packed e) as Hn. unfold entry_size, DICTIONARY_ENTRY in Hn. rewrite length_app in Hf. unfold len in Hn. lia.
Qed.
End Items.
Lemma entries_length packed l : N.of_nat (length l) <= len (entries packed l).
Proof.
  induction l as [|e l IH]; [done|]. rewrite entries_cons, len_app, len_entry_bytes. unfold entry_size, DICTIONARY_ENTRY. cbn [length]. lia.
Qed.

(** ** Pages *)
Definition dict_head (packed : bool) (blk next : N) : list byte := head_bytes 3 (N.b2n packed) blk next.
Record dict_rep (packed : bool) (p : Page.t) (next : N) (l : list Entry) : Prop := {
  d_kind : Page.kind p = PageKind.Dictionary;
  d_full : len (Page.buffer p) = CAPACITY;
  d_length : Page.length_ p = PAGE_HEADER + len (entries packed l);
  d_short : Page.length_ p <= CAPACITY;
  d_block : Page.block p < 2 ^ 32 /\ block_valid (Page.block p) = true;
  d_next : next < 2 ^ 32 /\ next_ok (Page.block p) PageKind.Dictionary next;
  d_wf : Forall (entry_wf packed (Page.block p)) l;
  d_bytes : exists rest, Page.buffer p = dict_head packed (Page.block p) next ++ entries packed l ++ rest }.
Section Rep.
Context (packed : bool) (p : Page.t) (next : N) (l : list Entry) (Hrep : dict_rep packed p next l).
Lemma dict_fits : page_fits p.
Proof. split; apply Hrep. Qed.
Lemma dict_packed : Page.packed_dictionary_format p = Ok packed.
Proof.
  destruct Hrep as [Hk _ _ _ _ _ _ (rest & Eb)]. unfold Page.packed_dictionary_format, Page.is_kind. rewrite bool_decide_eq_true_2 by done. cbn [negb].
  assert (E : index (Page.buffer p) 7 = Some (byte_of (N.b2n packed))) by by rewrite Eb. rewrite E. by destruct packed.
Qed.
Lemma dict_rest : slice_from (take (N.to_nat (Page.length_ p)) (Page.buffer p)) PAGE_HEADER = Some (entries packed l).
Proof.
  destruct Hrep as [_ _ Hl Hs _ _ _ (rest & Eb)]. rewrite Eb, app_assoc, take_app_length'; cycle 1.
  { rewrite <- to_nat_len, len_app, Hl. done. }
  apply (slice_from_app _ 0 (dict_head packed (Page.block p) next) (entries packed l)). unfold slice_from. by rewrite (proj2 (N.leb_le _ _)) by lia.
Qed.
Lemma dict_terms : TermPage.terms p = Ok (Terms.mk (Page.block p) (reading [] (entries packed l)) packed false).
Proof.
  unfold TermPage.terms. rewrite meta_require by apply Hrep. cbn [rbind]. rewrite bytes_ok by apply dict_fits. cbn [rbind]. rewrite dict_rest. cbn [or_panic ok_or rbind].
  rewrite dict_packed. cbn [rbind]. by rewrite reading_new.
Qed.
Lemma dict_items : Terms.items (Terms.mk (Page.block p) (reading [] (entries packed l)) packed false) = Ok <$> entry_terms packed (Page.block p) PAGE_HEADER l.
Proof.
  destruct Hrep as [_ _ Hl Hs _ _ Hwf _]. unfold PAGE_HEADER, CAPACITY in *. unfold Terms.items. cbn [Terms.reader]. rewrite reading_remaining. apply (items_entries packed (Page.block p) l _ []); [done| | |].
  - cbn [app]. unfold small, isize_max. lia.
  - rewrite len_nil. change (2 ^ 16) with 65536. lia.
  - pose proof (entries_length packed l). lia.
Qed.
End Rep.
(** Where an entry begins, and the entries before and behind it. *)
Fixpoint find_entry (packed : bool) (at_ : N) (l : list Entry) (offset : N) : option (list Entry * Entry * list Entry) :=
  match l with
  | [] => None
  | e :: l => if at_ =? offset then Some ([], e, l) else
      match find_entry packed (at_ + entry_size packed e) l offset with Some (pre, x, suf) => Some (e :: pre, x, suf) | None => None end
  end.
Lemma find_entry_some packed l offset pre e suf : forall at_, find_entry packed at_ l offset = Some (pre, e, suf) -> l = pre ++ e :: suf /\ offset = at_ + len (entries packed pre).
Proof.
  revert pre. induction l as [|x l IH]; intros pre at_; [done|]. cbn [find_entry]. destruct (N.eqb_spec at_ offset) as [->|].
  - intros [= <- <- <-]. split; [done|]. cbn. by rewrite N.add_0_r.
  - destruct (find_entry _ _ l offset) as [[[pre' y] suf']|] eqn:E; [|done]. intros [= <- <- <-]. apply IH in E as [-> ->]. split; [done|]. rewrite entries_cons, len_app, len_entry_bytes. lia.
Qed.
Lemma find_entry_here packed pre e suf : forall at_, find_entry packed at_ (pre ++ e :: suf) (at_ + len (entries packed pre)) = Some (pre, e, suf).
Proof.
  induction pre as [|x pre IH]; intros at_; cbn [app find_entry]; [cbn; by rewrite N.add_0_r, N.eqb_refl|].
  rewrite entries_cons, len_app, len_entry_bytes, (proj2 (N.eqb_neq _ _)) by (unfold entry_size, DICTIONARY_ENTRY; lia). by rewrite N.add_assoc, IH.
Qed.
Section Find.
Context (packed : bool) (blk : N).
Lemma find_terms l reference : term_page reference = blk -> forall at_,
  TermPage.find reference (Ok <$> entry_terms packed blk at_ l) =
  match find_entry packed at_ l (term_offset reference) with Some (_, e, _) => Ok (entry_term blk (term_offset reference) e) | None => Err (corrupt (term_offset reference)) end.
Proof.
  intros Hp. induction l as [|e l IH]; intros at_; [done|]. cbn [entry_terms fmap list_fmap TermPage.find find_entry rbind entry_term t_reference].
  destruct reference as [pg off]. cbn [term_page term_offset] in *. subst pg. destruct (N.eqb_spec at_ off) as [->|Hne].
  - by rewrite bool_decide_eq_true_2.
  - rewrite bool_decide_eq_false_2 by congruence. rewrite IH. by destruct (find_entry _ _ l off) as [[[? ?] ?]|].
Qed.
End Find.
(** [Page::term] on a represented page. *)
Definition entry_of {R} (packed : bool) (blk : N) (l : list Entry) (reference : TermRef) (f : list Entry -> Entry -> list Entry -> Result R) : Result R :=
  if negb (term_page reference =? blk) then Err (corrupt 8) else
  match find_entry packed PAGE_HEADER l (term_offset reference) with Some (pre, e, suf) => f pre e suf | None => Err (corrupt (term_offset reference)) end.
Lemma term_ok packed p next l reference : dict_rep packed p next l ->
  TermPage.term p reference = entry_of packed (Page.block p) l reference (fun _ e _ => Ok (entry_term (Page.block p) (term_offset reference) e)).
Proof.
  intros Hrep. unfold TermPage.term, entry_of. destruct (N.eqb_spec (term_page reference) (Page.block p)) as [E|]; cbn [negb]; [|done].
  rewrite (dict_terms _ _ _ _ Hrep). cbn [rbind]. rewrite (dict_items _ _ _ _ Hrep). by apply find_terms.
Qed.

(** ** Writing into an entry *)
Definition raw (text : list byte) (head tail : N) (first : OwnerRef) (code : N) (second : list byte) : list byte :=
  le_bytes 2 (len text) ++ le_bytes 2 0 ++ le_bytes 4 head ++ le_bytes 4 tail ++ ref_bytes first ++ le_bytes 4 code ++ text ++ second.
Lemma entry_raw packed e : entry_bytes packed e = raw (e_text e) (e_head e) (e_tail e) (e_first e) (inline_code (e_second e)) (if packed then second_bytes (e_second e) else []).
Proof. unfold entry_bytes, entry_fixed, raw. by rewrite <- !app_assoc. Qed.
Section Write.
Context (packed : bool) (p : Page.t) (next : N) (pre suf : list Entry) (e : Entry) (Hrep : dict_rep packed p next (pre ++ e :: suf)).
Let offset := PAGE_HEADER + len (entries packed pre).
(** The page with other bytes of the same length in place of the entry. *)
Lemma entry_region : exists a z, len a = offset /\ Page.buffer p = a ++ entry_bytes packed e ++ z /\
  (forall bs, len bs = entry_size packed e -> page_fits (Page.set_buffer p (a ++ bs ++ z))) /\
  forall e', e_text e' = e_text e -> entry_wf packed (Page.block p) e' -> dict_rep packed (Page.set_buffer p (a ++ entry_bytes packed e' ++ z)) next (pre ++ e' :: suf).
Proof.
  destruct Hrep as [Hk Hf Hl Hs Hb Hn Hw (rest & Eb)]. exists (dict_head packed (Page.block p) next ++ entries packed pre), (entries packed suf ++ rest).
  rewrite entries_app, entries_cons in *. split; [by rewrite len_app|]. split; [rewrite Eb; by rewrite <- !app_assoc|].
  assert (Hsize : forall bs, len bs = entry_size packed e -> len ((dict_head packed (Page.block p) next ++ entries packed pre) ++ bs ++ entries packed suf ++ rest) = CAPACITY).
  { intros bs Hbs. rewrite <- Hf, Eb, !len_app, Hbs, len_entry_bytes. lia. }
  split; [intros bs Hbs; split; [by apply Hsize|done]|]. intros e' He Hw'.
  assert (He' : len (entry_bytes packed e') = entry_size packed e) by (rewrite len_entry_bytes; unfold entry_size; by rewrite He).
  constructor; cbn [Page.set_buffer Page.kind Page.buffer Page.length_ Page.block]; try done.
  - by apply Hsize.
  - rewrite entries_app, entries_cons, !len_app, He', Hl, !len_app, len_entry_bytes. done.
  - apply Forall_app in Hw as [Hw1 Hw2]. apply list.Forall_cons in Hw2 as [_ Hw2]. apply Forall_app. split; [done|by constructor].
  - exists rest. rewrite entries_app, entries_cons, <- !app_assoc. done.
Qed.
End Write.
Section Raw.
Context (q : Page.t) (a z text : list byte) (head tail : N) (first : OwnerRef) (code : N) (second : list byte).
Context (Hq : page_fits q) (Eb : Page.buffer q = a ++ raw text head tail first code second ++ z).
Lemma put_head v : Page.put_u32 q (len a + 4) v = Ok (Page.set_buffer q (a ++ raw text v tail first code second ++ z)).
Proof.
  destruct Hq as [Hb Hl]. rewrite (put_u32_mid q (a ++ le_bytes 2 (len text) ++ le_bytes 2 0) (le_bytes 4 head) (le_bytes 4 tail ++ ref_bytes first ++ le_bytes 4 code ++ text ++ second ++ z)); try done.
  - unfold raw. by rewrite <- !app_assoc.
  - rewrite Eb. unfold raw. by rewrite <- !app_assoc.
  - rewrite !len_app, !len_le_bytes. lia.
Qed.
Lemma put_tail v : Page.put_u32 q (len a + 8) v = Ok (Page.set_buffer q (a ++ raw text head v first code second ++ z)).
Proof.
  destruct Hq as [Hb Hl]. rewrite (put_u32_mid q (a ++ le_bytes 2 (len text) ++ le_bytes 2 0 ++ le_bytes 4 head) (le_bytes 4 tail) (ref_bytes first ++ le_bytes 4 code ++ text ++ second ++ z)); try done.
  - unfold raw. by rewrite <- !app_assoc.
  - rewrite Eb. unfold raw. by rewrite <- !app_assoc.
  - rewrite !len_app, !len_le_bytes. lia.
Qed.
Lemma put_code v : Page.put_u32 q (len a + 28) v = Ok (Page.set_buffer q (a ++ raw text head tail first v second ++ z)).
Proof.
  destruct Hq as [Hb Hl]. rewrite (put_u32_mid q (a ++ le_bytes 2 (len text) ++ le_bytes 2 0 ++ le_bytes 4 head ++ le_bytes 4 tail ++ ref_bytes first) (le_bytes 4 code) (text ++ second ++ z)); try done.
  - unfold raw. by rewrite <- !app_assoc.
  - rewrite Eb. unfold raw. by rewrite <- !app_assoc.
  - rewrite !len_app, !len_le_bytes, len_ref_bytes. lia.
Qed.
Lemma second_region : len second = 16 -> exists b, len b = len a + DICTIONARY_ENTRY + len text /\ Page.buffer q = b ++ second ++ z /\
  forall x, b ++ x ++ z = a ++ raw text head tail first code x ++ z.
Proof.
  intros Hs. exists (a ++ le_bytes 2 (len text) ++ le_bytes 2 0 ++ le_bytes 4 head ++ le_bytes 4 tail ++ ref_bytes first ++ le_bytes 4 code ++ text).
  split; [rewrite !len_app, !len_le_bytes, len_ref_bytes; unfold DICTIONARY_ENTRY; lia|]. split; [rewrite Eb|intros x]; unfold raw; by rewrite <- !app_assoc.
Qed.
End Raw.
Lemma len_raw text head tail first code second : len (raw text head tail first code second) = DICTIONARY_ENTRY + len text + len second.
Proof. unfold raw. rewrite !len_app, !len_le_bytes, len_ref_bytes. unfold DICTIONARY_ENTRY. lia. Qed.

(** * The abstract dictionary page *)
Inductive DictOp : Type :=
| AddTerm (text : list byte) (first : OwnerRef)
| SetChain (term : TermRef) (head tail : N)
| Promote (term : TermRef) (block : N)
| SetSecond (term : TermRef) (second : option OwnerRef).
Inductive DictResult : Type := Added (term : option TermRef) | Promoted (second : OwnerRef) | Changed.
Definition with_chain (e : Entry) (head tail : N) : Entry := mkEntry (e_text e) (e_first e) head tail (e_second e).
Definition with_second (e : Entry) (head tail : N) (s : Second) : Entry := mkEntry (e_text e) (e_first e) head tail s.
Definition entries_end (packed : bool) (l : list Entry) : N := PAGE_HEADER + len (entries packed l).
Definition dict_step (packed : bool) (blk : N) (l : list Entry) (op : DictOp) : Result (DictResult * list Entry) :=
  match op with
  | AddTerm text first =>
      if (len text =? 0) || (MAX_TERM_BYTES <? len text) then Err InvalidDocument else
      let e := mkEntry text first NO_BLOCK NO_BLOCK Alone in
      if CAPACITY <? entries_end packed l + entry_size packed e then Ok (Added None, l)
      else Ok (Added (Some (mkTermRef blk (entries_end packed l))), l ++ [e])
  | SetChain term head tail => entry_of packed blk l term (fun pre e suf =>
      match e_second e with
      | Inline _ => Err InvalidState
      | _ => if posting_pair_valid head tail then Ok (Changed, pre ++ with_chain e head tail :: suf) else Err (corrupt (term_offset term))
      end)
  | Promote term block => entry_of packed blk l term (fun pre e suf =>
      match e_second e with
      | Inline o => if block_valid block && negb (block =? blk) then Ok (Promoted o, pre ++ with_second e block block (Shadow o) :: suf) else Err InvalidState
      | _ => Err InvalidState
      end)
  | SetSecond term second => if negb packed then Err InvalidState else entry_of packed blk l term (fun pre e suf =>
      match second, e_second e with
      | Some o, Alone => if (e_head e =? NO_BLOCK) && (e_tail e =? NO_BLOCK) && PostingPage.ref_before (e_first e) o
                         then Ok (Changed, pre ++ with_second e blk blk (Inline o) :: suf) else Err InvalidState
      | None, Inline _ => Ok (Changed, pre ++ with_second e NO_BLOCK NO_BLOCK Alone :: suf)
      | _, _ => Err InvalidState
      end)
  end.
Definition term_page_step (p : Page.t) (op : DictOp) : Result (DictResult * Page.t) :=
  match op with
  | AddTerm text first => let* '(r, p) := TermPage.append_term p text first in Ok (Added r, p)
  | SetChain term head tail => let* p := TermPage.set_posting_chain p term head tail in Ok (Changed, p)
  | Promote term block => let* '(o, p) := TermPage.promote_inline_second p term block in Ok (Promoted o, p)
  | SetSecond term second => let* p := TermPage.set_inline_second p term second in Ok (Changed, p)
  end.
(** The precondition of the simulation, which is not a check of the code: values of their
    types, and on a packed page a chain that is not the page itself and that is not
    taken away from a promoted term. [set_posting_chain] accepts such calls too. *)
Definition dict_op_ok (packed : bool) (blk : N) (l : list Entry) (op : DictOp) : Prop :=
  match op with
  | AddTerm text first => utf8_valid text = true /\ ref_wf first
  | SetChain term head tail => head < 2 ^ 32 /\ tail < 2 ^ 32 /\
      (packed = true -> head <> blk /\ tail <> blk /\
        forall pre e suf o, find_entry packed PAGE_HEADER l (term_offset term) = Some (pre, e, suf) -> e_second e = Shadow o -> head <> NO_BLOCK /\ tail <> NO_BLOCK)
  | Promote term block => block < 2 ^ 32
  | SetSecond term second => match second with Some o => ref_wf o | None => True end
  end.

Section Steps.
Context (packed : bool) (p : Page.t) (next : N) (l : list Entry) (Hrep : dict_rep packed p next l).
Definition simulates (r : Result (DictResult * list Entry)) (q : Result (DictResult * Page.t)) : Prop :=
  match r with
  | Ok (x, l') => exists p', q = Ok (x, p') /\ dict_rep packed p' next l' /\ Page.block p' = Page.block p
  | Err e => q = Err e
  | Panic => False
  end.
Lemma add_term_ok text first : utf8_valid text = true -> ref_wf first -> simulates (dict_step packed (Page.block p) l (AddTerm text first)) (term_page_step p (AddTerm text first)).
Proof.
  intros Hu Hw. pose proof Hrep as [Hk Hb Hl Hs Hblk Hn Hall (rest & Eb)]. unfold simulates. cbn [dict_step term_page_step]. unfold TermPage.append_term.
  rewrite meta_require by done. cbn [rbind]. destruct ((len text =? 0) || (MAX_TERM_BYTES <? len text)) eqn:Ez; [done|]. apply orb_false_iff in Ez as [Ez1%N.eqb_neq Ez2%N.ltb_ge].
  rewrite (dict_packed _ _ _ _ Hrep). cbn [rbind]. set (e := mkEntry text first NO_BLOCK NO_BLOCK Alone). rewrite Hl. fold (entries_end packed l).
  assert (Esize : entries_end packed l + DICTIONARY_ENTRY + len text + (if packed then 16 else 0) = entries_end packed l + entry_size packed e) by (unfold entry_size, e; cbn [e_text]; lia).
  rewrite Esize. destruct (N.ltb_spec CAPACITY (entries_end packed l + entry_size packed e)) as [|Hroom]; [eexists; done|].
  set (hd := dict_head packed (Page.block p) next ++ entries packed l). assert (Hhd : len hd = entries_end packed l) by (unfold hd, entries_end; by rewrite len_app).
  assert (Hpos : len rest = CAPACITY - entries_end packed l) by (rewrite app_assoc in Eb; fold hd in Eb; rewrite Eb, len_app, Hhd in Hb; lia).
  set (x := take (N.to_nat (entry_size packed e)) rest). set (rest' := drop (N.to_nat (entry_size packed e)) rest).
  assert (Hx : len x = entry_size packed e) by (unfold x; rewrite len_take; lia).
  assert (Eb' : Page.buffer p = hd ++ x ++ rest') by (unfold x, rest', hd; by rewrite Eb, take_drop, <- app_assoc).
  rewrite Eb', (slice_app hd x rest') by (rewrite ?Hx, Hhd; done). cbn [or_panic ok_or rbind].
  assert (Hbytes : entry_bytes packed e = le_bytes 2 (len text) ++ le_bytes 2 0 ++ le_bytes 4 NO_BLOCK ++ le_bytes 4 NO_BLOCK ++ ref_bytes first ++ le_bytes 4 0 ++ text ++ if packed then replicate 16 (byte_of 0) else []).
  { rewrite entry_raw. unfold raw. by destruct packed. }
  assert (Hlen := len_entry_bytes packed e). rewrite Hbytes, !len_app, !len_le_bytes, len_ref_bytes in Hlen.
  assert (Hsm : small x) by (unfold small, isize_max; unfold CAPACITY in *; lia).
  assert (Ew : (let* w := lift_codec (Writer.u16 (Writer.new x) (trunc 16 (len text))) in
    let* w := lift_codec (Writer.u16 w 0) in let* w := lift_codec (Writer.u32 w NO_BLOCK) in let* w := lift_codec (Writer.u32 w NO_BLOCK) in
    let* w := OwnerRef_write first w in let* w := lift_codec (Writer.u32 w 0) in let* w := lift_codec (Writer.put w text) in
    if packed then lift_codec (Writer.put w (replicate 16 (byte_of 0))) else Ok w) = Ok (E := Error) (writing x (entry_bytes packed e))).
  { unfold MAX_TERM_BYTES in Ez2. rewrite trunc_small by (change (2 ^ 16) with 65536; lia). rewrite writing_new. unfold Writer.u16, Writer.u32.
    repeat (rewrite put_writing; [cbn [lift_codec map_err rbind]|done|rewrite ?len_app, ?len_le_bytes, ?len_nil; lia]).
    rewrite ref_write; [cbn [rbind]|done|done|rewrite ?len_app, ?len_le_bytes, ?len_nil; lia].
    repeat (rewrite put_writing; [cbn [lift_codec map_err rbind]|done|rewrite ?len_app, ?len_le_bytes, ?len_ref_bytes, ?len_nil; lia]).
    rewrite Hbytes. destruct packed.
    - rewrite put_writing; [cbn [lift_codec map_err]|done|rewrite ?len_app, ?len_le_bytes, ?len_ref_bytes, ?len_nil; lia]. by rewrite <- !app_assoc.
    - by rewrite app_nil_r, <- !app_assoc. }
  do 7 (apply rbind_ok in Ew as (? & ?E & Ew); rewrite E; clear E; cbn [rbind]). rewrite Ew. cbn [rbind].
  eexists. split; [rewrite trunc_small by (unfold CAPACITY in *; change (2 ^ 16) with 65536; lia); reflexivity|]. split; [|done].
  assert (Ebuf : splice (hd ++ x ++ rest') (entries_end packed l) (entry_bytes packed e) = hd ++ entry_bytes packed e ++ rest') by (apply splice_mid; [done|by rewrite len_entry_bytes]).
  constructor; cbn [Page.write_back Page.set_buffer Page.set_length Page.kind Page.buffer Page.length_ Page.block]; rewrite ?writing_all, ?Eb', ?Ebuf by (by rewrite len_entry_bytes); try done.
  - rewrite !len_app, len_entry_bytes, <- Hx, <- Hb, Eb', !len_app. done.
  - rewrite entries_app, len_app. unfold entries_end. cbn [entries mbind list_bind]. rewrite app_nil_r, len_entry_bytes. lia.
  - apply Forall_app. split; [done|]. apply list.Forall_singleton. unfold entry_wf, e. cbn [e_text e_first e_head e_tail e_second].
    split; [unfold MAX_TERM_BYTES in *; lia|]. split; [done|]. split; [done|]. split; [done|]. split; [done|]. split; [done|]. destruct packed; [|done].
    destruct Hblk as [_ Hv]. unfold block_valid in Hv. apply andb_true_iff in Hv as [_ Hv%negb_true_iff%N.eqb_neq]. unfold second_wf. cbn. by split; apply not_eq_sym.
  - exists rest'. rewrite entries_app. unfold hd. cbn [entries mbind list_bind]. rewrite app_nil_r, <- !app_assoc. done.
Qed.
Lemma entry_of_sim term f (g : Term -> Result (DictResult * Page.t)) :
  (forall pre e suf, l = pre ++ e :: suf -> term_offset term = PAGE_HEADER + len (entries packed pre) -> find_entry packed PAGE_HEADER l (term_offset term) = Some (pre, e, suf) ->
     simulates (f pre e suf) (g (entry_term (Page.block p) (term_offset term) e))) ->
  simulates (entry_of packed (Page.block p) l term f) (let* t := TermPage.term p term in g t).
Proof.
  intros H. rewrite (term_ok packed p next l term Hrep). unfold entry_of. destruct (negb _); [done|].
  destruct (find_entry packed PAGE_HEADER l (term_offset term)) as [[[pre e] suf]|] eqn:E; [|done].
  cbn [rbind]. apply H; [| |done]; by apply (find_entry_some _ _ _ _ _ _ _ E).
Qed.
Lemma entry_wf_at pre e suf : l = pre ++ e :: suf -> entry_wf packed (Page.block p) e.
Proof. intros ->. destruct Hrep as [_ _ _ _ _ _ Hw _]. apply Forall_app in Hw as [_ Hw]. by apply list.Forall_cons in Hw as [? _]. Qed.
Lemma pair_wf h t : posting_pair_valid h t = true -> (h = NO_BLOCK <-> t = NO_BLOCK).
Proof. unfold posting_pair_valid, block_valid. destruct (N.eqb_spec h NO_BLOCK), (N.eqb_spec t NO_BLOCK); rewrite ?andb_false_r; cbn; naive_solver. Qed.
Lemma raw_fits pre e suf text h t o c x : l = pre ++ e :: suf -> text = e_text e -> (packed = true -> len x = 16) -> (packed = false -> x = []) ->
  len (raw text h t o c x) = entry_size packed e.
Proof. intros _ -> Hx Hx'. rewrite len_raw. unfold entry_size. destruct packed; [by rewrite Hx|by rewrite Hx', len_nil]. Qed.
Lemma set_chain_ok term h t : dict_op_ok packed (Page.block p) l (SetChain term h t) -> simulates (dict_step packed (Page.block p) l (SetChain term h t)) (term_page_step p (SetChain term h t)).
Proof.
  intros (Hh & Ht & Hop). cbn [dict_step term_page_step]. unfold TermPage.set_posting_chain. rewrite rbind_assoc. apply entry_of_sim. intros pre e suf El Ho Ef. cbn [entry_term t_inline].
  assert (Hi : (exists o, e_second e = Inline o) \/ inline_of (e_second e) = None) by (destruct (e_second e); [by right|left; by eexists|by right]).
  destruct Hi as [[o Es]|Hi]; [by rewrite Es|]. rewrite Hi.
  assert (Em : forall A (x y : A), match e_second e with Inline _ => x | _ => y end = y) by (intros; by destruct (e_second e)). rewrite Em.
  destruct (posting_pair_valid h t) eqn:Ep; cbn [negb rbind simulates]; [|done].
  pose proof Hrep as Hrep2. rewrite El in Hrep2. destruct (entry_region packed p next pre suf e Hrep2) as (a & z & Ha & Eb & Hfit & Hset). rewrite entry_raw in Eb.
  rewrite Ho, <- Ha, (put_head p a z _ _ _ _ _ _ (dict_fits _ _ _ _ Hrep) Eb). cbn [rbind].
  rewrite (put_tail _ a z (e_text e) h (e_tail e) (e_first e) (inline_code (e_second e)) (if packed then second_bytes (e_second e) else [])); [|apply Hfit; eapply raw_fits; [done|done|intros ->; by apply len_second|by intros ->]|done].
  cbn [rbind]. rewrite set_buffer_twice. eexists. split; [done|]. split; [|done].
  specialize (Hset (with_chain e h t) eq_refl). rewrite entry_raw in Hset. apply Hset. clear Hset.
  destruct (entry_wf_at _ _ _ El) as (W1 & W2 & W3 & _ & _ & _ & W7). unfold entry_wf, with_chain. cbn [e_text e_first e_head e_tail e_second]. do 6 (split; [done|]).
  destruct packed; [|done]. destruct (Hop eq_refl) as (O1 & O2 & O3). unfold second_wf in *. cbn [e_text e_first e_head e_tail e_second]. destruct (e_second e) as [|o|o] eqn:Es; [done|done|].
  destruct W7 as (W71 & W72 & _). destruct (O3 _ _ _ _ Ef Es). by split_and!.
Qed.
Lemma block_ne : Page.block p <> NO_BLOCK.
Proof. destruct Hrep as [_ _ _ _ [_ Hv] _ _ _]. by apply andb_true_iff in Hv as [_ Hv%negb_true_iff%N.eqb_neq]. Qed.
Lemma promote_ok term b : b < 2 ^ 32 -> simulates (dict_step packed (Page.block p) l (Promote term b)) (term_page_step p (Promote term b)).
Proof.
  intros Hb32. cbn [dict_step term_page_step]. unfold TermPage.promote_inline_second. rewrite rbind_assoc. apply entry_of_sim. intros pre e suf El Ho Ef. cbn [entry_term t_inline].
  destruct (e_second e) as [|o|o] eqn:Es; cbn [inline_of ok_or rbind]; [done| |done]. destruct (block_valid b) eqn:Eb; cbn [negb orb andb]; [|done].
  destruct (N.eqb_spec b (Page.block p)) as [|Hne]; cbn [negb]; [done|]. cbn [simulates].
  destruct (entry_wf_at _ _ _ El) as (W1 & W2 & W3 & _ & _ & _ & W7). rewrite Es in W7. assert (Epk : packed = true) by by destruct packed. rewrite Epk in W7.
  pose proof Hrep as Hrep2. rewrite El in Hrep2. destruct (entry_region packed p next pre suf e Hrep2) as (a & z & Ha & Ebuf & Hfit & Hset). rewrite entry_raw, Es, Epk in Ebuf. cbn [second_bytes] in Ebuf.
  assert (Hfits : forall h t c, page_fits (Page.set_buffer p (a ++ raw (e_text e) h t (e_first e) c (ref_bytes o) ++ z))).
  { intros h t c. apply Hfit. rewrite len_raw, len_ref_bytes, Epk. unfold entry_size. lia. }
  rewrite Ho, <- Ha, (put_code p a z _ _ _ _ _ _ (dict_fits _ _ _ _ Hrep) Ebuf). cbn [rbind].
  rewrite (put_head _ a z (e_text e) (e_head e) (e_tail e) (e_first e) 2 (ref_bytes o) (Hfits _ _ _) eq_refl). cbn [rbind].
  rewrite set_buffer_twice, (put_tail _ a z (e_text e) b (e_tail e) (e_first e) 2 (ref_bytes o) (Hfits _ _ _) eq_refl). cbn [rbind]. rewrite set_buffer_twice.
  eexists. split; [done|]. split; [|done]. specialize (Hset (with_second e b b (Shadow o)) eq_refl). rewrite entry_raw, Epk in Hset. rewrite Epk. apply Hset. clear Hset.
  unfold second_wf in W7. rewrite Es in W7. destruct W7 as (V1 & V2 & _). pose proof Eb as Eb'. apply andb_true_iff in Eb' as [_ En%negb_true_iff%N.eqb_neq].
  unfold entry_wf, with_second, posting_pair_valid, second_wf. cbn [e_text e_first e_head e_tail e_second]. rewrite Eb, orb_true_r. split_and!; try done; apply W1.
Qed.
Lemma set_second_ok term o : match o with Some o => ref_wf o | None => True end -> simulates (dict_step packed (Page.block p) l (SetSecond term o)) (term_page_step p (SetSecond term o)).
Proof.
  intros Hw. cbn [dict_step term_page_step]. unfold TermPage.set_inline_second. rewrite (dict_packed _ _ _ _ Hrep). cbn [rbind].
  assert (packed = true \/ packed = false) as [Epk|Epk] by (destruct packed; auto); [|by rewrite Epk]. assert (En : negb packed = false) by by rewrite Epk. rewrite En.
  rewrite rbind_assoc. apply entry_of_sim. intros pre e suf El Ho Ef. cbn [entry_term t_inline t_text t_head t_tail t_first].
  destruct (entry_wf_at _ _ _ El) as (W1 & W2 & W3 & W4 & W5 & W6 & W7). rewrite Epk in W7.
  pose proof Hrep as Hrep2. rewrite El in Hrep2. destruct (entry_region packed p next pre suf e Hrep2) as (a & z & Ha & Ebuf & Hfit & Hset). rewrite entry_raw, Epk in Ebuf.
  destruct (second_region p a z _ _ _ _ _ _ Ebuf (len_second _)) as (b & Hb & Eb & Hr). rewrite Ho, <- Ha, <- Hb.
  assert (Hfits : forall h t c x, len x = 16 -> page_fits (Page.set_buffer p (a ++ raw (e_text e) h t (e_first e) c x ++ z))).
  { intros h t c x Hx. apply Hfit. rewrite len_raw, Hx, Epk. unfold entry_size. lia. }
  pose proof (d_block _ _ _ _ Hrep) as [Hblk32 Hblkv]. pose proof block_ne as Hblk.
  destruct o as [o|], (e_second e) as [|o'|o'] eqn:Es; cbn [inline_of negb orb]; try done.
  - destruct (N.eqb_spec (e_head e) NO_BLOCK), (N.eqb_spec (e_tail e) NO_BLOCK), (PostingPage.ref_before (e_first e) o) eqn:Er; cbn [negb orb andb]; try done. cbn [simulates].
    rewrite Eb, (slice_app b _ z) by (rewrite ?len_second; done). cbn [or_panic ok_or rbind].
    rewrite writing_new, ref_write by (done || (unfold small, isize_max; rewrite len_second; lia) || (rewrite len_nil, len_second; lia)). cbn [rbind]. rewrite app_nil_l.
    unfold Page.write_back. rewrite writing_all by (by rewrite len_second). rewrite Eb, splice_mid by (done || by rewrite len_second). rewrite Hr. cbn [second_bytes inline_code].
    rewrite (put_code _ a z (e_text e) (e_head e) (e_tail e) (e_first e) 0 (ref_bytes o) (Hfits _ _ _ _ (len_ref_bytes o)) eq_refl). cbn [rbind].
    rewrite set_buffer_twice, (put_head _ a z (e_text e) (e_head e) (e_tail e) (e_first e) 1 (ref_bytes o) (Hfits _ _ _ _ (len_ref_bytes o)) eq_refl). cbn [rbind].
    rewrite set_buffer_twice, (put_tail _ a z (e_text e) (Page.block p) (e_tail e) (e_first e) 1 (ref_bytes o) (Hfits _ _ _ _ (len_ref_bytes o)) eq_refl). cbn [rbind]. rewrite set_buffer_twice.
    eexists. split; [done|]. split; [|done]. specialize (Hset (with_second e (Page.block p) (Page.block p) (Inline o)) eq_refl). rewrite entry_raw, Epk in Hset. rewrite Epk. apply Hset. clear Hset.
    unfold entry_wf, with_second, posting_pair_valid, second_wf. cbn [e_text e_first e_head e_tail e_second]. rewrite Hblkv, orb_true_r. split_and!; try done; apply W1.
  - unfold second_wf in W7. rewrite Es in W7. destruct W7 as (V1 & V2 & V3 & _). by rewrite (proj2 (N.eqb_neq _ _) V3).
  - unfold second_wf in W7. rewrite Es in W7. destruct W7 as (V1 & V2 & V3 & V4). rewrite V3, V4, !N.eqb_refl. cbn [negb orb simulates]. cbn [second_bytes inline_code] in *.
    rewrite (put_code p a z _ _ _ _ _ _ (dict_fits _ _ _ _ Hrep) Ebuf). cbn [rbind Page.set_buffer Page.buffer].
    destruct (second_region (Page.set_buffer p (a ++ raw (e_text e) (e_head e) (e_tail e) (e_first e) 0 (ref_bytes o') ++ z)) a z _ _ _ _ 0 (ref_bytes o') eq_refl (len_ref_bytes o')) as (b' & Hb' & Eb' & Hr').
    cbn [Page.set_buffer Page.buffer] in Eb'. rewrite Eb', Hb, <- Hb', (slice_app b' _ z) by done. cbn [or_panic ok_or rbind]. change (replicate (length (ref_bytes o')) (byte_of 0)) with (replicate 16 (byte_of 0)).
    set (zeros := replicate 16 (byte_of 0)). assert (Hz : len zeros = 16) by done. rewrite splice_mid, set_buffer_twice, Hr' by done.
    rewrite (put_head _ a z (e_text e) (e_head e) (e_tail e) (e_first e) 0 zeros (Hfits _ _ _ _ Hz) eq_refl). cbn [rbind].
    rewrite set_buffer_twice, (put_tail _ a z (e_text e) NO_BLOCK (e_tail e) (e_first e) 0 zeros (Hfits _ _ _ _ Hz) eq_refl). cbn [rbind]. rewrite set_buffer_twice.
    eexists. split; [done|]. split; [|done]. specialize (Hset (with_second e NO_BLOCK NO_BLOCK Alone) eq_refl). rewrite entry_raw, Epk in Hset. rewrite Epk. apply Hset. clear Hset.
    unfold entry_wf, with_second, second_wf. cbn [e_text e_first e_head e_tail e_second]. split_and!; try done; try apply W1; by apply not_eq_sym.
Qed.
End Steps.

(** Runs in which every caller keeps its obligations. *)
Fixpoint admissible_ops (packed : bool) (blk : N) (l : list Entry) (ops : list DictOp) : Prop :=
  match ops with
  | [] => True
  | op :: ops => dict_op_ok packed blk l op /\ admissible_ops packed blk (snd (attempt (dict_step packed blk) l op)) ops
  end.
Lemma dict_step_sim packed p next l op : dict_rep packed p next l -> dict_op_ok packed (Page.block p) l op ->
  simulates packed p next (dict_step packed (Page.block p) l op) (term_page_step p op).
Proof.
  intros Hrep Hop. destruct op as [text first|term h t|term b|term o].
  - destruct Hop. by apply add_term_ok.
  - by apply set_chain_ok.
  - by apply promote_ok.
  - by apply set_second_ok.
Qed.
Lemma dict_run packed next ops : forall p l, dict_rep packed p next l -> admissible_ops packed (Page.block p) l ops ->
  exists p', run term_page_step p ops = (fst (run (dict_step packed (Page.block p)) l ops), p') /\
    dict_rep packed p' next (snd (run (dict_step packed (Page.block p)) l ops)) /\ Page.block p' = Page.block p /\
    Forall safe (fst (run (dict_step packed (Page.block p)) l ops)).
Proof.
  induction ops as [|op ops IH]; intros p l Hrep Hops; [exists p; by split_and!|]. cbn [run admissible_ops] in *. destruct Hops as [Hop Hops].
  pose proof (dict_step_sim packed p next l op Hrep Hop) as Hs. unfold attempt in *. destruct (dict_step packed (Page.block p) l op) as [[r l']|e|]; cbn [snd] in Hops; [|cbn [simulates] in Hs|done].
  - destruct Hs as (p1 & -> & Hrep1 & Hb1). rewrite <- Hb1 in Hops. destruct (IH p1 l' Hrep1 Hops) as (p2 & E & Hrep2 & Hb2 & Hs2). rewrite Hb1 in *. rewrite E.
    destruct (run (dict_step packed (Page.block p)) l' ops) as [rs l2]. cbn [fst snd] in *. exists p2. split_and!; try done. by constructor.
  - rewrite Hs. destruct (IH p l Hrep Hops) as (p2 & E & Hrep2 & Hb2 & Hs2). rewrite E.
    destruct (run (dict_step packed (Page.block p)) l ops) as [rs l2]. cbn [fst snd] in *. exists p2. split_and!; try done. by constructor.
Qed.
Definition new_dictionary (packed : bool) (block : N) : Result Page.t := if packed then Page.packed_dictionary block else Page.dictionary block.
Lemma dict_fresh packed block : block < 2 ^ 32 -> block_valid block = true -> exists p, new_dictionary packed block = Ok p /\ dict_rep packed p NO_BLOCK [] /\ Page.block p = block.
Proof.
  intros Hb Hv. pose proof Hv as Hv'. apply andb_true_iff in Hv' as [Hz%negb_true_iff%N.eqb_neq Hn%negb_true_iff%N.eqb_neq].
  set (p := Page.mk block PageKind.Dictionary PAGE_HEADER false (splice Page.zeros 0 (head_bytes 3 0 block NO_BLOCK))).
  assert (E : Page.dictionary block = Ok p) by (apply new_ok; split; [done|]; split; [naive_solver|]; by exists 3).
  set (q := Page.set_buffer p (splice Page.zeros 0 (head_bytes 3 (N.b2n packed) block NO_BLOCK))).
  assert (Eq : new_dictionary packed block = Ok q).
  { unfold new_dictionary. destruct packed; [|done]. unfold Page.packed_dictionary. rewrite E. cbn [rbind]. apply (set_byte_mid p (take 7 (head_bytes 3 0 block NO_BLOCK)) (byte_of 0) (drop 8 (head_bytes 3 0 block NO_BLOCK) ++ drop 16 Page.zeros)); done. }
  exists q. split; [exact Eq|]. split; [|done]. constructor; try done.
  - split; [done|by left].
  - exists (drop 16 Page.zeros). done.
Qed.
(** C10: the dictionary, outside the one update that breaks it: in a run on a fresh page,
    packed or not, of calls that neither point the chain of a packed term at the page
    itself nor take the chain of a promoted term away (what then happens is the subject
    of [emptied_chain_unreadable]), the page and the list of entries agree on every
    result and error, the readers return the entries, a term is found at the reference
    that was handed out for it, and nothing panics. *)
Theorem dict_page_run packed block ops : block < 2 ^ 32 -> block_valid block = true -> admissible_ops packed block [] ops ->
  exists p0 p, new_dictionary packed block = Ok p0 /\ run term_page_step p0 ops = (fst (run (dict_step packed block) [] ops), p) /\
    (let l := snd (run (dict_step packed block) [] ops) in
     (exists ts, TermPage.terms p = Ok ts /\ Terms.items ts = Ok <$> entry_terms packed block PAGE_HEADER l) /\
     TermPage.validate_dictionary p = Ok tt /\
     forall reference, TermPage.term p reference = entry_of packed block l reference (fun _ e _ => Ok (entry_term block (term_offset reference) e))) /\
    Forall safe (fst (run (dict_step packed block) [] ops)).
Proof.
  intros Hb Hv Hops. destruct (dict_fresh packed block Hb Hv) as (p0 & E0 & Hrep0 & Eb). exists p0. rewrite <- Eb in Hops.
  destruct (dict_run packed NO_BLOCK ops p0 [] Hrep0 Hops) as (p & Er & Hrep & Ebp & Hs). rewrite Eb in *. exists p. split; [done|]. split; [done|]. split; [|done]. cbv zeta.
  pose proof (dict_items _ _ _ _ Hrep) as Hi. pose proof (dict_terms _ _ _ _ Hrep) as Ht. rewrite Ebp in *. split; [eexists; by split|]. split.
  - unfold TermPage.validate_dictionary, TermPage.each. rewrite Ht. cbn [rbind]. rewrite Hi. generalize (entry_terms packed block PAGE_HEADER (snd (run (dict_step packed block) [] ops))). intros ts. by induction ts.
  - intros reference. rewrite (term_ok _ _ _ _ reference Hrep). by rewrite Ebp.
Qed.
Lemma validated_dictionary p : page_sound p -> Page.kind p = PageKind.Dictionary -> Page.block p <> 0 ->
  (TermPage.validate_dictionary p = Ok tt <-> exists packed next l, dict_rep packed p next l).
Proof.
  intros (Hf & H16 & Hne & Hh) Hk H0. split.
  - destruct Hh as (tag & flags & next & tl & Eb & _ & Hblk & Hnx & Ht & Hfl & Hno). rewrite Hk in Ht, Hno. apply kind_tags in Ht. injection Ht as <-.
    assert (exists packed, flags = N.b2n packed) as [packed ->] by (destruct Hfl as [->|[-> _]]; [by exists false|by exists true]).
    pose proof Hf as [Hbuf Hcap]. set (n := N.to_nat (Page.length_ p - 16)). set (s := take n tl).
    assert (Hs : take (N.to_nat (Page.length_ p)) (Page.buffer p) = dict_head packed (Page.block p) next ++ s).
    { rewrite Eb. unfold dict_head, s, n. replace (N.to_nat (Page.length_ p)) with (length (head_bytes 3 (N.b2n packed) (Page.block p) next) + N.to_nat (Page.length_ p - 16))%nat.
      - by rewrite take_app_add.
      - change (length (head_bytes 3 (N.b2n packed) (Page.block p) next)) with 16%nat. lia. }
    assert (Hsl : len s = Page.length_ p - 16) by (pose proof (used_len p Hf) as Hu; rewrite Hs, len_app in Hu; change (len (dict_head packed (Page.block p) next)) with 16 in Hu; lia).
    unfold TermPage.validate_dictionary, TermPage.each, TermPage.terms. rewrite meta_require, bytes_ok by done. cbn [rbind]. rewrite Hs.
    assert (E1 : slice_from (dict_head packed (Page.block p) next ++ s) PAGE_HEADER = Some s) by (apply (slice_from_app _ 0 (dict_head packed (Page.block p) next)); unfold slice_from; by rewrite (proj2 (N.leb_le _ _)) by lia).
    rewrite E1. cbn [or_panic ok_or rbind].
    assert (E2 : Page.packed_dictionary_format p = Ok packed).
    { unfold Page.packed_dictionary_format, Page.is_kind. rewrite bool_decide_eq_true_2 by done. cbn [negb]. assert (E : index (Page.buffer p) 7 = Some (byte_of (N.b2n packed))) by by rewrite Eb. rewrite E. by destruct packed. }
    rewrite E2. cbn [rbind]. rewrite reading_new. unfold Terms.items. cbn [Terms.reader]. rewrite reading_remaining. intros H.
    assert (Hok : Forall (fun r => is_ok r = true) (Terms.items_fuel (S (N.to_nat (len s))) (Terms.mk (Page.block p) (reading [] s) packed false))).
    { revert H. generalize (Terms.items_fuel (S (N.to_nat (len s))) (Terms.mk (Page.block p) (reading [] s) packed false)). intros rs. induction rs as [|[t|e|] rs IH]; intros H; try done; constructor; [done|by apply IH]. }
    apply items_inv in Hok as (l & Hl & El); [|cbn [app]; unfold small, isize_max; unfold CAPACITY in *; lia|unfold len; lia].
    exists packed, next, l. constructor; try done.
    + rewrite <- El. unfold PAGE_HEADER. lia.
    + split; [done|]. unfold block_valid. by rewrite (proj2 (N.eqb_neq _ _) H0), (proj2 (N.eqb_neq _ _) Hne).
    + exists (drop n tl). rewrite <- El. unfold s. rewrite take_drop. exact Eb.
  - intros (packed & next & l & Hrep). unfold TermPage.validate_dictionary, TermPage.each. rewrite (dict_terms _ _ _ _ Hrep). cbn [rbind]. rewrite (dict_items _ _ _ _ Hrep).
    generalize (entry_terms packed (Page.block p) PAGE_HEADER l). intros ts. by induction ts.
Qed.
(** C24: the validation of a dictionary page accepts exactly the images of lists of
    well-formed entries, in the format that the flag of the header names. *)
Theorem dict_validate_exact p : page_sound p -> Page.kind p = PageKind.Dictionary -> Page.block p <> 0 ->
  (TermPage.validate_dictionary p = Ok tt <-> exists packed next l, dict_rep packed p next l).
Proof. apply validated_dictionary. Qed.

(** ** A promoted term that loses its chain *)
(** One field of a computation on given bytes. *)
Lemma lifted {A} (m : Reader.t -> Codec.Result (A * Reader.t)) enc P v pre tl : format m enc P -> small (pre ++ enc v ++ tl) -> P v ->
  lift_codec (m (reading pre (enc v ++ tl))) = Ok (v, reading (pre ++ enc v) tl).
Proof. intros Hf Hs Hv. assert (E : m (reading pre (enc v ++ tl)) = Ok (v, reading (pre ++ enc v) tl)) by (apply Hf; [done|]; split; [done|]; by exists tl). by rewrite E. Qed.
Ltac lifted_step F v := rewrite (lifted _ _ _ v _ _ F); [cbn [rbind]|rewrite <- ?app_assoc in *; assumption|].
Section Emptied.
Context (blk : N).
Let iter pre s := Terms.mk blk (reading pre s) true false.
Lemma items_prefix l s : forall fuel pre, Forall (entry_wf true blk) l -> small (pre ++ entries true l ++ s) -> len pre + 16 + len (entries true l ++ s) < 2 ^ 16 ->
  Terms.items_fuel (length l + fuel) (iter pre (entries true l ++ s)) = (Ok <$> entry_terms true blk (len pre + 16) l) ++ Terms.items_fuel fuel (iter (pre ++ entries true l) s).
Proof.
  induction l as [|e l IH]; intros fuel pre Hl Hs Hlen; [cbn [length Nat.add entries mbind list_bind app entry_terms fmap list_fmap]; by rewrite app_nil_r|].
  apply list.Forall_cons in Hl as [He Hl]. rewrite entries_cons, <- app_assoc in *. cbn [length Nat.add Terms.items_fuel].
  assert (Hn := len_entry_bytes true e). rewrite len_app, Hn in Hlen. unfold iter in *. rewrite next_entry by (done || lia). cbn [entry_terms fmap list_fmap app]. f_equal.
  rewrite IH; [|done|by rewrite <- app_assoc|rewrite len_app, Hn; lia]. rewrite len_app, Hn, <- app_assoc. do 3 f_equal. lia.
Qed.
Lemma shadow_entry text first o pre s : 1 <= len text <= MAX_TERM_BYTES -> utf8_valid text = true -> ref_wf first -> ref_wf o ->
  small (pre ++ raw text NO_BLOCK NO_BLOCK first 2 (ref_bytes o) ++ s) ->
  Terms.entry (iter pre (raw text NO_BLOCK NO_BLOCK first 2 (ref_bytes o) ++ s)) = Err (corrupt (len pre + 16 + DICTIONARY_ENTRY + len text)).
Proof.
  intros Hlen Hu Hfirst Ho Hs. unfold Terms.entry, iter. cbn [Terms.reader Terms.packed Terms.page]. change (Reader.offset (reading pre _)) with (len pre). change PAGE_HEADER with 16.
  unfold raw in *. rewrite <- !app_assoc in *. unfold MAX_TERM_BYTES in *.
  lifted_step u16_format (len text); [|change (2 ^ 16) with 65536; lia]. rewrite (proj2 (N.eqb_neq _ _)), (proj2 (N.ltb_ge _ _)) by lia. cbn [orb].
  lifted_step u16_format 0; [|done]. cbn [N.eqb negb]. lifted_step u32_format NO_BLOCK; [|done]. lifted_step u32_format NO_BLOCK; [|done].
  rewrite give_ref by (rewrite <- ?app_assoc in *; done). cbn [rbind]. lifted_step u32_format 2; [|done]. change (posting_pair_valid NO_BLOCK NO_BLOCK) with true. cbn [negb orb N.ltb N.compare Pos.compare Pos.compare_cont].
  lifted_step (take_format (len text)) text; [|done]. unfold Datatypes.id. rewrite Hu. cbn [negb]. unfold Terms.second. cbn [Terms.packed].
  lifted_step (take_format 16) (ref_bytes o); [|apply len_ref_bytes]. unfold Datatypes.id. cbn [N.eqb negb Pos.eqb].
  assert (Hr := give_ref [] o []). rewrite app_nil_r in Hr. cbn [app] in Hr. rewrite reading_new, Hr; [|unfold small, isize_max; rewrite len_ref_bytes; lia|done]. cbn [rbind].
  change (NO_BLOCK =? NO_BLOCK) with true. cbn [andb orb]. by rewrite orb_true_r.
Qed.
Lemma find_prefix reference ts r rs : (forall t, t ∈ ts -> t_reference t <> reference) -> is_ok r = false ->
  TermPage.find reference ((Ok <$> ts) ++ r :: rs) = rbind r (fun t => Ok t).
Proof.
  intros Hts Hr. induction ts as [|t ts IH]; [by destruct r|]. cbn [fmap list_fmap app TermPage.find rbind]. rewrite bool_decide_eq_false_2 by (apply Hts; by left).
  apply IH. intros t' Ht'. apply Hts. by right.
Qed.
Lemma entry_terms_below l t : forall at_, t ∈ entry_terms true blk at_ l -> term_offset (t_reference t) < at_ + len (entries true l).
Proof.
  induction l as [|e l IH]; intros at_ Ht; [by apply not_elem_of_nil in Ht|]. cbn [entry_terms] in Ht. rewrite entries_cons, len_app, len_entry_bytes. unfold entry_size, DICTIONARY_ENTRY in *.
  apply elem_of_cons in Ht as [->|Ht]; [cbn; lia|]. specialize (IH _ Ht). lia.
Qed.
End Emptied.
(** C11: When the chain of a promoted term is replaced by none, as the compaction does when
    all the owners of the chain are gone, the update succeeds, and from then on every
    reader of the page fails at this term: the entry still names a shadow owner, which
    is only accepted next to a chain. *)
Theorem emptied_chain_unreadable p next pre e suf o term : dict_rep true p next (pre ++ e :: suf) -> e_second e = Shadow o ->
  term = mkTermRef (Page.block p) (PAGE_HEADER + len (entries true pre)) ->
  exists p', TermPage.set_posting_chain p term NO_BLOCK NO_BLOCK = Ok p' /\ let err := corrupt (term_offset term + DICTIONARY_ENTRY + len (e_text e)) in
    TermPage.term p' term = Err err /\ TermPage.validate_dictionary p' = Err err.
Proof.
  intros Hrep Es ->. unfold TermPage.set_posting_chain. rewrite (term_ok _ _ _ _ _ Hrep). unfold entry_of. cbn [term_page term_offset]. rewrite N.eqb_refl. cbn [negb].
  rewrite find_entry_here. cbn [rbind entry_term t_inline]. rewrite Es. cbn [inline_of]. change (posting_pair_valid NO_BLOCK NO_BLOCK) with true. cbn [negb].
  destruct Hrep as [Hk Hbuf Hlen Hshort Hblk Hnext Hwf (rest & Eb)]. rewrite entries_app, entries_cons in *. apply Forall_app in Hwf as [Hpre Hwf]. apply list.Forall_cons in Hwf as [He _].
  rewrite entry_raw, Es in Eb. cbn [inline_code second_bytes] in Eb. set (hd := dict_head true (Page.block p) next) in *. set (z := entries true suf ++ rest).
  assert (Esize : len (entry_bytes true e) = DICTIONARY_ENTRY + len (e_text e) + 16) by (rewrite len_entry_bytes; unfold entry_size; lia).
  assert (Eb' : Page.buffer p = (hd ++ entries true pre) ++ raw (e_text e) (e_head e) (e_tail e) (e_first e) 2 (ref_bytes o) ++ z) by (rewrite Eb; unfold z; by rewrite <- !app_assoc).
  assert (Ha : len (hd ++ entries true pre) = PAGE_HEADER + len (entries true pre)) by (by rewrite len_app). rewrite <- Ha.
  assert (Hz : forall h t, len ((hd ++ entries true pre) ++ raw (e_text e) h t (e_first e) 2 (ref_bytes o) ++ z) = CAPACITY).
  { intros h t. rewrite <- Hbuf, Eb', !len_app, !len_raw. done. }
  rewrite (put_head p _ z _ _ _ _ _ _ (conj Hbuf Hshort) Eb'). cbn [rbind].
  rewrite (put_tail (Page.set_buffer p _) _ z (e_text e) NO_BLOCK (e_tail e) (e_first e) 2 (ref_bytes o) (conj (Hz _ _) Hshort) eq_refl), set_buffer_twice. eexists. split; [done|]. cbv zeta.
  set (q := Page.set_buffer p _). set (s := raw (e_text e) NO_BLOCK NO_BLOCK (e_first e) 2 (ref_bytes o) ++ entries true suf).
  assert (Hq : page_fits q) by (split; [apply Hz|done]).
  assert (Hsl : len s = len (entry_bytes true e ++ entries true suf)) by (unfold s; rewrite !len_app, len_raw, len_ref_bytes, Esize; done).
  assert (Eu : take (N.to_nat (Page.length_ q)) (Page.buffer q) = hd ++ entries true pre ++ s).
  { unfold q. cbn [Page.set_buffer Page.buffer Page.length_]. unfold z. rewrite (app_assoc (raw _ _ _ _ _ _)), app_assoc. fold s. rewrite take_app_length'; [by rewrite <- app_assoc|].
    rewrite Hlen, <- to_nat_len. f_equal. rewrite !len_app, Hsl, len_app. change (len hd) with PAGE_HEADER. lia. }
  assert (Et : TermPage.terms q = Ok (Terms.mk (Page.block p) (reading [] (entries true pre ++ s)) true false)).
  { unfold TermPage.terms. rewrite meta_require, bytes_ok by done. cbn [rbind]. rewrite Eu.
    assert (E1 : slice_from (hd ++ entries true pre ++ s) PAGE_HEADER = Some (entries true pre ++ s)) by (apply (slice_from_app _ 0 hd); unfold slice_from; by rewrite (proj2 (N.leb_le _ _)) by lia).
    rewrite E1. cbn [or_panic ok_or rbind].
    assert (E2 : Page.packed_dictionary_format q = Ok true) by (unfold Page.packed_dictionary_format, Page.is_kind; rewrite bool_decide_eq_true_2 by done; by vm_compute).
    rewrite E2. cbn [rbind]. by rewrite reading_new. }
  assert (Hfew := entries_length true pre). unfold PAGE_HEADER, CAPACITY in *. rewrite !len_app in Hsl. rewrite !len_app in Hlen.
  assert (Hsm : small (entries true pre ++ s)) by (unfold small, isize_max; rewrite len_app; lia).
  destruct He as (W1 & W2 & W3 & _ & _ & _ & W7). unfold second_wf in W7. rewrite Es in W7. destruct W7 as (Wo & _).
  assert (Ei : exists rs, Terms.items (Terms.mk (Page.block p) (reading [] (entries true pre ++ s)) true false) =
    (Ok <$> entry_terms true (Page.block p) 16 pre) ++ Err (corrupt (len (hd ++ entries true pre) + DICTIONARY_ENTRY + len (e_text e))) :: rs).
  { unfold Terms.items. cbn [Terms.reader]. rewrite reading_remaining.
    replace (S (N.to_nat (len (entries true pre ++ s)))) with (length pre + S (N.to_nat (len (entries true pre ++ s)) - length pre))%nat by (rewrite len_app; lia).
    rewrite (items_prefix (Page.block p) pre s _ []); [|done|done|rewrite len_nil, len_app; change (2 ^ 16) with 65536; lia]. rewrite len_nil, N.add_0_l. eexists. f_equal.
    cbn [Terms.items_fuel]. unfold Terms.next. cbn [Terms.failed Terms.reader orb app]. rewrite reading_remaining. rewrite (proj2 (N.eqb_neq _ _)) by (unfold DICTIONARY_ENTRY in *; lia).
    unfold s. rewrite shadow_entry; [|done|done|done|done|exact Hsm]. rewrite Ha. do 3 f_equal. lia. }
  destruct Ei as (rs & Ei). split.
  - unfold TermPage.term. change (Page.block q) with (Page.block p). rewrite N.eqb_refl. cbn [negb]. rewrite Et. cbn [rbind]. rewrite Ei, find_prefix; [done| |done].
    intros t Ht%entry_terms_below E. rewrite E in Ht. cbn [term_offset] in Ht. lia.
  - unfold TermPage.validate_dictionary, TermPage.each. rewrite Et. cbn [rbind]. rewrite Ei. generalize (entry_terms true (Page.block p) 16 pre). intros ts. by induction ts.
Qed.

(** ** Instances *)
Definition owner_a : OwnerRef := mkOwnerRef 3 0 1.
Definition owner_b : OwnerRef := mkOwnerRef 3 1 2.
Definition sample_term : TermRef := mkTermRef 5 16.
Definition sample_text : list byte := [byte_of 97; byte_of 98].
Definition sample_dict_ops : list DictOp :=
  [AddTerm sample_text owner_a; SetSecond sample_term (Some owner_b); SetChain sample_term 9 9; AddTerm [byte_of 99] owner_b; Promote sample_term 9; SetChain sample_term 9 12; SetSecond sample_term None].
Lemma owner_a_wf : ref_wf owner_a.
Proof. unfold ref_wf. cbn. by split_and!. Qed.
Lemma owner_b_wf : ref_wf owner_b.
Proof. unfold ref_wf. cbn. by split_and!. Qed.
Lemma sample_dict_ops_ok : admissible_ops true 5 [] sample_dict_ops.
Proof.
  pose proof owner_a_wf as Ha. pose proof owner_b_wf as Hb. cbn [sample_dict_ops admissible_ops]. 
  split; [by split|]. split; [exact Hb|]. split; [split; [done|]; split; [done|]; intros _; by split_and!|].
  split; [by split|]. split; [done|]. split; [split; [done|]; split; [done|]; intros _; by split_and!|]. by split.
Qed.
Lemma dict_page_run_witness :
  (exists p0 p, Page.packed_dictionary 5 = Ok p0 /\ snd (run term_page_step p0 sample_dict_ops) = p /\
     TermPage.term p sample_term = Ok (mkTerm sample_term sample_text owner_a 9 12 None (Some owner_b))) /\
  fst (run (dict_step true 5) [] sample_dict_ops) =
    [Ok (Added (Some sample_term)); Ok Changed; Err InvalidState; Ok (Added (Some (mkTermRef 5 66))); Ok (Promoted owner_b); Ok Changed; Err InvalidState].
Proof.
  split; [|vm_compute; reflexivity].
  destruct (dict_page_run true 5 sample_dict_ops) as (p0 & p & H0 & Hr & (_ & _ & Ht) & _); [reflexivity|reflexivity|exact sample_dict_ops_ok|].
  exists p0, p. split; [exact H0|]. split; [exact (f_equal snd Hr)|exact (Ht sample_term)].
Defined.
(** A page with one promoted term. *)
Definition sample_entry : Entry := mkEntry sample_text owner_a 9 12 (Shadow owner_b).
Definition sample_dict : Page.t :=
  Page.mk 5 PageKind.Dictionary 66 false (dict_head true 5 NO_BLOCK ++ entries true [sample_entry] ++ replicate (N.to_nat 8102) (byte_of 0)).
Lemma sample_dict_rep : dict_rep true sample_dict NO_BLOCK ([] ++ sample_entry :: []).
Proof.
  constructor; cbn [sample_dict Page.kind Page.buffer Page.length_ Page.block]; try done.
  - split; [done|by left].
  - apply list.Forall_singleton. unfold entry_wf. cbn [e_text e_first e_head e_tail e_second sample_entry]. split; [done|]. split; [done|]. split; [exact owner_a_wf|].
    split; [done|]. split; [done|]. split; [done|]. unfold second_wf. cbn [e_text e_first e_head e_tail e_second]. split; [exact owner_b_wf|]. by split_and!.
  - by exists (replicate (N.to_nat 8102) (byte_of 0)).
Qed.
Lemma emptied_chain_unreadable_witness :
  (exists t, TermPage.term sample_dict sample_term = Ok t) /\
  exists p', TermPage.set_posting_chain sample_dict sample_term NO_BLOCK NO_BLOCK = Ok p' /\ TermPage.term p' sample_term = Err (corrupt 50).
Proof.
  split.
  - rewrite (term_ok _ _ _ _ sample_term sample_dict_rep). eexists. reflexivity.
  - destruct (emptied_chain_unreadable sample_dict NO_BLOCK [] sample_entry [] owner_b sample_term sample_dict_rep) as (p' & H1 & H2 & _); [reflexivity|reflexivity|].
    exists p'. split; [exact H1|exact H2].
Defined.
Lemma dict_validate_exact_witness : TermPage.validate_dictionary sample_dict = Ok tt.
Proof.
  apply (dict_validate_exact sample_dict); [|reflexivity|discriminate|exists true, NO_BLOCK, [sample_entry]; exact sample_dict_rep].
  split; [apply (dict_fits _ _ _ _ sample_dict_rep)|]. split; [discriminate|]. split; [discriminate|]. exists 3, 1, NO_BLOCK. eexists.
  split; [reflexivity|]. split; [reflexivity|]. split; [reflexivity|]. split; [reflexivity|]. split; [reflexivity|]. split; [right; split; reflexivity|left; reflexivity].
Defined.
