(* ===== verification/PageGroups.v ===== *)
(** The tail of the metapage: [src/crates/pin-core/src/mutable/page_grouped.rs], up to
    [Page::set_grouped_state].

    The metapage has an optional tail, in one of two formats, that names the published
    group snapshots: the active one, its deltas in order, the snapshots that wait for
    their pages to be freed and the journal of the one under construction. The theorems:
    a valid state keeps its snapshots in order, both formats are exact encodings and are
    never confused, and in any run the tail and the fields of the metapage do not
    disturb each other. *)
From Stdlib Require Import Sorting.Sorted.
From S2P Require Export PageTerms Analysis.

(** [Option::is_some_and] *)
Definition is_some_and {A} (o : option A) (f : A -> bool) : bool := match o with Some x => f x | None => false end.
Definition is_none {A} (o : option A) : bool := match o with Some _ => false | None => true end.
(** [Option::map_or] *)
Definition map_or {A B} (o : option A) (b : B) (f : A -> B) : B := match o with Some x => f x | None => b end.
(** [iter().flatten()] *)
Definition flatten {A} (l : list (option A)) : list A := omap (fun x => x) l.

Definition META_LEGACY_BYTES : N := META_HEADER + BUCKETS * 8.
Definition META_GROUPED_BYTES : N := META_LEGACY_BYTES + 72.
Definition GROUP_DELTA_SEGMENTS : N := 16.
Definition GROUP_RETIRED_SEGMENTS : N := GROUP_DELTA_SEGMENTS + 1.
Definition SNAPSHOT_BYTES : N := 48.
Definition DELTA_BYTES : N := SNAPSHOT_BYTES + 24.
Definition JOURNAL_BYTES : N := 24.
Definition RETIRED_BYTES : N := 16.
Definition META_GROUPED_V3_BYTES : N :=
  META_LEGACY_BYTES + 8 + SNAPSHOT_BYTES + JOURNAL_BYTES + GROUP_DELTA_SEGMENTS * DELTA_BYTES + GROUP_RETIRED_SEGMENTS * RETIRED_BYTES.

(** [b"PG09"], [b"PG10"] *)
Definition PG09 : list byte := [byte_of 80; byte_of 71; byte_of 48; byte_of 57].
Definition PG10 : list byte := [byte_of 80; byte_of 71; byte_of 49; byte_of 48].

(** [GroupSnapshot], [GroupJournal], [GroupDelta], [GroupRetired] *)
Record GroupSnapshot : Type := mkSnapshot {
  snap_id : SegmentId; snap_head : N; snap_tail : N; snap_root : N; snap_after : option OwnerRef;
  frontier_root : option N; frontier_valid : bool }.
Record GroupJournal : Type := mkGroupJournal { gj_id : SegmentId; gj_head : N; gj_tail : N; gj_phase : RewritePhase }.
Record GroupDelta : Type := mkDelta { delta_snapshot : GroupSnapshot; delta_before : option OwnerRef; delta_level : N }.
Record GroupRetired : Type := mkRetired { ret_id : SegmentId; ret_head : N; ret_tail : N }.
Definition phase_of (code : N) : option RewritePhase := match code with 1 => Some Building | 2 => Some Retiring | _ => None end.

Module GroupState.
(** [GroupState] *)
Record t : Type := mk {
  active : option GroupSnapshot; journal : option GroupJournal;
  deltas : list (option GroupDelta); retired : list (option GroupRetired) }.
Definition default : t :=
  mk None None (replicate (N.to_nat GROUP_DELTA_SEGMENTS) None) (replicate (N.to_nat GROUP_RETIRED_SEGMENTS) None).
(** [GroupState::latest], [delta_count] *)
Definition latest (self : t) : option GroupSnapshot :=
  match list.last (flatten (deltas self)) with Some delta => Some (delta_snapshot delta) | None => active self end.
Definition delta_count (self : t) : N := len (flatten (deltas self)).

(** [GroupState::validate_snapshot] *)
Definition validate_snapshot (s : GroupSnapshot) (allow_frontier : bool) : Result unit :=
  if negb (posting_pair_valid (snap_head s) (snap_tail s))
     || negb (Bool.eqb (snap_head s =? NO_BLOCK) ((snap_root s =? NO_BLOCK) && (map_or (frontier_root s) NO_BLOCK (fun root => root) =? NO_BLOCK)))
     || (negb allow_frontier && negb (is_none (frontier_root s)))
     || (is_none (frontier_root s) && negb (snap_root s =? snap_tail s))
     || (negb (snap_root s =? NO_BLOCK) && negb (block_valid (snap_root s)))
     || is_some_and (frontier_root s) (fun root => negb (root =? NO_BLOCK) && (negb (block_valid root) || (root =? snap_root s)))
     || (frontier_valid s && is_none (frontier_root s))
     || is_some_and (snap_after s) (fun owner => snap_id s <=? owner_incarnation owner)
  then Err InvalidState else Ok tt.
(** What the loop over the deltas of [validate] remembers. *)
Record Walk : Type := mkWalk { w_after : option OwnerRef; w_id : option SegmentId; w_level : option N; w_gap : bool }.
Definition check_delta (self : t) (w : Walk) (delta : option GroupDelta) : Result Walk :=
  match delta with
  | None => Ok (mkWalk (w_after w) (w_id w) (w_level w) true)
  | Some d =>
      if w_gap w || is_none (active self) then Err InvalidState else
      let s := delta_snapshot d in
      let* _ := validate_snapshot s false in
      if frontier_valid s || (GROUP_DELTA_SEGMENTS <=? delta_level d) || is_some_and (w_level w) (fun level => level <=? delta_level d)
         || negb (bool_decide (delta_before d = w_after w)) || is_none (snap_after s) || bool_decide (snap_after s = delta_before d)
         || is_some_and (delta_before d) (fun before => is_some_and (snap_after s) (fun after => owner_incarnation after <=? owner_incarnation before))
         || is_some_and (w_id w) (fun id => snap_id s <=? id)
      then Err InvalidState else Ok (mkWalk (snap_after s) (Some (snap_id s)) (Some (delta_level d)) (w_gap w))
  end.
Definition check_journal (self : t) (previous_id : option SegmentId) : Result unit :=
  match journal self with
  | None => Ok tt
  | Some j =>
      if negb (posting_pair_valid (gj_head j) (gj_tail j)) then Err InvalidState else
      match gj_phase j with
      | Building => if is_some_and previous_id (fun id => gj_id j <=? id) then Err InvalidState else Ok tt
      | Retiring =>
          if negb (delta_count self =? 0) || existsb (fun r => negb (is_none r)) (retired self) || (gj_head j =? NO_BLOCK)
             || is_none (active self) || is_some_and (active self) (fun active => snap_id active <=? gj_id j)
          then Err InvalidState else Ok tt
      end
  end.
Definition check_retired (self : t) (gap : bool) (retired : option GroupRetired) : Result bool :=
  match retired with
  | None => Ok true
  | Some r =>
      if gap || (ret_head r =? NO_BLOCK) || negb (posting_pair_valid (ret_head r) (ret_tail r)) then Err InvalidState else
      if is_some_and (active self) (fun active => snap_id active =? ret_id r)
         || existsb (fun d => snap_id (delta_snapshot d) =? ret_id r) (flatten (deltas self))
         || is_some_and (journal self) (fun j => gj_id j =? ret_id r)
      then Err InvalidState else Ok gap
  end.
(** [GroupState::validate] *)
Definition validate (self : t) : Result unit :=
  let* _ := match active self with Some s => validate_snapshot s true | None => Ok tt end in
  let start := mkWalk (match active self with Some s => snap_after s | None => None end) (option_map snap_id (active self)) None false in
  let* w := foldM (check_delta self) start (deltas self) in
  let* _ := check_journal self (w_id w) in
  let* _ := foldM (check_retired self) false (retired self) in
  Ok tt.
(** The identifiers that [Page::grouped_state] compares with the counter of the page. *)
Definition beyond (self : t) (next : N) : bool :=
  is_some_and (active self) (fun s => next <=? snap_id s) || existsb (fun d => next <=? snap_id (delta_snapshot d)) (flatten (deltas self))
  || is_some_and (journal self) (fun j => next <=? gj_id j) || existsb (fun r => next <=? ret_id r) (flatten (retired self)).
End GroupState.

(** Readers of the parts; every check that fails is [Error::InvalidState]. *)
Module Tail.
(** [if owner == [0; 16] { None } else { Some(OwnerRef::read(..)?) }] *)
Definition read_optional_owner (r : Reader.t) : Result (option OwnerRef * Reader.t) :=
  let* '(owner, r) := lift_codec (Reader.take r 16) in
  if bool_decide (owner = replicate 16 (byte_of 0)) then Ok (None, r)
  else let* '(o, _) := OwnerRef_read (Reader.new owner) in Ok (Some o, r).
Definition write_optional_owner (w : Writer.t) (owner : option OwnerRef) : Result Writer.t :=
  match owner with Some owner => OwnerRef_write owner w | None => lift_codec (Writer.put w (replicate 16 (byte_of 0))) end.
(** [Page::read_snapshot] *)
Definition read_snapshot (r : Reader.t) : Result (option GroupSnapshot * Reader.t) :=
  let* '(id, r) := lift_codec (Reader.u64 r) in
  let* '(head, r) := lift_codec (Reader.u32 r) in
  let* '(tail, r) := lift_codec (Reader.u32 r) in
  let* '(root, r) := lift_codec (Reader.u32 r) in
  let* '(frontier, r) := lift_codec (Reader.u32 r) in
  let* '(flags, r) := lift_codec (Reader.u32 r) in
  let* '(reserved, r) := lift_codec (Reader.u32 r) in
  if negb (reserved =? 0) || (1 <? flags) then Err InvalidState else
  let* '(after, r) := read_optional_owner r in
  if id =? 0 then
    if negb (head =? NO_BLOCK) || negb (tail =? NO_BLOCK) || negb (root =? NO_BLOCK) || negb (frontier =? 0) || negb (flags =? 0) || negb (is_none after)
    then Err InvalidState else Ok (None, r)
  else
    let* id := map_err (fun _ => InvalidState) (identifier_new id) in
    Ok (Some (mkSnapshot id head tail root after (if negb (frontier =? 0) then Some frontier else None) (flags =? 1)), r).
(** [Page::write_snapshot] *)
Definition write_snapshot (w : Writer.t) (snapshot : option GroupSnapshot) : Result Writer.t :=
  let* w := lift_codec (Writer.u64 w (map_or snapshot 0 snap_id)) in
  let* w := lift_codec (Writer.u32 w (map_or snapshot NO_BLOCK snap_head)) in
  let* w := lift_codec (Writer.u32 w (map_or snapshot NO_BLOCK snap_tail)) in
  let* w := lift_codec (Writer.u32 w (map_or snapshot NO_BLOCK snap_root)) in
  let* w := lift_codec (Writer.u32 w (map_or snapshot 0 (fun s => map_or (frontier_root s) 0 (fun root => root)))) in
  let* w := lift_codec (Writer.u32 w (N.b2n (is_some_and snapshot frontier_valid))) in
  let* w := lift_codec (Writer.u32 w 0) in
  write_optional_owner w (map_or snapshot None snap_after).
(** The journal of both formats. *)
Definition read_journal (r : Reader.t) : Result (option GroupJournal * Reader.t) :=
  let* '(id, r) := lift_codec (Reader.u64 r) in
  let* '(head, r) := lift_codec (Reader.u32 r) in
  let* '(tail, r) := lift_codec (Reader.u32 r) in
  let* '(phase, r) := lift_codec (Reader.u32 r) in
  let* '(reserved, r) := lift_codec (Reader.u32 r) in
  if negb (reserved =? 0) then Err InvalidState else
  if id =? 0 then
    if negb (head =? NO_BLOCK) || negb (tail =? NO_BLOCK) || negb (phase =? 0) then Err InvalidState else Ok (None, r)
  else
    let* id := map_err (fun _ => InvalidState) (identifier_new id) in
    let* phase := ok_or (phase_of phase) InvalidState in
    Ok (Some (mkGroupJournal id head tail phase), r).
Definition write_journal (w : Writer.t) (journal : option GroupJournal) : Result Writer.t :=
  let* w := lift_codec (Writer.u64 w (map_or journal 0 gj_id)) in
  let* w := lift_codec (Writer.u32 w (map_or journal NO_BLOCK gj_head)) in
  let* w := lift_codec (Writer.u32 w (map_or journal NO_BLOCK gj_tail)) in
  let* w := lift_codec (Writer.u32 w (map_or journal 0 (fun j => phase_code (gj_phase j)))) in
  lift_codec (Writer.u32 w 0).
Definition read_delta (r : Reader.t) : Result (option GroupDelta * Reader.t) :=
  let* '(snapshot, r) := read_snapshot r in
  let* '(before, r) := read_optional_owner r in
  let* '(level, r) := lift_codec (Reader.u8 r) in
  let* '(reserved, r) := lift_codec (Reader.take r 7) in
  if negb (bool_decide (reserved = replicate 7 (byte_of 0))) then Err InvalidState else
  if is_none snapshot && (negb (is_none before) || negb (level =? 0)) then Err InvalidState else
  Ok (option_map (fun s => mkDelta s before level) snapshot, r).
Definition write_delta (w : Writer.t) (delta : option GroupDelta) : Result Writer.t :=
  let* w := write_snapshot w (option_map delta_snapshot delta) in
  let* w := write_optional_owner w (map_or delta None delta_before) in
  let* w := lift_codec (Writer.u8 w (map_or delta 0 delta_level)) in
  lift_codec (Writer.put w (replicate 7 (byte_of 0))).
Definition read_retired (r : Reader.t) : Result (option GroupRetired * Reader.t) :=
  let* '(id, r) := lift_codec (Reader.u64 r) in
  let* '(head, r) := lift_codec (Reader.u32 r) in
  let* '(tail, r) := lift_codec (Reader.u32 r) in
  if id =? 0 then
    if negb (head =? NO_BLOCK) || negb (tail =? NO_BLOCK) then Err InvalidState else Ok (None, r)
  else
    let* id := map_err (fun _ => InvalidState) (identifier_new id) in
    Ok (Some (mkRetired id head tail), r).
Definition write_retired (w : Writer.t) (retired : option GroupRetired) : Result Writer.t :=
  let* w := lift_codec (Writer.u64 w (map_or retired 0 ret_id)) in
  let* w := lift_codec (Writer.u32 w (map_or retired NO_BLOCK ret_head)) in
  lift_codec (Writer.u32 w (map_or retired NO_BLOCK ret_tail)).
(** [for slot in &mut slots { *slot = ..; }] *)
Fixpoint read_slots {A} (read : Reader.t -> Result (A * Reader.t)) (n : nat) (r : Reader.t) : Result (list A * Reader.t) :=
  match n with
  | O => Ok ([], r)
  | S n => let* '(x, r) := read r in let* '(xs, r) := read_slots read n r in Ok (x :: xs, r)
  end.
(** The body of [Page::read_old_grouped_state]. *)
Definition read_old (r : Reader.t) : Result GroupState.t :=
  let* '(magic, r) := lift_codec (Reader.take r 4) in
  if negb (bool_decide (magic = PG09)) then Err InvalidState else
  let* '(version, r) := lift_codec (Reader.u16 r) in
  let* '(flags, r) := lift_codec (Reader.u16 r) in
  if negb (((version =? 1) && (flags =? 0)) || ((version =? 2) && (flags <=? 1))) then Err InvalidState else
  let* '(id, r) := lift_codec (Reader.u64 r) in
  let* '(head, r) := lift_codec (Reader.u32 r) in
  let* '(tail, r) := lift_codec (Reader.u32 r) in
  let* '(root, r) := lift_codec (Reader.u32 r) in
  let* '(frontier, r) := lift_codec (Reader.u32 r) in
  if (version =? 1) && negb (frontier =? 0) then Err InvalidState else
  let* '(after, r) := read_optional_owner r in
  let* active :=
    if id =? 0 then
      if negb (head =? NO_BLOCK) || negb (tail =? NO_BLOCK) || negb (root =? NO_BLOCK) || negb (is_none after) || negb (version =? 1)
      then Err InvalidState else Ok None
    else
      let* id := map_err (fun _ => InvalidState) (identifier_new id) in
      Ok (Some (mkSnapshot id head tail root after (if version =? 2 then Some frontier else None) (flags =? 1))) in
  let* '(journal, r) := read_journal r in
  let* _ := lift_codec (Reader.finish r) in
  Ok (GroupState.mk active journal (GroupState.deltas GroupState.default) (GroupState.retired GroupState.default)).
(** The second format of [Page::grouped_state]. *)
Definition read_v3 (r : Reader.t) : Result GroupState.t :=
  let* '(magic, r) := lift_codec (Reader.take r 4) in
  if negb (bool_decide (magic = PG10)) then Err InvalidState else
  let* '(version, r) := lift_codec (Reader.u16 r) in
  if negb (version =? 1) then Err InvalidState else
  let* '(flags, r) := lift_codec (Reader.u16 r) in
  if negb (flags =? 0) then Err InvalidState else
  let* '(active, r) := read_snapshot r in
  let* '(journal, r) := read_journal r in
  let* '(deltas, r) := read_slots read_delta (N.to_nat GROUP_DELTA_SEGMENTS) r in
  let* '(retired, r) := read_slots read_retired (N.to_nat GROUP_RETIRED_SEGMENTS) r in
  let* _ := lift_codec (Reader.finish r) in
  Ok (GroupState.mk active journal deltas retired).
Definition write_old (w : Writer.t) (state : GroupState.t) : Result Writer.t :=
  let active := GroupState.active state in
  let frontier := map_or active None frontier_root in
  let* w := lift_codec (Writer.put w (PG09)) in
  let* w := lift_codec (Writer.u16 w (if is_none frontier then 1 else 2)) in
  let* w := lift_codec (Writer.u16 w (N.b2n (is_some_and active frontier_valid))) in
  let* w := lift_codec (Writer.u64 w (map_or active 0 snap_id)) in
  let* w := lift_codec (Writer.u32 w (map_or active NO_BLOCK snap_head)) in
  let* w := lift_codec (Writer.u32 w (map_or active NO_BLOCK snap_tail)) in
  let* w := lift_codec (Writer.u32 w (map_or active NO_BLOCK snap_root)) in
  let* w := lift_codec (Writer.u32 w (map_or frontier 0 (fun root => root))) in
  let* w := write_optional_owner w (map_or active None snap_after) in
  write_journal w (GroupState.journal state).
Definition write_v3 (w : Writer.t) (state : GroupState.t) : Result Writer.t :=
  let* w := lift_codec (Writer.put w (PG10)) in
  let* w := lift_codec (Writer.u16 w 1) in
  let* w := lift_codec (Writer.u16 w 0) in
  let* w := write_snapshot w (GroupState.active state) in
  let* w := write_journal w (GroupState.journal state) in
  let* w := foldM write_delta w (GroupState.deltas state) in
  foldM write_retired w (GroupState.retired state).
End Tail.

Module GroupMeta.
(** [Page::grouped_delta_span], [grouped_has_delta] *)
Definition grouped_delta_span (self : Page.t) (snapshot : GroupSnapshot) : Result N :=
  let* _ := Page.require self PageKind.Meta in
  let* next := Page.u64 self 32 in
  if next <=? snap_id snapshot then Err InvalidState else
  let* span := sub_w next (snap_id snapshot) in
  sub_w span 1.
Definition grouped_has_delta (self : Page.t) (snapshot : GroupSnapshot) : Result bool :=
  let* span := grouped_delta_span self snapshot in Ok (negb (span =? 0)).
(** [Page::grouped_state] *)
Definition grouped_state (self : Page.t) : Result GroupState.t :=
  let* _ := Page.require self PageKind.Meta in
  if Page.length_ self =? META_LEGACY_BYTES then Ok GroupState.default else
  let* state :=
    if Page.length_ self =? META_GROUPED_BYTES then
      let* tail := or_panic (slice (Page.buffer self) META_LEGACY_BYTES (Page.length_ self)) in Tail.read_old (Reader.new tail)
    else if Page.length_ self =? META_GROUPED_V3_BYTES then
      let* tail := or_panic (slice (Page.buffer self) META_LEGACY_BYTES (Page.length_ self)) in Tail.read_v3 (Reader.new tail)
    else Err InvalidState in
  let* _ := GroupState.validate state in
  let* next := Page.u64 self 32 in
  if GroupState.beyond state next then Err InvalidState else Ok state.
(** [Page::set_grouped_state] *)
Definition set_grouped_state (self : Page.t) (state : GroupState.t) : Result Page.t :=
  let* _ := Page.require self PageKind.Meta in
  let* _ := GroupState.validate state in
  let* next := Page.u64 self 32 in
  if GroupState.beyond state next then Err InvalidState else
  let extended := negb (GroupState.delta_count state =? 0) || existsb (fun r => negb (is_none r)) (GroupState.retired state) in
  if negb extended then
    let* w := Tail.write_old (Writer.new (replicate 72 (byte_of 0))) state in
    let* filled := or_panic (copy_from (Page.buffer self) META_LEGACY_BYTES META_GROUPED_BYTES (Writer.bytes w)) in
    Ok (Page.set_length (Page.set_buffer self filled) META_GROUPED_BYTES)
  else
    let* w := Tail.write_v3 (Writer.new (replicate (N.to_nat (META_GROUPED_V3_BYTES - META_LEGACY_BYTES)) (byte_of 0))) state in
    if negb (Writer.written w =? META_GROUPED_V3_BYTES - META_LEGACY_BYTES) then Err InvalidState else
    let* filled := or_panic (copy_from (Page.buffer self) META_LEGACY_BYTES META_GROUPED_V3_BYTES (Writer.bytes w)) in
    Ok (Page.set_length (Page.set_buffer self filled) META_GROUPED_V3_BYTES).
End GroupMeta.


(** * The encodings of the tail *)
(** [format] for readers whose errors are the engine's. *)
Definition reads {A} (m : Reader.t -> Result (A * Reader.t)) (enc : A -> list byte) (P : A -> Prop) : Prop :=
  forall pre s v r', small (pre ++ s) -> m (reading pre s) = Ok (v, r') <-> P v /\ exists tl, s = enc v ++ tl /\ r' = reading (pre ++ enc v) tl.
Lemma reads_bind {A B} m enc P (k : A -> Reader.t -> Result B) pre s x : reads m enc P -> small (pre ++ s) ->
  (let* '(v, r) := m (reading pre s) in k v r) = Ok x <-> exists v tl, P v /\ s = enc v ++ tl /\ k v (reading (pre ++ enc v) tl) = Ok x.
Proof.
  intros Hf Hs. rewrite rbind_ok. split.
  - intros ([v r] & Hm & Hk). apply Hf in Hm as (Hv & tl & -> & ->); [|done]. eauto.
  - intros (v & tl & Hv & -> & Hk). exists (v, reading (pre ++ enc v) tl). split; [|done]. apply Hf; eauto.
Qed.
Tactic Notation "next_read" hyp(H) uconstr(F) "as" simple_intropattern(v) simple_intropattern(tl) simple_intropattern(Hv) :=
  apply (reads_bind _ _ _ _ _ _ _ F) in H as (v & tl & Hv & -> & H); [|small_lia].
Tactic Notation "give_read" uconstr(F) constr(v) :=
  apply (reads_bind _ _ _ _ _ _ _ F); [small_lia|]; exists v; eexists; split_and!; [|reflexivity|].

Definition zeros_n (n : nat) : list byte := replicate n (byte_of 0).
Definition owner_opt_bytes (o : option OwnerRef) : list byte := match o with Some o => ref_bytes o | None => zeros_n 16 end.
Lemma ref_bytes_nonzero o : ref_wf o -> ref_bytes o <> zeros_n 16.
Proof.
  intros (Hb & Hp & _) E. apply (f_equal (fun l => le_val (take 4 l))) in E. change (le_val (le_bytes 4 (owner_page o)) = 0) in E.
  rewrite le_val_bytes_small in E by done. unfold block_valid in Hb. by rewrite E in Hb.
Qed.
Lemma len_owner_opt o : len (owner_opt_bytes o) = 16.
Proof. by destruct o. Qed.
Lemma optional_owner_reads : reads Tail.read_optional_owner owner_opt_bytes opt_wf.
Proof.
  intros pre s v r' Hs. unfold Tail.read_optional_owner. split.
  - intros H. next_lifted H (take_format 16) as bs tl Hbs. unfold Datatypes.id in *. destruct (bool_decide_reflect (bs = replicate 16 (byte_of 0))) as [->|Hn].
    + apply Ok_inj in H. injection H as <- <-. split; [done|]. by exists tl.
    + apply rbind_ok in H as ([o r] & H1 & H). apply Ok_inj in H. injection H as <- <-. apply read_ref_all in H1 as [-> Hw]; [|done]. split; [done|]. by exists tl.
  - intros (Hv & tl & -> & ->). give_lifted (take_format 16) (owner_opt_bytes v); [apply len_owner_opt|]. unfold Datatypes.id. destruct v as [o|]; cbn [owner_opt_bytes].
    + rewrite bool_decide_eq_false_2 by by apply ref_bytes_nonzero. assert (Hr := give_ref [] o []). rewrite app_nil_r in Hr. cbn [app] in Hr.
      rewrite reading_new, Hr; [done|unfold small, isize_max; rewrite len_ref_bytes; lia|done].
    + by rewrite bool_decide_eq_true_2.
Qed.

Definition snapshot_bytes (o : option GroupSnapshot) : list byte :=
  le_bytes 8 (map_or o 0 snap_id) ++ le_bytes 4 (map_or o NO_BLOCK snap_head) ++ le_bytes 4 (map_or o NO_BLOCK snap_tail) ++ le_bytes 4 (map_or o NO_BLOCK snap_root) ++
  le_bytes 4 (map_or o 0 (fun s => map_or (frontier_root s) 0 (fun root => root))) ++ le_bytes 4 (N.b2n (is_some_and o frontier_valid)) ++ le_bytes 4 0 ++ owner_opt_bytes (map_or o None snap_after).
Definition id_ok (id : N) : Prop := 1 <= id < 2 ^ 64.
Definition snapshot_typed (s : GroupSnapshot) : Prop :=
  id_ok (snap_id s) /\ snap_head s < 2 ^ 32 /\ snap_tail s < 2 ^ 32 /\ snap_root s < 2 ^ 32 /\ opt_wf (snap_after s) /\ match frontier_root s with Some f => f < 2 ^ 32 | None => True end.
Definition opt_typed {A} (P : A -> Prop) (o : option A) : Prop := match o with Some x => P x | None => True end.
Definition frontier_some (s : GroupSnapshot) : Prop := match frontier_root s with Some f => f <> 0 | None => True end.
Lemma len_snapshot o : len (snapshot_bytes o) = 48.
Proof. unfold snapshot_bytes. rewrite !len_app, !len_le_bytes, len_owner_opt. done. Qed.
Lemma identifier_map id x : map_err (fun _ => InvalidState) (identifier_new id) = Ok (E := Error) x <-> x = id /\ id <> 0.
Proof. rewrite map_err_ok, identifier_new_ok. done. Qed.
Lemma snapshot_reads : reads Tail.read_snapshot snapshot_bytes (opt_typed (fun s => snapshot_typed s /\ frontier_some s)).
Proof.
  intros pre s v r' Hs. unfold Tail.read_snapshot. split.
  - intros H. next_lifted H u64_format as id t1 Hid. next_lifted H u32_format as hd t2 Hhd. next_lifted H u32_format as ta t3 Hta. next_lifted H u32_format as ro t4 Hro.
    next_lifted H u32_format as fr t5 Hfr. next_lifted H u32_format as fl t6 Hfl. next_lifted H u32_format as z t7 Hz.
    destruct (N.eqb_spec z 0) as [->|]; cbn [negb orb] in H; [|done]. destruct (N.ltb_spec 1 fl) as [|Hf1]; [done|]. next_read H optional_owner_reads as af t8 Haf.
    destruct (N.eqb_spec id 0) as [->|Hid0].
    + destruct (N.eqb_spec hd NO_BLOCK) as [->|], (N.eqb_spec ta NO_BLOCK) as [->|], (N.eqb_spec ro NO_BLOCK) as [->|], (N.eqb_spec fr 0) as [->|], (N.eqb_spec fl 0) as [->|], af; try done.
      apply Ok_inj in H. injection H as <- <-. split; [done|]. exists t8. unfold snapshot_bytes. by rewrite <- !app_assoc.
    + apply rbind_ok in H as (i & [-> _]%identifier_map & H). apply Ok_inj in H. injection H as <- <-. split.
      * unfold opt_typed, snapshot_typed, frontier_some, id_ok. cbn [snap_id snap_head snap_tail snap_root snap_after frontier_root]. destruct (N.eqb_spec fr 0); cbn [negb]; split_and!; try done; lia.
      * exists t8. unfold snapshot_bytes. cbn [map_or is_some_and snap_id snap_head snap_tail snap_root snap_after frontier_root frontier_valid].
        assert (E1 : map_or (if negb (fr =? 0) then Some fr else None) 0 (fun root => root) = fr) by (by destruct (N.eqb_spec fr 0)).
        assert (E2 : N.b2n (fl =? 1) = fl) by (assert (fl = 0 \/ fl = 1) as [-> | ->] by lia; done). rewrite E1, E2. by rewrite <- !app_assoc.
  - intros (Hv & tl & -> & ->). unfold snapshot_bytes in *. rewrite <- !app_assoc in *.
    assert (Hopt : opt_wf (map_or v None snap_after)) by (destruct v as [v|]; [apply Hv|done]).
    give_lifted u64_format (map_or v 0 snap_id); [destruct v as [v|]; [apply Hv|done]|]. give_lifted u32_format (map_or v NO_BLOCK snap_head); [destruct v as [v|]; [apply Hv|done]|].
    give_lifted u32_format (map_or v NO_BLOCK snap_tail); [destruct v as [v|]; [apply Hv|done]|]. give_lifted u32_format (map_or v NO_BLOCK snap_root); [destruct v as [v|]; [apply Hv|done]|].
    give_lifted u32_format (map_or v 0 (fun s => map_or (frontier_root s) 0 (fun root => root))).
    { destruct v as [v|]; [|done]. destruct Hv as [(_ & _ & _ & _ & _ & Hv) _]. cbn [map_or]. by destruct (frontier_root v). }
    give_lifted u32_format (N.b2n (is_some_and v frontier_valid)); [by destruct (is_some_and v frontier_valid)|]. give_lifted u32_format 0; [done|]. cbn [N.eqb negb orb].
    rewrite (proj2 (N.ltb_ge _ _)) by (destruct (is_some_and v frontier_valid); cbn; lia). give_read optional_owner_reads (map_or v None snap_after); [done|].
    destruct v as [v|]; cbn [map_or is_some_and]; [|by rewrite <- !app_assoc]. destruct Hv as [(Hid & Hrest) Hfs]. destruct Hid as [Hid _].
    rewrite (proj2 (N.eqb_neq _ _)) by lia. rewrite (proj2 (identifier_map (snap_id v) (snap_id v))) by (split; [done|lia]). cbn [rbind]. rewrite <- !app_assoc. do 3 f_equal. destruct v as [i h t r a f b].
    unfold frontier_some in Hfs. cbn [snap_id snap_head snap_tail snap_root snap_after frontier_root frontier_valid] in *. f_equal; [|by destruct b]. destruct f as [f|]; [|done]. cbn [map_or]. by rewrite (proj2 (N.eqb_neq _ _)).
Qed.

Definition gj_bytes (o : option GroupJournal) : list byte :=
  le_bytes 8 (map_or o 0 gj_id) ++ le_bytes 4 (map_or o NO_BLOCK gj_head) ++ le_bytes 4 (map_or o NO_BLOCK gj_tail) ++ le_bytes 4 (map_or o 0 (fun j => phase_code (gj_phase j))) ++ le_bytes 4 0.
Definition gj_typed (j : GroupJournal) : Prop := id_ok (gj_id j) /\ gj_head j < 2 ^ 32 /\ gj_tail j < 2 ^ 32.
Definition delta_slot_bytes (o : option GroupDelta) : list byte :=
  snapshot_bytes (option_map delta_snapshot o) ++ owner_opt_bytes (map_or o None delta_before) ++ [byte_of (map_or o 0 delta_level)] ++ zeros_n 7.
Definition delta_typed (d : GroupDelta) : Prop := snapshot_typed (delta_snapshot d) /\ frontier_some (delta_snapshot d) /\ opt_wf (delta_before d) /\ delta_level d < 2 ^ 8.
Definition retired_bytes (o : option GroupRetired) : list byte :=
  le_bytes 8 (map_or o 0 ret_id) ++ le_bytes 4 (map_or o NO_BLOCK ret_head) ++ le_bytes 4 (map_or o NO_BLOCK ret_tail).
Definition retired_typed (r : GroupRetired) : Prop := id_ok (ret_id r) /\ ret_head r < 2 ^ 32 /\ ret_tail r < 2 ^ 32.
Lemma len_delta_slot o : len (delta_slot_bytes o) = 72.
Proof. unfold delta_slot_bytes. rewrite !len_app, len_snapshot, len_owner_opt. done. Qed.
Lemma phase_of_code p : phase_of (phase_code p) = Some p.
Proof. by destruct p. Qed.
Lemma phase_of_some c p : phase_of c = Some p -> c = phase_code p.
Proof. unfold phase_of. destruct c as [|[[]|[]|]]; intros [= <-]; done. Qed.
Lemma journal_reads : reads Tail.read_journal gj_bytes (opt_typed gj_typed).
Proof.
  intros pre s v r' Hs. unfold Tail.read_journal. split.
  - intros H. next_lifted H u64_format as id t1 Hid. next_lifted H u32_format as hd t2 Hhd. next_lifted H u32_format as ta t3 Hta. next_lifted H u32_format as ph t4 Hph. next_lifted H u32_format as z t5 Hz.
    destruct (N.eqb_spec z 0) as [->|]; cbn [negb] in H; [|done]. destruct (N.eqb_spec id 0) as [->|Hid0].
    + destruct (N.eqb_spec hd NO_BLOCK) as [->|], (N.eqb_spec ta NO_BLOCK) as [->|], (N.eqb_spec ph 0) as [->|]; try done. apply Ok_inj in H. injection H as <- <-.
      split; [done|]. exists t5. unfold gj_bytes. by rewrite <- !app_assoc.
    + apply rbind_ok in H as (i & [-> _]%identifier_map & H). destruct (phase_of ph) as [p|] eqn:Ep; [|done]. apply Ok_inj in H. injection H as <- <-. apply phase_of_some in Ep as ->.
      split; [unfold opt_typed, gj_typed, id_ok; cbn; lia|]. exists t5. unfold gj_bytes. by rewrite <- !app_assoc.
  - intros (Hv & tl & -> & ->). unfold gj_bytes in *. rewrite <- !app_assoc in *.
    give_lifted u64_format (map_or v 0 gj_id); [destruct v as [v|]; [apply Hv|done]|]. give_lifted u32_format (map_or v NO_BLOCK gj_head); [destruct v as [v|]; [apply Hv|done]|].
    give_lifted u32_format (map_or v NO_BLOCK gj_tail); [destruct v as [v|]; [apply Hv|done]|].
    give_lifted u32_format (map_or v 0 (fun j => phase_code (gj_phase j))); [destruct v as [[? ? ? []]|]; done|]. give_lifted u32_format 0; [done|]. cbn [N.eqb negb].
    destruct v as [v|]; cbn [map_or]; [|by rewrite <- !app_assoc]. destruct Hv as [[Hid _] _]. rewrite (proj2 (N.eqb_neq _ _)) by lia.
    rewrite (proj2 (identifier_map (gj_id v) (gj_id v))) by (split; [done|lia]). cbn [rbind]. rewrite phase_of_code. cbn [ok_or rbind]. rewrite <- !app_assoc. by destruct v.
Qed.
Lemma delta_reads : reads Tail.read_delta delta_slot_bytes (opt_typed delta_typed).
Proof.
  intros pre s v r' Hs. unfold Tail.read_delta. split.
  - intros H. next_read H snapshot_reads as sn t1 Hsn. next_read H optional_owner_reads as be t2 Hbe. next_lifted H u8_format as lv t3 Hlv. next_lifted H (take_format 7) as z t4 Hz.
    unfold Datatypes.id in *. destruct (bool_decide_reflect (z = replicate 7 (byte_of 0))) as [->|]; cbn [negb] in H; [|done].
    destruct sn as [sn|]; cbn [is_none andb option_map] in H.
    + apply Ok_inj in H. injection H as <- <-. split; [destruct Hsn; unfold opt_typed, delta_typed; cbn [delta_snapshot delta_before delta_level]; by split_and!|].
      exists t4. unfold delta_slot_bytes. cbn [option_map map_or delta_snapshot delta_before delta_level]. by rewrite <- !app_assoc.
    + destruct be as [be|]; [done|]. destruct (N.eqb_spec lv 0) as [->|]; [|done]. apply Ok_inj in H. injection H as <- <-. split; [done|]. exists t4. unfold delta_slot_bytes. by rewrite <- !app_assoc.
  - intros (Hv & tl & -> & ->). unfold delta_slot_bytes in *. rewrite <- !app_assoc in *.
    give_read snapshot_reads (option_map delta_snapshot v); [destruct v as [v|]; [split; apply Hv|done]|]. give_read optional_owner_reads (map_or v None delta_before); [destruct v as [v|]; [apply Hv|done]|].
    give_lifted u8_format (map_or v 0 delta_level); [destruct v as [v|]; [apply Hv|done]|]. give_lifted (take_format 7) (zeros_n 7); [done|]. unfold Datatypes.id, zeros_n. rewrite bool_decide_eq_true_2 by done. cbn [negb].
    destruct v as [v|]; cbn [option_map map_or is_none andb negb orb N.eqb]; rewrite <- !app_assoc; [by destruct v|done].
Qed.
Lemma retired_reads : reads Tail.read_retired retired_bytes (opt_typed retired_typed).
Proof.
  intros pre s v r' Hs. unfold Tail.read_retired. split.
  - intros H. next_lifted H u64_format as id t1 Hid. next_lifted H u32_format as hd t2 Hhd. next_lifted H u32_format as ta t3 Hta. destruct (N.eqb_spec id 0) as [->|Hid0].
    + destruct (N.eqb_spec hd NO_BLOCK) as [->|], (N.eqb_spec ta NO_BLOCK) as [->|]; try done. apply Ok_inj in H. injection H as <- <-. split; [done|]. exists t3. unfold retired_bytes. by rewrite <- !app_assoc.
    + apply rbind_ok in H as (i & [-> _]%identifier_map & H). apply Ok_inj in H. injection H as <- <-. split; [unfold opt_typed, retired_typed, id_ok; cbn; lia|].
      exists t3. unfold retired_bytes. by rewrite <- !app_assoc.
  - intros (Hv & tl & -> & ->). unfold retired_bytes in *. rewrite <- !app_assoc in *.
    give_lifted u64_format (map_or v 0 ret_id); [destruct v as [v|]; [apply Hv|done]|]. give_lifted u32_format (map_or v NO_BLOCK ret_head); [destruct v as [v|]; [apply Hv|done]|].
    give_lifted u32_format (map_or v NO_BLOCK ret_tail); [destruct v as [v|]; [apply Hv|done]|].
    destruct v as [v|]; cbn [map_or]; [|by rewrite <- !app_assoc]. destruct Hv as [[Hid _] _]. rewrite (proj2 (N.eqb_neq _ _)) by lia.
    rewrite (proj2 (identifier_map (ret_id v) (ret_id v))) by (split; [done|lia]). cbn [rbind]. rewrite <- !app_assoc. by destruct v.
Qed.
Lemma slots_reads {A} (read : Reader.t -> Result (A * Reader.t)) enc P n : reads read enc P ->
  reads (Tail.read_slots read n) (fun l => l ≫= enc) (fun l => length l = n /\ Forall P l).
Proof.
  intros Hr. induction n as [|n IH]; intros pre s v r' Hs; cbn [Tail.read_slots].
  - split.
    + intros H. apply Ok_inj in H. injection H as <- <-. split; [by split|]. exists s. cbn [mbind list_bind]. by rewrite app_nil_r.
    + intros ([Hl _] & tl & -> & ->). destruct v; [|done]. cbn [mbind list_bind app]. by rewrite app_nil_r.
  - split.
    + intros H. next_read H Hr as x t1 Hx. next_read H IH as xs t2 Hxs. apply Ok_inj in H. injection H as <- <-. destruct Hxs as [Hl Hxs].
      split; [split; [cbn; lia|by constructor]|]. exists t2. cbn [mbind list_bind]. by rewrite <- !app_assoc.
    + intros ([Hl Hv] & tl & -> & ->). destruct v as [|x v]; [done|]. apply list.Forall_cons in Hv as [Hx Hv]. cbn [mbind list_bind] in *. rewrite <- !app_assoc in *.
      apply (reads_bind _ _ _ _ _ _ _ Hr); [small_lia|]. exists x, ((v ≫= enc) ++ tl). split; [done|]. split; [done|].
      apply (reads_bind _ _ _ _ _ _ _ IH); [small_lia|]. exists v, tl. split; [split; [cbn in Hl; lia|done]|]. split; [done|]. by rewrite <- !app_assoc.
Qed.

(** Both tails. *)
Definition old_bytes (g : GroupState.t) : list byte :=
  let active := GroupState.active g in let frontier := map_or active None frontier_root in
  PG09 ++ le_bytes 2 (if is_none frontier then 1 else 2) ++ le_bytes 2 (N.b2n (is_some_and active frontier_valid)) ++
  le_bytes 8 (map_or active 0 snap_id) ++ le_bytes 4 (map_or active NO_BLOCK snap_head) ++ le_bytes 4 (map_or active NO_BLOCK snap_tail) ++ le_bytes 4 (map_or active NO_BLOCK snap_root) ++
  le_bytes 4 (map_or frontier 0 (fun root => root)) ++ owner_opt_bytes (map_or active None snap_after) ++ gj_bytes (GroupState.journal g).
Definition v3_bytes (g : GroupState.t) : list byte :=
  PG10 ++ le_bytes 2 1 ++ le_bytes 2 0 ++ snapshot_bytes (GroupState.active g) ++ gj_bytes (GroupState.journal g) ++
  (GroupState.deltas g ≫= delta_slot_bytes) ++ (GroupState.retired g ≫= retired_bytes).
Definition no_deltas (g : GroupState.t) : Prop := GroupState.deltas g = GroupState.deltas GroupState.default /\ GroupState.retired g = GroupState.retired GroupState.default.
Definition old_shape (g : GroupState.t) : Prop :=
  opt_typed (fun s => snapshot_typed s /\ (frontier_root s = None -> frontier_valid s = false)) (GroupState.active g) /\ opt_typed gj_typed (GroupState.journal g) /\ no_deltas g.
Definition v3_shape (g : GroupState.t) : Prop :=
  opt_typed (fun s => snapshot_typed s /\ frontier_some s) (GroupState.active g) /\ opt_typed gj_typed (GroupState.journal g) /\
  length (GroupState.deltas g) = N.to_nat GROUP_DELTA_SEGMENTS /\ Forall (opt_typed delta_typed) (GroupState.deltas g) /\
  length (GroupState.retired g) = N.to_nat GROUP_RETIRED_SEGMENTS /\ Forall (opt_typed retired_typed) (GroupState.retired g).
Lemma len_bind_slots {A} (enc : A -> list byte) k l : (forall x, len (enc x) = k) -> len (l ≫= enc) = k * len l.
Proof. intros H. induction l as [|x l IH]; [cbn; by rewrite !len_nil, N.mul_0_r|]. change (len (enc x ++ (l ≫= enc)) = k * len (x :: l)). rewrite len_app, H, len_cons, IH. lia. Qed.
Lemma len_old g : len (old_bytes g) = 72.
Proof. unfold old_bytes, gj_bytes. rewrite !len_app, !len_le_bytes, len_owner_opt. done. Qed.
Lemma len_v3 g : length (GroupState.deltas g) = N.to_nat GROUP_DELTA_SEGMENTS -> length (GroupState.retired g) = N.to_nat GROUP_RETIRED_SEGMENTS -> len (v3_bytes g) = 1504.
Proof.
  intros Hd Hr. unfold v3_bytes, gj_bytes. rewrite !len_app, !len_le_bytes, len_snapshot, (len_bind_slots delta_slot_bytes 72) by exact len_delta_slot. rewrite (len_bind_slots retired_bytes 16) by done.
  unfold len. rewrite Hd, Hr. done.
Qed.
Lemma read_old_exact s g : len s = 72 -> Tail.read_old (reading [] s) = Ok g <-> old_shape g /\ s = old_bytes g.
Proof.
  intros Hl. assert (Hs : small ([] ++ s)) by (unfold small, isize_max; cbn [app]; lia). unfold Tail.read_old. split.
  - intros H. next_lifted H (take_format 4) as mg t0 Hmg. unfold Datatypes.id in *. destruct (bool_decide_reflect (mg = PG09)) as [->|]; cbn [negb] in H; [|done].
    next_lifted H u16_format as vs t1 Hvs. next_lifted H u16_format as fl t2 Hfl. destruct (_ || _) eqn:Ev; cbn [negb] in H; [|done].
    next_lifted H u64_format as id t3 Hid. next_lifted H u32_format as hd t4 Hhd. next_lifted H u32_format as ta t5 Hta. next_lifted H u32_format as ro t6 Hro. next_lifted H u32_format as fr t7 Hfr.
    destruct ((vs =? 1) && negb (fr =? 0)) eqn:Ef; [done|]. next_read H optional_owner_reads as af t8 Haf. apply rbind_ok in H as (ac & Hac & H).
    next_read H journal_reads as j t9 Hj. apply rbind_ok in H as (u & Hu & H). apply lift_codec_ok, finish_reading_iff in Hu as ->. apply Ok_inj in H as <-. rewrite app_nil_r.
    assert (Hvf : (vs = 1 /\ fl = 0 /\ fr = 0) \/ (vs = 2 /\ fl <= 1)).
    { apply orb_true_iff in Ev as [Ev|Ev]; apply andb_true_iff in Ev as [E1%N.eqb_eq E2]; [left|right].
      - apply N.eqb_eq in E2. subst. cbn [N.eqb Pos.eqb andb] in Ef. apply negb_false_iff, N.eqb_eq in Ef. done.
      - apply N.leb_le in E2. done. }
    destruct (N.eqb_spec id 0) as [->|Hid0].
    + destruct (N.eqb_spec hd NO_BLOCK) as [->|], (N.eqb_spec ta NO_BLOCK) as [->|], (N.eqb_spec ro NO_BLOCK) as [->|], af, (N.eqb_spec vs 1) as [->|]; try done.
      apply Ok_inj in Hac as <-. destruct Hvf as [(_ & -> & ->)|[[=] _]]. split; [done|]. unfold old_bytes. cbn [GroupState.active map_or is_none is_some_and GroupState.journal].
      by rewrite <- ?app_assoc.
    + apply rbind_ok in Hac as (i & [-> _]%identifier_map & Hac). apply Ok_inj in Hac as <-. split.
      * split; [|by split]. unfold opt_typed, snapshot_typed, id_ok. cbn [GroupState.active snap_id snap_head snap_tail snap_root snap_after frontier_root frontier_valid].
        destruct Hvf as [(-> & -> & ->)|[-> Hfl1]]; cbn [N.eqb Pos.eqb]; split_and!; try done; lia.
      * unfold old_bytes. cbn [GroupState.active GroupState.journal map_or is_some_and snap_id snap_head snap_tail snap_root snap_after frontier_root frontier_valid].
        destruct Hvf as [(-> & -> & ->)|[-> Hfl1]]; cbn [N.eqb Pos.eqb map_or is_none]; [by rewrite <- ?app_assoc|].
        assert (E2 : N.b2n (fl =? 1) = fl) by (assert (fl = 0 \/ fl = 1) as [-> | ->] by lia; done). rewrite E2. by rewrite <- ?app_assoc.
  - intros [Hg ->]. destruct g as [ac j ds rs]. destruct Hg as (Hac & Hj & [Hd Hr]). cbn [GroupState.active GroupState.journal GroupState.deltas GroupState.retired] in *. subst ds rs.
    unfold old_bytes in *. cbn [GroupState.active GroupState.journal] in *. set (frontier := map_or ac None frontier_root) in *.
    assert (Hopt : opt_wf (map_or ac None snap_after)) by (destruct ac as [ac|]; [apply Hac|done]).
    assert (Hft : map_or frontier 0 (fun root => root) < 2 ^ 32) by (unfold frontier; destruct ac as [ac|]; [|done]; destruct Hac as [(_ & _ & _ & _ & _ & Hac) _]; cbn [map_or]; by destruct (frontier_root ac)).
    give_lifted (take_format 4) PG09; [done|]. unfold Datatypes.id. rewrite bool_decide_eq_true_2 by done. cbn [negb].
    give_lifted u16_format (if is_none frontier then 1 else 2); [by destruct (is_none frontier)|]. give_lifted u16_format (N.b2n (is_some_and ac frontier_valid)); [by destruct (is_some_and ac frontier_valid)|].
    assert (Ev : ((if is_none frontier then 1 else 2) =? 1) && (N.b2n (is_some_and ac frontier_valid) =? 0) || ((if is_none frontier then 1 else 2) =? 2) && (N.b2n (is_some_and ac frontier_valid) <=? 1) = true).
    { unfold frontier. destruct ac as [ac|]; [|done]. cbn [map_or is_some_and]. destruct Hac as [_ Hac]. destruct (frontier_root ac); cbn [is_none]; [by destruct (frontier_valid ac)|by rewrite Hac]. }
    rewrite Ev. cbn [negb]. give_lifted u64_format (map_or ac 0 snap_id); [destruct ac as [v|]; [apply Hac|done]|]. give_lifted u32_format (map_or ac NO_BLOCK snap_head); [destruct ac as [v|]; [apply Hac|done]|].
    give_lifted u32_format (map_or ac NO_BLOCK snap_tail); [destruct ac as [v|]; [apply Hac|done]|]. give_lifted u32_format (map_or ac NO_BLOCK snap_root); [destruct ac as [v|]; [apply Hac|done]|].
    give_lifted u32_format (map_or frontier 0 (fun root => root)); [done|].
    assert (Ef : ((if is_none frontier then 1 else 2) =? 1) && negb (map_or frontier 0 (fun root => root) =? 0) = false) by (by destruct frontier). rewrite Ef.
    give_read optional_owner_reads (map_or ac None snap_after); [done|].
    match goal with |- (let* active := ?m in _) = _ => assert (Em : m = Ok ac) end.
    { unfold frontier. destruct ac as [ac|]; [|done]. cbn [map_or is_some_and]. destruct Hac as [[[Hid _] _] Hac]. rewrite (proj2 (N.eqb_neq _ _)) by lia. rewrite (proj2 (identifier_map (snap_id ac) (snap_id ac))) by (split; [done|lia]).
      cbn [rbind]. do 2 f_equal. destruct ac as [i h t r a f b]. cbn [snap_id snap_head snap_tail snap_root snap_after frontier_root frontier_valid] in *. f_equal; [by destruct f|by destruct b]. }
    rewrite Em. cbn [rbind]. rewrite <- (app_nil_r (gj_bytes j)). give_read journal_reads j; [done|]. by rewrite (proj2 (lift_codec_ok _ tt)) by by apply finish_reading_iff.
Qed.
Lemma read_v3_exact s g : len s = 1504 -> Tail.read_v3 (reading [] s) = Ok g <-> v3_shape g /\ s = v3_bytes g.
Proof.
  intros Hl. assert (Hs : small ([] ++ s)) by (unfold small, isize_max; cbn [app]; lia). unfold Tail.read_v3.
  pose proof (slots_reads _ _ _ (N.to_nat GROUP_DELTA_SEGMENTS) delta_reads) as Hds. pose proof (slots_reads _ _ _ (N.to_nat GROUP_RETIRED_SEGMENTS) retired_reads) as Hrs. split.
  - intros H. next_lifted H (take_format 4) as mg t0 Hmg. unfold Datatypes.id in *. destruct (bool_decide_reflect (mg = PG10)) as [->|]; cbn [negb] in H; [|done].
    next_lifted H u16_format as vs t1 Hvs. destruct (N.eqb_spec vs 1) as [->|]; cbn [negb] in H; [|done]. next_lifted H u16_format as fl t2 Hfl. destruct (N.eqb_spec fl 0) as [->|]; cbn [negb] in H; [|done].
    next_read H snapshot_reads as ac t3 Hac. next_read H journal_reads as j t4 Hj. next_read H Hds as ds t5 Hd. next_read H Hrs as rs t6 Hr.
    apply rbind_ok in H as (u & Hu & H). apply lift_codec_ok, finish_reading_iff in Hu as ->. apply Ok_inj in H as <-. destruct Hd, Hr. split; [by split_and!|].
    unfold v3_bytes. cbn [GroupState.active GroupState.journal GroupState.deltas GroupState.retired]. by rewrite app_nil_r.
  - intros [Hg ->]. destruct g as [ac j ds rs]. destruct Hg as (Hac & Hj & Hd1 & Hd2 & Hr1 & Hr2). unfold v3_bytes in *. cbn [GroupState.active GroupState.journal GroupState.deltas GroupState.retired] in *.
    give_lifted (take_format 4) PG10; [done|]. unfold Datatypes.id. rewrite bool_decide_eq_true_2 by done. cbn [negb].
    give_lifted u16_format 1; [done|]. cbn [N.eqb Pos.eqb negb]. give_lifted u16_format 0; [done|]. cbn [N.eqb negb]. give_read snapshot_reads ac; [done|]. give_read journal_reads j; [done|].
    rewrite <- (app_nil_r (rs ≫= retired_bytes)) in *. apply (reads_bind _ _ _ _ _ _ _ Hds); [small_lia|]. exists ds, ((rs ≫= retired_bytes) ++ []). split; [done|]. split; [done|].
    apply (reads_bind _ _ _ _ _ _ _ Hrs); [small_lia|]. exists rs, []. split; [done|]. split; [done|]. by rewrite (proj2 (lift_codec_ok _ tt)) by by apply finish_reading_iff.
Qed.

(** ** Writing *)
Section Writers.
Context (out : list byte) (Hout : small out).
Ltac puts := unfold Writer.u8, Writer.u16, Writer.u32, Writer.u64; repeat (rewrite put_writing; [cbn [lift_codec map_err rbind]|done|rewrite ?len_app, ?len_le_bytes, ?len_cons, ?len_nil in *; lia]).
Lemma write_optional_ok pre o : opt_wf o -> len pre + 16 <= len out -> Tail.write_optional_owner (writing out pre) o = Ok (writing out (pre ++ owner_opt_bytes o)).
Proof.
  intros Ho Hl. unfold Tail.write_optional_owner. destruct o as [o|]; [by apply ref_write|]. rewrite put_writing; [done|done|]. change (len (replicate 16 (byte_of 0))) with 16. done.
Qed.
Lemma write_snapshot_ok pre o : opt_typed snapshot_typed o -> len pre + 48 <= len out -> Tail.write_snapshot (writing out pre) o = Ok (writing out (pre ++ snapshot_bytes o)).
Proof.
  intros Ho Hl. unfold Tail.write_snapshot. puts. rewrite write_optional_ok; [|destruct o as [o|]; [apply Ho|done]|rewrite !len_app, !len_le_bytes; lia].
  unfold snapshot_bytes. by rewrite <- !app_assoc.
Qed.
Lemma write_journal_ok pre o : len pre + 24 <= len out -> Tail.write_journal (writing out pre) o = Ok (writing out (pre ++ gj_bytes o)).
Proof. intros Hl. unfold Tail.write_journal. puts. unfold gj_bytes. by rewrite <- !app_assoc. Qed.
Lemma write_delta_slot_ok pre o : opt_typed delta_typed o -> len pre + 72 <= len out -> Tail.write_delta (writing out pre) o = Ok (writing out (pre ++ delta_slot_bytes o)).
Proof.
  intros Ho Hl. unfold Tail.write_delta. rewrite write_snapshot_ok; [|destruct o as [o|]; [apply Ho|done]|lia]. cbn [rbind].
  rewrite write_optional_ok; [|destruct o as [o|]; [apply Ho|done]|rewrite len_app, len_snapshot; lia]. cbn [rbind]. unfold Writer.u8.
  rewrite put_writing; [cbn [lift_codec map_err rbind]|done|rewrite !len_app, len_snapshot, len_owner_opt, len_cons, len_nil; lia].
  rewrite put_writing; [cbn [lift_codec map_err rbind]|done|rewrite !len_app, len_snapshot, len_owner_opt, len_cons, len_nil; change (len (replicate 7 (byte_of 0))) with 7; lia].
  unfold delta_slot_bytes. by rewrite <- !app_assoc.
Qed.
Lemma write_retired_ok pre o : len pre + 16 <= len out -> Tail.write_retired (writing out pre) o = Ok (writing out (pre ++ retired_bytes o)).
Proof. intros Hl. unfold Tail.write_retired. puts. unfold retired_bytes. by rewrite <- !app_assoc. Qed.
Lemma write_slots_ok {A} (write : Writer.t -> A -> Result Writer.t) (enc : A -> list byte) k l : (forall x, len (enc x) = k) ->
  forall pre, (forall pre x, x ∈ l -> len pre + k <= len out -> write (writing out pre) x = Ok (writing out (pre ++ enc x))) -> len pre + k * len l <= len out ->
  foldM write (writing out pre) l = Ok (writing out (pre ++ (l ≫= enc))).
Proof.
  intros Hk. induction l as [|x l IH]; intros pre Hw Hl; [cbn; by rewrite app_nil_r|]. rewrite len_cons in Hl. cbn [foldM]. rewrite Hw by (by left || lia). cbn [rbind].
  rewrite IH; [by rewrite <- app_assoc|intros; apply Hw; [by right|done]|rewrite len_app, Hk; lia].
Qed.
End Writers.
Definition zeros_of (n : N) : list byte := replicate (N.to_nat n) (byte_of 0).
Lemma len_zeros_of n : len (zeros_of n) = n.
Proof. unfold zeros_of, len. rewrite length_replicate. lia. Qed.
Lemma write_old_ok g : old_shape g -> Tail.write_old (Writer.new (zeros_of 72)) g = Ok (writing (zeros_of 72) (old_bytes g)).
Proof.
  intros (Hac & _ & _). assert (Hs : small (zeros_of 72)) by (unfold small, isize_max; rewrite len_zeros_of; lia). pose proof (len_zeros_of 72) as Hz. assert (L1 : len PG09 = 4) by done. unfold Tail.write_old.
  rewrite writing_new. unfold Writer.u16, Writer.u32, Writer.u64. repeat (rewrite put_writing; [cbn [lift_codec map_err rbind]|done|rewrite ?len_app, ?len_le_bytes, ?L1, ?len_nil, Hz; lia]).
  rewrite write_optional_ok; [cbn [rbind]|done|destruct (GroupState.active g); [apply Hac|done]|rewrite !len_app, !len_le_bytes, L1, len_nil, Hz; lia].
  rewrite write_journal_ok; [|done|rewrite !len_app, !len_le_bytes, len_owner_opt, L1, len_nil, Hz; lia]. unfold old_bytes. by rewrite <- !app_assoc.
Qed.
Lemma write_v3_ok g : v3_shape g -> Tail.write_v3 (Writer.new (zeros_of 1504)) g = Ok (writing (zeros_of 1504) (v3_bytes g)).
Proof.
  intros (Hac & _ & Hd1 & Hd2 & Hr1 & _). assert (Hs : small (zeros_of 1504)) by (unfold small, isize_max; rewrite len_zeros_of; lia). pose proof (len_zeros_of 1504) as Hz. unfold Tail.write_v3.
  change (N.to_nat GROUP_DELTA_SEGMENTS) with 16%nat in Hd1. change (N.to_nat GROUP_RETIRED_SEGMENTS) with 17%nat in Hr1.
  assert (L1 : len PG10 = 4) by done. assert (L2 : len (gj_bytes (GroupState.journal g)) = 24) by done.
  rewrite writing_new. unfold Writer.u16. repeat (rewrite put_writing; [cbn [lift_codec map_err rbind]|done|rewrite ?len_app, ?len_le_bytes, ?L1, ?len_nil, Hz; lia]).
  rewrite write_snapshot_ok; [cbn [rbind]|done|destruct (GroupState.active g); [apply Hac|done]|rewrite !len_app, !len_le_bytes, L1, len_nil, Hz; lia].
  rewrite write_journal_ok; [cbn [rbind]|done|rewrite !len_app, !len_le_bytes, len_snapshot, L1, len_nil, Hz; lia].
  rewrite (write_slots_ok _ _ delta_slot_bytes 72); [cbn [rbind]|by apply len_delta_slot|intros; apply write_delta_slot_ok; [done|by eapply (proj1 (list.Forall_forall _ _) Hd2)|done]|].
  2:{ rewrite !len_app, !len_le_bytes, len_snapshot, L1, L2, len_nil, Hz. unfold len. lia. }
  rewrite (write_slots_ok _ _ retired_bytes 16); [|done|intros; by apply write_retired_ok|].
  2:{ rewrite !len_app, !len_le_bytes, len_snapshot, (len_bind_slots delta_slot_bytes 72), L1, L2, len_nil, Hz by exact len_delta_slot. unfold len. lia. }
  unfold v3_bytes. by rewrite <- !app_assoc.
Qed.

(** * Valid states *)
(** The snapshots of a state, oldest first, and the deltas that are there. *)
Definition snapshots (g : GroupState.t) : list GroupSnapshot :=
  option_list (GroupState.active g) ++ (delta_snapshot <$> flatten (GroupState.deltas g)).
Definition prefix_of_slots {A} (l : list (option A)) : Prop := exists n, l = (Some <$> flatten l) ++ replicate n None.
(** Consecutive deltas: each continues where the last one ended. *)
Fixpoint delta_chain (after : option OwnerRef) (id : N) (level : option N) (l : list GroupDelta) : Prop :=
  match l with
  | [] => True
  | d :: l => let s := delta_snapshot d in
      GroupState.validate_snapshot s false = Ok tt /\ frontier_valid s = false /\ delta_level d < GROUP_DELTA_SEGMENTS /\ match level with Some v => delta_level d < v | None => True end /\
      delta_before d = after /\ snap_after s <> None /\ snap_after s <> delta_before d /\ id < snap_id s /\
      match delta_before d, snap_after s with Some before, Some after => owner_incarnation before < owner_incarnation after | _, _ => True end /\ delta_chain (snap_after s) (snap_id s) (Some (delta_level d)) l
  end.
Lemma flatten_cons_some {A} (x : A) l : flatten (Some x :: l) = x :: flatten l.
Proof. done. Qed.
Lemma snapshot_cases s b : GroupState.validate_snapshot s b = Ok tt \/ GroupState.validate_snapshot s b = Err InvalidState.
Proof. unfold GroupState.validate_snapshot. destruct (_ || _); auto. Qed.
Lemma existsb_false {A} (f : A -> bool) l : existsb f l = false <-> Forall (fun x => f x = false) l.
Proof.
  induction l as [|x l IH]; [split; [by constructor|done]|]. cbn [existsb]. rewrite orb_false_iff, IH. split; [intros [? ?]; by constructor|intros H; by inversion H].
Qed.
Lemma flatten_none {A} (l : list (option A)) : Forall (fun o => o = None) l -> flatten l = [] /\ l = replicate (length l) None.
Proof. induction 1 as [|o l -> _ [IH1 IH2]]; [by split|]. split; [done|]. cbn [length replicate]. by f_equal. Qed.
Lemma slots_some {A} (x : A) l : prefix_of_slots l -> prefix_of_slots (Some x :: l).
Proof. intros [n E]. exists n. change (Some x :: l = Some x :: ((Some <$> flatten l) ++ replicate n None)). by f_equal. Qed.
Lemma slots_none {A} (l : list (option A)) : Forall (fun o => o = None) l -> prefix_of_slots (None :: l).
Proof. intros [E1 E2]%flatten_none. exists (S (length l)). change (None :: l = (Some <$> flatten l) ++ None :: replicate (length l) None). rewrite E1. by rewrite E2 at 1. Qed.
Definition w_gap_true (w : GroupState.Walk) : Prop := GroupState.w_gap w = true.
Section Deltas.
Context (g : GroupState.t).
Lemma deltas_gap l : forall w w', w_gap_true w -> foldM (GroupState.check_delta g) w l = Ok w' -> Forall (fun o => o = None) l /\ GroupState.w_id w' = GroupState.w_id w.
Proof.
  induction l as [|[d|] l IH]; intros w w' Hw H; [apply Ok_inj in H as <-; by split| |]; cbn [foldM GroupState.check_delta] in H.
  - unfold w_gap_true in Hw. by rewrite Hw in H.
  - cbn [rbind] in H. apply IH in H as [H1 H2]; [|done]. split; [by constructor|done].
Qed.
Lemma deltas_chain l : forall after id level w', foldM (GroupState.check_delta g) (GroupState.mkWalk after (Some id) level false) l = Ok w' ->
  (flatten l = [] \/ GroupState.active g <> None) /\ prefix_of_slots l /\ delta_chain after id level (flatten l) /\
  GroupState.w_id w' = Some (List.last (snap_id <$> (delta_snapshot <$> flatten l)) id).
Proof.
  induction l as [|[d|] l IH]; intros after id level w' H; cbn [foldM] in H.
  - apply Ok_inj in H as <-. split; [by left|]. split; [by exists 0%nat|]. by split.
  - apply rbind_ok in H as (w & H1 & H). unfold GroupState.check_delta in H1. cbn [GroupState.w_gap orb] in H1. destruct (is_none (GroupState.active g)) eqn:Ea; [done|]. apply rbind_ok in H1 as (u & Hv & H1).
    match type of H1 with (if ?b then _ else _) = _ => destruct b eqn:Eb end; [done|]. apply Ok_inj in H1 as <-. destruct u.
    apply IH in H as (_ & Hp & Hc & Hid). cbn [GroupState.w_level GroupState.w_after GroupState.w_id] in Eb.
    repeat match goal with Hx : _ || _ = false |- _ => apply orb_false_iff in Hx as [Hx ?] end.
    split; [right; intros E; by rewrite E in Ea|]. split; [by apply slots_some|]. rewrite flatten_cons_some. split.
    + cbn [delta_chain]. repeat match goal with Hx : bool_decide _ = false |- _ => apply bool_decide_eq_false_1 in Hx | Hx : negb (bool_decide _) = false |- _ => apply negb_false_iff, bool_decide_eq_true_1 in Hx | Hx : (_ <=? _) = false |- _ => apply N.leb_gt in Hx end.
      split_and!; try done.
      * destruct level; [|done]. by apply N.leb_gt.
      * by destruct (snap_after (delta_snapshot d)).
      * by apply N.leb_gt.
      * destruct (delta_before d), (snap_after (delta_snapshot d)); try done. by apply N.leb_gt.
    + rewrite Hid. f_equal. rewrite !fmap_cons. generalize (snap_id <$> (delta_snapshot <$> flatten l)). generalize (snap_id (delta_snapshot d)). intros x [|y k]; [done|]. clear. revert y. induction k as [|z k IHk]; intros y; [done|]. apply IHk.
  - cbn [GroupState.check_delta rbind GroupState.w_after GroupState.w_id GroupState.w_level] in H. apply deltas_gap in H as [H1 H2]; [|done]. pose proof (flatten_none l H1) as [E _].
    change (flatten (None :: l)) with (flatten l). rewrite E. split; [by left|]. split; [by apply slots_none|]. split; [done|]. by rewrite H2.
Qed.
Lemma deltas_idle l : forall w w', GroupState.active g = None -> foldM (GroupState.check_delta g) w l = Ok w' -> Forall (fun o => o = None) l /\ GroupState.w_id w' = GroupState.w_id w.
Proof.
  induction l as [|[d|] l IH]; intros w w' Ha H; [apply Ok_inj in H as <-; by split| |]; cbn [foldM GroupState.check_delta] in H.
  - rewrite Ha in H. cbn [is_none] in H. by rewrite orb_true_r in H.
  - cbn [rbind] in H. apply IH in H as [H1 H2]; [|done]. split; [by constructor|done].
Qed.
Lemma retired_slots l : forall b b', foldM (GroupState.check_retired g) b l = Ok b' ->
  (b = true -> Forall (fun o => o = None) l) /\ prefix_of_slots l /\
  Forall (fun r => ret_head r <> NO_BLOCK /\ posting_pair_valid (ret_head r) (ret_tail r) = true /\ (ret_id r ∉ (snap_id <$> snapshots g)) /\ match GroupState.journal g with Some j => gj_id j <> ret_id r | None => True end) (flatten l).
Proof.
  induction l as [|[r|] l IH]; intros b b' H; cbn [foldM] in H.
  - split; [by constructor|]. split; [by exists 0%nat|by constructor].
  - apply rbind_ok in H as (b1 & H1 & H). cbn [GroupState.check_retired] in H1. destruct (b || _ || _) eqn:E1; [done|]. destruct (_ || _ || _) eqn:E2 in H1; [done|]. apply Ok_inj in H1 as <-.
    apply orb_false_iff in E1 as [E1 Ep%negb_false_iff]. apply orb_false_iff in E1 as [-> Eh%N.eqb_neq]. apply orb_false_iff in E2 as [E2 Ej]. apply orb_false_iff in E2 as [Ea Ed].
    apply IH in H as (_ & Hs & Hf). split; [done|]. split; [by apply slots_some|]. rewrite flatten_cons_some. constructor; [|done]. split_and!; try done.
    + unfold snapshots. rewrite fmap_app. intros [Hx|Hx]%elem_of_app.
      * destruct (GroupState.active g); [|by apply not_elem_of_nil in Hx]. apply list_elem_of_singleton in Hx. cbn in Ea, Hx. by rewrite <- Hx, N.eqb_refl in Ea.
      * rewrite <- list_fmap_compose in Hx. apply list_elem_of_fmap in Hx as (d & Ex & Hd). rewrite existsb_false, list.Forall_forall in Ed. specialize (Ed d Hd). cbn in Ex. by rewrite <- Ex, N.eqb_refl in Ed.
    + destruct (GroupState.journal g) as [j|]; [|done]. cbn in Ej. by apply N.eqb_neq.
  - cbn [GroupState.check_retired rbind] in H. apply IH in H as (Hn & Hs & Hf). specialize (Hn eq_refl). split; [by constructor|]. split; [by apply slots_none|done].
Qed.
End Deltas.
Lemma chain_sorted l : forall after id level, delta_chain after id level l ->
  StronglySorted N.lt (id :: (snap_id <$> (delta_snapshot <$> l))) /\
  StronglySorted (fun a b => b < a) (match level with Some v => [v] | None => [] end ++ (delta_level <$> l)) /\ Forall (fun d => snap_after (delta_snapshot d) <> None /\ delta_level d < GROUP_DELTA_SEGMENTS) l /\
  (forall i d, l !! i = Some d -> delta_before d = match i with O => after | S i => match l !! i with Some d' => snap_after (delta_snapshot d') | None => None end end).
Proof.
  induction l as [|d l IH]; intros after id level H.
  { split; [repeat constructor|]. split; [destruct level; repeat constructor|]. split; [constructor|done]. }
  destruct H as (_ & _ & Hlv & Hlevel & Hb & Ha & _ & Hid & _ & H). destruct (IH _ _ _ H) as (H1 & H2 & H3 & H4). rewrite !fmap_cons.
  split.
  { constructor; [done|]. constructor; [done|]. apply StronglySorted_inv in H1 as [_ H1]. eapply Forall_impl; [|exact H1]. cbn. intros x Hx. unfold SegmentId in *. lia. }
  split.
  { destruct level as [v|]; cbn [app]; [|exact H2]. constructor; [exact H2|]. constructor; [done|]. apply StronglySorted_inv in H2 as [_ H2]. eapply Forall_impl; [|exact H2]. cbn. intros; lia. }
  split; [by constructor|]. intros [|i] d' Hd; cbn in Hd; [by injection Hd as <-|]. rewrite (H4 i d' Hd). by destruct i.
Qed.
(** C15: every state that validation accepts keeps its snapshots in order: their identifiers
    increase from the active one through the deltas, the levels of the deltas decrease,
    the slots are filled from the front, each delta begins at the fence where the one
    before it ends, and a snapshot that waits to be freed is none of the published ones. *)
Theorem group_state_ordered g : GroupState.validate g = Ok tt ->
  StronglySorted N.lt (snap_id <$> snapshots g) /\ StronglySorted (fun a b => b < a) (delta_level <$> flatten (GroupState.deltas g)) /\
  prefix_of_slots (GroupState.deltas g) /\ prefix_of_slots (GroupState.retired g) /\
  (GroupState.active g = None -> flatten (GroupState.deltas g) = []) /\
  (forall i d, flatten (GroupState.deltas g) !! i = Some d -> delta_before d = match snapshots g !! i with Some s => snap_after s | None => None end) /\
  Forall (fun r => ret_head r <> NO_BLOCK /\ ret_id r ∉ (snap_id <$> snapshots g)) (flatten (GroupState.retired g)).
Proof.
  unfold GroupState.validate. intros H. apply rbind_ok in H as (u & _ & H). apply rbind_ok in H as (w & Hd & H). apply rbind_ok in H as (u' & _ & H). apply rbind_ok in H as (b & Hr & _).
  apply retired_slots in Hr as (_ & Hr1 & Hr2). assert (Hr3 : Forall (fun r => ret_head r <> NO_BLOCK /\ ret_id r ∉ (snap_id <$> snapshots g)) (flatten (GroupState.retired g))) by (eapply Forall_impl; [|exact Hr2]; cbn; tauto).
  unfold snapshots in *. destruct (GroupState.active g) as [a|] eqn:Ea; cbn [option_map option_list app fmap list_fmap] in *.
  - apply deltas_chain in Hd as (_ & Hp & Hc & _). apply chain_sorted in Hc as (C1 & C2 & C3 & C4). split_and!; try done.
    intros i d Hi. rewrite (C4 i d Hi). destruct i as [|i]; [done|].
    assert (E : (a :: (delta_snapshot <$> flatten (GroupState.deltas g))) !! S i = delta_snapshot <$> (flatten (GroupState.deltas g) !! i)) by apply list_lookup_fmap.
    transitivity (match (a :: (delta_snapshot <$> flatten (GroupState.deltas g))) !! S i with Some s => snap_after s | None => None end); [|done].
    rewrite E. by destruct (flatten (GroupState.deltas g) !! i).
  - apply deltas_idle in Hd as [Hd _]; [|done]. destruct (flatten_none _ Hd) as [E1 E2]. rewrite E1 in *. split_and!; try done; [constructor|constructor|].
    exists (length (GroupState.deltas g)). by rewrite E1.
Qed.

(** * The metapage with its tail *)
Inductive tail_rep (bs : list byte) (n : N) (g : GroupState.t) : Prop :=
| tail_legacy : n = META_LEGACY_BYTES -> g = GroupState.default -> tail_rep bs n g
| tail_old : n = META_GROUPED_BYTES -> slice bs META_LEGACY_BYTES n = Some (old_bytes g) -> old_shape g -> tail_rep bs n g
| tail_v3 : n = META_GROUPED_V3_BYTES -> slice bs META_LEGACY_BYTES n = Some (v3_bytes g) -> v3_shape g -> tail_rep bs n g.
Definition state_ok (g : GroupState.t) (next : N) : Prop := GroupState.validate g = Ok tt /\ GroupState.beyond g next = false.
Section Tail.
Context (p : Page.t) (Hp : page_fits p) (Hk : Page.kind p = PageKind.Meta).
(** [grouped_state] returns a state exactly when the tail encodes it, in one of the two
    formats or as the empty tail of the first one, and it is valid. *)
Lemma grouped_state_iff g : GroupMeta.grouped_state p = Ok g <-> tail_rep (Page.buffer p) (Page.length_ p) g /\ state_ok g (field (Page.buffer p) 32 8).
Proof.
  destruct Hp as [Hb Hl]. unfold GroupMeta.grouped_state. rewrite meta_require by done. cbn [rbind].
  change META_LEGACY_BYTES with 4160 in *. change META_GROUPED_BYTES with 4232 in *. change META_GROUPED_V3_BYTES with 5664 in *.
  assert (Hdef : state_ok GroupState.default (field (Page.buffer p) 32 8)) by by split.
  destruct (N.eqb_spec (Page.length_ p) 4160) as [E|Hne1].
  { split; [intros H; apply Ok_inj in H as <-; split; [by apply tail_legacy|done]|]. intros [[_ ->|E' _ _|E' _ _] _]; [done|..];
      [change META_GROUPED_BYTES with 4232 in E'|change META_GROUPED_V3_BYTES with 5664 in E']; lia. }
  assert (Hslice : forall n, 4160 <= n -> n = Page.length_ p -> exists s, slice (Page.buffer p) 4160 n = Some s /\ len s = n - 4160).
  { intros n Hn1 ->. destruct (slice (Page.buffer p) 4160 (Page.length_ p)) as [s|] eqn:Es; [exists s; split; [done|]; by destruct (slice_bounds _ _ _ _ Es) as (_ & _ & ?)|].
    exfalso. assert (E : slice (Page.buffer p) 4160 (Page.length_ p) = Some (take (N.to_nat (Page.length_ p - 4160)) (drop 4160 (Page.buffer p)))) by (apply slice_ok; split_and!; [done|lia|done]). by rewrite E in Es. }
  assert (Hnext : 40 <= Page.length_ p -> Page.u64 p 32 = Ok (field (Page.buffer p) 32 8)) by (intros; by apply page_u64).
  assert (Hend : forall s (read : Reader.t -> Result GroupState.t) (shape : GroupState.t -> Prop) enc, 40 <= Page.length_ p -> slice (Page.buffer p) 4160 (Page.length_ p) = Some s ->
    (read (Reader.new s) = Ok g <-> shape g /\ s = enc g) ->
    (let* state := read (Reader.new s) in let* _ := GroupState.validate state in let* next := Page.u64 p 32 in if GroupState.beyond state next then Err InvalidState else Ok state) = Ok g <->
    (shape g /\ slice (Page.buffer p) 4160 (Page.length_ p) = Some (enc g)) /\ state_ok g (field (Page.buffer p) 32 8)).
  { intros s read shape enc Hl40 Es Hr. rewrite Es. unfold state_ok. split.
    - intros H. apply rbind_ok in H as (g' & Hg & H). apply rbind_ok in H as ([] & Hv & H). rewrite Hnext in H by done. cbn [rbind] in H.
      destruct (GroupState.beyond g' _) eqn:Eb; [done|]. apply Ok_inj in H as ->. apply Hr in Hg as [? ->]. done.
    - intros [[Hsh Hs] [Hv Hbe]]. apply Some_inj' in Hs. rewrite (proj2 Hr (conj Hsh Hs)). cbn [rbind]. rewrite Hv. cbn [rbind]. rewrite Hnext by done. cbn [rbind]. by rewrite Hbe. }
  assert (E40 : forall n, 4160 <= n -> Page.length_ p = n -> 40 <= Page.length_ p) by lia.
  destruct (N.eqb_spec (Page.length_ p) 4232) as [E|Hne2].
  { destruct (Hslice 4232) as (s & Es & Hs); [lia|done|]. rewrite <- E in Es. rewrite Es. cbn [or_panic ok_or rbind].
    rewrite (Hend s Tail.read_old old_shape old_bytes); [|lia|done|rewrite reading_new; apply read_old_exact; lia].
    split; [intros [[H1 H2] H3]; split; [by apply tail_old|done]|]. intros [[E' _|_ H1 H2|E' _ _] H3];
      [change META_LEGACY_BYTES with 4160 in E'; lia|done|change META_GROUPED_V3_BYTES with 5664 in E'; lia]. }
  destruct (N.eqb_spec (Page.length_ p) 5664) as [E|Hne3].
  { destruct (Hslice 5664) as (s & Es & Hs); [lia|done|]. rewrite <- E in Es. rewrite Es. cbn [or_panic ok_or rbind].
    rewrite (Hend s Tail.read_v3 v3_shape v3_bytes); [|lia|done|rewrite reading_new; apply read_v3_exact; lia].
    split; [intros [[H1 H2] H3]; split; [by apply tail_v3|done]|]. intros [[E' _|E' _ _|_ H1 H2] H3];
      [change META_LEGACY_BYTES with 4160 in E'; lia|change META_GROUPED_BYTES with 4232 in E'; lia|done]. }
  cbn [rbind]. split; [done|]. intros [[E' _|E' _ _|E' _ _] _]; [change META_LEGACY_BYTES with 4160 in E'|change META_GROUPED_BYTES with 4232 in E'|change META_GROUPED_V3_BYTES with 5664 in E']; done.
Qed.
End Tail.
(** The Rust types of the fields. *)
Definition group_typed (g : GroupState.t) : Prop :=
  opt_typed snapshot_typed (GroupState.active g) /\ opt_typed gj_typed (GroupState.journal g) /\
  length (GroupState.deltas g) = N.to_nat GROUP_DELTA_SEGMENTS /\
  Forall (opt_typed (fun d => snapshot_typed (delta_snapshot d) /\ opt_wf (delta_before d) /\ delta_level d < 2 ^ 8)) (GroupState.deltas g) /\
  length (GroupState.retired g) = N.to_nat GROUP_RETIRED_SEGMENTS /\ Forall (opt_typed retired_typed) (GroupState.retired g).
Definition extended (g : GroupState.t) : bool := negb (GroupState.delta_count g =? 0) || existsb (fun r => negb (is_none r)) (GroupState.retired g).
Lemma snapshot_valid s b : GroupState.validate_snapshot s b = Ok tt -> frontier_some s /\ (frontier_root s = None -> frontier_valid s = false) /\ (b = false -> frontier_root s = None).
Proof.
  unfold GroupState.validate_snapshot. destruct (_ || _) eqn:E; [done|]. intros _. apply orb_false_iff in E as [E _]. apply orb_false_iff in E as [E E7]. apply orb_false_iff in E as [E E6].
  apply orb_false_iff in E as [E _]. apply orb_false_iff in E as [E _]. apply orb_false_iff in E as [_ E3]. unfold frontier_some. split; [|split].
  - destruct (frontier_root s) as [f|]; [|done]. intros ->. done.
  - intros Ef. rewrite Ef in E7. cbn [is_none] in E7. by rewrite andb_true_r in E7.
  - intros ->. destruct (frontier_root s); done.
Qed.
Lemma none_slots {A} (l : list (option A)) : existsb (fun r => negb (is_none r)) l = false -> l = replicate (length l) None.
Proof. intros H. apply existsb_false in H. apply flatten_none. eapply Forall_impl; [|exact H]. intros [x|]; done. Qed.
Lemma validate_cases g : GroupState.validate g = Ok tt \/ GroupState.validate g = Err InvalidState.
Proof.
  assert (Hfold : forall {A S} (f : S -> A -> Result S) l s, (forall s x, (exists s', f s x = Ok s') \/ f s x = Err InvalidState) -> (exists s', foldM f s l = Ok s') \/ foldM f s l = Err InvalidState).
  { intros A S f l. induction l as [|x l IH]; intros s H; [left; by exists s|]. cbn [foldM]. destruct (H s x) as [[s' ->]| ->]; [by apply IH|by right]. }
  unfold GroupState.validate. assert (Ha : match GroupState.active g with Some s => GroupState.validate_snapshot s true | None => Ok tt end = Ok tt \/ match GroupState.active g with Some s => GroupState.validate_snapshot s true | None => Ok tt end = Err InvalidState)
    by (destruct (GroupState.active g); [apply snapshot_cases|by left]).
  destruct Ha as [-> | ->]; [|by right]. cbn [rbind]. match goal with |- context [foldM (GroupState.check_delta g) ?w ?l] => destruct (Hfold _ _ (GroupState.check_delta g) l w) as [[w' ->]| ->] end; [|cbn [rbind]|by right].
  { intros s [d|]; [|left; by eexists]. cbn [GroupState.check_delta]. destruct (_ || _); [by right|]. destruct (snapshot_cases (delta_snapshot d) false) as [-> | ->]; [|by right]. cbn [rbind]. destruct (_ || _); [by right|left; by eexists]. }
  assert (Hj : GroupState.check_journal g (GroupState.w_id w') = Ok tt \/ GroupState.check_journal g (GroupState.w_id w') = Err InvalidState).
  { unfold GroupState.check_journal. destruct (GroupState.journal g) as [j|]; [|by left]. destruct (negb _); [by right|]. destruct (gj_phase j); match goal with |- context [if ?b then _ else _] => destruct b end; auto. }
  destruct Hj as [-> | ->]; [|by right]. cbn [rbind]. destruct (Hfold _ _ (GroupState.check_retired g) (GroupState.retired g) false) as [[b ->]| ->]; [|by left|by right].
  intros s [r|]; [|left; by eexists]. cbn [GroupState.check_retired]. destruct (_ || _); [by right|]. destruct (_ || _); [by right|left; by eexists].
Qed.
Lemma valid_shape g : group_typed g -> GroupState.validate g = Ok tt -> (extended g = false -> old_shape g) /\ v3_shape g.
Proof.
  intros (Ha & Hj & Hd1 & Hd2 & Hr1 & Hr2) Hv. assert (Hact : opt_typed (fun s => snapshot_typed s /\ frontier_some s /\ (frontier_root s = None -> frontier_valid s = false)) (GroupState.active g)).
  { unfold GroupState.validate in Hv. destruct (GroupState.active g) as [s|]; [|done]. apply rbind_ok in Hv as ([] & Hs & _). apply snapshot_valid in Hs as (H1 & H2 & _). by split. }
  split.
  - unfold extended. intros He. apply orb_false_iff in He as [He1%negb_false_iff%N.eqb_eq He2]. split; [destruct (GroupState.active g); [|done]; split; apply Hact|]. split; [done|]. split.
    + unfold GroupState.delta_count in He1. apply len_zero in He1. unfold GroupState.default. cbn [GroupState.deltas]. rewrite <- Hd1. apply none_slots, existsb_false, list.Forall_forall. intros [d|] Hin; [|done].
      assert (Hin' : d ∈ flatten (GroupState.deltas g)) by (apply list_elem_of_omap; by exists (Some d)). rewrite He1 in Hin'. by apply not_elem_of_nil in Hin'.
    + unfold GroupState.default. cbn [GroupState.retired]. rewrite <- Hr1. by apply none_slots.
  - split; [destruct (GroupState.active g); [split; apply Hact|done]|]. split; [done|]. split; [done|]. split; [|done].
    apply list.Forall_forall. intros [d|] Hin; [|done]. pose proof (proj1 (list.Forall_forall _ _) Hd2 _ Hin) as (T1 & T2 & T3). split; [done|]. split; [|done].
    unfold GroupState.validate in Hv. apply rbind_ok in Hv as (u & _ & Hv). apply rbind_ok in Hv as (w & Hw & _). clear -Hw Hin. revert Hw. generalize (GroupState.mkWalk (match GroupState.active g with Some s => snap_after s | None => None end) (option_map snap_id (GroupState.active g)) None false).
    revert Hin. generalize (GroupState.deltas g). intros l. induction l as [|x l IH]; intros Hin w0 H; [by apply not_elem_of_nil in Hin|]. cbn [foldM] in H. apply rbind_ok in H as (w1 & H1 & H).
    apply elem_of_cons in Hin as [<-|Hin]; [|by eapply IH]. cbn [GroupState.check_delta] in H1. destruct (_ || _); [done|]. apply rbind_ok in H1 as ([] & Hs & _). by apply snapshot_valid in Hs as (? & _).
Qed.
Definition state_okb (g : GroupState.t) (next : N) : bool := is_ok (GroupState.validate g) && negb (GroupState.beyond g next).
Lemma state_okb_ok g next : state_okb g next = true <-> state_ok g next.
Proof.
  unfold state_okb, state_ok. rewrite andb_true_iff, negb_true_iff. destruct (GroupState.validate g) as [[]|e|]; cbn [is_ok]; intuition congruence.
Qed.
Section Store.
Context (p : Page.t) (Hp : page_fits p) (Hk : Page.kind p = PageKind.Meta) (Hlen : META_LEGACY_BYTES <= Page.length_ p).
Lemma fill_tail n bs : len bs = n - META_LEGACY_BYTES -> META_LEGACY_BYTES <= n -> n <= CAPACITY ->
  exists q, copy_from (Page.buffer p) META_LEGACY_BYTES n bs = Some q /\ len q = CAPACITY /\ slice q META_LEGACY_BYTES n = Some bs /\
    forall off k, off + k <= META_LEGACY_BYTES -> field q off k = field (Page.buffer p) off k.
Proof.
  destruct Hp as [Hb Hl]. intros Hbs Hn1 Hn2. set (a := take (N.to_nat META_LEGACY_BYTES) (Page.buffer p)). set (z := drop (N.to_nat META_LEGACY_BYTES) (Page.buffer p)).
  assert (Ha : len a = META_LEGACY_BYTES) by (unfold a; rewrite len_take, Hb; done). assert (Hz : len z = CAPACITY - META_LEGACY_BYTES) by (unfold z; rewrite len_drop, Hb; lia).
  assert (E : Page.buffer p = a ++ z) by (unfold a, z; by rewrite take_drop).
  exists (a ++ bs ++ drop (length bs) z). split; [|split; [|split]].
  - rewrite E, <- Ha. replace n with (len a + len bs) by (rewrite Ha, Hbs; lia). apply copy_from_over. rewrite Hz, Hbs. lia.
  - rewrite !len_app, len_drop, Ha. unfold len in *. lia.
  - apply slice_app; [done|rewrite Ha, Hbs; lia].
  - intros off k Hok. rewrite E. unfold field. do 1 f_equal. assert (Hnat : (N.to_nat off + N.to_nat k <= length a)%nat) by (unfold len in Ha; lia).
    rewrite !skipn_app, !take_app_le; [done|rewrite length_drop; lia|rewrite length_drop; lia].
Qed.
(** [set_grouped_state] stores a valid state, leaves the fields of the page alone, and
    refuses any other state. *)
Lemma set_grouped_ok g : group_typed g ->
  if state_okb g (field (Page.buffer p) 32 8) then
    exists p', GroupMeta.set_grouped_state p g = Ok p' /\ page_fits p' /\ Page.kind p' = PageKind.Meta /\ Page.block p' = Page.block p /\ META_LEGACY_BYTES <= Page.length_ p' /\
      tail_rep (Page.buffer p') (Page.length_ p') g /\ forall off k, off + k <= META_LEGACY_BYTES -> field (Page.buffer p') off k = field (Page.buffer p) off k
  else GroupMeta.set_grouped_state p g = Err InvalidState.
Proof.
  intros Ht. unfold GroupMeta.set_grouped_state. rewrite meta_require by done. cbn [rbind]. unfold state_okb.
  destruct (validate_cases g) as [Hv|Hv]; rewrite Hv; cbn [is_ok rbind andb]; [|done]. change META_LEGACY_BYTES with 4160 in *.
  rewrite page_u64 by (done || lia). cbn [rbind]. destruct (GroupState.beyond g _); cbn [negb]; [done|].
  destruct (valid_shape g Ht Hv) as [Hold Hv3]. fold (extended g). destruct (extended g) eqn:Ee; cbn [negb].
  - change (META_GROUPED_V3_BYTES - META_LEGACY_BYTES) with 1504. change (replicate (N.to_nat 1504) (byte_of 0)) with (zeros_of 1504). rewrite write_v3_ok by done. cbn [rbind].
    pose proof Hv3 as (_ & _ & Hd & _ & Hr & _). pose proof (len_v3 g Hd Hr) as H3. assert (Hw : Writer.written (writing (zeros_of 1504) (v3_bytes g)) = 1504) by exact H3. rewrite Hw. cbn [N.eqb Pos.eqb negb].
    rewrite writing_all by (by rewrite H3, len_zeros_of). destruct (fill_tail META_GROUPED_V3_BYTES (v3_bytes g)) as (q & Eq & Hq & Hs & Hf); [done|done|done|].
    change META_LEGACY_BYTES with 4160 in *. rewrite Eq. cbn [or_panic ok_or rbind]. eexists. split; [done|]. split; [split; [done|done]|]. split; [done|]. split; [done|]. split; [done|]. split; [|done].
    by apply tail_v3.
  - specialize (Hold eq_refl). change (replicate 72 (byte_of 0)) with (zeros_of 72). rewrite write_old_ok by done. cbn [rbind]. pose proof (len_old g) as H2.
    rewrite writing_all by (by rewrite H2, len_zeros_of). destruct (fill_tail META_GROUPED_BYTES (old_bytes g)) as (q & Eq & Hq & Hs & Hf); [done|done|done|].
    change META_LEGACY_BYTES with 4160 in *. rewrite Eq. cbn [or_panic ok_or rbind]. eexists. split; [done|]. split; [split; [done|done]|]. split; [done|]. split; [done|]. split; [done|]. split; [|done].
    by apply tail_old.
Qed.
End Store.

(** ** Runs that change both the fields and the tail *)
Inductive GroupMetaOp : Type := Fields (op : MetaOp) | SetGroups (g : GroupState.t).
Definition group_op_wf (op : GroupMetaOp) : Prop := match op with Fields op => op_wf op | SetGroups g => group_typed g end.
Definition group_meta_step (s : MetaState * GroupState.t) (op : GroupMetaOp) : Result (option Incarnation * (MetaState * GroupState.t)) :=
  match op with
  | Fields op => let* '(i, m) := meta_step (fst s) op in Ok (i, (m, snd s))
  | SetGroups g => if state_okb g (meta_next (fst s)) then Ok (None, (fst s, g)) else Err InvalidState
  end.
Definition group_page_step (p : Page.t) (op : GroupMetaOp) : Result (option Incarnation * Page.t) :=
  match op with
  | Fields op => page_step p op
  | SetGroups g => let* p := GroupMeta.set_grouped_state p g in Ok (None, p)
  end.
(** The fields below the tail are all that the other operations write. *)
Definition keeps_tail (p p' : Page.t) : Prop :=
  drop (N.to_nat META_LEGACY_BYTES) (Page.buffer p') = drop (N.to_nat META_LEGACY_BYTES) (Page.buffer p) /\ Page.length_ p' = Page.length_ p /\ len (Page.buffer p') = len (Page.buffer p).
Lemma put_n_keeps p off n write p' bs : (forall w, write w = Writer.put w bs) -> len bs = n -> Page.put_n p off n write = Ok p' -> off + n <= META_LEGACY_BYTES -> keeps_tail p p'.
Proof.
  intros Hw Hbs H Ho. unfold Page.put_n in H. apply rbind_ok in H as (r & Hr & H). assert (Hs : slice (Page.buffer p) off (off + n) = Some r) by (destruct (slice _ _ _); [by apply Ok_inj in Hr as <-|done]).
  apply rbind_ok in H as (w & H & E). apply Ok_inj in E as <-. destruct (slice_bounds _ _ _ _ Hs) as (_ & Hlt & Hr'). rewrite Hw in H.
  unfold Writer.put in H. cbn [Writer.new Writer.cursor Writer.bytes] in H. apply lift_codec_ok in H. apply rbind_ok in H as (e & _ & H). destruct (e <=? len r); [|done]. apply Ok_inj in H as <-.
  unfold keeps_tail, Page.write_back. cbn [Page.set_buffer Page.buffer Page.length_ Writer.bytes].
  assert (Hx : len (splice r 0 bs) = n) by (rewrite splice_len; lia). split; [|split; [done|by rewrite splice_len by lia]].
  unfold splice at 1. rewrite drop_app_ge by (rewrite length_take; lia). rewrite length_take_le by (unfold len in *; lia). rewrite drop_app_ge by (unfold len in *; lia). rewrite drop_drop. f_equal. unfold len in *. lia.
Qed.
Lemma put_u16_keeps p off v p' : Page.put_u16 p off v = Ok p' -> off + 2 <= META_LEGACY_BYTES -> keeps_tail p p'.
Proof. intros H Ho. eapply (put_n_keeps p off 2 _ p' (le_bytes 2 v)); [|by rewrite len_le_bytes|exact H|exact Ho]. done. Qed.
Lemma put_u32_keeps p off v p' : Page.put_u32 p off v = Ok p' -> off + 4 <= META_LEGACY_BYTES -> keeps_tail p p'.
Proof. intros H Ho. eapply (put_n_keeps p off 4 _ p' (le_bytes 4 v)); [|by rewrite len_le_bytes|exact H|exact Ho]. done. Qed.
Lemma put_u64_keeps p off v p' : Page.put_u64 p off v = Ok p' -> off + 8 <= META_LEGACY_BYTES -> keeps_tail p p'.
Proof. intros H Ho. eapply (put_n_keeps p off 8 _ p' (le_bytes 8 v)); [|by rewrite len_le_bytes|exact H|exact Ho]. done. Qed.
#[export] Instance keeps_tail_preorder : PreOrder keeps_tail.
Proof. split; [by intros p|]. intros p q r (H1 & H2 & H3) (H4 & H5 & H6). split_and!; congruence. Qed.
Ltac keeps := repeat match goal with
  | H : Page.put_u16 ?p ?o ?v = Ok ?q |- keeps_tail ?p _ => etrans; [apply (put_u16_keeps p o v q H); unfold META_HEADER, BUCKETS in *; change META_LEGACY_BYTES with 4160; lia|]; clear H
  | H : Page.put_u32 ?p ?o ?v = Ok ?q |- keeps_tail ?p _ => etrans; [apply (put_u32_keeps p o v q H); unfold META_HEADER, BUCKETS in *; change META_LEGACY_BYTES with 4160; lia|]; clear H
  | H : Page.put_u64 ?p ?o ?v = Ok ?q |- keeps_tail ?p _ => etrans; [apply (put_u64_keeps p o v q H); unfold META_HEADER, BUCKETS in *; change META_LEGACY_BYTES with 4160; lia|]; clear H
  end; try reflexivity.
Lemma page_step_keeps p op i p' : page_step p op = Ok (i, p') -> keeps_tail p p'.
Proof.
  intros H. destruct op as [| |h t|b h t|f|j]; cbn [page_step] in H.
  - unfold Page.reserve_incarnation in H. inv_ok. keeps.
  - unfold Page.enable_packed_postings in H. inv_ok. keeps.
  - unfold Page.set_owner_chain in H. inv_ok. keeps.
  - unfold Page.set_bucket in H. inv_ok. match goal with Hx : _ || _ = false |- _ => apply orb_false_iff in Hx as [Hx%N.leb_gt _] end. keeps.
  - unfold Page.set_free_head in H. inv_ok. keeps.
  - unfold Page.set_rewrite_journal in H. apply rbind_ok in H as (q & H & E). apply Ok_inj in E. apply pair_equal_spec in E as [_ <-].
    apply rbind_ok in H as (u & _ & H). apply rbind_ok in H as ([[a b] c] & _ & H). inv_ok. keeps.
Qed.
Lemma tail_keeps p p' g : keeps_tail p p' -> tail_rep (Page.buffer p) (Page.length_ p) g -> tail_rep (Page.buffer p') (Page.length_ p') g.
Proof.
  intros (Hd & Hl & Hb) Ht. rewrite Hl. assert (Hs : forall n x, slice (Page.buffer p) META_LEGACY_BYTES n = Some x -> slice (Page.buffer p') META_LEGACY_BYTES n = Some x).
  { intros n x (H1 & H2 & H3)%slice_ok. apply slice_ok. rewrite Hb, Hd. done. }
  destruct Ht as [E1 E2|E1 E2 E3|E1 E2 E3]; [by apply tail_legacy|apply tail_old; auto|apply tail_v3; auto].
Qed.
Lemma existsb_le {A} (f g : A -> bool) l : (forall x, g x = true -> f x = true) -> existsb f l = false -> existsb g l = false.
Proof. intros H Hf. apply existsb_false in Hf. apply existsb_false. eapply Forall_impl; [|exact Hf]. cbn. intros x Hx. destruct (g x) eqn:E; [|done]. apply H in E. by rewrite E in Hx. Qed.
Lemma beyond_mono g n n' : n <= n' -> GroupState.beyond g n = false -> GroupState.beyond g n' = false.
Proof.
  intros Hn H. unfold GroupState.beyond in *. apply orb_false_iff in H as [H H4]. apply orb_false_iff in H as [H H3]. apply orb_false_iff in H as [H1 H2].
  assert (Hle : forall v, (n' <=? v) = true -> (n <=? v) = true) by (intros v E%N.leb_le; apply N.leb_le; lia).
  apply orb_false_iff. split; [apply orb_false_iff; split; [apply orb_false_iff; split|]|].
  - destruct (GroupState.active g) as [s|]; [|done]. cbn in *. apply N.leb_gt in H1. apply N.leb_gt. lia.
  - eapply existsb_le; [|exact H2]. cbn. auto.
  - destruct (GroupState.journal g) as [s|]; [|done]. cbn in *. apply N.leb_gt in H3. apply N.leb_gt. lia.
  - eapply existsb_le; [|exact H4]. cbn. auto.
Qed.
Definition group_meta_rep (layout : HeapLayout) (p : Page.t) (s : MetaState * GroupState.t) : Prop :=
  meta_rep layout p (fst s) /\ tail_rep (Page.buffer p) (Page.length_ p) (snd s) /\ state_ok (snd s) (meta_next (fst s)).
Lemma meta_next_field layout p m : meta_rep layout p m -> field (Page.buffer p) 32 8 = meta_next m.
Proof. intros (_ & _ & _ & (_ & _ & _ & _ & _ & H & _) & _). exact H. Qed.
Lemma meta_rep_fields layout p p' m : meta_rep layout p m -> page_fits p' -> Page.kind p' = PageKind.Meta -> META_LEGACY_BYTES <= Page.length_ p' ->
  (forall off k, off + k <= META_LEGACY_BYTES -> field (Page.buffer p') off k = field (Page.buffer p) off k) -> meta_rep layout p' m.
Proof.
  intros (_ & _ & _ & (F1 & F2 & F3 & F4 & F5 & F6 & F7 & F8 & F9 & F10) & Hw) Hp Hk Hl Hf. change META_LEGACY_BYTES with 4160 in *. pose proof Hw as (_ & _ & _ & _ & _ & Hbl & _).
  split; [done|]. split; [done|]. split; [exact Hl|]. split; [|done]. unfold meta_fields. rewrite !Hf by lia. split_and!; try done.
  intros b pair E. pose proof E as Hb. unfold index in Hb. apply lookup_lt_Some in Hb. unfold len, BUCKETS in Hbl. rewrite !Hf by lia. by apply F10.
Qed.
Lemma group_meta_sim layout p s op : group_meta_rep layout p s -> group_op_wf op ->
  match group_meta_step s op with
  | Ok (r, s') => exists p', group_page_step p op = Ok (r, p') /\ group_meta_rep layout p' s'
  | Err e => group_page_step p op = Err e
  | Panic => False
  end.
Proof.
  destruct s as [m g]. intros (Hm & Ht & Hv & Hb) Hop. cbn [fst snd] in *. pose proof Hm as (Hp & Hk & Hl & _). destruct op as [op|g']; cbn [group_meta_step group_page_step fst snd].
  - pose proof (meta_step_ok layout p m op Hm Hop) as Hs. destruct (meta_step m op) as [[i m']|e|] eqn:Em; cbn [rbind]; [|done|done]. destruct Hs as (p' & E & Hm' & _). exists p'. split; [done|].
    split; [done|]. split; [by eapply tail_keeps; [eapply page_step_keeps|]|]. split; [done|]. cbn [fst snd]. eapply beyond_mono; [|exact Hb]. by apply step_next in Em as [? _].
  - pose proof (set_grouped_ok p Hp Hk Hl g' Hop) as Hs. rewrite (meta_next_field _ _ _ Hm) in Hs. destruct (state_okb g' (meta_next m)) eqn:Eo; [|by rewrite Hs].
    destruct Hs as (p' & E & Hp' & Hk' & _ & Hl' & Ht' & Hf). rewrite E. cbn [rbind]. exists p'. split; [done|]. split; [by eapply meta_rep_fields|]. split; [done|]. by apply state_okb_ok.
Qed.
Lemma group_default_ok n : state_ok GroupState.default n.
Proof. by split. Qed.
(** C14: the metapage with its optional tail: in any run of the operations on the fields and
    on the group state, the page and the abstract pair agree on every result and error,
    and afterwards both the fields and the group state read back. *)
Theorem group_metapage_run layout ops : layout_wf layout -> Forall group_op_wf ops ->
  exists p0 p, Page.metadata layout = Ok p0 /\
    run group_page_step p0 ops = (fst (run group_meta_step (meta_initial, GroupState.default) ops), p) /\
    (let s := snd (run group_meta_step (meta_initial, GroupState.default) ops) in
     GroupMeta.grouped_state p = Ok (snd s) /\ Page.owner_chain p = Ok (meta_owners (fst s)) /\ Page.free_head p = Ok (meta_free (fst s)) /\ Page.rewrite_journal p = Ok (meta_journal (fst s)) /\
     forall b, Page.bucket p b = ok_or (index (meta_buckets (fst s)) b) (corrupt META_HEADER)) /\
    Forall safe (fst (run group_meta_step (meta_initial, GroupState.default) ops)).
Proof.
  intros Hlay Hops. destruct (metadata_ok layout Hlay) as (p0 & E & Hrep & _ & Hl0). exists p0, (snd (run group_page_step p0 ops)). split; [done|].
  destruct (run_refine group_page_step group_meta_step (group_meta_rep layout) group_op_wf) with (ops := ops) (p := p0) (m := (meta_initial, GroupState.default)) as (Er & (Hm & Ht & Hs) & Hsafe); [intros; by apply group_meta_sim| |done|].
  { split; [done|]. split; [|apply group_default_ok]. apply tail_legacy; [exact Hl0|reflexivity]. }
  rewrite Er in Hsafe. rewrite <- Er at 1. split; [apply surjective_pairing|]. split; [|done]. cbv zeta. pose proof (meta_getters _ _ _ Hm) as (_ & G2 & G3 & G4 & G5).
  split; [|split; [exact G2|split; [exact G3|split; [exact G4|exact G5]]]]. pose proof Hm as (Hp & Hk & _).
  apply grouped_state_iff; [exact Hp|exact Hk|]. split; [exact Ht|]. rewrite (meta_next_field _ _ _ Hm). exact Hs.
Qed.

(** ** Instances *)
Definition sample_group : GroupState.t :=
  GroupState.mk (Some (mkSnapshot 3 10 12 12 (Some owner_a) None false)) None
    (Some (mkDelta (mkSnapshot 5 20 21 21 (Some owner_b) None false) (Some owner_a) 4) :: replicate 15 None)
    (Some (mkRetired 2 30 30) :: replicate 16 None).
Definition sample_group_ops : list GroupMetaOp :=
  [SetGroups sample_group; Fields Reserve; Fields Reserve; Fields Reserve; Fields Reserve; Fields Reserve; SetGroups sample_group; Fields (SetBucket 1 7 8); SetGroups (GroupState.mk None None (GroupState.deltas sample_group) (GroupState.retired sample_group))].
Lemma sample_group_typed : group_typed sample_group.
Proof.
  pose proof owner_a_wf as Ha. pose proof owner_b_wf as Hb. unfold group_typed, sample_group, opt_typed, snapshot_typed, retired_typed, id_ok. cbn [GroupState.active GroupState.journal GroupState.deltas GroupState.retired].
  split; [cbn; split_and!; try done|]. split; [done|]. split; [done|]. split; [constructor; [cbn; split_and!; try done|apply Forall_replicate; done]|]. split; [done|]. constructor; [cbn; by split_and!|apply Forall_replicate; done].
Qed.
Lemma group_metapage_run_witness :
  (exists p0 p, Page.metadata sample_layout = Ok p0 /\ snd (run group_page_step p0 sample_group_ops) = p /\ GroupMeta.grouped_state p = Ok sample_group /\ Page.bucket p 1 = Ok (7, 8)) /\
  fst (run group_meta_step (meta_initial, GroupState.default) sample_group_ops) =
    [Err InvalidState; Ok (Some 1); Ok (Some 2); Ok (Some 3); Ok (Some 4); Ok (Some 5); Ok None; Ok None; Err InvalidState].
Proof.
  split; [|vm_compute; reflexivity].
  destruct (group_metapage_run sample_layout sample_group_ops) as (p0 & p & H0 & Hr & (Hg & _ & _ & _ & Hb) & _); [exact sample_layout_wf| |].
  - pose proof sample_group_typed as Hg. repeat (constructor; [first [exact Hg | exact I | split; reflexivity]|]). constructor; [|constructor]. split; [exact I|]. split; [exact I|]. apply Hg.
  - exists p0, p. split; [exact H0|]. split; [exact (f_equal snd Hr)|]. split; [|rewrite Hb; vm_compute; reflexivity].
    assert (E : snd (snd (run group_meta_step (meta_initial, GroupState.default) sample_group_ops)) = sample_group) by (vm_compute; reflexivity). rewrite <- E. exact Hg.
Defined.
Lemma group_state_ordered_witness : StronglySorted N.lt [3; 5] /\ snap_id <$> snapshots sample_group = [3; 5].
Proof. split; [|reflexivity]. destruct (group_state_ordered sample_group) as [H _]; [vm_compute; reflexivity|exact H]. Defined.
