(* ===== verification/GroupPages.v ===== *)
(** Grouped pages: the second part of [src/crates/pin-core/src/mutable/page_grouped.rs],
    and the dispatch of [Page::validate] in [mutable/page.rs].

    A grouped page holds a fragment of a grouped record, or a node of the catalog that
    finds the records: an array of fixed entries in the order of their keys. The
    theorems: both kinds read back what was written and are refused otherwise, and
    [Page::validate] accepts exactly the pages that represent a state of their kind. *)
From Stdlib Require Import Sorting.Sorted.
From S2P Require Export PageGroups.

Definition GROUP_HEADER : N := PAGE_HEADER + 16.
Definition DATA_HEADER : N := GROUP_HEADER + 24.
Definition NODE_HEADER : N := GROUP_HEADER + 8.
Definition ENTRY_BYTES : N := 80.
Definition GROUP_DATA_BYTES : N := CAPACITY - DATA_HEADER.
Definition CATALOG_ENTRIES : N := (CAPACITY - NODE_HEADER) / ENTRY_BYTES.
Definition MAX_CATALOG_LEVEL : N := 7.

(** [GroupPageKind], [CatalogEntry], [GroupData] *)
Inductive GroupPageKind : Type := Members | Liveness | Posting | Leaf | Branch.
#[export] Instance GroupPageKind_eq_dec : EqDecision GroupPageKind.
Proof. solve_decision. Defined.
Record CatalogEntry : Type := mkCatalogEntry { entry_key : N * N; entry_value : list byte }.
Record GroupData : Type := mkGroupData { gd_id : SegmentId; gd_kind : GroupPageKind; gd_key : N * N; gd_total : N; gd_offset : N; gd_bytes : list byte }.
Definition group_kind_code (k : GroupPageKind) : N := match k with Members => 1 | Liveness => 2 | Posting => 3 | Leaf => 4 | Branch => 5 end.
Definition group_kind_of (tag : N) : option GroupPageKind :=
  match tag with 1 => Some Members | 2 => Some Liveness | 3 => Some Posting | 4 => Some Leaf | 5 => Some Branch | _ => None end.
(** [b"G9PG"] *)
Definition G9PG : list byte := [byte_of 71; byte_of 57; byte_of 80; byte_of 71].

Definition valid_key (key : N * N) : bool :=
  (snd key <=? 0xffffffff - 255) && (N.land (snd key) 255 =? 0) &&
  ((fst key =? 0) || ((0 <? N.shiftr (fst key) 16) && (N.shiftr (fst key) 16 <? NO_BLOCK) && (PAGE_HEADER <=? trunc 16 (fst key)) && (trunc 16 (fst key) <? CAPACITY))).
(** Arrays compare lexicographically. *)
Definition key_lt (a b : N * N) : bool := (fst a <? fst b) || ((fst a =? fst b) && (snd a <? snd b)).

Module GroupNode.
(** [GroupNode] *)
Record t : Type := mk { bytes : list byte; level : N; count : N }.
(** [GroupNode::key], [entry] *)
Definition key (self : t) (index : N) : Result (N * N) :=
  if count self <=? index then Err InvalidParameters else
  let start := index * ENTRY_BYTES in
  let* b := or_panic (slice (bytes self) start (start + 16)) in
  let* '(a, r) := lift_codec (Reader.u64 (Reader.new b)) in
  let* '(b, _) := lift_codec (Reader.u64 r) in
  Ok (a, b).
Definition entry (self : t) (index : N) : Result CatalogEntry :=
  let* k := key self index in
  let start := index * ENTRY_BYTES + 16 in
  let* value := or_panic (slice (bytes self) start (start + 64)) in
  Ok (mkCatalogEntry k value).
End GroupNode.

Module GroupPage.
(** [Writer::new(&mut page.bytes[offset..])] and the page when the writer is done *)
Definition write_from (self : Page.t) (offset : N) (write : Writer.t -> Result Writer.t) : Result Page.t :=
  let* region := or_panic (slice_from (Page.buffer self) offset) in
  let* w := write (Writer.new region) in
  Ok (Page.write_back self offset w).
(** [Page::new_grouped] *)
Definition new_grouped (block : N) (id : SegmentId) (kind : GroupPageKind) : Result Page.t :=
  let* page := Page.new block PageKind.Grouped in
  let* page := write_from page PAGE_HEADER (fun w =>
    let* w := lift_codec (Writer.put w (G9PG)) in
    let* w := lift_codec (Writer.u16 w 1) in
    let* w := lift_codec (Writer.u8 w (group_kind_code kind)) in
    let* w := lift_codec (Writer.u8 w 0) in
    lift_codec (Writer.u64 w id)) in
  Ok (Page.set_length page GROUP_HEADER).
(** [Page::group_identity] *)
Definition group_identity (self : Page.t) : Result (SegmentId * GroupPageKind) :=
  let* _ := Page.require self PageKind.Grouped in
  let* used := Page.bytes self in
  let* rest := ok_or (slice_from used PAGE_HEADER) InvalidState in
  let* '(magic, r) := lift_codec (Reader.take (Reader.new rest) 4) in
  if negb (bool_decide (magic = G9PG)) then Err InvalidState else
  let* '(version, r) := lift_codec (Reader.u16 r) in
  if negb (version =? 1) then Err InvalidState else
  let* '(tag, r) := lift_codec (Reader.u8 r) in
  let* kind := ok_or (group_kind_of tag) InvalidState in
  let* '(reserved, r) := lift_codec (Reader.u8 r) in
  if negb (reserved =? 0) then Err InvalidState else
  let* '(id, _) := lift_codec (Reader.u64 r) in
  let* id := map_err (fun _ => InvalidState) (identifier_new id) in
  Ok (id, kind).
Definition is_record (kind : GroupPageKind) : bool := match kind with Members | Liveness | Posting => true | _ => false end.
(** [Page::group_data] *)
Definition group_data (self : Page.t) : Result GroupData :=
  let* '(id, kind) := group_identity self in
  if negb (is_record kind) then Err InvalidState else
  let* used := Page.bytes self in
  let* rest := or_panic (slice_from used GROUP_HEADER) in
  let* '(k0, r) := lift_codec (Reader.u64 (Reader.new rest)) in
  let* '(k1, r) := lift_codec (Reader.u64 r) in
  let* '(total, r) := lift_codec (Reader.u32 r) in
  let* '(offset, r) := lift_codec (Reader.u32 r) in
  let* bytes := ok_or (slice_from used DATA_HEADER) InvalidState in
  let maximum := if bool_decide (kind = Members) then 72 + 256 * 512 * 16 else 72 + 256 * 68 in
  if negb (valid_key (k0, k1)) || negb (Bool.eqb (bool_decide (kind = Posting)) (negb (k0 =? 0))) || (total <? 72) || (maximum <? total)
     || (total <=? offset) || negb (offset mod GROUP_DATA_BYTES =? 0) || negb (len bytes =? N.min (total - offset) GROUP_DATA_BYTES)
  then Err InvalidState else Ok (mkGroupData id kind (k0, k1) total offset bytes).
(** [Page::group_record] *)
Definition group_record (block : N) (id : SegmentId) (kind : GroupPageKind) (key : N * N) (total offset : N) (bytes : list byte) : Result Page.t :=
  let* page := new_grouped block id kind in
  if GROUP_DATA_BYTES <? len bytes then Err (Limit "group fragment") else
  let* page := write_from page GROUP_HEADER (fun w =>
    let* w := lift_codec (Writer.u64 w (fst key)) in
    let* w := lift_codec (Writer.u64 w (snd key)) in
    let* w := lift_codec (Writer.u32 w total) in
    let* w := lift_codec (Writer.u32 w offset) in
    lift_codec (Writer.put w bytes)) in
  let page := Page.set_length page (DATA_HEADER + len bytes) in
  let* _ := group_data page in
  Ok page.
(** [Page::group_node_info] *)
Definition group_node_info (self : Page.t) : Result (N * N) :=
  let* '(_, kind) := group_identity self in
  let* used := Page.bytes self in
  let* level := ok_or (index used GROUP_HEADER) InvalidState in
  let level := byte_val level in
  let* count := Page.u16 self (GROUP_HEADER + 2) in
  if (MAX_CATALOG_LEVEL <? level) || (count =? 0) || (CATALOG_ENTRIES <? count) then Err InvalidState else
  let* reserved := or_panic (index (Page.buffer self) (GROUP_HEADER + 1)) in
  if negb (byte_val reserved =? 0) then Err InvalidState else
  let* reserved := Page.u32 self (GROUP_HEADER + 4) in
  if negb (reserved =? 0) || negb (Page.length_ self =? NODE_HEADER + count * ENTRY_BYTES)
     || negb (bool_decide (kind = if level =? 0 then Leaf else Branch))
  then Err InvalidState else Ok (level, count).
(** [Page::group_node_view], [group_entry] *)
Definition group_node_view (self : Page.t) : Result GroupNode.t :=
  let* '(level, count) := group_node_info self in
  let* bytes := or_panic (slice (Page.buffer self) NODE_HEADER (Page.length_ self)) in
  Ok (GroupNode.mk bytes level count).
Definition group_entry (self : Page.t) (index : N) : Result CatalogEntry :=
  let* node := group_node_view self in GroupNode.entry node index.
(** One round of the loop of [Page::validate_group_node]. *)
Definition check_entry (self : Page.t) (node : GroupNode.t) (previous : option (N * N)) (index : N) : Result (option (N * N)) :=
  let* key := GroupNode.key node index in
  if negb (valid_key key) || is_some_and previous (fun previous => negb (key_lt previous key)) then Err InvalidState else
  let* _ :=
    if negb (GroupNode.level node =? 0) then
      let* entry := GroupNode.entry node index in
      let* child := or_panic (slice (entry_value entry) 0 4) in
      let child := le_val child in
      let* rest := or_panic (slice_from (entry_value entry) 4) in
      if negb (block_valid child) || (child =? Page.block self) || negb (bool_decide (rest = replicate 60 (byte_of 0))) then Err InvalidState else Ok tt
    else Ok tt in
  Ok (Some key).
(** [Page::validate_group_node] *)
Definition validate_group_node (self : Page.t) : Result unit :=
  let* node := group_node_view self in
  let* _ := foldM (check_entry self node) None (range 0 (GroupNode.count node)) in
  Ok tt.
(** [Page::group_node] *)
Definition group_node (block : N) (id : SegmentId) (level : N) (entries : list CatalogEntry) : Result Page.t :=
  if (MAX_CATALOG_LEVEL <? level) || is_empty entries || (CATALOG_ENTRIES <? len entries) then Err (Limit "group catalog node") else
  let* page := new_grouped block id (if level =? 0 then Leaf else Branch) in
  let* page := write_from page GROUP_HEADER (fun w =>
    let* w := lift_codec (Writer.u8 w level) in
    let* w := lift_codec (Writer.u8 w 0) in
    let* w := lift_codec (Writer.u16 w (trunc 16 (len entries))) in
    let* w := lift_codec (Writer.u32 w 0) in
    foldM (fun w entry =>
      let* w := lift_codec (Writer.u64 w (fst (entry_key entry))) in
      let* w := lift_codec (Writer.u64 w (snd (entry_key entry))) in
      lift_codec (Writer.put w (entry_value entry))) w entries) in
  let page := Page.set_length page (NODE_HEADER + len entries * ENTRY_BYTES) in
  let* _ := validate_group_node page in
  Ok page.
(** [Page::validate_grouped] *)
Definition validate_grouped (self : Page.t) : Result unit :=
  let* '(_, kind) := group_identity self in
  match kind with
  | Leaf | Branch => validate_group_node self
  | _ => let* _ := group_data self in Ok tt
  end.
End GroupPage.

Module Validate.
(** The metapage of [Page::validate]. *)
Definition validate_meta (self : Page.t) (layout : HeapLayout) : Result unit :=
  let n := Page.length_ self in
  if negb ((n =? META_LEGACY_BYTES) || (n =? META_GROUPED_BYTES) || (n =? META_GROUPED_V3_BYTES)) then Err (corrupt 16) else
  let* profile := Page.u32 self 16 in
  if negb (profile =? PROFILE_ID) then Err (corrupt 16) else
  let* size := Page.u32 self 20 in
  if negb (size =? 8192) then Err (corrupt 16) else
  let* offset := Page.u16 self 24 in
  if negb (offset =? max_offset layout) then Err (corrupt 16) else
  let* buckets := Page.u16 self 26 in
  if negb (buckets =? BUCKETS) then Err (corrupt 16) else
  let* flags := Page.u32 self 28 in
  if negb (N.land flags (0xffffffff - 4) =? 0) then Err (corrupt 16) else
  let* next := Page.u64 self 32 in
  if next =? 0 then Err (corrupt 16) else
  let* _ := Page.owner_chain self in
  let* _ := Page.free_head self in
  let* _ := Page.rewrite_journal self in
  let* _ := GroupMeta.grouped_state self in
  foldM (fun _ bucket => let* _ := Page.bucket self bucket in Ok tt) tt (range 0 BUCKETS).
(** [Page::validate] *)
Definition validate (self : Page.t) (layout : HeapLayout) : Result unit :=
  if bool_decide (Page.kind self = PageKind.Zero) then Ok tt else
  let* _ := Page.check_next self in
  if negb (Bool.eqb (Page.block self =? 0) (bool_decide (Page.kind self = PageKind.Meta))) then Err (corrupt 8) else
  match Page.kind self with
  | PageKind.Zero => Ok tt
  | PageKind.Meta => validate_meta self layout
  | PageKind.Grouped => GroupPage.validate_grouped self
  | PageKind.Owners => OwnerPage.validate_owners self layout
  | PageKind.Dictionary => TermPage.validate_dictionary self
  | PageKind.Postings | PageKind.SealedPostings | PageKind.DirectPostings => PostingPage.validate_postings self layout
  | PageKind.Fragment => PostingPage.validate_fragment self
  | PageKind.Free => if negb (Page.length_ self =? PAGE_HEADER) then Err (corrupt PAGE_HEADER) else Ok tt
  end.
End Validate.

(** * Identities and records *)
Definition used (p : Page.t) : list byte := take (N.to_nat (Page.length_ p)) (Page.buffer p).
Definition group_head (id : SegmentId) (k : GroupPageKind) : list byte := G9PG ++ le_bytes 2 1 ++ [byte_of (group_kind_code k)] ++ [byte_of 0] ++ le_bytes 8 id.
Lemma group_kind_code_of k : group_kind_of (group_kind_code k) = Some k.
Proof. by destruct k. Qed.
Lemma group_kind_of_some c k : group_kind_of c = Some k -> c = group_kind_code k.
Proof. unfold group_kind_of. destruct c as [|[[[]|[]|]|[[]|[]|]|]]; intros [= <-]; done. Qed.
(** The bytes of a record, and what makes one acceptable. *)
Definition data_bytes (d : GroupData) : list byte :=
  group_head (gd_id d) (gd_kind d) ++ le_bytes 8 (fst (gd_key d)) ++ le_bytes 8 (snd (gd_key d)) ++ le_bytes 4 (gd_total d) ++ le_bytes 4 (gd_offset d) ++ gd_bytes d.
Definition key_typed (k : N * N) : Prop := fst k < 2 ^ 64 /\ snd k < 2 ^ 64.
Definition data_typed (d : GroupData) : Prop := id_ok (gd_id d) /\ key_typed (gd_key d) /\ gd_total d < 2 ^ 32 /\ gd_offset d < 2 ^ 32.
Definition record_limit (k : GroupPageKind) : N := if bool_decide (k = Members) then 72 + 256 * 512 * 16 else 72 + 256 * 68.
Definition record_ok (d : GroupData) : bool :=
  GroupPage.is_record (gd_kind d) && negb (negb (valid_key (gd_key d)) || negb (Bool.eqb (bool_decide (gd_kind d = Posting)) (negb (fst (gd_key d) =? 0))) || (gd_total d <? 72) || (record_limit (gd_kind d) <? gd_total d)
    || (gd_total d <=? gd_offset d) || negb (gd_offset d mod GROUP_DATA_BYTES =? 0) || negb (len (gd_bytes d) =? N.min (gd_total d - gd_offset d) GROUP_DATA_BYTES)).
Section Exact.
Context (p : Page.t) (Hp : page_fits p) (Hk : Page.kind p = PageKind.Grouped).
Lemma used_small : small (used p).
Proof. unfold used, small, isize_max. rewrite used_len by done. destruct Hp as [_ Hl]. unfold CAPACITY in Hl. lia. Qed.
Lemma used_split a s : slice_from (used p) a = Some s <-> exists pre, used p = pre ++ s /\ len pre = a.
Proof.
  unfold slice_from. split.
  - destruct (N.leb_spec a (len (used p))) as [Ha|]; [|done]. intros [= <-]. exists (take (N.to_nat a) (used p)). split; [by rewrite take_drop|]. rewrite len_take. lia.
  - intros (pre & E & <-). rewrite E, len_app, (proj2 (N.leb_le _ _)) by lia. by rewrite to_nat_len, drop_app_length.
Qed.
Lemma group_identity_exact id k : GroupPage.group_identity p = Ok (id, k) <-> id_ok id /\ exists pre tl, used p = pre ++ group_head id k ++ tl /\ len pre = PAGE_HEADER.
Proof.
  unfold GroupPage.group_identity. rewrite meta_require, bytes_ok by done. cbn [rbind]. fold (used p). split.
  - intros H. apply rbind_ok in H as (s & Hs & H). assert (Hs' : slice_from (used p) PAGE_HEADER = Some s) by (destruct (slice_from _ _); [by apply Ok_inj in Hs as <-|done]).
    apply used_split in Hs' as (pre & Eu & Hpre). assert (Hsm : small ([] ++ s)) by (pose proof used_small as Hu; rewrite Eu in Hu; small_lia). rewrite reading_new in H.
    next_lifted H (take_format 4) as mg t0 Hmg. unfold Datatypes.id in *. destruct (bool_decide_reflect (mg = G9PG)) as [->|]; cbn [negb] in H; [|done].
    next_lifted H u16_format as vs t1 Hvs. destruct (N.eqb_spec vs 1) as [->|]; cbn [negb] in H; [|done]. next_lifted H u8_format as tag t2 Htag.
    destruct (group_kind_of tag) as [k'|] eqn:Ek; cbn [ok_or rbind] in H; [|done]. apply group_kind_of_some in Ek as ->. next_lifted H u8_format as z t3 Hz.
    destruct (N.eqb_spec z 0) as [->|]; cbn [negb] in H; [|done]. next_lifted H u64_format as i t4 Hi. apply rbind_ok in H as (i' & [-> Hi0]%identifier_map & H). apply Ok_inj in H. injection H as -> ->.
    split; [unfold id_ok; lia|]. exists pre, t4. split; [|done]. rewrite Eu. unfold group_head. by rewrite <- !app_assoc.
  - intros ([Hi1 Hi2] & pre & tl & Eu & Hpre). assert (Hs : slice_from (used p) PAGE_HEADER = Some (group_head id k ++ tl)) by (apply used_split; by exists pre). rewrite Hs. cbn [ok_or rbind].
    assert (Hsm : small ([] ++ group_head id k ++ tl)) by (pose proof used_small as Hu; rewrite Eu in Hu; small_lia). unfold group_head in *. rewrite <- !app_assoc in *. rewrite reading_new.
    give_lifted (take_format 4) G9PG; [done|]. unfold Datatypes.id. rewrite bool_decide_eq_true_2 by done. cbn [negb]. give_lifted u16_format 1; [done|]. cbn [N.eqb Pos.eqb negb].
    give_lifted u8_format (group_kind_code k); [by destruct k|]. rewrite group_kind_code_of. cbn [ok_or rbind]. give_lifted u8_format 0; [done|]. cbn [N.eqb negb]. give_lifted u64_format id; [done|].
    rewrite (proj2 (identifier_map id id)) by (split; [done|lia]). done.
Qed.
Lemma group_data_image d pre : data_typed d -> used p = pre ++ data_bytes d -> len pre = PAGE_HEADER ->
  GroupPage.group_data p = if record_ok d then Ok d else Err InvalidState.
Proof.
  intros (Hid & [Hk0 Hk1] & Ht & Ho) Eu Hpre. destruct d as [id k [k0 k1] total offset bytes]. unfold data_bytes in Eu. cbn [gd_id gd_kind gd_key gd_total gd_offset gd_bytes fst snd] in *.
  unfold GroupPage.group_data. rewrite (proj2 (group_identity_exact id k)) by (split; [done|]; exists pre; eexists; by split). cbn [rbind]. unfold record_ok. cbn [gd_id gd_kind gd_key gd_total gd_offset gd_bytes fst snd].
  destruct (GroupPage.is_record k); cbn [negb andb]; [|done]. rewrite bytes_ok by done. cbn [rbind]. fold (used p).
  assert (H1 : slice_from (used p) GROUP_HEADER = Some (le_bytes 8 k0 ++ le_bytes 8 k1 ++ le_bytes 4 total ++ le_bytes 4 offset ++ bytes)).
  { apply used_split. exists (pre ++ group_head id k). rewrite Eu, <- !app_assoc. split; [done|]. rewrite len_app, Hpre. done. }
  assert (H2 : slice_from (used p) DATA_HEADER = Some bytes).
  { apply used_split. exists (pre ++ group_head id k ++ le_bytes 8 k0 ++ le_bytes 8 k1 ++ le_bytes 4 total ++ le_bytes 4 offset). rewrite Eu, <- !app_assoc. split; [done|]. rewrite !len_app, !len_le_bytes, Hpre. done. }
  assert (Hsm : small ([] ++ le_bytes 8 k0 ++ le_bytes 8 k1 ++ le_bytes 4 total ++ le_bytes 4 offset ++ bytes)) by (pose proof used_small as Hu; rewrite Eu in Hu; small_lia).
  rewrite H1. cbn [or_panic ok_or rbind]. rewrite reading_new.
  lifted_step u64_format k0; [|done]. lifted_step u64_format k1; [|done]. lifted_step u32_format total; [|done]. lifted_step u32_format offset; [|done]. rewrite H2. cbn [ok_or rbind].
  unfold record_limit. by destruct (_ || _).
Qed.
Lemma group_data_inv d : GroupPage.group_data p = Ok d -> data_typed d /\ record_ok d = true /\ exists pre, used p = pre ++ data_bytes d /\ len pre = PAGE_HEADER.
Proof.
  intros H. assert (H0 := H). unfold GroupPage.group_data in H. apply rbind_ok in H as ([id k] & (Hid & pre & tl & Eu & Hpre)%group_identity_exact & H).
  destruct (GroupPage.is_record k); cbn [negb] in H; [|done]. rewrite bytes_ok in H by done. cbn [rbind] in H. fold (used p) in H.
  assert (H1 : slice_from (used p) GROUP_HEADER = Some tl) by (apply used_split; exists (pre ++ group_head id k); rewrite Eu, <- app_assoc; split; [done|]; by rewrite len_app, Hpre).
  rewrite H1 in H. cbn [or_panic ok_or rbind] in H. assert (Hsm : small ([] ++ tl)) by (pose proof used_small as Hu; rewrite Eu in Hu; small_lia). rewrite reading_new in H.
  next_lifted H u64_format as k0 t1 Hk0. next_lifted H u64_format as k1 t2 Hk1. next_lifted H u32_format as total t3 Ht. next_lifted H u32_format as offset t4 Ho.
  assert (H2 : slice_from (used p) DATA_HEADER = Some t4).
  { apply used_split. exists (pre ++ group_head id k ++ le_bytes 8 k0 ++ le_bytes 8 k1 ++ le_bytes 4 total ++ le_bytes 4 offset). rewrite Eu, <- !app_assoc. split; [done|]. rewrite !len_app, !len_le_bytes, Hpre. done. }
  rewrite H2 in H. cbn [ok_or rbind] in H. match type of H with (if ?b then _ else _) = _ => destruct b end; [done|]. apply Ok_inj in H as <-.
  assert (Ht' : data_typed (mkGroupData id k (k0, k1) total offset t4)) by (by split_and!).
  assert (Eu' : used p = pre ++ data_bytes (mkGroupData id k (k0, k1) total offset t4)) by exact Eu.
  split; [done|]. split; [|by exists pre]. rewrite (group_data_image _ pre Ht' Eu' Hpre) in H0. by destruct (record_ok _).
Qed.
End Exact.
(** ** Building *)
Lemma write_from_ok p a z off write bs : Page.buffer p = a ++ z -> len a = off -> small z -> write (Writer.new z) = Ok (writing z bs) -> len bs <= len z ->
  GroupPage.write_from p off write = Ok (Page.set_buffer p (a ++ bs ++ drop (length bs) z)).
Proof.
  intros Eb <- Hs Hw Hl. unfold GroupPage.write_from. assert (E : slice_from (Page.buffer p) (len a) = Some z) by (unfold slice_from; rewrite Eb, len_app, (proj2 (N.leb_le _ _)) by lia; by rewrite to_nat_len, drop_app_length).
  rewrite E. cbn [or_panic ok_or rbind]. rewrite Hw. cbn [rbind]. unfold Page.write_back. do 2 f_equal. rewrite Eb. unfold writing. cbn [Writer.bytes].
  unfold splice. rewrite to_nat_len, take_app_length. f_equal.
  rewrite (drop_ge (a ++ z)); [by rewrite app_nil_r|]. rewrite length_app, len_app, len_drop. unfold len in *. lia.
Qed.
Definition grouped_header (blk : N) : list byte := head_bytes 10 0 blk NO_BLOCK.
Lemma new_grouped_ok blk id k : block_valid blk = true ->
  GroupPage.new_grouped blk id k = Ok (Page.mk blk PageKind.Grouped GROUP_HEADER false ((grouped_header blk ++ group_head id k) ++ zeros_of 8136)).
Proof.
  intros Hv. apply andb_true_iff in Hv as [Hz%negb_true_iff%N.eqb_neq Hn%negb_true_iff%N.eqb_neq]. unfold GroupPage.new_grouped.
  assert (E : Page.new blk PageKind.Grouped = Ok (Page.mk blk PageKind.Grouped PAGE_HEADER false (grouped_header blk ++ zeros_of 8152))).
  { apply new_ok. split; [done|]. split; [naive_solver|]. exists 10. split; [done|]. f_equal. }
  rewrite E. cbn [rbind]. pose proof (len_zeros_of 8152) as Hz2. assert (Hs : small (zeros_of 8152)) by (unfold small, isize_max; rewrite Hz2; lia). assert (L1 : len G9PG = 4) by done.
  rewrite (write_from_ok _ (grouped_header blk) (zeros_of 8152) _ _ (group_head id k)); [|done|done|done| |rewrite Hz2; by vm_compute].
  - cbn [rbind]. do 2 f_equal.
  - rewrite writing_new. unfold Writer.u16, Writer.u8, Writer.u64. repeat (rewrite put_writing; [cbn [lift_codec map_err rbind]|done|rewrite ?len_app, ?len_le_bytes, ?len_cons, ?len_nil, ?L1, Hz2; lia]).
    unfold group_head. by rewrite <- !app_assoc.
Qed.
(** The page with content behind its group header. *)
Definition grouped_image (blk : N) (id : SegmentId) (k : GroupPageKind) (body : list byte) : Page.t :=
  Page.mk blk PageKind.Grouped (GROUP_HEADER + len body) false ((grouped_header blk ++ group_head id k) ++ body ++ drop (length body) (zeros_of 8136)).
Lemma grouped_image_ok blk id k body : blk < 2 ^ 32 -> block_valid blk = true -> len body <= 8136 ->
  let p := grouped_image blk id k body in
  page_sound p /\ Page.kind p = PageKind.Grouped /\ Page.block p = blk /\ used p = grouped_header blk ++ group_head id k ++ body.
Proof.
  intros Hb Hv Hl p. pose proof (len_zeros_of 8136) as Hz. apply andb_true_iff in Hv as [Hz0%negb_true_iff%N.eqb_neq Hn%negb_true_iff%N.eqb_neq].
  assert (Hlen : len (Page.buffer p) = CAPACITY).
  { unfold p, grouped_image. cbn [Page.buffer]. rewrite !len_app, len_drop, Hz. change (len (grouped_header blk)) with 16. change (len (group_head id k)) with 16. unfold len in *. unfold CAPACITY. lia. }
  assert (Hu : Page.length_ p <= CAPACITY) by (unfold p, grouped_image; cbn [Page.length_]; change GROUP_HEADER with 32; unfold CAPACITY; lia).
  split; [|split; [done|split; [done|]]].
  - split; [by split|]. split; [unfold p, grouped_image; cbn [Page.length_]; change GROUP_HEADER with 32; lia|]. split; [done|].
    exists 10, 0, NO_BLOCK. eexists. split; [unfold p, grouped_image; cbn [Page.buffer Page.block]; rewrite <- app_assoc; reflexivity|]. split; [done|]. split; [done|]. split; [done|]. split; [done|]. split; [by left|by left].
  - unfold used, p, grouped_image. cbn [Page.buffer Page.length_]. rewrite <- app_assoc, !app_assoc, <- app_assoc. rewrite app_assoc. rewrite take_app_length'; [by rewrite <- !app_assoc|].
    rewrite !length_app. change (length (grouped_header blk)) with 16%nat. change (length (group_head id k)) with 16%nat. change GROUP_HEADER with 32. unfold len. lia.
Qed.
(** C19: a fragment that is written reads back with its identity and key, and a page is only
    made from a record that the readers accept; the other inputs are refused. *)
Theorem group_record_exact blk id k key total offset bytes : blk < 2 ^ 32 -> block_valid blk = true -> data_typed (mkGroupData id k key total offset bytes) ->
  let d := mkGroupData id k key total offset bytes in
  match GroupPage.group_record blk id k key total offset bytes with
  | Ok p => record_ok d = true /\ Page.block p = blk /\ page_sound p /\ GroupPage.group_identity p = Ok (id, k) /\ GroupPage.group_data p = Ok d /\ GroupPage.validate_grouped p = Ok tt
  | Err e => (e = Limit "group fragment" /\ GROUP_DATA_BYTES < len bytes) \/ (e = InvalidState /\ record_ok d = false)
  | Panic => False
  end.
Proof.
  intros Hb Hv Ht d. unfold GroupPage.group_record. rewrite new_grouped_ok by done. cbn [rbind]. destruct (N.ltb_spec GROUP_DATA_BYTES (len bytes)) as [Hg|Hg]; [left; by split|].
  pose proof (len_zeros_of 8136) as Hz. assert (Hs : small (zeros_of 8136)) by (unfold small, isize_max; rewrite Hz; lia). change GROUP_DATA_BYTES with 8112 in Hg.
  set (body := le_bytes 8 (fst key) ++ le_bytes 8 (snd key) ++ le_bytes 4 total ++ le_bytes 4 offset ++ bytes). assert (Hbody : len body = 24 + len bytes) by (unfold body; rewrite !len_app, !len_le_bytes; lia).
  rewrite (write_from_ok _ (grouped_header blk ++ group_head id k) (zeros_of 8136) _ _ body); [|done|done|done| |lia].
  2:{ rewrite writing_new. unfold Writer.u32, Writer.u64. repeat (rewrite put_writing; [cbn [lift_codec map_err rbind]|done|rewrite ?len_app, ?len_le_bytes, ?len_nil, Hz; lia]).
      unfold body. by rewrite <- !app_assoc. }
  cbn [rbind]. match goal with |- context [GroupPage.group_data ?q] => assert (Eq : q = grouped_image blk id k body) by (unfold grouped_image; rewrite Hbody, N.add_assoc; done); rewrite Eq; clear Eq end.
  destruct (grouped_image_ok blk id k body Hb Hv) as (Hsound & Hk & Hblk & Hu); [lia|]. set (p := grouped_image blk id k body) in *. pose proof (proj1 Hsound) as Hp.
  assert (Hd : GroupPage.group_data p = if record_ok d then Ok d else Err InvalidState) by (apply (group_data_image p Hp Hk d (grouped_header blk)); [done|exact Hu|done]).
  rewrite Hd. destruct (record_ok d) eqn:Er; cbn [rbind]; [|by right]. split; [done|]. split; [done|]. split; [done|].
  assert (Hi : GroupPage.group_identity p = Ok (id, k)) by (apply group_identity_exact; [done|done|]; split; [apply Ht|]; exists (grouped_header blk), body; by split).
  split; [done|]. split; [done|]. unfold GroupPage.validate_grouped. rewrite Hi. cbn [rbind]. rewrite Hd.
  unfold record_ok in Er. apply andb_true_iff in Er as [Er _]. cbn [gd_kind d] in Er. by destruct k.
Qed.

(** * Catalog nodes *)
Definition catalog_bytes (e : CatalogEntry) : list byte := le_bytes 8 (fst (entry_key e)) ++ le_bytes 8 (snd (entry_key e)) ++ entry_value e.
Definition catalog_typed (e : CatalogEntry) : Prop := key_typed (entry_key e) /\ len (entry_value e) = 64.
Definition node_head (level count : N) : list byte := [byte_of level] ++ [byte_of 0] ++ le_bytes 2 count ++ le_bytes 4 0.
Definition node_kind (level : N) : GroupPageKind := if level =? 0 then Leaf else Branch.
(** What the loop of [validate_group_node] demands of an entry after a key. *)
Definition child_of (e : CatalogEntry) : N := le_val (take 4 (entry_value e)).
Definition entry_ok (blk level : N) (previous : option (N * N)) (e : CatalogEntry) : bool :=
  valid_key (entry_key e) && negb (is_some_and previous (fun q => negb (key_lt q (entry_key e)))) &&
  ((level =? 0) || (block_valid (child_of e) && negb (child_of e =? blk) && bool_decide (drop 4 (entry_value e) = replicate 60 (byte_of 0)))).
Fixpoint entries_ok (blk level : N) (previous : option (N * N)) (l : list CatalogEntry) : bool :=
  match l with [] => true | e :: l => entry_ok blk level previous e && entries_ok blk level (Some (entry_key e)) l end.
Lemma len_catalog e : catalog_typed e -> len (catalog_bytes e) = 80.
Proof. intros [_ He]. unfold catalog_bytes. rewrite !len_app, !len_le_bytes, He. done. Qed.
Lemma len_catalog_all l : Forall catalog_typed l -> len (l ≫= catalog_bytes) = 80 * len l.
Proof. induction 1 as [|e l He _ IH]; [done|]. change (len (catalog_bytes e ++ (l ≫= catalog_bytes)) = 80 * len (e :: l)). rewrite len_app, len_catalog, len_cons, IH by done. lia. Qed.
(** Any bytes of the right length are entries. *)
Lemma catalog_any n : forall bs, len bs = 80 * N.of_nat n -> exists l, length l = n /\ Forall catalog_typed l /\ bs = l ≫= catalog_bytes.
Proof.
  induction n as [|n IH]; intros bs Hb; [exists []; split; [done|]; split; [constructor|]; by apply len_zero in Hb as ->|].
  destruct (IH (drop 80 bs)) as (l & Hl & Hw & E); [rewrite len_drop; unfold len in *; lia|].
  set (a := take 8 bs). set (b := take 8 (drop 8 bs)). set (v := take 64 (drop 16 bs)).
  assert (La : length a = 8%nat) by (unfold a; rewrite length_take; unfold len in Hb; lia). assert (Lb : length b = 8%nat) by (unfold b; rewrite length_take, length_drop; unfold len in Hb; lia).
  assert (Lv : length v = 64%nat) by (unfold v; rewrite length_take, length_drop; unfold len in Hb; lia).
  exists (mkCatalogEntry (le_val a, le_val b) v :: l). split; [cbn; lia|]. split.
  - constructor; [|done]. split; cbn [entry_key entry_value]; [split; cbn [fst snd]|unfold len; by rewrite Lv].
    + pose proof (le_val_lt a) as H. unfold len in H. rewrite La in H. done.
    + pose proof (le_val_lt b) as H. unfold len in H. rewrite Lb in H. done.
  - change (bs = catalog_bytes (mkCatalogEntry (le_val a, le_val b) v) ++ (l ≫= catalog_bytes)). rewrite <- E. unfold catalog_bytes. cbn [entry_key entry_value fst snd].
    rewrite <- La at 1. rewrite <- Lb at 1. rewrite !le_bytes_val. rewrite <- !app_assoc. unfold a, b, v. rewrite <- (take_drop 8 bs) at 1. f_equal. rewrite <- (take_drop 8 (drop 8 bs)) at 1. f_equal. rewrite drop_drop.
    change (8 + 8)%nat with 16%nat. rewrite <- (take_drop 64 (drop 16 bs)) at 1. by rewrite drop_drop.
Qed.
Section Node.
Context (l pre suf : list CatalogEntry) (e : CatalogEntry) (level : N) (El : l = pre ++ e :: suf) (Hl : Forall catalog_typed l).
Let node := GroupNode.mk (l ≫= catalog_bytes) level (len l).
Lemma node_at : Forall catalog_typed pre /\ catalog_typed e /\ l ≫= catalog_bytes = (pre ≫= catalog_bytes) ++ catalog_bytes e ++ (suf ≫= catalog_bytes).
Proof. rewrite El in Hl. apply Forall_app in Hl as [H1 H2]. apply list.Forall_cons in H2 as [H2 _]. split; [done|]. split; [done|]. rewrite El, bind_app. done. Qed.
Lemma node_key : GroupNode.key node (len pre) = Ok (entry_key e).
Proof.
  destruct node_at as (Hpre & He & E). unfold GroupNode.key, node. cbn [GroupNode.count GroupNode.bytes]. rewrite El at 1. rewrite (proj2 (N.leb_gt _ _)) by (rewrite len_app, len_cons; lia).
  rewrite E. unfold catalog_bytes at 2. rewrite <- !app_assoc. rewrite (app_assoc (le_bytes 8 _) (le_bytes 8 _)). unfold ENTRY_BYTES.
  rewrite (slice_app _ (le_bytes 8 (fst (entry_key e)) ++ le_bytes 8 (snd (entry_key e)))); [|rewrite len_catalog_all by done; lia|rewrite len_catalog_all, len_app, !len_le_bytes by done; lia].
  cbn [or_panic ok_or rbind]. destruct He as [[H0 H1] _]. rewrite <- (app_nil_r (le_bytes 8 (snd (entry_key e)))). rewrite reading_new.
  assert (Hs : small ([] ++ le_bytes 8 (fst (entry_key e)) ++ le_bytes 8 (snd (entry_key e)) ++ [])) by (unfold small, isize_max; cbn [app]; rewrite !len_app, !len_le_bytes, len_nil; lia).
  lifted_step u64_format (fst (entry_key e)); [|done]. lifted_step u64_format (snd (entry_key e)); [|done]. by destruct (entry_key e).
Qed.
Lemma node_entry : GroupNode.entry node (len pre) = Ok e.
Proof.
  unfold GroupNode.entry. rewrite node_key. cbn [rbind]. destruct node_at as (Hpre & He & E). unfold node. cbn [GroupNode.bytes]. rewrite E. unfold catalog_bytes at 2. rewrite <- !app_assoc.
  rewrite !app_assoc. rewrite <- (app_assoc _ (entry_value e)). unfold ENTRY_BYTES.
  rewrite (slice_app _ (entry_value e)); [cbn [or_panic ok_or rbind]; by destruct e| |]; rewrite !len_app, len_catalog_all, !len_le_bytes by done; [lia|]. destruct He as [_ ->]. lia.
Qed.
Lemma node_check q previous : GroupPage.check_entry q node previous (len pre) = if entry_ok (Page.block q) level previous e then Ok (Some (entry_key e)) else Err InvalidState.
Proof.
  unfold GroupPage.check_entry. rewrite node_key. cbn [rbind]. unfold entry_ok. destruct (valid_key (entry_key e)); cbn [negb orb andb]; [|done].
  destruct (is_some_and previous _); cbn [negb andb]; [done|]. change (GroupNode.level node) with level. destruct (level =? 0); cbn [negb orb rbind]; [done|]. rewrite node_entry. cbn [rbind].
  destruct node_at as (_ & [_ Hv] & _). assert (E1 : slice (entry_value e) 0 4 = Some (take 4 (entry_value e))) by (apply slice_ok; split_and!; [lia|lia|done]).
  assert (E2 : slice_from (entry_value e) 4 = Some (drop 4 (entry_value e))) by (unfold slice_from; by rewrite (proj2 (N.leb_le _ _)) by lia).
  rewrite E1, E2. cbn [or_panic ok_or rbind]. fold (child_of e). destruct (block_valid (child_of e)); cbn [negb orb andb rbind]; [|done]. destruct (child_of e =? Page.block q); cbn [negb orb andb rbind]; [done|].
  by destruct (bool_decide _).
Qed.
End Node.
Lemma node_loop q level l : Forall catalog_typed l -> forall suf pre previous, l = pre ++ suf ->
  (entries_ok (Page.block q) level previous suf = true -> exists k, foldM (GroupPage.check_entry q (GroupNode.mk (l ≫= catalog_bytes) level (len l))) previous (range (len pre) (len l)) = Ok k) /\
  (entries_ok (Page.block q) level previous suf = false -> foldM (GroupPage.check_entry q (GroupNode.mk (l ≫= catalog_bytes) level (len l))) previous (range (len pre) (len l)) = Err InvalidState).
Proof.
  intros Hl suf. induction suf as [|e suf IH]; intros pre previous El; cbn [entries_ok].
  - rewrite app_nil_r in El. rewrite <- El, range_nil by lia. split; [intros _; by exists previous|done].
  - assert (Hlen : len l = len pre + 1 + len suf) by (rewrite El, len_app, len_cons; lia). rewrite range_cons by lia. cbn [foldM]. rewrite (node_check l pre suf e level El Hl).
    destruct (entry_ok _ _ _ e); cbn [andb rbind]; [|done]. specialize (IH (pre ++ [e]) (Some (entry_key e))). rewrite len_app, len_cons, len_nil in IH. replace (len pre + (1 + 0)) with (len pre + 1) in IH by lia.
    apply IH. by rewrite <- app_assoc.
Qed.
Definition node_bytes (id : SegmentId) (level : N) (l : list CatalogEntry) : list byte := group_head id (node_kind level) ++ node_head level (len l) ++ (l ≫= catalog_bytes).
Definition node_shape (level : N) (l : list CatalogEntry) : Prop := level <= MAX_CATALOG_LEVEL /\ 1 <= len l <= CATALOG_ENTRIES /\ Forall catalog_typed l.
Lemma CATALOG_101 : CATALOG_ENTRIES = 101.
Proof. done. Qed.
Lemma index_behind {A} (a : list A) x c i : i = len a -> index (a ++ [x] ++ c) i = Some x.
Proof. intros ->. unfold index. rewrite to_nat_len. by apply list_lookup_middle. Qed.
Section NodePage.
Context (p : Page.t) (Hp : page_fits p) (Hk : Page.kind p = PageKind.Grouped).
Lemma used_buffer : Page.buffer p = used p ++ drop (N.to_nat (Page.length_ p)) (Page.buffer p).
Proof. unfold used. by rewrite take_drop. Qed.
Lemma group_view_image id level l pre : id_ok id -> node_shape level l -> used p = pre ++ node_bytes id level l -> len pre = PAGE_HEADER ->
  GroupPage.group_node_view p = Ok (GroupNode.mk (l ≫= catalog_bytes) level (len l)).
Proof.
  intros Hid (Hlv & Hl & Ht) Eu Hpre. rewrite CATALOG_101 in Hl. unfold MAX_CATALOG_LEVEL in Hlv. pose proof (used_len p Hp) as Hul. fold (used p) in Hul.
  assert (Hn : Page.length_ p = NODE_HEADER + len l * ENTRY_BYTES).
  { rewrite <- Hul, Eu. unfold node_bytes. rewrite !len_app, Hpre, len_catalog_all by done. change (len (group_head id (node_kind level))) with 16. change (len (node_head level (len l))) with 8. unfold ENTRY_BYTES. change NODE_HEADER with 40. unfold PAGE_HEADER. lia. }
  change NODE_HEADER with 40 in *. unfold ENTRY_BYTES in Hn. set (rest := drop (N.to_nat (Page.length_ p)) (Page.buffer p)).
  assert (Eb : Page.buffer p = (pre ++ group_head id (node_kind level)) ++ [byte_of level] ++ [byte_of 0] ++ le_bytes 2 (len l) ++ le_bytes 4 0 ++ (l ≫= catalog_bytes) ++ rest).
  { rewrite used_buffer. fold rest. rewrite Eu. unfold node_bytes, node_head. by rewrite <- !app_assoc. }
  assert (Hh : len (pre ++ group_head id (node_kind level)) = 32) by (rewrite len_app, Hpre; done). set (h := pre ++ group_head id (node_kind level)) in *.
  assert (Einfo : GroupPage.group_node_info p = Ok (level, len l)).
  { unfold GroupPage.group_node_info. rewrite (proj2 (group_identity_exact p Hp Hk id (node_kind level))) by (split; [done|]; exists pre; eexists; split; [exact Eu|done]). cbn [rbind].
    rewrite bytes_ok by done. cbn [rbind]. fold (used p). rewrite Eu. unfold node_bytes, node_head. rewrite app_assoc. fold h. rewrite <- !app_assoc. rewrite (index_behind h) by (by rewrite Hh). cbn [ok_or rbind].
    rewrite byte_val_of_small by lia. change (GROUP_HEADER + 2) with 34. change (GROUP_HEADER + 1) with 33. change (GROUP_HEADER + 4) with 36. rewrite page_u16, page_u32 by (done || lia). rewrite Eb.
    assert (E34 : field (h ++ [byte_of level] ++ [byte_of 0] ++ le_bytes 2 (len l) ++ le_bytes 4 0 ++ (l ≫= catalog_bytes) ++ rest) 34 2 = len l).
    { rewrite (app_assoc h), (app_assoc (h ++ _)). apply field_mid16; [|lia]. rewrite !len_app, Hh. done. }
    assert (E36 : field (h ++ [byte_of level] ++ [byte_of 0] ++ le_bytes 2 (len l) ++ le_bytes 4 0 ++ (l ≫= catalog_bytes) ++ rest) 36 4 = 0).
    { rewrite (app_assoc h), (app_assoc (h ++ _)), (app_assoc ((h ++ _) ++ _)). apply (field_mid _ 4 0); [|done]. rewrite !len_app, len_le_bytes, Hh. done. }
    rewrite E34, E36. cbn [rbind]. unfold MAX_CATALOG_LEVEL. rewrite (proj2 (N.ltb_ge 7 level)), (proj2 (N.eqb_neq (len l) 0)), CATALOG_101, (proj2 (N.ltb_ge 101 (len l))) by lia. cbn [orb].
    rewrite (app_assoc h), (index_behind (h ++ [byte_of level])) by (rewrite len_app, Hh; done). cbn [or_panic ok_or rbind]. rewrite byte_val_of_small by done. cbn [N.eqb negb orb]. change NODE_HEADER with 40. unfold ENTRY_BYTES. rewrite Hn, N.eqb_refl. cbn [negb orb].
    fold (node_kind level). by rewrite bool_decide_eq_true_2. }
  unfold GroupPage.group_node_view. rewrite Einfo. cbn [rbind]. change NODE_HEADER with 40.
  assert (Es : slice (Page.buffer p) 40 (Page.length_ p) = Some (l ≫= catalog_bytes)).
  { rewrite Eb. rewrite (app_assoc h), (app_assoc (h ++ _)), (app_assoc ((h ++ _) ++ _)), (app_assoc (((h ++ _) ++ _) ++ _)). apply slice_app.
    all: rewrite !len_app, !len_le_bytes, Hh; change (len [byte_of level]) with 1; change (len [byte_of 0]) with 1; rewrite ?len_catalog_all by done; lia. }
  by rewrite Es.
Qed.
Lemma group_view_inv node : GroupPage.group_node_view p = Ok node ->
  exists id level l pre, id_ok id /\ node_shape level l /\ used p = pre ++ node_bytes id level l /\ len pre = PAGE_HEADER /\ node = GroupNode.mk (l ≫= catalog_bytes) level (len l).
Proof.
  intros H. unfold GroupPage.group_node_view in H. apply rbind_ok in H as ([level n] & Hi & H). apply rbind_ok in H as (bs & Hbs & H). apply Ok_inj in H as <-. apply or_panic_ok in Hbs.
  unfold GroupPage.group_node_info in Hi. apply rbind_ok in Hi as ([id k] & (Hid & pre & tl & Eu & Hpre)%group_identity_exact & Hi); [|done|done]. rewrite bytes_ok in Hi by done. cbn [rbind] in Hi. fold (used p) in Hi.
  apply rbind_ok in Hi as (lv & Hlv & Hi). apply rbind_ok in Hi as (c & Hc & Hi). destruct (_ || _ || _) eqn:Ec in Hi; [done|]. apply rbind_ok in Hi as (z1 & Hz1 & Hi). apply or_panic_ok in Hz1.
  destruct (N.eqb_spec (byte_val z1) 0) as [Ez1|]; cbn [negb] in Hi; [|done]. apply rbind_ok in Hi as (z2 & Hz2 & Hi). destruct (_ || _ || _) eqn:Ed in Hi; [done|]. apply Ok_inj in Hi. injection Hi as <- <-.
  apply orb_false_iff in Ec as [Ec Ec3%N.ltb_ge]. apply orb_false_iff in Ec as [Ec1%N.ltb_ge Ec2%N.eqb_neq]. apply orb_false_iff in Ed as [Ed Ed3%negb_false_iff%bool_decide_eq_true_1]. apply orb_false_iff in Ed as [Ed1%negb_false_iff%N.eqb_eq Ed2%negb_false_iff%N.eqb_eq].
  rewrite CATALOG_101 in Ec3. change NODE_HEADER with 40 in *. unfold ENTRY_BYTES in Ed2. change (GROUP_HEADER + 2) with 34 in *. change (GROUP_HEADER + 1) with 33 in *. change (GROUP_HEADER + 4) with 36 in *.
  rewrite page_u16 in Hc by (done || lia). rewrite page_u32 in Hz2 by (done || lia). apply Ok_inj in Hc, Hz2. subst z2.
  destruct (slice_bounds _ _ _ _ Hbs) as (_ & Hcap & Hlen). destruct (catalog_any (N.to_nat c) bs) as (l & Hl & Ht & ->); [lia|]. assert (Hll : len l = c) by (unfold len; lia).
  exists id, (byte_val lv), l, pre. split; [done|]. rewrite Hll. split; [split; [done|]; rewrite CATALOG_101; split; [lia|done]|]. split; [|by split].
  assert (Hlev : lv = byte_of (byte_val lv)) by by rewrite byte_of_val.
  pose proof (slice_field (Page.buffer p) 34 2 ltac:(destruct Hp as [-> _]; unfold CAPACITY; lia)) as S2. pose proof (slice_field (Page.buffer p) 36 4 ltac:(destruct Hp as [-> _]; unfold CAPACITY; lia)) as S3.
  change (N.of_nat 2) with 2 in S2. change (N.of_nat 4) with 4 in S3. rewrite Hc in S2. rewrite Ed1 in S3. change (34 + 2) with 36 in S2. change (36 + 4) with 40 in S3.
  assert (S0 : slice (Page.buffer p) 32 34 = Some [lv; z1]).
  { assert (Hi0 : index (Page.buffer p) 32 = Some lv) by (rewrite used_buffer; unfold index in *; apply lookup_app_l_Some; destruct (used p !! N.to_nat GROUP_HEADER) as [x|] eqn:Ex; [|done]; cbn in Hlv; apply Ok_inj in Hlv as <-; exact Ex). unfold index in Hi0, Hz1. apply slice_ok. split_and!; [lia|destruct Hp as [-> _]; unfold CAPACITY; lia|].
    change (N.to_nat (34 - 32)) with 2%nat. change (N.to_nat 32) with 32%nat in *. change (N.to_nat 33) with 33%nat in *. rewrite (drop_S _ _ _ Hi0). cbn [take]. rewrite (drop_S _ _ _ Hz1). done. }
  pose proof (slice_join _ _ _ _ _ _ (slice_join _ _ _ _ _ _ (slice_join _ _ _ _ _ _ S0 S2) S3) Hbs) as S.
  assert (Etl : tl = [lv; z1] ++ le_bytes 2 c ++ le_bytes 4 0 ++ (l ≫= catalog_bytes)).
  { apply slice_ok in S as (_ & _ & S). assert (Hpl : length (pre ++ group_head id k) = 32%nat) by (rewrite length_app; unfold len in Hpre; change (length (group_head id k)) with 16%nat; unfold PAGE_HEADER in Hpre; lia).
    assert (Et : tl = drop 32 (used p)) by (rewrite Eu, app_assoc, <- Hpl; by rewrite drop_app_length). rewrite Et. unfold used. rewrite skipn_firstn_comm. change (N.to_nat 32) with 32%nat in S.
    replace (N.to_nat (Page.length_ p) - 32)%nat with (N.to_nat (Page.length_ p - 32)) by lia. rewrite <- S. by rewrite <- !app_assoc. }
  rewrite Eu, Etl. unfold node_bytes, node_head. rewrite Hll. assert (Ez : z1 = byte_of 0) by (rewrite <- Ez1; by rewrite byte_of_val). unfold node_kind. rewrite <- Ed3, <- Hlev, Ez. by rewrite <- !app_assoc.
Qed.
Lemma validate_node_image id level l pre : id_ok id -> node_shape level l -> used p = pre ++ node_bytes id level l -> len pre = PAGE_HEADER ->
  GroupPage.validate_group_node p = if entries_ok (Page.block p) level None l then Ok tt else Err InvalidState.
Proof.
  intros Hid Hsh Eu Hpre. unfold GroupPage.validate_group_node. rewrite (group_view_image id level l pre) by done. cbn [rbind GroupNode.count].
  destruct (node_loop p level l (proj2 (proj2 Hsh)) l [] None eq_refl) as [H1 H2]. rewrite len_nil in H1, H2. destruct (entries_ok _ _ _ l).
  - destruct H1 as [k ->]; done.
  - by rewrite H2.
Qed.
End NodePage.
(** The keys of an acceptable node are in strict order. *)
Definition key_before (a b : N * N) : Prop := key_lt a b = true.
Lemma key_before_trans a b c : key_before a b -> key_before b c -> key_before a c.
Proof.
  unfold key_before, key_lt. rewrite !orb_true_iff, !andb_true_iff, !N.ltb_lt, !N.eqb_eq. lia.
Qed.
Lemma entries_sorted blk level l : forall previous, entries_ok blk level previous l = true ->
  StronglySorted key_before (entry_key <$> l) /\ (forall q, previous = Some q -> Forall (key_before q) (entry_key <$> l)).
Proof.
  induction l as [|e l IH]; intros previous H; cbn [entries_ok fmap list_fmap] in *; [split; [constructor|intros; constructor]|].
  apply andb_true_iff in H as [He H]. destruct (IH _ H) as [Hs Hq]. specialize (Hq _ eq_refl). split; [by constructor|]. intros q ->.
  unfold entry_ok in He. apply andb_true_iff in He as [He _]. apply andb_true_iff in He as [_ He]. cbn [is_some_and] in He. rewrite negb_involutive in He.
  constructor; [exact He|]. eapply Forall_impl; [|exact Hq]. intros x. by apply key_before_trans.
Qed.
Lemma put_entries z : small z -> forall l out, Forall catalog_typed l -> len out + 80 * len l <= len z ->
  foldM (fun w entry =>
      let* w := lift_codec (Writer.u64 w (fst (entry_key entry))) in
      let* w := lift_codec (Writer.u64 w (snd (entry_key entry))) in
      lift_codec (Writer.put w (entry_value entry))) (writing z out) l = Ok (writing z (out ++ (l ≫= catalog_bytes))).
Proof.
  intros Hz l. induction l as [|e l IH]; intros out Ht Hl; cbn [foldM]; [by rewrite app_nil_r|]. apply list.Forall_cons in Ht as [[_ He] Ht]. rewrite len_cons in Hl.
  unfold Writer.u64. repeat (rewrite put_writing; [cbn [lift_codec map_err rbind]|done|rewrite ?len_app, ?len_le_bytes, ?He; lia]).
  rewrite IH; [|done|rewrite !len_app, !len_le_bytes, He; lia]. change ((e :: l) ≫= catalog_bytes) with (catalog_bytes e ++ (l ≫= catalog_bytes)). unfold catalog_bytes at 2. by rewrite <- !app_assoc.
Qed.
Lemma group_entry_at p l level (Hl : Forall catalog_typed l) i : GroupPage.group_node_view p = Ok (GroupNode.mk (l ≫= catalog_bytes) level (len l)) ->
  GroupPage.group_entry p i = ok_or (index l i) InvalidParameters.
Proof.
  intros Hv. unfold GroupPage.group_entry. rewrite Hv. cbn [rbind]. destruct (index l i) as [e|] eqn:Ei.
  - apply index_split in Ei as (a & c & -> & ->). cbn [ok_or]. by apply (node_entry _ a c e level eq_refl).
  - apply index_none in Ei. unfold GroupNode.entry, GroupNode.key. cbn [GroupNode.count]. by rewrite (proj2 (N.leb_le _ _)) by lia.
Qed.
(** C17: a node that is written reads back entry by entry, and one is only made of entries
    in the strict order of their keys whose children are other blocks; the level and
    the number of entries are bounded first, and the other inputs are refused. *)
Theorem group_node_exact blk id level l : blk < 2 ^ 32 -> block_valid blk = true -> id_ok id -> Forall catalog_typed l ->
  match GroupPage.group_node blk id level l with
  | Ok p => node_shape level l /\ entries_ok blk level None l = true /\ StronglySorted key_before (entry_key <$> l) /\
      Page.block p = blk /\ page_sound p /\ GroupPage.group_node_info p = Ok (level, len l) /\
      (forall i, GroupPage.group_entry p i = ok_or (index l i) InvalidParameters) /\ GroupPage.validate_grouped p = Ok tt
  | Err e => (e = Limit "group catalog node" /\ ~ node_shape level l) \/ (e = InvalidState /\ entries_ok blk level None l = false)
  | Panic => False
  end.
Proof.
  intros Hb Hv Hid Ht. unfold GroupPage.group_node. destruct (_ || _ || _) eqn:Ec.
  { left. split; [done|]. intros (H1 & [H2 H3] & _). apply orb_true_iff in Ec as [Ec|Ec%N.ltb_lt]; [|lia]. apply orb_true_iff in Ec as [Ec%N.ltb_lt|Ec]; [lia|]. destruct l; [by vm_compute in H2|done]. }
  assert (Hsh : node_shape level l).
  { apply orb_false_iff in Ec as [Ec E3%N.ltb_ge]. apply orb_false_iff in Ec as [E1%N.ltb_ge E2]. split; [done|]. split; [|done]. split; [|done]. destruct l; [done|rewrite len_cons; lia]. }
  clear Ec. pose proof Hsh as (Hlv & [Hl1 Hl2] & _). rewrite CATALOG_101 in Hl2. unfold MAX_CATALOG_LEVEL in Hlv.
  change (if level =? 0 then Leaf else Branch) with (node_kind level). rewrite new_grouped_ok by done. cbn [rbind].
  pose proof (len_zeros_of 8136) as Hz. assert (Hs : small (zeros_of 8136)) by (unfold small, isize_max; rewrite Hz; lia).
  set (body := node_head level (len l) ++ (l ≫= catalog_bytes)). assert (Hbody : len body = 8 + 80 * len l) by (unfold body; rewrite len_app, len_catalog_all by done; done).
  rewrite (write_from_ok _ (grouped_header blk ++ group_head id (node_kind level)) (zeros_of 8136) _ _ body); [|done|done|done| |lia].
  2:{ rewrite writing_new, trunc_small by lia. unfold Writer.u8, Writer.u16, Writer.u32. repeat (rewrite put_writing; [cbn [lift_codec map_err rbind]|done|rewrite ?len_app, ?len_le_bytes, ?len_cons, ?len_nil, Hz; lia]).
      rewrite put_entries; [|done|done|rewrite !len_app, !len_le_bytes, !len_cons, !len_nil, Hz; lia]. unfold body, node_head. by rewrite <- !app_assoc. }
  cbn [rbind]. match goal with |- context [GroupPage.validate_group_node ?q] => assert (Eq : q = grouped_image blk id (node_kind level) body) by (unfold grouped_image; rewrite Hbody; unfold Page.set_length, Page.set_buffer; cbn [Page.block Page.kind Page.initialize Page.buffer]; f_equal; change NODE_HEADER with (GROUP_HEADER + 8); unfold ENTRY_BYTES; lia); rewrite Eq; clear Eq end.
  destruct (grouped_image_ok blk id (node_kind level) body Hb Hv) as (Hsound & Hk & Hblk & Hu); [lia|]. set (p := grouped_image blk id (node_kind level) body) in *. pose proof (proj1 Hsound) as Hp.
  assert (Hu' : used p = grouped_header blk ++ node_bytes id level l) by exact Hu.
  pose proof (validate_node_image p Hp Hk id level l _ Hid Hsh Hu' eq_refl) as Hval. pose proof (group_view_image p Hp Hk id level l _ Hid Hsh Hu' eq_refl) as Hview. rewrite Hblk in Hval.
  rewrite Hval. destruct (entries_ok blk level None l) eqn:Ee; cbn [rbind]; [|by right].
  split; [done|]. split; [done|]. split; [by eapply entries_sorted|]. split; [done|]. split; [done|]. split; [|split].
  - unfold GroupPage.group_node_view in Hview. apply rbind_ok in Hview as ([a b] & Hi & Hview). rewrite Hi. apply rbind_ok in Hview as (bs & _ & Hview). apply Ok_inj in Hview. by injection Hview as _ -> ->.
  - intros i. by apply (group_entry_at p l level).
  - unfold GroupPage.validate_grouped. rewrite (proj2 (group_identity_exact p Hp Hk id (node_kind level))) by (split; [done|]; exists (grouped_header blk), body; by split). cbn [rbind].
    unfold node_kind. destruct (level =? 0); exact Hval.
Qed.

(** * Validation *)
Lemma validated_grouped p : page_fits p -> Page.kind p = PageKind.Grouped ->
  (GroupPage.validate_grouped p = Ok tt <->
   exists pre, len pre = PAGE_HEADER /\
     ((exists d, data_typed d /\ record_ok d = true /\ used p = pre ++ data_bytes d) \/
      (exists id level l, id_ok id /\ node_shape level l /\ entries_ok (Page.block p) level None l = true /\ used p = pre ++ node_bytes id level l))).
Proof.
  intros Hp Hk. unfold GroupPage.validate_grouped. split.
  - intros H. apply rbind_ok in H as ([id k] & Hi & H). destruct (GroupPage.is_record k) eqn:Ek.
    + assert (Hd : exists d, GroupPage.group_data p = Ok d) by (destruct k; try done; apply rbind_ok in H as (d & Hd & _); by exists d).
      destruct Hd as (d & (Ht & Hok & pre & Hu & Hpre)%group_data_inv); [|done|done]. exists pre. split; [done|]. left. by exists d.
    + assert (Hn : GroupPage.validate_group_node p = Ok tt) by by destruct k. assert (Hv : exists node, GroupPage.group_node_view p = Ok node) by (unfold GroupPage.validate_group_node in Hn; apply rbind_ok in Hn as (node & Hv & _); by exists node).
      destruct Hv as (node & (id' & level & l & pre & Hid & Hsh & Hu & Hpre & _)%group_view_inv); [|done|done].
      rewrite (validate_node_image p Hp Hk id' level l pre) in Hn by done. exists pre. split; [done|]. right. exists id', level, l. by destruct (entries_ok _ _ _ l).
  - intros (pre & Hpre & [(d & Ht & Hok & Hu)|(id & level & l & Hid & Hsh & Hok & Hu)]).
    + rewrite (proj2 (group_identity_exact p Hp Hk (gd_id d) (gd_kind d))) by (split; [apply Ht|]; exists pre; eexists; split; [exact Hu|done]). cbn [rbind].
      rewrite (group_data_image p Hp Hk d pre) by done. rewrite Hok. cbn [rbind]. unfold record_ok in Hok. apply andb_true_iff in Hok as [Hr _]. by destruct (gd_kind d).
    + rewrite (proj2 (group_identity_exact p Hp Hk id (node_kind level))) by (split; [done|]; exists pre; eexists; split; [exact Hu|done]). cbn [rbind].
      rewrite (validate_node_image p Hp Hk id level l pre), Hok by done. unfold node_kind. by destruct (level =? 0).
Qed.
(** C18: a grouped page is accepted exactly when its used bytes are the encoding of a record
    or of a catalog node that the writers could have made. *)
Theorem grouped_validate_exact p : page_fits p -> Page.kind p = PageKind.Grouped ->
  (GroupPage.validate_grouped p = Ok tt <->
   exists pre, len pre = PAGE_HEADER /\
     ((exists d, data_typed d /\ record_ok d = true /\ used p = pre ++ data_bytes d) \/
      (exists id level l, id_ok id /\ node_shape level l /\ entries_ok (Page.block p) level None l = true /\ used p = pre ++ node_bytes id level l))).
Proof. apply validated_grouped. Qed.
Lemma copy_from_length {A} (bs bs' src : list A) a b : copy_from bs a b src = Some bs' -> exists x, bs' = splice bs a x /\ a + len x = b /\ b <= len bs.
Proof.
  unfold copy_from. destruct (slice bs a b) as [s|] eqn:E; [|done]. destruct (N.eqb_spec (len s) (len src)) as [H|]; [|done]. intros [= <-].
  apply slice_bounds in E as (? & ? & ?). exists src. split; [done|]. lia.
Qed.
Lemma set_grouped_sound p g p' : page_sound p -> GroupMeta.set_grouped_state p g = Ok p' -> page_sound p' /\ Page.block p' = Page.block p.
Proof.
  intros Hp H. pose proof (proj1 Hp) as [Hb _]. unfold GroupMeta.set_grouped_state in H. apply rbind_ok in H as ([] & _ & H). apply rbind_ok in H as ([] & _ & H). apply rbind_ok in H as (next & _ & H).
  destruct (GroupState.beyond g next); [done|]. destruct (negb (_ || _)); apply rbind_ok in H as (w & _ & H); [|destruct (negb _); [done|]]; apply rbind_ok in H as (filled & Hf & H); apply Ok_inj in H as <-;
    apply or_panic_ok, copy_from_length in Hf as (x & -> & Hx & Hl); (split; [|done]);
    apply length_sound; [apply splice_sound; [done|change META_LEGACY_BYTES with 4160; lia|rewrite <- Hb; lia] | by vm_compute | apply splice_sound; [done|change META_LEGACY_BYTES with 4160; lia|rewrite <- Hb; lia] | by vm_compute].
Qed.
Lemma group_page_step_sound p op i p' : page_sound p -> group_page_step p op = Ok (i, p') -> page_sound p'.
Proof.
  intros Hp H. destruct op as [op|g]; cbn [group_page_step] in H; [by eapply page_step_sound|]. apply rbind_ok in H as (q & Hq & H). apply Ok_inj in H. injection H as _ <-. by eapply set_grouped_sound.
Qed.
(** A metapage with its fields and tail in order is accepted. *)
Lemma meta_valid layout p s : group_meta_rep layout p s -> page_sound p -> Page.block p = 0 -> Validate.validate p layout = Ok tt.
Proof.
  intros (Hm & Ht & Hst) Hs Hblk. pose proof Hm as (Hp & Hk & Hl & (F1 & F2 & F3 & F4 & F5 & F6 & _) & Hw). pose proof Hs as (_ & H16 & _ & tag & flags & nx & tl & Eb & _ & _ & Hnx & _ & _ & Hno).
  pose proof (meta_getters _ _ _ Hm) as (_ & G2 & G3 & G4 & G5). change (META_HEADER + BUCKETS * 8) with 4160 in Hl.
  unfold Validate.validate. rewrite Hk. rewrite bool_decide_eq_false_2 by done. destruct (check_next_ok p Hp H16) as [[_ ->]|[Hc _]].
  2:{ exfalso. apply Hc. rewrite Eb, head_next by done. exact Hno. }
  cbn [rbind]. rewrite Hblk, bool_decide_eq_true_2 by done. cbn [N.eqb Bool.eqb negb]. unfold Validate.validate_meta.
  assert (Hlen : (Page.length_ p =? META_LEGACY_BYTES) || (Page.length_ p =? META_GROUPED_BYTES) || (Page.length_ p =? META_GROUPED_V3_BYTES) = true) by (destruct Ht as [-> _| -> _ _| -> _ _]; done).
  rewrite Hlen. cbn [negb]. rewrite !page_u32, !page_u16, page_u64 by (done || lia). rewrite F1, F2, F3, F4, F5, F6. cbn [rbind]. rewrite !N.eqb_refl. cbn [negb].
  assert (Hfl : N.land (if meta_packed (fst s) then 4 else 0) (0xffffffff - 4) = 0) by by destruct (meta_packed (fst s)). rewrite Hfl. cbn [N.eqb negb].
  destruct Hw as (Hn & _ & _ & _ & _ & Hbl & _). rewrite (proj2 (N.eqb_neq _ _)) by lia. rewrite G2, G3, G4. cbn [rbind].
  rewrite (proj2 (grouped_state_iff p Hp Hk (snd s))) by (split; [done|]; by rewrite (meta_next_field _ _ _ Hm)). cbn [rbind].
  apply (foldM_each_ok (fun b => let* _ := Page.bucket p b in Ok tt)). apply list.Forall_forall. intros b Hb%elem_of_range. rewrite G5. destruct (index (meta_buckets (fst s)) b) as [pr|] eqn:E; [done|]. apply index_none in E. lia.
Qed.
(** C16: the metapage a relation starts with is accepted by the loader's check, and stays
    so after any run of the operations that change its fields or its group state. *)
Theorem published_metapage_valid layout ops : layout_wf layout -> Forall group_op_wf ops ->
  exists p0, Page.metadata layout = Ok p0 /\ Validate.validate p0 layout = Ok tt /\ Validate.validate (snd (run group_page_step p0 ops)) layout = Ok tt.
Proof.
  intros Hlay Hops. destruct (metadata_ok layout Hlay) as (p0 & E & Hrep & Hb0 & Hl0). exists p0. split; [done|].
  assert (H0 : group_meta_rep layout p0 (meta_initial, GroupState.default)) by (split; [done|]; split; [by apply tail_legacy|apply group_default_ok]).
  split; [eapply meta_valid; [exact H0|eapply metadata_sound; exact E|exact Hb0]|].
  set (rep := fun p s => group_meta_rep layout p s /\ page_sound p /\ Page.block p = 0).
  destruct (run_refine group_page_step group_meta_step rep group_op_wf) with (ops := ops) (p := p0) (m := (meta_initial, GroupState.default)) as (_ & (Hm & Hs & Hb) & _); [|split; [exact H0|split; [eapply metadata_sound; exact E|exact Hb0]]|exact Hops|eapply meta_valid; [exact Hm|exact Hs|exact Hb]].
  intros p s op (Hm & Hs & Hb) Hop. pose proof (group_meta_sim layout p s op Hm Hop) as Hsim. destruct (group_meta_step s op) as [[r s']|e|]; [|done|done].
  destruct Hsim as (p' & Ep & Hm'). exists p'. split; [exact Ep|]. split; [exact Hm'|]. split; [eapply group_page_step_sound; [exact Hs|exact Ep]|].
  destruct op as [op|g]; cbn [group_page_step] in Ep.
  - destruct Hm as (Hm & _). pose proof (meta_step_ok layout p (fst s) op Hm Hop) as Hso. destruct (meta_step (fst s) op) as [[i m']|e|]; [|rewrite Hso in Ep; discriminate Ep|destruct Hso].
    destruct Hso as (q & Eq & _ & Hq & _). rewrite Ep in Eq. apply Ok_inj in Eq. injection Eq as _ ->. rewrite Hq. exact Hb.
  - apply rbind_ok in Ep as (q & Hq & Ep). apply Ok_inj in Ep. injection Ep as _ <-. by destruct (set_grouped_sound p g q Hs Hq) as [_ ->].
Qed.

(** ** Instances *)
Definition sample_data : list byte := replicate 100 (byte_of 7).
Definition sample_entries : list CatalogEntry :=
  [mkCatalogEntry (0, 256) (le_bytes 4 11 ++ replicate 60 (byte_of 0)); mkCatalogEntry (N.shiftl 3 16 + 40, 0) (le_bytes 4 12 ++ replicate 60 (byte_of 0))].
Lemma sample_entries_typed : Forall catalog_typed sample_entries.
Proof. repeat constructor. Qed.
Lemma sample_entries_shape : node_shape 1 sample_entries.
Proof. split; [done|]. split; [split; by vm_compute|exact sample_entries_typed]. Qed.
Lemma group_record_exact_witness :
  (exists p, GroupPage.group_record 9 5 Posting (N.shiftl 3 16 + 40, 512) 100 0 sample_data = Ok p /\ GroupPage.group_data p = Ok (mkGroupData 5 Posting (N.shiftl 3 16 + 40, 512) 100 0 sample_data)) /\
  (exists e, GroupPage.group_record 9 5 Posting (0, 512) 100 0 sample_data = Err e).
Proof.
  split.
  - pose proof (group_record_exact 9 5 Posting (N.shiftl 3 16 + 40, 512) 100 0 sample_data ltac:(done) ltac:(done) ltac:(by repeat split)) as H.
    destruct (GroupPage.group_record 9 5 Posting _ 100 0 sample_data) as [p|e|] eqn:E; [exists p; split; [done|apply H]|exfalso|destruct H]. destruct H as [[_ H]|[_ H]]; by vm_compute in H.
  - pose proof (group_record_exact 9 5 Posting (0, 512) 100 0 sample_data ltac:(done) ltac:(done) ltac:(by repeat split)) as H.
    destruct (GroupPage.group_record 9 5 Posting _ 100 0 sample_data) as [p|e|] eqn:E; [exfalso|by exists e|destruct H]. destruct H as [H _]. by vm_compute in H.
Defined.
Lemma group_node_exact_witness :
  (exists p, GroupPage.group_node 9 5 1 sample_entries = Ok p /\ GroupPage.group_entry p 1 = ok_or (index sample_entries 1) InvalidParameters) /\
  (exists e, GroupPage.group_node 9 5 1 (rev sample_entries) = Err e).
Proof.
  split.
  - pose proof (group_node_exact 9 5 1 sample_entries ltac:(done) ltac:(done) ltac:(done) sample_entries_typed) as H.
    destruct (GroupPage.group_node 9 5 1 sample_entries) as [p|e|] eqn:E; [exists p; split; [done|apply H]|exfalso|destruct H]. destruct H as [[_ H]|[_ H]]; [apply H; exact sample_entries_shape|by vm_compute in H].
  - pose proof (group_node_exact 9 5 1 (rev sample_entries) ltac:(done) ltac:(done) ltac:(done) ltac:(by repeat constructor)) as H.
    destruct (GroupPage.group_node 9 5 1 (rev sample_entries)) as [p|e|] eqn:E; [exfalso|by exists e|destruct H]. destruct H as (_ & H & _). by vm_compute in H.
Defined.
Lemma grouped_validate_exact_witness :
  let p := grouped_image 9 5 Branch (node_head 1 2 ++ (sample_entries ≫= catalog_bytes)) in
  GroupPage.validate_grouped p = Ok tt /\ GroupPage.validate_grouped (Page.set_length p (Page.length_ p - 1)) = Err InvalidState.
Proof.
  split; [|vm_compute; reflexivity]. destruct (grouped_image_ok 9 5 Branch (node_head 1 2 ++ (sample_entries ≫= catalog_bytes)) ltac:(done) ltac:(done) ltac:(by vm_compute)) as ((Hp & _) & Hk & _ & Hu).
  apply (grouped_validate_exact _ Hp Hk). exists (grouped_header 9). split; [reflexivity|]. right. exists 5, 1, sample_entries.
  split; [done|]. split; [exact sample_entries_shape|]. split; [vm_compute; reflexivity|exact Hu].
Defined.
Lemma published_metapage_valid_witness :
  exists p0, Page.metadata sample_layout = Ok p0 /\ Validate.validate (snd (run group_page_step p0 sample_group_ops)) sample_layout = Ok tt /\
    snd (snd (run group_meta_step (meta_initial, GroupState.default) sample_group_ops)) = sample_group.
Proof.
  destruct (published_metapage_valid sample_layout sample_group_ops) as (p0 & H0 & _ & H); [exact sample_layout_wf| |].
  - pose proof sample_group_typed as Hg. repeat (constructor; [first [exact Hg | exact I | split; reflexivity]|]). constructor; [|constructor]. split; [exact I|]. split; [exact I|]. apply Hg.
  - exists p0. split; [exact H0|]. split; [exact H|vm_compute; reflexivity].
Defined.
