(* ===== verification/PageCheck.v ===== *)
(** The check of a loaded page: [Page::validate] in [src/crates/pin-core/src/mutable/page.rs].

    A page that comes from the host has a sound header and nothing else is known of it.
    The theorems: the check never panics, and it accepts exactly the pages that
    represent a state of their kind; so does every reader that runs behind it. *)
From S2P Require Export GroupPages.

(** * Readers on any page *)
Lemma lift_codec_safe {A} (m : Codec.Result A) : safe m -> safe (lift_codec m).
Proof. unfold lift_codec. apply safe_map_err. Qed.
Lemma or_corrupt_safe {A} off (m : res IdentityError A) : safe m -> safe (or_corrupt off m).
Proof. unfold or_corrupt. apply safe_map_err. Qed.
Lemma require_safe p k : safe (Page.require p k).
Proof. unfold Page.require. by destruct (negb _). Qed.
#[export] Hint Resolve lift_codec_safe or_corrupt_safe require_safe read_ref_safe : pin.
Section Any.
Context (p : Page.t) (Hp : page_fits p).
Lemma page_u16_safe off : safe (Page.u16 p off).
Proof. unfold Page.u16. apply safe_bind; [by apply reader_at_safe|]. intros r _. repeat safe_step. Qed.
Lemma page_u64_safe off : safe (Page.u64 p off).
Proof. unfold Page.u64. apply safe_bind; [by apply reader_at_safe|]. intros r _. repeat safe_step. Qed.
Lemma bytes_safe {E} : safe (Page.bytes (E := E) p).
Proof. by rewrite bytes_ok. Qed.
Lemma slice_safe {E A} (l : list A) a b : a <= b -> b <= len l -> safe (or_panic (E := E) (slice l a b)).
Proof. intros Ha Hb. destruct (slice_exists l a b Ha Hb) as (v & -> & _). done. Qed.
Lemma slice_from_safe {E A} (l : list A) a : a <= len l -> safe (or_panic (E := E) (slice_from l a)).
Proof. intros Ha. unfold slice_from. by rewrite (proj2 (N.leb_le _ _)). Qed.
Lemma used_long : len (take (N.to_nat (Page.length_ p)) (Page.buffer p)) = Page.length_ p.
Proof. by apply used_len. Qed.
Lemma page_next_safe : safe (Page.next p).
Proof. unfold Page.next. by apply page_u32_safe. Qed.
End Any.
Ltac page_safe Hp :=
  repeat first [ progress safe_step | apply (page_u16_safe _ Hp) | apply (page_u32_safe _ _ Hp) | apply (page_u64_safe _ Hp) | apply (bytes_safe _ Hp) | apply (page_next_safe _ Hp) ].

Section Readers.
Context (p : Page.t) (Hp : page_fits p).
(** ** Owner pages *)
Lemma owner_count_safe : safe (OwnerPage.owner_count p).
Proof. unfold OwnerPage.owner_count. page_safe Hp. Qed.
Lemma owner_count_fits n : OwnerPage.owner_count p = Ok n -> OWNER_HEADER + n * OWNER_BYTES <= CAPACITY.
Proof.
  unfold OwnerPage.owner_count. intros H. inv_ok. destruct Hp as [_ Hc]. match goal with Hx : _ || _ = false |- _ => apply orb_false_iff in Hx as [_ Hx%N.ltb_ge] end. lia.
Qed.
Lemma owner_safe layout i : safe (OwnerPage.owner p i layout).
Proof.
  unfold OwnerPage.owner. apply safe_bind; [apply owner_count_safe|]. intros n Hn%owner_count_fits. apply safe_if; [done|]. intros Hi%N.leb_gt. pose proof (proj1 Hp) as Hb.
  apply safe_bind; [apply slice_safe; [lia|rewrite Hb; unfold OWNER_BYTES in *; nia]|]. intros rec _.
  repeat first [ progress page_safe Hp | apply owner_count_safe | progress unfold identifier_new | match goal with |- safe (match ?x with _ => _ end) => destruct x end ].
Qed.
Lemma validate_owners_safe layout : safe (OwnerPage.validate_owners p layout).
Proof.
  unfold OwnerPage.validate_owners. apply safe_bind; [apply owner_count_safe|]. intros n _. apply safe_bind; [|intros; page_safe Hp].
  apply (foldM_safe _ (fun _ => True)); [done|]. intros s i _ _. split; [|done]. unfold OwnerPage.validate_slot. apply safe_bind; [apply owner_safe|]. intros; page_safe Hp.
Qed.
(** ** Posting pages and fragments *)
Lemma posting_term_safe : safe (PostingPage.posting_term p).
Proof. unfold PostingPage.posting_term. page_safe Hp. Qed.
Lemma u16_inside off v : Page.u16 p off = Ok v -> off + 2 <= Page.length_ p.
Proof.
  intros H. destruct (N.le_gt_cases (off + 2) (Page.length_ p)) as [|Hgt]; [done|]. exfalso. unfold Page.u16, Page.reader_at in H. rewrite bytes_ok in H by done. cbn [rbind] in H.
  pose proof (used_len p Hp) as Hu. apply rbind_ok in H as (r & Hr & H). apply rbind_ok in Hr as (s & Hs & Hr). apply Ok_inj in Hr as <-. apply ok_or_ok in Hs.
  unfold slice_from in Hs. destruct (N.leb_spec off (len (take (N.to_nat (Page.length_ p)) (Page.buffer p)))); [|done]. injection Hs as <-.
  apply rbind_ok in H as ([x r] & H & _). apply lift_codec_ok in H. rewrite reading_new in H. apply u16_format in H as (_ & tl & E & _).
  - apply (f_equal len) in E. rewrite len_drop, len_app, len_le_bytes in E. lia.
  - unfold small, isize_max. cbn [app]. rewrite len_drop. destruct Hp as [_ Hc]. unfold CAPACITY in Hc. lia.
Qed.
Lemma posting_refs_safe : safe (PostingPage.posting_refs p).
Proof.
  unfold PostingPage.posting_refs. apply safe_bind; [apply posting_term_safe|]. intros term Ht.
  assert (Hroom : 24 <= Page.length_ p -> safe (sub_w (E := Error) (Page.length_ p) POSTING_HEADER)).
  { intros H. unfold sub_w, checked_sub, POSTING_HEADER. by rewrite (proj2 (N.leb_le 24 _)). }
  apply safe_bind.
  - apply safe_if.
    + intros _. apply safe_bind; [by apply page_u16_safe|]. intros c Hc%u16_inside. apply safe_if; [done|]. intros _. apply safe_bind; [apply Hroom; lia|]. intros; page_safe Hp.
    + intros Hk. apply negb_false_iff in Hk. apply safe_bind; [|intros; page_safe Hp]. apply Hroom. unfold PostingPage.posting_term in Ht. rewrite Hk in Ht. destruct (negb _); [done|].
      apply rbind_ok in Ht as (u & Hu & _). apply rbind_ok in Hu as (v & Hv%u16_inside & _). lia.
  - intros c _. unfold PostingPage.posting_start. page_safe Hp.
Qed.
Lemma each_safe {T} (f : T -> OwnerRef -> Result T) q : (forall t o, safe (f t o)) -> forall t, safe (Postings.each f t q).
Proof.
  intros Hf. unfold Postings.each. generalize (N.to_nat (Postings.remaining q) + 2)%nat. intros n. revert q. induction n as [|n IH]; intros q t; cbn [Postings.each_fuel]; [done|].
  destruct (Postings.next q) as [[r|] q'] eqn:E; [|done]. apply next_measure in E as [Hr _]. apply safe_bind; [done|]. intros o _. apply safe_bind; [apply Hf|]. intros t' _. apply IH.
Qed.
Lemma direct_endpoints_safe : safe (PostingPage.direct_endpoints p).
Proof. unfold PostingPage.direct_endpoints. page_safe Hp. Qed.
Lemma direct_root_safe layout i : safe (PostingPage.direct_root p i layout).
Proof. unfold PostingPage.direct_root. page_safe Hp. Qed.
Lemma validate_postings_safe layout : safe (PostingPage.validate_postings p layout).
Proof.
  unfold PostingPage.validate_postings. apply safe_bind; [apply posting_term_safe|]. intros t _. apply safe_if; [done|]. intros _. apply safe_bind; [apply posting_refs_safe|]. intros q _.
  apply safe_bind; [apply each_safe; intros [a b] o; unfold PostingPage.check_reference; by destruct (match b with Some _ => _ | None => _ end)|]. intros [first previous] _.
  apply safe_if; [done|]. intros _. apply safe_bind; [apply direct_endpoints_safe|]. intros [a b] _. apply safe_if; [done|]. intros _. apply safe_bind; [by apply page_u16_safe|]. intros c _.
  apply (foldM_safe _ (fun _ => True)); [done|]. intros s i _ _. split; [|done]. apply safe_bind; [apply direct_root_safe|done].
Qed.
Lemma fragment_data_safe : 16 <= Page.length_ p -> safe (PostingPage.fragment_data p).
Proof.
  intros Hl. unfold PostingPage.fragment_data. apply safe_bind; [apply require_safe|]. intros _ _. rewrite bytes_ok by done. cbn [rbind].
  apply safe_bind; [apply slice_from_safe; rewrite used_len by done; exact Hl|]. intros; page_safe Hp.
Qed.
Lemma validate_fragment_safe : 16 <= Page.length_ p -> safe (PostingPage.validate_fragment p).
Proof. intros Hl. unfold PostingPage.validate_fragment. apply safe_bind; [by apply fragment_data_safe|]. intros [[o off] pl] _. page_safe Hp. Qed.
(** ** Dictionary pages *)
Lemma entry_safe ts : safe (Terms.entry ts).
Proof.
  unfold Terms.entry, Terms.second. repeat first [ progress page_safe Hp | match goal with |- safe (match ?x with _ => _ end) => destruct x end ].
Qed.
Lemma terms_next_safe ts r ts' : Terms.next ts = (Some r, ts') -> safe r.
Proof.
  unfold Terms.next. destruct (_ || _); [done|]. pose proof (entry_safe ts) as H. destruct (Terms.entry ts) as [[t r']|e|]; intros [= <- _]; done.
Qed.
Lemma items_safe fuel : forall ts, Forall safe (Terms.items_fuel fuel ts).
Proof.
  induction fuel as [|fuel IH]; intros ts; cbn [Terms.items_fuel]; [constructor|]. destruct (Terms.next ts) as [[r|] ts'] eqn:E; [|constructor]. constructor; [by eapply terms_next_safe|apply IH].
Qed.
Lemma terms_safe : 16 <= Page.length_ p -> safe (TermPage.terms p).
Proof.
  intros Hl. unfold TermPage.terms. apply safe_bind; [apply require_safe|]. intros _ _. rewrite bytes_ok by done. cbn [rbind].
  apply safe_bind; [apply slice_from_safe; rewrite used_len by done; exact Hl|]. intros rest _. apply safe_bind; [|done]. unfold Page.packed_dictionary_format. apply safe_if; [done|]. intros _.
  apply safe_bind; [|done]. destruct (index (Page.buffer p) 7) eqn:E; [done|]. apply index_none in E. destruct Hp as [Hb _]. rewrite Hb in E. by unfold CAPACITY in E.
Qed.
Lemma each_term_safe {T} (f : T -> Term -> Result T) : 16 <= Page.length_ p -> (forall t x, safe (f t x)) -> forall t, safe (TermPage.each f t p).
Proof.
  intros Hl Hf t. unfold TermPage.each. apply safe_bind; [by apply terms_safe|]. intros ts _. pose proof (items_safe (S (N.to_nat (Reader.remaining (Terms.reader ts)))) ts) as Hi. fold (Terms.items ts) in Hi.
  apply (foldM_safe _ (fun _ => True)); [done|]. intros s r Hr _. split; [|done]. rewrite list.Forall_forall in Hi. apply safe_bind; [by apply Hi|]. intros; apply Hf.
Qed.
Lemma term_safe reference : 16 <= Page.length_ p -> safe (TermPage.term p reference).
Proof.
  intros Hl. unfold TermPage.term. apply safe_if; [done|]. intros _. apply safe_bind; [by apply terms_safe|]. intros ts _. pose proof (items_safe (S (N.to_nat (Reader.remaining (Terms.reader ts)))) ts) as Hi. fold (Terms.items ts) in Hi.
  induction Hi as [|r rs Hr _ IH]; cbn [TermPage.find]; [done|]. apply safe_bind; [done|]. intros t _. by apply safe_if.
Qed.
End Readers.

(** ** Grouped pages and the metapage *)
Section Checks.
Context (p : Page.t) (Hp : page_fits p).
Lemma group_identity_safe : safe (GroupPage.group_identity p).
Proof. unfold GroupPage.group_identity. repeat first [progress page_safe Hp | progress unfold identifier_new]. Qed.
Lemma group_identity_kind id k : GroupPage.group_identity p = Ok (id, k) -> Page.kind p = PageKind.Grouped /\ 32 <= Page.length_ p.
Proof.
  intros H. assert (Hk : Page.kind p = PageKind.Grouped).
  { unfold GroupPage.group_identity, Page.require, Page.is_kind in H. by destruct (bool_decide_reflect (Page.kind p = PageKind.Grouped)). }
  split; [done|]. apply group_identity_exact in H as (_ & pre & tl & Eu & Hpre); [|done|done]. pose proof (used_len p Hp) as Hu. fold (used p) in Hu. rewrite Eu, !len_app, Hpre in Hu.
  change (len (group_head id k)) with 16 in Hu. unfold PAGE_HEADER in Hu. lia.
Qed.
Lemma group_data_safe : safe (GroupPage.group_data p).
Proof.
  unfold GroupPage.group_data. apply safe_bind; [apply group_identity_safe|]. intros [id k] [_ Hl]%group_identity_kind. apply safe_if; [done|]. intros _. rewrite bytes_ok by done. cbn [rbind].
  apply safe_bind; [apply slice_from_safe; rewrite used_len by done; exact Hl|]. intros; page_safe Hp.
Qed.
Lemma group_node_view_safe : safe (GroupPage.group_node_view p).
Proof.
  unfold GroupPage.group_node_view. pose proof Hp as [Hb Hc]. apply safe_bind.
  - unfold GroupPage.group_node_info. apply safe_bind; [apply group_identity_safe|]. intros [id k] _. page_safe Hp.
    destruct (index (Page.buffer p) (GROUP_HEADER + 1)) eqn:E; [done|]. apply index_none in E. rewrite Hb in E. by unfold CAPACITY in E.
  - intros [level n] H. unfold GroupPage.group_node_info in H. inv_ok. page_safe Hp. apply slice_safe; [|by rewrite Hb].
    repeat match goal with Hx : _ || _ = false |- _ => apply orb_false_iff in Hx as [? ?] end. repeat match goal with Hx : negb _ = false |- _ => apply negb_false_iff in Hx end.
    match goal with Hx : (Page.length_ p =? _) = true |- _ => apply N.eqb_eq in Hx; rewrite Hx end. unfold NODE_HEADER. lia.
Qed.
Lemma validate_grouped_safe : safe (GroupPage.validate_grouped p).
Proof.
  unfold GroupPage.validate_grouped. apply safe_bind; [apply group_identity_safe|]. intros [id k] [Hk _]%group_identity_kind.
  assert (Hn : safe (GroupPage.validate_group_node p)).
  { pose proof group_node_view_safe as Hv. destruct (GroupPage.group_node_view p) as [node|e|] eqn:E; [|by unfold GroupPage.validate_group_node; rewrite E|done].
    apply group_view_inv in E as (id' & level & l & pre & Hid & Hsh & Hu & Hpre & _); [|done|done]. rewrite (validate_node_image p Hp Hk id' level l pre) by done. by destruct (entries_ok _ _ _ _). }
  destruct k; try done; (apply safe_bind; [apply group_data_safe|done]).
Qed.
Lemma read_slots_safe {A} (read : Reader.t -> Result (A * Reader.t)) n : (forall r, safe (read r)) -> forall r, safe (Tail.read_slots read n r).
Proof. intros Hr. induction n as [|n IH]; intros r; cbn [Tail.read_slots]; [done|]. apply safe_bind; [apply Hr|]. intros [a r'] _. apply safe_bind; [apply IH|]. by intros [l r''] _. Qed.
Ltac tail_safe := repeat first [progress page_safe Hp | progress unfold identifier_new | match goal with |- safe (match ?x with _ => _ end) => destruct x end].
Lemma grouped_state_safe : safe (GroupMeta.grouped_state p).
Proof.
  pose proof Hp as [Hb Hc].
  assert (S1 : forall r, safe (Tail.read_optional_owner r)) by (intros r; unfold Tail.read_optional_owner; tail_safe).
  assert (S2 : forall r, safe (Tail.read_snapshot r)) by (intros r; unfold Tail.read_snapshot; repeat first [progress tail_safe | apply S1]).
  assert (S3 : forall r, safe (Tail.read_journal r)) by (intros r; unfold Tail.read_journal; tail_safe).
  assert (S4 : forall r, safe (Tail.read_delta r)) by (intros r; unfold Tail.read_delta; repeat first [progress tail_safe | apply S1 | apply S2]).
  assert (S5 : forall r, safe (Tail.read_retired r)) by (intros r; unfold Tail.read_retired; tail_safe).
  assert (S6 : forall r, safe (Tail.read_old r)) by (intros r; unfold Tail.read_old; repeat first [progress tail_safe | apply S1 | apply S3]).
  assert (S7 : forall r, safe (Tail.read_v3 r)) by (intros r; unfold Tail.read_v3; repeat first [progress tail_safe | apply S2 | apply S3 | apply read_slots_safe; assumption]).
  assert (Hslice : forall n, META_LEGACY_BYTES <= n -> n = Page.length_ p -> safe (or_panic (E := Error) (slice (Page.buffer p) META_LEGACY_BYTES (Page.length_ p)))) by (intros n Hn ->; apply slice_safe; [done|by rewrite Hb]).
  unfold GroupMeta.grouped_state. apply safe_bind; [apply require_safe|]. intros _ _. apply safe_if; [done|]. intros _. apply safe_bind.
  - apply safe_if; intros H1; [apply N.eqb_eq in H1; apply safe_bind; [apply (Hslice META_GROUPED_BYTES); [by vm_compute|done]|intros; apply S6]|].
    apply safe_if; intros H2; [apply N.eqb_eq in H2; apply safe_bind; [apply (Hslice META_GROUPED_V3_BYTES); [by vm_compute|done]|intros; apply S7]|done].
  - intros g _. apply safe_bind; [destruct (validate_cases g) as [-> | ->]; done|]. intros; page_safe Hp.
Qed.
Lemma validate_meta_safe layout : safe (Validate.validate_meta p layout).
Proof.
  assert (Hb : forall b, safe (Page.bucket p b)) by (intros b; unfold Page.bucket; page_safe Hp).
  unfold Validate.validate_meta. repeat first [progress page_safe Hp | apply grouped_state_safe | progress unfold Page.owner_chain, Page.free_head, Page.rewrite_journal | match goal with |- safe (match ?x with _ => _ end) => destruct x end].
  apply (foldM_safe _ (fun _ => True)); [done|]. intros s b _ _. split; [|done]. by apply safe_bind.
Qed.
End Checks.
(** A page as it comes from the host. *)
Definition loaded_page (p : Page.t) : Prop := page_fits p /\ (Page.kind p = PageKind.Zero \/ page_sound p).
Lemma page_validate_safe layout p : loaded_page p -> safe (Validate.validate p layout).
Proof.
  intros [Hp H]. unfold Validate.validate. destruct (bool_decide_reflect (Page.kind p = PageKind.Zero)) as [|Hz]; [done|]. destruct H as [|(_ & Hl & _)]; [done|].
  apply safe_bind; [by apply check_next_safe|]. intros _ _. apply safe_if; [done|]. intros _.
  destruct (Page.kind p); [done|by apply validate_meta_safe|by apply validate_owners_safe|by apply (each_term_safe p Hp)|by apply validate_postings_safe..|by apply validate_grouped_safe|by apply validate_fragment_safe|by page_safe Hp].
Qed.

(** * What the check accepts *)
Lemma packed_flag v : v < 2 ^ 32 -> N.land v (0xffffffff - 4) = 0 -> v = if negb (v =? 0) then 4 else 0.
Proof.
  intros Hv H. assert (E : v = N.land v 4).
  { assert (E1 : N.land v 0xffffffff = v) by (change 0xffffffff with (N.ones 32); rewrite N.land_ones; by apply N.mod_small).
    rewrite <- E1 at 1. change 0xffffffff with (N.lor (0xffffffff - 4) 4). rewrite N.land_lor_distr_r, H. by rewrite N.lor_0_l. }
  destruct (N.eqb_spec v 0) as [|Hn]; cbn [negb]; [done|]. rewrite E. change 4 with (2 ^ 2). rewrite (N.land_comm v).
  apply N.bits_inj. intros i. rewrite N.land_spec, N.pow2_bits_eqb. destruct (N.eqb_spec 2 i) as [<-|]; [|done]. rewrite andb_true_l. destruct (N.testbit v 2) eqn:Eb; [done|]. exfalso. apply Hn. rewrite E.
  apply N.bits_inj. intros i. change 4 with (2 ^ 2). rewrite N.land_spec, N.pow2_bits_eqb, N.bits_0. destruct (N.eqb_spec 2 i) as [<-|]; [by rewrite Eb|by rewrite andb_false_r].
Qed.
Lemma rewrite_journal_inv p j : page_fits p -> 64 <= Page.length_ p -> Page.rewrite_journal p = Ok j ->
  (field (Page.buffer p) 52 4, field (Page.buffer p) 56 4, field (Page.buffer p) 60 4) = journal_fields j /\ journal_valid j = true /\ journal_u32 j.
Proof.
  intros Hp Hl H. unfold Page.rewrite_journal in H. apply rbind_ok in H as ([] & _ & H). rewrite !page_u32 in H by (done || lia). cbn [rbind] in H.
  pose proof (field_lt (Page.buffer p) 52 4) as H52. pose proof (field_lt (Page.buffer p) 56 4) as H56. change (8 * 4) with 32 in *.
  set (a := field _ 52 4) in *. set (b := field _ 56 4) in *. set (c := field _ 60 4) in *.
  destruct (N.eqb_spec c 0) as [Hc|Hc], (N.eqb_spec a 0) as [Ha|Ha], (N.eqb_spec b 0) as [Hb|Hb]; cbn [andb] in H;
    try (apply Ok_inj in H as <-; rewrite Ha, Hb, Hc; done);
    apply rbind_ok in H as (ph & Hph & H); apply if_err_ok in H as [Hv H]; apply Ok_inj in H as <-; apply orb_false_iff in Hv as [Hv1%negb_false_iff Hv2%negb_false_iff];
    (assert (Ec : c = phase_code ph) by (clear -Hph; destruct c as [|[[]|[]|]]; try discriminate Hph; by apply Ok_inj in Hph as <-));
    cbn [journal_fields journal_valid journal_u32 journal_head journal_tail journal_phase]; rewrite Hv1, Hv2, Ec; done.
Qed.
Definition bucket_at (bs : list byte) (b : N) : N * N := (field bs (64 + 8 * b) 4, field bs (68 + 8 * b) 4).
Definition meta_of (bs : list byte) (j : option RewriteJournal) : MetaState :=
  mkMetaState (negb (field bs 28 4 =? 0)) (field bs 32 8) (field bs 40 4, field bs 44 4) (field bs 48 4) j (bucket_at bs <$> range 0 BUCKETS).
Lemma index_range_fmap {A} (g : N -> A) n b x : index (g <$> range 0 n) b = Some x -> b < n /\ x = g b.
Proof.
  intros H. assert (Hb : b < n) by (unfold index in H; apply lookup_lt_Some in H; rewrite length_fmap in H; pose proof (len_range 0 n) as Hr; unfold len in Hr; lia).
  split; [done|]. rewrite (range_app 0 b n) in H by lia. rewrite fmap_app, (range_cons b n) in H by done. cbn [fmap list_fmap] in H.
  pose proof (index_behind (g <$> range 0 b) (g b) (g <$> range (b + 1) n) b) as E. cbn [app] in E. rewrite E in H; [by injection H|]. unfold len. rewrite length_fmap. pose proof (len_range 0 b) as Hr. unfold len in Hr. lia.
Qed.
Lemma meta_inv layout p : page_fits p -> Page.kind p = PageKind.Meta -> Validate.validate_meta p layout = Ok tt -> exists s, group_meta_rep layout p s.
Proof.
  intros Hp Hk H. unfold Validate.validate_meta in H. apply if_err_ok in H as [Hlen%negb_false_iff H].
  assert (Hl : 4160 <= Page.length_ p) by (apply orb_true_iff in Hlen as [Hlen| ->%N.eqb_eq]; [apply orb_true_iff in Hlen as [->%N.eqb_eq| ->%N.eqb_eq]|]; by vm_compute).
  rewrite !page_u32, !page_u16, page_u64 in H by (done || lia). cbn [rbind] in H. set (bs := Page.buffer p) in *.
  do 6 (apply if_err_ok in H as [?Hf H]). apply rbind_ok in H as ([oh ot] & Ho & H). apply rbind_ok in H as (fh & Hfh & H). apply rbind_ok in H as (j & Hj & H). apply rbind_ok in H as (g & Hg & H).
  repeat match goal with Hx : negb (_ =? _) = false |- _ => apply negb_false_iff, N.eqb_eq in Hx end. apply N.eqb_neq in Hf4.
  apply rewrite_journal_inv in Hj as (Ej & Hjv & Hju); [|done|lia]. fold bs in Ej. apply (foldM_each_ok (fun b => let* _ := Page.bucket p b in Ok tt)) in H. rewrite list.Forall_forall in H.
  assert (Hb : forall b, b < BUCKETS -> u32_pair (bucket_at bs b)).
  { intros b Hb. specialize (H b ltac:(apply elem_of_range; lia)). apply rbind_ok in H as ([h t] & H & _). unfold Page.bucket in H. apply rbind_ok in H as ([] & _ & H). rewrite (proj2 (N.leb_gt _ _) Hb) in H. cbn [negb] in H.
    unfold BUCKETS, META_HEADER in *. rewrite !page_u32 in H by (done || lia). cbn [rbind] in H. apply if_err_ok in H as [Hv H]. split; [apply (field_lt _ _ 4)|]. split; [apply (field_lt _ _ 4)|].
    apply negb_false_iff in Hv. replace (b * 8) with (8 * b) in Hv by lia. replace (64 + 8 * b + 4) with (68 + 8 * b) in Hv by lia. exact Hv. }
  assert (Ho' : u32_pair (field bs 40 4, field bs 44 4)).
  { unfold Page.owner_chain in Ho. apply rbind_ok in Ho as ([] & _ & Ho). rewrite !page_u32 in Ho by (done || lia). cbn [rbind] in Ho. apply if_err_ok in Ho as [Hv _]. apply negb_false_iff in Hv.
    split; [apply (field_lt _ _ 4)|]. split; [apply (field_lt _ _ 4)|exact Hv]. }
  assert (Hfr : free_valid (field bs 48 4)).
  { unfold Page.free_head in Hfh. apply rbind_ok in Hfh as ([] & _ & Hfh). rewrite page_u32 in Hfh by (done || lia). cbn [rbind] in Hfh. apply if_err_ok in Hfh as [Hv _]. fold bs in Hv. split; [apply (field_lt _ _ 4)|].
    destruct (_ =? NO_BLOCK); [done|]. cbn [negb andb orb] in *. by apply negb_false_iff in Hv. }
  apply grouped_state_iff in Hg as [Ht Hst]; [|done|done]. fold bs in Ht, Hst. exists (meta_of bs j, g). split; [|by split]. cbn [fst].
  split; [done|]. split; [done|]. split; [exact Hl|]. split.
  - split; [done|]. split; [done|]. split; [done|]. split; [done|]. split; [cbn; apply packed_flag; [apply (field_lt _ _ 4)|done]|]. split; [done|]. split; [done|]. split; [done|]. split; [done|].
    intros b pair [_ ->]%index_range_fmap. done.
  - split; [split; [cbn; lia|apply (field_lt _ _ 8)]|]. split; [done|]. split; [done|]. split; [done|]. split; [done|]. split; [cbn; unfold len; rewrite length_fmap; by vm_compute|].
    cbn [meta_of meta_buckets]. apply list.Forall_forall. intros pr (b & -> & Hbr%elem_of_range)%list_elem_of_fmap. apply Hb. lia.
Qed.

(** What a page of each kind stands for. *)
Inductive represents (layout : HeapLayout) (p : Page.t) : Prop :=
| represents_zero : Page.kind p = PageKind.Zero -> represents layout p
| represents_meta s : group_meta_rep layout p s -> represents layout p
| represents_owners next l : owners_rep layout p next l -> represents layout p
| represents_dictionary packed next l : dict_rep packed p next l -> represents layout p
| represents_postings term next l roots : posting_valid layout p term next l roots -> represents layout p
| represents_record pre d : Page.kind p = PageKind.Grouped -> len pre = PAGE_HEADER -> data_typed d -> record_ok d = true -> used p = pre ++ GroupPages.data_bytes d -> represents layout p
| represents_node pre id level l : Page.kind p = PageKind.Grouped -> len pre = PAGE_HEADER -> id_ok id -> node_shape level l -> entries_ok (Page.block p) level None l = true ->
    used p = pre ++ node_bytes id level l -> represents layout p
| represents_fragment pre owner offset payload : Page.kind p = PageKind.Fragment -> len pre = PAGE_HEADER -> ref_wf owner -> offset < 2 ^ 32 ->
    used p = pre ++ ref_bytes owner ++ le_bytes 4 offset ++ payload -> 1 <= len payload -> offset + len payload <= MAX_DOCUMENT_BYTES -> represents layout p
| represents_free : Page.kind p = PageKind.Free -> Page.length_ p = PAGE_HEADER -> represents layout p.
Lemma fragment_slice p x : page_fits p -> 16 <= Page.length_ p -> slice (used p) 16 (Page.length_ p) = Some x <-> exists pre, len pre = PAGE_HEADER /\ used p = pre ++ x.
Proof.
  intros Hp Hl. pose proof (used_len p Hp) as Hu. fold (used p) in Hu. split.
  - intros H. exists (take 16 (used p)). split; [rewrite len_take, Hu; unfold PAGE_HEADER; lia|]. apply slice_ok in H as (_ & _ & H). rewrite <- (take_drop 16 (used p)) at 1. f_equal. rewrite H. change (N.to_nat 16) with 16%nat.
    rewrite take_ge; [done|]. rewrite length_drop. unfold len in Hu. lia.
  - intros (pre & Hpre & E). rewrite E. rewrite <- (app_nil_r x) at 1. apply slice_app; [done|]. rewrite <- Hu, E, len_app, Hpre. done.
Qed.
Lemma validate_fragment_exact p : page_fits p -> 16 <= Page.length_ p -> Page.kind p = PageKind.Fragment -> (PostingPage.validate_fragment p = Ok tt <->
  exists pre owner offset payload, len pre = PAGE_HEADER /\ ref_wf owner /\ offset < 2 ^ 32 /\ used p = pre ++ ref_bytes owner ++ le_bytes 4 offset ++ payload /\ 1 <= len payload /\ offset + len payload <= MAX_DOCUMENT_BYTES).
Proof.
  intros Hp Hl Hk. unfold PostingPage.validate_fragment. pose proof (used_len p Hp) as Hu. fold (used p) in Hu. destruct Hp as [Hb Hc]. assert (Hmax : forall off payload, off < 2 ^ 32 -> len payload <= CAPACITY ->
    match checked_add usize off (len (A := byte) payload) with Some e => MAX_DOCUMENT_BYTES <? e | None => true end = (MAX_DOCUMENT_BYTES <? off + len payload)).
  { intros off payload Ho Hlp. rewrite checked_add_fits; [done|]. unfold CAPACITY in Hlp. change usize with 64. lia. }
  split.
  - intros H. apply rbind_ok in H as ([[o off] payload] & H & Hv). apply fragment_data_exact in H as (Hw & Hoff & Hs); [|done|done|done]. apply (fragment_slice p) in Hs as (pre & Hpre & Eu); [|done|done].
    assert (Hlp : len payload <= CAPACITY) by (rewrite Eu, !len_app in Hu; lia). rewrite Hmax in Hv by done. apply if_err_ok in Hv as [Hv _]. apply orb_false_iff in Hv as [H1%N.eqb_neq H2%N.ltb_ge].
    exists pre, o, off, payload. split_and!; try done. lia.
  - intros (pre & o & off & payload & Hpre & Hw & Hoff & Eu & H1 & H2). rewrite (proj2 (fragment_data_exact p o off payload ltac:(done) Hk Hl)).
    + cbn [rbind]. assert (Hlp : len payload <= CAPACITY) by (rewrite Eu, !len_app in Hu; lia). rewrite Hmax by done. rewrite (proj2 (N.eqb_neq _ _)), (proj2 (N.ltb_ge _ _)) by lia. done.
    + split; [done|]. split; [done|]. apply fragment_slice; [done|done|]. by exists pre.
Qed.
(** every page that comes from the host is checked without a panic, and the check
    accepts exactly the pages that stand for a state of their kind at a block where
    that kind belongs: the metapage at block 0, every other kind elsewhere. *)
Theorem page_validate_exact layout p : layout_wf layout -> loaded_page p -> Page.kind p <> PageKind.Zero ->
  (Validate.validate p layout = Ok tt <-> (Page.block p = 0 <-> Page.kind p = PageKind.Meta) /\ represents layout p) /\ safe (Validate.validate p layout).
Proof.
  intros Hlay Hload Hz. split; [|by apply page_validate_safe]. destruct Hload as [Hp [|Hs]]; [done|]. pose proof Hs as (_ & Hl & Hne & tag & flags & nx & tl & Eb & _ & _ & Hnx & _ & _ & Hno).
  unfold Validate.validate. rewrite bool_decide_eq_false_2 by done. destruct (check_next_ok p Hp Hl) as [[_ ->]|[Hc _]]; [|exfalso; apply Hc; rewrite Eb, head_next by done; exact Hno]. cbn [rbind].
  destruct (Bool.eqb (Page.block p =? 0) (bool_decide (Page.kind p = PageKind.Meta))) eqn:Ee; cbn [negb].
  2:{ split; [done|]. intros [Hiff _]. apply Bool.eqb_false_iff in Ee. exfalso. apply Ee. destruct (N.eqb_spec (Page.block p) 0); case_bool_decide; naive_solver. }
  assert (Hiff : Page.block p = 0 <-> Page.kind p = PageKind.Meta) by (apply Bool.eqb_prop in Ee; destruct (N.eqb_spec (Page.block p) 0); case_bool_decide; naive_solver).
  assert (H0 : Page.kind p <> PageKind.Meta -> Page.block p <> 0) by naive_solver.
  split.
  - intros H. split; [done|]. destruct (Page.kind p) eqn:Hk; [done| | | | | | | | |].
    + apply meta_inv in H as [s H]; [by eapply represents_meta|done|done].
    + apply validated_owners in H as (next & l & H); [by eapply represents_owners|done|done|done].
    + apply validated_dictionary in H as (packed & next & l & H); [by eapply represents_dictionary|done|done|by apply H0].
    + apply validated_postings in H as (t & n & l & r & H); [by eapply represents_postings|done|done|by rewrite Hk].
    + apply validated_postings in H as (t & n & l & r & H); [by eapply represents_postings|done|done|by rewrite Hk].
    + apply validated_postings in H as (t & n & l & r & H); [by eapply represents_postings|done|done|by rewrite Hk].
    + apply validated_grouped in H as (pre & Hpre & [(d & H1 & H2 & H3)|(id & level & l & H1 & H2 & H3 & H4)]); [by eapply represents_record|by eapply represents_node|done|done].
    + apply validate_fragment_exact in H as (pre & o & off & payload & H1 & H2 & H3 & H4 & H5 & H6); [by eapply represents_fragment|done|done|done].
    + apply if_err_ok in H as [H _]. apply negb_false_iff, N.eqb_eq in H. by apply represents_free.
  - intros [_ H]. destruct H as [|s H|next l H|packed next l H|t n l r H|pre d Hk H1 H2 H3 H4|pre id level l Hk H1 H2 H3 H4 H5|pre o off payload Hk H1 H2 H3 H4 H5 H6|Hk H1].
    + done.
    + pose proof H as ((_ & Hk & _) & _). rewrite Hk. pose proof (meta_valid layout p s H Hs ltac:(by apply Hiff)) as Hv. unfold Validate.validate in Hv. rewrite bool_decide_eq_false_2 in Hv by done.
      apply rbind_ok in Hv as (_ & _ & Hv). apply if_err_ok in Hv as [_ Hv]. by rewrite Hk in Hv.
    + pose proof H as (Hk & _). rewrite Hk. by eapply validate_owners_ok.
    + pose proof (d_kind _ _ _ _ H) as Hk. rewrite Hk. apply validated_dictionary; [done|done|apply H0; by rewrite Hk|by eexists _, _, _].
    + pose proof (rep_kind _ _ _ _ _ (v_rep _ _ _ _ _ _ H)) as Hk. assert (Hv : PostingPage.validate_postings p layout = Ok tt) by (by eapply validate_postings_ok). by destruct (Page.kind p).
    + rewrite Hk. apply validated_grouped; [done|done|]. exists pre. split; [done|]. left. by exists d.
    + rewrite Hk. apply validated_grouped; [done|done|]. exists pre. split; [done|]. right. by exists id, level, l.
    + rewrite Hk. apply validate_fragment_exact; [done|done|done|]. by exists pre, o, off, payload.
    + rewrite Hk, H1. done.
Qed.

(** ** Instances *)
Lemma page_validate_exact_witness : Validate.validate sample_open sample_layout = Ok tt /\ safe (Validate.validate sample_open sample_layout).
Proof.
  assert (Hl : loaded_page sample_open) by (split; [apply sample_open_sound|right; exact sample_open_sound]).
  destruct (page_validate_exact sample_layout sample_open sample_layout_wf Hl ltac:(done)) as [H Hs]. split; [|exact Hs].
  apply H. split; [done|]. eapply represents_postings. exact sample_open_valid.
Defined.
