(* ===== verification/Store.v ===== *)
(** The store contract and its shared traversals: [src/crates/pin-core/src/mutable/mod.rs],
    with the store in memory of [src/crates/pin-core/tests/support/mutable_store.rs].

    The host keeps the pages of a relation: it reads a block, extends the relation by
    one, and writes up to three pages at once. [Host.t] is that interface, [HostLaws]
    what its documentation promises: a commit is atomic, an extension leaves an unused
    block, and every operation may fail. Programs over it are in a state and error
    monad whose state survives an error, since what was committed stays. [wp] is their
    weakest precondition with a condition on the disk at every failure: as each host
    operation may fail before or after its effect, that condition holds wherever the
    program can be interrupted. *)
From S2P Require Export PageCheck.

(** [Stage] *)
Module Stage.
Inductive t : Type :=
| Allocation | OwnerReserved | FragmentStored | PayloadReady | TermLinked | Published | OwnerRemoved | PageReclaimed
| SegmentStored | ReplacementPublished | SegmentReclaimed | ReaderPinned | CountOwnerPinned | CountBeforeVisibility
| CountAfterVisibility | DirectRemoved | GroupReserved | GroupStored | GroupPublished | GroupReclaimed | GroupRetired
| GroupScan | GroupSortReady | FrontierInvalidated | FrontierSeek | OwnerFrontierScan | GroupCountProtected.
End Stage.
(** [MAX_WAL_PAGES] *)
Definition MAX_WAL_PAGES : N := 3.

Module Host.
(** [PageStore]: the policies are stable for the duration of an operation. *)
Class t (St : Type) : Type := {
  layout : HeapLayout;
  packed_postings : bool;
  frontier_anchors : bool;
  owner_frontier : bool;
  blocks : Eff St N;
  read : N -> Eff St Page.t;
  read_into : N -> Page.t -> Eff St Page.t;
  extend : Eff St N;
  commit : list Page.t -> Eff St unit;
  remove_owners : Page.t -> Eff St unit;
  interrupt : Eff St unit;
  event : Stage.t -> Eff St unit }.
End Host.

Section Operations.
Context {St : Type} {host : Host.t St}.
(** [load_any] *)
Definition load_any (block : N) : Eff St Page.t :=
  let! _ := Host.interrupt in
  let! n := Host.blocks in
  if n <=? block then efail InvalidState else
  let! page := Host.read block in
  if negb (Page.block page =? block) then efail InvalidState else
  let! _ := elift (Validate.validate page Host.layout) in
  eret page.
(** [load] *)
Definition load (block : N) (kind : PageKind.t) : Eff St Page.t :=
  let! page := load_any block in
  if negb (bool_decide (Page.kind page = kind)) then efail InvalidState else eret page.
(** [load_into] *)
Definition load_into (block : N) (kind : PageKind.t) (page : Page.t) : Eff St Page.t :=
  let! _ := Host.interrupt in
  let! n := Host.blocks in
  if n <=? block then efail InvalidState else
  let! page := Host.read_into block page in
  if negb (Page.block page =? block) || negb (bool_decide (Page.kind page = kind)) then efail InvalidState else
  let! _ := elift (Validate.validate page Host.layout) in
  eret page.
(** [allocate] *)
Definition allocate : Eff St N :=
  let! _ := Host.interrupt in
  let! expected := Host.blocks in
  let! block := Host.extend in
  if negb (block =? expected) || (block =? NO_BLOCK) then efail InvalidState else
  let! _ := Host.event Stage.Allocation in
  eret block.
(** [following] *)
Definition following (page : Page.t) (tail : N) : Result (option N) :=
  if Page.block page =? tail then Ok None else
  let* next := Page.next page in
  if (next =? NO_BLOCK) || (tail <? next) || (next <=? Page.block page) then Err InvalidState else Ok (Some next).
(** The entries of a page in [find_term]: the reference of the text, met once. *)
Definition find_entry_in (bucket : N) (text : list byte) (found : bool) (reference : option TermRef) (entry : Term) : Result (option TermRef) :=
  if negb (bucket_for (t_text entry) =? bucket) then Err InvalidState else
  if bool_decide (t_text entry = text) then
    if negb (is_none reference) || found then Err InvalidState else Ok (Some (t_reference entry))
  else Ok reference.
(** The loop of [find_term]; blocks grow up to [tail], so [tail - block + 1] rounds are enough. *)
Fixpoint find_loop (fuel : nat) (bucket : N) (text : list byte) (tail block : N) (found : option (Page.t * TermRef)) : Eff St (option (Page.t * TermRef)) :=
  match fuel with
  | O => elift Panic
  | S fuel =>
      let! page := load block PageKind.Dictionary in
      let! reference := elift (TermPage.each (find_entry_in bucket text (negb (is_none found))) None page) in
      let! next := elift (following page tail) in
      let found := match reference with Some reference => Some (page, reference) | None => found end in
      match next with Some next => find_loop fuel bucket text tail next found | None => eret found end
  end.
Definition chain_fuel (block tail : N) : nat := S (N.to_nat (tail - block)).
(** [find_term] *)
Definition find_term (meta : Page.t) (text : list byte) : Eff St (option (Page.t * TermRef)) :=
  let bucket := bucket_for text in
  let! '(head, tail) := elift (Page.bucket meta bucket) in
  if head =? NO_BLOCK then eret None else find_loop (chain_fuel head tail) bucket text tail head None.
(** [posting_next], with the pages that remain. *)
Definition posting_next (page : Page.t) (tail remaining : N) : Result (option N * N) :=
  if remaining =? 0 then Err InvalidState else
  let remaining := remaining - 1 in
  if Page.block page =? tail then Ok (None, remaining) else
  let* next := Page.next page in
  if (next =? NO_BLOCK) || (remaining =? 0) then Err InvalidState else Ok (Some next, remaining).
(** [load_posting]: a page of postings, or the one owner a dictionary entry holds itself. *)
Definition virtual_posting (page : Page.t) (block : N) (term : TermRef) : Result Page.t :=
  let* entry := TermPage.term page term in
  let* second := ok_or (match t_inline entry with Some o => Some o | None => t_shadow entry end) InvalidState in
  if negb (is_none (t_inline entry)) && (negb (t_head entry =? block) || negb (t_tail entry =? block)) then Err InvalidState else
  let* virtual_page := Page.postings block term in
  let* '(fits, virtual_page) := PostingPage.append_posting virtual_page second in
  if negb fits then Err InvalidState else Ok virtual_page.
Definition load_posting (block : N) (term : TermRef) : Eff St Page.t :=
  let! page := load_any block in
  if bool_decide (Page.kind page = PageKind.Dictionary) then elift (virtual_posting page block term) else
  let! own := elift (PostingPage.posting_term page) in
  if negb (bool_decide (own = term)) then efail InvalidState else eret page.
End Operations.

(** * The store in memory *)
(** The closure that [MemoryStore::read] passes to [Page::read_with]. *)
Definition fill (bytes output : list byte) : list byte * Result N :=
  if len output <? len bytes then (output, Err InvalidState) else (splice output 0 bytes, Ok (len bytes)).
Module MemoryStore.
(** [MemoryStore] *)
Record t : Type := mk { pages : list (list byte); events : list Stage.t; fail_at : option N }.
Definition read (block : N) : Eff t Page.t := fun self =>
  (let* bytes := ok_or (index (pages self) block) InvalidState in Page.read_with block (fill bytes), self).
(** One page of a commit: valid, allocated, and not among the earlier ones. *)
Definition check (layout : HeapLayout) (self : t) (earlier : list N) (page : Page.t) : Result (list N) :=
  let* _ := Validate.validate page layout in
  if negb (Page.block page <? len (pages self)) then Panic else
  if bool_decide (Page.block page ∈ earlier) then Panic else Ok (earlier ++ [Page.block page]).
Definition put (pages : list (list byte)) (copy : N * list byte) : Result (list (list byte)) :=
  if fst copy <? len pages then Ok (<[N.to_nat (fst copy) := snd copy]> pages) else Panic.
Definition commit (layout : HeapLayout) (images : list Page.t) : Eff t unit := fun self =>
  let written :=
    let* _ := if is_empty images || (MAX_WAL_PAGES <? len images) then Panic else foldM (check layout self) [] images in
    let* copies := foldM (fun copies page => let* bytes := Page.bytes page in Ok (copies ++ [(Page.block page, bytes)])) [] images in
    foldM put (pages self) copies in
  match written with
  | Ok written => (Ok tt, mk written (events self) (fail_at self))
  | Err e => (Err e, self)
  | Panic => (Panic, self)
  end.
Definition event (stage : Stage.t) : Eff t unit := fun self =>
  let self := mk (pages self) (events self ++ [stage]) (fail_at self) in
  (if bool_decide (fail_at self = Some (len (events self) - 1)) then Err InvalidState else Ok tt, self).
(** [impl PageStore for MemoryStore] *)
Definition host (layout : HeapLayout) (packed anchors : bool) : Host.t t := {|
  Host.layout := layout; Host.packed_postings := packed; Host.frontier_anchors := anchors; Host.owner_frontier := false;
  Host.blocks := fun self => (Ok (trunc 32 (len (pages self))), self);
  Host.read := read;
  Host.read_into := fun block _ => read block;
  Host.extend := fun self => (Ok (trunc 32 (len (pages self))), mk (pages self ++ [[]]) (events self) (fail_at self));
  Host.commit := commit layout;
  Host.remove_owners := fun page => commit layout [page];
  Host.interrupt := eret tt;
  Host.event := event |}.
End MemoryStore.

(** * The contract of a host *)
Definition Disk : Type := list (list byte).
Definition write (d : Disk) (images : list Page.t) : Disk := foldl (fun d p => <[N.to_nat (Page.block p) := used p]> d) d images.
(** What a commit may be given. *)
Definition commit_ok (d : Disk) (images : list Page.t) : Prop :=
  1 <= len images <= MAX_WAL_PAGES /\ Forall (fun p => page_sound p /\ Page.block p < len d) images /\ NoDup (Page.block <$> images).
(** What a read of a block gives, if anything: its bytes, over zeros. *)
Definition comes (d : Disk) (b : N) (p : Page.t) : Prop := exists bytes, index d b = Some bytes /\ Page.read_with b (fill bytes) = Ok p.
Definition readable (d : Disk) (b : N) : Prop := exists p, comes d b p.
Definition images_valid (layout : HeapLayout) (images : list Page.t) : Prop := Forall (fun p => Validate.validate p layout = Ok tt) images.
Section Contract.
Context {St : Type} (disk : St -> Disk) (steady : St -> Prop).
(** The result and the state of a program, and the disk where it stops early. *)
Definition outcome {A} (m : Eff St A) (s : St) (Q : A -> Disk -> Prop) (E : Disk -> Prop) : Prop :=
  match m s with (Ok a, s') => steady s' /\ Q a (disk s') | (Err _, s') => E (disk s') | (Panic, _) => False end.
End Contract.
(** [faulty] says whether operations may fail of themselves; a host that never does is
    also an instance. *)
Class HostLaws (St : Type) {host : Host.t St} : Type := {
  disk : St -> Disk;
  steady : St -> Prop;
  faulty : Prop;
  law_layout : layout_wf Host.layout;
  law_blocks s : steady s -> len (disk s) < 2 ^ 32 -> outcome disk steady Host.blocks s (fun n d => n = len (disk s) /\ d = disk s) (fun d => faulty /\ d = disk s);
  law_read b s : steady s -> outcome disk steady (Host.read b) s (fun p d => d = disk s /\ comes d b p)
    (fun d => d = disk s /\ (faulty \/ ~ readable d b));
  law_read_into b q s : steady s -> outcome disk steady (Host.read_into b q) s (fun p d => d = disk s /\ comes d b p)
    (fun d => d = disk s /\ (faulty \/ ~ readable d b));
  law_extend s : steady s -> len (disk s) < 2 ^ 32 -> outcome disk steady Host.extend s (fun b d => b = len (disk s) /\ d = disk s ++ [[]])
    (fun d => faulty /\ (d = disk s \/ d = disk s ++ [[]]));
  law_commit images s : steady s -> commit_ok (disk s) images -> outcome disk steady (Host.commit images) s (fun _ d => d = write (disk s) images)
    (fun d => (faulty /\ d = write (disk s) images) \/ d = disk s /\ (faulty \/ ~ images_valid Host.layout images));
  law_remove_owners p s : steady s -> commit_ok (disk s) [p] -> outcome disk steady (Host.remove_owners p) s (fun _ d => d = write (disk s) [p])
    (fun d => (faulty /\ d = write (disk s) [p]) \/ d = disk s /\ (faulty \/ ~ images_valid Host.layout [p]));
  law_interrupt s : steady s -> outcome disk steady Host.interrupt s (fun _ d => d = disk s) (fun d => faulty /\ d = disk s);
  law_event stage s : steady s -> outcome disk steady (Host.event stage) s (fun _ d => d = disk s) (fun d => faulty /\ d = disk s) }.

(** ** Reading a block *)
Lemma fill_ok bytes : len bytes <= CAPACITY -> fill bytes Page.zeros = (splice Page.zeros 0 bytes, Ok (len bytes)) /\ len (splice Page.zeros 0 bytes) = CAPACITY.
Proof. intros H. unfold fill. rewrite zeros_len. rewrite (proj2 (N.ltb_ge _ _)) by done. split; [done|]. rewrite splice_len; [apply zeros_len|]. rewrite zeros_len. lia. Qed.
Lemma fill_total bytes : len (fst (fill bytes Page.zeros)) = CAPACITY /\ safe (snd (fill bytes Page.zeros)).
Proof.
  destruct (N.le_gt_cases (len bytes) CAPACITY) as [H|H]; [by destruct (fill_ok bytes H) as [-> ?]|]. unfold fill. rewrite zeros_len, (proj2 (N.ltb_lt _ _)) by done. split; [apply zeros_len|done].
Qed.
Lemma read_fill_safe b bytes : safe (Page.read_with b (fill bytes)).
Proof.
  destruct (fill_total bytes) as [H1 H2]. destruct (load_iff b (fill bytes) H1 H2) as [_ H]. unfold Page.read_with. destruct (Page.reload_with b (fill bytes)) as [p r]. destruct (H p r eq_refl) as [->|[[e ->] _]]; done.
Qed.
Lemma read_fill_exact b bytes p : Page.read_with b (fill bytes) = Ok p <->
  exists k, len bytes <= CAPACITY /\ loads b (len bytes) k (splice Page.zeros 0 bytes) /\ p = Page.mk b k (len bytes) false (splice Page.zeros 0 bytes).
Proof.
  destruct (fill_total bytes) as [H1 H2]. destruct (load_iff b (fill bytes) H1 H2) as [H _]. unfold Page.read_with. destruct (N.le_gt_cases (len bytes) CAPACITY) as [Hl|Hl].
  - destruct (fill_ok bytes Hl) as [E _]. rewrite E in H. cbn [fst snd] in H. destruct (Page.reload_with b (fill bytes)) as [q r]. split.
    + intros Hq. apply rbind_ok in Hq as ([] & -> & Hq). apply Ok_inj in Hq as <-. destruct (proj1 (H q) eq_refl) as (n & k & Hn & Hlo & ->). apply Ok_inj in Hn as <-. by exists k.
    + intros (k & _ & Hlo & ->). assert (Eq : (q, r) = (Page.mk b k (len bytes) false (splice Page.zeros 0 bytes), Ok tt)) by (apply H; by exists (len bytes), k). by injection Eq as -> ->.
  - assert (Ef : fill bytes Page.zeros = (Page.zeros, Err InvalidState)) by (unfold fill; by rewrite zeros_len, (proj2 (N.ltb_lt _ _)) by done). rewrite Ef in H. cbn [fst snd] in H. destruct (Page.reload_with b (fill bytes)) as [q r]. split; [|intros (k & Hx & _); lia].
    intros Hq. apply rbind_ok in Hq as ([] & -> & Hq). destruct (proj1 (H q) eq_refl) as (n & k & Hn & _). discriminate Hn.
Qed.
Lemma splice_front (z bs : list byte) : len bs <= len z -> take (length bs) (splice z 0 bs) = bs.
Proof. intros H. unfold splice. cbn [N.to_nat take]. rewrite take_0. cbn [app]. by rewrite take_app_length. Qed.
(** What is read has the bytes that are stored. *)
Lemma read_loaded b bytes p : Page.read_with b (fill bytes) = Ok p -> loaded_page p /\ Page.block p = b /\ used p = bytes.
Proof.
  intros (k & Hl & (Hb & Hk) & ->)%read_fill_exact. destruct (fill_ok bytes Hl) as [_ Hc]. assert (Hp : page_fits (Page.mk b k (len bytes) false (splice Page.zeros 0 bytes))) by (split; [exact Hc|exact Hl]).
  split; [|split; [done|]].
  - split; [done|]. destruct Hk as [[_ ->]|[[H16 _] Hh]]; [by left|right]. by split_and!.
  - unfold used. cbn [Page.length_ Page.buffer]. rewrite to_nat_len. apply splice_front. by rewrite zeros_len.
Qed.
Lemma comes_loaded d b p : comes d b p -> loaded_page p /\ Page.block p = b /\ index d b = Some (used p).
Proof. intros (bytes & Hi & Hr). apply read_loaded in Hr as (H1 & H2 & <-). by split_and!. Qed.
Lemma comes_unique d b p q : comes d b p -> comes d b q -> p = q.
Proof. intros (x & Hx & Hp) (y & Hy & Hq). rewrite Hx in Hy. injection Hy as <-. rewrite Hp in Hq. by apply Ok_inj in Hq. Qed.
(** What was written is read. *)
Lemma read_written p : page_sound p -> exists q, Page.read_with (Page.block p) (fill (used p)) = Ok q /\ Page.block q = Page.block p /\ Page.kind q = Page.kind p /\ used q = used p.
Proof.
  intros Hs. pose proof Hs as (Hp & Hl & Hne & Hh). assert (Hu : len (used p) = Page.length_ p) by by apply used_len. assert (Hc : len (used p) <= CAPACITY) by (rewrite Hu; apply Hp).
  pose proof (stored_header p Hs) as Hst. unfold stored in Hst. cbn [fst] in Hst. fold (used p) in Hst.
  assert (E : Page.read_with (Page.block p) (fill (used p)) = Ok (Page.mk (Page.block p) (Page.kind p) (len (used p)) false (splice Page.zeros 0 (used p)))).
  { apply read_fill_exact. exists (Page.kind p). split; [done|]. split; [|done]. split; [done|]. right. split; [split; [lia|exact Hc]|exact Hst]. }
  eexists. split; [exact E|]. apply read_loaded in E as (_ & _ & E). by split_and!.
Qed.
(** ** The store in memory keeps it *)
Lemma len_insert_n {A} (l : list A) n x : len (<[n := x]> l) = len l.
Proof. unfold len. by rewrite length_insert. Qed.
Lemma len_write images : forall d, len (write d images) = len d.
Proof. induction images as [|p images IH]; intros d; [done|]. unfold write in *. cbn [foldl]. rewrite IH. apply len_insert_n. Qed.
Lemma sound_fits p : page_sound p -> page_fits p.
Proof. by intros [H _]. Qed.
Lemma sound_loaded p : page_sound p -> loaded_page p.
Proof. intros H. split; [by apply sound_fits|by right]. Qed.
Section Memory.
Context (layout : HeapLayout) (Hlay : layout_wf layout).
Lemma check_all (self : MemoryStore.t) images : forall earlier, Forall (fun p => page_sound p /\ Page.block p < len (MemoryStore.pages self)) images ->
  NoDup (earlier ++ (Page.block <$> images)) -> safe (foldM (MemoryStore.check layout self) earlier images).
Proof.
  induction images as [|p images IH]; intros earlier Hi Hd; cbn [foldM]; [done|]. apply list.Forall_cons in Hi as [[Hs Hb] Hi].
  cbn [fmap list_fmap] in Hd. assert (Hnew : Page.block p ∉ earlier) by (apply list.NoDup_app in Hd as (_ & Hd & _); intros Hin; apply (Hd _ Hin); left).
  assert (E : MemoryStore.check layout self earlier p = let* _ := Validate.validate p layout in Ok (earlier ++ [Page.block p])).
  { unfold MemoryStore.check. rewrite (proj2 (N.ltb_lt _ _)) by done. cbn [negb]. by rewrite bool_decide_eq_false_2. }
  rewrite E. apply safe_bind; [apply safe_bind; [by apply page_validate_safe, sound_loaded|done]|]. intros e H. apply rbind_ok in H as (_ & _ & H). apply Ok_inj in H as <-. apply IH; [done|]. by rewrite <- app_assoc.
Qed.
Lemma copies_ok images : forall l, Forall page_sound images ->
  foldM (fun (copies : list (N * list byte)) page => let* bytes := Page.bytes (E := Error) page in Ok (copies ++ [(Page.block page, bytes)])) l images = Ok (l ++ ((fun p => (Page.block p, used p)) <$> images)).
Proof.
  induction images as [|p images IH]; intros l Hi; cbn [foldM fmap list_fmap]; [by rewrite app_nil_r|]. apply list.Forall_cons in Hi as [Hs Hi]. rewrite bytes_ok by by apply sound_fits. cbn [rbind].
  rewrite IH by done. by rewrite <- app_assoc.
Qed.
Lemma put_all images : forall d, Forall (fun p => Page.block p < len d) images -> foldM MemoryStore.put d ((fun p => (Page.block p, used p)) <$> images) = Ok (write d images).
Proof.
  induction images as [|p images IH]; intros d Hi; cbn [foldM fmap list_fmap]; [done|]. apply list.Forall_cons in Hi as [Hb Hi]. unfold MemoryStore.put at 1. cbn [fst snd]. rewrite (proj2 (N.ltb_lt _ _)) by done. cbn [rbind].
  rewrite IH; [done|]. by rewrite len_insert_n.
Qed.
Lemma check_valid (self : MemoryStore.t) images : forall earlier e, foldM (MemoryStore.check layout self) earlier images = Err e -> ~ images_valid layout images.
Proof.
  induction images as [|p images IH]; intros earlier e H Hv; cbn [foldM] in H; [done|]. apply list.Forall_cons in Hv as [Hp Hv]. unfold MemoryStore.check at 1 in H. rewrite Hp in H. cbn [rbind] in H.
  destruct (negb _) in H; [done|]. destruct (bool_decide _) in H; [done|]. cbn [rbind] in H. by eapply IH.
Qed.
Lemma memory_commit (steady : MemoryStore.t -> Prop) (faulty : Prop) (self : MemoryStore.t) images :
  (forall l, steady (MemoryStore.mk l (MemoryStore.events self) (MemoryStore.fail_at self))) -> commit_ok (MemoryStore.pages self) images ->
  outcome MemoryStore.pages steady (MemoryStore.commit layout images) self (fun _ d => d = write (MemoryStore.pages self) images)
    (fun d => (faulty /\ d = write (MemoryStore.pages self) images) \/ d = MemoryStore.pages self /\ (faulty \/ ~ images_valid layout images)).
Proof.
  intros Hst ([H1 H3] & Hi & Hd). unfold outcome, MemoryStore.commit. assert (E : is_empty images || (MAX_WAL_PAGES <? len images) = false) by (rewrite (proj2 (N.ltb_ge _ _)) by done; by destruct images).
  rewrite E. pose proof (check_all self images [] Hi Hd) as Hc. destruct (foldM (MemoryStore.check layout self) [] images) as [e|e|] eqn:Ec; [|right; split; [done|right; by eapply check_valid]|done]. cbn [rbind].
  rewrite copies_ok by (eapply Forall_impl; [|exact Hi]; by intros ? [? _]). cbn [rbind app]. rewrite put_all by (eapply Forall_impl; [|exact Hi]; by intros ? [_ ?]). by split.
Qed.
(** Faults come from [fail_at] alone. *)
Lemma memory_read (steady : MemoryStore.t -> Prop) (faulty : Prop) b s : steady s ->
  outcome MemoryStore.pages steady (MemoryStore.read b) s (fun p d => d = MemoryStore.pages s /\ comes d b p) (fun d => d = MemoryStore.pages s /\ (faulty \/ ~ readable d b)).
Proof.
  intros Hs. unfold outcome, MemoryStore.read. destruct (index (MemoryStore.pages s) b) as [bytes|] eqn:E; cbn [ok_or rbind].
  2:{ split; [done|right]. intros (p & bytes & Hi & _). by rewrite E in Hi. }
  destruct (Page.read_with b (fill bytes)) as [p|e|] eqn:Er; [split; [done|]; split; [done|by exists bytes]|split; [done|]|by eapply read_fill_safe].
  right. intros (p & bytes' & Hi & Hp). rewrite E in Hi. injection Hi as <-. by rewrite Er in Hp.
Qed.
End Memory.
Definition memory_laws (layout : HeapLayout) (packed anchors : bool) (Hlay : layout_wf layout) (reliable : bool) : @HostLaws MemoryStore.t (MemoryStore.host layout packed anchors).
Proof.
  refine {| disk := MemoryStore.pages; steady := fun s => reliable = true -> MemoryStore.fail_at s = None; faulty := reliable = false |}.
  - exact Hlay.
  - intros s Hs Hl. split; [done|]. split; [|done]. cbn. by apply trunc_small.
  - intros b s Hs. by apply (memory_read (fun s => reliable = true -> MemoryStore.fail_at s = None)).
  - intros b q s Hs. by apply (memory_read (fun s => reliable = true -> MemoryStore.fail_at s = None)).
  - intros s Hs Hl. split; [done|]. split; [|done]. cbn. by apply trunc_small.
  - intros images s Hs. by apply memory_commit.
  - intros p s Hs. by apply memory_commit.
  - intros s Hs. by split.
  - intros stage s Hs. unfold outcome. cbn. case_bool_decide as Hf; [|done]. split; [|done]. destruct reliable; [by rewrite Hs in Hf|done].
Defined.

(** * Weakest preconditions *)
Section Wp.
Context {St : Type} {host : Host.t St} {laws : HostLaws St}.
Implicit Types (d : Disk) (E : Disk -> Prop).
Definition wp {A} d (m : Eff St A) (Q : A -> Disk -> Prop) E : Prop := forall s, steady s -> disk s = d -> outcome disk steady m s Q E.
Lemma wp_ret {A} d (a : A) (Q : A -> Disk -> Prop) E : Q a d -> wp d (eret a) Q E.
Proof. by intros H s Hs <-. Qed.
Lemma wp_lift {A} d (r : Result A) (Q : A -> Disk -> Prop) E : safe r -> (forall a, r = Ok a -> Q a d) -> (forall e, r = Err e -> E d) -> wp d (elift r) Q E.
Proof. intros Hs HQ HE s Hst <-. unfold outcome, elift. destruct r; [split; [done|by apply HQ]|by eapply HE|done]. Qed.
Lemma wp_fail {A} d e (Q : A -> Disk -> Prop) E : E d -> wp d (efail e) Q E.
Proof. intros H. by apply wp_lift. Qed.
Lemma wp_bind {A B} d (m : Eff St A) (k : A -> Eff St B) Q E : wp d m (fun a d' => wp d' (k a) Q E) E -> wp d (ebind m k) Q E.
Proof. intros H s Hst Hs. specialize (H s Hst Hs). unfold outcome, ebind in *. destruct (m s) as [[a|e|] s']; [destruct H as [Hst' H]; by apply H|done|done]. Qed.
Lemma wp_mono {A} d (m : Eff St A) (Q Q' : A -> Disk -> Prop) E E' : wp d m Q E -> (forall a d', Q a d' -> Q' a d') -> (forall d', E d' -> E' d') -> wp d m Q' E'.
Proof. intros H HQ HE s Hst Hs. specialize (H s Hst Hs). unfold outcome in *. destruct (m s) as [[a|e|] s']; naive_solver. Qed.
Lemma wp_if {A} d (b : bool) (m n : Eff St A) Q E : (b = true -> wp d m Q E) -> (b = false -> wp d n Q E) -> wp d (if b then m else n) Q E.
Proof. destruct b; auto. Qed.
(** Loops over the items of an iterator, with an invariant on what remains. *)
Lemma wp_mfold {T A} (f : T -> A -> Eff St T) (I : T -> list A -> Disk -> Prop) E l : forall t d, I t l d ->
  (forall t a l' d, I t (a :: l') d -> wp d (f t a) (fun t' d' => I t' l' d') E) -> wp d (efold f t l) (fun t' d' => I t' [] d') E.
Proof.
  induction l as [|a l IH]; intros t d HI Hf; cbn [efold]; [by apply wp_ret|]. apply wp_bind. eapply wp_mono; [apply Hf, HI| |done]. intros t' d' HI'. by apply IH.
Qed.

(** ** The operations of the host *)
Lemma wp_blocks d (Q : N -> Disk -> Prop) E : len d < 2 ^ 32 -> Q (len d) d -> (faulty -> E d) -> wp d Host.blocks Q E.
Proof. intros Hd HQ HE s Hst <-. pose proof (law_blocks s Hst Hd) as H. unfold outcome in *. destruct (Host.blocks s) as [[n|e|] s']; [by destruct H as (? & -> & ->)|destruct H as [? ->]; auto|done]. Qed.
Lemma wp_read d b (Q : Page.t -> Disk -> Prop) E : (forall p, comes d b p -> Q p d) -> (faulty \/ ~ readable d b -> E d) -> wp d (Host.read b) Q E.
Proof.
  intros HQ HE s Hst <-. pose proof (law_read b s Hst) as Hlaw. unfold outcome in *. destruct (Host.read b s) as [[p|e|] s']; [|destruct Hlaw as (-> & ?); auto|done].
  destruct Hlaw as (Hst' & -> & ?). auto.
Qed.
Lemma wp_read_into d b q (Q : Page.t -> Disk -> Prop) E : (forall p, comes d b p -> Q p d) -> (faulty \/ ~ readable d b -> E d) -> wp d (Host.read_into b q) Q E.
Proof.
  intros HQ HE s Hst <-. pose proof (law_read_into b q s Hst) as Hlaw. unfold outcome in *. destruct (Host.read_into b q s) as [[p|e|] s']; [|destruct Hlaw as (-> & ?); auto|done].
  destruct Hlaw as (Hst' & -> & ?). auto.
Qed.
Lemma wp_extend d (Q : N -> Disk -> Prop) E : len d < 2 ^ 32 -> Q (len d) (d ++ [[]]) -> (faulty -> E d) -> (faulty -> E (d ++ [[]])) -> wp d Host.extend Q E.
Proof.
  intros Hd HQ H1 H2 s Hst <-. pose proof (law_extend s Hst Hd) as H. unfold outcome in *. destruct (Host.extend s) as [[n|e|] s']; [by destruct H as (? & -> & ->)|destruct H as [? [-> | ->]]; auto|done].
Qed.
Lemma wp_commit d images (Q : unit -> Disk -> Prop) E : commit_ok d images -> Q tt (write d images) -> (faulty \/ ~ images_valid Host.layout images -> E d) -> (faulty -> E (write d images)) ->
  wp d (Host.commit images) Q E.
Proof.
  intros Hd HQ H1 H2 s Hst <-. pose proof (law_commit images s Hst Hd) as H. unfold outcome in *.
  destruct (Host.commit images s) as [[[]|e|] s']; [by destruct H as (? & ->)|destruct H as [[? ->]|[-> ?]]; auto|done].
Qed.
Lemma wp_remove_owners d p (Q : unit -> Disk -> Prop) E : commit_ok d [p] -> Q tt (write d [p]) -> (faulty \/ ~ images_valid Host.layout [p] -> E d) -> (faulty -> E (write d [p])) ->
  wp d (Host.remove_owners p) Q E.
Proof.
  intros Hd HQ H1 H2 s Hst <-. pose proof (law_remove_owners p s Hst Hd) as H. unfold outcome in *.
  destruct (Host.remove_owners p s) as [[[]|e|] s']; [by destruct H as (? & ->)|destruct H as [[? ->]|[-> ?]]; auto|done].
Qed.
Lemma wp_interrupt d (Q : unit -> Disk -> Prop) E : Q tt d -> (faulty -> E d) -> wp d Host.interrupt Q E.
Proof. intros HQ HE s Hst <-. pose proof (law_interrupt s Hst) as H. unfold outcome in *. destruct (Host.interrupt s) as [[[]|e|] s']; [by destruct H as (? & ->)|destruct H as [? ->]; auto|done]. Qed.
Lemma wp_event d stage (Q : unit -> Disk -> Prop) E : Q tt d -> (faulty -> E d) -> wp d (Host.event stage) Q E.
Proof. intros HQ HE s Hst <-. pose proof (law_event stage s Hst) as H. unfold outcome in *. destruct (Host.event stage s) as [[[]|e|] s']; [by destruct H as (? & ->)|destruct H as [? ->]; auto|done]. Qed.

(** ** Loading *)
Definition loaded (d : Disk) (b : N) (p : Page.t) : Prop := comes d b p /\ Validate.validate p Host.layout = Ok tt.
Lemma index_bound {A} (l : list A) i x : index l i = Some x -> i < len l.
Proof. unfold index, len. intros Hi%lookup_lt_Some. lia. Qed.
(** A block that holds a page of a kind, which passes the check: loading it succeeds. *)
Definition holds (d : Disk) (b : N) (k : PageKind.t) : Prop := readable d b /\ forall p, comes d b p -> Validate.validate p Host.layout = Ok tt /\ Page.kind p = k.
Lemma wp_load_any d b (Q : Page.t -> Disk -> Prop) E : len d < 2 ^ 32 -> (forall p, loaded d b p -> Q p d) -> (faulty \/ (forall k, ~ holds d b k) -> E d) -> wp d (load_any b) Q E.
Proof.
  intros Hd HQ HE. unfold load_any. apply wp_bind, wp_interrupt; [|auto]. apply wp_bind, wp_blocks; [done| |auto]. apply wp_if; intros Hb.
  { apply wp_fail, HE. right. intros k [(q & bytes & Hi & _) _]. apply index_bound in Hi. apply N.leb_le in Hb. lia. }
  apply wp_bind, wp_read; [|intros [?|Hr]; apply HE; [by left|right; by intros k [? _]]]. intros p Hp. pose proof (comes_loaded _ _ _ Hp) as (Hl & Hpb & _). rewrite Hpb, N.eqb_refl. cbn [negb].
  apply wp_bind, wp_lift; [by apply page_validate_safe| |]. { intros [] Hv. apply wp_ret, HQ. by split. }
  intros e He. apply HE. right. intros k [_ Hh]. destruct (Hh p Hp) as [Hv _]. by rewrite Hv in He.
Qed.
Lemma wp_load d b k (Q : Page.t -> Disk -> Prop) E : len d < 2 ^ 32 -> (forall p, loaded d b p -> Page.kind p = k -> Q p d) -> (faulty \/ ~ holds d b k -> E d) -> wp d (load b k) Q E.
Proof.
  intros Hd HQ HE. unfold load. apply wp_bind, wp_load_any; [done| |intros [?|Hh]; apply HE; [by left|right; apply Hh]]. intros p Hp. apply wp_if; intros Hk.
  - apply wp_fail, HE. right. intros [_ Hh]. destruct (Hh p (proj1 Hp)) as [_ Hk']. by rewrite bool_decide_eq_true_2 in Hk.
  - apply negb_false_iff, bool_decide_eq_true_1 in Hk. by apply wp_ret, HQ.
Qed.
Lemma wp_load_into d b k q (Q : Page.t -> Disk -> Prop) E : len d < 2 ^ 32 -> (forall p, loaded d b p -> Page.kind p = k -> Q p d) -> (faulty \/ ~ holds d b k -> E d) -> wp d (load_into b k q) Q E.
Proof.
  intros Hd HQ HE. unfold load_into. apply wp_bind, wp_interrupt; [|auto]. apply wp_bind, wp_blocks; [done| |auto]. apply wp_if; intros Hb.
  { apply wp_fail, HE. right. intros [(r & bytes & Hi & _) _]. apply index_bound in Hi. apply N.leb_le in Hb. lia. }
  apply wp_bind, wp_read_into; [|intros [?|Hr]; apply HE; [by left|right; by intros [? _]]]. intros p Hp. pose proof (comes_loaded _ _ _ Hp) as (Hl & Hpb & _). rewrite Hpb, N.eqb_refl. cbn [negb orb]. apply wp_if; intros Hk.
  - apply wp_fail, HE. right. intros [_ Hh]. destruct (Hh p Hp) as [_ Hk']. by rewrite bool_decide_eq_true_2 in Hk.
  - apply negb_false_iff, bool_decide_eq_true_1 in Hk. apply wp_bind, wp_lift; [by apply page_validate_safe| |].
    + intros [] Hv. apply wp_ret, HQ; [by split|done].
    + intros e He. apply HE. right. intros [_ Hh]. destruct (Hh p Hp) as [Hv _]. by rewrite Hv in He.
Qed.
Lemma wp_allocate d (Q : N -> Disk -> Prop) E : len d < 2 ^ 32 -> (len d < NO_BLOCK -> Q (len d) (d ++ [[]])) -> (faulty -> E d) -> (faulty \/ len d = NO_BLOCK -> E (d ++ [[]])) -> wp d allocate Q E.
Proof.
  intros Hd HQ H1 H2. unfold allocate. apply wp_bind, wp_interrupt; [|auto]. apply wp_bind, wp_blocks; [done| |auto]. apply wp_bind, wp_extend; [done| |auto|auto]. rewrite N.eqb_refl. cbn [negb orb]. apply wp_if; intros Hb.
  - apply wp_fail, H2. right. by apply N.eqb_eq.
  - apply N.eqb_neq in Hb. apply wp_bind, wp_event; [|auto]. apply wp_ret, HQ. unfold NO_BLOCK, u32_max in *. change (2 ^ 32) with 4294967296 in Hd. lia.
Qed.


(** ** What a loaded page stands for *)
Lemma loaded_page_ok d b p : loaded d b p -> loaded_page p /\ Page.block p = b /\ index d b = Some (used p).
Proof. intros [H _]. by apply comes_loaded. Qed.
Lemma loaded_sound d b p : loaded d b p -> Page.kind p <> PageKind.Zero -> page_sound p.
Proof. intros ((_ & [?|?]) & _)%loaded_page_ok Hk; [done|done]. Qed.
Lemma loaded_fits d b p : loaded d b p -> page_fits p.
Proof. by intros ([? _] & _)%loaded_page_ok. Qed.
Lemma loaded_represents d b p : loaded d b p -> Page.kind p <> PageKind.Zero -> (b = 0 <-> Page.kind p = PageKind.Meta) /\ represents Host.layout p.
Proof.
  intros Hl Hk. pose proof Hl as [_ Hv]. apply loaded_page_ok in Hl as (Hl & <- & _). by apply (page_validate_exact Host.layout p law_layout Hl Hk) in Hv.
Qed.
Ltac other_kind Hk := exfalso; congruence.
Lemma loaded_meta d b p : loaded d b p -> Page.kind p = PageKind.Meta -> b = 0 /\ exists s, group_meta_rep Host.layout p s.
Proof.
  intros Hl Hk. destruct (loaded_represents d b p Hl) as [Hb H]; [by rewrite Hk|]. split; [by apply Hb|].
  destruct H as [|s H|next l [? _]|packed next l []|term next l roots [[]]| | | |]; try congruence; [by exists s|by rewrite Hk in *].
Qed.
Lemma loaded_owners d b p : loaded d b p -> Page.kind p = PageKind.Owners -> exists next l, owners_rep Host.layout p next l.
Proof.
  intros Hl Hk. destruct (loaded_represents d b p Hl) as [Hb H]; [by rewrite Hk|].
  destruct H as [|s [(_ & ? & _) _]|next l H|packed next l []|term next l roots [[]]| | | |]; try congruence; [by exists next, l|by rewrite Hk in *].
Qed.
Lemma loaded_dictionary d b p : loaded d b p -> Page.kind p = PageKind.Dictionary -> exists packed next l, dict_rep packed p next l.
Proof.
  intros Hl Hk. destruct (loaded_represents d b p Hl) as [Hb H]; [by rewrite Hk|].
  destruct H as [|s [(_ & ? & _) _]|next l [? _]|packed next l H|term next l roots [[]]| | | |]; try congruence; [by exists packed, next, l|by rewrite Hk in *].
Qed.
Lemma loaded_postings d b p : loaded d b p -> PostingPage.is_posting (Page.kind p) = true -> exists term next l roots, posting_valid Host.layout p term next l roots.
Proof.
  intros Hl Hk. destruct (loaded_represents d b p Hl) as [Hb H]; [by intros E; rewrite E in Hk|].
  destruct H as [E|s [(_ & E & _) _]|next l [E _]|packed next l [E]|term next l roots H|pre x E|pre id lv l E|pre o off pl E|E]; try (by rewrite E in Hk); by exists term, next, l, roots.
Qed.
Lemma loaded_free d b p : loaded d b p -> Page.kind p = PageKind.Free -> Page.length_ p = PAGE_HEADER.
Proof.
  intros Hl Hk. destruct (loaded_represents d b p Hl) as [Hb H]; [by rewrite Hk|].
  destruct H as [|s [(_ & ? & _) _]|next l [? _]|packed next l []|term next l roots [[]]| | | |]; try congruence; by rewrite Hk in *.
Qed.

(** ** Chains *)
Lemma if_ok {A} (b : bool) (m n : Result A) a : (if b then m else n) = Ok a <-> b = true /\ m = Ok a \/ b = false /\ n = Ok a.
Proof. destruct b; naive_solver. Qed.
Lemma new_safe block k : safe (Page.new block k).
Proof. unfold Page.new. repeat safe_step. Qed.
Lemma postings_safe block term : safe (Page.postings block term).
Proof.
  unfold Page.postings. apply safe_if; [done|]. intros _. apply safe_bind; [apply new_safe|]. intros q (Hne & Hm & tag & _ & ->)%new_ok. set (p := Page.set_length _ _). assert (Hp : page_fits p) by done.
  rewrite put_u32_ok by (done || (unfold CAPACITY; lia)). cbn [rbind]. by rewrite put_u16_ok by (done || (unfold CAPACITY; lia)).
Qed.
Lemma bucket_safe p b : page_fits p -> safe (Page.bucket p b).
Proof. intros Hp. unfold Page.bucket. page_safe Hp. Qed.
Lemma following_safe p tail : page_fits p -> safe (following p tail).
Proof. intros Hp. unfold following. apply safe_if; [done|]. intros _. apply safe_bind; [by apply page_next_safe|]. intros n _. by apply safe_if. Qed.
Lemma following_some p tail next : following p tail = Ok (Some next) -> Page.block p <> tail /\ Page.next p = Ok next /\ Page.block p < next <= tail /\ next <> NO_BLOCK.
Proof.
  unfold following. intros H. apply if_ok in H as [[_ H]|[Hb H]]; [by apply Ok_inj in H|]. apply rbind_ok in H as (n & Hn & H). apply if_err_ok in H as [Hv H]. apply Ok_inj in H as [= ->].
  apply orb_false_iff in Hv as [Hv H3%N.leb_gt]. apply orb_false_iff in Hv as [H1%N.eqb_neq H2%N.ltb_ge]. apply N.eqb_neq in Hb. by split_and!.
Qed.
Lemma find_entry_in_safe bucket text found reference entry : safe (find_entry_in bucket text found reference entry).
Proof. unfold find_entry_in. apply safe_if; [done|]. intros _. apply safe_if; [|done]. intros _. by apply safe_if. Qed.
Lemma dictionary_long d b p : loaded d b p -> Page.kind p = PageKind.Dictionary -> 16 <= Page.length_ p.
Proof. intros Hl Hk. assert (Hs : page_sound p) by (eapply loaded_sound; [exact Hl|by rewrite Hk]). apply Hs. Qed.
(** What [find_term] returns: a dictionary page of the disk and a reference. *)
Definition found_in (d : Disk) (found : option (Page.t * TermRef)) : Prop :=
  match found with Some (p, _) => loaded d (Page.block p) p /\ Page.kind p = PageKind.Dictionary | None => True end.
Lemma wp_find_loop d bucket text tail (Q : option (Page.t * TermRef) -> Disk -> Prop) E fuel : forall block found, len d < 2 ^ 32 -> found_in d found -> (N.to_nat (tail - block) < fuel)%nat ->
  (forall found, found_in d found -> Q found d) -> E d -> wp d (find_loop fuel bucket text tail block found) Q E.
Proof.
  induction fuel as [|fuel IH]; intros block found Hd Hf Hfuel HQ HE; [lia|]. cbn [find_loop]. apply wp_bind, wp_load; [done| |done]. intros p Hp Hk.
  pose proof (loaded_fits _ _ _ Hp) as Hfit. pose proof (loaded_page_ok _ _ _ Hp) as (_ & Hb & _).
  apply wp_bind, wp_lift; [apply each_term_safe; [done|by eapply dictionary_long|]; intros; apply find_entry_in_safe| |done]. intros reference Hr.
  apply wp_bind, wp_lift; [by apply following_safe| |done]. intros next Hn.
  assert (Hf' : found_in d match reference with Some reference => Some (p, reference) | None => found end) by (destruct reference; [by rewrite <- Hb in Hp|done]).
  destruct next as [next|]; [|by apply wp_ret, HQ]. apply following_some in Hn as (_ & _ & Hn & _). apply IH; try done. lia.
Qed.
Lemma wp_find_term d meta text (Q : option (Page.t * TermRef) -> Disk -> Prop) E : len d < 2 ^ 32 -> page_fits meta -> (forall found, found_in d found -> Q found d) -> E d -> wp d (find_term meta text) Q E.
Proof.
  intros Hd Hm HQ HE. unfold find_term. apply wp_bind, wp_lift; [by apply bucket_safe| |done]. intros [head tail] _. apply wp_if; intros _; [by apply wp_ret, HQ|]. apply wp_find_loop; try done. unfold chain_fuel. lia.
Qed.
Lemma posting_next_safe p tail remaining : page_fits p -> safe (posting_next p tail remaining).
Proof. intros Hp. unfold posting_next. apply safe_if; [done|]. intros _. apply safe_if; [done|]. intros _. apply safe_bind; [by apply page_next_safe|]. intros n _. by apply safe_if. Qed.
Lemma posting_next_some p tail remaining next r : posting_next p tail remaining = Ok (Some next, r) -> Page.block p <> tail /\ Page.next p = Ok next /\ next <> NO_BLOCK /\ 0 < r < remaining.
Proof.
  unfold posting_next. intros H. apply if_err_ok in H as [Hr%N.eqb_neq H]. apply if_ok in H as [[_ H]|[Hb H]]; [by apply Ok_inj in H|]. apply rbind_ok in H as (n & Hn & H). apply if_err_ok in H as [Hv H]. apply Ok_inj in H as [= -> <-].
  apply orb_false_iff in Hv as [H1%N.eqb_neq H2%N.eqb_neq]. apply N.eqb_neq in Hb. split_and!; try done; lia.
Qed.
Lemma postings_fresh block term p : block < 2 ^ 32 -> term_page term < 2 ^ 32 -> term_offset term < 2 ^ 16 -> Page.postings block term = Ok p ->
  posting_rep p term NO_BLOCK [] [] /\ page_sound p /\ Page.block p = block /\ Page.kind p = PageKind.Postings /\ Page.length_ p = 24 /\ Page.initialize p = false.
Proof.
  intros Hb Ht1 Ht2 H. unfold Page.postings in H. apply if_err_ok in H as [_ H]. apply rbind_ok in H as (q & Hq & H). apply new_sound in Hq as Hs; [|done]. destruct Hs as (Hs & Hqb & Hqk & Hql).
  apply new_ok in Hq as (Hne & Hm & tag & [= <-] & ->). set (q := Page.set_length _ _) in H. assert (Hq : page_fits q) by done.
  assert (Hsq : page_sound q) by (apply length_sound; [exact Hs|by vm_compute]). apply rbind_ok in H as (q' & Hq' & H). assert (Hsp : page_sound p) by (eapply put_u16_sound; [exact H|lia|]; eapply put_u32_sound; [exact Hq'|lia|done]).
  rewrite put_u32_ok in Hq' by (done || (unfold CAPACITY; lia)). apply Ok_inj in Hq' as <-. rewrite put_u16_ok in H by (done || (unfold CAPACITY; lia)). apply Ok_inj in H as <-.
  split; [|by split_and!]. constructor; cbn [Page.kind Page.block Page.buffer Page.length_ Page.set_buffer Page.set_length]; try done; [split; [done|by left]|]. by exists (drop 24 Page.zeros).
Qed.
(** The page that stands in for the owner a dictionary entry holds itself. *)
Definition stand_in (block : N) (term : TermRef) (p : Page.t) : Prop := exists o, ref_wf o /\ posting_rep p term NO_BLOCK [o] [] /\ Page.block p = block /\ Page.kind p = PageKind.Postings.
Lemma entry_of_ok {R} packed blk l reference (f : list Entry -> Entry -> list Entry -> Result R) r : entry_of packed blk l reference f = Ok r ->
  term_page reference = blk /\ exists pre e suf, l = pre ++ e :: suf /\ term_offset reference = PAGE_HEADER + len (entries packed pre) /\ find_entry packed PAGE_HEADER l (term_offset reference) = Some (pre, e, suf) /\ f pre e suf = Ok r.
Proof.
  unfold entry_of. intros H. apply if_err_ok in H as [Hp%negb_false_iff%N.eqb_eq H]. split; [done|]. destruct (find_entry packed PAGE_HEADER l (term_offset reference)) as [[[pre e] suf]|] eqn:Ef; [|done].
  pose proof (find_entry_some _ _ _ _ _ _ _ Ef) as [El Eo]. by exists pre, e, suf.
Qed.
(** A reference that names an entry is in range. *)
Lemma dict_reference packed p next l reference r : dict_rep packed p next l -> TermPage.term p reference = Ok r -> term_page reference < 2 ^ 32 /\ term_offset reference < 2 ^ 16 /\ 16 <= term_offset reference.
Proof.
  intros Hrep H. rewrite (term_ok packed p next l) in H by done. apply entry_of_ok in H as (Hb & pre & e & suf & -> & Ho & _ & _). destruct Hrep as [_ _ Hlen Hshort [Hblk _] _ _ _]. rewrite entries_app, len_app in Hlen.
  split; [by rewrite Hb|]. unfold CAPACITY, PAGE_HEADER in *. change (2 ^ 16) with 65536. lia.
Qed.
Lemma virtual_posting_safe d b q term : loaded d b q -> Page.kind q = PageKind.Dictionary -> b < 2 ^ 32 -> safe (virtual_posting q b term) /\ forall p, virtual_posting q b term = Ok p -> stand_in b term p.
Proof.
  intros Hl Hk Hb. destruct (loaded_dictionary d b q Hl Hk) as (packed & next & l & Hrep). unfold virtual_posting.
  destruct (TermPage.term q term) as [entry|e|] eqn:Et; cbn [rbind]; [|done|exfalso; eapply term_safe; [by eapply loaded_fits|by eapply dictionary_long|exact Et]].
  pose proof (dict_reference _ _ _ _ _ _ Hrep Et) as (Ht1 & Ht2 & _). rewrite (term_ok packed q next l) in Et by done. apply entry_of_ok in Et as (_ & pre & e & suf & -> & _ & _ & Et). apply Ok_inj in Et as <-. cbn [t_inline t_shadow t_head t_tail entry_term].
  pose proof (entry_wf_at _ _ _ _ Hrep pre e suf eq_refl) as (_ & _ & _ & _ & _ & _ & Hw).
  assert (Ho : forall o, match inline_of (e_second e) with Some o => Some o | None => shadow_of (e_second e) end = Some o -> ref_wf o).
  { intros o Ho. destruct packed; [|by rewrite Hw in Ho]. unfold second_wf in Hw. destruct (e_second e); cbn in Ho; [done|by injection Ho as <-; destruct Hw|by injection Ho as <-; destruct Hw]. }
  destruct (match inline_of (e_second e) with Some o => Some o | None => shadow_of (e_second e) end) as [o|]; cbn [ok_or rbind]; [|done]. specialize (Ho o eq_refl).
  destruct (negb (is_none (inline_of (e_second e))) && _); [done|].
  destruct (Page.postings b term) as [p0|err|] eqn:Ep; cbn [rbind]; [|done|].
  - apply postings_fresh in Ep as (Hrep0 & _ & Hb0 & Hk0 & Hlen0 & _); [|done|done|done].
    pose proof (append_posting_ok p0 term NO_BLOCK [] [] o Hrep0 Hk0 Ho) as Ha. rewrite Hlen0 in Ha. change (CAPACITY <? 24 + 16) with false in Ha. destruct Ha as (p1 & Ea & Hrep1 & Hb1 & Hk1 & _). rewrite Ea. cbn [rbind negb].
    split; [done|]. intros p H. apply Ok_inj in H as <-. exists o. split_and!; try done. by rewrite Hb1.
  - exfalso. revert Ep. apply postings_safe.
Qed.
Lemma wp_load_posting d b term (Q : Page.t -> Disk -> Prop) E : len d < 2 ^ 32 ->
  (forall p, loaded d b p -> PostingPage.posting_term p = Ok term -> Q p d) -> (forall q p, loaded d b q -> Page.kind q = PageKind.Dictionary -> virtual_posting q b term = Ok p -> stand_in b term p -> Q p d) -> E d ->
  wp d (load_posting b term) Q E.
Proof.
  intros Hd HQ HV HE. unfold load_posting. apply wp_bind, wp_load_any; [done| |done]. intros q Hq. apply wp_if; intros Hk.
  - apply bool_decide_eq_true_1 in Hk. pose proof (loaded_page_ok _ _ _ Hq) as (_ & _ & Hi). apply index_bound in Hi. destruct (virtual_posting_safe d b q term Hq Hk ltac:(lia)) as [Hs Hv].
    apply wp_lift; [done| |done]. intros p Hp. eapply HV; [exact Hq|done|exact Hp|by apply Hv].
  - apply wp_bind, wp_lift; [apply posting_term_safe; by eapply loaded_fits| |done]. intros own Ho. apply wp_if; intros Ht; [by apply wp_fail|].
    apply negb_false_iff, bool_decide_eq_true_1 in Ht as ->. by apply wp_ret, HQ.
Qed.
End Wp.
