(* ===== verification/Document.v ===== *)
(** Document payloads: [src/crates/pin-core/src/mutable/document.rs].

    A document is stored as its distinct terms in byte order, each with the positions
    it occurs at. [PreparedDocument.prepare] builds the payload from an analysis,
    [validate] checks one that comes from disk, and [phrase_matches], [SelectedPositions]
    and [TermMembership] answer questions from it without decoding the rest. *)
From Stdlib Require Import Sorting.Sorted.
From S2P Require Export Pages Positions.

Definition DOCUMENT_HEADER : N := 16.
Definition PD02 : list byte := [byte_of 80; byte_of 68; byte_of 48; byte_of 50].
(** [size_of::<Token<'_>>()] *)
Definition token_size : N := 24.

(** * The terms of a payload *)
Record DocumentTerm : Type := mkDocumentTerm { dt_term : list byte; dt_positions : list byte }.
(** [DocumentTerm::positions] *)
Definition term_positions (self : DocumentTerm) : Result Positions := lift_codec (Positions.parse (dt_positions self) MAX_DOCUMENT_TOKENS).

Module DocumentTerms.
Record t : Type := mk { reader : Reader.t; remaining : N }.
(** The closure of [Iterator::next]. *)
Definition entry (self : t) : Result (DocumentTerm * Reader.t) :=
  let* '(size, reader) := lift_codec (Reader.u16 (reader self)) in
  if (size =? 0) || (MAX_TERM_BYTES <? size) then Err InvalidDocument else
  let* '(reserved, reader) := lift_codec (Reader.u16 reader) in
  if negb (reserved =? 0) then Err InvalidDocument else
  let* '(position_bytes, reader) := lift_codec (Reader.u32 reader) in
  let* '(term, reader) := lift_codec (Reader.take reader size) in
  if negb (utf8_valid term) then Err InvalidDocument else
  let* '(positions, reader) := lift_codec (Reader.take reader position_bytes) in
  let* _ := if remaining self - 1 =? 0 then lift_codec (Reader.finish reader) else Ok tt in
  Ok (mkDocumentTerm term positions, reader).
(** [Iterator::next] *)
Definition next (self : t) : option (Result DocumentTerm) * t :=
  if remaining self =? 0 then (None, self) else
  match entry self with
  | Ok (term, r) => (Some (Ok term), mk r (remaining self - 1))
  | Err e => (Some (Err e), mk (reader self) 0)
  | Panic => (Some Panic, self)
  end.
(** All that the iterator yields; every term uses up bytes, so their number bounds it. *)
Fixpoint items_fuel (fuel : nat) (self : t) : list (Result DocumentTerm) :=
  match fuel with
  | O => []
  | S fuel => match next self with (None, _) => [] | (Some r, self) => r :: items_fuel fuel self end
  end.
Definition items (self : t) : list (Result DocumentTerm) := items_fuel (S (N.to_nat (Reader.remaining (reader self)))) self.
(** [for entry in iter { let entry = entry?; .. }] *)
Definition each {S} (f : S -> DocumentTerm -> Result S) (s : S) (self : t) : Result S :=
  foldM (fun s entry => let* entry := entry in f s entry) s (items self).
End DocumentTerms.

(** [for position in positions.iter() { let position = position?; .. }]; the count of
    the positions that remain bounds the loop. *)
Fixpoint each_position_fuel {S} (f : S -> N -> Result S) (fuel : nat) (s : S) (it : PositionIter) : Result S :=
  match fuel with
  | O => Panic
  | S fuel =>
      match Positions.next it with
      | (None, _) => Ok s
      | (Some position, it) => let* position := lift_codec position in let* s := f s position in each_position_fuel f fuel s it
      end
  end.
Definition each_position {S} (f : S -> N -> Result S) (s : S) (view : Positions) : Result S :=
  each_position_fuel f (N.to_nat (count view) + 2) s (Positions.iter view).

(** * Validation *)
(** The bitmap of the positions that were met, and their number. *)
Definition mark (tokens : N) (state : list N * N) (position : N) : Result (list N * N) :=
  let '(seen, total) := state in
  if tokens <=? position then Err InvalidDocument else
  let* word := or_panic (index seen (position / 64)) in
  let bit := N.shiftl 1 (position mod 64) in
  if negb (N.land word bit =? 0) then Err InvalidDocument else
  let* total := add_w 32 total 1 in
  Ok (<[N.to_nat (position / 64) := N.lor word bit]> seen, total).
Section Memory.
Context (grow : N -> option N).
(** [validate_inner]; [on_term] threads its own state. *)
Definition check_term {S} (on_term : S -> list byte -> Positions -> Result S) (tokens : N) (state : S * list byte * (list N * N)) (entry : DocumentTerm)
  : Result (S * list byte * (list N * N)) :=
  let '(s, previous, seen) := state in
  if bytes_leb (dt_term entry) previous then Err InvalidDocument else
  let* positions := term_positions entry in
  if count positions =? 0 then Err InvalidDocument else
  let* s := on_term s (dt_term entry) positions in
  let* seen := each_position (mark tokens) seen positions in
  Ok (s, dt_term entry, seen).
Definition read_head (bytes : list byte) : Result (N * N * Reader.t) :=
  let* '(magic, reader) := lift_codec (Reader.take (Reader.new bytes) 4) in
  if negb (bool_decide (magic = PD02)) then Err InvalidProfile else
  let* '(profile, reader) := lift_codec (Reader.u32 reader) in
  if negb (profile =? PROFILE_ID) then Err InvalidProfile else
  let* '(tokens, reader) := lift_codec (Reader.u32 reader) in
  let* '(terms, reader) := lift_codec (Reader.u32 reader) in
  Ok (tokens, terms, reader).
Definition validate_inner {S} (bytes : list byte) (memory_bytes : N) (on_term : S -> list byte -> Positions -> Result S) (s : S) : Result (N * N * S) :=
  if MAX_DOCUMENT_BYTES <? len bytes then Err (Limit "document payload") else
  let* '(tokens, terms, reader) := read_head bytes in
  if (MAX_DOCUMENT_TOKENS <? tokens) || (tokens <? terms) then Err InvalidDocument else
  if terms =? 0 then
    let* _ := lift_codec (Reader.finish reader) in
    if tokens =? 0 then Ok (0, 0, s) else Err InvalidDocument
  else
  let words := div_ceil tokens 64 in
  let* '(seen, _) := vector grow 8 words (budget_new memory_bytes) in
  let seen := items seen ++ replicate (N.to_nat words) 0 in
  let* '(s, _, (_, total)) := DocumentTerms.each (check_term on_term tokens) (s, [], (seen, 0)) (DocumentTerms.mk reader terms) in
  if negb (total =? tokens) then Err InvalidDocument else Ok (tokens, terms, s).
(** [validate] *)
Definition validate (bytes : list byte) (memory_bytes : N) : Result (N * N) :=
  let* '(tokens, terms, _) := validate_inner bytes memory_bytes (fun s _ _ => Ok s) tt in Ok (tokens, terms).
(** [validated_terms] *)
Definition validated_terms (bytes : list byte) (expected_tokens expected_terms memory_bytes : N) : Result DocumentTerms.t :=
  let* '(tokens, terms) := validate bytes memory_bytes in
  if negb (tokens =? expected_tokens) || negb (terms =? expected_terms) then Err InvalidDocument else
  let* rest := or_panic (slice_from bytes DOCUMENT_HEADER) in
  Ok (DocumentTerms.mk (Reader.new rest) terms).
End Memory.

(** * Preparation *)
(** The order of [sort_unstable_by]: a term, then a position; an insertion sort gives the
    one sorted list of tokens whose positions differ. *)
Definition token_leb (a b : Token) : bool :=
  match bytes_cmp (term a) (term b) with Lt => true | Eq => position a <=? position b | Gt => false end.
Fixpoint token_insert (t : Token) (l : list Token) : list Token :=
  match l with [] => [t] | u :: l' => if token_leb t u then t :: l else u :: token_insert t l' end.
Definition sort_tokens (l : list Token) : list Token := foldr token_insert [] l.
(** [slice::chunk_by] *)
Fixpoint chunk_by {A} (same : A -> A -> bool) (l : list A) : list (list A) :=
  match l with
  | [] => []
  | a :: l =>
      match chunk_by same l with
      | (b :: g) :: gs => if same a b then (a :: b :: g) :: gs else [a] :: (b :: g) :: gs
      | gs => [a] :: gs
      end
  end.
Definition token_groups (l : list Token) : list (list Token) := chunk_by (fun a b => bool_decide (term a = term b)) l.
(** The size of the deltas of a group, added to four bytes of count. *)
Definition group_size (w : N) (group : list Token) : Result N :=
  let* '(size, _) := foldM (fun '(size, previous) token =>
    let* delta := sub_w (position token) previous in
    let* size := add_w w size (var_u32_len delta) in
    Ok (size, position token)) (4, 0) group in
  Ok size.
Module PreparedDocument.
Record t : Type := mk { bytes : list byte; tokens : N; terms : N }.
(** The two loops of [prepare] over the groups: measuring and writing. *)
Definition measure (state : N * N) (group : list Token) : Result (N * N) :=
  let '(terms, length) := state in
  let* first := or_panic (head group) in
  let term := Analysis.term first in
  if (len term =? 0) || (MAX_TERM_BYTES <? len term) then Err (Limit "term bytes") else
  let* terms := ok_or (checked_add 32 terms 1) (Limit "document terms") in
  let* position_bytes := group_size usize group in
  let* more := add_w usize 8 (len term) in
  let* more := add_w usize more position_bytes in
  let* length := ok_or (checked_add usize length more) (Limit "document payload") in
  Ok (terms, length).
Definition write_group (writer : Writer.t) (group : list Token) : Result Writer.t :=
  let* first := or_panic (head group) in
  let term := Analysis.term first in
  let* position_bytes := group_size 32 group in
  let* writer := lift_codec (Writer.u16 writer (trunc 16 (len term))) in
  let* writer := lift_codec (Writer.u16 writer 0) in
  let* writer := lift_codec (Writer.u32 writer position_bytes) in
  let* writer := lift_codec (Writer.put writer term) in
  let* writer := lift_codec (Writer.u32 writer (trunc 32 (len group))) in
  let* '(writer, _) := foldM (fun '(writer, previous) token =>
    let* delta := sub_w (position token) previous in
    let* writer := lift_codec (Writer.var_u32 writer delta) in
    Ok (writer, position token)) (writer, 0) group in
  Ok writer.
Section Prepare.
Context (grow : N -> option N).
(** [PreparedDocument::prepare] *)
Definition prepare (document : Analyzed) (memory_bytes : N) : Result t :=
  let length := token_count document in
  if MAX_DOCUMENT_TOKENS <? length then Err (Limit "document positions") else
  let* budget := try_budget (charge (budget_new memory_bytes) (retained_bytes document)) in
  let* '(tokens, budget) := vector grow token_size length budget in
  let* tokens := foldM (fun v token => let* token := token in Ok (vec_push v token)) tokens (Analysis.tokens document) in
  let groups := token_groups (sort_tokens (items tokens)) in
  let* '(terms, size) := foldM measure (0, DOCUMENT_HEADER) groups in
  if MAX_DOCUMENT_BYTES <? size then Err (Limit "document payload") else
  let* '(bytes, _) := vector grow 1 size budget in
  let output := items bytes ++ replicate (N.to_nat size) (byte_of 0) in
  let* writer := lift_codec (Writer.put (Writer.new output) PD02) in
  let* writer := lift_codec (Writer.u32 writer PROFILE_ID) in
  let* writer := lift_codec (Writer.u32 writer length) in
  let* writer := lift_codec (Writer.u32 writer terms) in
  let* writer := foldM write_group writer groups in
  Ok (mk (Writer.bytes writer) length terms).
(** [PreparedDocument::copy_from_bytes] *)
Definition copy_from_bytes (input : list byte) (memory_bytes : N) : Result t :=
  let* '(tokens, terms) := validate grow input memory_bytes in
  let* '(bytes, _) := vector grow 1 (len input) (budget_new memory_bytes) in
  Ok (mk (items bytes ++ input) tokens terms).
End Prepare.
(** [PreparedDocument::terms] *)
Definition document_terms (self : t) : Result DocumentTerms.t :=
  let* rest := or_panic (slice_from (bytes self) DOCUMENT_HEADER) in
  Ok (DocumentTerms.mk (Reader.new rest) (terms self)).
End PreparedDocument.

(** * Phrases *)
(** The loop that moves one cursor to a target: its cursor, the position it holds, and
    whether it met the target. *)
Fixpoint advance (fuel : nat) (cursor : PositionIter) (current : option N) (target : N) : Result (PositionIter * option N * bool) :=
  match fuel with
  | O => Panic
  | S fuel =>
      let* '(value, cursor) :=
        match current with
        | Some value => Ok (Some value, cursor)
        | None => match Positions.next cursor with
                  | (None, cursor) => Ok (None, cursor)
                  | (Some r, cursor) => let* value := lift_codec r in Ok (Some value, cursor)
                  end
        end in
      match value with
      | Some v => if v <? target then advance fuel cursor None target else Ok (cursor, value, v =? target)
      | None => Ok (cursor, None, false)
      end
  end.
Definition Cursors : Type := list (option PositionIter * option N).
(** One position of the anchor against the other cursors, from an index on. [None]: a
    target overflows, and the phrase is refused. *)
Fixpoint match_at (n : nat) (anchor start : N) (i : N) (cursors : Cursors) : Result (Cursors * option bool) :=
  match n with
  | O => Ok (cursors, Some true)
  | S n =>
      if i =? anchor then match_at n anchor start (i + 1) cursors else
      match checked_add 32 start i with
      | None => Ok (cursors, None)
      | Some target =>
          let* '(cursor, current) := or_panic (index cursors i) in
          let* cursor := ok_or cursor InvalidState in
          let* '(cursor, current, matched) := advance (N.to_nat (remaining cursor) + 3) cursor current target in
          let cursors := <[N.to_nat i := (Some cursor, current)]> cursors in
          if matched then match_at n anchor start (i + 1) cursors else Ok (cursors, Some false)
      end
  end.
(** The state of the loop over the anchor: the cursors until the answer is known. *)
Definition match_step (n : nat) (anchor : N) (state : Cursors + bool) (position : N) : Result (Cursors + bool) :=
  match state with
  | inr answer => Ok (inr answer)
  | inl cursors =>
      match checked_sub position anchor with
      | None => Ok (inl cursors)
      | Some start =>
          let* '(cursors, matched) := match_at n anchor start 0 cursors in
          Ok (match matched with None => inr false | Some true => inr true | Some false => inl cursors end)
      end
  end.
(** [min_by_key]: the first index with the least key. *)
Fixpoint min_index (best : option (N * N)) (i : N) (l : list N) : option N :=
  match l with
  | [] => snd <$> best
  | x :: l => min_index (match best with Some (y, j) => if x <? y then Some (x, i) else best | None => Some (x, i) end) (i + 1) l
  end.
Definition view_len (view : option Positions) : N := match view with Some view => count view | None => u32_max end.
(** [match_phrase]; the anchor's positions stop being read once the answer is known. *)
Fixpoint scan_anchor (n : nat) (anchor : N) (fuel : nat) (cursors : Cursors) (it : PositionIter) : Result bool :=
  match fuel with
  | O => Panic
  | S fuel =>
      match Positions.next it with
      | (None, _) => Ok false
      | (Some position, it) =>
          let* position := lift_codec position in
          let* state := match_step n anchor (inl cursors) position in
          match state with inr answer => Ok answer | inl cursors => scan_anchor n anchor fuel cursors it end
      end
  end.
Definition match_phrase (positions : list (option Positions)) : Result bool :=
  if existsb (fun view => match view with None => true | Some _ => false end) positions then Ok false else
  let* anchor := ok_or (min_index None 0 (map view_len positions)) InvalidState in
  let* first := or_panic (index positions anchor) in
  let* first := ok_or first InvalidState in
  let cursors := map (fun view => (option_map Positions.iter view, None)) positions in
  scan_anchor (length positions) anchor (N.to_nat (count first) + 2) cursors (Positions.iter first).
(** The view of a term is put at every index that asks for it. *)
Definition select (wanted : list (list byte)) (views : list (option Positions)) (term : list byte) (view : Positions) : list (option Positions) :=
  zip_with (fun name old => if bool_decide (name = term) then Some view else old) wanted views.
Definition no_views (wanted : list (list byte)) : list (option Positions) := replicate (length wanted) None.
(** [phrase_matches] *)
Definition phrase_matches (grow : N -> option N) (bytes : list byte) (expected_tokens expected_terms : N) (phrase : list (list byte)) (memory_bytes : N) : Result bool :=
  if (len phrase =? 0) || (64 <? len phrase) then Err (Limit "phrase terms") else
  let* '(tokens, terms, views) := validate_inner grow bytes memory_bytes (fun views term view => Ok (select phrase views term view)) (no_views phrase) in
  if negb (tokens =? expected_tokens) || negb (terms =? expected_terms) then Err InvalidDocument else
  match_phrase views.

Module SelectedPositions.
(** [SelectedPositions]: the views up to [selected]. *)
Record t : Type := mk { positions : list (option Positions); directory_terms : N; selected_positions : N }.
(** The head shared with [TermMembership::read]. *)
Definition checked_head (bytes : list byte) (expected_tokens expected_terms : N) : Result (N * N * Reader.t) :=
  let* '(tokens, terms, reader) := read_head bytes in
  if negb (tokens =? expected_tokens) || negb (terms =? expected_terms) || (MAX_DOCUMENT_TOKENS <? tokens) || (tokens <? terms)
  then Err InvalidDocument else Ok (tokens, terms, reader).
(** The count of a term's positions, which are not decoded. *)
Definition term_count (tokens : N) (positions : list byte) : Result N :=
  let* '(count, encoded) := lift_codec (Reader.u32 (Reader.new positions)) in
  if (count =? 0) || (tokens <? count) || (Reader.remaining encoded <? count) then Err InvalidDocument else Ok count.
Definition read_term (wanted : list (list byte)) (tokens : N) (state : t * list byte * N) (entry : DocumentTerm) : Result (t * list byte * N) :=
  let '(result, previous, total) := state in
  if bytes_leb (dt_term entry) previous then Err InvalidDocument else
  let* count := term_count tokens (dt_positions entry) in
  let* total := ok_or (checked_add 32 total count) InvalidDocument in
  if negb (existsb (fun name => bool_decide (name = dt_term entry)) wanted) then Ok (result, dt_term entry, total) else
  let* view := term_positions entry in
  let* _ := each_position (fun (_ : unit) position => if tokens <=? position then Err InvalidDocument else Ok tt) tt view in
  let* selected := ok_or (checked_add 32 (selected_positions result) count) InvalidDocument in
  Ok (mk (select wanted (positions result) (dt_term entry) view) (directory_terms result) selected, dt_term entry, total).
(** [SelectedPositions::read] *)
Definition read (bytes : list byte) (expected_tokens expected_terms : N) (wanted : list (list byte)) : Result t :=
  if (len wanted =? 0) || (64 <? len wanted) || (MAX_DOCUMENT_BYTES <? len bytes) then Err (Limit "selected positions") else
  let* '(tokens, terms, reader) := checked_head bytes expected_tokens expected_terms in
  let* _ := if terms =? 0 then lift_codec (Reader.finish reader) else Ok tt in
  let* '(result, _, total) := DocumentTerms.each (read_term wanted tokens) (mk (no_views wanted) terms 0, [], 0) (DocumentTerms.mk reader terms) in
  if negb (total =? tokens) then Err InvalidDocument else Ok result.
(** [SelectedPositions::phrase_matches] *)
Definition phrase_matches (self : t) : Result bool := match_phrase (positions self).
End SelectedPositions.

Module TermMembership.
(** [TermMembership]: the first [ordered] entries of [order] are indices of [names]. *)
Record t : Type := mk { names : list (option (list byte)); order : list N; ordered : N }.
(** The inner loop of [new]: the slot where a name goes, the later ones moved up. *)
Fixpoint place (fuel : nat) (names : list (option (list byte))) (name : list byte) (order : list N) (position : N) : Result (list N * N) :=
  if position =? 0 then Ok (order, 0) else
  match fuel with
  | O => Panic
  | S fuel =>
      let* previous := or_panic (index order (position - 1)) in
      let* previous_name := or_panic (index names previous) in
      let* previous_name := ok_or previous_name InvalidState in
      if bytes_leb previous_name name then Ok (order, position) else
      place fuel names name (<[N.to_nat position := previous]> order) (position - 1)
  end.
Definition add_name (names : list (option (list byte))) (state : list N * N) (entry : N * option (list byte)) : Result (list N * N) :=
  let '(order, ordered) := state in
  match snd entry with
  | None => Ok (order, ordered)
  | Some name =>
      let* '(order, position) := place (N.to_nat ordered) names name order ordered in
      Ok (<[N.to_nat position := trunc 8 (fst entry)]> order, ordered + 1)
  end.
(** [TermMembership::new] *)
Definition new (names : list (option (list byte))) : Result t :=
  if 64 <? len names then Err (Limit "document membership") else
  let* '(order, ordered) := foldM (add_name names) (replicate 64 0, 0) (imap (fun i name => (N.of_nat i, name)) names) in
  Ok (mk names order ordered).
(** The inner loop of [read]: the names up to a term, and the bits of those equal to it. *)
Fixpoint walk (fuel : nat) (self : t) (term : list byte) (query membership : N) : Result (N * N) :=
  if ordered self <=? query then Ok (query, membership) else
  match fuel with
  | O => Panic
  | S fuel =>
      let* index_ := or_panic (index (order self) query) in
      let* name := or_panic (index (names self) index_) in
      let* name := ok_or name InvalidState in
      if bytes_ltb name term then walk fuel self term (query + 1) membership else
      if negb (bool_decide (name = term)) then Ok (query, membership) else
      walk fuel self term (query + 1) (N.lor membership (N.shiftl 1 index_))
  end.
Definition read_term (self : t) (tokens : N) (state : Reader.t * option (list byte) * N * (N * N)) (_ : N) : Result (Reader.t * option (list byte) * N * (N * N)) :=
  let '(reader, previous, positions, (query, membership)) := state in
  let* '(size, reader) := lift_codec (Reader.u16 reader) in
  if (size =? 0) || (MAX_TERM_BYTES <? size) then Err InvalidDocument else
  let* '(reserved, reader) := lift_codec (Reader.u16 reader) in
  if negb (reserved =? 0) then Err InvalidDocument else
  let* '(position_bytes, reader) := lift_codec (Reader.u32 reader) in
  let* '(term, reader) := lift_codec (Reader.take reader size) in
  if negb (utf8_valid term) then Err InvalidDocument else
  if match previous with Some previous => bytes_leb term previous | None => false end then Err InvalidDocument else
  let* '(encoded, reader) := lift_codec (Reader.take reader position_bytes) in
  let* count := SelectedPositions.term_count tokens encoded in
  let* positions := ok_or (checked_add 32 positions count) InvalidDocument in
  let* walked := walk (N.to_nat (ordered self)) self term query membership in
  Ok (reader, Some term, positions, walked).
(** [TermMembership::read] *)
Definition read (self : t) (bytes : list byte) (expected_tokens expected_terms : N) : Result N :=
  if MAX_DOCUMENT_BYTES <? len bytes then Err (Limit "document membership") else
  let* '(tokens, terms, reader) := SelectedPositions.checked_head bytes expected_tokens expected_terms in
  let* '(reader, _, positions, (_, membership)) := foldM (read_term self tokens) (reader, None, 0, (0, 0)) (range 0 terms) in
  let* _ := lift_codec (Reader.finish reader) in
  if negb (positions =? tokens) then Err InvalidDocument else Ok membership.
End TermMembership.

(** * Reading any payload *)
Lemma lift_safe {A} (m : Codec.Result A) : safe m -> safe (lift_codec m).
Proof. unfold lift_codec. apply safe_map_err. Qed.
#[export] Hint Resolve lift_safe : pin.
Lemma document_entry_safe ts : safe (DocumentTerms.entry ts).
Proof. unfold DocumentTerms.entry. repeat safe_step. Qed.
Lemma document_entry_text ts t r : DocumentTerms.entry ts = Ok (t, r) -> 1 <= len (dt_term t) <= MAX_TERM_BYTES /\ utf8_valid (dt_term t) = true.
Proof.
  unfold DocumentTerms.entry. intros H. apply rbind_ok in H as ([n r1] & _ & H). apply if_err_ok in H as [Hn H]. apply orb_false_iff in Hn as [Hn1%N.eqb_neq Hn2%N.ltb_ge].
  apply rbind_ok in H as ([z r2] & _ & H). apply if_err_ok in H as [_ H]. apply rbind_ok in H as ([pb r3] & _ & H). apply rbind_ok in H as ([x r4] & Hx & H). apply lift_codec_ok in Hx.
  apply if_err_ok in H as [Hu%negb_false_iff H]. apply rbind_ok in H as ([y r5] & _ & H). apply rbind_ok in H as (_ & _ & H). apply Ok_inj in H. injection H as <- _. cbn [dt_term].
  split; [|done]. apply take_ok in Hx as (Hx & _). rewrite Hx. lia.
Qed.
Lemma document_next_cases ts r ts' : DocumentTerms.next ts = (Some r, ts') -> safe r /\ forall t, r = Ok t -> 1 <= len (dt_term t) <= MAX_TERM_BYTES /\ utf8_valid (dt_term t) = true.
Proof.
  unfold DocumentTerms.next. destruct (_ =? 0); [done|]. pose proof (document_entry_safe ts) as Hs. pose proof (document_entry_text ts) as Ht.
  destruct (DocumentTerms.entry ts) as [[t q]|e|]; intros [= <- _]; [|done|done]. split; [done|]. intros u Hu. apply Ok_inj in Hu as <-. by eapply Ht.
Qed.
Definition document_item_ok (r : Result DocumentTerm) : Prop := safe r /\ forall t, r = Ok t -> 1 <= len (dt_term t) <= MAX_TERM_BYTES /\ utf8_valid (dt_term t) = true.
Lemma document_items_ok fuel : forall ts, Forall document_item_ok (DocumentTerms.items_fuel fuel ts).
Proof.
  induction fuel as [|fuel IH]; intros ts; cbn [DocumentTerms.items_fuel]; [constructor|]. destruct (DocumentTerms.next ts) as [[r|] ts'] eqn:E; [|constructor]. constructor; [by eapply document_next_cases|apply IH].
Qed.
