(* ===== verification/Relation.v ===== *)
(** The owners of a relation on disk.

    What the mutable engine keeps of documents: a metapage at block 0 and a chain of
    owner pages in ascending blocks, whose slots carry the documents in the order they
    were reserved. [relation_rep] ties a disk to that state; it says nothing of the other
    blocks, so it holds whatever else is on the disk. *)
From Stdlib Require Import Sorting.Sorted.
From S2P Require Export Store.

(** * What is read of a page that was written *)
Definition reloaded (p : Page.t) : Page.t := Page.mk (Page.block p) (Page.kind p) (len (used p)) false (splice Page.zeros 0 (used p)).
Definition on_disk (d : Disk) (p : Page.t) : Prop := page_sound p /\ index d (Page.block p) = Some (used p).
Lemma used_split_at p : page_fits p -> exists rest, Page.buffer p = used p ++ rest.
Proof. intros _. exists (drop (N.to_nat (Page.length_ p)) (Page.buffer p)). unfold used. by rewrite take_drop. Qed.
Lemma comes_reloaded d p q : on_disk d p -> comes d (Page.block p) q -> q = reloaded p.
Proof.
  intros [Hs Hi] (bytes & Hb & Hr). rewrite Hi in Hb. injection Hb as <-. destruct (read_written p Hs) as (q' & Hq & _). rewrite Hr in Hq. apply Ok_inj in Hq as <-.
  apply read_fill_exact in Hr as Hx. destruct Hx as (k & _ & _ & ->). destruct (read_written p Hs) as (q' & Hq & _ & Hk & _). rewrite Hr in Hq. apply Ok_inj in Hq as <-. cbn [Page.kind] in Hk. by subst k.
Qed.
Lemma reloaded_comes d p : on_disk d p -> comes d (Page.block p) (reloaded p).
Proof.
  intros Hd. pose proof Hd as [Hs Hi]. destruct (read_written p Hs) as (q & Hq & _). assert (Hc : comes d (Page.block p) q) by by exists (used p). by rewrite <- (comes_reloaded d p q Hd Hc).
Qed.
Lemma reloaded_fields p : page_sound p -> page_sound (reloaded p) /\ used (reloaded p) = used p /\ Page.length_ (reloaded p) = Page.length_ p.
Proof.
  intros Hs. pose proof Hs as (Hp & Hl & Hne & Hh). assert (Hu : len (used p) = Page.length_ p) by by apply used_len. assert (Hc : len (used p) <= CAPACITY) by (rewrite Hu; apply Hp).
  destruct (fill_ok (used p) Hc) as [_ Hb]. pose proof (stored_header p Hs) as Hst. unfold stored in Hst. cbn [fst] in Hst. fold (used p) in Hst.
  split; [|split; [|exact Hu]].
  - split; [split; [exact Hb|exact Hc]|]. split; [cbn; lia|]. split; [exact Hne|exact Hst].
  - unfold used at 1. cbn [reloaded Page.length_ Page.buffer]. rewrite to_nat_len. apply splice_front. by rewrite zeros_len.
Qed.
Lemma reloaded_buffer p : page_sound p -> exists rest, Page.buffer (reloaded p) = used p ++ rest.
Proof. intros Hs. destruct (reloaded_fields p Hs) as (Hs' & Hu & _). destruct (used_split_at (reloaded p)) as [rest E]; [apply Hs'|]. exists rest. by rewrite E, Hu. Qed.
Lemma slice_used p a b : page_sound p -> b <= Page.length_ p -> slice (Page.buffer (reloaded p)) a b = slice (Page.buffer p) a b.
Proof.
  intros Hs Hb. pose proof (used_len p (proj1 Hs)) as Hu. fold (used p) in Hu. destruct (reloaded_buffer p Hs) as [rest ->]. destruct (used_split_at p (proj1 Hs)) as [rest' E]. set (B := Page.buffer p) in *. rewrite E.
  unfold slice. destruct (N.leb_spec a b); cbn [andb]; [|done]. rewrite !(proj2 (N.leb_le _ _)) by (rewrite len_app; lia). rewrite !take_drop_commute. do 2 f_equal.
  rewrite !take_app_le; [done|unfold len in *; lia..].
Qed.
Lemma field_used p off n : page_sound p -> off + n <= Page.length_ p -> field (Page.buffer (reloaded p)) off n = field (Page.buffer p) off n.
Proof.
  intros Hs Hb. destruct (reloaded_fields p Hs) as (Hs' & _ & Hl). destruct (slice_exists (Page.buffer p) off (off + n)) as (v & Hv & _); [lia| |].
  { destruct Hs as ([Hf Hc] & _). lia. }
  rewrite (field_slice _ _ _ _ Hv). apply field_slice. by rewrite slice_used.
Qed.
Lemma owners_used layout p next l : owners_rep layout p next l -> used p = owners_image (Page.block p) next l.
Proof.
  intros (_ & Hb & Hc & Hl & _ & _ & _ & _ & _ & rest & E). unfold used. rewrite E. unfold owners_image. rewrite !app_assoc. rewrite take_app_length'; [done|].
  apply Nat2N.inj. rewrite N2Nat.id. change (N.of_nat (length ?x)) with (len x). rewrite Hl, !len_app, len_owners_head, len_records. unfold slots_end, OWNER_HEADER. lia.
Qed.
Lemma owners_reloaded layout p next l : page_sound p -> owners_rep layout p next l -> owners_rep layout (reloaded p) next l.
Proof.
  intros Hs Hrep. destruct (reloaded_fields p Hs) as (((Hb & Hc) & _) & _ & Hl). destruct (reloaded_buffer p Hs) as [rest E]. rewrite (owners_used layout p next l Hrep) in E.
  pose proof Hrep as (Hk & _ & _ & Hlen & H1 & H2 & H3 & H4 & H5 & _). unfold owners_rep. rewrite Hl. split; [exact Hk|]. split; [exact Hb|]. split; [by rewrite <- Hl|]. do 6 (split; [done|]). exists rest.
  rewrite E. unfold owners_image. by rewrite <- !app_assoc.
Qed.
Lemma meta_reloaded layout p s : page_sound p -> group_meta_rep layout p s -> group_meta_rep layout (reloaded p) s.
Proof.
  intros Hs (Hm & Ht & Hst). destruct (reloaded_fields p Hs) as (Hs' & _ & Hl). pose proof Hm as (_ & Hk & Hlen & _). change (META_HEADER + BUCKETS * 8) with META_LEGACY_BYTES in Hlen.
  split; [|split; [|done]].
  - eapply meta_rep_fields; [exact Hm|apply Hs'|exact Hk|by rewrite Hl|]. intros off k Hok. apply field_used; [done|lia].
  - rewrite Hl. destruct Ht as [E1 E2|E1 E2 E3|E1 E2 E3]; [by apply tail_legacy|apply tail_old; [done| |done]|apply tail_v3; [done| |done]]; rewrite slice_used by (done || lia); done.
Qed.

(** * What a change of the disk leaves alone *)
Definition stable (keep : PageKind.t -> bool) (d d' : Disk) : Prop := forall b q, comes d b q -> keep (Page.kind q) = true -> index d' b = index d b.
Lemma comes_same d d' b q : comes d b q -> index d' b = index d b -> comes d' b q.
Proof. intros (bytes & Hi & Hr) E. exists bytes. by rewrite E. Qed.
#[export] Instance stable_po keep : PreOrder (stable keep).
Proof. split; [by intros d b q|]. intros a b c Hab Hbc n q Hq Hk. pose proof (Hab n q Hq Hk) as E. rewrite (Hbc n q); [done|by eapply comes_same|done]. Qed.
Lemma stable_weaken (keep keep' : PageKind.t -> bool) d d' : (forall k, keep' k = true -> keep k = true) -> stable keep d d' -> stable keep' d d'.
Proof. intros Hk H b q Hq Hb. apply (H b q Hq). auto. Qed.
(** A page may take a block whose page is not kept. *)
Definition writable (keep : PageKind.t -> bool) (d : Disk) (p : Page.t) : Prop :=
  page_sound p /\ Page.block p < len d /\ forall q, comes d (Page.block p) q -> keep (Page.kind q) = false.
Lemma index_insert (d : Disk) b x i : b < len d -> index (<[N.to_nat b := x]> d) i = if i =? b then Some x else index d i.
Proof.
  intros Hb. unfold index. destruct (N.eqb_spec i b) as [->|Hne]; [apply list_lookup_insert_eq; unfold len in Hb; lia|]. apply list_lookup_insert_ne. lia.
Qed.
Lemma write_other images : forall d b, Forall (fun p => Page.block p < len d) images -> b ∉ Page.block <$> images -> index (write d images) b = index d b.
Proof.
  induction images as [|p images IH]; intros d b Hl Hb; [done|]. apply list.Forall_cons in Hl as [Hp Hl]. cbn [fmap list_fmap] in Hb. apply not_elem_of_cons in Hb as [Hne Hb].
  change (write d (p :: images)) with (write (<[N.to_nat (Page.block p) := used p]> d) images). rewrite IH; [|by rewrite len_insert_n|done]. rewrite index_insert by done. by rewrite (proj2 (N.eqb_neq _ _)).
Qed.
Lemma write_at images : forall d p, Forall (fun p => Page.block p < len d) images -> NoDup (Page.block <$> images) -> p ∈ images -> index (write d images) (Page.block p) = Some (used p).
Proof.
  induction images as [|q images IH]; intros d p Hl Hd Hp; [by apply not_elem_of_nil in Hp|]. apply list.Forall_cons in Hl as [Hq Hl]. cbn [fmap list_fmap] in Hd. apply list.NoDup_cons in Hd as [Hn Hd].
  change (write d (q :: images)) with (write (<[N.to_nat (Page.block q) := used q]> d) images). apply elem_of_cons in Hp as [->|Hp]; [|apply IH; [by rewrite len_insert_n|done|done]].
  rewrite write_other by (rewrite ?len_insert_n; done). rewrite index_insert by done. by rewrite N.eqb_refl.
Qed.
Lemma stable_write keep d images : Forall (writable keep d) images -> NoDup (Page.block <$> images) -> stable keep d (write d images).
Proof.
  intros Hw Hd b q Hq Hk. apply write_other; [eapply Forall_impl; [|exact Hw]; by intros ? (_ & ? & _)|]. intros (p & -> & Hp)%list_elem_of_fmap. rewrite list.Forall_forall in Hw. destruct (Hw p Hp) as (_ & _ & H). by rewrite (H q Hq) in Hk.
Qed.
Lemma written keep d images p : Forall (writable keep d) images -> NoDup (Page.block <$> images) -> p ∈ images -> on_disk (write d images) p.
Proof.
  intros Hw Hd Hp. split; [rewrite list.Forall_forall in Hw; by destruct (Hw p Hp)|]. apply write_at; [eapply Forall_impl; [|exact Hw]; by intros ? (_ & ? & _)|done|done].
Qed.
Lemma disk_snoc (d : Disk) x b : index (d ++ [x]) b = if b =? len d then Some x else index d b.
Proof.
  unfold index, len. destruct (N.eqb_spec b (N.of_nat (length d))) as [->|Hne]; [rewrite Nat2N.id; by rewrite lookup_app_r, Nat.sub_diag by lia|].
  destruct (decide (N.to_nat b < length d)%nat) as [Hl|Hl]; [by rewrite lookup_app_l|]. rewrite !(proj2 (lookup_ge_None _ _)); [done|lia|rewrite length_app; cbn; lia].
Qed.
Lemma stable_extend keep d : stable keep d (d ++ [[]]).
Proof. intros b q (bytes & Hi & _) _. rewrite disk_snoc. destruct (N.eqb_spec b (len d)) as [->|]; [|done]. apply index_bound in Hi. lia. Qed.
(** The block an extension adds holds no page yet. *)
Lemma extended_zero d q : comes (d ++ [[]]) (len d) q -> Page.kind q = PageKind.Zero.
Proof. intros (bytes & Hi & Hr). rewrite disk_snoc, N.eqb_refl in Hi. injection Hi as <-. apply read_fill_exact in Hr as (k & _ & (_ & [[_ ->]|[Hl _]]) & ->); [done|]. change (len (@nil byte)) with 0 in Hl. lia. Qed.
Lemma writable_new keep d p : page_sound p -> Page.block p = len d -> keep PageKind.Zero = false -> writable keep (d ++ [[]]) p.
Proof. intros Hs Hb Hk. split; [done|]. rewrite Hb. split; [rewrite len_app, len_cons; lia|]. intros q Hq. by rewrite (extended_zero d q Hq). Qed.
Lemma writable_over keep d p q : page_sound p -> comes d (Page.block p) q -> keep (Page.kind q) = false -> writable keep d p.
Proof.
  intros Hs Hq Hk. split; [done|]. split; [|intros q' Hq'; by rewrite (comes_unique _ _ _ _ Hq' Hq)]. apply comes_loaded in Hq as (_ & _ & Hi). by apply index_bound in Hi.
Qed.
Lemma writable_extend keep d p : writable keep d p -> writable keep (d ++ [[]]) p.
Proof.
  intros (Hs & Hb & Hq). split; [done|]. split; [rewrite len_app; lia|]. intros q (bytes & Hi & Hr). rewrite disk_snoc, (proj2 (N.eqb_neq _ _)) in Hi by lia. apply Hq. by exists bytes.
Qed.
Lemma on_disk_stable keep d d' p : on_disk d p -> keep (Page.kind p) = true -> stable keep d d' -> on_disk d' p.
Proof. intros Hd Hk Hst. split; [apply Hd|]. rewrite (Hst (Page.block p) (reloaded p)); [apply Hd|by apply reloaded_comes|done]. Qed.

(** * Owner pages in a chain *)
Definition Chain : Type := list (N * list Slot).
(** The block a part of the chain starts with, or the one behind it. *)
Definition first_or (chain : Chain) (next : N) : N := match chain with [] => next | (b, _) :: _ => b end.
Definition last_block (chain : Chain) : N := match list.last chain with Some (b, _) => b | None => NO_BLOCK end.
Definition owners_at (layout : HeapLayout) (d : Disk) (b next : N) (l : list Slot) : Prop := exists p, owners_rep layout p next l /\ Page.block p = b /\ b <> 0 /\ on_disk d p.
Fixpoint segment (layout : HeapLayout) (d : Disk) (chain : Chain) (next : N) : Prop :=
  match chain with [] => True | (b, l) :: rest => owners_at layout d b (first_or rest next) l /\ segment layout d rest next end.
Section Chain.
Context (layout : HeapLayout).
Lemma owners_at_same d d' b next l : owners_at layout d b next l -> index d' b = index d b -> owners_at layout d' b next l.
Proof. intros (p & Hrep & Hb & Hn & Hs & Hi) E. exists p. do 3 (split; [done|]). split; [done|]. by rewrite Hb, E, <- Hb. Qed.
(** The page of a block is what is read there. *)
Lemma owners_at_read d b next l : owners_at layout d b next l -> exists p, comes d b p /\ owners_rep layout p next l /\ page_sound p.
Proof.
  intros (p & Hrep & <- & Hn & Hd). exists (reloaded p). split; [by apply reloaded_comes|]. split; [apply owners_reloaded; [apply Hd|done]|]. apply reloaded_fields, Hd.
Qed.
Lemma owners_at_stable keep d d' b next l : owners_at layout d b next l -> keep PageKind.Owners = true -> stable keep d d' -> owners_at layout d' b next l.
Proof.
  intros H Hk Hst. eapply owners_at_same; [done|]. apply owners_at_read in H as (p & Hp & (Hkd & _) & _). apply (Hst b p Hp). by rewrite Hkd.
Qed.
Lemma owners_at_bounds d b next l : owners_at layout d b next l -> 0 < b < len d /\ b <> NO_BLOCK /\ (next = NO_BLOCK \/ b < next).
Proof.
  intros (p & Hrep & Hb & Hn & Hs & Hi). rewrite Hb in Hi. apply index_bound in Hi. destruct Hrep as (_ & _ & _ & _ & _ & _ & Hne & _ & Hno & _). rewrite Hb in *. split; [lia|]. split; [done|].
  destruct Hno as [|(_ & _ & _ & Hlt)]; [by left|right]. apply Hlt. by left.
Qed.
Lemma segment_app d a c next : segment layout d (a ++ c) next <-> segment layout d a (first_or c next) /\ segment layout d c next.
Proof.
  induction a as [|[b l] a IH]; [cbn; tauto|]. cbn [app segment]. rewrite IH. assert (E : first_or (a ++ c) next = first_or a (first_or c next)) by by destruct a as [|[]]. rewrite E. tauto.
Qed.
Lemma segment_same d d' chain next : segment layout d chain next -> (forall b, b ∈ chain.*1 -> index d' b = index d b) -> segment layout d' chain next.
Proof.
  revert next. induction chain as [|[b l] chain IH]; intros next H Hs; [done|]. destruct H as [H1 H2]. cbn [fmap list_fmap fst] in Hs. split; [eapply owners_at_same; [done|apply Hs; left]|apply IH; [done|intros; apply Hs; by right]].
Qed.
Lemma segment_stable keep d d' chain next : segment layout d chain next -> keep PageKind.Owners = true -> stable keep d d' -> segment layout d' chain next.
Proof. intros H Hk Hst. induction chain as [|[b l] chain IH]; [done|]. destruct H as [H1 H2]. split; [by eapply owners_at_stable|auto]. Qed.
Lemma segment_at d chain next b : segment layout d chain next -> b ∈ chain.*1 -> exists pre l suf, chain = pre ++ (b, l) :: suf /\ owners_at layout d b (first_or suf next) l.
Proof.
  intros H ((c & l) & -> & (pre & suf & ->)%list_elem_of_split)%list_elem_of_fmap. exists pre, l, suf. split; [done|]. by apply segment_app in H as [_ [H _]].
Qed.
(** Blocks ascend along the chain. *)
Lemma segment_ascending d chain : segment layout d chain NO_BLOCK -> StronglySorted N.lt (chain.*1).
Proof.
  induction chain as [|[b l] chain IH]; intros H; [constructor|]. destruct H as [H1 H2]. specialize (IH H2). cbn [fmap list_fmap fst]. constructor; [done|]. destruct chain as [|[c m] chain]; [constructor|].
  cbn [first_or] in H1. destruct H2 as [H2 _]. apply owners_at_bounds in H1 as (_ & _ & [->|Hlt]); [by apply owners_at_bounds in H2 as (_ & ? & _)|]. cbn [fmap list_fmap fst] in *. inversion IH as [|? ? _ Hall]. subst. constructor; [done|].
  eapply Forall_impl; [|exact Hall]. cbn. lia.
Qed.
Lemma sorted_nodup (l : list N) : StronglySorted N.lt l -> NoDup l.
Proof. induction 1 as [|x l _ IH Hall]; constructor; [|done]. intros Hin. rewrite list.Forall_forall in Hall. specialize (Hall x Hin). lia. Qed.
Lemma segment_others d pre b l suf : segment layout d (pre ++ (b, l) :: suf) NO_BLOCK -> forall c, c ∈ pre.*1 \/ c ∈ suf.*1 -> c <> b.
Proof.
  intros H c Hc. apply segment_ascending, sorted_nodup in H. rewrite fmap_app in H. cbn [fmap list_fmap fst] in H. apply list.NoDup_app in H as (_ & H1 & H2). apply list.NoDup_cons in H2 as [H2 _].
  destruct Hc as [Hc|Hc]; [|by intros ->]. intros ->. apply (H1 b Hc). left.
Qed.
(** One page changes, the others stay. *)
Lemma segment_replace d d' pre b l l' suf : segment layout d (pre ++ (b, l) :: suf) NO_BLOCK -> (forall c, c ∈ pre.*1 \/ c ∈ suf.*1 -> index d' c = index d c) ->
  owners_at layout d' b (first_or suf NO_BLOCK) l' -> segment layout d' (pre ++ (b, l') :: suf) NO_BLOCK.
Proof.
  intros H Hs Hn. apply segment_app in H as [H1 [_ H2]]. apply segment_app. cbn [first_or] in *. split; [eapply segment_same; [done|auto]|]. split; [done|]. eapply segment_same; [done|auto].
Qed.
(** A page is added behind the last one. *)
Lemma segment_extend d d' pre b l c m : segment layout d (pre ++ [(b, l)]) NO_BLOCK -> (forall x, x ∈ pre.*1 -> index d' x = index d x) ->
  owners_at layout d' b c l -> owners_at layout d' c NO_BLOCK m -> segment layout d' (pre ++ [(b, l); (c, m)]) NO_BLOCK.
Proof.
  intros H Hs Hb Hc. apply segment_app in H as [H1 _]. apply segment_app. cbn [first_or segment] in *. split; [by eapply segment_same|]. done.
Qed.
End Chain.

(** * The relation *)
Record Relation : Type := mkRelation { r_meta : MetaState * GroupState.t; r_chain : Chain }.
Definition chain_slots (chain : Chain) : list Slot := chain ≫= snd.
Definition slots (R : Relation) : list Slot := chain_slots (r_chain R).
Definition next_incarnation (R : Relation) : N := meta_next (fst (r_meta R)).
Definition is_meta (layout : HeapLayout) (p : Page.t) (s : MetaState * GroupState.t) : Prop := group_meta_rep layout p s /\ page_sound p /\ Page.block p = 0.
(** Identities are handed out in order and never again. *)
Record relation_rep (layout : HeapLayout) (d : Disk) (R : Relation) : Prop := {
  rr_meta : exists p, is_meta layout p (r_meta R) /\ on_disk d p;
  rr_chain : segment layout d (r_chain R) NO_BLOCK;
  rr_ends : meta_owners (fst (r_meta R)) = (first_or (r_chain R) NO_BLOCK, last_block (r_chain R));
  rr_ascending : StronglySorted N.lt (s_inc <$> slots R);
  rr_below : Forall (fun s => s_inc s < next_incarnation R) (slots R) }.
(** The kinds of page a relation is made of, with and without the metapage. *)
Definition records (k : PageKind.t) : bool := match k with PageKind.Owners | PageKind.Fragment => true | _ => false end.
Definition quiet (k : PageKind.t) : bool := match k with PageKind.Meta => true | k => records k end.
Lemma quiet_records d d' : stable quiet d d' -> stable records d d'.
Proof. apply stable_weaken. by intros []. Qed.
Section Relations.
Context (layout : HeapLayout).
Lemma meta_kind p s : is_meta layout p s -> Page.kind p = PageKind.Meta.
Proof. by intros (((_ & H & _) & _) & _). Qed.
Lemma relation_quiet d d' R : relation_rep layout d R -> stable quiet d d' -> relation_rep layout d' R.
Proof.
  intros [(p & Hm & Hd) H2 H3 H4 H5] Hst. constructor; [|by eapply (segment_stable layout quiet)|done|done|done]. exists p. split; [done|]. apply (on_disk_stable quiet d d' p Hd); [by rewrite (meta_kind _ _ Hm)|done].
Qed.
Lemma relation_meta d d' R p s' : relation_rep layout d R -> stable records d d' -> is_meta layout p s' -> on_disk d' p ->
  meta_owners (fst s') = meta_owners (fst (r_meta R)) -> next_incarnation R <= meta_next (fst s') -> relation_rep layout d' (mkRelation s' (r_chain R)).
Proof.
  intros [H1 H2 H3 H4 H5] Hst Hp Hd Ho Hn. constructor; [by exists p|by eapply (segment_stable layout records)|by cbn [r_meta r_chain]; rewrite Ho|done|]. eapply Forall_impl; [|exact H5]. cbn. unfold next_incarnation at 2. cbn [r_meta fst]. intros s. lia.
Qed.
Lemma comes_meta d R q : relation_rep layout d R -> comes d 0 q -> Page.kind q = PageKind.Meta.
Proof. intros [(p & Hm & Hd) _ _ _ _] Hq. pose proof Hm as (_ & _ & Hb). rewrite <- Hb in Hq. apply comes_reloaded in Hq as ->; [|done]. exact (meta_kind _ _ Hm). Qed.
Lemma comes_owners d R b q : relation_rep layout d R -> b ∈ (r_chain R).*1 -> comes d b q -> Page.kind q = PageKind.Owners.
Proof.
  intros HR Hb Hq. destruct (segment_at _ _ _ _ _ (rr_chain _ _ _ HR) Hb) as (pre & l & suf & _ & Ho). apply owners_at_read in Ho as (p & Hp & (Hk & _) & _). by rewrite (comes_unique _ _ _ _ Hq Hp).
Qed.
(** A page of another kind is elsewhere. *)
Lemma elsewhere d R b q : relation_rep layout d R -> comes d b q -> quiet (Page.kind q) = false -> b <> 0 /\ b ∉ (r_chain R).*1.
Proof.
  intros HR Hq Hk. split; [intros ->; by rewrite (comes_meta d R q HR Hq) in Hk|intros Hb; by rewrite (comes_owners d R b q HR Hb Hq) in Hk].
Qed.
Lemma meta_read d R q : relation_rep layout d R -> comes d 0 q -> is_meta layout q (r_meta R).
Proof.
  intros [(p & Hm & Hd) _ _ _ _] Hq. pose proof Hm as (Hr & Hs & Hb). rewrite <- Hb in Hq. apply comes_reloaded in Hq as ->; [|done]. split; [by apply meta_reloaded|]. split; [by apply reloaded_fields|done].
Qed.
(** A slot is reserved: the new chain carries one more. *)
Lemma relation_reserve d d' R p s' chain slot : relation_rep layout d R -> segment layout d' chain NO_BLOCK -> is_meta layout p s' -> on_disk d' p ->
  meta_owners (fst s') = (first_or chain NO_BLOCK, last_block chain) -> chain_slots chain = slots R ++ [slot] -> s_inc slot = next_incarnation R -> meta_next (fst s') = next_incarnation R + 1 ->
  relation_rep layout d' (mkRelation s' chain).
Proof.
  intros [_ _ _ H4 H5] Hc Hp Hd Ho Hs Hi Hn. constructor; [by exists p|done|done| |]; unfold slots, next_incarnation; cbn [r_chain r_meta]; rewrite Hs.
  - rewrite fmap_app. cbn [fmap list_fmap]. rewrite Hi. clear -H4 H5. revert H4 H5. generalize (slots R). intros sl. induction sl as [|s l IH]; intros H4 H5; cbn; [by repeat constructor|]. inversion H4. apply list.Forall_cons in H5 as [Hlt H5]. subst. constructor; [by apply IH|].
    apply Forall_app. split; [done|]. by repeat constructor.
  - apply Forall_app. split; [eapply Forall_impl; [|exact H5]; cbn; intros; lia|]. repeat constructor. lia.
Qed.
(** Slots change and keep their identities. *)
Lemma relation_change d d' R pre b l l' suf : relation_rep layout d R -> r_chain R = pre ++ (b, l) :: suf -> s_inc <$> l' = s_inc <$> l ->
  (forall q, comes d b q -> forall c, c <> b -> index d' c = index d c) -> owners_at layout d' b (first_or suf NO_BLOCK) l' -> relation_rep layout d' (mkRelation (r_meta R) (pre ++ (b, l') :: suf)).
Proof.
  intros HR El Hi Hsame Hat. pose proof HR as [(p & Hm & Hs & Hd) H2 H3 H4 H5]. rewrite El in H2. pose proof (segment_others _ _ _ _ _ _ H2) as Hne.
  pose proof H2 as Hb. apply segment_app in Hb as [_ [Hb _]]. pose proof (owners_at_bounds _ _ _ _ _ Hb) as (Hb0 & _). apply owners_at_read in Hb as (q & Hq & _).
  assert (E : s_inc <$> chain_slots (pre ++ (b, l') :: suf) = s_inc <$> slots R).
  { unfold slots, chain_slots. rewrite El, !bind_app, !bind_cons, !fmap_app. cbn [snd]. by rewrite Hi. }
  constructor; cbn [r_meta r_chain].
  - exists p. split; [done|]. split; [done|]. rewrite (Hsame q Hq); [done|]. pose proof Hm as (_ & _ & ->). lia.
  - eapply segment_replace; [exact H2| |done]. intros c Hc. apply (Hsame q Hq). by apply Hne.
  - rewrite H3, El. f_equal; [by destruct pre as [|[]]|]. unfold last_block. destruct suf as [|x suf _] using rev_ind; [by rewrite !last_snoc|]. by rewrite !app_comm_cons, !app_assoc, !last_snoc.
  - unfold slots. cbn [r_chain]. by rewrite E.
  - unfold slots, next_incarnation. cbn [r_chain r_meta]. unfold slots, next_incarnation in H5, E. apply (proj1 (list.Forall_fmap s_inc (fun i => i < meta_next (fst (r_meta R))) _)). rewrite E. by apply list.Forall_fmap.
Qed.
End Relations.
