(* ===== verification/Writer.v ===== *)
(** Publication of documents: [src/crates/pin-core/src/mutable/writer.rs], with
    [invalidate] of [src/crates/pin-core/src/mutable/grouped/anchors.rs].

    [insert] reserves an owner slot, stores a large payload in fragments, links every
    term, and publishes the owner last. The theorems are about every point where it may
    stop: the disk stays a relation whose other documents are untouched, and the new one
    is either absent, in preparation, or complete. *)
From S2P Require Export Document Relation.

Section Programs.
Context {St : Type} {host : Host.t St}.
(** [initialize] *)
Definition initialize : Eff St unit :=
  let! n := Host.blocks in
  if negb (n =? 0) then efail InvalidState else
  let! block := allocate in
  if negb (block =? 0) then efail InvalidState else
  let! meta := elift (Page.metadata Host.layout) in
  let! meta := if Host.packed_postings then elift (Page.enable_packed_postings meta) else eret meta in
  Host.commit [meta].
(** [anchors::invalidate], which [grouped] exports as [invalidate_frontier] *)
Definition invalidate_frontier (meta : Page.t) : Eff St Page.t :=
  let! state := elift (GroupMeta.grouped_state meta) in
  match GroupState.active state with
  | Some active =>
      if frontier_valid active then
        let active := mkSnapshot (snap_id active) (snap_head active) (snap_tail active) (snap_root active) (snap_after active) (frontier_root active) false in
        let! meta := elift (GroupMeta.set_grouped_state meta (GroupState.mk (Some active) (GroupState.journal state) (GroupState.deltas state) (GroupState.retired state))) in
        let! _ := Host.commit [meta] in
        let! _ := Host.event Stage.FrontierInvalidated in
        eret meta
      else eret meta
  | None => eret meta
  end.
(** [reserve_owner]: the owner, and the metapage it leaves. *)
Definition reserve_owner (meta : Page.t) (root : RootTid) (document : PreparedDocument.t) : Eff St (OwnerRef * Page.t) :=
  let append page incarnation :=
    OwnerPage.append_owner page incarnation root (PreparedDocument.tokens document) (PreparedDocument.terms document) (PreparedDocument.bytes document) in
  let! '(incarnation, meta) := elift (Page.reserve_incarnation meta) in
  let! '(head, tail) := elift (Page.owner_chain meta) in
  if head =? NO_BLOCK then
    let! block := allocate in
    let! page := elift (Page.owners block) in
    let! '(owner, page) := elift (append page incarnation) in
    let! owner := elift (ok_or owner InvalidState) in
    let! meta := elift (Page.set_owner_chain meta (Page.block page) (Page.block page)) in
    let! _ := Host.commit [meta; page] in
    eret (owner, meta)
  else
  let! page := load tail PageKind.Owners in
  let! '(owner, page) := elift (append page incarnation) in
  match owner with
  | Some owner => let! _ := Host.commit [meta; page] in eret (owner, meta)
  | None =>
      let! block := allocate in
      let! next := elift (Page.owners block) in
      let! '(owner, next) := elift (append next incarnation) in
      let! owner := elift (ok_or owner InvalidState) in
      let! page := elift (Page.set_next page (Page.block next)) in
      let! meta := elift (Page.set_owner_chain meta head (Page.block next)) in
      let! _ := Host.commit [meta; page; next] in
      eret (owner, meta)
  end.
(** A dictionary page of the relation's format. *)
Definition new_terms (meta : Page.t) : Eff St Page.t :=
  let! packed := elift (Page.packed_postings meta) in
  let! block := allocate in
  elift (if packed then Page.packed_dictionary block else Page.dictionary block).
(** [link_term], by what the dictionary holds of the term: the metapage it leaves. *)
Definition promote_second (meta dictionary : Page.t) (reference : TermRef) (second owner : OwnerRef) : Eff St Page.t :=
  let! meta := invalidate_frontier meta in
  let! block := allocate in
  let! page := elift (Page.postings block reference) in
  let! '(first, page) := elift (PostingPage.append_posting page second) in
  let! '(both, page) := if first then elift (PostingPage.append_posting page owner) else eret (false, page) in
  if negb both then efail InvalidState else
  let! '(_, dictionary) := elift (TermPage.promote_inline_second dictionary reference (Page.block page)) in
  let! _ := Host.commit [dictionary; page] in
  eret meta.
Definition start_chain (meta dictionary : Page.t) (reference : TermRef) (owner : OwnerRef) : Eff St Page.t :=
  let! packed := elift (Page.packed_dictionary_format dictionary) in
  if packed then
    let! dictionary := elift (TermPage.set_inline_second dictionary reference (Some owner)) in
    let! _ := Host.commit [dictionary] in
    eret meta
  else
  let! block := allocate in
  let! page := elift (Page.postings block reference) in
  let! '(fits, page) := elift (PostingPage.append_posting page owner) in
  if negb fits then efail InvalidState else
  let! dictionary := elift (TermPage.set_posting_chain dictionary reference (Page.block page) (Page.block page)) in
  let! _ := Host.commit [dictionary; page] in
  eret meta.
Definition extend_chain (meta dictionary : Page.t) (reference : TermRef) (head tail : N) (owner : OwnerRef) : Eff St Page.t :=
  let! page := load_posting tail reference in
  let! last := elift (Page.next page) in
  if negb (last =? NO_BLOCK) then efail InvalidState else
  let! '(fits, page) := if bool_decide (Page.kind page = PageKind.Postings) then elift (PostingPage.append_posting page owner) else eret (false, page) in
  if fits then let! _ := Host.commit [page] in eret meta else
  let! block := allocate in
  let! next := elift (Page.postings block reference) in
  let! '(fits, next) := elift (PostingPage.append_posting next owner) in
  if negb fits then efail InvalidState else
  let! page := elift (Page.set_next page (Page.block next)) in
  let! dictionary := elift (TermPage.set_posting_chain dictionary reference head (Page.block next)) in
  let! _ := Host.commit [dictionary; page; next] in
  eret meta.
Definition add_term (meta : Page.t) (text : list byte) (owner : OwnerRef) : Eff St Page.t :=
  let bucket := bucket_for text in
  let! '(head, tail) := elift (Page.bucket meta bucket) in
  if head =? NO_BLOCK then
    let! page := new_terms meta in
    let! '(term, page) := elift (TermPage.append_term page text owner) in
    let! _ := elift (ok_or term InvalidState) in
    let! meta := elift (Page.set_bucket meta bucket (Page.block page) (Page.block page)) in
    let! _ := Host.commit [meta; page] in
    eret meta
  else
  let! page := load tail PageKind.Dictionary in
  let! '(term, page) := elift (TermPage.append_term page text owner) in
  match term with
  | Some _ => let! _ := Host.commit [page] in eret meta
  | None =>
      let! next := new_terms meta in
      let! '(term, next) := elift (TermPage.append_term next text owner) in
      let! _ := elift (ok_or term InvalidState) in
      let! page := elift (Page.set_next page (Page.block next)) in
      let! meta := elift (Page.set_bucket meta bucket head (Page.block next)) in
      let! _ := Host.commit [meta; page; next] in
      eret meta
  end.
Definition link_term (meta : Page.t) (text : list byte) (owner : OwnerRef) : Eff St Page.t :=
  let! found := find_term meta text in
  match found with
  | Some (dictionary, reference) =>
      let! term := elift (TermPage.term dictionary reference) in
      match t_inline term with
      | Some second => promote_second meta dictionary reference second owner
      | None =>
          if t_head term =? NO_BLOCK then start_chain meta dictionary reference owner
          else extend_chain meta dictionary reference (t_head term) (t_tail term) owner
      end
  | None => add_term meta text owner
  end.
(** One fragment of a payload; they are stored from the last to the first. *)
Definition store_fragment (owner : OwnerRef) (bytes : list byte) (state : N * Page.t) (index : N) : Eff St (N * Page.t) :=
  let '(data_head, meta) := state in
  let offset := index * FRAGMENT_BYTES in
  let end_ := N.min (offset + FRAGMENT_BYTES) (len bytes) in
  let! free := elift (Page.free_head meta) in
  let! '(block, meta) :=
    if free =? NO_BLOCK then let! block := allocate in eret (block, meta) else
    let! page := load free PageKind.Free in
    let! next := elift (Page.next page) in
    let! meta := elift (Page.set_free_head meta next) in
    eret (free, meta) in
  let! piece := elift (or_panic (slice bytes offset end_)) in
  let! page := elift (Page.fragment block owner data_head (trunc 32 offset) piece) in
  let! _ := if free =? NO_BLOCK then Host.commit [page] else Host.commit [meta; page] in
  let! _ := Host.event Stage.FragmentStored in
  eret (block, meta).
Definition store_payload (owner : OwnerRef) (bytes : list byte) (meta : Page.t) : Eff St (N * Page.t) :=
  if INLINE_BYTES <? len bytes
  then efold (store_fragment owner bytes) (NO_BLOCK, meta) (rev (range 0 (div_ceil (len bytes) FRAGMENT_BYTES)))
  else eret (NO_BLOCK, meta).
(** The reload of an owner page and its change, at the two points where [insert] makes one. *)
Definition change_state (owner : OwnerRef) (change : OwnerChange) : Eff St unit :=
  let! owners := load (owner_page owner) PageKind.Owners in
  let! owners := elift (OwnerPage.change_owner owners owner change Host.layout) in
  Host.commit [owners].
Definition link_item (owner : OwnerRef) (meta : Page.t) (item : Result DocumentTerm) : Eff St Page.t :=
  let! term := elift item in
  let! meta := link_term meta (dt_term term) owner in
  let! _ := Host.event Stage.TermLinked in
  eret meta.
(** [insert] *)
Definition insert (root : RootTid) (document : PreparedDocument.t) : Eff St OwnerRef :=
  let! meta := load 0 PageKind.Meta in
  let! '(owner, meta) := reserve_owner meta root document in
  let! _ := Host.event Stage.OwnerReserved in
  let! '(data_head, meta) := store_payload owner (PreparedDocument.bytes document) meta in
  let! _ := change_state owner (PayloadReady data_head) in
  let! _ := Host.event Stage.PayloadReady in
  let! terms := elift (PreparedDocument.document_terms document) in
  let! _ := efold (link_item owner) meta (DocumentTerms.items terms) in
  let! _ := change_state owner Publish in
  let! _ := Host.event Stage.Published in
  eret owner.
End Programs.

(** * Pages in order are sound *)
Lemma dict_sound packed p next l : dict_rep packed p next l -> page_sound p.
Proof.
  intros [Hk Hb Hl Hc [Hblk Hv] [Hn Hno] _ (rest & E)]. split; [by split|]. split; [rewrite Hl; unfold PAGE_HEADER; lia|]. split; [intros En; by rewrite En in Hv|].
  exists 3, (N.b2n packed), next. eexists. split; [exact E|]. rewrite Hk. split_and!; try done. destruct packed; [by right|by left].
Qed.
Lemma posting_sound p term next l roots : posting_rep p term next l roots -> page_sound p.
Proof.
  intros [Hk Hb Hc [Hblk Hne] [Hn Hno] _ _ _ Hl (rest & E)]. split; [by split|]. split; [rewrite Hl; unfold POSTING_HEADER; lia|]. split; [done|].
  unfold posting_head, head_counted in E. rewrite <- !app_assoc in E. exists (posting_tag (Page.kind p)), 0, next. eexists. split; [exact E|]. destruct (Page.kind p); try done; split_and!; try done; by left.
Qed.
Lemma owners_sound layout p next l : owners_rep layout p next l -> page_sound p.
Proof.
  intros (Hk & Hb & Hc & Hl & _ & Hblk & Hne & Hn & Hno & rest & E). split; [by split|]. split; [rewrite Hl; unfold slots_end, OWNER_HEADER; lia|]. split; [done|].
  unfold owners_head in E. rewrite <- !app_assoc in E. exists 2, 0, next. eexists. split; [exact E|]. rewrite Hk. split_and!; try done. by left.
Qed.
Lemma set_next_safe p n : page_fits p -> safe (Page.set_next p n).
Proof.
  intros Hp. unfold Page.set_next. rewrite put_u32_ok by (done || (unfold CAPACITY; lia)). cbn [rbind]. apply safe_bind; [|done]. apply check_next_safe. apply splice_fits; [done|rewrite len_le_bytes; unfold CAPACITY; lia].
Qed.
Lemma owners_set_next layout p next l n p' : owners_rep layout p next l -> n < 2 ^ 32 -> Page.set_next p n = Ok p' -> owners_rep layout p' n l /\ Page.block p' = Page.block p.
Proof.
  intros Hrep Hn H. apply set_next_ok in H as (Hno & _ & ->); [|by eapply owners_sound|done]. destruct Hrep as (Hk & Hb & Hc & Hl & Hw & Hblk & Hne & _ & _ & rest & E). split; [|done].
  unfold owners_rep. cbn [Page.set_buffer Page.kind Page.buffer Page.length_ Page.block]. split; [done|]. split; [rewrite splice_len; [done|rewrite Hb, len_le_bytes; unfold CAPACITY; lia]|]. do 3 (split; [done|]). split; [done|]. do 2 (split; [done|]). split; [by rewrite Hk in Hno|].
  exists rest. rewrite E. unfold owners_head. done.
Qed.
Lemma fragment_safe block owner next offset payload : ref_wf owner -> safe (Page.fragment block owner next offset payload).
Proof.
  intros Ho. unfold Page.fragment. apply safe_if; [done|]. intros Hl. apply orb_false_iff in Hl as [_ Hl%N.ltb_ge]. change FRAGMENT_BYTES with 8132 in Hl. apply safe_bind; [apply new_safe|]. intros q (_ & _ & tag & _ & ->)%new_ok.
  set (p := Page.set_length _ _). assert (Hp : page_fits p) by (split; [done|unfold p; cbn; change FRAGMENT_HEADER with 36; unfold CAPACITY; lia]).
  apply safe_bind; [apply slice_from_safe; rewrite (proj1 Hp); by vm_compute|]. intros region Hr. apply or_panic_ok in Hr. assert (Hlr : len region = 8152). { unfold slice_from in Hr. rewrite (proj1 Hp) in Hr. apply Some_inj' in Hr as <-. by vm_compute. }
  rewrite writing_new, ref_write by (done || (unfold small, isize_max; lia) || (rewrite len_nil; lia)). cbn [rbind]. unfold Writer.u32.
  do 2 (rewrite put_writing; [cbn [lift_codec map_err rbind]|unfold small, isize_max; lia|rewrite !len_app, ?len_le_bytes, len_ref_bytes, len_nil; lia]).
  apply set_next_safe. split; [|exact (proj2 Hp)]. unfold Page.write_back. cbn [Page.set_buffer Page.buffer]. rewrite splice_len; [apply Hp|].
  unfold writing. cbn [Writer.bytes]. rewrite !len_app, len_drop. rewrite (proj1 Hp). unfold len at 4. rewrite !length_app. unfold CAPACITY, PAGE_HEADER. pose proof (len_ref_bytes owner) as H1. unfold len in *. cbn [length] in *. rewrite length_le_bytes. lia.
Qed.

(** * The metapage in memory *)
Section Meta.
Context (layout : HeapLayout).
Lemma is_meta_fits p s : is_meta layout p s -> page_fits p.
Proof. intros (_ & H & _). apply H. Qed.
Lemma meta_op p s op : is_meta layout p s -> op_wf op ->
  match meta_step (fst s) op with
  | Ok (r, m) => exists p', page_step p op = Ok (r, p') /\ is_meta layout p' (m, snd s)
  | Err e => page_step p op = Err e
  | Panic => False
  end.
Proof.
  intros (Hr & Hs & Hb) Hop. pose proof (group_meta_sim layout p s (Fields op) Hr Hop) as H. destruct s as [m g]. cbn [group_meta_step group_page_step fst snd] in *.
  pose proof (meta_step_ok layout p m op (proj1 Hr) Hop) as Hblk. destruct (meta_step m op) as [[r m']|e|]; cbn [rbind] in *; [|done|done]. destruct H as (p' & E & Hr'). exists p'. split; [done|]. split; [done|].
  split; [by eapply page_step_sound|]. destruct Hblk as (p'' & E' & _ & Hb' & _). rewrite E in E'. apply Ok_inj in E'. injection E' as <-. by rewrite Hb'.
Qed.
(** An operation without a result. *)
Lemma meta_set (m : Result Page.t) p s op : page_step p op = (let* p := m in Ok (None, p)) -> is_meta layout p s -> op_wf op ->
  safe m /\ forall p', m = Ok p' -> exists m', meta_step (fst s) op = Ok (None, m') /\ is_meta layout p' (m', snd s).
Proof.
  intros E Hm Hop. pose proof (meta_op p s op Hm Hop) as H. rewrite E in H. destruct (meta_step (fst s) op) as [[r m']|e|]; [| |done].
  - destruct H as (p' & H & Hm'). destruct m as [q|e|]; cbn [rbind] in H; [|done|done]. apply Ok_inj in H. injection H as <- <-. split; [done|]. intros p' H. apply Ok_inj in H as <-. by exists m'.
  - destruct m as [q|e'|]; cbn [rbind] in H; done.
Qed.
Lemma meta_reserve p s : is_meta layout p s -> safe (Page.reserve_incarnation p) /\ forall i p', Page.reserve_incarnation p = Ok (i, p') ->
  i = meta_next (fst s) /\ 1 <= i < 2 ^ 64 /\ exists m', meta_step (fst s) Reserve = Ok (Some i, m') /\ is_meta layout p' (m', snd s).
Proof.
  intros Hm. pose proof (meta_op p s Reserve Hm I) as H. cbn [page_step] in H. pose proof Hm as (((_ & _ & _ & _ & Hw & _) & _) & _). cbn [meta_step] in *. destruct (meta_next (fst s) + 1 <? 2 ^ 64) eqn:El.
  - destruct H as (p' & H & Hm'). destruct (Page.reserve_incarnation p) as [[i q]|e|]; cbn [rbind] in H; [|done|done]. apply Ok_inj in H. injection H as -> ->. split; [done|]. intros i p'' H. apply Ok_inj in H. injection H as <- <-.
    split; [done|]. split; [lia|]. by eexists.
  - destruct (Page.reserve_incarnation p) as [[i q]|e'|]; cbn [rbind] in H; done.
Qed.
Lemma meta_reads p s : is_meta layout p s -> Page.packed_postings p = Ok (meta_packed (fst s)) /\ Page.owner_chain p = Ok (meta_owners (fst s)) /\ Page.free_head p = Ok (meta_free (fst s)) /\ meta_free (fst s) < 2 ^ 32 /\
  (forall b h t, Page.bucket p b = Ok (h, t) -> h < 2 ^ 32 /\ t < 2 ^ 32).
Proof.
  intros ((Hm & _) & _). pose proof (meta_getters _ _ _ Hm) as (G1 & G2 & G3 & _ & G5). pose proof Hm as (_ & _ & _ & _ & (_ & _ & Hf & _ & _ & _ & Hb)). split_and!; try done; [apply Hf|].
  intros b h t H. rewrite G5 in H. destruct (index (meta_buckets (fst s)) b) as [[x y]|] eqn:Ei; [|done]. apply Ok_inj in H. injection H as <- <-. rewrite list.Forall_forall in Hb. destruct (Hb (x, y)) as (? & ? & _); [|done]. unfold index in Ei. by eapply list_elem_of_lookup_2.
Qed.
Lemma meta_group p s : is_meta layout p s -> GroupMeta.grouped_state p = Ok (snd s).
Proof.
  intros ((Hm & Ht & Ho) & _). pose proof Hm as (Hf & Hk & _). apply grouped_state_iff; [done|done|]. split; [done|]. by rewrite (meta_next_field _ _ _ Hm).
Qed.
(** [set_grouped_state] with a frontier that is no longer valid. *)
Lemma tail_typed bs n g : tail_rep bs n g -> group_typed g.
Proof.
  assert (Hdef : group_typed GroupState.default) by (unfold group_typed, GroupState.default; cbn; split_and!; try done; by apply Forall_replicate).
  intros [_ ->|_ _ (Ha & Hj & Hd1 & Hd2)|_ _ (Ha & Hj & H1 & H2 & H3 & H4)]; [done| |].
  - destruct Hdef as (_ & _ & D1 & D2 & D3 & D4). unfold group_typed. rewrite Hd1, Hd2. split; [by destruct (GroupState.active g); [destruct Ha|]|]. by split_and!.
  - split; [by destruct (GroupState.active g); [destruct Ha|]|]. do 2 (split; [done|]). split; [|done]. eapply Forall_impl; [|exact H2]. intros [x|] Hx; [|done]. destruct Hx as (X1 & X2 & X3 & X4). done.
Qed.
Lemma meta_invalidate p s g active : is_meta layout p s -> GroupMeta.grouped_state p = Ok g -> GroupState.active g = Some active ->
  let g' := GroupState.mk (Some (mkSnapshot (snap_id active) (snap_head active) (snap_tail active) (snap_root active) (snap_after active) (frontier_root active) false)) (GroupState.journal g) (GroupState.deltas g) (GroupState.retired g) in
  safe (GroupMeta.set_grouped_state p g') /\ forall p', GroupMeta.set_grouped_state p g' = Ok p' -> is_meta layout p' (fst s, g').
Proof.
  intros (Hr & Hs & Hb) Hg Ha g'. pose proof Hr as ((Hp & Hk & _) & _). apply grouped_state_iff in Hg as [Ht _]; [|done|done]. apply tail_typed in Ht as (T1 & T2).
  assert (Hop : group_op_wf (SetGroups g')) by (split; [|done]; rewrite Ha in T1; cbn in *; exact T1). pose proof (group_meta_sim layout p s (SetGroups g') Hr Hop) as H. destruct s as [m g0]. cbn [group_meta_step group_page_step fst snd] in *.
  destruct (state_okb g' (meta_next m)); [|destruct (GroupMeta.set_grouped_state p g') as [q|e|]; cbn [rbind] in H; done].
  destruct H as (p' & E & Hr'). destruct (GroupMeta.set_grouped_state p g') as [q|e|] eqn:Eg; cbn [rbind] in E; [|done|done]. apply Ok_inj in E. injection E as ->. split; [done|]. intros q H. apply Ok_inj in H as <-.
  apply set_grouped_sound in Eg as [Hs' Hb']; [|done]. split; [done|]. split; [done|]. by rewrite Hb'.
Qed.
End Meta.

(** * Changes of a dictionary page *)
Section Terms.
Context (packed : bool) (p : Page.t) (next : N) (l : list Entry) (Hrep : dict_rep packed p next l).
Definition changed (p' : Page.t) : Prop := page_sound p' /\ Page.block p' = Page.block p.
Lemma dict_change op : dict_op_ok packed (Page.block p) l op -> safe (term_page_step p op) /\ forall x p', term_page_step p op = Ok (x, p') -> changed p'.
Proof.
  intros Hop. pose proof (dict_step_sim packed p next l op Hrep Hop) as H. destruct (dict_step packed (Page.block p) l op) as [[x l']|e|]; cbn [simulates] in H; [|by rewrite H|done].
  destruct H as (p' & -> & Hrep' & Hb). split; [done|]. intros y q E. apply Ok_inj in E. injection E as <- <-. split; [by eapply dict_sound|done].
Qed.
Lemma promote_page reference b : b < 2 ^ 32 -> safe (TermPage.promote_inline_second p reference b) /\ forall o p', TermPage.promote_inline_second p reference b = Ok (o, p') -> changed p'.
Proof.
  intros Hb. destruct (dict_change (Promote reference b) Hb) as [Hs Hok]. cbn [term_page_step] in *. destruct (TermPage.promote_inline_second p reference b) as [[o q]|e|]; cbn [rbind] in *; [|done|done]. split; [done|].
  intros o' p' H. apply Ok_inj in H. injection H as _ <-. by eapply Hok.
Qed.
Lemma set_second_page reference o : ref_wf o -> safe (TermPage.set_inline_second p reference (Some o)) /\ forall p', TermPage.set_inline_second p reference (Some o) = Ok p' -> changed p'.
Proof.
  intros Ho. destruct (dict_change (SetSecond reference (Some o)) Ho) as [Hs Hok]. cbn [term_page_step] in *. destruct (TermPage.set_inline_second p reference (Some o)) as [q|e|]; cbn [rbind] in *; [|done|done]. split; [done|].
  intros p' H. apply Ok_inj in H as <-. by eapply Hok.
Qed.
Lemma set_chain_page reference h t : dict_op_ok packed (Page.block p) l (SetChain reference h t) -> safe (TermPage.set_posting_chain p reference h t) /\ forall p', TermPage.set_posting_chain p reference h t = Ok p' -> changed p'.
Proof.
  intros Ho. destruct (dict_change (SetChain reference h t) Ho) as [Hs Hok]. cbn [term_page_step] in *. destruct (TermPage.set_posting_chain p reference h t) as [q|e|]; cbn [rbind] in *; [|done|done]. split; [done|].
  intros p' H. apply Ok_inj in H as <-. by eapply Hok.
Qed.
Lemma append_term_page text o : utf8_valid text = true -> ref_wf o -> safe (TermPage.append_term p text o) /\ forall r p', TermPage.append_term p text o = Ok (r, p') -> changed p'.
Proof.
  intros Ht Ho. destruct (dict_change (AddTerm text o) (conj Ht Ho)) as [Hs Hok]. cbn [term_page_step] in *. destruct (TermPage.append_term p text o) as [[r q]|e|]; cbn [rbind] in *; [|done|done]. split; [done|].
  intros r' p' H. apply Ok_inj in H. injection H as _ <-. by eapply Hok.
Qed.
Lemma term_facts reference t : TermPage.term p reference = Ok t -> exists pre e suf, find_entry packed PAGE_HEADER l (term_offset reference) = Some (pre, e, suf) /\ entry_wf packed (Page.block p) e /\
  t = entry_term (Page.block p) (term_offset reference) e /\ term_page reference = Page.block p /\ term_page reference < 2 ^ 32 /\ term_offset reference < 2 ^ 16.
Proof.
  intros H. pose proof (dict_reference _ _ _ _ _ _ Hrep H) as (H1 & H2 & _). rewrite (term_ok packed p next l) in H by done. apply entry_of_ok in H as (Hb & pre & e & suf & El & _ & Hf & Ht). apply Ok_inj in Ht as <-.
  exists pre, e, suf. split; [done|]. split; [by eapply entry_wf_at|]. done.
Qed.
End Terms.
Lemma set_next_page p n : page_sound p -> n < 2 ^ 32 -> safe (Page.set_next p n) /\ forall p', Page.set_next p n = Ok p' -> changed p p'.
Proof. intros Hs Hn. split; [by apply set_next_safe; apply Hs|]. intros p' H. apply set_next_ok in H as (_ & Hs' & ->); [|done|done]. by split. Qed.

(** * Linking terms *)
Section Writing.
Context {St : Type} {host : Host.t St} {laws : HostLaws St}.
Implicit Types (C : Chain) (d : Disk).
(** Where a writer may stop: the disk is a relation with these owner pages, and has kept
    the records it had at [d0]. *)
Definition stops (C : Chain) (d0 d : Disk) : Prop := (exists R, relation_rep Host.layout d R /\ r_chain R = C) /\ stable records d0 d.
(** Where it goes on: the metapage in memory is the one on disk. *)
Definition runs (C : Chain) (d0 : Disk) (meta : Page.t) (d : Disk) : Prop :=
  (exists R, relation_rep Host.layout d R /\ r_chain R = C /\ is_meta Host.layout meta (r_meta R)) /\ len d < 2 ^ 32 /\ stable records d0 d.
Lemma runs_stops C d0 meta d : runs C d0 meta d -> stops C d0 d.
Proof. intros ((R & H1 & H2 & _) & _ & H3). split; [by exists R|done]. Qed.
Lemma stops_quiet C d0 d d' : stops C d0 d -> stable quiet d d' -> stops C d0 d'.
Proof. intros ((R & H1 & H2) & H3) Hst. split; [exists R; split; [by eapply relation_quiet|done]|]. etrans; [done|by apply quiet_records]. Qed.
Lemma runs_quiet C d0 meta d d' : runs C d0 meta d -> stable quiet d d' -> len d' < 2 ^ 32 -> runs C d0 meta d'.
Proof. intros ((R & H1 & H2 & H3) & _ & H4) Hst Hl. split; [exists R; split; [by eapply relation_quiet|done]|]. split; [done|]. etrans; [done|by apply quiet_records]. Qed.
Lemma runs_meta C d0 meta d : runs C d0 meta d -> exists s, is_meta Host.layout meta s.
Proof. intros ((R & _ & _ & H) & _). by eexists. Qed.
Lemma runs_positive C d0 d : stops C d0 d -> 0 < len d.
Proof. intros ((R & [(p & (_ & _ & Hb) & _ & Hi) _ _ _ _] & _) & _). apply index_bound in Hi. lia. Qed.
(** A page that is loaded from a block of another kind. *)
Definition other (k : PageKind.t) : bool := match k with PageKind.Meta => false | _ => true end.
Lemma writable_loaded keep d b p q : loaded d b q -> keep (Page.kind q) = false -> page_sound p -> Page.block p = b -> writable keep d p.
Proof. intros [Hq _] Hk Hs <-. by eapply writable_over. Qed.
Lemma loaded_stable keep d d' b q : loaded d b q -> keep (Page.kind q) = true -> stable keep d d' -> loaded d' b q.
Proof. intros [Hq Hv] Hk Hst. split; [|done]. eapply comes_same; [done|]. by eapply Hst. Qed.
(** The metapage over itself. *)
Lemma writable_meta C d0 d p : stops C d0 d -> page_sound p -> Page.block p = 0 -> writable records d p.
Proof.
  intros ((R & HR & _) & _) Hs Hb. pose proof HR as [(m & (Hm & Hms & Hmb) & Hd) _ _ _ _]. split; [done|]. rewrite Hb. split; [destruct Hd as [_ Hi]; apply index_bound in Hi; lia|].
  intros q Hq. by rewrite (comes_meta _ _ _ _ HR Hq).
Qed.
Lemma wp_commit_pages keep d images (Q : unit -> Disk -> Prop) E : Forall (writable keep d) images -> NoDup (Page.block <$> images) -> 1 <= len images <= 3 ->
  (stable keep d (write d images) -> Q tt (write d images)) -> E d -> (stable keep d (write d images) -> E (write d images)) -> wp d (Host.commit images) Q E.
Proof.
  intros Hw Hd Hl HQ H1 H2. pose proof (stable_write keep d images Hw Hd) as Hst. apply wp_commit; [|by apply HQ|done|by intros; apply H2]. split; [done|]. split; [|done]. eapply Forall_impl; [|exact Hw]. by intros p (? & ? & _).
Qed.
(** Pages that are no records are written. *)
Lemma wp_commit_quiet C d0 meta d images (Q : unit -> Disk -> Prop) : runs C d0 meta d -> Forall (writable quiet d) images -> NoDup (Page.block <$> images) -> 1 <= len images <= 3 ->
  (forall d', d' = write d images -> runs C d0 meta d' -> Q tt d') -> wp d (Host.commit images) Q (stops C d0).
Proof.
  intros Hr Hw Hd Hl HQ. pose proof (runs_stops _ _ _ _ Hr) as Hs. apply (wp_commit_pages quiet); [done|done|done| |done|].
  - intros Hst. apply HQ; [done|]. eapply runs_quiet; [done|done|]. rewrite len_write. apply Hr.
  - intros Hst. by eapply stops_quiet.
Qed.
(** The metapage is written, with pages that are no records. *)
Lemma wp_commit_meta C d0 d meta s images (Q : unit -> Disk -> Prop) : (exists R, relation_rep Host.layout d R /\ r_chain R = C /\ meta_owners (fst s) = meta_owners (fst (r_meta R)) /\ next_incarnation R <= meta_next (fst s)) -> stable records d0 d -> len d < 2 ^ 32 ->
  is_meta Host.layout meta s -> Forall (writable records d) images -> NoDup (0 :: (Page.block <$> images)) -> len images <= 2 ->
  (forall d', d' = write d (meta :: images) -> runs C d0 meta d' -> Q tt d') -> wp d (Host.commit (meta :: images)) Q (stops C d0).
Proof.
  intros (R & HR & HC & Ho & Hn) Hst0 Hld Hm Hw Hd Hl HQ. assert (Hstop : stops C d0 d) by (split; [by exists R|done]). pose proof Hm as (_ & Hms & Hmb).
  assert (Hall : Forall (writable records d) (meta :: images)) by (constructor; [by eapply writable_meta|done]). assert (Hd' : NoDup (Page.block <$> meta :: images)) by (cbn; by rewrite Hmb).
  assert (Hrel : stable records d (write d (meta :: images)) -> relation_rep Host.layout (write d (meta :: images)) (mkRelation s (r_chain R))).
  { intros Hst. eapply relation_meta; [done|done|done| |done|done]. eapply written; [done|done|left]. }
  apply (wp_commit_pages records); [done|done|rewrite len_cons; lia| |done|].
  - intros Hst. apply HQ; [done|]. split; [|split; [by rewrite len_write|by etrans]]. exists (mkRelation s (r_chain R)). by split; [apply Hrel|].
  - intros Hst. split; [|by etrans]. exists (mkRelation s (r_chain R)). by split; [apply Hrel|].
Qed.
Lemma wp_new_block C d0 meta d (Q : N -> Disk -> Prop) : runs C d0 meta d -> (0 < len d < NO_BLOCK -> runs C d0 meta (d ++ [[]]) -> Q (len d) (d ++ [[]])) -> wp d allocate Q (stops C d0).
Proof.
  intros Hr HQ. pose proof (runs_stops _ _ _ _ Hr) as Hs. pose proof (runs_positive _ _ _ Hs) as H0. pose proof Hr as (_ & Hl & _). apply wp_allocate; [done| |done|].
  - intros Hn. apply HQ; [lia|]. eapply runs_quiet; [done|apply stable_extend|]. rewrite len_app. change (len [[]]) with 1. unfold NO_BLOCK, u32_max in Hn. lia.
  - intros _. eapply stops_quiet; [done|apply stable_extend].
Qed.
Lemma block_valid_new n : 0 < n < NO_BLOCK -> block_valid n = true /\ n < 2 ^ 32.
Proof. intros H. unfold block_valid. rewrite !(proj2 (N.eqb_neq _ _)) by lia. split; [done|]. unfold NO_BLOCK, u32_max in H. lia. Qed.
Lemma wp_invalidate C d0 meta d (Q : Page.t -> Disk -> Prop) : runs C d0 meta d -> (forall meta' d', runs C d0 meta' d' -> stable other d d' -> Q meta' d') -> wp d (invalidate_frontier meta) Q (stops C d0).
Proof.
  intros Hr HQ. pose proof (runs_stops _ _ _ _ Hr) as Hs. pose proof Hr as ((R & HR & HC & Hm) & Hl & Hst). unfold invalidate_frontier.
  pose proof (meta_group _ _ _ Hm) as Hg. rewrite Hg. apply wp_bind, wp_ret. destruct (GroupState.active (snd (r_meta R))) as [active|] eqn:Ea; [|by apply wp_ret, HQ]. destruct (frontier_valid active); [|by apply wp_ret, HQ].
  destruct (meta_invalidate _ _ _ _ _ Hm Hg Ea) as [Hsf Hok]. apply wp_bind, wp_lift; [done| |done]. intros meta' Hm'. apply Hok in Hm'. apply wp_bind.
  apply (fun H => wp_commit_meta C d0 d meta' _ [] _ H Hst Hl Hm'); [exists R; by split_and!|constructor|by apply list.NoDup_singleton|done|]. intros d' -> Hr'.
  apply wp_bind, wp_event; [|intros _; by eapply runs_stops]. apply wp_ret, HQ; [done|]. apply stable_write; [|by apply list.NoDup_singleton]. constructor; [|constructor].
  destruct Hm' as (_ & Hms & Hmb). pose proof (writable_meta C d0 d meta' Hs Hms Hmb) as (_ & Hb & _). split; [done|]. split; [done|]. rewrite Hmb. intros q Hq. by rewrite (comes_meta _ _ _ _ HR Hq).
Qed.
(** ** A page of postings for a term *)
Lemma wp_postings {A} (k : Page.t -> Eff St A) d block reference (Q : A -> Disk -> Prop) E : block < 2 ^ 32 -> term_page reference < 2 ^ 32 -> term_offset reference < 2 ^ 16 -> E d ->
  (forall page, posting_rep page reference NO_BLOCK [] [] -> Page.kind page = PageKind.Postings -> Page.length_ page = 24 -> Page.block page = block -> wp d (k page) Q E) -> wp d (let! page := elift (Page.postings block reference) in k page) Q E.
Proof.
  intros Hb H1 H2 HE Hk. apply wp_bind, wp_lift; [apply postings_safe| |done]. intros page Hp. apply postings_fresh in Hp as (Hrep & _ & Hpb & Hpk & Hpl & _); [|done|done|done]. by apply Hk.
Qed.
Lemma wp_append {A} (k : bool * Page.t -> Eff St A) d page reference l owner (Q : A -> Disk -> Prop) E : posting_rep page reference NO_BLOCK l [] -> Page.kind page = PageKind.Postings -> Page.length_ page + 16 <= CAPACITY -> ref_wf owner ->
  (forall page', posting_rep page' reference NO_BLOCK (l ++ [owner]) [] -> Page.kind page' = PageKind.Postings -> Page.length_ page' = Page.length_ page + 16 -> Page.block page' = Page.block page -> wp d (k (true, page')) Q E) ->
  wp d (let! r := elift (PostingPage.append_posting page owner) in k r) Q E.
Proof.
  intros Hrep Hk Hl Ho HQ. pose proof (append_posting_ok page reference NO_BLOCK l [] owner Hrep Hk Ho) as Ha. rewrite (proj2 (N.ltb_ge _ _)) in Ha by lia. destruct Ha as (p1 & -> & Hrep1 & Hb1 & Hk1 & Hl1). apply wp_bind, wp_ret. by apply HQ.
Qed.
Lemma wp_promote C d0 meta d dictionary reference second owner t (Q : Page.t -> Disk -> Prop) : runs C d0 meta d -> loaded d (Page.block dictionary) dictionary -> Page.kind dictionary = PageKind.Dictionary ->
  TermPage.term dictionary reference = Ok t -> ref_wf second -> ref_wf owner -> (forall meta' d', runs C d0 meta' d' -> Q meta' d') -> wp d (promote_second meta dictionary reference second owner) Q (stops C d0).
Proof.
  intros Hr Hl Hk Ht Ho1 Ho2 HQ. unfold promote_second. apply wp_bind, wp_invalidate with (1 := Hr). intros meta1 d1 Hr1 Hst. assert (Hl1 : loaded d1 (Page.block dictionary) dictionary) by (eapply (loaded_stable other); [done|by rewrite Hk|done]).
  destruct (loaded_dictionary _ _ _ Hl1 Hk) as (packed & next & l & Hrep). destruct (term_facts _ _ _ _ Hrep _ _ Ht) as (pre & e & suf & _ & _ & _ & _ & Hp & Hoff).
  apply wp_bind. eapply wp_new_block; [done|]. intros Hn Hr2. pose proof (runs_stops _ _ _ _ Hr2) as Hs. destruct (block_valid_new _ Hn) as [_ Hb].
  apply wp_postings; [done|done|done|done|]. intros p0 Hrep0 Hk0 Hl0 Hb0. eapply wp_append; [exact Hrep0|exact Hk0|by rewrite Hl0; vm_compute|done|]. intros p1 Hrep1 Hk1 Hl1' Hb1. rewrite Hl0 in Hl1'. cbn iota.
  eapply wp_append; [exact Hrep1|exact Hk1|by rewrite Hl1'; vm_compute|done|]. intros p2 Hrep2 Hk2 _ Hb2.
  cbn [negb]. destruct (promote_page _ _ _ _ Hrep reference (Page.block p2)) as [Hsf Hok]; [by rewrite Hb2, Hb1, Hb0|]. apply wp_bind, wp_lift; [done| |done]. intros [o dict'] Hd. destruct (Hok _ _ Hd) as [Hds Hdb].
  pose proof (loaded_page_ok _ _ _ Hl1) as (_ & _ & Hi). apply index_bound in Hi.
  apply wp_bind, (wp_commit_quiet C d0 meta1 _ _ _ Hr2); [| |done|].
  - constructor; [apply writable_extend; eapply writable_loaded; [exact Hl1|by rewrite Hk|exact Hds|exact Hdb]|]. constructor; [|constructor]. apply writable_new; [by eapply posting_sound|by rewrite Hb2, Hb1, Hb0|done].
  - cbn. rewrite Hdb, Hb2, Hb1, Hb0. apply list.NoDup_cons. split; [|by apply list.NoDup_singleton]. rewrite list_elem_of_singleton. lia.
  - intros d' _ Hr'. by apply wp_ret, HQ.
Qed.
Lemma pair_distinct (a b : N) : a <> b -> NoDup [a; b].
Proof. intros H. apply list.NoDup_cons. split; [by rewrite list_elem_of_singleton|by apply list.NoDup_singleton]. Qed.
Lemma triple_distinct (a b c : N) : a <> b -> a <> c -> b <> c -> NoDup [a; b; c].
Proof. intros H1 H2 H3. apply list.NoDup_cons. split; [|by apply pair_distinct]. rewrite !elem_of_cons, elem_of_nil. naive_solver. Qed.
Lemma loaded_below d b p : loaded d b p -> b < len d.
Proof. intros (_ & _ & Hi)%loaded_page_ok. by apply index_bound in Hi. Qed.
Lemma wp_start C d0 meta d dictionary reference owner t (Q : Page.t -> Disk -> Prop) : runs C d0 meta d -> loaded d (Page.block dictionary) dictionary -> Page.kind dictionary = PageKind.Dictionary ->
  TermPage.term dictionary reference = Ok t -> ref_wf owner -> (forall meta' d', runs C d0 meta' d' -> Q meta' d') -> wp d (start_chain meta dictionary reference owner) Q (stops C d0).
Proof.
  intros Hr Hl Hk Ht Ho HQ. pose proof (runs_stops _ _ _ _ Hr) as Hs. unfold start_chain. destruct (loaded_dictionary _ _ _ Hl Hk) as (packed & next & l & Hrep). destruct (term_facts _ _ _ _ Hrep _ _ Ht) as (pre & e & suf & Hf & _ & _ & _ & Hp & Hoff).
  rewrite (dict_packed _ _ _ _ Hrep). apply wp_bind, wp_ret. destruct packed.
  - destruct (set_second_page _ _ _ _ Hrep reference owner Ho) as [Hsf Hok]. apply wp_bind, wp_lift; [done| |done]. intros dict' Hd. destruct (Hok _ Hd) as [Hds Hdb].
    apply wp_bind, (wp_commit_quiet C d0 meta _ _ _ Hr); [|by apply list.NoDup_singleton|done|intros d' _ Hr'; by apply wp_ret, HQ]. constructor; [|constructor]. eapply writable_loaded; [exact Hl|by rewrite Hk|exact Hds|exact Hdb].
  - apply wp_bind. eapply wp_new_block; [done|]. intros Hn Hr2. pose proof (runs_stops _ _ _ _ Hr2) as Hs2. destruct (block_valid_new _ Hn) as [_ Hb].
    apply wp_postings; [done|done|done|done|]. intros p0 Hrep0 Hk0 Hl0 Hb0. eapply wp_append; [exact Hrep0|exact Hk0|by rewrite Hl0; vm_compute|done|]. intros p1 Hrep1 Hk1 Hl1 Hb1. cbn [negb].
    destruct (set_chain_page _ _ _ _ Hrep reference (Page.block p1) (Page.block p1)) as [Hsf Hok]; [by rewrite Hb1, Hb0|]. apply wp_bind, wp_lift; [done| |done]. intros dict' Hd. destruct (Hok _ Hd) as [Hds Hdb].
    pose proof (loaded_below _ _ _ Hl) as Hlt. apply wp_bind, (wp_commit_quiet C d0 meta _ _ _ Hr2); [| |done|intros d' _ Hr'; by apply wp_ret, HQ].
    + constructor; [apply writable_extend; eapply writable_loaded; [exact Hl|by rewrite Hk|exact Hds|exact Hdb]|]. constructor; [|constructor]. apply writable_new; [by eapply posting_sound|by rewrite Hb1, Hb0|done].
    + cbn. rewrite Hdb, Hb1, Hb0. apply pair_distinct. lia.
Qed.
(** [load_posting] cannot stand in for a chain: the entry holds no second owner, and a
    shadowed one does not name its own page. *)
Lemma wp_extend_chain C d0 meta d dictionary reference owner t (Q : Page.t -> Disk -> Prop) : runs C d0 meta d -> loaded d (Page.block dictionary) dictionary -> Page.kind dictionary = PageKind.Dictionary ->
  TermPage.term dictionary reference = Ok t -> t_inline t = None -> t_head t <> NO_BLOCK -> ref_wf owner -> (forall meta' d', runs C d0 meta' d' -> Q meta' d') -> wp d (extend_chain meta dictionary reference (t_head t) (t_tail t) owner) Q (stops C d0).
Proof.
  intros Hr Hl Hk Ht Hin Hhead Ho HQ. pose proof (runs_stops _ _ _ _ Hr) as Hs. unfold extend_chain. destruct (loaded_dictionary _ _ _ Hl Hk) as (packed & next & l & Hrep).
  destruct (term_facts _ _ _ _ Hrep _ _ Ht) as (pre & e & suf & Hf & Hw & Et & Hpage & Hp & Hoff). apply wp_bind, wp_load_posting; [apply Hr| | |done].
  2:{ intros q p Hq Hqk Hv _. exfalso. pose proof (loaded_page_ok _ _ _ Hq) as (_ & Hqb & _). unfold virtual_posting in Hv. apply rbind_ok in Hv as (t' & Ht' & Hv). apply rbind_ok in Hv as (second & Hsec%ok_or_ok & _).
      destruct (loaded_dictionary _ _ _ Hq Hqk) as (packed' & next' & l' & Hrep'). destruct (term_facts _ _ _ _ Hrep' _ _ Ht') as (_ & _ & _ & _ & _ & _ & Hpage' & _).
      assert (E : q = dictionary). { destruct Hq as [Hq _], Hl as [Hl _]. rewrite <- Hqb, <- Hpage', Hpage in Hq. by eapply comes_unique. } subst q. rewrite Ht in Ht'. apply Ok_inj in Ht' as <-. rewrite Hin in Hsec.
      subst t. cbn [t_inline t_shadow t_tail entry_term] in *. destruct Hw as (_ & _ & _ & _ & _ & _ & Hw). destruct packed; [|by rewrite Hw in Hsec]. unfold second_wf in Hw. destruct (e_second e); [done|done|]. destruct Hw as (_ & _ & _ & _ & _ & Hw). by apply Hw. }
  intros page Hpg Hterm. assert (Hpk : PostingPage.is_posting (Page.kind page) = true). { unfold PostingPage.posting_term in Hterm. by destruct (PostingPage.is_posting (Page.kind page)). }
  destruct (loaded_postings _ _ _ Hpg Hpk) as (term & nx & refs & roots & Hval). pose proof (v_rep _ _ _ _ _ _ Hval) as Hprep. pose proof (posting_sound _ _ _ _ _ Hprep) as Hpsound. pose proof (loaded_page_ok _ _ _ Hpg) as (_ & Hpb & _).
  assert (Hquiet : quiet (Page.kind page) = false) by (by destruct (Page.kind page)).
  apply wp_bind, wp_lift; [apply page_next_safe; apply Hpsound| |done]. intros last_ _. apply wp_if; intros _; [by apply wp_fail|].
  assert (Hrest : wp d (let! block := allocate in let! next := elift (Page.postings block reference) in let! '(fits, next) := elift (PostingPage.append_posting next owner) in if negb fits then efail InvalidState else
    let! page := elift (Page.set_next page (Page.block next)) in let! dictionary := elift (TermPage.set_posting_chain dictionary reference (t_head t) (Page.block next)) in
    let! _ := Host.commit [dictionary; page; next] in eret meta) Q (stops C d0)).
  { apply wp_bind. eapply wp_new_block; [done|]. intros Hn Hr2. pose proof (runs_stops _ _ _ _ Hr2) as Hs2. destruct (block_valid_new _ Hn) as [_ Hb].
    apply wp_postings; [done|done|done|done|]. intros p0 Hrep0 Hk0 Hl0 Hb0. eapply wp_append; [exact Hrep0|exact Hk0|by rewrite Hl0; vm_compute|done|]. intros p1 Hrep1 Hk1 Hl1 Hb1. cbn [negb].
    destruct (set_next_page page (Page.block p1) Hpsound) as [Hsf Hok]; [by rewrite Hb1, Hb0|]. apply wp_bind, wp_lift; [done| |done]. intros page' Hp'. destruct (Hok _ Hp') as [Hps' Hpb'].
    pose proof (loaded_below _ _ _ Hl) as Hlt. pose proof (loaded_below _ _ _ Hpg) as Hlt2.
    destruct (set_chain_page _ _ _ _ Hrep reference (t_head t) (Page.block p1)) as [Hsf2 Hok2].
    { destruct Hw as (_ & _ & _ & He1 & He2 & _ & Hw). subst t. cbn [t_head t_inline entry_term dict_op_ok] in *. split; [done|]. split; [by rewrite Hb1, Hb0|]. intros ->. rewrite Hb1, Hb0. unfold second_wf in Hw.
      split; [destruct (e_second e); [apply Hw|done|apply Hw]|]. split; [lia|]. intros pre' e' suf' o Hf' He'. split; [|lia]. rewrite Hf in Hf'. injection Hf' as <- <- <-. done. }
    apply wp_bind, wp_lift; [done| |done]. intros dict' Hd. destruct (Hok2 _ Hd) as [Hds Hdb]. apply wp_bind, (wp_commit_quiet C d0 meta _ _ _ Hr2); [| |done|intros d' _ Hr'; by apply wp_ret, HQ].
    + constructor; [apply writable_extend; eapply writable_loaded; [exact Hl|by rewrite Hk|exact Hds|exact Hdb]|]. constructor; [apply writable_extend; eapply writable_loaded; [exact Hpg|done|done|by rewrite Hpb']|]. constructor; [|constructor].
      apply writable_new; [by eapply posting_sound|by rewrite Hb1, Hb0|done].
    + cbn. rewrite Hdb, Hpb', Hb1, Hb0. apply triple_distinct; [|lia|lia]. intros E. destruct Hl as [Hl _], Hpg as [Hpg _]. rewrite <- Hpb, <- E in Hpg. pose proof (comes_unique _ _ _ _ Hl Hpg) as ->. by rewrite Hk in Hpk. }
  apply wp_bind. case_bool_decide as Hpost; [|apply wp_ret; exact Hrest].
  pose proof (append_posting_ok page term nx refs roots owner Hprep Hpost Ho) as Ha. destruct (CAPACITY <? Page.length_ page + 16); [rewrite Ha; apply wp_ret; exact Hrest|].
  destruct Ha as (page' & -> & Hrep' & Hb' & _). apply wp_ret. apply wp_bind, (wp_commit_quiet C d0 meta _ _ _ Hr); [|by apply list.NoDup_singleton|done|intros d' _ Hr'; by apply wp_ret, HQ].
  constructor; [|constructor]. eapply writable_loaded; [exact Hpg|done|by eapply posting_sound|by rewrite Hb'].
Qed.
Lemma wp_new_terms C d0 meta d (Q : Page.t -> Disk -> Prop) : runs C d0 meta d -> (forall packed page, 0 < len d < NO_BLOCK -> runs C d0 meta (d ++ [[]]) -> dict_rep packed page NO_BLOCK [] -> Page.block page = len d -> Q page (d ++ [[]])) -> wp d (new_terms meta) Q (stops C d0).
Proof.
  intros Hr HQ. pose proof Hr as ((R & _ & _ & Hm) & _). pose proof (meta_reads _ _ _ Hm) as (Hpk & _). unfold new_terms. rewrite Hpk. apply wp_bind, wp_ret. apply wp_bind. eapply wp_new_block; [done|]. intros Hn Hr2.
  destruct (block_valid_new _ Hn) as [Hv Hb]. destruct (dict_fresh (meta_packed (fst (r_meta R))) (len d) Hb Hv) as (page & Hp & Hrep & Hpb). unfold new_dictionary in Hp. rewrite Hp. apply wp_ret. by eapply HQ.
Qed.
(** The fields that leave the owners alone. *)
Lemma set_keeps m op m' : meta_step m op = Ok (None, m') -> match op with SetBucket _ _ _ | SetFree _ => True | _ => False end -> meta_owners m' = meta_owners m /\ meta_next m' = meta_next m.
Proof. intros H Hop. destruct op; try done; cbn [meta_step] in H; apply if_ok_err in H as [_ H]; apply Ok_inj in H; by injection H as <-. Qed.
Lemma wp_set_bucket C d0 meta d bucket h t images (Q : Page.t -> Disk -> Prop) : runs C d0 meta d -> h < 2 ^ 32 -> t < 2 ^ 32 -> Forall (writable records d) images -> NoDup (0 :: (Page.block <$> images)) -> len images <= 2 ->
  (forall meta' d', runs C d0 meta' d' -> Q meta' d') ->
  wp d (let! meta := elift (Page.set_bucket meta bucket h t) in let! _ := Host.commit (meta :: images) in eret meta) Q (stops C d0).
Proof.
  intros Hr Hh Ht Hw Hd Hl HQ. pose proof (runs_stops _ _ _ _ Hr) as Hs. pose proof Hr as ((R & HR & HC & Hm) & Hld & Hst).
  destruct (meta_set _ (Page.set_bucket meta bucket h t) meta _ (SetBucket bucket h t) eq_refl Hm) as [Hsf Hok]; [done|]. apply wp_bind, wp_lift; [done| |done]. intros meta' Hm'. destruct (Hok _ Hm') as (m' & Hstep & Hm2).
  destruct (set_keeps _ _ _ Hstep I) as [Ho Hn]. apply wp_bind. apply (fun H => wp_commit_meta C d0 d meta' _ images _ H Hst Hld Hm2 Hw Hd Hl).
  - exists R. split_and!; try done. cbn. unfold next_incarnation. rewrite Hn. lia.
  - intros d' _ Hr'. by apply wp_ret, HQ.
Qed.
Lemma loaded_elsewhere C d0 d b q : stops C d0 d -> loaded d b q -> quiet (Page.kind q) = false -> b <> 0 /\ b ∉ C.*1.
Proof. intros ((R & HR & <-) & _) [Hq _] Hk. by eapply elsewhere. Qed.
Lemma wp_add_term C d0 meta d text owner (Q : Page.t -> Disk -> Prop) : runs C d0 meta d -> utf8_valid text = true -> ref_wf owner -> (forall meta' d', runs C d0 meta' d' -> Q meta' d') -> wp d (add_term meta text owner) Q (stops C d0).
Proof.
  intros Hr Ht Ho HQ. pose proof (runs_stops _ _ _ _ Hr) as Hs. pose proof Hr as ((R & HR & HC & Hm) & Hl & Hst). unfold add_term. apply wp_bind, wp_lift; [apply bucket_safe; by eapply is_meta_fits| |done].
  intros [head tail] Hb. pose proof (meta_reads _ _ _ Hm) as (_ & _ & _ & _ & Hbu). destruct (Hbu _ _ _ Hb) as [Hh Htl]. apply wp_if; intros _.
  - apply wp_bind. eapply wp_new_terms; [done|]. intros packed page Hn Hr2 Hrep Hpb. pose proof (runs_stops _ _ _ _ Hr2) as Hs2. destruct (block_valid_new _ Hn) as [_ Hbn].
    destruct (append_term_page _ _ _ _ Hrep text owner Ht Ho) as [Hsf Hok]. apply wp_bind, wp_lift; [done| |done]. intros [term page'] Hp'. destruct (Hok _ _ Hp') as [Hps Hpb'].
    apply wp_bind, wp_lift; [by destruct term| |done]. intros _ _. eapply wp_set_bucket; [exact Hr2|by rewrite Hpb', Hpb|by rewrite Hpb', Hpb| | |done|exact HQ].
    + constructor; [|constructor]. apply writable_new; [done|by rewrite Hpb'|done].
    + cbn. rewrite Hpb', Hpb. apply pair_distinct. lia.
  - apply wp_bind, wp_load; [done| |done]. intros page Hpg Hpk. destruct (loaded_dictionary _ _ _ Hpg Hpk) as (packed & next & l & Hrep). pose proof (loaded_page_ok _ _ _ Hpg) as (_ & Hpb & _). pose proof (loaded_below _ _ _ Hpg) as Hlt.
    assert (Hq : quiet (Page.kind page) = false) by by rewrite Hpk. destruct (loaded_elsewhere _ _ _ _ _ Hs Hpg Hq) as [Hne _].
    destruct (append_term_page _ _ _ _ Hrep text owner Ht Ho) as [Hsf Hok]. apply wp_bind, wp_lift; [done| |done]. intros [term page'] Hp'. destruct (Hok _ _ Hp') as [Hps Hpb']. destruct term as [term|].
    + apply wp_bind, (wp_commit_quiet C d0 meta _ _ _ Hr); [|by apply list.NoDup_singleton|done|intros d' _ Hr'; by apply wp_ret, HQ]. constructor; [|constructor]. eapply writable_loaded; [exact Hpg|done|done|by rewrite Hpb'].
    + apply wp_bind. eapply wp_new_terms; [done|]. intros packed2 next2 Hn Hr2 Hrep2 Hnb. pose proof (runs_stops _ _ _ _ Hr2) as Hs2. destruct (block_valid_new _ Hn) as [_ Hbn].
      destruct (append_term_page _ _ _ _ Hrep2 text owner Ht Ho) as [Hsf2 Hok2]. apply wp_bind, wp_lift; [done| |done]. intros [term next3] Hn3. destruct (Hok2 _ _ Hn3) as [Hns Hnb'].
      apply wp_bind, wp_lift; [by destruct term| |done]. intros _ _. destruct (set_next_page page' (Page.block next3) Hps) as [Hsf4 Hok4]; [by rewrite Hnb', Hnb|]. apply wp_bind, wp_lift; [done| |done]. intros page4 Hp4. destruct (Hok4 _ Hp4) as [Hps4 Hpb4].
      assert (Hrec : records (Page.kind page) = false) by by rewrite Hpk.
      eapply wp_set_bucket; [exact Hr2|done|by rewrite Hnb', Hnb| | |done|exact HQ].
      * constructor; [apply writable_extend; eapply writable_loaded; [exact Hpg|done|done|by rewrite Hpb4, Hpb']|]. constructor; [|constructor]. apply writable_new; [done|by rewrite Hnb'|done].
      * cbn. rewrite Hpb4, Hpb', Hpb, Hnb', Hnb. apply triple_distinct; lia.
Qed.
Lemma wp_link_term C d0 meta d text owner (Q : Page.t -> Disk -> Prop) : runs C d0 meta d -> utf8_valid text = true -> ref_wf owner -> (forall meta' d', runs C d0 meta' d' -> Q meta' d') -> wp d (link_term meta text owner) Q (stops C d0).
Proof.
  intros Hr Ht Ho HQ. pose proof (runs_stops _ _ _ _ Hr) as Hs. pose proof Hr as ((R & HR & HC & Hm) & Hl & Hst). unfold link_term. apply wp_bind, wp_find_term; [done|by eapply is_meta_fits| |done].
  intros [[dictionary reference]|] Hf; [|by apply wp_add_term]. destruct Hf as [Hd Hk]. apply wp_bind, wp_lift; [apply term_safe; [by eapply loaded_fits|by eapply dictionary_long]| |done]. intros t Hterm.
  destruct (t_inline t) as [second|] eqn:Es.
  - eapply wp_promote; [done|done|done|exact Hterm| |done|done]. destruct (loaded_dictionary _ _ _ Hd Hk) as (packed & next & l & Hrep). destruct (term_facts _ _ _ _ Hrep _ _ Hterm) as (_ & e & _ & _ & Hw & -> & _). cbn in Es.
    destruct Hw as (_ & _ & _ & _ & _ & _ & Hw). destruct packed; [|by rewrite Hw in Es]. unfold second_wf in Hw. destruct (e_second e); cbn in Es; [done| |done]. injection Es as ->. apply Hw.
  - apply wp_if; intros Hh; [by eapply wp_start|]. apply N.eqb_neq in Hh. by eapply wp_extend_chain.
Qed.
End Writing.

(** * Payloads in fragments *)
(** What a reader meets from a block on: the pieces of one owner's payload in order. *)
Fixpoint fragments_at (d : Disk) (owner : OwnerRef) (head offset : N) (pieces : list (list byte)) : Prop :=
  match pieces with
  | [] => head = NO_BLOCK
  | piece :: pieces => exists p next, comes d head p /\ Page.kind p = PageKind.Fragment /\ Page.next p = Ok next /\ PostingPage.fragment_data p = Ok (owner, offset, piece) /\
      fragments_at d owner next (offset + len piece) pieces
  end.
Lemma fragments_stable keep d d' owner pieces : keep PageKind.Fragment = true -> forall head offset, stable keep d d' -> fragments_at d owner head offset pieces -> fragments_at d' owner head offset pieces.
Proof.
  intros Hkeep. induction pieces as [|piece pieces IH]; intros head offset Hst H; [done|]. destruct H as (p & next & Hp & Hk & Hn & Hf & H). exists p, next. split; [|split_and!; try done; by apply IH].
  eapply comes_same; [done|]. apply (Hst head p Hp). by rewrite Hk.
Qed.
Lemma slice_take_all {A} (l : list A) a n : a <= n -> n <= len l -> slice (take (N.to_nat n) l) a n = slice l a n.
Proof.
  intros Ha H. destruct (slice_exists (take (N.to_nat n) l) a n) as (v & Hv & _); [done|rewrite len_take; lia|]. rewrite Hv. symmetry. by eapply slice_of_take.
Qed.
Lemma fragment_reload block owner next offset piece p : block < 2 ^ 32 -> ref_wf owner -> next < 2 ^ 32 -> offset < 2 ^ 32 -> Page.fragment block owner next offset piece = Ok p ->
  page_sound p /\ Page.block p = block /\ Page.kind (reloaded p) = PageKind.Fragment /\ Page.next (reloaded p) = Ok next /\ PostingPage.fragment_data (reloaded p) = Ok (owner, offset, piece).
Proof.
  intros Hb Ho Hn Hoff H. apply fragment_ok in H as (Hs & Hpb & Hk & Hl & Hpl & p0 & Hset & Hs0 & Hsl); [|done|done|done]. destruct (reloaded_fields p Hs) as (Hs' & Hu & Hl'). pose proof Hs' as (Hf' & H16 & _).
  pose proof Hset as (_ & _ & Ep)%set_next_ok; [|done|done]. pose proof (proj1 Hs0) as [Hb0 Hc0]. pose proof (proj1 Hs) as [Hbp Hcp]. change FRAGMENT_HEADER with 36 in Hl.
  split; [done|]. split; [done|]. split; [exact Hk|]. split.
  - unfold Page.next. rewrite page_u32 by (done || lia). rewrite field_used by (done || lia). rewrite Ep. cbn [Page.set_buffer Page.buffer]. f_equal. apply (field_splice_same (Page.buffer p0) 12 4 next); [rewrite Hb0; unfold CAPACITY; lia|exact Hn].
  - apply fragment_data_exact; [done|exact Hk|done|]. split; [done|]. split; [done|]. fold (used (reloaded p)). rewrite Hu, Hl'. unfold used. rewrite slice_take_all by lia. rewrite Ep at 1. cbn [Page.set_buffer Page.buffer].
    rewrite slice_splice_other by (rewrite len_le_bytes, ?Hb0; unfold CAPACITY in *; lia). rewrite Hl. replace (36 + len piece) with (16 + (20 + len piece)) by lia. exact Hsl.
Qed.
Section Payload.
Context {St : Type} {host : Host.t St} {laws : HostLaws St}.
Context (C : Chain) (d0 : Disk) (owner : OwnerRef) (bytes : list byte) (Ho : ref_wf owner) (Hbytes : len bytes <= MAX_DOCUMENT_BYTES).
(** The part of the payload from piece [k] on is stored, from a block on. *)
Definition stored_from (k : N) (state : N * Page.t) (d : Disk) : Prop :=
  runs C d0 (snd state) d /\ fst state < 2 ^ 32 /\ exists pieces, fragments_at d owner (fst state) (k * FRAGMENT_BYTES) pieces /\ concat pieces = drop (N.to_nat (k * FRAGMENT_BYTES)) bytes /\ Forall (fun x => x <> []) pieces.
Lemma fragment_piece k : k * FRAGMENT_BYTES < len bytes -> exists piece, slice bytes (k * FRAGMENT_BYTES) (N.min (k * FRAGMENT_BYTES + FRAGMENT_BYTES) (len bytes)) = Some piece /\
  drop (N.to_nat (k * FRAGMENT_BYTES)) bytes = piece ++ drop (N.to_nat ((k + 1) * FRAGMENT_BYTES)) bytes /\ ((k + 1) * FRAGMENT_BYTES <= len bytes -> len piece = FRAGMENT_BYTES).
Proof.
  intros Hk. change FRAGMENT_BYTES with 8132 in *. destruct (slice_exists bytes (k * 8132) (N.min (k * 8132 + 8132) (len bytes))) as (piece & Hp & Hl); [lia|lia|]. exists piece. split; [done|]. split; [|lia].
  apply slice_ok in Hp as (_ & _ & ->). rewrite <- (take_drop (N.to_nat (N.min (k * 8132 + 8132) (len bytes) - k * 8132)) (drop (N.to_nat (k * 8132)) bytes)) at 1. f_equal. rewrite drop_drop.
  destruct (N.le_gt_cases (k * 8132 + 8132) (len bytes)); [f_equal; lia|]. unfold len in *. rewrite (drop_ge bytes (N.to_nat ((k + 1) * 8132))) by lia. apply drop_ge. lia.
Qed.
Lemma stored_next k head meta d piece d' page meta' : stored_from (k + 1) (head, meta) d -> drop (N.to_nat (k * FRAGMENT_BYTES)) bytes = piece ++ drop (N.to_nat ((k + 1) * FRAGMENT_BYTES)) bytes ->
  ((k + 1) * FRAGMENT_BYTES <= len bytes -> len piece = FRAGMENT_BYTES) -> k * FRAGMENT_BYTES < len bytes -> Page.block page < 2 ^ 32 -> Page.fragment (Page.block page) owner head (trunc 32 (k * FRAGMENT_BYTES)) piece = Ok page ->
  on_disk d' page -> stable records d d' -> runs C d0 meta' d' -> stored_from k (Page.block page, meta') d'.
Proof.
  intros (Hr & Hh & pieces & Hf & Hc & Hne) Hd Hl Hk Hb Hp Hon Hst Hr'. cbn [fst snd] in *. change FRAGMENT_BYTES with 8132 in *. change MAX_DOCUMENT_BYTES with 8388608 in Hbytes.
  assert (Hoff : k * 8132 < 2 ^ 32) by (change (2 ^ 32) with 4294967296; lia). rewrite trunc_small in Hp by exact Hoff. destruct (fragment_reload _ _ _ _ _ _ Hb Ho Hh Hoff Hp) as (_ & _ & Hk' & Hn & Hfd).
  split; [done|]. split; [done|]. assert (Hpne : piece <> []).
  { intros ->. rewrite app_nil_l in Hd. assert (E : len (drop (N.to_nat (k * 8132)) bytes) = len (drop (N.to_nat ((k + 1) * 8132)) bytes)) by by rewrite Hd. rewrite !len_drop in E. lia. }
  exists (piece :: pieces). change FRAGMENT_BYTES with 8132. split; [|split; [by rewrite Hd; cbn [concat]; rewrite Hc|by constructor]]. cbn [fst]. exists (reloaded page), head. split; [by apply reloaded_comes|]. do 3 (split; [done|]).
  destruct pieces as [|x pieces]; [exact Hf|]. apply (fragments_stable records d); [done|done|]. destruct (N.le_gt_cases ((k + 1) * 8132) (len bytes)) as [Hle|Hgt].
  - rewrite Hl by done. replace (k * 8132 + 8132) with ((k + 1) * 8132) by lia. exact Hf.
  - exfalso. apply list.Forall_cons in Hne as [Hx _]. rewrite drop_ge in Hc by (unfold len in *; lia). cbn in Hc. by apply app_nil in Hc as [-> _].
Qed.
Lemma wp_store_fragment k state d (Q : N * Page.t -> Disk -> Prop) : stored_from (k + 1) state d -> k * FRAGMENT_BYTES < len bytes -> (forall state' d', stored_from k state' d' -> Q state' d') ->
  wp d (store_fragment owner bytes state k) Q (stops C d0).
Proof.
  destruct state as [head meta]. intros Hst Hk HQ. pose proof Hst as (Hr & Hh & _). cbn [fst snd] in *. pose proof (runs_stops _ _ _ _ Hr) as Hs. pose proof Hr as ((R & HR & HC & Hm) & Hl & Hst0). pose proof (meta_reads _ _ _ Hm) as (_ & _ & Hfree & Hfl & _).
  destruct (fragment_piece k Hk) as (piece & Hp & Hd & Hlen). unfold store_fragment. rewrite Hfree. apply wp_bind, wp_ret.
  destruct (N.eqb_spec (meta_free (fst (r_meta R))) NO_BLOCK) as [_|Hne].
  - apply wp_bind, wp_bind. eapply wp_new_block; [done|]. intros Hn Hr2. pose proof (runs_stops _ _ _ _ Hr2) as Hs2. destruct (block_valid_new _ Hn) as [_ Hb]. apply wp_ret. cbn iota beta. rewrite Hp. apply wp_bind, wp_ret.
    apply wp_bind, wp_lift; [by apply fragment_safe| |done]. intros page Hpage. pose proof Hpage as (Hps & Hpb & _)%fragment_ok; [|done|done|done]. assert (Hw : Forall (writable quiet (d ++ [[]])) [page]) by (constructor; [by apply writable_new|constructor]).
    apply wp_bind, (wp_commit_quiet C d0 meta _ _ _ Hr2 Hw); [by apply list.NoDup_singleton|done|]. intros d' -> Hr'. apply wp_bind, wp_event; [|intros _; by eapply runs_stops]. apply wp_ret, HQ. rewrite <- Hpb.
    eapply stored_next; [exact Hst|exact Hd|exact Hlen|exact Hk|by rewrite Hpb|by rewrite Hpb| | |done].
    + eapply written; [exact Hw|by apply list.NoDup_singleton|left].
    + etrans; [apply stable_extend|]. apply quiet_records, stable_write; [done|by apply list.NoDup_singleton].
  - apply wp_bind, wp_bind, wp_load; [done| |done]. intros free Hf Hfk. pose proof (loaded_page_ok _ _ _ Hf) as (_ & Hfb & _). assert (Hq : quiet (Page.kind free) = false) by by rewrite Hfk. destruct (loaded_elsewhere _ _ _ _ _ Hs Hf Hq) as [Hnz _].
    assert (Hff : page_fits free) by by eapply loaded_fits. assert (Hfs : page_sound free) by (eapply loaded_sound; [exact Hf|by rewrite Hfk]). apply wp_bind, wp_lift; [by apply page_next_safe| |done]. intros next Hnext.
    assert (Hnx : next < 2 ^ 32). { unfold Page.next in Hnext. rewrite page_u32 in Hnext by (done || (destruct Hfs as (_ & H16 & _); lia)). apply Ok_inj in Hnext as <-. apply (field_lt _ _ 4). }
    destruct (meta_set _ (Page.set_free_head meta next) meta _ (SetFree next) eq_refl Hm Hnx) as [Hsf Hok]. apply wp_bind, wp_lift; [done| |done]. intros meta' Hm'. destruct (Hok _ Hm') as (m' & Hstep & Hm2). destruct (set_keeps _ _ _ Hstep I) as [Ho' Hn'].
    apply wp_ret. cbn iota beta. rewrite Hp. apply wp_bind, wp_ret. apply wp_bind, wp_lift; [by apply fragment_safe| |done]. intros page Hpage. pose proof Hpage as (Hps & Hpb & _)%fragment_ok; [|done|done|done].
    assert (Hw : Forall (writable records d) [page]) by (constructor; [eapply writable_loaded; [exact Hf|by rewrite Hfk|done|done]|constructor]).
    assert (Hdist : NoDup (0 :: (Page.block <$> [page]))) by (cbn; rewrite Hpb; apply pair_distinct; naive_solver).
    apply wp_bind. apply (fun H => wp_commit_meta C d0 d meta' _ [page] _ H Hst0 Hl Hm2 Hw Hdist); [exists R; split_and!; try done; cbn; unfold next_incarnation; rewrite Hn'; lia|done|].
    assert (Hall : Forall (writable records d) (meta' :: [page])) by (constructor; [destruct Hm2 as (_ & ? & ?); by eapply writable_meta|done]).
    assert (Hdist' : NoDup (Page.block <$> meta' :: [page])) by (cbn; destruct Hm2 as (_ & _ & ->); exact Hdist).
    intros d' -> Hr'. apply wp_bind, wp_event; [|intros _; by eapply runs_stops]. apply wp_ret, HQ. rewrite <- Hpb.
    eapply stored_next; [exact Hst|exact Hd|exact Hlen|exact Hk|by rewrite Hpb|by rewrite Hpb| | |done].
    + eapply written; [exact Hall|done|right; left].
    + by apply stable_write.
Qed.
(** The payload of an owner is in place behind a block. *)
Definition payload_at (d : Disk) (head : N) : Prop := exists pieces, fragments_at d owner head 0 pieces /\ concat pieces = bytes.
Lemma wp_store_payload meta d (Q : N * Page.t -> Disk -> Prop) : runs C d0 meta d ->
  (forall head meta' d', runs C d0 meta' d' -> head < 2 ^ 32 -> (INLINE_BYTES < len bytes -> payload_at d' head) -> (len bytes <= INLINE_BYTES -> head = NO_BLOCK) -> Q (head, meta') d') ->
  wp d (store_payload owner bytes meta) Q (stops C d0).
Proof.
  intros Hr HQ. unfold store_payload. apply wp_if; intros Hin.
  2:{ apply N.ltb_ge in Hin. apply wp_ret, HQ; [done|done|lia|done]. }
  apply N.ltb_lt in Hin. set (count := div_ceil (len bytes) FRAGMENT_BYTES).
  eapply wp_mono; [apply (wp_mfold _ (fun state l d => exists k, l = rev (range 0 k) /\ k <= count /\ stored_from k state d) (stops C d0))| |done].
  - exists count. split; [done|]. split; [lia|]. split; [done|]. split; [done|]. exists []. split; [done|]. split; [|constructor]. cbn [concat]. symmetry. apply drop_ge.
    destruct (div_ceil_bounds (len bytes) FRAGMENT_BYTES) as [_ H]; [done|]. fold count in H. unfold len in H. lia.
  - intros state k l d1 (j & El & Hj & Hst). destruct (decide (j = 0)) as [->|Hj0]; [done|]. assert (Hr' : range 0 j = range 0 (j - 1) ++ [j - 1]) by (rewrite <- range_snoc by lia; f_equal; lia).
    rewrite Hr', rev_app_distr in El. cbn in El. injection El as -> ->. apply wp_store_fragment.
    + by replace (j - 1 + 1) with j by lia.
    + rewrite N.mul_comm. apply div_ceil_lt; [done|]. fold count. lia.
    + intros state' d' Hst'. exists (j - 1). split; [done|]. split; [lia|done].
  - intros [head meta'] d' (k & El & _ & Hr' & Hh & pieces & Hf & Hc & _). assert (Hk : k = 0). { destruct (decide (k = 0)) as [|Hk]; [done|]. rewrite (range_cons 0 k) in El by lia. cbn in El. by destruct (rev (range (0 + 1) k)). }
    subst k. apply HQ; [done|done| |lia]. intros _. exists pieces. split; [exact Hf|]. exact Hc.
Qed.
End Payload.

(** * One document *)
Definition fragments (k : PageKind.t) : bool := match k with PageKind.Fragment => true | _ => false end.
Lemma records_fragments d d' : stable records d d' -> stable fragments d d'.
Proof. apply stable_weaken. by intros []. Qed.
Definition located (R : Relation) (owner : OwnerRef) (s : Slot) : Prop := exists l, (owner_page owner, l) ∈ r_chain R /\ index l (owner_slot owner) = Some s /\ s_inc s = owner_incarnation owner.
(** The payload a reader of the owner gets: the bytes in its slot, or those of its fragments. *)
Definition stored_payload (d : Disk) (owner : OwnerRef) (s : Slot) (bytes : list byte) : Prop :=
  if is_empty (s_inline s) then payload_at owner bytes d (s_head s) else s_inline s = bytes.
Definition slot_of (inc : Incarnation) (root : RootTid) (document : PreparedDocument.t) : Slot :=
  new_slot inc root (PreparedDocument.tokens document) (PreparedDocument.terms document) (PreparedDocument.bytes document).
(** The slot of a document in whatever state. *)
Definition slot_for (inc : Incarnation) (root : RootTid) (document : PreparedDocument.t) (s : Slot) : Prop :=
  exists pub live head, s = with_state (slot_of inc root document) pub live head.
Definition published_live (s : Slot) : bool := bool_decide (s_pub s = Published) && s_live s.
(** Where an insertion may stop: the relation of before, or one with a slot of the
    document at its end, which is visible only if the payload is all there. *)
Definition interrupted (layout : HeapLayout) (R0 : Relation) (d0 : Disk) (root : RootTid) (document : PreparedDocument.t) (d : Disk) : Prop :=
  exists R, relation_rep layout d R /\ stable fragments d0 d /\
    (slots R = slots R0 \/ exists owner s, slots R = slots R0 ++ [s] /\ located R owner s /\ slot_for (next_incarnation R0) root document s /\
       (published_live s = true -> stored_payload d owner s (PreparedDocument.bytes document))).
Lemma payload_stable d d' owner bytes head : stable fragments d d' -> payload_at owner bytes d head -> payload_at owner bytes d' head.
Proof.
  intros Hst (pieces & Hf & Hc). exists pieces. split; [|done]. by eapply (fragments_stable fragments).
Qed.

(** * Reserving an owner *)
Section Reserve.
Context {St : Type} {host : Host.t St} {laws : HostLaws St}.
Context (R : Relation) (d : Disk) (root : RootTid) (document : PreparedDocument.t).
Context (HR : relation_rep Host.layout d R) (Hd : len d < 2 ^ 32) (Hroot : root_wf Host.layout root).
Definition slot : Slot := slot_of (next_incarnation R) root document.
Definition well_sized : Prop := document_ok (PreparedDocument.tokens document) (PreparedDocument.terms document) (PreparedDocument.bytes document) = true.
(** The chain with the new slot at its end, and the reference to it. *)
Definition reserved (owner : OwnerRef) (C : Chain) : Prop :=
  exists pre l, C = pre ++ [(owner_page owner, l ++ [slot])] /\ owner_slot owner = len l /\ owner_incarnation owner = next_incarnation R /\ chain_slots C = slots R ++ [slot] /\ ref_wf owner /\ well_sized.
Lemma interrupted_before d' : relation_rep Host.layout d' R -> stable fragments d d' -> interrupted Host.layout R d root document d'.
Proof. intros H Hst. exists R. split; [done|]. split; [done|]. by left. Qed.
Lemma slots_app (a b : Chain) : chain_slots (a ++ b) = chain_slots a ++ chain_slots b.
Proof. apply bind_app. Qed.
Lemma in_progress C owner R' d' : reserved owner C -> relation_rep Host.layout d' R' -> r_chain R' = C -> stable fragments d d' -> interrupted Host.layout R d root document d'.
Proof.
  intros (pre & l & El & Hs & Hi & Hsl & _) HR' HC Hst. exists R'. split; [done|]. split; [done|]. right. exists owner, slot. split; [unfold slots at 1; by rewrite HC|]. split; [|split; [by exists Allocated, false, NO_BLOCK|done]].
  exists (l ++ [slot]). split; [rewrite HC, El; apply elem_of_app; right; left|]. split; [|by rewrite Hi]. rewrite Hs. unfold index. rewrite to_nat_len, lookup_app_r, Nat.sub_diag by lia. done.
Qed.
(** The pages of a reservation are committed together with the metapage. *)
Lemma wp_commit_reserve meta s' images owner C d1 (Q : unit -> Disk -> Prop) : stable quiet d d1 -> len d1 < 2 ^ 32 -> is_meta Host.layout meta s' -> Forall (writable fragments d1) images -> NoDup (0 :: (Page.block <$> images)) -> len images <= 2 ->
  reserved owner C -> (stable fragments d1 (write d1 (meta :: images)) -> segment Host.layout (write d1 (meta :: images)) C NO_BLOCK) ->
  meta_owners (fst s') = (first_or C NO_BLOCK, last_block C) -> meta_next (fst s') = next_incarnation R + 1 ->
  (forall d', stable fragments d d' -> runs C d' meta d' -> Q tt d') -> wp d1 (Host.commit (meta :: images)) Q (interrupted Host.layout R d root document).
Proof.
  intros Hst0 Hld Hm Hw Hnd Hl Hres Hseg Hown Hnext HQ. pose proof (relation_quiet _ _ _ _ HR Hst0) as HR1. assert (Hst1 : stable fragments d d1) by by apply records_fragments, quiet_records. pose proof Hm as (_ & Hms & Hmb).
  assert (Hall : Forall (writable fragments d1) (meta :: images)).
  { constructor; [|done]. split; [done|]. rewrite Hmb. pose proof HR1 as [(p & (_ & _ & Hpb) & _ & Hi) _ _ _ _]. rewrite Hpb in Hi. apply index_bound in Hi. split; [done|]. intros q Hq. by rewrite (comes_meta _ _ _ _ HR1 Hq). }
  assert (Hnd' : NoDup (Page.block <$> meta :: images)) by (cbn; by rewrite Hmb).
  assert (Hrel : stable fragments d1 (write d1 (meta :: images)) -> relation_rep Host.layout (write d1 (meta :: images)) (mkRelation s' C)).
  { intros Hst. pose proof Hres as (pre & l & _ & _ & _ & Hsl & _). eapply (relation_reserve _ d1); [exact HR1|by apply Hseg|exact Hm| |done|exact Hsl|done|done]. eapply written; [exact Hall|done|left]. }
  apply (wp_commit_pages fragments); [done|done|rewrite len_cons; lia| | |].
  - intros Hst. apply HQ; [by etrans|]. split; [|split; [by rewrite len_write|done]]. exists (mkRelation s' C). by split; [apply Hrel|].
  - apply interrupted_before; [by eapply relation_quiet|done].
  - intros Hst. eapply in_progress; [exact Hres|by apply Hrel|done|by etrans].
Qed.
Lemma owners_page_safe b : safe (Page.owners b).
Proof. unfold Page.owners. apply safe_bind; [apply new_safe|done]. Qed.
(** [append_owner] on a page of the relation. *)
Lemma append_safe p next l inc : owners_rep Host.layout p next l -> 1 <= inc < 2 ^ 64 ->
  safe (OwnerPage.append_owner p inc root (PreparedDocument.tokens document) (PreparedDocument.terms document) (PreparedDocument.bytes document)) /\
  forall o p', OwnerPage.append_owner p inc root (PreparedDocument.tokens document) (PreparedDocument.terms document) (PreparedDocument.bytes document) = Ok (o, p') ->
    well_sized /\ Page.block p' = Page.block p /\ match o with Some o => o = mkOwnerRef (Page.block p) (len l) inc /\ owners_rep Host.layout p' next (l ++ [slot_of inc root document]) | None => owners_rep Host.layout p' next l end.
Proof.
  intros Hrep Hinc. pose proof (append_owner_ok _ _ _ _ inc root (PreparedDocument.tokens document) (PreparedDocument.terms document) (PreparedDocument.bytes document) law_layout Hrep Hinc Hroot) as H. unfold append_slot in H. unfold well_sized.
  destruct (document_ok _ _ _); cbn [negb] in H; [|by rewrite H]. destruct (CAPACITY <? _) in H; destruct H as (q & -> & Hq & Hb); (split; [done|]); intros o p' E; apply Ok_inj in E; injection E as <- <-; by split_and!.
Qed.
Lemma owner_ref_wf p next l inc s : owners_rep Host.layout p next (l ++ [s]) -> Page.block p <> 0 -> 1 <= inc < 2 ^ 64 -> ref_wf (mkOwnerRef (Page.block p) (len l) inc).
Proof.
  intros Hrep H0 Hi. pose proof (rep_count _ _ _ _ Hrep) as Hc. rewrite len_app, len_cons in Hc. change (len (@nil Slot)) with 0 in Hc. destruct Hrep as (_ & _ & _ & _ & _ & Hb & Hn & _). unfold ref_wf. cbn [owner_page owner_slot owner_incarnation].
  split; [unfold block_valid; by rewrite !(proj2 (N.eqb_neq _ _))|]. split; [done|]. split; [change OWNER_SLOTS with 203; lia|done].
Qed.
Lemma last_of_chain (C : Chain) : C = [] \/ exists pre l, C = pre ++ [(last_block C, l)].
Proof. destruct C as [|[b l] C _] using rev_ind; [by left|right]. exists C, l. unfold last_block. by rewrite last_snoc. Qed.
Lemma set_owners_step m h t m' : meta_step m (SetOwners h t) = Ok (None, m') -> meta_owners m' = (h, t) /\ meta_next m' = meta_next m.
Proof. intros H. cbn [meta_step] in H. apply if_ok_err in H as [_ H]. apply Ok_inj in H. by injection H as <-. Qed.
Definition stop (d' : Disk) : Prop := interrupted Host.layout R d root document d'.
Definition append (page : Page.t) (inc : Incarnation) : Result (option OwnerRef * Page.t) :=
  OwnerPage.append_owner page inc root (PreparedDocument.tokens document) (PreparedDocument.terms document) (PreparedDocument.bytes document).
Lemma stop_before : stop d /\ stop (d ++ [[]]).
Proof. split; apply interrupted_before; [done|done|eapply relation_quiet; [done|]|]; apply stable_extend. Qed.
Lemma some_pages : 0 < len d.
Proof. pose proof (rr_meta _ _ _ HR) as (p0 & (_ & _ & Hp0) & _ & Hi0). rewrite Hp0 in Hi0. apply index_bound in Hi0. lia. Qed.
Lemma extended_len : 0 < len d < NO_BLOCK -> len (d ++ [[]]) < 2 ^ 32.
Proof. intros Hn. rewrite len_app. change (len [[]]) with 1. unfold NO_BLOCK, u32_max in Hn. lia. Qed.
Lemma wp_reserve_block {A} (k : N -> Eff St A) (Q : A -> Disk -> Prop) : (0 < len d < NO_BLOCK -> wp (d ++ [[]]) (k (len d)) Q stop) -> wp d (let! block := allocate in k block) Q stop.
Proof. intros Hk. pose proof stop_before as [H1 H2]. pose proof some_pages. apply wp_bind, wp_allocate; [done| |done|done]. intros Hn. apply Hk. lia. Qed.
(** A new page with the slot. *)
Lemma wp_owner_page {A} (k : OwnerRef -> Page.t -> Eff St A) (Q : A -> Disk -> Prop) : 0 < len d < NO_BLOCK -> 1 <= next_incarnation R < 2 ^ 64 ->
  (forall page, well_sized -> owners_rep Host.layout page NO_BLOCK [slot] -> Page.block page = len d -> wp (d ++ [[]]) (k (mkOwnerRef (len d) 0 (next_incarnation R)) page) Q stop) ->
  wp (d ++ [[]]) (let! page := elift (Page.owners (len d)) in let! '(owner, page) := elift (append page (next_incarnation R)) in let! owner := elift (ok_or owner InvalidState) in k owner page) Q stop.
Proof.
  intros Hn Hinc Hk. pose proof stop_before as [_ Hs]. destruct (block_valid_new _ Hn) as [_ Hb]. apply wp_bind, wp_lift; [apply owners_page_safe| |done]. intros page Hp. apply (owners_fresh Host.layout) in Hp as [Hrep Hpb]; [|done].
  destruct (append_safe _ _ _ _ Hrep Hinc) as [Hsf Hok]. apply wp_bind, wp_lift; [done| |done]. intros [o page'] Hp'. destruct (Hok _ _ Hp') as (Hws & Hpb' & Ho). destruct o as [o|]; [|by apply wp_bind, wp_fail]. destruct Ho as [-> Hrep']. apply wp_bind, wp_ret. rewrite Hpb in *.
  by apply Hk.
Qed.
Lemma wp_set_owners {A} (k : Page.t -> Eff St A) meta m g h t d1 (Q : A -> Disk -> Prop) : is_meta Host.layout meta (m, g) -> h < 2 ^ 32 -> t < 2 ^ 32 -> stop d1 ->
  (forall meta' m', is_meta Host.layout meta' (m', g) -> meta_owners m' = (h, t) -> meta_next m' = meta_next m -> wp d1 (k meta') Q stop) -> wp d1 (let! meta := elift (Page.set_owner_chain meta h t) in k meta) Q stop.
Proof.
  intros Hm Hh Ht Hs Hk. destruct (meta_set _ (Page.set_owner_chain meta h t) meta _ (SetOwners h t) eq_refl Hm) as [Hsf Hok]; [done|]. apply wp_bind, wp_lift; [done| |done]. intros meta' Hm'. destruct (Hok _ Hm') as (m' & Hstep & Hm2).
  apply set_owners_step in Hstep as [Eo En]. by eapply Hk.
Qed.
Lemma slot_ref page next l : owners_rep Host.layout page next (l ++ [slot]) -> Page.block page <> 0 -> 1 <= next_incarnation R < 2 ^ 64 -> ref_wf (mkOwnerRef (Page.block page) (len l) (next_incarnation R)).
Proof. apply owner_ref_wf. Qed.
(** The first page of the chain. *)
Lemma wp_reserve_first meta m g (Q : OwnerRef * Page.t -> Disk -> Prop) : r_chain R = [] -> is_meta Host.layout meta (m, g) -> meta_next m = next_incarnation R + 1 -> 1 <= next_incarnation R < 2 ^ 64 ->
  (forall owner meta' C d', reserved owner C -> stable fragments d d' -> runs C d' meta' d' -> Q (owner, meta') d') ->
  wp d (let! block := allocate in let! page := elift (Page.owners block) in let! '(owner, page) := elift (append page (next_incarnation R)) in let! owner := elift (ok_or owner InvalidState) in
    let! meta := elift (Page.set_owner_chain meta (Page.block page) (Page.block page)) in let! _ := Host.commit [meta; page] in eret (owner, meta)) Q stop.
Proof.
  intros Ec Hm En Hinc HQ. apply wp_reserve_block. intros Hn. destruct (block_valid_new _ Hn) as [_ Hb]. apply (wp_owner_page (fun owner page => let! meta := elift (Page.set_owner_chain meta (Page.block page) (Page.block page)) in let! _ := Host.commit [meta; page] in eret (owner, meta))); [done|done|].
  intros page Hws Hrep Hpb. eapply wp_set_owners; [exact Hm|by rewrite Hpb|by rewrite Hpb|apply stop_before|]. intros meta2 m2 Hm2 Eo2 En2. pose proof Hm2 as (_ & _ & Hmb2). pose proof (owners_sound _ _ _ _ Hrep) as Hs.
  assert (Hw : Forall (writable fragments (d ++ [[]])) [page]) by (constructor; [by apply writable_new|constructor]).
  assert (Hres : reserved (mkOwnerRef (len d) 0 (next_incarnation R)) [(len d, [slot])]).
  { exists [], []. do 3 (split; [done|]). split; [unfold slots; by rewrite Ec|]. split; [|done]. rewrite <- Hpb. apply (slot_ref page NO_BLOCK []); [done|lia|done]. }
  assert (Hnd : NoDup (0 :: (Page.block <$> [page]))) by (cbn; rewrite Hpb; apply pair_distinct; lia).
  apply wp_bind. eapply (wp_commit_reserve meta2 (m2, g) [page] _ [(len d, [slot])] (d ++ [[]])); [apply stable_extend|by apply extended_len|exact Hm2|exact Hw|done|done|exact Hres| | | |].
  - intros Hst. split; [|done]. exists page. split; [done|]. split; [done|]. split; [lia|]. split; [done|]. apply write_at; [|cbn [fmap list_fmap]; rewrite Hmb2; exact Hnd|right; left].
    constructor; [rewrite Hmb2, len_app; lia|]. constructor; [rewrite Hpb, len_app; change (len [[]]) with 1; lia|constructor].
  - cbn [fst]. by rewrite Eo2, Hpb.
  - cbn [fst]. by rewrite En2.
  - intros d' Hst Hrun. by eapply wp_ret, HQ.
Qed.
(** The other pages of the chain keep their places. *)
Lemma others_kept pre b l d1 images : r_chain R = pre ++ [(b, l)] -> stable quiet d d1 -> Forall (fun p => Page.block p < len d1) images -> (forall p, p ∈ images -> Page.block p = 0 \/ Page.block p = b \/ len d <= Page.block p) ->
  forall c, c ∈ pre.*1 -> index (write d1 images) c = index d c.
Proof.
  intros Ec Hst Hl Hb c Hc. pose proof (rr_chain _ _ _ HR) as Hseg. assert (Hin : c ∈ (r_chain R).*1) by (rewrite Ec, fmap_app; apply elem_of_app; by left).
  destruct (segment_at _ _ _ _ _ Hseg Hin) as (pre' & l' & suf & _ & Hat). pose proof (owners_at_bounds _ _ _ _ _ Hat) as (Hbd & _). rewrite Ec in Hseg. assert (Hne : c <> b) by (eapply segment_others; [exact Hseg|by left]).
  rewrite write_other; [|done|].
  - apply owners_at_read in Hat as (p & Hp & (Hk & _) & _). apply (Hst c p Hp). by rewrite Hk.
  - intros (p & -> & Hp)%list_elem_of_fmap. destruct (Hb p Hp) as [?|[?|?]]; lia.
Qed.
Lemma slots_last pre b l x : r_chain R = pre ++ [(b, l)] -> chain_slots (pre ++ [(b, l ++ x)]) = slots R ++ x.
Proof. intros Ec. unfold slots. rewrite Ec, !slots_app. unfold chain_slots at 2 4. rewrite !bind_cons. cbn [snd ebind list_bind]. rewrite !app_nil_r. by rewrite app_assoc. Qed.
(** The slot goes to the last page. *)
Lemma wp_reserve_last meta m g pre b l page (Q : OwnerRef * Page.t -> Disk -> Prop) : r_chain R = pre ++ [(b, l)] -> is_meta Host.layout meta (m, g) -> meta_owners m = meta_owners (fst (r_meta R)) -> meta_next m = next_incarnation R + 1 -> 1 <= next_incarnation R < 2 ^ 64 ->
  0 < b < len d -> owners_rep Host.layout page NO_BLOCK (l ++ [slot]) -> Page.block page = b -> well_sized ->
  (forall owner meta' C d', reserved owner C -> stable fragments d d' -> runs C d' meta' d' -> Q (owner, meta') d') ->
  wp d (let! _ := Host.commit [meta; page] in eret (mkOwnerRef b (len l) (next_incarnation R), meta)) Q stop.
Proof.
  intros Ec Hm Eo En Hinc Hb Hrep Hpb Hws HQ. pose proof Hm as (_ & _ & Hmb). pose proof (owners_sound _ _ _ _ Hrep) as Hs. set (C := pre ++ [(b, l ++ [slot])]).
  pose proof (rr_chain _ _ _ HR) as Hseg. rewrite Ec in Hseg. pose proof Hseg as Hb'. apply segment_app in Hb' as [_ [Hat _]]. pose proof (owners_at_read _ _ _ _ _ Hat) as (q & Hq & (Hqk & _) & _).
  assert (Hw : Forall (writable fragments d) [page]) by (constructor; [|constructor]; eapply writable_over; [done|rewrite Hpb; exact Hq|by rewrite Hqk]).
  assert (Hnd : NoDup (0 :: (Page.block <$> [page]))) by (cbn; rewrite Hpb; apply pair_distinct; lia).
  assert (Hin : Forall (fun p => Page.block p < len d) [meta; page]) by (constructor; [rewrite Hmb; lia|]; constructor; [lia|constructor]).
  assert (Hres : reserved (mkOwnerRef b (len l) (next_incarnation R)) C).
  { exists pre, l. do 3 (split; [done|]). split; [by apply slots_last|]. split; [|done]. rewrite <- Hpb. apply (slot_ref page NO_BLOCK); [done|lia|done]. }
  apply wp_bind. eapply (wp_commit_reserve meta (m, g) [page] _ C d); [done|done|exact Hm|exact Hw|done|done|exact Hres| | |exact En|].
  - intros Hst. eapply segment_replace; [exact Hseg| |].
    + intros c [Hc|Hc]; [|by apply not_elem_of_nil in Hc]. eapply others_kept; [exact Ec|done|done| |done]. intros p Hp. apply elem_of_cons in Hp as [->|Hp]; [by left|]. apply list_elem_of_singleton in Hp as ->. right; by left.
    + exists page. split; [exact Hrep|]. split; [done|]. split; [lia|]. split; [done|]. apply write_at; [done|cbn [fmap list_fmap]; rewrite Hmb; exact Hnd|right; left].
  - cbn [fst]. rewrite Eo, (rr_ends _ _ _ HR), Ec. unfold C. f_equal; [by destruct pre as [|[]]|]. unfold last_block. by rewrite !last_snoc.
  - intros d' Hst Hrun. by eapply wp_ret, HQ.
Qed.
(** A page is added to the chain. *)
Lemma wp_reserve_more meta m g pre b l page (Q : OwnerRef * Page.t -> Disk -> Prop) : r_chain R = pre ++ [(b, l)] -> is_meta Host.layout meta (m, g) -> meta_next m = next_incarnation R + 1 -> 1 <= next_incarnation R < 2 ^ 64 ->
  0 < b < len d -> first_or (r_chain R) NO_BLOCK < 2 ^ 32 -> owners_rep Host.layout page NO_BLOCK l -> Page.block page = b ->
  (forall owner meta' C d', reserved owner C -> stable fragments d d' -> runs C d' meta' d' -> Q (owner, meta') d') ->
  wp d (let! block := allocate in let! next := elift (Page.owners block) in let! '(owner, next) := elift (append next (next_incarnation R)) in let! owner := elift (ok_or owner InvalidState) in
    let! page := elift (Page.set_next page (Page.block next)) in let! meta := elift (Page.set_owner_chain meta (first_or (r_chain R) NO_BLOCK) (Page.block next)) in
    let! _ := Host.commit [meta; page; next] in eret (owner, meta)) Q stop.
Proof.
  intros Ec Hm En Hinc Hb Hfirst Hrep Hpb HQ. apply wp_reserve_block. intros Hn. destruct (block_valid_new _ Hn) as [_ Hnb].
  apply (wp_owner_page (fun owner next => let! page := elift (Page.set_next page (Page.block next)) in let! meta := elift (Page.set_owner_chain meta (first_or (r_chain R) NO_BLOCK) (Page.block next)) in let! _ := Host.commit [meta; page; next] in eret (owner, meta))); [done|done|].
  intros next Hws Hnrep Hnext. pose proof (owners_sound _ _ _ _ Hnrep) as Hns. destruct (set_next_page page (Page.block next)) as [Hsf _]; [by eapply owners_sound|by rewrite Hnext|]. apply wp_bind, wp_lift; [done| |intros; apply stop_before]. intros page' Hset.
  apply (owners_set_next _ _ _ _ _ _ Hrep) in Hset as [Hrep' Hpb']; [|by rewrite Hnext]. rewrite Hnext in *. rewrite Hpb in Hpb'. pose proof (owners_sound _ _ _ _ Hrep') as Hps.
  eapply wp_set_owners; [exact Hm|done|done|apply stop_before|]. intros meta2 m2 Hm2 Eo2 En2. pose proof Hm2 as (_ & _ & Hmb). set (C := pre ++ [(b, l); (len d, [slot])]).
  pose proof (rr_chain _ _ _ HR) as Hseg. rewrite Ec in Hseg. pose proof Hseg as Hb'. apply segment_app in Hb' as [_ [Hat _]]. pose proof (owners_at_read _ _ _ _ _ Hat) as (q & Hq & (Hqk & _) & _).
  assert (Hw : Forall (writable fragments (d ++ [[]])) [page'; next]).
  { constructor; [apply writable_extend; eapply writable_over; [done|rewrite Hpb'; exact Hq|by rewrite Hqk]|]. constructor; [by apply writable_new|constructor]. }
  assert (Hnd : NoDup (0 :: (Page.block <$> [page'; next]))) by (cbn; rewrite Hpb', Hnext; apply triple_distinct; lia).
  assert (Hin : Forall (fun p => Page.block p < len (d ++ [[]])) [meta2; page'; next]).
  { rewrite len_app. change (len [[]]) with 1. constructor; [rewrite Hmb; lia|]. constructor; [rewrite Hpb'; lia|]. constructor; [rewrite Hnext; lia|constructor]. }
  assert (Hres : reserved (mkOwnerRef (len d) 0 (next_incarnation R)) C).
  { exists (pre ++ [(b, l)]), []. split; [unfold C; by rewrite <- app_assoc|]. do 2 (split; [done|]). split; [unfold C, slots; rewrite Ec, !slots_app; unfold chain_slots at 2 4; rewrite !bind_cons; cbn [snd ebind list_bind]; by rewrite !app_nil_r, app_assoc|].
    split; [|done]. rewrite <- Hnext. apply (slot_ref next NO_BLOCK []); [done|lia|done]. }
  apply wp_bind. eapply (wp_commit_reserve meta2 (m2, g) [page'; next] _ C (d ++ [[]])); [apply stable_extend|by apply extended_len|exact Hm2|exact Hw|done|done|exact Hres| | | |].
  - intros Hst. eapply segment_extend; [exact Hseg| | |].
    + intros c Hc. eapply others_kept; [exact Ec|apply stable_extend|done| |done]. intros p Hp. apply elem_of_cons in Hp as [->|Hp]; [by left|]. apply elem_of_cons in Hp as [->|Hp]; [right; by left|]. apply list_elem_of_singleton in Hp as ->. right; right. lia.
    + exists page'. split; [exact Hrep'|]. split; [done|]. split; [lia|]. split; [done|]. apply write_at; [done|cbn [fmap list_fmap]; rewrite Hmb; exact Hnd|right; left].
    + exists next. split; [exact Hnrep|]. split; [done|]. split; [lia|]. split; [done|]. apply write_at; [done|cbn [fmap list_fmap]; rewrite Hmb; exact Hnd|right; right; left].
  - cbn [fst]. rewrite Eo2, Ec. unfold C. f_equal; [by destruct pre as [|[]]|]. unfold last_block. change [(b, l); (len d, [slot])] with ([(b, l)] ++ [(len d, [slot])]). by rewrite app_assoc, last_snoc.
  - cbn [fst]. by rewrite En2.
  - intros d' Hst Hrun. by eapply wp_ret, HQ.
Qed.
Lemma wp_reserve meta (Q : OwnerRef * Page.t -> Disk -> Prop) : is_meta Host.layout meta (r_meta R) ->
  (forall owner meta' C d', reserved owner C -> stable fragments d d' -> runs C d' meta' d' -> Q (owner, meta') d') -> wp d (reserve_owner meta root document) Q stop.
Proof.
  intros Hm HQ. pose proof stop_before as [Hstop _].
  unfold reserve_owner. destruct (meta_reserve _ _ _ Hm) as [Hsf Hok]. apply wp_bind, wp_lift; [done| |done]. intros [inc meta1] Hr. destruct (Hok _ _ Hr) as (-> & Hinc & m1 & Hstep & Hm1). fold (next_incarnation R) in *. clear Hsf Hok Hr.
  assert (E1 : meta_owners m1 = meta_owners (fst (r_meta R)) /\ meta_next m1 = next_incarnation R + 1) by (cbn [meta_step] in Hstep; apply if_ok_err in Hstep as [_ Hstep]; apply Ok_inj in Hstep; by injection Hstep as <-). destruct E1 as [Eo En].
  pose proof (meta_reads _ _ _ Hm1) as (_ & Hch & _). cbn [fst] in Hch. rewrite Eo, (rr_ends _ _ _ HR) in Hch. rewrite Hch. apply wp_bind, wp_ret. cbn iota.
  destruct (last_of_chain (r_chain R)) as [Ec|(pre & l & Ec)]; [rewrite Ec; cbn [first_or]; rewrite N.eqb_refl; by eapply wp_reserve_first|].
  pose proof (rr_chain _ _ _ HR) as Hseg. assert (Hfirst : 0 < first_or (r_chain R) NO_BLOCK < len d /\ first_or (r_chain R) NO_BLOCK <> NO_BLOCK).
  { rewrite Ec in *. destruct pre as [|[b' l'] pre]; cbn [app segment first_or] in *; destruct Hseg as [Hat _]; by apply owners_at_bounds in Hat as (? & ? & _). }
  rewrite (proj2 (N.eqb_neq _ _)) by apply Hfirst. set (b := last_block (r_chain R)) in *. rewrite Ec in Hseg. apply segment_app in Hseg as [_ [Hat _]]. pose proof (owners_at_bounds _ _ _ _ _ Hat) as (Hb & _). cbn [first_or] in Hat. apply owners_at_read in Hat as (q & Hq & Hqrep & _).
  apply wp_bind, wp_load; [done| |done]. intros page [Hpg _] _. pose proof (comes_unique _ _ _ _ Hpg Hq) as ->. pose proof (comes_loaded _ _ _ Hq) as (_ & Hqb & _).
  destruct (append_safe _ _ _ _ Hqrep Hinc) as [Hsf Hok]. apply wp_bind, wp_lift; [done| |done]. intros [o page] Hp. destruct (Hok _ _ Hp) as (Hws & Hpb & Ho). rewrite Hqb in *. destruct o as [o|].
  - destruct Ho as [-> Hrep']. by eapply wp_reserve_last.
  - eapply wp_reserve_more; [exact Ec|exact Hm1|done|done|done|lia|exact Ho|done|done].
Qed.
End Reserve.

(** * Publication *)
Section Insert.
Context {St : Type} {host : Host.t St} {laws : HostLaws St}.
Lemma change_last b l s ref change : owner_page ref = b -> owner_slot ref = len l -> owner_incarnation ref = s_inc s -> change_slot b (l ++ [s]) ref change = let* s' := slot_step s change in Ok (l ++ [s']).
Proof.
  intros H1 H2 H3. unfold change_slot. rewrite H2. pose proof (index_behind l s [] (len l) eq_refl) as E. cbn [app] in E. rewrite E. cbn [ok_or rbind]. rewrite bool_decide_eq_true_2 by (destruct ref; cbn in *; congruence). cbn [negb].
  destruct (slot_step s change) as [s'|e|]; cbn [rbind]; [|done|done]. by rewrite to_nat_len, insert_app_r_alt, Nat.sub_diag by lia.
Qed.
Lemma wp_change C d meta owner pre l s change (Q : unit -> Disk -> Prop) E : runs C d meta d -> C = pre ++ [(owner_page owner, l ++ [s])] -> owner_slot owner = len l -> owner_incarnation owner = s_inc s -> change_wf change -> E d ->
  (forall s' d', slot_step s change = Ok s' -> runs (pre ++ [(owner_page owner, l ++ [s'])]) d' meta d' -> stable fragments d d' -> Q tt d' /\ E d') -> wp d (change_state owner change) Q E.
Proof.
  intros Hr EC Hslot Hinc Hc HE HQ. pose proof Hr as ((R & HR & HC & Hm) & Hl & _). pose proof (rr_chain _ _ _ HR) as Hseg. rewrite HC, EC in Hseg. apply segment_app in Hseg as [_ [Hat _]]. cbn [first_or] in Hat. pose proof (owners_at_bounds _ _ _ _ _ Hat) as (Hb & _).
  apply owners_at_read in Hat as (q & Hq & Hqrep & _). unfold change_state. apply wp_bind, wp_load; [done| |done]. intros page [Hpg _] _. pose proof (comes_unique _ _ _ _ Hpg Hq) as ->. pose proof (comes_loaded _ _ _ Hq) as (_ & Hqb & Hqi).
  pose proof (change_owner_ok _ _ _ _ owner change law_layout Hqrep Hc) as Hch. rewrite Hqb, change_last in Hch by done.
  destruct (slot_step s change) as [s'|e|] eqn:Es; cbn [rbind] in Hch; [|rewrite Hch; by apply wp_bind, wp_fail|done]. destruct Hch as (page & Hp & Hrep & Hpb). rewrite Hp. apply wp_bind, wp_ret. pose proof (owners_sound _ _ _ _ Hrep) as Hs.
  assert (Hw : Forall (writable fragments d) [page]) by (constructor; [|constructor]; destruct Hqrep as (Hqk & _); eapply writable_over; [done|rewrite Hpb; exact Hq|by rewrite Hqk]).
  assert (Hnd : NoDup (Page.block <$> [page])) by by apply list.NoDup_singleton.
  assert (Hrun : stable fragments d (write d [page]) -> runs (pre ++ [(owner_page owner, l ++ [s'])]) (write d [page]) meta (write d [page])).
  { intros Hst. split; [|split; [by rewrite len_write|done]]. exists (mkRelation (r_meta R) (pre ++ [(owner_page owner, l ++ [s'])])). split; [|by split]. eapply relation_change; [exact HR|by rewrite HC, EC| | |].
    - rewrite !fmap_app. f_equal. cbn. f_equal. by rewrite (slot_step_with _ _ _ Es).
    - intros q' _ c Hcne. apply write_other; [constructor; [rewrite Hpb; lia|constructor]|]. cbn. rewrite list_elem_of_singleton. by rewrite Hpb.
    - exists page. split; [exact Hrep|]. split; [done|]. split; [lia|]. eapply written; [exact Hw|done|left]. }
  apply (wp_commit_pages fragments); [done|done|done| |done|]; intros Hst; by destruct (HQ s' _ eq_refl (Hrun Hst) Hst).
Qed.
Context (R : Relation) (d : Disk) (root : RootTid) (document : PreparedDocument.t).
Context (HR : relation_rep Host.layout d R) (Hd : len d < 2 ^ 32) (Hroot : root_wf Host.layout root).
(** The chain with the slot in some state. *)
Definition carries (owner : OwnerRef) (s : Slot) (pre : Chain) (l : list Slot) : Prop :=
  owner_slot owner = len l /\ owner_incarnation owner = s_inc s /\ chain_slots (pre ++ [(owner_page owner, l ++ [s])]) = slots R ++ [s] /\ slot_for (next_incarnation R) root document s.
Definition chain_with (owner : OwnerRef) (s : Slot) (pre : Chain) (l : list Slot) : Chain := pre ++ [(owner_page owner, l ++ [s])].
Lemma carries_located owner s pre l R' : carries owner s pre l -> r_chain R' = chain_with owner s pre l -> located R' owner s /\ slots R' = slots R ++ [s].
Proof.
  intros (Hs & Hi & Hsl & _) HC. split; [|unfold slots at 1; by rewrite HC]. exists (l ++ [s]). split; [rewrite HC; apply elem_of_app; right; left|]. split; [|done]. rewrite Hs. unfold index. rewrite to_nat_len, lookup_app_r, Nat.sub_diag by lia. done.
Qed.
Lemma carries_interrupted owner s pre l d1 d2 : carries owner s pre l -> stable fragments d d1 -> stops (chain_with owner s pre l) d1 d2 -> (published_live s = true -> stored_payload d2 owner s (PreparedDocument.bytes document)) -> interrupted Host.layout R d root document d2.
Proof.
  intros Hc Hst ((R' & HR' & HC) & Hst2) Hp. destruct (carries_located _ _ _ _ _ Hc HC) as [Hloc Hsl]. exists R'. split; [done|]. split; [etrans; [done|by apply records_fragments]|]. right. exists owner, s. split; [done|]. split; [done|]. split; [apply Hc|done].
Qed.
Lemma carries_step owner s pre l change s' : carries owner s pre l -> slot_step s change = Ok s' -> carries owner s' pre l.
Proof.
  intros (H1 & H2 & H3 & (pub & live & head & ->)) Hs. pose proof (slot_step_with _ _ _ Hs) as E. split; [done|]. split; [by rewrite E|]. split.
  - unfold chain_slots in *. rewrite !bind_app, !bind_cons in *. cbn [snd ebind list_bind] in *. rewrite !app_nil_r, app_assoc in *. apply app_inj_tail in H3 as [-> _]. done.
  - rewrite E. by eexists _, _, _.
Qed.
Lemma reserved_carries owner C : reserved R root document owner C -> exists pre l, C = chain_with owner (slot R root document) pre l /\ carries owner (slot R root document) pre l /\ ref_wf owner /\ well_sized document.
Proof. intros (pre & l & -> & H1 & H2 & H3 & H4 & H5). exists pre, l. split; [done|]. split; [|done]. split; [done|]. split; [done|]. split; [done|]. by exists Allocated, false, NO_BLOCK. Qed.
Lemma sized : well_sized document -> 16 <= len (PreparedDocument.bytes document) <= MAX_DOCUMENT_BYTES.
Proof. unfold well_sized, document_ok, payload_size_ok. intros H. apply negb_true_iff in H. apply orb_false_iff in H as [_ H]. apply negb_false_iff, andb_true_iff in H as [H1%N.leb_le H2%N.leb_le]. done. Qed.
Lemma wp_terms C d1 meta owner items d2 (Q : Page.t -> Disk -> Prop) : runs C d1 meta d2 -> ref_wf owner -> Forall document_item_ok items -> (forall meta' d', runs C d1 meta' d' -> Q meta' d') -> wp d2 (efold (link_item owner) meta items) Q (stops C d1).
Proof.
  intros Hr Ho Hi HQ. eapply wp_mono; [apply (wp_mfold _ (fun meta l d' => runs C d1 meta d' /\ Forall document_item_ok l) (stops C d1)); [by split|]| |done].
  - intros meta1 item l d3 [Hr3 Hall]. apply list.Forall_cons in Hall as [[Hs Ht] Hall]. pose proof (runs_stops _ _ _ _ Hr3) as Hst. unfold link_item. apply wp_bind, wp_lift; [done| |done]. intros t Et. destruct (Ht t Et) as [_ Hu].
    apply wp_bind. eapply wp_link_term; [done|done|done|]. intros meta2 d4 Hr4. apply wp_bind, wp_event; [|intros _; by eapply runs_stops]. by apply wp_ret.
  - intros meta' d' [Hr' _]. by apply HQ.
Qed.
(** [insert]. *)
Lemma wp_insert (Q : OwnerRef -> Disk -> Prop) :
  (forall owner s R' d', relation_rep Host.layout d' R' -> len d' < 2 ^ 32 -> stable fragments d d' -> slots R' = slots R ++ [s] -> located R' owner s -> slot_for (next_incarnation R) root document s -> published_live s = true -> stored_payload d' owner s (PreparedDocument.bytes document) -> Q owner d') ->
  wp d (insert root document) Q (interrupted Host.layout R d root document).
Proof.
  intros HQ. assert (Hstop : interrupted Host.layout R d root document d) by by apply interrupted_before. unfold insert. apply wp_bind, wp_load; [done| |done]. intros meta0 [Hc0 _] _. pose proof (meta_read _ _ _ _ HR Hc0) as Hm0.
  apply wp_bind, wp_reserve; [done|done|done|done|]. intros owner meta1 C d1 Hres Hst1 Hr1. destruct (reserved_carries _ _ Hres) as (pre & l & -> & Hcar & Ho & Hws). pose proof (sized Hws) as [Hsz1 Hsz2].
  assert (Hdone1 : forall d', stops (chain_with owner (slot R root document) pre l) d1 d' -> interrupted Host.layout R d root document d') by (intros d' Hs; eapply carries_interrupted; [done|done|exact Hs|done]).
  apply wp_bind, wp_event; [|intros _; apply Hdone1; by eapply runs_stops]. apply wp_bind.
  eapply wp_mono; [eapply (wp_store_payload _ _ owner (PreparedDocument.bytes document) Ho Hsz2 meta1 d1 (fun r d' => runs (chain_with owner (slot R root document) pre l) d1 (snd r) d' /\ fst r < 2 ^ 32 /\ (INLINE_BYTES < len (PreparedDocument.bytes document) -> payload_at owner (PreparedDocument.bytes document) d' (fst r)))); [exact Hr1|]| |exact Hdone1].
  { intros head meta2 d2 Hr2 Hh Hpay _. by split_and!. }
  intros [head meta2] d2 (Hr2 & Hh & Hpay). cbn [fst snd] in *. assert (Hst2 : stable fragments d d2) by (etrans; [done|]; apply records_fragments; by destruct Hr2 as (_ & _ & ?)).
  assert (Hr2' : runs (chain_with owner (slot R root document) pre l) d2 meta2 d2) by (destruct Hr2 as (? & ? & _); by split_and!).
  apply wp_bind. eapply wp_change; [exact Hr2'|reflexivity|apply Hcar|apply Hcar|exact Hh|apply Hdone1; by eapply runs_stops|]. intros s3 d3 Hs3 Hr3 Hst3.
  pose proof (carries_step _ _ _ _ _ _ Hcar Hs3) as Hcar3. assert (Hst3' : stable fragments d d3) by by etrans.
  assert (E3 : s3 = with_state (slot R root document) FragmentsWritten false head) by (cbn [slot_step slot slot_of new_slot s_pub] in Hs3; apply if_ok_err in Hs3 as [_ Hs3]; by apply Ok_inj in Hs3 as <-).
  assert (Hdone3 : forall d', stops (chain_with owner s3 pre l) d3 d' -> interrupted Host.layout R d root document d') by (intros d' Hs; eapply carries_interrupted; [done|exact Hst3'|exact Hs|by rewrite E3]).
  split; [|apply Hdone3; by eapply runs_stops]. apply wp_bind, wp_event; [|intros _; apply Hdone3; by eapply runs_stops].
  unfold PreparedDocument.document_terms. unfold slice_from. rewrite (proj2 (N.leb_le DOCUMENT_HEADER (len (PreparedDocument.bytes document)))) by done. cbn [or_panic rbind]. apply wp_bind, wp_ret. apply wp_bind.
  eapply wp_mono; [eapply (wp_terms _ d3 meta2 owner _ d3 (fun meta' d' => runs (chain_with owner s3 pre l) d3 meta' d')); [exact Hr3|done|apply document_items_ok|done]| |exact Hdone3].
  intros meta4 d4 Hr4. assert (Hst4 : stable fragments d3 d4) by (apply records_fragments; by destruct Hr4 as (_ & _ & ?)). assert (Hst4' : stable fragments d d4) by by etrans.
  assert (Hr4' : runs (chain_with owner s3 pre l) d4 meta4 d4) by (destruct Hr4 as (? & ? & _); by split_and!).
  apply wp_bind. eapply wp_change; [exact Hr4'|reflexivity|apply Hcar3|apply Hcar3|done|apply Hdone3; by eapply runs_stops|]. intros s5 d5 Hs5 Hr5 Hst5. pose proof (carries_step _ _ _ _ _ _ Hcar3 Hs5) as Hcar5. assert (Hst5' : stable fragments d d5) by by etrans.
  assert (E5 : s5 = with_state (slot R root document) Published true head) by (rewrite E3 in Hs5; cbn in Hs5; by apply Ok_inj in Hs5 as <-).
  assert (Hstored : stored_payload d5 owner s5 (PreparedDocument.bytes document)).
  { unfold stored_payload. rewrite E5. cbn [with_state slot slot_of new_slot s_inline s_head]. destruct (N.leb_spec (len (PreparedDocument.bytes document)) INLINE_BYTES) as [Hin|Hout].
    - destruct (PreparedDocument.bytes document) as [|x xs] eqn:Eb; [|done]. exfalso. change (len (@nil byte)) with 0 in Hsz1. lia.
    - cbn [is_empty]. eapply payload_stable; [exact Hst5|]. eapply payload_stable; [exact Hst4|]. eapply payload_stable; [exact Hst3|]. by apply Hpay. }
  assert (Hdone5 : stops (chain_with owner s5 pre l) d5 d5 -> interrupted Host.layout R d root document d5) by (intros Hs; by eapply carries_interrupted).
  split; [|apply Hdone5; by eapply runs_stops]. apply wp_bind, wp_event; [|intros _; apply Hdone5; by eapply runs_stops]. apply wp_ret.
  destruct Hr5 as ((R5 & HR5 & HC5 & _) & Hl5 & _). destruct (carries_located _ _ _ _ _ Hcar5 HC5) as [Hloc Hsl]. eapply HQ; [exact HR5|done|done|exact Hsl|done|apply Hcar5|by rewrite E5|done].
Qed.
End Insert.

(** ** The theorems *)
Lemma outcome_ok {St A} `{HostLaws St} (m : Eff St A) s a s' Q E : outcome disk steady m s Q E -> m s = (Ok a, s') -> steady s' /\ Q a (disk s').
Proof. unfold outcome. intros H1 H2. by rewrite H2 in H1. Qed.
Definition visible (R : Relation) : list Slot := filter (fun s => published_live s = true) (slots R).
(** What was stored of other documents stays readable. *)
Definition payloads_kept (d d' : Disk) : Prop := forall owner s payload, stored_payload d owner s payload -> stored_payload d' owner s payload.
Lemma fragments_payloads d d' : stable fragments d d' -> payloads_kept d d'.
Proof. intros Hst owner s payload H. unfold stored_payload in *. destruct (is_empty (s_inline s)); [by eapply payload_stable|done]. Qed.
(** C1: the publication of a document is atomic, over any host that keeps its contract and may
    fail at any operation, on any disk whose metapage and owner pages are in order,
    whatever else is on it: [insert] never panics and its loops end. When it succeeds,
    the relation has one more owner, at the reference that is returned, with the next
    incarnation, the root and the counts of the document, published, and its payload can
    be read back from the slot or its fragments. When it fails, wherever that is, the
    relation is still in order, and either no owner was added or one that scans see only
    if its whole payload can be read. Either way the owners that were there are as they
    were, and their payloads too. What the dictionary says of a term is not part of it. *)
Theorem insert_atomic `{laws : HostLaws St} (s : St) R root document :
  steady s -> relation_rep Host.layout (disk s) R -> len (disk s) < 2 ^ 32 -> root_wf Host.layout root ->
  match insert root document s with
  | (Ok owner, s') => exists R' slot, relation_rep Host.layout (disk s') R' /\ slots R' = slots R ++ [slot] /\ located R' owner slot /\ slot_for (next_incarnation R) root document slot /\
      visible R' = visible R ++ [slot] /\ stored_payload (disk s') owner slot (PreparedDocument.bytes document) /\ payloads_kept (disk s) (disk s')
  | (Err _, s') => exists R', relation_rep Host.layout (disk s') R' /\ payloads_kept (disk s) (disk s') /\
      (slots R' = slots R \/ exists owner slot, slots R' = slots R ++ [slot] /\ located R' owner slot /\ slot_for (next_incarnation R) root document slot /\
        (visible R' = visible R \/ visible R' = visible R ++ [slot] /\ stored_payload (disk s') owner slot (PreparedDocument.bytes document)))
  | (Panic, _) => False
  end.
Proof.
  intros Hs HR Hl Hroot. assert (Hvis : forall R' slot, slots R' = slots R ++ [slot] -> visible R' = visible R ++ if published_live slot then [slot] else []).
  { intros R' slot E. unfold visible. rewrite E, list.filter_app. f_equal. rewrite list.filter_cons. by destruct (published_live slot). }
  pose proof (wp_insert R (disk s) root document HR Hl Hroot (fun owner d' => exists R' slot, relation_rep Host.layout d' R' /\ slots R' = slots R ++ [slot] /\ located R' owner slot /\ slot_for (next_incarnation R) root document slot /\
      visible R' = visible R ++ [slot] /\ stored_payload d' owner slot (PreparedDocument.bytes document) /\ payloads_kept (disk s) d')) as H.
  assert (Hq : wp (disk s) (insert root document) (fun owner d' => exists R' slot, relation_rep Host.layout d' R' /\ slots R' = slots R ++ [slot] /\ located R' owner slot /\ slot_for (next_incarnation R) root document slot /\
      visible R' = visible R ++ [slot] /\ stored_payload d' owner slot (PreparedDocument.bytes document) /\ payloads_kept (disk s) d') (interrupted Host.layout R (disk s) root document)).
  { apply H. intros owner slot R' d' HR' _ Hst Hsl Hloc Hfor Hp Hpay. exists R', slot. split; [done|]. split; [done|]. split; [done|]. split; [done|]. split; [by rewrite (Hvis R' slot Hsl), Hp|]. split; [done|by apply fragments_payloads]. }
  specialize (Hq s Hs eq_refl). unfold outcome in Hq. destruct (insert root document s) as [[owner|e|] s']; [by destruct Hq| |done].
  destruct Hq as (R' & HR' & Hst & Hcase). exists R'. split; [done|]. split; [by apply fragments_payloads|]. destruct Hcase as [Hc|(owner & slot & Hsl & Hloc & Hfor & Hp)]; [by left|right]. exists owner, slot. split; [done|]. split; [done|]. split; [done|].
  pose proof (Hvis R' slot Hsl) as Hv. destruct (published_live slot); [right; split; [done|by apply Hp]|left; by rewrite Hv, app_nil_r].
Qed.

(** ** A new relation *)
Definition initial_relation (packed : bool) : Relation :=
  mkRelation (mkMetaState packed (meta_next meta_initial) (meta_owners meta_initial) (meta_free meta_initial) (meta_journal meta_initial) (meta_buckets meta_initial), GroupState.default) [].
Lemma wp_initialize `{laws : HostLaws St} : wp [] initialize (fun _ d => relation_rep Host.layout d (initial_relation Host.packed_postings) /\ len d = 1)
  (fun d => faulty /\ (d = [] \/ d = [[]] \/ relation_rep Host.layout d (initial_relation Host.packed_postings))).
Proof.
  unfold initialize. apply wp_bind, wp_blocks; [done| |by auto]. change (len (@nil (list byte))) with 0. cbn [N.eqb negb]. apply wp_bind, wp_allocate; [done| |by auto|intros [?|[=]]; by auto]. intros _. change (len (@nil (list byte))) with 0. cbn [N.eqb negb app].
  destruct (metadata_ok Host.layout law_layout) as (p0 & E & Hrep & Hb0 & Hl0). rewrite E. apply wp_bind, wp_ret.
  assert (Hm0 : is_meta Host.layout p0 (meta_initial, GroupState.default)) by (split; [split; [done|]; split; [by apply tail_legacy|apply group_default_ok]|]; split; [by eapply metadata_sound|done]).
  assert (Hmeta : forall p, is_meta Host.layout p (r_meta (initial_relation Host.packed_postings)) -> wp [[]] (Host.commit [p]) (fun _ d => relation_rep Host.layout d (initial_relation Host.packed_postings) /\ len d = 1)
    (fun d => faulty /\ (d = [] \/ d = [[]] \/ relation_rep Host.layout d (initial_relation Host.packed_postings)))).
  { intros p Hm. pose proof Hm as (Hr & Hs & Hb). assert (Hw : write [[]] [p] = [used p]) by (unfold write; cbn [foldl]; by rewrite Hb).
    assert (HR : relation_rep Host.layout [used p] (initial_relation Host.packed_postings)) by (constructor; [exists p; split; [done|]; split; [done|by rewrite Hb]|done|done|constructor|constructor]).
    apply wp_commit; rewrite ?Hw; [|by split|intros [?|Hv]; [by auto|]|by auto].
    - split; [vm_compute; split; intros [=]|]. split; [|apply list.NoDup_singleton]. constructor; [|constructor]. split; [exact Hs|]. rewrite Hb. reflexivity.
    - exfalso. apply Hv. constructor; [|constructor]. by eapply meta_valid. }
  apply wp_bind. destruct Host.packed_postings eqn:Epk; [|by apply wp_ret, Hmeta].
  destruct (meta_set Host.layout (Page.enable_packed_postings p0) p0 _ EnablePacked eq_refl Hm0 I) as [Hsf Hok]. pose proof (meta_op Host.layout p0 _ EnablePacked Hm0 I) as Hop. cbn [meta_step fst] in Hop. destruct Hop as (p1 & Ep & Hm1). cbn [page_step] in Ep.
  destruct (Page.enable_packed_postings p0) as [q|e|]; cbn [rbind] in Ep; [|done|done]. apply Ok_inj in Ep. injection Ep as ->. apply wp_ret, Hmeta. exact Hm1.
Qed.
(** initialization makes an empty relation of an empty store; where the host fails the
    store is empty, has one unused block, or is that relation already. *)
Theorem initialize_relation `{laws : HostLaws St} (s : St) : steady s -> disk s = [] ->
  match initialize s with
  | (Ok _, s') => relation_rep Host.layout (disk s') (initial_relation Host.packed_postings) /\ len (disk s') = 1
  | (Err _, s') => faulty /\ (disk s' = [] \/ disk s' = [[]] \/ relation_rep Host.layout (disk s') (initial_relation Host.packed_postings))
  | (Panic, _) => False
  end.
Proof. intros Hs Hd. pose proof (wp_initialize s Hs Hd) as H. unfold outcome in H. destruct (initialize s) as [[[]|e|] s']; [apply H|exact H|exact H]. Qed.

(** ** Instances *)
Definition sample_document : PreparedDocument.t :=
  PreparedDocument.mk (PD02 ++ le_bytes 4 1 ++ le_bytes 4 1 ++ le_bytes 4 1 ++ le_bytes 2 2 ++ le_bytes 2 0 ++ le_bytes 4 5 ++ [byte_of 97; byte_of 98] ++ le_bytes 4 1 ++ [byte_of 0]) 1 1.
Definition memory (fail_at : option N) : MemoryStore.t := MemoryStore.mk [] [] fail_at.
#[export] Instance sample_host : Host.t MemoryStore.t := MemoryStore.host sample_layout true false.
#[export] Instance sample_laws : HostLaws MemoryStore.t := memory_laws sample_layout true false sample_layout_wf true.
Definition sample_store : MemoryStore.t := Eval vm_compute in snd (initialize (memory None)).
Lemma sample_store_ready : initialize (memory None) = (Ok tt, sample_store).
Proof. vm_compute. reflexivity. Qed.
Lemma sample_store_relation : steady sample_store /\ relation_rep Host.layout (disk sample_store) (initial_relation Host.packed_postings) /\ len (disk sample_store) = 1.
Proof. exact (outcome_ok _ _ _ _ _ _ (wp_initialize (memory None) (fun _ => eq_refl) eq_refl) sample_store_ready). Qed.
Lemma initialize_relation_witness : exists R, relation_rep Host.layout (disk sample_store) R.
Proof.
  exists (initial_relation Host.packed_postings). pose proof (initialize_relation (memory None) (fun _ => eq_refl) eq_refl) as H.
  rewrite sample_store_ready in H. exact (proj1 H).
Defined.
Lemma insert_atomic_witness :
  fst (insert (mkRootTid 3 4) sample_document sample_store) = Ok (mkOwnerRef 1 0 1) /\
  exists R, relation_rep Host.layout (disk (snd (insert (mkRootTid 3 4) sample_document sample_store))) R /\ s_root <$> visible R = [mkRootTid 3 4].
Proof.
  assert (E : fst (insert (mkRootTid 3 4) sample_document sample_store) = Ok (mkOwnerRef 1 0 1)) by (vm_compute; reflexivity). split; [exact E|].
  pose proof sample_store_relation as (Hsteady & HR & Hlen).
  pose proof (insert_atomic sample_store (initial_relation Host.packed_postings) (mkRootTid 3 4) sample_document Hsteady HR) as H.
  assert (Hroot : root_wf Host.layout (mkRootTid 3 4)) by (vm_compute; repeat split; discriminate).
  assert (Hl : len (disk sample_store) < 2 ^ 32) by (rewrite Hlen; reflexivity). specialize (H Hl Hroot).
  destruct (insert (mkRootTid 3 4) sample_document sample_store) as [r s']. cbn [fst snd] in *. subst r.
  destruct H as (R & slot & HR' & _ & _ & (pub & live & head & Es) & Hv & _). exists R. split; [exact HR'|]. rewrite Hv, Es. reflexivity.
Defined.
